(* ===== verification/_CoqProject ===== *)
-Q . S2P
Prelude.v
Inst.v
Stride.v
Discovery.v
Taint.v
Uop.v
Recorder.v
Rename.v
Vir.v
VirLane.v
VirGroup.v
VirExec.v
LoopBound.v
Sst.v
Nested.v
Ndm.v
Predicate.v
Quality.v
Relation.v
AltPath.v
Generation.v
Replay.v
Helper.v
HelperFetch.v
RegAlloc.v
RenameStage.v
Runahead.v
HelperRegs.v
HelperBank.v
Lanes.v
PrefetchQueue.v
Prefetch.v
VirBuffer.v
Interplay.v
Simt.v
Flatten.v
Rob.v
Driver.v
Engine.v
EngineInv.v
InstList.v
