(* ===== verification/Prelude.v ===== *)
(** * Verification of the runahead machinery of gem5-dvr

    The repository extends gem5's out-of-order CPU ("O3") with Precise Runahead Execution
    (PRE) and Decoupled Vector Runahead (DVR).  This library models the data structures and
    state machines of both, under src/code/gem5-runahead-dev-pre/src/cpu/o3/ (written O3/
    below), as executable definitions, and proves what makes them correct.

    ** The program

    DVR watches the loads of the main thread.  The stride detector finds a load that strides
    and opens a Discovery at its next dispatch; the Discovery ends when the trigger commits
    again.  Meanwhile the taint tracker follows the registers that depend on the trigger and
    remembers the last dependent load (FLR), the instruction recorder captures the dependent
    instructions as uops, and the loop-bound detector infers the remaining iterations from
    the branch that closes the loop (LCR).  The vector rename table and the vector instruction
    register (VIR) then run the recorded uops on up to 128 lanes, each lane one future
    iteration, first in one pass and later as the source loads respond, and the addresses
    reached are prefetched.  Nested discoveries, the Nested Discovery Mode for short inner
    loops, the lane predicate tracker and the prefetch quality tracker complete the engine.
    Each helper program has a register bank of its own, mapped lane by lane, which in shared
    mode borrows physical registers from the main core's free list.
    PRE, on a full-window stall, keeps renaming and executing the instructions of the stalling
    slices on the free physical registers and rolls the register state back afterwards.

    ** Files, and the code they model

    - Prelude.v (this file): record update, machine integers ([u64], [s64], [u32], bits),
      loops over index ranges, recency lists, counting of occurrences.
    - Inst.v: register classes and identifiers (cpu/reg_class.hh), the RISC-V PC state, and
      [DynInst] as the record of what DVR reads of an instruction.
    - Stride.v, Discovery.v, Taint.v, LoopBound.v, Sst.v: [DVRStrideDetector],
      [DVRDiscoveryController], [DVRVectorTaintTracker], [DVRLoopBoundDetector], [SST] and
      [MispTable] (O3/pre.hh, O3/pre.cc).
    - Uop.v, Recorder.v, Rename.v: [DVRInstructionRecorder] with its uop decoder and
      evaluators, and [DVRVectorRenameTable] (O3/pre.hh, O3/pre.cc).
    - Vir.v, VirLane.v, VirGroup.v, VirExec.v: [DVRVectorInstructionRegister]: its state, then
      [resumeSourceLane], [resumeSourceLanes], and [executeLanePC] with [execute] and
      [executeFromSource].
    - Nested.v, Ndm.v: [DVRNestedController], [DVRNestedDiscoveryMode] (O3/dvr_nested.hh, .cc).
    - Predicate.v: [DVRLanePredicateTracker] (O3/dvr_predicate.hh, .cc).
    - Quality.v: [DVRQualityTracker] and its shadow cache (O3/dvr_quality.hh, .cc).
    - RegAlloc.v: free lists, rename maps, physical register identifiers and scoreboard
      (O3/free_list.hh, rename_map.hh/.cc, regfile.cc, scoreboard.hh, cpu/reg_class.hh).
    - RenameStage.v: the register bookkeeping of [Rename] (O3/rename.cc) with [CPU::enterPRE]
      and [CPU::exitPRE] (O3/cpu.cc); Runahead.v: the theorems on whole PRE sessions.
    - HelperRegs.v, HelperBank.v: [DVRHelperVectorRegisterFile] (O3/cpu.hh), its operations and
      what whole helper programs do with them; Interplay.v: any number of banks beside the
      rename stage, on the free list and register file they share.
    - Relation.v, AltPath.v: the affine relations that [CPU::trainDVRAddressRelation] learns
      and the paths a launch derives from them; the cache of alternate branch paths,
      [recordDVRAlternatePaths] and [augmentDVRAlternatePaths] (O3/cpu.cc).
    - Generation.v, Replay.v: the predicate generation of a launch; the replay template, its
      construction, and the interpreter of [CPU::replayDVRSource] (O3/cpu.cc, O3/cpu.hh).
    - Helper.v, HelperFetch.v, Lanes.v: [DVRHelperThread] (O3/cpu.hh): its counters, window and
      issue queue; its instruction fetches and the frontend part of [CPU::tick]; the replay
      lanes that responses add and resume, over the interface [LaneBank] of a register bank.
    - PrefetchQueue.v, Prefetch.v: the queue of prefetches, the tables that deduplicate it and
      the helper's load queue; the launches, [serviceDVRPrefetchQueue] and
      [completeDVRPrefetch] that drive them, with the helper thread (O3/cpu.cc).
    - VirBuffer.v, Simt.v: the vector uops in flight with [retireCompletedVIR] and
      [markDeadSources] (O3/cpu.hh), over the interface [VectorBank], which HelperRegs.v
      implements; [issueDVRReplayLanes] and [issueDVRHelperCompute] (O3/cpu.cc), the SIMT
      execution of the lanes of Lanes.v on these copies, and the helper's part of [CPU::tick].
    - Flatten.v: the flattened nested launch, [launchDVRNestedPrefetches] (O3/cpu.cc).
    - Driver.v: the discovery engine as the CPU drives it, [observeDVRDispatch],
      [observeDVRLoad], [squashInstIt], [instDone] and [completeDVRNestedContext] (O3/cpu.cc),
      over the units of the files above; Engine.v and EngineInv.v: the theorems on it.
    - Rob.v, InstList.v: the reorder buffer (O3/rob.hh, rob.cc), and the CPU's instruction list with
      the walks that squash (O3/cpu.cc), which give the engine its order of events.
    A class is a [Record] of its members in a Module of the file's name; a method is a
    [Definition] on it with the method's name.  An array is a list read with [!!!] and written
    with [<[ ]>] at an index the code keeps in range; an unordered map or set is a [gmap] or
    [gset]; an integer of w bits is a [Z], wrapped where the code can overflow; an assertion
    that fails, an exception or an access out of range is [None] or a constructor of an
    outcome type.  Statistics, traces and debug output are left out, except where a counter is
    returned or read back.

    ** What the theorems show

    - PRE: a session restores the rename map, the free lists, the history and the readiness of
      every register in use, whatever happens in it, and never shares a register; outside PRE
      every physical register is in exactly one place and a squash undoes renaming exactly.
    - VIR: the response-driven interpreter of one lane computes the outcome of a scalar
      machine; windowed and whole-template fetches agree; responses of distinct lanes commute;
      the group scheduler keeps its masks and stack consistent and leaves waiting lanes alone;
      the initial pass runs all lanes in lockstep as one scalar machine.
    - Detection: the stride table stays well-formed, learns affine streams and undoes squashed
      dispatches; a Discovery spans exactly the commits up to the dispatched stop; taint is
      the dataflow relation of the stream; the inferred bound is what the closing comparison
      says; the decoder inverts the encodings; the recorded template and its reconvergence
      policy are as specified.
    - Nested modes and trackers: LIFO discipline, invariants and termination; regular plans;
      accounting identities; the shadow cache and the SST refine bounded LRU lists.
    - Helper banks: a bank is an array of registers by lanes under every masked rename,
      reference and main-core activity; a register with references stays; every borrowed
      register returns when the bank is released, up to what the main core itself takes and frees;
      programs and main core are isolated from each other.
    - Helper thread and its requests: the counters, window and queues keep their bounds in any
      order of calls, the issue queue is refilled with exactly the pending work, a fetch that
      waits is answered; an affine relation is learned and the tracker selects the right path;
      a replayed address is the one the recorded program computes; responses add and resume
      the lanes they belong to; every request is accounted for, from its place in the queue to
      its response, and a willing machine empties the queue whatever the helper is doing and
      whatever further requests the responses lead to.
    - SIMT issue: for templates with tidy branches (the record [tidy]) any number of helper
      cycles leaves every lane where its own program, run alone, would have taken it, with the
      registers of that run, and queues only addresses such runs compute; a call issues at most
      one uop, for distinct lanes of one free copy.  What happens to other templates is shown by
      examples at the end of Simt.v.
    - Discovery engine: whatever the order of dispatches, executions, squashes, commits and steps
      of the helper, the units agree on the trigger while a discovery is open; while none is, taint,
      final load, loop bound and recorder are reset; the nested state and the requests stay well
      formed.  In the order of an out-of-order pipeline, with wrong paths, micro-operations and runahead
      periods, the recorded program is the committed path of the trigger, as far as its
      instructions were dispatched outside of runahead, with the taint of that path; wrong-path
      instructions leave no trace.  The squashes of the CPU's list come in that
      order; a squash of the reorder buffer marks exactly the younger instructions, in as many
      cycles as its width needs.  A nested launch queues the product of its
      outer and inner iterations.
    - Divergences of the code from its purpose are theorems too (named in their comments).

    ** Bounds and fuel

    No definition stops early for lack of fuel: loops over arrays run their index range, the
    VIR interpreters are bounded by the budget the code itself passes (each step consumes
    helper budget or pops the eight-entry stack), and the loops of the other units recurse on
    their input.  Capacities (128 lanes, 256 uops, 32 registers, 8 stack entries, ...) are the
    constants of the source.

    ** Not modelled

    - The timing pipeline (fetch, decode, IEW, commit, the rename stage's stalls), the LSQ and
      the instruction queue: they move instructions between units through timed buffers, ports
      and events; what they feed the modelled units is the input of the operations here.
    - The rest of the CPU object (O3/cpu.cc): threads, ports, draining.  The units are modelled
      for one thread, as DVR keeps one copy of each.
      Borrowing within a PRE session is outside the isolation theorem: PRE frees registers it
      finds allocated, and Interplay.v shows that this hands out borrowed registers twice and
      loses those returned in between.
    - gem5's other CPU models, the memory system, the devices and the ISA descriptions: stock
      code that the build or the simulator kernel drives.
    - Floating-point ratios of the quality tracker, and register values of [PhysRegFile]. *)

From stdpp Require Export base decidable list numbers gmap.
From Stdlib Require Export ZArith Lia.

#[global] Open Scope Z_scope.

#[global] Arguments Nat.div : simpl never.
#[global] Arguments Nat.modulo : simpl never.
#[global] Arguments Z.pow : simpl never.
#[global] Arguments Z.modulo : simpl never.
#[global] Arguments Nat.ltb : simpl never.
#[global] Arguments Nat.leb : simpl never.

(** ** Record update

    The C++ code updates single fields of large structs.  A record [R] that
    declares its eta expansion as an [Eta] instance gets the update notation
    [r <| field := v |>] for each of its fields. *)

Class Eta (R : Type) := eta_expand : R → R.

Class Update {R T : Type} (proj : R → T) := update_field : (T → T) → R → R.

#[global] Arguments update_field {R T proj _} f r /.

Ltac derive_update :=
  lazymatch goal with
  | |- @Update ?R ?T ?p =>
      let i := constr:(_ : Eta R) in
      let e := eval hnf in i in
      lazymatch (eval pattern p in e) with
      | ?F _ =>
          let t := eval cbv beta in
            (λ (f : T → T) (r : R), F (λ x : R, f (p x)) r) in
          exact t
      end
  end.

#[export] Hint Extern 1 (Update _) => derive_update : typeclass_instances.

Declare Scope record_scope.
Delimit Scope record_scope with record.
#[global] Open Scope record_scope.

Notation "r <| p := v |>" := (update_field (proj := p) (λ _, v) r)
  (at level 1, left associativity, p at level 0, v at level 99) : record_scope.
Notation "r <| p ::= f |>" := (update_field (proj := p) f r)
  (at level 1, left associativity, p at level 0, f at level 99) : record_scope.

(** ** Machine integers

    A [w]-bit unsigned integer is a [Z] in [0, 2^w).  [uN] is the C++ conversion to
    [uintN_t] (reduction modulo [2^N]); [sN] is the conversion to [intN_t] (two's
    complement).  Signed 64-bit arithmetic whose result leaves the range is modelled
    with wrap-around. *)

Definition u8 (z : Z) : Z := z mod 2 ^ 8.
Definition u16 (z : Z) : Z := z mod 2 ^ 16.
Definition u32 (z : Z) : Z := z mod 2 ^ 32.
Definition u64 (z : Z) : Z := z mod 2 ^ 64.

Definition s32 (z : Z) : Z :=
  let u := z mod 2 ^ 32 in if u <? 2 ^ 31 then u else u - 2 ^ 32.
Definition s64 (z : Z) : Z :=
  let u := z mod 2 ^ 64 in if u <? 2 ^ 63 then u else u - 2 ^ 64.

(** [++counter] on [unsigned], [uint64_t]. *)
Definition inc32 (z : Z) : Z := u32 (z + 1).
Definition inc64 (z : Z) : Z := u64 (z + 1).

Definition is_u32 (z : Z) : Prop := 0 <= z < 2 ^ 32.
Definition is_u64 (z : Z) : Prop := 0 <= z < 2 ^ 64.

Create HintDb dvr.
Create Rewrite HintDb dvr_word.

Lemma u64_range z : is_u64 (u64 z).
Proof. unfold is_u64, u64. apply Z.mod_pos_bound. lia. Qed.

Lemma u32_range z : is_u32 (u32 z).
Proof. unfold is_u32, u32. apply Z.mod_pos_bound. lia. Qed.

Lemma u64_small z : is_u64 z → u64 z = z.
Proof. unfold is_u64, u64. intros. by apply Z.mod_small. Qed.

Lemma u32_small z : is_u32 z → u32 z = z.
Proof. unfold is_u32, u32. intros. by apply Z.mod_small. Qed.

Lemma s64_range z : - 2 ^ 63 <= s64 z < 2 ^ 63.
Proof.
  unfold s64. pose proof (Z.mod_pos_bound z (2 ^ 64) ltac:(lia)).
  destruct (Z.ltb_spec (z mod 2 ^ 64) (2 ^ 63)); lia.
Qed.

Lemma s64_small z : - 2 ^ 63 <= z < 2 ^ 63 → s64 z = z.
Proof.
  intros H. unfold s64. destruct (Z.lt_ge_cases z 0).
  - replace (z mod 2 ^ 64) with (z + 2 ^ 64).
    + destruct (Z.ltb_spec (z + 2 ^ 64) (2 ^ 63)); lia.
    + rewrite <- (Z_mod_plus_full z 1). rewrite Z.mod_small; lia.
  - rewrite Z.mod_small by lia. destruct (Z.ltb_spec z (2 ^ 63)); lia.
Qed.

(** Signed and unsigned views agree modulo [2^64]. *)
Lemma u64_s64 z : u64 (s64 z) = u64 z.
Proof.
  unfold s64, u64. destruct (z mod 2 ^ 64 <? 2 ^ 63).
  - by rewrite Z.mod_mod by lia.
  - rewrite <- (Z_mod_plus_full (_ - _) 1).
    replace (z mod 2 ^ 64 - 2 ^ 64 + 1 * 2 ^ 64) with (z mod 2 ^ 64) by lia.
    by rewrite Z.mod_mod by lia.
Qed.

Lemma s64_u64 z : s64 (u64 z) = s64 z.
Proof. unfold s64, u64. by rewrite Z.mod_mod by lia. Qed.

Lemma s64_congr a b : u64 a = u64 b → s64 a = s64 b.
Proof. unfold u64, s64. by intros ->. Qed.

Lemma u64_add_l a b : u64 (u64 a + b) = u64 (a + b).
Proof. unfold u64. by rewrite Zplus_mod_idemp_l. Qed.

Lemma u64_add_r a b : u64 (a + u64 b) = u64 (a + b).
Proof. unfold u64. by rewrite Zplus_mod_idemp_r. Qed.

Lemma u64_sub_l a b : u64 (u64 a - b) = u64 (a - b).
Proof. unfold u64. by rewrite Zminus_mod_idemp_l. Qed.

Lemma u64_sub_r a b : u64 (a - u64 b) = u64 (a - b).
Proof. unfold u64. by rewrite Zminus_mod_idemp_r. Qed.

Lemma u64_idemp a : u64 (u64 a) = u64 a.
Proof. unfold u64. by rewrite Z.mod_mod by lia. Qed.

Lemma inc64_small c : 0 <= c < 2 ^ 64 - 1 → inc64 c = c + 1.
Proof. intros. unfold inc64. apply u64_small. unfold is_u64. lia. Qed.

Lemma inc32_small c : 0 <= c < 2 ^ 32 - 1 → inc32 c = c + 1.
Proof. intros. unfold inc32. apply u32_small. unfold is_u32. lia. Qed.

Lemma inc32_le c : 0 <= c → 0 <= inc32 c <= c + 1.
Proof.
  intros. unfold inc32, u32. pose proof (Z.mod_pos_bound (c + 1) (2 ^ 32) ltac:(lia)).
  pose proof (Z.mod_le (c + 1) (2 ^ 32) ltac:(lia) ltac:(lia)). lia.
Qed.

#[export] Hint Resolve u64_range u32_range : dvr.
#[export] Hint Rewrite u64_s64 s64_u64 u64_add_l u64_add_r u64_sub_l u64_sub_r u64_idemp
  : dvr_word.

(** ** Single bits of a machine word *)

(** [uintN_t(1) << n] *)
Definition bit (n : nat) : Z := Z.shiftl 1 (Z.of_nat n).

Definition test_bit (w : Z) (n : nat) : bool := negb (Z.land w (bit n) =? 0).
Definition set_bit (w : Z) (n : nat) : Z := Z.lor w (bit n).
(** [w &= ~bit]; [w] is non-negative and in range, so the complement of [bit] at the
    word's width and [Z.lnot] select the same bits of [w]. *)
Definition clear_bit (w : Z) (n : nat) : Z := Z.land w (Z.lnot (bit n)).

Lemma bit_pow n : bit n = 2 ^ Z.of_nat n.
Proof. unfold bit. rewrite Z.shiftl_mul_pow2 by lia. lia. Qed.

Lemma testbit_bit n m : Z.testbit (bit n) (Z.of_nat m) = bool_decide (n = m).
Proof.
  rewrite bit_pow. case_bool_decide as E.
  - subst. by rewrite Z.pow2_bits_true by lia.
  - rewrite Z.pow2_bits_false by lia. done.
Qed.

Lemma test_bit_spec w n : test_bit w n = Z.testbit w (Z.of_nat n).
Proof.
  unfold test_bit. destruct (Z.eqb_spec (Z.land w (bit n)) 0) as [E|E]; simpl.
  - assert (Z.testbit (Z.land w (bit n)) (Z.of_nat n) = false) as F
      by (rewrite E; apply Z.bits_0).
    rewrite Z.land_spec, testbit_bit, bool_decide_eq_true_2, andb_true_r in F by done. done.
  - destruct (Z.testbit w (Z.of_nat n)) eqn:T; [done|]. exfalso. apply E.
    apply Z.bits_inj'. intros m Hm. rewrite Z.land_spec, Z.bits_0.
    rewrite <- (Z2Nat.id m) by lia. rewrite testbit_bit. case_bool_decide as D.
    + rewrite <- D, T. done.
    + apply andb_false_r.
Qed.

Lemma test_set_bit w n m :
  test_bit (set_bit w n) m = bool_decide (n = m) || test_bit w m.
Proof.
  rewrite !test_bit_spec. unfold set_bit.
  rewrite Z.lor_spec, testbit_bit, orb_comm. done.
Qed.

Lemma test_clear_bit w n m :
  test_bit (clear_bit w n) m = negb (bool_decide (n = m)) && test_bit w m.
Proof.
  rewrite !test_bit_spec. unfold clear_bit.
  rewrite Z.land_spec, Z.lnot_spec, testbit_bit by lia. apply andb_comm.
Qed.

Lemma test_bit_0 n : test_bit 0 n = false.
Proof. rewrite test_bit_spec. apply Z.bits_0. Qed.

Lemma set_bit_nonneg w n : 0 <= w → 0 <= set_bit w n.
Proof. intros. unfold set_bit. apply Z.lor_nonneg. split; [done|]. rewrite bit_pow. lia. Qed.

Lemma clear_bit_nonneg w n : 0 <= w → 0 <= clear_bit w n.
Proof. intros. unfold clear_bit. apply Z.land_nonneg. by left. Qed.

(** Two non-negative words are equal when all their bits are. *)
Lemma word_ext a b : (∀ n, test_bit a n = test_bit b n) → a = b.
Proof.
  intros H. apply Z.bits_inj'. intros m Hm. specialize (H (Z.to_nat m)).
  rewrite !test_bit_spec, Z2Nat.id in H by lia. done.
Qed.

(** Clearing a bit that was just set where it was clear restores the word. *)
Lemma clear_set_bit w n : test_bit w n = false → clear_bit (set_bit w n) n = w.
Proof.
  intros H. apply word_ext. intros m. rewrite test_clear_bit, test_set_bit.
  case_bool_decide; subst; simpl; [done|]. done.
Qed.

Lemma word_zero a : (∀ n, test_bit a n = false) → a = 0.
Proof. intros H. apply word_ext. intros n. by rewrite H, test_bit_0. Qed.

Lemma set_bit_range w n k :
  (n < k)%nat → 0 <= w < 2 ^ Z.of_nat k → 0 <= set_bit w n < 2 ^ Z.of_nat k.
Proof.
  intros Hn Hw. split; [by apply set_bit_nonneg; lia|].
  unfold set_bit. rewrite bit_pow.
  destruct (Z.eq_dec (Z.lor w (2 ^ Z.of_nat n)) 0) as [->|]; [lia|].
  apply Z.log2_lt_pow2.
  - assert (0 <= Z.lor w (2 ^ Z.of_nat n)); [|lia]. apply Z.lor_nonneg. lia.
  - rewrite Z.log2_lor by lia. rewrite Z.log2_pow2 by lia.
    apply Z.max_lub_lt; [|lia].
    destruct (Z.eq_dec w 0) as [->|]; [simpl; lia|]. apply Z.log2_lt_pow2; lia.
Qed.

Lemma clear_bit_range w n k :
  0 <= w < 2 ^ k → 0 <= clear_bit w n < 2 ^ k.
Proof.
  intros Hw. split; [apply clear_bit_nonneg; lia|].
  enough (clear_bit w n <= w) by lia. apply Z.ldiff_le; [lia|].
  apply word_zero. intros m. rewrite test_bit_spec, Z.ldiff_spec, <- !test_bit_spec.
  rewrite test_clear_bit. by destruct (test_bit w m), (bool_decide (n = m)).
Qed.

(** ** Lane masks

    [std::array<uint64_t, 2>]: one bit per logical lane, lane [l] being bit [l % 64] of
    word [l / 64]. *)

Definition LaneMask : Type := Z * Z.

Definition mask_empty : LaneMask := (0, 0).

Definition mask_test (m : LaneMask) (lane : nat) : bool :=
  test_bit (if (lane / 64 =? 0)%nat then m.1 else m.2) (lane mod 64).

Definition mask_set (m : LaneMask) (lane : nat) : LaneMask :=
  if (lane / 64 =? 0)%nat then (set_bit m.1 (lane mod 64), m.2)
  else (m.1, set_bit m.2 (lane mod 64)).

Definition mask_clear (m : LaneMask) (lane : nat) : LaneMask :=
  if (lane / 64 =? 0)%nat then (clear_bit m.1 (lane mod 64), m.2)
  else (m.1, clear_bit m.2 (lane mod 64)).

Lemma lane_split a b :
  (a < 128)%nat → (b < 128)%nat →
  (a / 64 =? 0)%nat = (b / 64 =? 0)%nat → (a mod 64 = b mod 64)%nat → a = b.
Proof.
  intros Ha Hb Hd Hm.
  pose proof (Nat.div_mod_eq a 64). pose proof (Nat.div_mod_eq b 64).
  assert (a / 64 < 2)%nat by (apply Nat.Div0.div_lt_upper_bound; lia).
  assert (b / 64 < 2)%nat by (apply Nat.Div0.div_lt_upper_bound; lia).
  destruct (Nat.eqb_spec (a / 64) 0), (Nat.eqb_spec (b / 64) 0); try discriminate; lia.
Qed.

Lemma mask_test_set m a b :
  (a < 128)%nat → (b < 128)%nat →
  mask_test (mask_set m a) b = bool_decide (a = b) || mask_test m b.
Proof.
  intros Ha Hb. unfold mask_test, mask_set.
  destruct (a / 64 =? 0)%nat eqn:Da, (b / 64 =? 0)%nat eqn:Db; simpl;
    rewrite ?test_set_bit; repeat case_bool_decide; simpl; try done; subst;
    try congruence; exfalso; eauto using lane_split, eq_trans, eq_sym.
Qed.

Lemma mask_test_clear m a b :
  (a < 128)%nat → (b < 128)%nat →
  mask_test (mask_clear m a) b = negb (bool_decide (a = b)) && mask_test m b.
Proof.
  intros Ha Hb. unfold mask_test, mask_clear.
  destruct (a / 64 =? 0)%nat eqn:Da, (b / 64 =? 0)%nat eqn:Db; simpl;
    rewrite ?test_clear_bit; repeat case_bool_decide; simpl; try done; subst;
    try congruence; exfalso; eauto using lane_split, eq_trans, eq_sym.
Qed.

Lemma mask_test_empty l : mask_test mask_empty l = false.
Proof. unfold mask_test, mask_empty. simpl. destruct (_ =? 0)%nat; apply test_bit_0. Qed.

(** ** Counted loops

    [for (i = lo; i < lo + n; ++i) s = body(i, s)] *)

Definition for_range {S : Type} (lo n : nat) (body : nat → S → S) (s : S) : S :=
  foldl (λ s i, body i s) s (seq lo n).

Lemma for_range_0 {S} lo (body : nat → S → S) s : for_range lo 0 body s = s.
Proof. done. Qed.

Lemma for_range_S {S} lo n (body : nat → S → S) s :
  for_range lo (Datatypes.S n) body s = for_range (Datatypes.S lo) n body (body lo s).
Proof. done. Qed.

Lemma for_range_snoc {S} lo n (body : nat → S → S) s :
  for_range lo (Datatypes.S n) body s = body (lo + n)%nat (for_range lo n body s).
Proof. unfold for_range. by rewrite seq_S, foldl_app. Qed.

(** Loop rule with an invariant that may mention the index reached. *)
Lemma for_range_rule {S} (P : nat → S → Prop) lo n (body : nat → S → S) s :
  P lo s →
  (∀ i s, (lo <= i < lo + n)%nat → P i s → P (Datatypes.S i) (body i s)) →
  P (lo + n)%nat (for_range lo n body s).
Proof.
  intros H0 Hstep. induction n as [|n IH].
  - by rewrite Nat.add_0_r.
  - rewrite for_range_snoc, Nat.add_succ_r. apply Hstep; [lia|].
    apply IH. intros i s' Hi. apply Hstep. lia.
Qed.

Lemma for_range_inv {S} (P : S → Prop) lo n (body : nat → S → S) s :
  P s → (∀ i s, (lo <= i < lo + n)%nat → P s → P (body i s)) →
  P (for_range lo n body s).
Proof. intros. by apply (for_range_rule (λ _, P)). Qed.

(** A preserved relation between the start state and the current one. *)
Lemma for_range_rel {S} (R : S → S → Prop) `{!PreOrder R} lo n (body : nat → S → S) s :
  (∀ i s, (lo <= i < lo + n)%nat → R s (body i s)) → R s (for_range lo n body s).
Proof.
  intros H. apply (for_range_inv (R s)); [reflexivity|].
  intros i s' Hi Hs. etrans; [done|]. by apply H.
Qed.

(** [for (step = 0; step < n; ++step) body], whose body may [continue], [break] or
    [return] out of the enclosing function. *)

Inductive Flow := Continue | Break | Return.

#[export] Instance Flow_eq_dec : EqDecision Flow.
Proof. solve_decision. Defined.

Fixpoint run_loop {S : Type} (n : nat) (body : S → S * Flow) (s : S) : S * Flow :=
  match n with
  | O => (s, Continue)
  | Datatypes.S n' =>
      let '(s', f) := body s in
      match f with Continue => run_loop n' body s' | _ => (s', f) end
  end.

Lemma run_loop_inv {S} (P : S → Prop) n (body : S → S * Flow) s :
  P s → (∀ s, P s → P (body s).1) → P (run_loop n body s).1.
Proof.
  intros H0 Hb. revert s H0. induction n as [|n IH]; intros s H0; simpl; [done|].
  specialize (Hb s H0). destruct (body s) as [s' f]. destruct f; [by apply IH|done|done].
Qed.

(** Invariant of the iterations that go on, and postcondition of the way out. *)
Lemma run_loop_rule {S} (P : nat → S → Prop) (Q : S → Flow → Prop) n (body : S → S * Flow) s :
  P 0%nat s →
  (∀ k s, (k < n)%nat → P k s →
     let '(s', f) := body s in
     match f with Continue => P (Datatypes.S k) s' | _ => Q s' f end) →
  (∀ s, P n s → Q s Continue) →
  let '(s', f) := run_loop n body s in Q s' f.
Proof.
  intros H0 Hb Hend.
  assert (∀ m k s, (k + m = n)%nat → P k s → let '(s', f) := run_loop m body s in Q s' f) as H.
  { induction m as [|m IH]; intros k s' Hk Hp; simpl.
    - apply Hend. by replace n with k by lia.
    - specialize (Hb k s' ltac:(lia) Hp). destruct (body s') as [s'' f].
      destruct f; [|done|done]. apply (IH (Datatypes.S k)); [lia|done]. }
  by apply (H n 0%nat).
Qed.

(** Two loops whose bodies stay related take the same way out. *)
Lemma run_loop_sim {S T} (R : S → T → Prop) n (f : S → S * Flow) (g : T → T * Flow) s t :
  R s t →
  (∀ s t, R s t → R (f s).1 (g t).1 ∧ (f s).2 = (g t).2) →
  R (run_loop n f s).1 (run_loop n g t).1 ∧ (run_loop n f s).2 = (run_loop n g t).2.
Proof.
  intros H0 Hstep. revert s t H0. induction n as [|n IH]; intros s t H0; simpl; [done|].
  destruct (Hstep s t H0) as [H1 H2]. destruct (f s) as [s' e], (g t) as [t' e']. simpl in *.
  subst e'. destruct e; [by apply IH|done|done].
Qed.

(** ** Arrays

    A [std::array] or [std::vector] is a list; [a[i]] inside its bounds is [a !!! i] and
    [a[i] = v] is [<[i:=v]> a].  The models index only inside the bounds the code
    guarantees. *)

Lemma lookup_total_insert_eq `{Inhabited A} (l : list A) i x :
  (i < length l)%nat → <[i:=x]> l !!! i = x.
Proof. intros. apply list_lookup_total_insert_eq. done. Qed.

Lemma lookup_total_insert_ne `{Inhabited A} (l : list A) i j x :
  i ≠ j → <[i:=x]> l !!! j = l !!! j.
Proof. intros. by apply list_lookup_total_insert_ne. Qed.

Lemma lookup_total_insert_case `{Inhabited A} (l : list A) i j x :
  (i < length l)%nat →
  <[i:=x]> l !!! j = if bool_decide (i = j) then x else l !!! j.
Proof.
  intros. case_bool_decide; subst.
  - by apply lookup_total_insert_eq.
  - by apply lookup_total_insert_ne.
Qed.

(** Writing back what was read changes nothing. *)
Lemma insert_lookup_total `{Inhabited A} (l : list A) i :
  <[i:=l !!! i]> l = l.
Proof.
  destruct (decide (i < length l)%nat).
  - apply list_insert_id. by apply list_lookup_lookup_total_lt.
  - apply list_insert_ge. lia.
Qed.

(** First index in [lo, lo + n) that satisfies [p], scanning upwards. *)
Fixpoint find_from (lo n : nat) (p : nat → bool) : option nat :=
  match n with
  | O => None
  | S n' => if p lo then Some lo else find_from (S lo) n' p
  end.

Lemma find_from_Some lo n p i :
  find_from lo n p = Some i ↔
  (lo <= i < lo + n)%nat ∧ p i = true ∧ ∀ j, (lo <= j < i)%nat → p j = false.
Proof.
  revert lo. induction n as [|n IH]; intros lo; simpl.
  - split; [done|]. intros [? _]. lia.
  - destruct (p lo) eqn:E.
    + split.
      * intros [= <-]. split; [lia|]. split; [done|]. intros; lia.
      * intros (Hi & Hp & Hmin). f_equal. destruct (decide (lo = i)) as [|Hne]; [done|].
        rewrite Hmin in E by lia. done.
    + rewrite IH. split; intros (Hi & Hp & Hmin); (split; [|split; [done|]]).
      * lia.
      * intros j Hj. destruct (decide (j = lo)) as [->|]; [done|]. apply Hmin. lia.
      * destruct (decide (i = lo)) as [->|]; [congruence|]. lia.
      * intros j Hj. apply Hmin. lia.
Qed.

Lemma find_from_None lo n p :
  find_from lo n p = None ↔ ∀ j, (lo <= j < lo + n)%nat → p j = false.
Proof.
  revert lo. induction n as [|n IH]; intros lo; simpl.
  - split; [|done]. intros _ j Hj. lia.
  - destruct (p lo) eqn:E.
    + split; [done|]. intros H. rewrite H in E by lia. done.
    + rewrite IH. split; intros H j Hj.
      * destruct (decide (j = lo)) as [->|]; [done|]. apply H. lia.
      * apply H. lia.
Qed.

(** Last index in [0, n) that satisfies [p]: a scan that keeps overwriting its result. *)
Definition find_last (n : nat) (p : nat → bool) : option nat :=
  for_range 0 n (λ i acc, if p i then Some i else acc) None.

Lemma find_last_spec n p :
  match find_last n p with
  | Some i => (i < n)%nat ∧ p i = true ∧ ∀ j, (i < j < n)%nat → p j = false
  | None => ∀ j, (j < n)%nat → p j = false
  end.
Proof.
  unfold find_last. apply (for_range_rule (λ k acc, match acc with
    | Some i => (i < k)%nat ∧ p i = true ∧ ∀ j, (i < j < k)%nat → p j = false
    | None => ∀ j, (j < k)%nat → p j = false end)).
  - intros j Hj. lia.
  - intros k acc Hk Hacc. destruct (p k) eqn:E.
    + split_and!; [lia|done|]. intros j Hj. lia.
    + destruct acc as [i|].
      * destruct Hacc as (?&?&Hj). split_and!; [lia|done|]. intros j Hj'.
        destruct (decide (j = k)) as [->|]; [done|]. apply Hj. lia.
      * intros j Hj'. destruct (decide (j = k)) as [->|]; [done|]. apply Hacc. lia.
Qed.

(** A scan split at an index, over agreeing predicates, or with its range shifted. *)
Lemma find_from_app lo a b p :
  find_from lo (a + b) p =
    match find_from lo a p with Some i => Some i | None => find_from (lo + a) b p end.
Proof.
  revert lo. induction a as [|a IH]; intros lo; simpl; [by rewrite Nat.add_0_r|].
  destruct (p lo); [done|]. rewrite IH. by rewrite Nat.add_succ_r.
Qed.

Lemma find_from_ext lo n p q :
  (∀ k, (lo <= k < lo + n)%nat → p k = q k) → find_from lo n p = find_from lo n q.
Proof.
  revert lo. induction n as [|n IH]; intros lo H; simpl; [done|].
  rewrite H by lia. destruct (q lo); [done|]. apply IH. intros. apply H. lia.
Qed.

Lemma find_from_shift c lo n p :
  find_from (c + lo) n p = (λ i, (c + i)%nat) <$> find_from lo n (λ k, p (c + k)%nat).
Proof.
  revert lo. induction n as [|n IH]; intros lo; simpl; [done|].
  destruct (p (c + lo)%nat); [done|]. rewrite <- Nat.add_succ_r. apply IH.
Qed.

(** *** Loops over arrays *)

(** A loop that rewrites each cell it visits from the cell's old value. *)
Lemma for_range_map `{Inhabited A} (f : nat → A → A) (body : nat → list A → list A) lo n l :
  (∀ k l, body k l = <[k := f k (l !!! k)]> l) → (lo + n <= length l)%nat →
  length (for_range lo n body l) = length l ∧
  ∀ j, for_range lo n body l !!! j =
         if decide (lo <= j < lo + n)%nat then f j (l !!! j) else l !!! j.
Proof.
  intros Hb. induction n as [|n IH]; intros Hn.
  - split; [done|]. intros j. destruct (decide _); [lia|done].
  - destruct IH as [IHl IH]; [lia|]. rewrite for_range_snoc, Hb. split.
    + by rewrite length_insert.
    + intros j. rewrite lookup_total_insert_case by lia. rewrite !IH.
      destruct (decide (lo <= lo + n < lo + n)%nat); [lia|].
      case_bool_decide; subst; repeat destruct (decide _); done || lia.
Qed.

(** A loop that writes consecutive cells from [c] on. *)
Lemma for_range_fill `{Inhabited A} (g : nat → A) c n (l : list A) :
  (c + n <= length l)%nat →
  let l' := for_range 0 n (λ k l, <[(c + k)%nat := g k]> l) l in
  length l' = length l ∧
  ∀ j, l' !!! j = if decide (c <= j < c + n)%nat then g (j - c)%nat else l !!! j.
Proof.
  cbv zeta. induction n as [|n IH]; intros Hn.
  - split; [done|]. intros j. destruct (decide _); [lia|done].
  - destruct IH as [IHl IH]; [lia|]. rewrite for_range_snoc. split.
    + by rewrite length_insert.
    + intros j. rewrite lookup_total_insert_case by lia. rewrite IH. cbn.
      case_bool_decide; subst; repeat destruct (decide _); try done; try lia.
      f_equal. lia.
Qed.

(** ** Bounded recency lists

    [lru_add n a l]: the [n] most recently used elements once [a] is used. *)

Definition to_head (a : Z) (l : list Z) : list Z := a :: filter (λ x, x ≠ a) l.

Definition lru_add (n : nat) (a : Z) (l : list Z) : list Z := take n (to_head a l).

Lemma filter_ne_id (a : Z) (l : list Z) : a ∉ l → filter (λ x, x ≠ a) l = l.
Proof.
  induction l as [|x l IH]; intros H; [done|]. apply not_elem_of_cons in H as [? ?].
  rewrite filter_cons, decide_True by congruence. f_equal. auto.
Qed.

Lemma to_head_NoDup a l : NoDup l → NoDup (to_head a l).
Proof.
  intros H. apply NoDup_cons. split; [|by apply NoDup_filter].
  rewrite list_elem_of_filter. tauto.
Qed.

Lemma to_head_length a l : NoDup l → a ∈ l → length (to_head a l) = length l.
Proof.
  intros Hnd Ha. apply list_elem_of_split in Ha as (l1 & l2 & ->).
  apply NoDup_app in Hnd as (_ & H1 & H2). apply NoDup_cons in H2 as [H2 _].
  unfold to_head. rewrite filter_app, filter_cons, decide_False by tauto.
  rewrite !filter_ne_id; [|done|].
  - cbn. rewrite !length_app. cbn. lia.
  - intros Hin. apply (H1 a Hin). by left.
Qed.

(** Using an element commutes with forgetting all but the [n] most recent ones. *)
Lemma lru_add_take n a l : NoDup l → lru_add n a (take n l) = take n (to_head a l).
Proof.
  intros Hnd. unfold lru_add, to_head. destruct n as [|n]; [done|]. cbn [take]. f_equal.
  revert n Hnd. induction l as [|x l IH]; intros n Hnd; [done|].
  apply NoDup_cons in Hnd as [Hx Hnd]. cbn [take]. rewrite !filter_cons.
  destruct (decide (x ≠ a)) as [Hne|Heq].
  - destruct n as [|n]; [done|]. cbn [take]. f_equal.
    destruct l as [|y l]; [done|]. by apply IH.
  - assert (x = a) as -> by (destruct (decide (x = a)); tauto).
    rewrite (filter_ne_id a l) by done.
    rewrite filter_ne_id; [rewrite take_take; f_equal; lia|].
    intros Hin. apply Hx. apply list_elem_of_lookup in Hin as [k Hk].
    apply lookup_take_Some in Hk as [Hk _]. by apply list_elem_of_lookup_2 in Hk.
Qed.

(** The elements of a history, most recently used first. *)
Definition recency (xs : list Z) : list Z := foldl (λ l a, to_head a l) [] xs.

Lemma recency_NoDup xs : NoDup (recency xs).
Proof.
  unfold recency. induction xs as [|x xs IH] using rev_ind; [constructor|].
  rewrite foldl_app. by apply to_head_NoDup.
Qed.

(** ** Occurrences

    A resource that moves between lists is followed by counting it: the lists' counts add up,
    so that [lia] balances what an operation removes from one list and puts on another. *)

Section occurrences.
Context `{EqDecision A}.
Implicit Types (x y : A) (l : list A) (ls : list (list A)).

Definition one x y : nat := if decide (y = x) then 1 else 0.

Definition occ x l : nat := length (filter (λ y, y = x) l).

Lemma one_self x : one x x = 1%nat.
Proof. unfold one. by rewrite decide_True. Qed.

Lemma one_other x y : y ≠ x → one x y = 0%nat.
Proof. intros. unfold one. by rewrite decide_False. Qed.

Lemma occ_nil x : occ x [] = 0%nat.
Proof. done. Qed.

Lemma occ_cons x y l : occ x (y :: l) = (one x y + occ x l)%nat.
Proof. unfold occ, one. rewrite filter_cons. by destruct (decide (y = x)). Qed.

Lemma occ_app x l k : occ x (l ++ k) = (occ x l + occ x k)%nat.
Proof. unfold occ. by rewrite filter_app, length_app. Qed.

Lemma occ_elem x l : (0 < occ x l)%nat ↔ x ∈ l.
Proof.
  induction l as [|y l IH]; rewrite ?occ_nil, ?occ_cons, ?elem_of_nil, ?elem_of_cons; [lia|].
  unfold one. destruct (decide (y = x)) as [->|]; rewrite <- IH.
  - split; [by left|lia].
  - split; [intros; right; lia|]. intros [?|?]; [congruence|lia].
Qed.

Lemma occ_zero x l : occ x l = 0%nat ↔ x ∉ l.
Proof. rewrite <- occ_elem. lia. Qed.

Lemma occ_insert x l i y z :
  l !! i = Some y → (occ x (<[i := z]> l) + one x y = occ x l + one x z)%nat.
Proof.
  revert i. induction l as [|w l IH]; intros [|i] H; simplify_eq/=; rewrite !occ_cons; [lia|].
  specialize (IH i H). lia.
Qed.

Lemma occ_concat_insert x ls i l k :
  ls !! i = Some l → (occ x (concat (<[i := k]> ls)) + occ x l = occ x (concat ls) + occ x k)%nat.
Proof.
  revert i. induction ls as [|m ls IH]; intros [|i] H; simplify_eq/=; rewrite !occ_app; [lia|].
  specialize (IH i H). lia.
Qed.

Lemma occ_NoDup l : (∀ x, (occ x l <= 1)%nat) ↔ NoDup l.
Proof.
  induction l as [|y l IH]; [split; [constructor|intros; rewrite occ_nil; lia]|].
  rewrite NoDup_cons, <- IH, <- occ_zero. split.
  - intros H. split; [specialize (H y); rewrite occ_cons, one_self in H; lia|].
    intros x. specialize (H x). rewrite occ_cons in H. lia.
  - intros [Hy H] x. rewrite occ_cons. specialize (H x). unfold one.
    destruct (decide (y = x)); subst; lia.
Qed.

#[export] Instance occ_proper x : Proper ((≡ₚ) ==> (=)) (occ x).
Proof. intros l k H. unfold occ. by rewrite H. Qed.

Lemma occ_Permutation l k : (∀ x, occ x l = occ x k) → l ≡ₚ k.
Proof.
  revert k. induction l as [|y l IH]; intros k H.
  - destruct k as [|z k]; [done|]. specialize (H z). rewrite occ_cons, one_self in H. done.
  - assert (y ∈ k) as (k1 & k2 & ->)%list_elem_of_split.
    { apply occ_elem. rewrite <- H, occ_cons, one_self. lia. }
    rewrite <- Permutation_middle. constructor. apply IH. intros x. specialize (H x).
    rewrite occ_cons, occ_app, occ_cons in H. rewrite occ_app. lia.
Qed.
End occurrences.

#[global] Arguments occ : simpl never.
#[global] Arguments one : simpl never.

(** ** Finite checks

    A decidable property of a bounded integer is proved by evaluating it everywhere. *)

Definition all_below (n : nat) (P : Z → bool) : bool :=
  forallb (λ k, P (Z.of_nat k)) (seq 0 n).

Lemma all_below_spec n P :
  all_below n P = true → ∀ z, 0 <= z < Z.of_nat n → P z = true.
Proof.
  unfold all_below. rewrite forallb_forall. intros H z Hz.
  rewrite <- (Z2Nat.id z) by lia. apply H, in_seq. lia.
Qed.

(** ** Automation *)

(** Split every [if]/[match] of the goal, keep the branches that are consistent. *)
Ltac split_cases :=
  repeat (case_match; simplify_eq/=; try done).

(** Reflect the boolean conditions of the code into propositions. *)
Ltac reflect :=
  repeat match goal with
  | H : _ && _ = true |- _ => apply andb_true_iff in H as [? ?]
  | H : _ || _ = false |- _ => apply orb_false_iff in H as [? ?]
  | H : negb _ = true |- _ => apply negb_true_iff in H
  | H : negb _ = false |- _ => apply negb_false_iff in H
  | H : (_ =? _)%Z = true |- _ => apply Z.eqb_eq in H
  | H : (_ =? _)%Z = false |- _ => apply Z.eqb_neq in H
  | H : (_ <? _)%Z = true |- _ => apply Z.ltb_lt in H
  | H : (_ <? _)%Z = false |- _ => apply Z.ltb_ge in H
  | H : (_ <=? _)%Z = true |- _ => apply Z.leb_le in H
  | H : (_ <=? _)%Z = false |- _ => apply Z.leb_gt in H
  | H : (_ =? _)%nat = true |- _ => apply Nat.eqb_eq in H
  | H : (_ =? _)%nat = false |- _ => apply Nat.eqb_neq in H
  | H : (_ <? _)%nat = true |- _ => apply Nat.ltb_lt in H
  | H : (_ <? _)%nat = false |- _ => apply Nat.ltb_ge in H
  | H : (_ <=? _)%nat = true |- _ => apply Nat.leb_le in H
  | H : (_ <=? _)%nat = false |- _ => apply Nat.leb_gt in H
  end.

(** Evaluate the constant powers of two. *)
Ltac norm_pow :=
  repeat match goal with
  | |- context [2 ^ ?n] =>
      let v := eval vm_compute in (2 ^ n) in
      lazymatch v with Zpos _ => change (2 ^ n) with v end
  | H : context [2 ^ ?n] |- _ =>
      let v := eval vm_compute in (2 ^ n) in
      lazymatch v with Zpos _ => change (2 ^ n) with v in H end
  end.

(** [lia] for goals with division and remainder by constants. *)
Ltac divmod_lia := Z.to_euclidean_division_equations; lia.
