(* ===== verification/Inst.v ===== *)
(** * What DVR sees of an instruction

    The DVR structures read a [DynInstPtr] through a fixed set of accessors: its sequence
    number and PC state, the register operands and flags of its [StaticInst], its resolved
    direct target and its machine encoding.  A [DynInst] here is the record of the values
    those accessors return; the decoder and the pipeline that produce them are outside this
    file. *)

From S2P Require Import Prelude.

(** [enum RegClassType] *)
Inductive RegClassType :=
| IntRegClass | FloatRegClass | VecRegClass | VecElemClass | VecPredRegClass
| CCRegClass | MiscRegClass | InvalidRegClass.

#[export] Instance RegClassType_eq_dec : EqDecision RegClassType.
Proof. solve_decision. Defined.

(** [class RegId]: class and index (the pinned-write counter is not read by DVR). *)
Record RegId := mkRegId { classValue : RegClassType; index : nat }.

#[export] Instance RegId_eq_dec : EqDecision RegId.
Proof. solve_decision. Defined.

(** The position of a class in the arrays indexed by [RegClassType]. *)
Definition class_index (c : RegClassType) : nat :=
  match c with
  | IntRegClass => 0 | FloatRegClass => 1 | VecRegClass => 2 | VecElemClass => 3
  | VecPredRegClass => 4 | CCRegClass => 5 | MiscRegClass => 6 | InvalidRegClass => 7
  end.

Lemma class_index_inj a b : class_index a = class_index b → a = b.
Proof. by destruct a, b. Qed.

#[export] Instance RegClassType_countable : Countable RegClassType.
Proof.
  refine (inj_countable class_index
            (λ n, [IntRegClass; FloatRegClass; VecRegClass; VecElemClass; VecPredRegClass;
                   CCRegClass; MiscRegClass; InvalidRegClass] !! n) _).
  by intros [].
Defined.

#[export] Instance RegId_countable : Countable RegId.
Proof.
  refine (inj_countable' (λ r, (classValue r, index r)) (λ x, mkRegId x.1 x.2) _).
  by intros [].
Defined.

(** [RegId::RegId()] *)
Definition RegId_default : RegId := mkRegId InvalidRegClass 0.

Definition RegId_eqb (a b : RegId) : bool :=
  bool_decide (classValue a = classValue b) && (index a =? index b)%nat.

(** [RegId::isRenameable()] *)
Definition isRenameable (r : RegId) : bool :=
  negb (bool_decide (classValue r = MiscRegClass))
  && negb (bool_decide (classValue r = InvalidRegClass)).

Definition is_int_class (r : RegId) : bool := bool_decide (classValue r = IntRegClass).

(** [RiscvISA::PCState]: the fields [branching()] reads. *)
Record PCState := mkPCState {
  pc : Z;  npc : Z;  upc : Z;  nupc : Z;  compressed : bool
}.

(** [PCState::branching()] *)
Definition branching (s : PCState) : bool :=
  if compressed s
  then negb (npc s =? u64 (pc s + 2)) || negb (nupc s =? upc s + 1)
  else negb (npc s =? u64 (pc s + 4)) || negb (nupc s =? upc s + 1).

(** The static side of an instruction: what [StaticInst] returns.  [asBytes] is the pair of
    the returned size and the 64-bit buffer it fills. *)
Record StaticInst := mkStaticInst {
  asBytes : Z * Z;
  srcRegs : list RegId;
  destRegs : list RegId;
  isLoad : bool;
  isControl : bool;
  isCondCtrl : bool;
  isDirectCtrl : bool
}.

(** The accessors of [DynInst] used by DVR.  [branchTarget] is [None] for a null
    [unique_ptr]. *)
Record DynInst := mkDynInst {
  seqNum : Z;
  pcState : PCState;
  staticInst : StaticInst;
  branchTarget : option Z;
  mispredicted : bool
}.

(** [inst->pcState().instAddr()] *)
Definition instAddr (i : DynInst) : Z := pc (pcState i).

Definition inst_srcs (i : DynInst) : list RegId := srcRegs (staticInst i).
Definition inst_dests (i : DynInst) : list RegId := destRegs (staticInst i).

(** The RISC-V operand rule of arch/riscv/isa/operands.isa: an integer operand whose
    register number is zero is decoded to [RegId()], every other one to
    [RegId(IntRegClass, n)]. *)
Definition riscv_int_operand (n : nat) : RegId :=
  if (n =? 0)%nat then RegId_default else mkRegId IntRegClass n.

(** An instruction whose integer operands were decoded by that rule never names x0. *)
Definition no_x0_operand (rs : list RegId) : Prop :=
  ∀ r, r ∈ rs → classValue r = IntRegClass → index r ≠ 0%nat.

Lemma riscv_operands_no_x0 ns : no_x0_operand (riscv_int_operand <$> ns).
Proof.
  intros r Hr Hc. apply list_elem_of_fmap in Hr as (n & -> & _).
  unfold riscv_int_operand in *. destruct (Nat.eqb_spec n 0); [done|]. done.
Qed.

(** A straight-line instruction at [a], for the concrete examples of the development. *)
Definition plain_inst (sn a : Z) (enc : Z) (srcs dests : list RegId) (ld : bool) : DynInst :=
  mkDynInst sn (mkPCState a (u64 (a + 4)) 0 1 false)
    (mkStaticInst (8, enc) srcs dests ld false false false) None false.

(** A conditional direct branch at [a] with target [t], taken or not. *)
Definition branch_inst (sn a t : Z) (enc : Z) (srcs : list RegId) (taken : bool) : DynInst :=
  mkDynInst sn (mkPCState a (if taken then t else u64 (a + 4)) 0 1 false)
    (mkStaticInst (8, enc) srcs [] false true true true) (Some t) false.
