(* ===== verification/Stride.v ===== *)
(** * The stride detector (RPT)

    Model of [DVRStrideDetector] (src/cpu/o3/pre.hh, pre.cc): a table of load PCs with the
    last address, a signed stride and a 2-bit confidence; one Discovery bit per entry kept
    in separate words, with an undo log for O3 squashes. *)

From S2P Require Import Prelude.

Module Stride.

Definition CandidateConfidence : Z := 2.
Definition MaxConfidence : Z := 3.

(** [struct Candidate] *)
Record Candidate := mkCandidate {
  c_pc : Z;  c_address : Z;  c_stride : Z;  c_repeatedDuringDiscovery : bool
}.

(** [struct Entry] *)
Record Entry := mkEntry {
  e_valid : bool;  e_pc : Z;  e_lastAddress : Z;  e_stride : Z;
  e_confidence : Z;  e_age : Z;  e_candidatePending : bool
}.

#[export] Instance eta_Entry : Eta Entry := λ r,
  mkEntry (e_valid r) (e_pc r) (e_lastAddress r) (e_stride r) (e_confidence r) (e_age r)
    (e_candidatePending r).

(** [Entry{}] *)
Definition Entry_init : Entry := mkEntry false 0 0 0 0 0 false.

#[export] Instance Entry_inhabited : Inhabited Entry := populate Entry_init.

(** [struct DiscoverySeenWrite] *)
Record DiscoverySeenWrite := mkWrite { w_sequence : Z; w_entry : nat }.

(** The detector.  [discoverySeenWrites] is a [std::vector] used as a stack: its back is the
    head of the list. *)
Record Detector := mkDetector {
  entries : list Entry;
  discoveryBits : list Z;
  discoverySeenWrites : list DiscoverySeenWrite;
  timestamp : Z
}.

#[export] Instance eta_Detector : Eta Detector := λ r,
  mkDetector (entries r) (discoveryBits r) (discoverySeenWrites r) (timestamp r).

(** Constructor; the assertion [num_entries > 0] is a hypothesis of the theorems. *)
Definition init (num_entries : nat) : Detector :=
  mkDetector (replicate num_entries Entry_init) (replicate ((num_entries + 63) / 64) 0) [] 0.

Definition bits_seen (bits : list Z) (e : nat) : bool :=
  test_bit (bits !!! (e / 64)%nat) (e mod 64).

Definition bits_write (bits : list Z) (e : nat) (value : bool) : list Z :=
  <[(e / 64)%nat := (if value then set_bit else clear_bit) (bits !!! (e / 64)%nat) (e mod 64)%nat]>
    bits.

Definition discoverySeen (d : Detector) (e : nat) : bool := bits_seen (discoveryBits d) e.

Definition setDiscoverySeen (d : Detector) (e : nat) (value : bool) : Detector :=
  d <| discoveryBits ::= λ b, bits_write b e value |>.

(** The scan for a valid entry with this PC. *)
Definition find_entry (es : list Entry) (p : Z) : option nat :=
  find_from 0 (length es) (λ i, e_valid (es !!! i) && (e_pc (es !!! i) =? p)).

(** The replacement scan: the first invalid entry ends it, otherwise the entry with the
    smallest age is kept. *)
Fixpoint select_victim (es : list Entry) (n i best : nat) : nat :=
  match n with
  | O => best
  | S n' =>
      if negb (e_valid (es !!! i)) then i
      else if e_age (es !!! i) <? e_age (es !!! best)
           then select_victim es n' (S i) i
           else select_victim es n' (S i) best
  end.

(** The allocation branch of [observe]: the PC has no entry. *)
Definition install (d : Detector) (p address : Z) : Detector :=
  let v := select_victim (entries d) (length (entries d)) 0 0 in
  let d := setDiscoverySeen d v false in
  d <| entries := <[v := Entry_init <| e_valid := true |> <| e_pc := p |>
                          <| e_lastAddress := address |> <| e_age := timestamp d |>]>
                    (entries d) |>.

(** The confidence and stride update of [observe]. *)
Definition train (e : Entry) (observed_stride : Z) : Entry :=
  if negb (observed_stride =? 0) && (observed_stride =? e_stride e)
  then (if e_confidence e <? MaxConfidence
        then e <| e_confidence ::= λ c, c + 1 |> else e)
  else
    let e := if 0 <? e_confidence e then e <| e_confidence ::= λ c, c - 1 |> else e in
    if e_confidence e =? 0 then e <| e_stride := observed_stride |> else e.

(** The arming of one notification when the confidence crosses the threshold. *)
Definition arm_pending (old_confidence : Z) (e : Entry) : Entry :=
  if e_confidence e <? CandidateConfidence then e <| e_candidatePending := false |>
  else if (old_confidence <? CandidateConfidence) && (CandidateConfidence <=? e_confidence e)
       then e <| e_candidatePending := true |>
       else e.

(** [DVRStrideDetector::observe] *)
Definition observe (d : Detector) (p address : Z) : Detector * option Candidate :=
  let d := d <| timestamp ::= inc64 |> in
  match find_entry (entries d) p with
  | None => (install d p address, None)
  | Some i =>
      let e := entries d !!! i in
      let observed_stride := s64 (s64 address - s64 (e_lastAddress e)) in
      let old_confidence := e_confidence e in
      let e := arm_pending old_confidence (train e observed_stride) in
      let e := e <| e_lastAddress := address |> <| e_age := timestamp d |> in
      let d := d <| entries ::= λ es, <[i := e]> es |> in
      if negb (e_stride e =? 0) && e_candidatePending e
      then (d, Some (mkCandidate p address (e_stride e) false))
      else (d, None)
  end.

(** The guard of [observeDispatch]: a trained entry of this PC. *)
Definition trained_for (e : Entry) (p : Z) : bool :=
  e_valid e && (e_pc e =? p) && negb (e_stride e =? 0)
  && (CandidateConfidence <=? e_confidence e).

(** [static_cast<Addr>(static_cast<int64_t>(entry.lastAddress) + entry.stride)] *)
Definition next_address (e : Entry) : Z := u64 (s64 (e_lastAddress e) + e_stride e).

(** The loop of [observeDispatch], from index [i] with [n] entries left. *)
Fixpoint dispatch_loop (n i : nat) (p : Z) (discovery_active : bool) (trigger_pc sequence : Z)
    (d : Detector) : Detector * option Candidate :=
  match n with
  | O => (d, None)
  | S n' =>
      let e := entries d !!! i in
      if negb (trained_for e p)
      then dispatch_loop n' (S i) p discovery_active trigger_pc sequence d
      else if discovery_active then
        if negb (discoverySeen d i) then
          let d := d <| discoverySeenWrites ::= λ ws, mkWrite sequence i :: ws |> in
          dispatch_loop n' (S i) p discovery_active trigger_pc sequence
            (setDiscoverySeen d i true)
        else (d, Some (mkCandidate p (next_address e) (e_stride e) (negb (p =? trigger_pc))))
      else if e_candidatePending e then
        (d <| entries ::= λ es, <[i := e <| e_candidatePending := false |>]> es |>,
         Some (mkCandidate p (next_address e) (e_stride e) false))
      else dispatch_loop n' (S i) p discovery_active trigger_pc sequence d
  end.

(** [DVRStrideDetector::observeDispatch] *)
Definition observeDispatch (d : Detector) (p : Z) (discovery_active : bool)
    (trigger_pc sequence : Z) : Detector * option Candidate :=
  dispatch_loop (length (entries d)) 0 p discovery_active trigger_pc sequence d.

(** [std::fill(discoveryBits.begin(), discoveryBits.end(), 0)] *)
Definition clear_bits (bits : list Z) : list Z := (λ _, 0) <$> bits.

(** [DVRStrideDetector::beginDiscovery] *)
Definition beginDiscovery (d : Detector) (trigger_pc : Z) : Detector :=
  let d := d <| discoveryBits ::= clear_bits |> <| discoverySeenWrites := [] |> in
  match find_entry (entries d) trigger_pc with
  | Some i => setDiscoverySeen d i true
  | None => d
  end.

(** The undo loop of [squashDiscovery]. *)
Fixpoint undo_writes (squash_sequence : Z) (ws : list DiscoverySeenWrite) (bits : list Z)
  : list DiscoverySeenWrite * list Z :=
  match ws with
  | [] => ([], bits)
  | w :: ws' =>
      if squash_sequence <=? w_sequence w
      then undo_writes squash_sequence ws' (bits_write bits (w_entry w) false)
      else (ws, bits)
  end.

(** [DVRStrideDetector::squashDiscovery] *)
Definition squashDiscovery (d : Detector) (squash_sequence : Z) : Detector :=
  let '(ws, bits) := undo_writes squash_sequence (discoverySeenWrites d) (discoveryBits d) in
  d <| discoverySeenWrites := ws |> <| discoveryBits := bits |>.

Definition rearm (e : Entry) : Entry :=
  e <| e_candidatePending := e_valid e && negb (e_stride e =? 0)
                             && (CandidateConfidence <=? e_confidence e) |>.

(** [DVRStrideDetector::endDiscovery] *)
Definition endDiscovery (d : Detector) : Detector :=
  d <| discoveryBits ::= clear_bits |> <| discoverySeenWrites := [] |>
    <| entries ::= λ es, rearm <$> es |>.

(** [DVRStrideDetector::reset] *)
Definition reset (d : Detector) : Detector :=
  mkDetector ((λ _, Entry_init) <$> entries d) (clear_bits (discoveryBits d)) [] 0.

(** ** Driving the detector *)

Inductive Op :=
| OpObserve (p address : Z)
| OpDispatch (p : Z) (discovery_active : bool) (trigger_pc sequence : Z)
| OpBegin (trigger_pc : Z)
| OpSquash (sequence : Z)
| OpEnd
| OpReset.

Definition step (d : Detector) (o : Op) : Detector :=
  match o with
  | OpObserve p a => (observe d p a).1
  | OpDispatch p act t s => (observeDispatch d p act t s).1
  | OpBegin t => beginDiscovery d t
  | OpSquash s => squashDiscovery d s
  | OpEnd => endDiscovery d
  | OpReset => reset d
  end.

(** A run of dispatch-side observations inside one Discovery window. *)
Definition dispatch_run (d : Detector) (t : Z) (ds : list (Z * Z)) : Detector :=
  foldl (λ d '(p, s), (observeDispatch d p true t s).1) d ds.

(** ** Invariants *)

(** Well-formedness of one entry: the 2-bit counter stays in [0, 3], and a pending
    notification belongs to a trained, non-zero stride. *)
Definition entry_ok (e : Entry) : Prop :=
  0 <= e_confidence e <= MaxConfidence ∧
  (e_candidatePending e = true →
   e_valid e = true ∧ e_stride e ≠ 0 ∧ CandidateConfidence <= e_confidence e).

Record wf (d : Detector) : Prop := {
  wf_nonempty : (0 < length (entries d))%nat;
  wf_bits : length (discoveryBits d) = ((length (entries d) + 63) / 64)%nat;
  wf_entries : Forall entry_ok (entries d);
  wf_unique : ∀ i j ei ej, entries d !! i = Some ei → entries d !! j = Some ej →
    e_valid ei = true → e_valid ej = true → e_pc ei = e_pc ej → i = j;
  wf_writes : Forall (λ w, (w_entry w < length (entries d))%nat) (discoverySeenWrites d)
}.

(** *** Discovery bits *)

Lemma bits_index e n : (e < n)%nat → (e / 64 < (n + 63) / 64)%nat.
Proof.
  intros H. apply Nat.Div0.div_lt_upper_bound.
  pose proof (Nat.div_mod_eq (n + 63) 64). pose proof (Nat.mod_upper_bound (n + 63) 64).
  lia.
Qed.

Lemma bits_seen_write bits a b v :
  (a / 64 < length bits)%nat →
  bits_seen (bits_write bits a v) b = if bool_decide (a = b) then v else bits_seen bits b.
Proof.
  intros Ha. unfold bits_seen, bits_write. rewrite lookup_total_insert_case by done.
  pose proof (Nat.div_mod_eq a 64). pose proof (Nat.div_mod_eq b 64).
  destruct (bool_decide_reflect (a / 64 = b / 64)%nat) as [E|E].
  - destruct v; rewrite ?test_set_bit, ?test_clear_bit, E;
      repeat case_bool_decide; subst; simpl; try done; exfalso; lia.
  - rewrite (bool_decide_eq_false_2 (a = b)) by congruence. done.
Qed.

Lemma length_bits_write bits e v : length (bits_write bits e v) = length bits.
Proof. apply length_insert. Qed.

(** Undoing a write to a bit that was clear. *)
Lemma bits_write_undo bits e :
  bits_seen bits e = false → bits_write (bits_write bits e true) e false = bits.
Proof.
  intros H. unfold bits_write. destruct (decide (e / 64 < length bits)%nat) as [L|L].
  - rewrite lookup_total_insert_eq by done. rewrite list_insert_insert_eq.
    rewrite clear_set_bit by exact H. apply insert_lookup_total.
  - by rewrite !list_insert_ge by (rewrite ?length_insert; lia).
Qed.

Lemma length_clear_bits bits : length (clear_bits bits) = length bits.
Proof. apply length_fmap. Qed.

Lemma bits_seen_clear bits e :
  (e / 64 < length bits)%nat → bits_seen (clear_bits bits) e = false.
Proof.
  intros [w Hw]%lookup_lt_is_Some_2.
  unfold bits_seen, clear_bits. rewrite list_lookup_total_alt, list_lookup_fmap, Hw.
  apply test_bit_0.
Qed.

(** *** Table scans *)

Lemma find_entry_Some es p i :
  find_entry es p = Some i →
  (i < length es)%nat ∧ e_valid (es !!! i) = true ∧ e_pc (es !!! i) = p.
Proof.
  unfold find_entry. rewrite find_from_Some. intros (? & ? & _). reflect.
  split; [lia|]. done.
Qed.

Lemma find_entry_None es p i e :
  find_entry es p = None → es !! i = Some e → e_valid e = true → e_pc e ≠ p.
Proof.
  unfold find_entry. rewrite find_from_None. intros H Hi Hv Hp.
  specialize (H i). rewrite (list_lookup_total_correct _ _ _ Hi), Hv, Hp in H.
  rewrite Z.eqb_refl in H. simpl in H. apply lookup_lt_Some in Hi. naive_solver lia.
Qed.

(** What the replacement scan returns. *)
Definition victim_ok (es : list Entry) (v : nat) : Prop :=
  (v < length es)%nat ∧
  ((e_valid (es !!! v) = false ∧ ∀ j, (j < v)%nat → e_valid (es !!! j) = true) ∨
   ((∀ j, (j < length es)%nat → e_valid (es !!! j) = true) ∧
    ∀ j, (j < length es)%nat → e_age (es !!! v) <= e_age (es !!! j))).

Lemma select_victim_spec es n i best :
  (i + n = length es)%nat → (best < length es)%nat →
  (∀ j, (j < i)%nat → e_valid (es !!! j) = true) →
  (∀ j, (j < i)%nat → e_age (es !!! best) <= e_age (es !!! j)) →
  victim_ok es (select_victim es n i best).
Proof.
  revert i best. induction n as [|n IH]; intros i best Hn Hb Hv Ha; simpl.
  - replace i with (length es) in * by lia. split; [done|]. right. auto.
  - destruct (e_valid (es !!! i)) eqn:E; simpl.
    + assert (∀ j, (j < S i)%nat → e_valid (es !!! j) = true).
      { intros j Hj. destruct (decide (j = i)) as [->|]; [done|]. apply Hv. lia. }
      destruct (Z.ltb_spec (e_age (es !!! i)) (e_age (es !!! best))) as [L|L].
      * apply IH; try lia; try done. intros j Hj.
        destruct (decide (j = i)) as [->|]; [lia|].
        specialize (Ha j ltac:(lia)). lia.
      * apply IH; try lia; try done.
        intros j Hj. destruct (decide (j = i)) as [->|]; [lia|]. apply Ha. lia.
    + split; [lia|]. by left.
Qed.

Lemma victim_spec d :
  wf d → victim_ok (entries d) (select_victim (entries d) (length (entries d)) 0 0).
Proof. intros H. apply select_victim_spec; try lia. apply H. Qed.

(** *** Entry updates *)

Lemma Entry_init_ok : entry_ok Entry_init.
Proof. split; simpl; [|done]. unfold MaxConfidence. lia. Qed.

Lemma train_ok e s :
  entry_ok e → e_valid e = true → entry_ok (arm_pending (e_confidence e) (train e s)).
Proof.
  intros [Hc Hp] Hv. unfold arm_pending, train, entry_ok,
    CandidateConfidence, MaxConfidence in *.
  destruct e as [v p la st cf ag pend]; simpl in *.
  assert (pend = true → v = true ∧ st ≠ 0 ∧ 2 <= cf) as Hp' by done. clear Hp.
  repeat (case_match; simpl in *; reflect); (split; [lia|]; intros Ht;
    try discriminate Ht; try (destruct (Hp' Ht) as (? & ? & ?)); split_and!; try lia; try done).
Qed.

Lemma train_valid e s c :
  e_valid (arm_pending c (train e s)) = e_valid e ∧
  e_pc (arm_pending c (train e s)) = e_pc e.
Proof. unfold arm_pending, train. by repeat case_match. Qed.

(** Replacing one entry by another of the same PC and validity preserves the table. *)
Lemma wf_replace d i e ts :
  wf d → entry_ok e → (i < length (entries d))%nat →
  (e_valid e = true → e_valid (entries d !!! i) = true ∧ e_pc e = e_pc (entries d !!! i)) →
  wf (mkDetector (<[i:=e]> (entries d)) (discoveryBits d) (discoverySeenWrites d) ts).
Proof.
  intros [Hn Hb He Hu Hw] Hok Hi Hsame.
  assert (∀ j ej, <[i:=e]> (entries d) !! j = Some ej → e_valid ej = true →
            ∃ ej', entries d !! j = Some ej' ∧ e_valid ej' = true ∧ e_pc ej = e_pc ej') as Hback.
  { intros j ej Hj Hv. destruct (decide (i = j)) as [->|Hne].
    - rewrite list_lookup_insert_eq in Hj by done. simplify_eq.
      exists (entries d !!! j). rewrite <- list_lookup_lookup_total_lt by done.
      destruct (Hsame Hv). done.
    - rewrite list_lookup_insert_ne in Hj by done. eauto. }
  constructor; simpl; rewrite ?length_insert; try done.
  - by apply Forall_insert.
  - intros j k ej ek Hj Hk Hvj Hvk Hpc.
    destruct (Hback _ _ Hj Hvj) as (ej' & ? & ? & ?).
    destruct (Hback _ _ Hk Hvk) as (ek' & ? & ? & ?). eapply Hu; eauto. congruence.
Qed.

Lemma wf_set_bits d bits ws :
  wf d → length bits = length (discoveryBits d) →
  Forall (λ w, (w_entry w < length (entries d))%nat) ws →
  wf (mkDetector (entries d) bits ws (timestamp d)).
Proof. intros [] Hl Hws. constructor; simpl; try done. congruence. Qed.

Lemma install_wf d p a :
  wf d → find_entry (entries d) p = None → wf (install d p a).
Proof.
  intros Hwf Hf. pose proof (victim_spec d Hwf) as [Hv _].
  unfold install. simpl. set (v := select_victim _ _ _ _) in *. clearbody v.
  destruct Hwf as [Hn Hb He Hu Hw].
  constructor; simpl; rewrite ?length_insert, ?length_bits_write; try done.
  - apply Forall_insert; [done|]. split; simpl; unfold MaxConfidence; [lia|done].
  - intros i j ei ej Hi Hj Hvi Hvj Hpc.
    destruct (decide (v = i)) as [Ei|Ni], (decide (v = j)) as [Ej|Nj]; subst; try done.
    + rewrite list_lookup_insert_eq in Hi by done.
      rewrite list_lookup_insert_ne in Hj by done. simplify_eq. simpl in *.
      exfalso. by eapply find_entry_None.
    + rewrite list_lookup_insert_eq in Hj by done.
      rewrite list_lookup_insert_ne in Hi by done. simplify_eq. simpl in *.
      exfalso. by eapply find_entry_None.
    + rewrite list_lookup_insert_ne in Hi, Hj by done. eauto.
Qed.

Lemma tick_wf d : wf d → wf (d <| timestamp ::= inc64 |>).
Proof. intros []. by constructor. Qed.

Lemma entry_ok_lookup d i : wf d → (i < length (entries d))%nat → entry_ok (entries d !!! i).
Proof.
  intros H Hi. eapply Forall_lookup_1; [apply H|]. by apply list_lookup_lookup_total_lt.
Qed.

Lemma observe_wf d p a : wf d → wf (observe d p a).1.
Proof.
  intros Hwf. apply tick_wf in Hwf. unfold observe.
  set (d1 := d <| timestamp ::= inc64 |>) in *. clearbody d1. clear d.
  destruct (find_entry (entries d1) p) as [i|] eqn:Hf.
  - apply find_entry_Some in Hf as (Hi & Hv & Hp).
    set (e := arm_pending _ (train _ _)).
    assert (entry_ok e) as Hok by (apply train_ok; [by apply entry_ok_lookup|done]).
    assert (e_valid e = true ∧ e_pc e = p) as [He1 He2]
      by (unfold e; by destruct (train_valid (entries d1 !!! i)
            (s64 (s64 a - s64 (e_lastAddress (entries d1 !!! i))))
            (e_confidence (entries d1 !!! i))) as [-> ->]).
    match goal with |- wf (if ?c then _ else _).1 => destruct c end; simpl;
      (apply wf_replace; simpl; [done|exact Hok|done|]; intros _; split; simpl; congruence).
  - simpl. by apply install_wf.
Qed.

Lemma dispatch_loop_wf n i p act t s d :
  wf d → (i + n = length (entries d))%nat → wf (dispatch_loop n i p act t s d).1.
Proof.
  revert i d. induction n as [|n IH]; intros i d Hwf Hn; simpl; [done|].
  destruct (trained_for (entries d !!! i) p) eqn:Ht; simpl; [|apply IH; [done|lia]].
  destruct act.
  - destruct (discoverySeen d i) eqn:Hs; simpl; [done|].
    apply IH; [|simpl; lia]. apply (wf_set_bits d); [done|apply length_bits_write|].
    constructor; [simpl; lia|apply Hwf].
  - destruct (e_candidatePending (entries d !!! i)) eqn:Hp; [|apply IH; [done|lia]].
    simpl. apply (wf_replace d); [done| |lia|by simpl].
    destruct (entry_ok_lookup d i Hwf ltac:(lia)) as [Hc _]. split; simpl; [exact Hc|done].
Qed.

Lemma undo_writes_spec s ws bits n :
  Forall (λ w, (w_entry w < n)%nat) ws →
  length (undo_writes s ws bits).2 = length bits ∧
  Forall (λ w, (w_entry w < n)%nat) (undo_writes s ws bits).1.
Proof.
  revert bits. induction ws as [|w ws IH]; intros bits Hw; simpl; [done|].
  destruct (s <=? w_sequence w); [|done]. apply Forall_cons in Hw as [_ Hw].
  destruct (IH (bits_write bits (w_entry w) false)) as [-> ?]; [done|].
  by rewrite length_bits_write.
Qed.

Lemma begin_wf d t : wf d → wf (beginDiscovery d t).
Proof.
  intros Hwf. unfold beginDiscovery.
  assert (wf (mkDetector (entries d) (clear_bits (discoveryBits d)) [] (timestamp d)))
    by (apply (wf_set_bits d); [done|apply length_clear_bits|done]).
  simpl. case_match; [|done].
  apply (wf_set_bits (mkDetector _ _ _ _)); [done|apply length_bits_write|done].
Qed.

Lemma squash_wf d s : wf d → wf (squashDiscovery d s).
Proof.
  intros Hwf. unfold squashDiscovery.
  pose proof (undo_writes_spec s _ (discoveryBits d) _ (wf_writes d Hwf)) as [Hl Hw].
  destruct (undo_writes _ _ _) as [ws bits]. by apply (wf_set_bits d).
Qed.

Lemma end_wf d : wf d → wf (endDiscovery d).
Proof.
  intros [Hn Hb He Hu Hw]. unfold endDiscovery. constructor; simpl;
    rewrite ?length_fmap, ?length_clear_bits; try done.
  - apply Forall_fmap. eapply Forall_impl; [done|]. intros e [Hc _].
    split; simpl; [exact Hc|]. intros H. unfold CandidateConfidence in *. reflect. done.
  - intros i j ei ej Hi Hj. rewrite list_lookup_fmap in Hi, Hj.
    apply fmap_Some in Hi as (ei' & ? & ->), Hj as (ej' & ? & ->). simpl. eauto.
Qed.

Lemma reset_wf d : wf d → wf (reset d).
Proof.
  intros [Hn Hb He Hu Hw]. unfold reset. constructor; simpl;
    rewrite ?length_fmap, ?length_clear_bits; try done.
  - apply Forall_fmap, Forall_true. intros. apply Entry_init_ok.
  - intros i j ei ej Hi. rewrite list_lookup_fmap in Hi.
    apply fmap_Some in Hi as (? & ? & ->). done.
Qed.

Lemma init_wf n : (0 < n)%nat → wf (init n).
Proof.
  intros Hn. constructor; simpl; rewrite ?length_replicate; try done.
  - apply Forall_replicate, Entry_init_ok.
  - intros i j ei ej Hi. apply lookup_replicate in Hi as [-> _]. done.
Qed.

Lemma step_wf d o : wf d → wf (step d o).
Proof.
  intros Hwf. destruct o; simpl.
  - by apply observe_wf.
  - by apply dispatch_loop_wf.
  - by apply begin_wf.
  - by apply squash_wf.
  - by apply end_wf.
  - by apply reset_wf.
Qed.

Lemma run_wf ops d : wf d → wf (foldl step d ops).
Proof. revert d. induction ops as [|o ops IH]; intros d Hd; simpl; [done|]. by apply IH, step_wf. Qed.

(** *** Squash: the undo log *)

(** [d'] extends the Discovery window of [d] by speculative bit writes, all of sequence at
    least [s], whose undo gives back the bits of [d]. *)
Definition window (s : Z) (d d' : Detector) : Prop :=
  entries d' = entries d ∧ timestamp d' = timestamp d ∧
  ∃ ws, discoverySeenWrites d' = ws ++ discoverySeenWrites d ∧
        Forall (λ w, s <= w_sequence w) ws ∧
        foldl (λ b w, bits_write b (w_entry w) false) (discoveryBits d') ws = discoveryBits d.

#[export] Instance window_preorder s : PreOrder (window s).
Proof.
  split.
  - intros d. split_and!; try done. by exists [].
  - intros d1 d2 d3 (E1 & T1 & w1 & W1 & F1 & B1) (E2 & T2 & w2 & W2 & F2 & B2).
    split_and!; try congruence. exists (w2 ++ w1). split_and!.
    + by rewrite W2, W1, app_assoc.
    + by apply Forall_app.
    + by rewrite foldl_app, B2.
Qed.

Lemma dispatch_loop_window s n i p t q d :
  s <= q → window s d (dispatch_loop n i p true t q d).1.
Proof.
  intros Hq. revert i d. induction n as [|n IH]; intros i d; simpl; [reflexivity|].
  destruct (trained_for (entries d !!! i) p); simpl; [|apply IH].
  destruct (discoverySeen d i) eqn:Hs; simpl; [reflexivity|].
  etrans; [|apply IH]. split_and!; try done.
  exists [mkWrite q i]. split_and!; try done.
  - by repeat constructor.
  - simpl. by apply bits_write_undo.
Qed.

Lemma dispatch_run_window s t ds d :
  Forall (λ x, s <= x.2) ds → window s d (dispatch_run d t ds).
Proof.
  revert d. induction ds as [|[p q] ds IH]; intros d Hds; simpl; [reflexivity|].
  apply Forall_cons in Hds as [Hq Hds]. etrans; [|apply IH; done].
  by apply dispatch_loop_window.
Qed.

Lemma undo_writes_app s ws ws' bits :
  Forall (λ w, s <= w_sequence w) ws → Forall (λ w, w_sequence w < s) ws' →
  undo_writes s (ws ++ ws') bits =
    (ws', foldl (λ b w, bits_write b (w_entry w) false) bits ws).
Proof.
  revert bits. induction ws as [|w ws IH]; intros bits Hws Hws'; simpl.
  - destruct ws' as [|w' ws']; simpl; [done|]. apply Forall_cons in Hws' as [? _].
    by destruct (Z.leb_spec s (w_sequence w')); [lia|].
  - apply Forall_cons in Hws as [? Hws]. destruct (Z.leb_spec s (w_sequence w)); [|lia].
    by apply IH.
Qed.

(** *** One entry per PC *)

Definition matches (es : list Entry) (p : Z) (j : nat) : bool :=
  e_valid (es !!! j) && (e_pc (es !!! j) =? p).

Lemma trained_matches es p j : trained_for (es !!! j) p = true → matches es p j = true.
Proof. unfold trained_for, matches. intros H. reflect. by rewrite H, H2, Z.eqb_refl. Qed.

Lemma matches_unique d p i j :
  wf d → (i < length (entries d))%nat → (j < length (entries d))%nat →
  matches (entries d) p i = true → matches (entries d) p j = true → i = j.
Proof.
  unfold matches. intros Hwf Hi Hj Mi Mj. reflect.
  eapply (wf_unique d Hwf); [by apply list_lookup_lookup_total_lt..| | |]; congruence.
Qed.

(** The loop does nothing once no matching entry is left. *)
Lemma dispatch_loop_none n i p act t s d :
  (∀ j, (i <= j < i + n)%nat → matches (entries d) p j = false) →
  dispatch_loop n i p act t s d = (d, None).
Proof.
  revert i. induction n as [|n IH]; intros i H; simpl; [done|].
  destruct (trained_for (entries d !!! i) p) eqn:E; simpl.
  - apply trained_matches in E. rewrite H in E by lia. done.
  - apply IH. intros j Hj. apply H. lia.
Qed.

(** Reference form of [observeDispatch]: one lookup instead of the table scan. *)
Definition dispatch_ref (d : Detector) (p : Z) (act : bool) (t s : Z)
  : Detector * option Candidate :=
  match find_entry (entries d) p with
  | None => (d, None)
  | Some i =>
      let e := entries d !!! i in
      if negb (trained_for e p) then (d, None)
      else if act then
        if discoverySeen d i
        then (d, Some (mkCandidate p (next_address e) (e_stride e) (negb (p =? t))))
        else (setDiscoverySeen (d <| discoverySeenWrites ::= λ ws, mkWrite s i :: ws |>) i true,
              None)
      else if e_candidatePending e
        then (d <| entries ::= λ es, <[i := e <| e_candidatePending := false |>]> es |>,
              Some (mkCandidate p (next_address e) (e_stride e) false))
        else (d, None)
  end.

Lemma find_entry_matches es p i :
  find_entry es p = Some i →
  (i < length es)%nat ∧ matches es p i = true ∧ ∀ j, (j < i)%nat → matches es p j = false.
Proof.
  unfold find_entry. rewrite find_from_Some. intros (? & ? & H).
  split; [lia|]. split; [done|]. intros j Hj. apply H. lia.
Qed.

Lemma dispatch_loop_at d p act t s k i n :
  wf d → find_entry (entries d) p = Some k → (i <= k)%nat →
  (i + n = length (entries d))%nat →
  dispatch_loop n i p act t s d = dispatch_ref d p act t s.
Proof.
  intros Hwf Hf. pose proof (find_entry_matches _ _ _ Hf) as (Hk & Mk & Hlt).
  revert i. induction n as [|n IH]; intros i Hik Hn; simpl; [lia|].
  assert (∀ d' j, entries d' = entries d → (k < j < length (entries d))%nat →
            matches (entries d') p j = false) as Hgt.
  { intros d' j -> Hj. destruct (matches (entries d) p j) eqn:Mj; [|done].
    pose proof (matches_unique d p k j Hwf Hk ltac:(lia) Mk Mj). lia. }
  destruct (decide (i = k)) as [->|Hne].
  - unfold dispatch_ref. rewrite Hf.
    destruct (trained_for (entries d !!! k) p); simpl;
      [|by apply dispatch_loop_none; intros; apply Hgt; [done|lia]].
    destruct act.
    + destruct (discoverySeen d k); simpl; [done|].
      apply dispatch_loop_none. intros. apply Hgt; [done|lia].
    + destruct (e_candidatePending _); [done|].
      apply dispatch_loop_none. intros. apply Hgt; [done|lia].
  - destruct (trained_for (entries d !!! i) p) eqn:E; simpl; [|apply IH; lia].
    apply trained_matches in E. rewrite Hlt in E by lia. done.
Qed.

Lemma observeDispatch_ref d p act t s :
  wf d → observeDispatch d p act t s = dispatch_ref d p act t s.
Proof.
  intros Hwf. unfold observeDispatch.
  destruct (find_entry (entries d) p) as [k|] eqn:Hf.
  - apply (dispatch_loop_at d p act t s k); [done..|lia|lia].
  - rewrite dispatch_loop_none; [by unfold dispatch_ref; rewrite Hf|].
    unfold find_entry in Hf. rewrite find_from_None in Hf. intros j Hj. apply Hf. lia.
Qed.

(** *** Training *)

(** The entry of [p] is [e], up to its age. *)
Definition holds (d : Detector) (p : Z) (e : Entry) : Prop :=
  ∃ i ts, find_entry (entries d) p = Some i ∧ entries d !!! i = e <| e_age := ts |>.

Lemma find_entry_put es p i e :
  (i < length es)%nat → e_valid e = true → e_pc e = p →
  (∀ j, (j < i)%nat → matches es p j = false) →
  find_entry (<[i:=e]> es) p = Some i.
Proof.
  intros Hi Hv Hp Hlt. unfold find_entry. apply find_from_Some. rewrite length_insert.
  split; [lia|]. rewrite lookup_total_insert_eq by done. split.
  - by rewrite Hv, Hp, Z.eqb_refl.
  - intros j Hj. rewrite lookup_total_insert_ne by lia. apply Hlt. lia.
Qed.

Lemma observe_miss d p a :
  wf d → find_entry (entries d) p = None →
  (observe d p a).2 = None ∧ holds (observe d p a).1 p (mkEntry true p a 0 0 0 false).
Proof.
  intros Hwf Hf. unfold observe. simpl. rewrite Hf. split; [done|].
  pose proof (victim_spec d Hwf) as [Hv _]. unfold install, holds. simpl.
  set (v := select_victim _ _ _ _) in *. exists v, (inc64 (timestamp d)). split.
  - apply find_entry_put; try done. intros j Hj. unfold find_entry in Hf.
    rewrite find_from_None in Hf. apply Hf. lia.
  - by rewrite lookup_total_insert_eq.
Qed.

Lemma train_age e s c ts :
  arm_pending c (train (e <| e_age := ts |>) s) =
    (arm_pending c (train e s)) <| e_age := ts |>.
Proof.
  unfold train. destruct e as [v p la st cf ag pend]. simpl.
  destruct (negb (s =? 0) && (s =? st)).
  - destruct (cf <? MaxConfidence); unfold arm_pending; simpl; by repeat case_match.
  - destruct (0 <? cf); simpl; (case_match; unfold arm_pending; simpl; by repeat case_match).
Qed.

Lemma observe_hit d p a e :
  e_valid e = true → e_pc e = p → holds d p e →
  let e' := arm_pending (e_confidence e) (train e (s64 (s64 a - s64 (e_lastAddress e)))) in
  holds (observe d p a).1 p (e' <| e_lastAddress := a |>) ∧
  (observe d p a).2 =
    if negb (e_stride e' =? 0) && e_candidatePending e'
    then Some (mkCandidate p a (e_stride e') false) else None.
Proof.
  intros Hv Hp (i & ts & Hf & He) e'. unfold observe. simpl. rewrite Hf, He.
  pose proof (find_entry_matches _ _ _ Hf) as (Hi & _ & Hlt).
  rewrite train_age. change (e_confidence (e <| e_age := ts |>)) with (e_confidence e).
  change (e_lastAddress (e <| e_age := ts |>)) with (e_lastAddress e). fold e'.
  assert (e_valid e' = true ∧ e_pc e' = p) as [Hv' Hp'].
  { unfold e'. destruct (train_valid e (s64 (s64 a - s64 (e_lastAddress e)))
      (e_confidence e)) as [-> ->]. done. }
  simpl. destruct (negb (e_stride e' =? 0) && e_candidatePending e'); simpl;
    (split; [|done]); exists i, (inc64 (timestamp d)); (split;
      simpl; [by apply find_entry_put|by rewrite lookup_total_insert_eq]).
Qed.

(** The stride seen between two consecutive elements of an affine address stream. *)
Lemma affine_stride a k s :
  - 2 ^ 63 <= s < 2 ^ 63 →
  s64 (s64 (u64 (a + (k + 1) * s)) - s64 (u64 (a + k * s))) = s.
Proof.
  intros Hs. rewrite <- (s64_small s Hs) at 3. apply s64_congr.
  rewrite !s64_u64.
  rewrite <- u64_sub_l, <- u64_sub_r, !u64_s64, u64_sub_l, u64_sub_r. f_equal. lia.
Qed.

Lemma affine_hit k k' d p a s st cf pend st' cf' pend' :
  - 2 ^ 63 <= s < 2 ^ 63 → k' = k + 1 →
  arm_pending cf (train (mkEntry true p (u64 (a + k * s)) st cf 0 pend) s)
    = mkEntry true p (u64 (a + k * s)) st' cf' 0 pend' →
  holds d p (mkEntry true p (u64 (a + k * s)) st cf 0 pend) →
  let a' := u64 (a + k' * s) in
  holds (observe d p a').1 p (mkEntry true p a' st' cf' 0 pend') ∧
  (observe d p a').2 = if negb (st' =? 0) && pend'
    then Some (mkCandidate p a' st' false) else None.
Proof.
  intros Hs -> He H a'.
  pose proof (observe_hit d p a' (mkEntry true p (u64 (a + k * s)) st cf 0 pend)
    eq_refl eq_refl H) as HO. cbn [e_confidence e_lastAddress] in HO.
  replace (s64 (s64 a' - s64 (u64 (a + k * s)))) with s in HO
    by (symmetry; by apply affine_stride).
  rewrite He in HO. exact HO.
Qed.

(** The three training transitions of an affine stream: learn the stride, then raise the
    confidence to one and to the candidate threshold. *)
Lemma train_affine p x s :
  s ≠ 0 →
  arm_pending 0 (train (mkEntry true p x 0 0 0 false) s) = mkEntry true p x s 0 0 false ∧
  arm_pending 0 (train (mkEntry true p x s 0 0 false) s) = mkEntry true p x s 1 0 false ∧
  arm_pending 1 (train (mkEntry true p x s 1 0 false) s) = mkEntry true p x s 2 0 true.
Proof.
  intros Hs. unfold train, arm_pending. simpl. rewrite Z.eqb_refl.
  by destruct (Z.eqb_spec s 0).
Qed.

(** An armed notification is delivered once. *)
Lemma dispatch_once d p e t q :
  wf d → holds d p e → trained_for e p = true → e_candidatePending e = true →
  let '(d', r) := observeDispatch d p false t q in
  let '(_, r') := observeDispatch d' p false t q in
  r = Some (mkCandidate p (next_address e) (e_stride e) false) ∧ r' = None.
Proof.
  intros Hwf (i & ts & Hf & He) Ht Hc.
  assert (e_valid e = true ∧ e_pc e = p) as [Hv Hp] by (unfold trained_for in Ht; by reflect).
  pose proof (find_entry_matches _ _ _ Hf) as (Hi & _ & Hlt).
  pose proof (dispatch_loop_wf (length (entries d)) 0 p false t q d Hwf eq_refl) as Hwf'.
  change (wf (observeDispatch d p false t q).1) in Hwf'.
  rewrite (observeDispatch_ref d) in * by done. unfold dispatch_ref in *.
  rewrite Hf, He in *. change (trained_for (e <| e_age := ts |>) p) with (trained_for e p) in *.
  rewrite Ht in *. simpl in *. rewrite Hc in *. simpl in *.
  rewrite observeDispatch_ref by done. unfold dispatch_ref. simpl.
  rewrite (find_entry_put _ p i) by done. rewrite lookup_total_insert_eq by done.
  by destruct (trained_for _ _).
Qed.

(** ** Properties *)

(** C31: every state the detector can reach from its constructor, by any sequence of
    observations, dispatches, squashes and Discovery boundaries, is well formed: confidence
    counters stay 2-bit, at most one valid entry exists per PC, a pending notification
    belongs to a trained non-zero stride, and the Discovery bit words cover the table. *)
Theorem stride_reachable_wf (n : nat) (ops : list Op) :
  (0 < n)%nat → wf (foldl step (init n) ops).
Proof.
  intros Hn. by apply run_wf, init_wf.
Qed.

Lemma stride_reachable_wf_witness :
  wf (foldl step (init 2) [OpObserve 100 8; OpObserve 100 16; OpBegin 100; OpEnd]).
Proof. apply (stride_reachable_wf 2). lia. Defined.

(** An affine address stream trains a new PC: the first three observations report
    nothing, the fourth reports a candidate with the stream's stride, and the dispatch side
    then consumes that notification exactly once, predicting the fifth address. *)
Theorem affine_stream_trains (d : Detector) (p a s t q : Z) :
  wf d → find_entry (entries d) p = None →
  s ≠ 0 → - 2 ^ 63 <= s < 2 ^ 63 →
  let addr k := u64 (a + k * s) in
  let '(d1, r1) := observe d p (addr 0) in
  let '(d2, r2) := observe d1 p (addr 1) in
  let '(d3, r3) := observe d2 p (addr 2) in
  let '(d4, r4) := observe d3 p (addr 3) in
  let '(d5, r5) := observeDispatch d4 p false t q in
  let '(d6, r6) := observeDispatch d5 p false t q in
  r1 = None ∧ r2 = None ∧ r3 = None ∧
  r4 = Some (mkCandidate p (addr 3) s false) ∧
  r5 = Some (mkCandidate p (addr 4) s false) ∧ r6 = None.
Proof.
  intros Hwf Hf Hs0 Hs addr. subst addr. cbv beta.
  destruct (observe_miss d p (u64 (a + 0 * s)) Hwf Hf) as [R1 H1].
  destruct (train_affine p (u64 (a + 0 * s)) s Hs0) as (T1 & _).
  destruct (train_affine p (u64 (a + 1 * s)) s Hs0) as (_ & T2 & _).
  destruct (train_affine p (u64 (a + 2 * s)) s Hs0) as (_ & _ & T3).
  destruct (affine_hit 0 1 _ p a s _ _ _ _ _ _ Hs eq_refl T1 H1) as [H2 R2].
  destruct (affine_hit 1 2 _ p a s _ _ _ _ _ _ Hs eq_refl T2 H2) as [H3 R3].
  destruct (affine_hit 2 3 _ p a s _ _ _ _ _ _ Hs eq_refl T3 H3) as [H4 R4].
  pose proof (observe_wf _ p (u64 (a + 0 * s)) Hwf) as W1.
  apply (observe_wf _ p (u64 (a + 1 * s))), (observe_wf _ p (u64 (a + 2 * s))), (observe_wf _ p (u64 (a + 3 * s))) in W1.
  destruct (observe d p (u64 (a + 0 * s))) as [d1 r1]; cbn [fst snd] in *.
  destruct (observe d1 p (u64 (a + 1 * s))) as [d2 r2]; cbn [fst snd] in *.
  destruct (observe d2 p (u64 (a + 2 * s))) as [d3 r3]; cbn [fst snd] in *.
  destruct (observe d3 p (u64 (a + 3 * s))) as [d4 r4]; cbn [fst snd] in *.
  assert (trained_for (mkEntry true p (u64 (a + 3 * s)) s 2 0 true) p = true) as HT
    by (unfold trained_for; simpl; rewrite Z.eqb_refl; by destruct (Z.eqb_spec s 0)).
  pose proof (dispatch_once d4 p _ t q W1 H4 HT eq_refl) as HD.
  destruct (observeDispatch d4 p false t q) as [d5 r5].
  destruct (observeDispatch d5 p false t q) as [d6 r6].
  destruct HD as [-> ->].
  rewrite R1, R2, R3, R4. destruct (Z.eqb_spec s 0); [done|]. simpl.
  split_and!; try done. do 2 f_equal. unfold next_address. cbn [e_lastAddress e_stride].
  rewrite s64_u64, <- u64_add_l, u64_s64, u64_add_l. f_equal. lia.
Qed.

Lemma affine_stream_trains_witness :
  let d4 := foldl step (init 2)
    [OpObserve 100 1000; OpObserve 100 1008; OpObserve 100 1016; OpObserve 100 1024] in
  (observeDispatch d4 100 false 0 1).2 = Some (mkCandidate 100 1032 8 false).
Proof.
  assert (wf (init 2)) as H by (apply init_wf; lia).
  pose proof (affine_stream_trains (init 2) 100 1000 8 0 1 H eq_refl
    ltac:(lia) ltac:(lia)) as T.
  vm_compute in T. vm_compute. apply T.
Defined.

(** C30: Squashing undoes speculation exactly, while a Discovery is active.  Take any state of the
    detector whose logged writes all precede sequence number s, and any dispatches of loads, of
    sequence s or later, observed while a Discovery is active.  Then squashDiscovery s takes the
    detector back to the very state before them: Discovery bits, log and table.  (A dispatch while no
    Discovery is active consumes a pending candidate, which a squash does not give back.) *)
Theorem squash_undoes_dispatches (d : Detector) (t s : Z) (ds : list (Z * Z)) :
  Forall (λ w, w_sequence w < s) (discoverySeenWrites d) →
  Forall (λ x, s <= x.2) ds →
  squashDiscovery (dispatch_run d t ds) s = d.
Proof.
  intros Hold Hds.
  destruct (dispatch_run_window s t ds d Hds) as (HE & HT & ws & HW & HF & HB).
  unfold squashDiscovery. rewrite HW, undo_writes_app by done. rewrite HB.
  destruct d, (dispatch_run _ _ _); simpl in *. by subst.
Qed.

Lemma squash_undoes_dispatches_witness :
  let d := foldl step (init 2) [OpObserve 100 8; OpObserve 100 16; OpObserve 100 24;
    OpObserve 100 32; OpBegin 200] in
  let d' := dispatch_run d 200 [(100, 7); (100, 9)] in
  discoverySeen d' 0 = true ∧ squashDiscovery d' 6 = d.
Proof.
  intros d d'. split; [by vm_compute|].
  apply (squash_undoes_dispatches d 200 6); repeat constructor; simpl; lia.
Defined.

(** On a well-formed table the dispatch scan is one table lookup. *)
Theorem observeDispatch_lookup (d : Detector) (p : Z) (act : bool) (t s : Z) :
  wf d → observeDispatch d p act t s = dispatch_ref d p act t s.
Proof. apply observeDispatch_ref. Qed.

Lemma observeDispatch_lookup_witness :
  observeDispatch (init 3) 100 true 0 1 = dispatch_ref (init 3) 100 true 0 1.
Proof. apply (observeDispatch_lookup (init 3)), init_wf. lia. Defined.

(** A miss allocates by LRU: the new PC takes the first invalid entry, or the entry
    with the smallest age when all are valid; its Discovery bit is cleared, and no other
    entry or bit changes. *)
Theorem miss_replaces_lru (d : Detector) (p a : Z) :
  wf d → find_entry (entries d) p = None →
  ∃ v, victim_ok (entries d) v ∧
    let d' := (observe d p a).1 in
    entries d' !!! v = mkEntry true p a 0 0 (timestamp d') false ∧
    discoverySeen d' v = false ∧
    ∀ j, j ≠ v → entries d' !!! j = entries d !!! j ∧ discoverySeen d' j = discoverySeen d j.
Proof.
  intros Hwf Hf. exists (select_victim (entries d) (length (entries d)) 0 0).
  pose proof (victim_spec d Hwf) as Hv. split; [done|]. destruct Hv as [Hv _].
  unfold observe. simpl. rewrite Hf. simpl. unfold discoverySeen. simpl.
  set (v := select_victim _ _ _ _) in *. clearbody v.
  assert (v / 64 < length (discoveryBits d))%nat as Hb
    by (rewrite (wf_bits d Hwf); by apply bits_index).
  rewrite lookup_total_insert_eq, bits_seen_write, bool_decide_eq_true_2 by done.
  split_and!; try done. intros j Hj. rewrite lookup_total_insert_ne by done.
  by rewrite bits_seen_write, bool_decide_eq_false_2.
Qed.

Lemma miss_replaces_lru_witness :
  let d := foldl step (init 2) [OpObserve 100 8; OpObserve 200 8; OpObserve 100 16] in
  ∃ v, victim_ok (entries d) v ∧
    let d' := (observe d 300 64).1 in
    entries d' !!! v = mkEntry true 300 64 0 0 (timestamp d') false ∧
    discoverySeen d' v = false ∧
    ∀ j, j ≠ v → entries d' !!! j = entries d !!! j ∧ discoverySeen d' j = discoverySeen d j.
Proof.
  apply miss_replaces_lru; [|by vm_compute].
  apply run_wf, init_wf. lia.
Defined.

End Stride.
