(* ===== verification/Discovery.v ===== *)
(** * The Discovery controller

    Model of [DVRDiscoveryController] (src/cpu/o3/pre.hh, pre.cc): the state machine of one
    Discovery interval, opened at dispatch and closed in commit order. *)

From S2P Require Import Prelude Stride.

Module Discovery.

(** [enum class Event] *)
Inductive Event := EvNone | EvStarted | EvCompleted | EvTimedOut | EvAbandoned.

(** [enum class State] *)
Inductive State := Idle | Armed | Discovering.

#[export] Instance Event_eq_dec : EqDecision Event.
Proof. solve_decision. Defined.

#[export] Instance State_eq_dec : EqDecision State.
Proof. solve_decision. Defined.

(** [struct Result] *)
Record Result := mkResult {
  r_event : Event;  r_triggerPC : Z;  r_stride : Z;  r_instructions : Z
}.

(** [Result{}] *)
Definition Result_none : Result := mkResult EvNone 0 0 0.

Record Controller := mkController {
  state : State;
  triggerPC : Z;
  triggerStride : Z;
  triggerSequence : Z;
  stopSequence : Z;
  instructions : Z;
  maxInstructions : Z
}.

#[export] Instance eta_Controller : Eta Controller := λ r,
  mkController (state r) (triggerPC r) (triggerStride r) (triggerSequence r)
    (stopSequence r) (instructions r) (maxInstructions r).

(** Constructor; the assertion [maxInstructions > 0] is a hypothesis of the theorems. *)
Definition init (max_instructions : Z) : Controller :=
  mkController Idle 0 0 0 0 0 max_instructions.

(** [finish] *)
Definition finish (c : Controller) : Controller :=
  c <| state := Idle |> <| triggerPC := 0 |> <| triggerStride := 0 |>
    <| triggerSequence := 0 |> <| stopSequence := 0 |> <| instructions := 0 |>.

(** [arm] *)
Definition arm (c : Controller) (cand : Stride.Candidate) (sequence : Z) : Controller :=
  if negb (bool_decide (state c = Idle)) then c
  else c <| state := Discovering |> <| triggerPC := Stride.c_pc cand |>
         <| triggerStride := Stride.c_stride cand |> <| triggerSequence := sequence |>
         <| stopSequence := 0 |> <| instructions := 0 |>.

(** [restart] *)
Definition restart (c : Controller) (cand : Stride.Candidate) (sequence : Z) : Controller :=
  arm (finish c) cand sequence.

(** [observeDispatch] *)
Definition observeDispatch (c : Controller) (p sequence : Z) : Controller * bool :=
  if negb (bool_decide (state c = Discovering)) || (sequence <=? triggerSequence c)
     || negb (stopSequence c =? 0)
  then (c, false)
  else if p =? triggerPC c then (c <| stopSequence := sequence |>, true)
  else (c, false).

(** [observeCommit] *)
Definition observeCommit (c : Controller) (p sequence : Z) : Controller * Result :=
  if bool_decide (state c = Armed) then
    if (sequence =? triggerSequence c) && (p =? triggerPC c)
    then (c <| state := Discovering |>, mkResult EvStarted (triggerPC c) (triggerStride c) 0)
    else if triggerSequence c <? sequence
    then (finish c, mkResult EvAbandoned (triggerPC c) (triggerStride c) 0)
    else (c, Result_none)
  else if negb (bool_decide (state c = Discovering)) || (sequence <=? triggerSequence c)
  then (c, Result_none)
  else if negb (stopSequence c =? 0) && (sequence =? stopSequence c)
  then (finish c, mkResult EvCompleted (triggerPC c) (triggerStride c) (instructions c))
  else
    let c := c <| instructions ::= inc32 |> in
    if maxInstructions c <=? instructions c
    then (finish c, mkResult EvTimedOut (triggerPC c) (triggerStride c) (instructions c))
    else (c, Result_none).

(** [rollback] *)
Definition rollback (c : Controller) (squash_sequence : Z) : Controller * bool :=
  if bool_decide (state c = Idle) || (triggerSequence c <? squash_sequence)
  then (c, false) else (finish c, true).

(** [isDiscovering], [stopPending], [inDiscoveryBody], [reset] *)
Definition isDiscovering (c : Controller) : bool := bool_decide (state c = Discovering).

Definition stopPending (c : Controller) : bool :=
  bool_decide (state c = Discovering) && negb (stopSequence c =? 0).

Definition inDiscoveryBody (c : Controller) (sequence : Z) : bool :=
  bool_decide (state c = Discovering) && (triggerSequence c <? sequence)
  && ((stopSequence c =? 0) || (sequence <? stopSequence c)).

Definition reset (c : Controller) : Controller := finish c.

(** ** Driving the controller *)

Inductive Op :=
| OpArm (cand : Stride.Candidate) (sequence : Z)
| OpRestart (cand : Stride.Candidate) (sequence : Z)
| OpDispatch (p sequence : Z)
| OpCommit (p sequence : Z)
| OpRollback (sequence : Z)
| OpReset.

(** The public operations as a transition relation. *)
Inductive step : Controller → Op → Controller → Prop :=
| step_arm c cand s : step c (OpArm cand s) (arm c cand s)
| step_restart c cand s : step c (OpRestart cand s) (restart c cand s)
| step_dispatch c p s : step c (OpDispatch p s) (observeDispatch c p s).1
| step_commit c p s : step c (OpCommit p s) (observeCommit c p s).1
| step_rollback c s : step c (OpRollback s) (rollback c s).1
| step_reset c : step c OpReset (reset c).

(** States reachable from the constructor. *)
Inductive reachable (max : Z) : Controller → Prop :=
| reach_init : reachable max (init max)
| reach_step c o c' : reachable max c → step c o c' → reachable max c'.

(** The commits of a window, with the results they return. *)
Fixpoint commits (c : Controller) (cs : list (Z * Z)) : Controller * list Result :=
  match cs with
  | [] => (c, [])
  | (p, s) :: cs =>
      let '(c1, r) := observeCommit c p s in
      let '(c2, rs) := commits c1 cs in (c2, r :: rs)
  end.

(** ** Invariants *)

Definition ctl_ok (max : Z) (c : Controller) : Prop :=
  maxInstructions c = max ∧
  match state c with
  | Idle => c = init max
  | Armed => False
  | Discovering =>
      0 <= instructions c < max ∧ (stopSequence c = 0 ∨ triggerSequence c < stopSequence c)
  end.

Lemma finish_ok max c : maxInstructions c = max → finish c = init max.
Proof. by intros <-. Qed.

Lemma observeCommit_ok max c p s :
  0 < max < 2 ^ 32 → ctl_ok max c → ctl_ok max (observeCommit c p s).1.
Proof.
  intros Hm [Hmax Hst]. unfold observeCommit.
  destruct c as [[] tp ts tq st n mx]; simpl in *; [done..|]. subst mx.
  destruct Hst as [Hn Hstop]. destruct (s <=? tq); simpl; [done|].
  destruct (_ && _); simpl; [done|].
  rewrite inc32_small by lia. destruct (Z.leb_spec max (n + 1)); simpl; [done|].
  split_and!; simpl; try done; lia.
Qed.

Lemma step_ok max c o c' :
  0 < max < 2 ^ 32 → ctl_ok max c → step c o c' → ctl_ok max c'.
Proof.
  intros Hm Hc Hs. destruct Hs; [| | |by apply observeCommit_ok| |].
  - unfold arm. case_bool_decide; simpl; [|done]. destruct Hc as [Hmax _].
    split; simpl; [done|]. lia.
  - destruct Hc as [Hmax _]. unfold restart. rewrite (finish_ok max) by done.
    split; simpl; [done|]. lia.
  - unfold observeDispatch. repeat case_match; simpl; try done. reflect.
    apply bool_decide_eq_true in H. destruct Hc as [Hmax Hst]. rewrite H in Hst.
    split; simpl; [done|]. rewrite H. split; [|right]; lia.
  - unfold rollback. case_match; simpl; [done|]. destruct Hc as [Hmax _].
    by rewrite (finish_ok max).
  - destruct Hc as [Hmax _]. unfold reset. by rewrite (finish_ok max).
Qed.

(** A commit that closes nothing only counts. *)
Lemma observeCommit_body c p s :
  state c = Discovering → triggerSequence c < s → stopSequence c = 0 ∨ s ≠ stopSequence c →
  0 <= instructions c → instructions c + 1 < maxInstructions c < 2 ^ 32 →
  observeCommit c p s = (c <| instructions := instructions c + 1 |>, Result_none).
Proof.
  intros Hst Hs Hne Hn Hm. unfold observeCommit. rewrite Hst. simpl.
  destruct (Z.leb_spec s (triggerSequence c)); [lia|].
  rewrite (proj2 (andb_false_iff _ _)) by (destruct Hne as [->|]; [by left|right; by apply Z.eqb_neq]).
  rewrite inc32_small by lia.
  destruct (Z.leb_spec (maxInstructions c) (instructions c + 1)); [lia|done].
Qed.

Lemma commits_body c cs :
  state c = Discovering → 0 <= instructions c →
  instructions c + Z.of_nat (length cs) < maxInstructions c < 2 ^ 32 →
  Forall (λ x, triggerSequence c < x.2 ∧ (stopSequence c = 0 ∨ x.2 ≠ stopSequence c)) cs →
  commits c cs =
    (c <| instructions := instructions c + Z.of_nat (length cs) |>,
     (λ _, Result_none) <$> cs).
Proof.
  revert c. induction cs as [|[p s] cs IH]; intros c Hst Hn Hm Hcs.
  - simpl. f_equal. destruct c; simpl. f_equal. lia.
  - apply Forall_cons in Hcs as [[Hs Hne] Hcs]. cbn [commits length] in *.
    rewrite observeCommit_body by (simpl in *; first [done|lia]).
    rewrite IH by (simpl; first [done|lia]). simpl.
    f_equal. destruct c; simpl. f_equal. lia.
Qed.

Lemma commits_app c cs1 cs2 :
  commits c (cs1 ++ cs2) =
    let '(c1, rs1) := commits c cs1 in
    let '(c2, rs2) := commits c1 cs2 in (c2, rs1 ++ rs2).
Proof.
  revert c. induction cs1 as [|[p s] cs1 IH]; intros c; simpl.
  - by destruct (commits c cs2).
  - destruct (observeCommit c p s) as [c1 r]. rewrite IH.
    destruct (commits c1 cs1) as [c2 rs]. by destruct (commits c2 cs2).
Qed.

(** A commit stream without the stop never reports [Completed]. *)
Lemma commits_no_stop q c cs r :
  (state c = Discovering ∧ stopSequence c = q) ∨ state c = Idle →
  Forall (λ x, x.2 ≠ q) cs →
  r ∈ (commits c cs).2 → r_event r ≠ EvCompleted.
Proof.
  revert c r. induction cs as [|[p s] cs IH]; intros c r Hc Hcs; [by rewrite elem_of_nil|].
  apply Forall_cons in Hcs as [Hs Hcs]. simpl in Hs |- *.
  destruct (observeCommit c p s) as [c1 r1] eqn:E.
  assert (((state c1 = Discovering ∧ stopSequence c1 = q) ∨ state c1 = Idle) ∧
          r_event r1 ≠ EvCompleted) as [Hc1 Hr1].
  { unfold observeCommit in E. destruct Hc as [[Hst <-]|Hst]; rewrite Hst in E; simpl in E.
    - destruct (Z.eqb_spec s (stopSequence c)); [done|]. rewrite andb_false_r in E.
      repeat case_match; simplify_eq/=; naive_solver.
    - simplify_eq/=. naive_solver. }
  specialize (IH c1). destruct (commits c1 cs) as [c2 rs]. simpl.
  rewrite elem_of_cons. intros [->|Hr]; [done|]. by apply IH.
Qed.

(** The commit that reaches the budget ends the Discovery. *)
Lemma observeCommit_timeout c p s :
  state c = Discovering → triggerSequence c < s → stopSequence c = 0 ∨ s ≠ stopSequence c →
  0 <= instructions c → instructions c + 1 = maxInstructions c → maxInstructions c < 2 ^ 32 →
  observeCommit c p s =
    (finish c, mkResult EvTimedOut (triggerPC c) (triggerStride c) (maxInstructions c)).
Proof.
  intros Hst Hs Hne Hn Hm Hr. unfold observeCommit. rewrite Hst. simpl.
  destruct (Z.leb_spec s (triggerSequence c)); [lia|].
  rewrite (proj2 (andb_false_iff _ _)) by (destruct Hne as [->|]; [by left|right; by apply Z.eqb_neq]).
  rewrite inc32_small by lia.
  destruct (Z.leb_spec (maxInstructions c) (instructions c + 1)); [|lia].
  by rewrite Hm.
Qed.

(** ** Properties *)

(** In every reachable state the controller is [Idle] with all its fields cleared, or
    [Discovering] with its instruction count below the budget and its stop, if any, younger
    than its trigger; the [Armed] state is unreachable. *)
Theorem discovery_reachable_ok (max : Z) (c : Controller) :
  0 < max < 2 ^ 32 → reachable max c → ctl_ok max c.
Proof. intros Hm. induction 1; [done|]. by eapply step_ok. Qed.

Lemma discovery_reachable_ok_witness :
  ctl_ok 512 (observeCommit (arm (init 512) (Stride.mkCandidate 64 8 8 false) 5) 68 6).1.
Proof.
  apply (discovery_reachable_ok 512); [lia|].
  eapply reach_step; [eapply reach_step; [apply reach_init|apply step_arm]|apply step_commit].
Defined.

(** A Discovery always ends.  Once [Discovering], [maxInstructions] younger commits
    produce a [Completed] or a [TimedOut] result. *)
Theorem discovery_terminates (max : Z) (c : Controller) (cs : list (Z * Z)) :
  0 < max < 2 ^ 32 → ctl_ok max c → state c = Discovering →
  Forall (λ x, triggerSequence c < x.2) cs → max <= Z.of_nat (length cs) →
  ∃ r, r ∈ (commits c cs).2 ∧ (r_event r = EvCompleted ∨ r_event r = EvTimedOut).
Proof.
  intros Hm Hok Hst Hcs Hlen.
  assert (max - instructions c <= Z.of_nat (length cs)) as Hl.
  { destruct Hok as [_ Hok]. rewrite Hst in Hok. lia. }
  clear Hlen. revert c Hok Hst Hcs Hl. induction cs as [|[p s] cs IH];
    intros c [Hmax Hok] Hst Hcs Hl; pose proof Hok as Hok'; rewrite Hst in Hok';
    destruct Hok' as [Hn Hstop].
  - simpl in Hl. lia.
  - apply Forall_cons in Hcs as [Hs Hcs]. simpl in *.
    destruct (decide (stopSequence c ≠ 0 ∧ s = stopSequence c)) as [[Hnz ->]|Hne].
    + unfold observeCommit. rewrite Hst. simpl.
      destruct (Z.leb_spec (stopSequence c) (triggerSequence c)); [lia|].
      rewrite Z.eqb_refl, andb_true_r. destruct (Z.eqb_spec (stopSequence c) 0); [done|].
      simpl. destruct (commits _ cs) as [c2 rs]. eexists. split; [by left|]. by left.
    + assert (stopSequence c = 0 ∨ s ≠ stopSequence c) by lia.
      destruct (decide (instructions c + 1 = maxInstructions c)).
      * rewrite observeCommit_timeout by (try done; lia).
        destruct (commits _ cs) as [c2 rs]. eexists. split; [by left|]. by right.
      * rewrite observeCommit_body by (try done; lia).
        destruct (IH (c <| instructions := instructions c + 1 |>)) as (r & Hr & Hev).
        -- split; [done|]. simpl. rewrite Hst. split; [lia|done].
        -- done.
        -- done.
        -- simpl. lia.
        -- destruct (commits _ cs) as [c2 rs]. exists r. split; [by right|done].
Qed.

Lemma discovery_terminates_witness :
  let c := arm (init 2) (Stride.mkCandidate 64 8 8 false) 5 in
  ∃ r, r ∈ (commits c [(68, 6); (72, 7)]).2 ∧
       (r_event r = EvCompleted ∨ r_event r = EvTimedOut).
Proof.
  apply (discovery_terminates 2); simpl; [lia| |done| |lia].
  - split; simpl; [done|]. lia.
  - repeat constructor; simpl; lia.
Defined.

(** C33: the functional behaviour of a whole interval.  After [arm], a repeat of the trigger
    PC at dispatch sets the stop; [n] younger commits below the budget count, and the commit
    of the stop then reports [Completed] with exactly [n] instructions and returns to
    [Idle]. *)
Theorem discovery_interval (max : Z) (cand : Stride.Candidate) (t q : Z) (cs : list (Z * Z)) :
  0 < max < 2 ^ 32 → 0 <= t < q →
  Forall (λ x, t < x.2 ∧ x.2 ≠ q) cs → Z.of_nat (length cs) < max →
  let c0 := arm (init max) cand t in
  let '(c1, stopped) := observeDispatch c0 (Stride.c_pc cand) q in
  let '(c2, rs) := commits c1 (cs ++ [(Stride.c_pc cand, q)]) in
  stopped = true ∧ c2 = init max ∧
  rs = ((λ _, Result_none) <$> cs) ++
       [mkResult EvCompleted (Stride.c_pc cand) (Stride.c_stride cand)
          (Z.of_nat (length cs))].
Proof.
  intros Hm Ht Hcs Hlen. unfold arm, observeDispatch. simpl.
  destruct (Z.leb_spec q t); [lia|]. simpl. rewrite Z.eqb_refl.
  rewrite commits_app, commits_body; simpl; try done; try lia.
  - unfold observeCommit. simpl. destruct (Z.leb_spec q t); [lia|]. rewrite Z.eqb_refl.
    destruct (Z.eqb_spec q 0); [lia|]. done.
  - eapply Forall_impl; [done|]. simpl. intros x [? ?]. split; [done|by right].
Qed.

Lemma discovery_interval_witness :
  (commits (observeDispatch (arm (init 512) (Stride.mkCandidate 64 8 8 false) 5) 64 9).1
     [(68, 6); (72, 7); (64, 9)]).2 = [Result_none; Result_none; mkResult EvCompleted 64 8 2].
Proof.
  pose proof (discovery_interval 512 (Stride.mkCandidate 64 8 8 false) 5 9
    [(68, 6); (72, 7)] ltac:(lia) ltac:(lia)
    ltac:(repeat constructor; simpl; lia) ltac:(simpl; lia)) as H.
  vm_compute in H. vm_compute. apply H.
Defined.

(** [rollback] keeps a stop whose dispatch was squashed.  When the squash removes the
    stop at [q] but not the trigger, the controller is unchanged; since [q] never commits
    (sequence numbers are not reused), every later dispatch of the trigger is ignored, no
    run of commits completes the Discovery, and it can only time out. *)
Theorem squashed_stop_never_completes (c : Controller) (sq : Z) (cs : list (Z * Z)) :
  state c = Discovering → stopSequence c ≠ 0 →
  triggerSequence c < sq <= stopSequence c →
  Forall (λ x, x.2 ≠ stopSequence c) cs →
  let c' := (rollback c sq).1 in
  c' = c ∧
  (∀ p s, observeDispatch c' p s = (c', false)) ∧
  ∀ r, r ∈ (commits c' cs).2 → r_event r ≠ EvCompleted.
Proof.
  intros Hst Hstop Hsq Hcs. unfold rollback. rewrite Hst. simpl.
  destruct (Z.ltb_spec (triggerSequence c) sq); [|lia]. simpl. split; [done|]. split.
  - intros p s. unfold observeDispatch. destruct (Z.eqb_spec (stopSequence c) 0); [done|].
    by rewrite orb_true_r.
  - intros r. apply (commits_no_stop (stopSequence c)); [by left|done].
Qed.

Lemma squashed_stop_never_completes_witness :
  let c := (observeDispatch (arm (init 512) (Stride.mkCandidate 64 8 8 false) 5) 64 9).1 in
  (rollback c 8).1 = c ∧ observeDispatch c 64 12 = (c, false) ∧
  ∀ r, r ∈ (commits c [(68, 6); (64, 12); (68, 13)]).2 → r_event r ≠ EvCompleted.
Proof.
  intros c.
  destruct (squashed_stop_never_completes c 8 [(68, 6); (64, 12); (68, 13)] eq_refl)
    as (H1 & H2 & H3); [done|split; vm_compute; done|repeat constructor; vm_compute; done|].
  split; [exact H1|]. split; [apply (H2 64 12)|exact H3].
Defined.

End Discovery.
