(* ===== verification/Taint.v ===== *)
(** * The vector taint tracker (VTT) and the final-load register (FLR)

    Model of [DVRVectorTaintTracker] (src/cpu/o3/pre.hh, pre.cc): one taint bit per RISC-V
    integer register, the PC of the last dependent load, and the snapshots that let an O3
    squash restore both.  Its specification is a dataflow relation. *)

From S2P Require Import Prelude Inst.

Module Taint.

Definition NumTrackedRegs : nat := 32.

(** [struct SpeculativeState] *)
Record SpeculativeState := mkSpec { s_sequence : Z;  s_taint : Z;  s_finalLoadPC : Z }.

(** [speculativeHistory] is a [std::vector] used as a stack; its back is the head. *)
Record Tracker := mkTracker {
  taint : Z;  finalLoadPC : Z;  speculativeHistory : list SpeculativeState
}.

#[export] Instance eta_Tracker : Eta Tracker := λ r,
  mkTracker (taint r) (finalLoadPC r) (speculativeHistory r).

(** [struct Observation] *)
Record Observation := mkObs { taintedInstruction : bool;  dependentLoad : bool }.

Definition init : Tracker := mkTracker 0 0 [].

(** [tracked] *)
Definition tracked (r : RegId) : bool :=
  is_int_class r && (index r <? NumTrackedRegs)%nat.

(** [isTainted] *)
Definition isTainted (t : Tracker) (r : RegId) : bool :=
  tracked r && test_bit (taint t) (index r).

(** [setTainted] *)
Definition setTainted (t : Tracker) (r : RegId) (value : bool) : Tracker :=
  if negb (tracked r) then t
  else t <| taint ::= λ w, (if value then set_bit else clear_bit) w (index r) |>.

(** [reset] *)
Definition reset (t : Tracker) : Tracker := mkTracker 0 0 [].

(** The loop over the destinations of an instruction. *)
Definition setTainted_all (t : Tracker) (rs : list RegId) (value : bool) : Tracker :=
  foldl (λ t r, setTainted t r value) t rs.

(** [begin] *)
Definition begin (t : Tracker) (initiating_load : DynInst) : Tracker :=
  setTainted_all (reset t) (inst_dests initiating_load) true.

(** The loop over the sources, with its early exit. *)
Definition source_tainted (t : Tracker) (i : DynInst) : bool :=
  existsb (isTainted t) (inst_srcs i).

(** [observe] *)
Definition observe (t : Tracker) (i : DynInst) : Tracker * Observation :=
  let src := source_tainted t i in
  let dependent_load := isLoad (staticInst i) && src in
  let t := if dependent_load then t <| finalLoadPC := instAddr i |> else t in
  (setTainted_all t (inst_dests i) src, mkObs src dependent_load).

(** [observeSpeculative] *)
Definition observeSpeculative (t : Tracker) (i : DynInst) (sequence : Z)
  : Tracker * Observation :=
  observe (t <| speculativeHistory ::= λ h, mkSpec sequence (taint t) (finalLoadPC t) :: h |>) i.

(** The loop of [squash]. *)
Fixpoint squash_loop (squash_sequence tnt flr : Z) (h : list SpeculativeState) : Tracker :=
  match h with
  | [] => mkTracker tnt flr []
  | x :: h' =>
      if squash_sequence <=? s_sequence x
      then squash_loop squash_sequence (s_taint x) (s_finalLoadPC x) h'
      else mkTracker tnt flr h
  end.

(** [squash] *)
Definition squash (t : Tracker) (squash_sequence : Z) : Tracker :=
  squash_loop squash_sequence (taint t) (finalLoadPC t) (speculativeHistory t).

(** [classify] *)
Definition classify (t : Tracker) (i : DynInst) : Observation :=
  let src := source_tainted t i in mkObs src (isLoad (staticInst i) && src).

(** [setFLR] *)
Definition setFLR (t : Tracker) (a : Z) : Tracker := t <| finalLoadPC := a |>.

(** ** Runs and specification *)

(** The observations of a window, in order. *)
Definition run (t : Tracker) (ins : list DynInst) : Tracker :=
  foldl (λ t i, (observe t i).1) t ins.

(** Dispatch-side observations with their sequence numbers. *)
Definition spec_run (t : Tracker) (ins : list (DynInst * Z)) : Tracker :=
  foldl (λ t '(i, s), (observeSpeculative t i s).1) t ins.

(** The integer register [r] is written, read by an instruction. *)
Definition writes (i : DynInst) (r : nat) : Prop :=
  ∃ x, x ∈ inst_dests i ∧ classValue x = IntRegClass ∧ index x = r.
Definition reads (i : DynInst) (r : nat) : Prop :=
  ∃ x, x ∈ inst_srcs i ∧ classValue x = IntRegClass ∧ index x = r.

(** [flow trig ins n r]: after the first [n] instructions of [ins], the value in register [r]
    derives from a destination of the trigger load through tracked registers. *)
Inductive flow (trig : DynInst) (ins : list DynInst) : nat → nat → Prop :=
| flow_trigger r :
    (r < NumTrackedRegs)%nat → writes trig r → flow trig ins 0 r
| flow_kept n i r :
    ins !! n = Some i → flow trig ins n r → ¬ writes i r → flow trig ins (S n) r
| flow_computed n i s r :
    ins !! n = Some i → flow trig ins n s → reads i s → writes i r →
    (r < NumTrackedRegs)%nat → flow trig ins (S n) r.

(** The loads of the window whose operands derive from the trigger, in order. *)
Definition dependent (trig : DynInst) (ins : list DynInst) (n : nat) (i : DynInst) : Prop :=
  ins !! n = Some i ∧ isLoad (staticInst i) = true ∧ ∃ s, reads i s ∧ flow trig ins n s.

(** ** Lemmas *)

Lemma tracked_spec r :
  tracked r = true ↔ classValue r = IntRegClass ∧ (index r < NumTrackedRegs)%nat.
Proof.
  unfold tracked, is_int_class. rewrite andb_true_iff, bool_decide_eq_true, Nat.ltb_lt. done.
Qed.

Lemma test_setTainted t r v n :
  test_bit (taint (setTainted t r v)) n =
    if tracked r && (index r =? n)%nat then v else test_bit (taint t) n.
Proof.
  unfold setTainted. destruct (tracked r); simpl; [|done].
  destruct (Nat.eqb_spec (index r) n) as [<-|Hne]; destruct v;
    rewrite ?test_set_bit, ?test_clear_bit.
  1, 2: by rewrite bool_decide_eq_true_2.
  all: by rewrite bool_decide_eq_false_2.
Qed.

Definition writes_b (rs : list RegId) (n : nat) : bool :=
  existsb (λ r, tracked r && (index r =? n)%nat) rs.

Lemma writes_b_spec i n :
  writes_b (inst_dests i) n = true ↔ writes i n ∧ (n < NumTrackedRegs)%nat.
Proof.
  unfold writes_b, writes. rewrite existsb_exists. split.
  - intros (x & Hx & Hb). reflect. apply tracked_spec in H as [? ?]. subst.
    split; [|done]. exists x. by rewrite list_elem_of_In.
  - intros [(x & Hx & Hc & <-) Hn]. exists x. rewrite <- list_elem_of_In. split; [done|].
    rewrite Nat.eqb_refl, andb_true_r. by apply tracked_spec.
Qed.

Lemma test_setTainted_all t rs v n :
  test_bit (taint (setTainted_all t rs v)) n =
    if writes_b rs n then v else test_bit (taint t) n.
Proof.
  unfold setTainted_all. revert t. induction rs as [|r rs IH]; intros t; simpl; [done|].
  rewrite IH, test_setTainted. by destruct (writes_b rs n), (tracked r && _).
Qed.

Lemma setTainted_all_frame t rs v :
  finalLoadPC (setTainted_all t rs v) = finalLoadPC t ∧
  speculativeHistory (setTainted_all t rs v) = speculativeHistory t.
Proof.
  unfold setTainted_all. revert t. induction rs as [|r rs IH]; intros t; simpl; [done|].
  destruct (IH (setTainted t r v)) as [-> ->]. unfold setTainted. by case_match.
Qed.

Lemma source_tainted_spec t i :
  source_tainted t i = true ↔
  ∃ s, reads i s ∧ (s < NumTrackedRegs)%nat ∧ test_bit (taint t) s = true.
Proof.
  unfold source_tainted, reads. rewrite existsb_exists. split.
  - intros (x & Hx & Hb). unfold isTainted in Hb. reflect. apply tracked_spec in H as [? ?].
    exists (index x). split; [|done]. exists x. by rewrite list_elem_of_In.
  - intros (s & (x & Hx & Hc & <-) & Hs & Hb). exists x. rewrite <- list_elem_of_In.
    split; [done|]. unfold isTainted. rewrite Hb, andb_true_r. by apply tracked_spec.
Qed.

Lemma test_observe t i n :
  test_bit (taint (observe t i).1) n =
    if writes_b (inst_dests i) n then source_tainted t i else test_bit (taint t) n.
Proof. unfold observe. simpl. rewrite test_setTainted_all. by destruct (isLoad _ && _). Qed.

Lemma flr_observe t i :
  finalLoadPC (observe t i).1 =
    if isLoad (staticInst i) && source_tainted t i then instAddr i else finalLoadPC t.
Proof.
  unfold observe. simpl. rewrite (proj1 (setTainted_all_frame _ _ _)). by case_match.
Qed.

Lemma history_observe t i : speculativeHistory (observe t i).1 = speculativeHistory t.
Proof.
  unfold observe. simpl. rewrite (proj2 (setTainted_all_frame _ _ _)). by case_match.
Qed.

Lemma test_begin t trig n :
  test_bit (taint (begin t trig)) n = writes_b (inst_dests trig) n.
Proof.
  unfold begin. rewrite test_setTainted_all. simpl. rewrite test_bit_0.
  by destruct (writes_b _ _).
Qed.

Lemma run_snoc t ins i : run t (ins ++ [i]) = (observe (run t ins) i).1.
Proof. unfold run. by rewrite foldl_app. Qed.

Lemma flow_tracked trig ins n r : flow trig ins n r → (r < NumTrackedRegs)%nat.
Proof. by induction 1. Qed.

(** [flow] at [n] only depends on the first [n] instructions. *)
Lemma flow_prefix trig ins ins' n r :
  (∀ k, (k < n)%nat → ins !! k = ins' !! k) → flow trig ins n r → flow trig ins' n r.
Proof.
  intros Heq H. induction H as [|n i r Hi H IH|n i s r Hi H IH]; [by constructor| |].
  - eapply flow_kept; [by rewrite <- Heq by lia| |done]. apply IH. intros; apply Heq; lia.
  - eapply flow_computed; [by rewrite <- Heq by lia| |done..]. apply IH. intros; apply Heq; lia.
Qed.

Lemma run_taint_flow t trig ins r :
  test_bit (taint (run (begin t trig) ins)) r = true ∧ (r < NumTrackedRegs)%nat ↔
  flow trig ins (length ins) r.
Proof.
  revert r. induction ins as [|i ins IH] using rev_ind; intros r.
  - simpl. rewrite test_begin, writes_b_spec. split.
    + intros [[? ?] _]. by constructor.
    + intros H. inversion H; subst. done.
  - rewrite length_app, run_snoc, test_observe. simpl. rewrite Nat.add_1_r.
    assert ((ins ++ [i]) !! length ins = Some i) as Hi by by rewrite list_lookup_middle.
    assert (∀ s, flow trig ins (length ins) s ↔ flow trig (ins ++ [i]) (length ins) s) as Hpre.
    { intros s. split; apply flow_prefix; intros k Hk; [|symmetry]; by rewrite lookup_app_l. }
    destruct (writes_b (inst_dests i) r) eqn:W.
    + apply writes_b_spec in W as [W Hr]. rewrite source_tainted_spec. split.
      * intros [(s & Hs & ? & ?) _]. eapply flow_computed; [done| |done..].
        apply Hpre, IH. done.
      * intros H. inversion H; subst; simplify_eq; [done|]. split; [|done].
        exists s. split; [done|]. apply and_comm, IH, Hpre. done.
    + assert ((r < NumTrackedRegs)%nat → ¬ writes i r) as NW.
      { intros Hr Hw. rewrite (proj2 (writes_b_spec i r)) in W by done. done. }
      rewrite IH, Hpre. split; intros H.
      * eapply flow_kept; [done..|]. apply NW. by eapply flow_tracked.
      * inversion H; subst; simplify_eq; [done|]. exfalso. by apply NW.
Qed.

Lemma source_flow t trig ins i :
  source_tainted (run (begin t trig) ins) i = true ↔
  ∃ s, reads i s ∧ flow trig ins (length ins) s.
Proof.
  rewrite source_tainted_spec. split; intros (x & Hx & H); exists x; (split; [done|]).
  - apply (run_taint_flow t). tauto.
  - apply (run_taint_flow t) in H. tauto.
Qed.

(** Undoing one speculative observation. *)
Lemma spec_run_history t ins s :
  Forall (λ x, s <= x.2) ins →
  ∃ h, speculativeHistory (spec_run t ins) = h ++ speculativeHistory t ∧
    ∀ h', squash_loop s (taint (spec_run t ins)) (finalLoadPC (spec_run t ins)) (h ++ h') =
          squash_loop s (taint t) (finalLoadPC t) h'.
Proof.
  revert t. induction ins as [|[i q] ins IH]; intros t Hs.
  - by exists [].
  - apply Forall_cons in Hs as [Hq Hs]. simpl in Hq |- *.
    destruct (IH (observeSpeculative t i q).1 Hs) as (h & Hh & Hsq).
    unfold observeSpeculative in Hh at 2. rewrite history_observe in Hh. simpl in Hh.
    exists (h ++ [mkSpec q (taint t) (finalLoadPC t)]). split.
    + rewrite Hh. by rewrite <- app_assoc.
    + intros h'. rewrite <- app_assoc, Hsq. simpl.
      by destruct (Z.leb_spec s q); [|lia].
Qed.

(** ** Properties *)

(** C32: the taint bits are exactly the dataflow closure of the trigger load.  After any
    instruction window, bit [r] is set if and only if the value in [r] derives from a
    destination of the trigger. *)
Theorem taint_is_dataflow (t : Tracker) (trig : DynInst) (ins : list DynInst) (r : nat) :
  (r < NumTrackedRegs)%nat →
  test_bit (taint (run (begin t trig) ins)) r = true ↔ flow trig ins (length ins) r.
Proof. intros Hr. rewrite <- (run_taint_flow t). tauto. Qed.

Lemma taint_is_dataflow_witness :
  let x n := mkRegId IntRegClass n in
  let trig := plain_inst 1 64 0 [x 10%nat] [x 11%nat] true in
  let add := plain_inst 2 68 0 [x 11%nat; x 5%nat] [x 12%nat] false in
  test_bit (taint (run (begin init trig) [add])) 12 = true ↔ flow trig [add] 1 12.
Proof. apply (taint_is_dataflow init _ [_] 12). unfold NumTrackedRegs. lia. Defined.

(** The FLR is the PC of the last dependent load of the window, and is cleared when
    there is none. *)
Theorem flr_is_last_dependent (t : Tracker) (trig : DynInst) (ins : list DynInst) :
  let flr := finalLoadPC (run (begin t trig) ins) in
  (∃ n i, dependent trig ins n i ∧ flr = instAddr i ∧
     ∀ m j, dependent trig ins m j → (m <= n)%nat) ∨
  (flr = 0 ∧ ∀ m j, ¬ dependent trig ins m j).
Proof.
  assert (∀ ins i n j, (n < length ins)%nat →
    dependent trig (ins ++ [i]) n j ↔ dependent trig ins n j) as Hpre.
  { intros l i n j Hn. unfold dependent. rewrite lookup_app_l by done.
    assert (∀ k, (k < n)%nat → (l ++ [i]) !! k = l !! k) as Heq
      by (intros; rewrite lookup_app_l; [done|lia]).
    split; intros (? & ? & s & ? & ?); (split; [done|]; split; [done|]); exists s; (split; [done|]);
      (eapply flow_prefix; [|done]); intros; by rewrite Heq. }
  induction ins as [|i ins IH] using rev_ind.
  - right. simpl. unfold begin. rewrite (proj1 (setTainted_all_frame _ _ _)).
    split; [done|]. intros m j (H & _). done.
  - simpl. rewrite run_snoc, flr_observe.
    destruct (isLoad (staticInst i) && source_tainted (run (begin t trig) ins) i) eqn:D.
    + left. exists (length ins), i. reflect. apply source_flow in H0.
      split_and!; [|done|].
      * split; [by rewrite list_lookup_middle|]. split; [done|].
        destruct H0 as (s & ? & ?). exists s. split; [done|]. eapply flow_prefix; [|done].
        intros. by rewrite lookup_app_l.
      * intros m j (Hm & _). apply lookup_lt_Some in Hm. rewrite length_app in Hm. simpl in Hm.
        lia.
    + assert (∀ m j, dependent trig (ins ++ [i]) m j → dependent trig ins m j) as Hold.
      { intros m j Hd. pose proof Hd as (Hm & Hl & s & Hr & Hf).
        apply lookup_lt_Some in Hm as Hlt. rewrite length_app in Hlt. simpl in Hlt.
        destruct (decide (m = length ins)) as [->|]; [|exact (proj1 (Hpre ins i m j ltac:(lia)) Hd)].
        rewrite list_lookup_middle in Hm by done. simplify_eq. exfalso.
        rewrite Hl in D. simpl in D. apply not_true_iff_false in D. apply D, source_flow.
        exists s. split; [done|]. eapply flow_prefix; [|done].
        intros. by rewrite lookup_app_l. }
      destruct IH as [(n & k & Hd & -> & Hmax)|[-> Hno]].
      * left. exists n, k. (split; [|split; [done|by intros m j Hm; eapply Hmax, Hold]]).
        apply Hpre; [|done]. destruct Hd as [Hn _]. by apply lookup_lt_Some in Hn.
      * right. split; [done|]. intros m j Hm. by eapply Hno, Hold.
Qed.

(** [squash] restores taint, FLR and history to their values before the first squashed
    dispatch, and [classify] agrees with [observe] without changing anything. *)
Theorem taint_squash_undo (t : Tracker) (ins : list (DynInst * Z)) (s : Z) :
  Forall (λ x, s_sequence x < s) (speculativeHistory t) →
  Forall (λ x, s <= x.2) ins →
  squash (spec_run t ins) s = t ∧ ∀ i, classify t i = (observe t i).2.
Proof.
  intros Hold His. destruct (spec_run_history t ins s His) as (h & Hh & Hsq).
  split; [|done]. unfold squash. rewrite Hh, Hsq. destruct t as [tn fl hs]. simpl in *.
  destruct hs as [|x hs]; simpl; [done|]. apply Forall_cons in Hold as [? _].
  by destruct (Z.leb_spec s (s_sequence x)); [lia|].
Qed.

Lemma taint_squash_undo_witness :
  let x n := mkRegId IntRegClass n in
  let ld := plain_inst 7 72 0 [x 11%nat] [x 12%nat] true in
  let t := begin init (plain_inst 1 64 0 [x 10%nat] [x 11%nat] true) in
  finalLoadPC (spec_run t [(ld, 7)]) = 72 ∧ squash (spec_run t [(ld, 7)]) 7 = t.
Proof.
  intros x ld t. split; [by vm_compute|].
  apply (taint_squash_undo t [(ld, 7)] 7); [by vm_compute|]. repeat constructor; simpl; lia.
Defined.

End Taint.
