(* ===== verification/Uop.v ===== *)
(** * Recorded micro-operations: decoding and evaluation

    Model of [DVRInstructionRecorder::Uop] (src/cpu/o3/pre.hh, pre.cc): the replayable
    semantics, the RISC-V decoder that recovers operation and immediate from the machine
    encoding, and the scalar evaluators on 64-bit register values. *)

From S2P Require Import Prelude Inst.

Module Uop.

(** [enum class Semantic], in declaration order. *)
Inductive Semantic :=
| Unsupported | Move | Add | Sub | And | Or | Xor
| ShiftLeft | ShiftRightLogical | ShiftRightArithmetic
| Multiply | MultiplyWord
| Remainder | RemainderUnsigned | RemainderWord | RemainderUnsignedWord
| AddWord | SubWord | AddImmediate | AddWordImmediate
| ShiftLeftImmediate | ShiftLeftWordImmediate
| AndImmediate | OrImmediate | XorImmediate
| ShiftRightLogicalImmediate | ShiftRightArithmeticImmediate
| ShiftRightLogicalWordImmediate | ShiftRightArithmeticWordImmediate
| LoadAddress | LoadByteSigned | LoadByteUnsigned | LoadHalfSigned | LoadHalfUnsigned
| LoadWordSigned | LoadWordUnsigned | LoadDouble
| BranchEqual | BranchNotEqual | BranchSignedLess | BranchSignedGreaterEqual
| BranchUnsignedLess | BranchUnsignedGreaterEqual.

#[export] Instance Semantic_eq_dec : EqDecision Semantic.
Proof. solve_decision. Defined.

(** [struct Uop].  [staticInst] is metadata the replay never reads and is left out; register
    numbers keep the C++ convention of -1 for "none". *)
Record Uop := mkUop {
  pc : Z;
  branchTargetPC : Z;
  fallthroughPC : Z;
  reconvergencePC : Z;
  intSources : Z;
  intDestinations : Z;
  encoding : Z;
  immediate : Z;
  source0 : Z;
  source1 : Z;
  destination : Z;
  semantic : Semantic;
  loadBytes : Z;
  encodingValid : bool;
  load : bool;
  control : bool;
  conditional : bool;
  branchTaken : bool;
  tainted : bool;
  alternatePath : bool;
  alternateResumePC : Z
}.

#[export] Instance eta_Uop : Eta Uop := λ r,
  mkUop (pc r) (branchTargetPC r) (fallthroughPC r) (reconvergencePC r) (intSources r)
    (intDestinations r) (encoding r) (immediate r) (source0 r) (source1 r) (destination r)
    (semantic r) (loadBytes r) (encodingValid r) (load r) (control r) (conditional r)
    (branchTaken r) (tainted r) (alternatePath r) (alternateResumePC r).

(** [Uop{}] *)
Definition Uop_init : Uop :=
  mkUop 0 0 0 0 0 0 0 0 (-1) (-1) (-1) Unsupported 0
    false false false false false false false 0.

#[export] Instance Uop_inhabited : Inhabited Uop := populate Uop_init.

(** ** Operand summaries *)

(** An operand of the tracked integer file. *)
Definition dvr_int_operand (r : RegId) : bool := is_int_class r && (index r <? 32)%nat.

(** [dvrIntRegisterMask] *)
Definition dvrIntRegisterMask (regs : list RegId) : Z :=
  foldl (λ mask r, if dvr_int_operand r then set_bit mask (index r) else mask) 0 regs.

(** [dvrFirstIntRegister]: the [ordinal]-th integer operand, in operand order. *)
Fixpoint dvrFirstIntRegister (regs : list RegId) (ordinal : nat) : Z :=
  match regs with
  | [] => -1
  | r :: regs' =>
      if negb (dvr_int_operand r) then dvrFirstIntRegister regs' ordinal
      else match ordinal with
           | O => Z.of_nat (index r)
           | S o => dvrFirstIntRegister regs' o
           end
  end.

(** [dvrSignExtend] *)
Definition dvrSignExtend (value width : Z) : Z :=
  let sign := Z.shiftl 1 (width - 1) in
  s64 (u64 (Z.lxor value sign - sign)).

(** ** Decoding *)

(** [(w >> sh) & mask] *)
Definition field (w sh mask : Z) : Z := Z.land (Z.shiftr w sh) mask.

(** [(((c >> 12) & 1) << 5) | ((c >> 2) & 0x1f)], the 6-bit immediate of the CI format. *)
Definition ci_imm (c : Z) : Z := Z.lor (Z.shiftl (field c 12 1) 5) (field c 2 31).

(** Compressed immediates and stack-pointer arithmetic (C.LI to C.LUI). *)
Definition decode_c_immediate (c : Z) (u : Uop) : option Uop :=
  let quadrant := Z.land c 3 in
  let funct3 := field c 13 7 in
  if (quadrant =? 1) && (funct3 =? 2) && negb (field c 7 31 =? 0) then
    Some (u <| semantic := AddImmediate |> <| source0 := 0 |>
            <| immediate := dvrSignExtend (ci_imm c) 6 |>)
  else if (quadrant =? 1) && (funct3 =? 0) && negb (field c 7 31 =? 0) then
    Some (u <| semantic := AddImmediate |> <| immediate := dvrSignExtend (ci_imm c) 6 |>)
  else if (quadrant =? 1) && (funct3 =? 1) && negb (field c 7 31 =? 0) then
    Some (u <| semantic := AddWordImmediate |> <| immediate := dvrSignExtend (ci_imm c) 6 |>)
  else if (quadrant =? 0) && (funct3 =? 0) && negb (field c 2 31 =? 0) then
    Some (u <| semantic := AddImmediate |> <| source0 := 2 |>
            <| immediate :=
                 Z.lor (Z.lor (Z.lor (Z.shiftl (field c 11 3) 4) (Z.shiftl (field c 7 15) 6))
                          (Z.shiftl (field c 6 1) 2)) (Z.shiftl (field c 5 1) 3) |>)
  else if (quadrant =? 1) && (funct3 =? 3) && (field c 7 31 =? 2) then
    let imm :=
      Z.lor (Z.lor (Z.lor (Z.lor (Z.shiftl (field c 12 1) 9) (Z.shiftl (field c 6 1) 4))
        (Z.shiftl (field c 5 1) 6)) (Z.shiftl (field c 3 3) 7)) (Z.shiftl (field c 2 1) 5) in
    Some (u <| semantic := AddImmediate |> <| source0 := 2 |>
            <| immediate := dvrSignExtend imm 10 |>)
  else if (quadrant =? 1) && (funct3 =? 3) && negb (field c 7 31 =? 0)
          && negb (field c 7 31 =? 2) then
    Some (u <| semantic := AddImmediate |> <| source0 := 0 |>
            <| immediate := Z.shiftl (dvrSignExtend (ci_imm c) 6) 12 |>)
  else None.

(** Compressed loads (C.LD, C.LW, C.LWSP, C.LDSP). *)
Definition decode_c_load (c : Z) (u : Uop) : option Uop :=
  let quadrant := Z.land c 3 in
  let funct3 := field c 13 7 in
  if (quadrant =? 0) && (funct3 =? 3) then
    Some (u <| semantic := LoadDouble |> <| loadBytes := 8 |>
            <| immediate := Z.lor (Z.shiftl (field c 10 7) 3) (Z.shiftl (field c 5 3) 6) |>)
  else if (quadrant =? 0) && (funct3 =? 2) then
    Some (u <| semantic := LoadWordSigned |> <| loadBytes := 4 |>
            <| immediate := Z.lor (Z.shiftl (field c 10 7) 3) (Z.shiftl (field c 6 1) 2) |>)
  else if (quadrant =? 2) && ((funct3 =? 2) || (funct3 =? 3)) && negb (field c 7 31 =? 0) then
    Some (u <| semantic := if funct3 =? 2 then LoadWordSigned else LoadDouble |>
            <| loadBytes := if funct3 =? 2 then 4 else 8 |>
            <| source0 := 2 |>
            <| immediate :=
                 Z.lor (Z.lor (Z.shiftl (field c 12 1) 5) (Z.shiftl (field c 4 7) 2))
                   (Z.shiftl (field c 2 3) 6) |>)
  else None.

(** Quadrant 1, funct3 100: compressed shifts, C.ANDI and register operations. *)
Definition decode_c_alu (c : Z) (u : Uop) : option Uop :=
  let quadrant := Z.land c 3 in
  let funct3 := field c 13 7 in
  if (quadrant =? 1) && (funct3 =? 4) then
    let wide_register_op := negb (field c 12 1 =? 0) in
    let op_select := field c 10 3 in
    if op_select =? 0 then
      Some (u <| semantic := ShiftRightLogicalImmediate |> <| immediate := ci_imm c |>)
    else if op_select =? 1 then
      Some (u <| semantic := ShiftRightArithmeticImmediate |> <| immediate := ci_imm c |>)
    else if op_select =? 2 then
      Some (u <| semantic := AndImmediate |> <| immediate := dvrSignExtend (ci_imm c) 6 |>)
    else if negb wide_register_op && (op_select =? 3) then
      match field c 5 3 with
      | 0 => Some (u <| semantic := Sub |>)
      | 1 => Some (u <| semantic := Xor |>)
      | 2 => Some (u <| semantic := Or |>)
      | 3 => Some (u <| semantic := And |>)
      | _ => None
      end
    else if wide_register_op && (op_select =? 3) then
      match field c 5 3 with
      | 0 => Some (u <| semantic := SubWord |>)
      | 1 => Some (u <| semantic := AddWord |>)
      | _ => None
      end
    else None
  else None.

(** C.SLLI, C.JR, C.MV, C.ADD, C.BEQZ/C.BNEZ and C.J; everything else returns the uop as it
    is. *)
Definition decode_c_rest (c : Z) (u : Uop) : Uop :=
  let quadrant := Z.land c 3 in
  let funct3 := field c 13 7 in
  if (quadrant =? 2) && (funct3 =? 0) && negb (field c 7 31 =? 0) then
    u <| semantic := ShiftLeftImmediate |> <| immediate := ci_imm c |>
  else if (quadrant =? 2) && (funct3 =? 4) && (field c 12 1 =? 0)
          && negb (field c 7 31 =? 0) && (field c 2 31 =? 0) then u
  else if (quadrant =? 2) && (funct3 =? 4) && (field c 12 1 =? 0)
          && negb (field c 7 31 =? 0) && negb (field c 2 31 =? 0) then
    u <| semantic := Move |>
  else if (quadrant =? 2) && (funct3 =? 4) && negb (field c 12 1 =? 0)
          && negb (field c 7 31 =? 0) && negb (field c 2 31 =? 0) then
    u <| semantic := Add |>
  else if (quadrant =? 1) && ((funct3 =? 6) || (funct3 =? 7)) then
    u <| semantic := if funct3 =? 6 then BranchEqual else BranchNotEqual |>
  else if (quadrant =? 1) && (funct3 =? 5) then
    u <| semantic := AddImmediate |> <| source0 := 0 |> <| immediate := 0 |>
  else u.

(** The 16-bit branch of [dvrDecodeRiscvSemantic]. *)
Definition decode_compressed (u : Uop) : Uop :=
  let c := Z.land (encoding u) 65535 in
  match decode_c_immediate c u with
  | Some u' => u'
  | None =>
      match decode_c_load c u with
      | Some u' => u'
      | None =>
          match decode_c_alu c u with
          | Some u' => u'
          | None => decode_c_rest c u
          end
      end
  end.

(** Opcodes 0x37, 0x17, 0x6f: LUI, AUIPC, JAL. *)
Definition decode_upper (u : Uop) : option Uop :=
  let opcode := Z.land (encoding u) 127 in
  let upper := Z.land (encoding u) 4294963200 in
  if opcode =? 55 then
    Some (u <| semantic := AddImmediate |> <| source0 := 0 |>
            <| immediate := dvrSignExtend upper 32 |>)
  else if opcode =? 23 then
    Some (u <| semantic := AddImmediate |> <| source0 := 0 |>
            <| immediate := s64 (s64 (pc u) + dvrSignExtend upper 32) |>)
  else if opcode =? 111 then
    Some (u <| semantic := AddImmediate |> <| source0 := 0 |>
            <| immediate := s64 (u64 (pc u + 4)) |>)
  else None.

(** Opcodes 0x33 and 0x3b: register-register operations. *)
Definition decode_register (u : Uop) : option Uop :=
  let opcode := Z.land (encoding u) 127 in
  let funct3 := field (encoding u) 12 7 in
  let funct7 := field (encoding u) 25 127 in
  if opcode =? 51 then
    Some (
      if (funct3 =? 0) && (funct7 =? 0) then u <| semantic := Add |>
      else if (funct3 =? 0) && (funct7 =? 32) then u <| semantic := Sub |>
      else if (funct3 =? 7) && (funct7 =? 0) then u <| semantic := And |>
      else if (funct3 =? 6) && (funct7 =? 0) then u <| semantic := Or |>
      else if (funct3 =? 4) && (funct7 =? 0) then u <| semantic := Xor |>
      else if (funct3 =? 1) && (funct7 =? 0) then u <| semantic := ShiftLeft |>
      else if (funct3 =? 5) && (funct7 =? 0) then u <| semantic := ShiftRightLogical |>
      else if (funct3 =? 5) && (funct7 =? 32) then u <| semantic := ShiftRightArithmetic |>
      else if (funct3 =? 0) && (funct7 =? 1) then u <| semantic := Multiply |>
      else if (funct3 =? 6) && (funct7 =? 1) then u <| semantic := Remainder |>
      else if (funct3 =? 7) && (funct7 =? 1) then u <| semantic := RemainderUnsigned |>
      else u)
  else if opcode =? 59 then
    Some (
      if (funct3 =? 0) && (funct7 =? 0) then u <| semantic := AddWord |>
      else if (funct3 =? 0) && (funct7 =? 32) then u <| semantic := SubWord |>
      else if (funct3 =? 0) && (funct7 =? 1) then u <| semantic := MultiplyWord |>
      else if (funct3 =? 6) && (funct7 =? 1) then u <| semantic := RemainderWord |>
      else if (funct3 =? 7) && (funct7 =? 1) then u <| semantic := RemainderUnsignedWord |>
      else u)
  else None.

(** Opcodes 0x13 and 0x1b: register-immediate operations. *)
Definition decode_op_imm (u : Uop) : option Uop :=
  let opcode := Z.land (encoding u) 127 in
  let funct3 := field (encoding u) 12 7 in
  let e := encoding u in
  let imm12 := dvrSignExtend (Z.shiftr e 20) 12 in
  if opcode =? 19 then
    Some (
      if funct3 =? 0 then u <| semantic := AddImmediate |> <| immediate := imm12 |>
      else if (funct3 =? 1) && (Z.shiftr e 26 =? 0) then
        u <| semantic := ShiftLeftImmediate |> <| immediate := field e 20 63 |>
      else if funct3 =? 7 then u <| semantic := AndImmediate |> <| immediate := imm12 |>
      else if funct3 =? 6 then u <| semantic := OrImmediate |> <| immediate := imm12 |>
      else if funct3 =? 4 then u <| semantic := XorImmediate |> <| immediate := imm12 |>
      else if (funct3 =? 5) && (Z.shiftr e 26 =? 0) then
        u <| semantic := ShiftRightLogicalImmediate |> <| immediate := field e 20 63 |>
      else if (funct3 =? 5) && (Z.shiftr e 26 =? 16) then
        u <| semantic := ShiftRightArithmeticImmediate |> <| immediate := field e 20 63 |>
      else u)
  else if opcode =? 27 then
    Some (
      if funct3 =? 0 then u <| semantic := AddWordImmediate |> <| immediate := imm12 |>
      else if (funct3 =? 1) && (Z.shiftr e 25 =? 0) then
        u <| semantic := ShiftLeftWordImmediate |> <| immediate := field e 20 31 |>
      else if (funct3 =? 5) && (Z.shiftr e 25 =? 0) then
        u <| semantic := ShiftRightLogicalWordImmediate |> <| immediate := field e 20 31 |>
      else if (funct3 =? 5) && (Z.shiftr e 25 =? 32) then
        u <| semantic := ShiftRightArithmeticWordImmediate |> <| immediate := field e 20 31 |>
      else u)
  else None.

(** Opcode 0x03, loads, and opcode 0x63, conditional branches. *)
Definition decode_load_branch (u : Uop) : Uop :=
  let opcode := Z.land (encoding u) 127 in
  let funct3 := field (encoding u) 12 7 in
  let imm12 := dvrSignExtend (Z.shiftr (encoding u) 20) 12 in
  let ld s n := u <| semantic := s |> <| loadBytes := n |> <| immediate := imm12 |> in
  if opcode =? 3 then
    match funct3 with
    | 0 => ld LoadByteSigned 1
    | 1 => ld LoadHalfSigned 2
    | 2 => ld LoadWordSigned 4
    | 3 => ld LoadDouble 8
    | 4 => ld LoadByteUnsigned 1
    | 5 => ld LoadHalfUnsigned 2
    | _ => u <| semantic := Unsupported |>
    end
  else if opcode =? 99 then
    match funct3 with
    | 0 => u <| semantic := BranchEqual |>
    | 1 => u <| semantic := BranchNotEqual |>
    | 4 => u <| semantic := BranchSignedLess |>
    | 5 => u <| semantic := BranchSignedGreaterEqual |>
    | 6 => u <| semantic := BranchUnsignedLess |>
    | 7 => u <| semantic := BranchUnsignedGreaterEqual |>
    | _ => u
    end
  else u.

(** The 32-bit branch of [dvrDecodeRiscvSemantic]. *)
Definition decode_wide (u : Uop) : Uop :=
  match decode_upper u with
  | Some u' => u'
  | None =>
      match decode_register u with
      | Some u' => u'
      | None => match decode_op_imm u with Some u' => u' | None => decode_load_branch u end
      end
  end.

(** [dvrDecodeRiscvSemantic] *)
Definition dvrDecodeRiscvSemantic (u : Uop) (i : DynInst) : Uop :=
  let '(encoded_size, encoded) := asBytes (staticInst i) in
  if (encoded_size =? 0) || (8 <? encoded_size) then u
  else
    let u := u <| encoding := u32 encoded |> <| encodingValid := true |> in
    if negb (Z.land (encoding u) 3 =? 3) then decode_compressed u else decode_wide u.

(** ** Evaluation *)

(** The shift amounts [source1_value & 0x3f] and [static_cast<unsigned>(immediate) & m]. *)
Definition shamt (v : Z) : Z := Z.land v 63.
Definition imm_shamt (u : Uop) (m : Z) : Z := Z.land (u32 (immediate u)) m.

(** [static_cast<RegVal>(static_cast<int64_t>(static_cast<int32_t>(w)))] *)
Definition sext_word (w : Z) : Z := u64 (s32 w).

(** [RemainderWord] and [RemainderUnsignedWord]. *)
Definition rem_word (a b : Z) : Z :=
  let lhs := s32 a in
  let rhs := s32 b in
  u64 (if rhs =? 0 then lhs
       else if (lhs =? - 2 ^ 31) && (rhs =? -1) then 0 else Z.rem lhs rhs).

Definition rem_unsigned_word (a b : Z) : Z :=
  let lhs := u32 a in
  let rhs := u32 b in
  sext_word (if rhs =? 0 then lhs else lhs mod rhs).

(** [Uop::evaluate]: [None] is the [false] return. *)
Definition evaluate (u : Uop) (a b : Z) : option Z :=
  match semantic u with
  | Move => Some a
  | Add => Some (u64 (a + b))
  | Sub => Some (u64 (a - b))
  | And => Some (Z.land a b)
  | Or => Some (Z.lor a b)
  | Xor => Some (Z.lxor a b)
  | ShiftLeft => Some (u64 (Z.shiftl a (shamt b)))
  | ShiftRightLogical => Some (Z.shiftr a (shamt b))
  | ShiftRightArithmetic => Some (u64 (Z.shiftr (s64 a) (shamt b)))
  | Multiply => Some (u64 (a * b))
  | MultiplyWord => Some (sext_word (u32 (u32 a * u32 b)))
  | Remainder =>
      Some (if b =? 0 then a
            else if (s64 a =? - 2 ^ 63) && (s64 b =? -1) then 0
            else u64 (Z.rem (s64 a) (s64 b)))
  | RemainderUnsigned => Some (if b =? 0 then a else a mod b)
  | RemainderWord => Some (rem_word a b)
  | RemainderUnsignedWord => Some (rem_unsigned_word a b)
  | AddWord => Some (sext_word (u32 (u32 a + u32 b)))
  | SubWord => Some (sext_word (u32 (u32 a - u32 b)))
  | AddImmediate | LoadAddress | LoadByteSigned | LoadByteUnsigned | LoadHalfSigned
  | LoadHalfUnsigned | LoadWordSigned | LoadWordUnsigned | LoadDouble =>
      Some (u64 (a + u64 (immediate u)))
  | AddWordImmediate => Some (sext_word (u32 (u32 a + u32 (immediate u))))
  | ShiftLeftImmediate => Some (u64 (Z.shiftl a (imm_shamt u 63)))
  | ShiftLeftWordImmediate => Some (sext_word (u32 (Z.shiftl (u32 a) (imm_shamt u 31))))
  | AndImmediate => Some (Z.land a (u64 (immediate u)))
  | OrImmediate => Some (Z.lor a (u64 (immediate u)))
  | XorImmediate => Some (Z.lxor a (u64 (immediate u)))
  | ShiftRightLogicalImmediate => Some (Z.shiftr a (imm_shamt u 63))
  | ShiftRightArithmeticImmediate => Some (u64 (Z.shiftr (s64 a) (imm_shamt u 63)))
  | ShiftRightLogicalWordImmediate => Some (sext_word (Z.shiftr (u32 a) (imm_shamt u 31)))
  | ShiftRightArithmeticWordImmediate => Some (u64 (Z.shiftr (s32 a) (imm_shamt u 31)))
  | BranchEqual | BranchNotEqual | BranchSignedLess | BranchSignedGreaterEqual
  | BranchUnsignedLess | BranchUnsignedGreaterEqual | Unsupported => None
  end.

(** [Uop::evaluateBranch] *)
Definition evaluateBranch (u : Uop) (a b : Z) : option bool :=
  match semantic u with
  | BranchEqual => Some (a =? b)
  | BranchNotEqual => Some (negb (a =? b))
  | BranchSignedLess => Some (s64 a <? s64 b)
  | BranchSignedGreaterEqual => Some (s64 b <=? s64 a)
  | BranchUnsignedLess => Some (a <? b)
  | BranchUnsignedGreaterEqual => Some (b <=? a)
  | _ => None
  end.

(** ** Reference encodings

    The 32-bit and 16-bit formats of the RISC-V ISA manual, as sums of their fields. *)

(** I-type: [imm[11:0] | rs1 | funct3 | rd | opcode]. *)
Definition enc_i (opcode f3 rd rs1 imm : Z) : Z :=
  opcode + 2 ^ 7 * rd + 2 ^ 12 * f3 + 2 ^ 15 * rs1 + 2 ^ 20 * (imm mod 2 ^ 12).

(** R-type: [funct7 | rs2 | rs1 | funct3 | rd | opcode]. *)
Definition enc_r (opcode f3 f7 rd rs1 rs2 : Z) : Z :=
  opcode + 2 ^ 7 * rd + 2 ^ 12 * f3 + 2 ^ 15 * rs1 + 2 ^ 20 * rs2 + 2 ^ 25 * f7.

(** U-type: [imm[31:12] | rd | opcode], for a 20-bit signed [imm20]. *)
Definition enc_u (opcode rd imm20 : Z) : Z :=
  opcode + 2 ^ 7 * rd + 2 ^ 12 * (imm20 mod 2 ^ 20).

(** C.LD and C.LW: [funct3 | imm | rs1' | imm | rd' | 00]. *)
Definition enc_cld (uimm rs rd : Z) : Z :=
  2 ^ 13 * 3 + 2 ^ 10 * ((uimm / 8) mod 8) + 2 ^ 7 * rs + 2 ^ 5 * ((uimm / 64) mod 4)
  + 2 ^ 2 * rd.
Definition enc_clw (uimm rs rd : Z) : Z :=
  2 ^ 13 * 2 + 2 ^ 10 * ((uimm / 8) mod 8) + 2 ^ 7 * rs + 2 ^ 6 * ((uimm / 4) mod 2)
  + 2 ^ 5 * ((uimm / 64) mod 2) + 2 ^ 2 * rd.

(** C.LWSP and C.LDSP: [funct3 | uimm[5] | rd | uimm | 10]. *)
Definition enc_clwsp (uimm rd : Z) : Z :=
  2 ^ 13 * 2 + 2 ^ 12 * ((uimm / 32) mod 2) + 2 ^ 7 * rd + 2 ^ 4 * ((uimm / 4) mod 8)
  + 2 ^ 2 * ((uimm / 64) mod 4) + 2.
Definition enc_cldsp (uimm rd : Z) : Z :=
  2 ^ 13 * 3 + 2 ^ 12 * ((uimm / 32) mod 2) + 2 ^ 7 * rd + 2 ^ 5 * ((uimm / 8) mod 4)
  + 2 ^ 2 * ((uimm / 64) mod 8) + 2.

(** C.ADDI4SPN: [000 | uimm[5:4|9:6|2|3] | rd' | 00]. *)
Definition enc_caddi4spn (uimm rd : Z) : Z :=
  2 ^ 11 * ((uimm / 16) mod 4) + 2 ^ 7 * ((uimm / 64) mod 16) + 2 ^ 6 * ((uimm / 4) mod 2)
  + 2 ^ 5 * ((uimm / 8) mod 2) + 2 ^ 2 * rd.

(** The I-type operations of the replay: opcode, funct3, semantics and load width. *)
Definition itype_table : list (Z * Z * Semantic * option Z) :=
  [(19, 0, AddImmediate, None); (19, 4, XorImmediate, None); (19, 6, OrImmediate, None);
   (19, 7, AndImmediate, None); (27, 0, AddWordImmediate, None);
   (3, 0, LoadByteSigned, Some 1); (3, 1, LoadHalfSigned, Some 2);
   (3, 2, LoadWordSigned, Some 4); (3, 3, LoadDouble, Some 8);
   (3, 4, LoadByteUnsigned, Some 1); (3, 5, LoadHalfUnsigned, Some 2)].

(** The R-type operations: opcode, funct3, funct7, semantics. *)
Definition rtype_table : list (Z * Z * Z * Semantic) :=
  [(51, 0, 0, Add); (51, 0, 32, Sub); (51, 7, 0, And); (51, 6, 0, Or); (51, 4, 0, Xor);
   (51, 1, 0, ShiftLeft); (51, 5, 0, ShiftRightLogical); (51, 5, 32, ShiftRightArithmetic);
   (51, 0, 1, Multiply); (51, 6, 1, Remainder); (51, 7, 1, RemainderUnsigned);
   (59, 0, 0, AddWord); (59, 0, 32, SubWord); (59, 0, 1, MultiplyWord);
   (59, 6, 1, RemainderWord); (59, 7, 1, RemainderUnsignedWord)].

(** An instruction at [a] with machine encoding [e] in the 8-byte [ExtMachInst] buffer. *)
Definition encoded_inst (a e : Z) (srcs dests : list RegId) : DynInst :=
  plain_inst 0 a e srcs dests false.

(** ** Lemmas *)

Lemma land_low a n : 0 <= n → Z.land a (2 ^ n - 1) = a mod 2 ^ n.
Proof. intros. rewrite <- Z.land_ones by done. by rewrite Z.ones_equiv. Qed.

Lemma field_div w sh k :
  0 <= sh → 0 <= k → field w sh (2 ^ k - 1) = (w / 2 ^ sh) mod 2 ^ k.
Proof. intros. unfold field. by rewrite land_low, Z.shiftr_div_pow2. Qed.

Lemma field_7 w sh : 0 <= sh → field w sh 7 = (w / 2 ^ sh) mod 8.
Proof. intros. by apply (field_div w sh 3). Qed.

Lemma field_127 w sh : 0 <= sh → field w sh 127 = (w / 2 ^ sh) mod 128.
Proof. intros. by apply (field_div w sh 7). Qed.

Lemma opcode_mod w : Z.land w 127 = w mod 128.
Proof. by apply (land_low w 7). Qed.

Lemma low2_mod w : Z.land w 3 = w mod 4.
Proof. by apply (land_low w 2). Qed.

(** [dvrSignExtend] reads a [w]-bit field as two's complement. *)
Lemma dvrSignExtend_spec v w :
  1 <= w < 64 → 0 <= v < 2 ^ w →
  dvrSignExtend v w = if v <? 2 ^ (w - 1) then v else v - 2 ^ w.
Proof.
  intros Hw Hv. unfold dvrSignExtend. rewrite Z.shiftl_mul_pow2, Z.mul_1_l by lia.
  rewrite s64_u64. assert (2 ^ w = 2 * 2 ^ (w - 1)) as E
    by (rewrite <- Z.pow_succ_r by lia; f_equal; lia).
  assert (2 ^ (w - 1) <= 2 ^ 62) by (apply Z.pow_le_mono_r; lia).
  assert (∀ x, 0 <= x < 2 ^ (w - 1) → Z.land x (2 ^ (w - 1)) = 0) as Hland.
  { intros x Hx. apply Z.bits_inj'. intros n Hn. rewrite Z.land_spec, Z.bits_0.
    destruct (decide (n = w - 1)) as [->|]; [|by rewrite Z.pow2_bits_false, andb_false_r].
    rewrite <- (Z.mod_small x (2 ^ (w - 1))) by done.
    by rewrite Z.mod_pow2_bits_high by lia. }
  destruct (Z.ltb_spec v (2 ^ (w - 1))).
  - rewrite <- Z.add_nocarry_lxor by (apply Hland; lia).
    rewrite Z.add_simpl_r. apply s64_small. lia.
  - replace (Z.lxor v (2 ^ (w - 1))) with (v - 2 ^ (w - 1)).
    + rewrite s64_small; lia.
    + set (x := v - 2 ^ (w - 1)). replace v with (x + 2 ^ (w - 1)) by (unfold x; lia).
      rewrite Z.add_nocarry_lxor by (apply Hland; unfold x; lia).
      by rewrite Z.lxor_assoc, Z.lxor_nilpotent, Z.lxor_0_r.
Qed.

Lemma sext12_mod imm : - 2 ^ 11 <= imm < 2 ^ 11 → dvrSignExtend (imm mod 2 ^ 12) 12 = imm.
Proof.
  intros H. rewrite dvrSignExtend_spec; [|lia|apply Z.mod_pos_bound; lia].
  norm_pow.
  destruct (Z.ltb_spec (imm mod 4096) 2048); divmod_lia.
Qed.

(** The fields of an I-type word. *)
Lemma enc_i_fields opcode f3 rd rs1 imm :
  0 <= opcode < 128 → 0 <= f3 < 8 → 0 <= rd < 32 → 0 <= rs1 < 32 →
  let e := enc_i opcode f3 rd rs1 imm in
  u32 e = e ∧ Z.land e 127 = opcode ∧ Z.land e 3 = opcode mod 4 ∧ field e 12 7 = f3 ∧
  Z.shiftr e 20 = imm mod 2 ^ 12.
Proof.
  intros Ho Hf Hrd Hrs e. rewrite opcode_mod, low2_mod, field_7 by lia.
  rewrite Z.shiftr_div_pow2 by lia. unfold e, enc_i, u32. norm_pow.
  pose proof (Z.mod_pos_bound imm 4096 ltac:(lia)).
  set (m := imm mod 4096) in *. clearbody m.
  split_and!; divmod_lia.
Qed.

Lemma enc_r_fields opcode f3 f7 rd rs1 rs2 :
  0 <= opcode < 128 → 0 <= f3 < 8 → 0 <= f7 < 128 →
  0 <= rd < 32 → 0 <= rs1 < 32 → 0 <= rs2 < 32 →
  let e := enc_r opcode f3 f7 rd rs1 rs2 in
  u32 e = e ∧ Z.land e 127 = opcode ∧ Z.land e 3 = opcode mod 4 ∧ field e 12 7 = f3 ∧
  field e 25 127 = f7.
Proof.
  intros Ho Hf Hf7 Hrd Hrs1 Hrs2 e. rewrite opcode_mod, low2_mod, field_7, field_127 by lia.
  unfold e, enc_r, u32. norm_pow. split_and!; divmod_lia.
Qed.

Lemma u32_of_u64 z : u32 (u64 z) = u32 z.
Proof. unfold u32, u64. norm_pow. divmod_lia. Qed.

Lemma itype_table_range opcode f3 sem lb :
  (opcode, f3, sem, lb) ∈ itype_table → 0 <= opcode < 128 ∧ 0 <= f3 < 8 ∧ opcode mod 4 = 3.
Proof.
  intros H. assert (Forall (λ x : Z * Z * Semantic * option Z,
    0 <= x.1.1.1 < 128 ∧ 0 <= x.1.1.2 < 8 ∧ x.1.1.1 mod 4 = 3) itype_table) as HF
    by (repeat constructor; simpl; first [lia|done]).
  rewrite Forall_forall in HF. by apply HF in H.
Qed.

Lemma rtype_table_range opcode f3 f7 sem :
  (opcode, f3, f7, sem) ∈ rtype_table → 0 <= opcode < 128 ∧ 0 <= f3 < 8 ∧ 0 <= f7 < 128 ∧ opcode mod 4 = 3.
Proof.
  intros H. assert (Forall (λ x : Z * Z * Z * Semantic,
    0 <= x.1.1.1 < 128 ∧ 0 <= x.1.1.2 < 8 ∧ 0 <= x.1.2 < 128 ∧
    x.1.1.1 mod 4 = 3) rtype_table) as HF
    by (repeat constructor; simpl; first [lia|done]).
  rewrite Forall_forall in HF. by apply HF in H.
Qed.

(** The 32-bit decoder on the fields of an I-type or R-type word. *)
Ltac decode_case :=
  let E1 := fresh in let E3 := fresh in let u := fresh "u" in
  cbn; intros E1 E3; unfold decode_wide, decode_upper, decode_register, decode_op_imm,
    decode_load_branch; rewrite E1, E3; reflexivity.

Lemma decode_wide_itype u :
  Forall (λ '(opcode, f3, sem, lb),
    Z.land (encoding u) 127 = opcode → field (encoding u) 12 7 = f3 →
    decode_wide u = u <| semantic := sem |>
      <| immediate := dvrSignExtend (Z.shiftr (encoding u) 20) 12 |>
      <| loadBytes := default (loadBytes u) lb |>) itype_table.
Proof. repeat constructor; decode_case. Qed.

Lemma decode_wide_rtype u :
  Forall (λ '(opcode, f3, f7, sem),
    Z.land (encoding u) 127 = opcode → field (encoding u) 12 7 = f3 →
    field (encoding u) 25 127 = f7 → decode_wide u = u <| semantic := sem |>) rtype_table.
Proof.
  repeat constructor; cbn; intros E1 E2 E3; unfold decode_wide, decode_upper, decode_register;
    rewrite E1, E2, E3; reflexivity.
Qed.

(** A 32-bit encoding reaches the wide decoder. *)
Lemma decode_encoded_wide u a e srcs dests :
  u32 e = e → Z.land e 3 = 3 →
  dvrDecodeRiscvSemantic u (encoded_inst a e srcs dests) =
    decode_wide (u <| encoding := e |> <| encodingValid := true |>).
Proof. intros H1 H2. unfold dvrDecodeRiscvSemantic. cbn. by rewrite H1, H2. Qed.

Lemma decode_encoded_compressed u a e srcs dests :
  u32 e = e → Z.land e 3 ≠ 3 →
  dvrDecodeRiscvSemantic u (encoded_inst a e srcs dests) =
    decode_compressed (u <| encoding := e |> <| encodingValid := true |>).
Proof.
  intros H1 H2. unfold dvrDecodeRiscvSemantic. cbn. rewrite H1.
  by destruct (Z.eqb_spec (Z.land e 3) 3).
Qed.

(** *** Compressed loads: the fields the decoder reads, checked on every encoding. *)

Definition c_head_ok (e quadrant funct3 : Z) : bool :=
  (Z.land e 65535 =? e) && (Z.land e 3 =? quadrant) && (field e 13 7 =? funct3)
  && (u32 e =? e).

Definition cld_check (k rs rd : Z) : bool :=
  let e := enc_cld (8 * k) rs rd in
  c_head_ok e 0 3 && (Z.lor (Z.shiftl (field e 10 7) 3) (Z.shiftl (field e 5 3) 6) =? 8 * k).

Definition clw_check (k rs rd : Z) : bool :=
  let e := enc_clw (4 * k) rs rd in
  c_head_ok e 0 2 &&
  (Z.lor (Z.shiftl (field e 10 7) 3) (Z.shiftl (field e 6 1) 2) =? (4 * k) mod 64).

Definition csp_imm (e : Z) : Z :=
  Z.lor (Z.lor (Z.shiftl (field e 12 1) 5) (Z.shiftl (field e 4 7) 2)) (Z.shiftl (field e 2 3) 6).

Definition clwsp_check (k rd : Z) : bool :=
  let e := enc_clwsp (4 * k) rd in
  c_head_ok e 2 2 && (field e 7 31 =? rd) && (csp_imm e =? 4 * k).

Definition cldsp_check (k rd : Z) : bool :=
  let e := enc_cldsp (8 * k) rd in
  c_head_ok e 2 3 && (field e 7 31 =? rd)
  && (csp_imm e =? (8 * k) mod 256 + 4 * ((8 * k) / 256)).

Lemma cld_checked k rs rd :
  0 <= k < 32 → 0 <= rs < 8 → 0 <= rd < 8 → cld_check k rs rd = true.
Proof.
  intros Hk Hrs Hrd.
  assert (all_below 32 (λ k, all_below 8 (λ rs, all_below 8 (λ rd, cld_check k rs rd))) = true)
    as H by by vm_compute.
  eapply all_below_spec in H; [|exact Hk]. eapply all_below_spec in H; [|exact Hrs].
  by eapply all_below_spec in H.
Qed.

Lemma clw_checked k rs rd :
  0 <= k < 32 → 0 <= rs < 8 → 0 <= rd < 8 → clw_check k rs rd = true.
Proof.
  intros Hk Hrs Hrd.
  assert (all_below 32 (λ k, all_below 8 (λ rs, all_below 8 (λ rd, clw_check k rs rd))) = true)
    as H by by vm_compute.
  eapply all_below_spec in H; [|exact Hk]. eapply all_below_spec in H; [|exact Hrs].
  by eapply all_below_spec in H.
Qed.

Lemma csp_checked k rd :
  0 <= k < 64 → 0 <= rd < 32 → clwsp_check k rd && cldsp_check k rd = true.
Proof.
  intros Hk Hrd.
  assert (all_below 64 (λ k, all_below 32 (λ rd, clwsp_check k rd && cldsp_check k rd)) = true)
    as H by by vm_compute.
  eapply all_below_spec in H; [|exact Hk]. by eapply all_below_spec in H.
Qed.

(** A compressed encoding with the checked head reaches [decode_compressed]. *)
Lemma c_head_decode u a e q f3 srcs dests :
  c_head_ok e q f3 = true → q ≠ 3 →
  dvrDecodeRiscvSemantic u (encoded_inst a e srcs dests) =
    decode_compressed (u <| encoding := e |> <| encodingValid := true |>) ∧
  Z.land e 65535 = e ∧ Z.land e 3 = q ∧ field e 13 7 = f3.
Proof.
  unfold c_head_ok. intros H Hq. reflect. split; [|done].
  apply decode_encoded_compressed; congruence.
Qed.

(** *** Evaluation *)

Lemma land_u64 a b : is_u64 a → is_u64 b → is_u64 (Z.land a b).
Proof.
  unfold is_u64. intros Ha Hb. split; [apply Z.land_nonneg; lia|].
  destruct (Z.eq_dec (Z.land a b) 0) as [->|]; [lia|]. apply Z.log2_lt_pow2.
  - pose proof (proj2 (Z.land_nonneg a b) ltac:(lia)). lia.
  - pose proof (Z.log2_land a b ltac:(lia) ltac:(lia)).
    assert (Z.log2 a < 64); [|lia].
    destruct (Z.eq_dec a 0) as [->|]; [simpl; lia|]. apply Z.log2_lt_pow2; lia.
Qed.

Lemma log2_u64 a : is_u64 a → Z.log2 a < 64.
Proof.
  unfold is_u64. intros Ha. destruct (Z.eq_dec a 0) as [->|]; [simpl; lia|].
  apply Z.log2_lt_pow2; lia.
Qed.

Lemma lor_u64 a b : is_u64 a → is_u64 b → is_u64 (Z.lor a b).
Proof.
  intros Ha Hb. pose proof (log2_u64 a Ha). pose proof (log2_u64 b Hb). unfold is_u64 in *.
  assert (0 <= Z.lor a b) by (apply Z.lor_nonneg; lia). split; [done|].
  destruct (Z.eq_dec (Z.lor a b) 0) as [->|]; [lia|]. apply Z.log2_lt_pow2; [lia|].
  rewrite Z.log2_lor by lia. lia.
Qed.

Lemma lxor_u64 a b : is_u64 a → is_u64 b → is_u64 (Z.lxor a b).
Proof.
  intros Ha Hb. pose proof (log2_u64 a Ha). pose proof (log2_u64 b Hb). unfold is_u64 in *.
  assert (0 <= Z.lxor a b) by (apply Z.lxor_nonneg; lia). split; [done|].
  destruct (Z.eq_dec (Z.lxor a b) 0) as [->|]; [lia|]. apply Z.log2_lt_pow2; [lia|].
  pose proof (Z.log2_lxor a b ltac:(lia) ltac:(lia)). lia.
Qed.

Lemma shiftr_u64 a n : is_u64 a → 0 <= n → is_u64 (Z.shiftr a n).
Proof.
  unfold is_u64. intros Ha Hn. split; [apply Z.shiftr_nonneg; lia|].
  rewrite Z.shiftr_div_pow2 by done. pose proof (Z.pow_pos_nonneg 2 n ltac:(lia) Hn).
  apply Z.le_lt_trans with a; [|lia]. apply Z.div_le_upper_bound; nia.
Qed.

Lemma shamt_nonneg v : 0 <= shamt v.
Proof. unfold shamt. apply Z.land_nonneg. lia. Qed.

Lemma imm_shamt_nonneg u m : 0 <= m → 0 <= imm_shamt u m.
Proof. unfold imm_shamt. intros. apply Z.land_nonneg. lia. Qed.

#[export] Hint Resolve land_u64 lor_u64 lxor_u64 shiftr_u64 shamt_nonneg imm_shamt_nonneg : dvr.

(** The signed word view of wrapped word arithmetic. *)
Lemma s32_u32 z : s32 (u32 z) = s32 z.
Proof. unfold s32, u32. by rewrite Z.mod_mod by lia. Qed.

Lemma s32_range z : - 2 ^ 31 <= s32 z < 2 ^ 31.
Proof.
  unfold s32. pose proof (Z.mod_pos_bound z (2 ^ 32) ltac:(lia)).
  destruct (Z.ltb_spec (z mod 2 ^ 32) (2 ^ 31)); lia.
Qed.

Lemma s64_of_sext_word z : s64 (sext_word z) = s32 z.
Proof.
  unfold sext_word. rewrite s64_u64. apply s64_small. pose proof (s32_range z). lia.
Qed.

Lemma s64_of_u64_word z : s64 (u64 (s32 z)) = s32 z.
Proof. apply s64_of_sext_word. Qed.

Lemma u32_arith a b :
  u32 (u32 a + u32 b) = u32 (a + b) ∧ u32 (u32 a - u32 b) = u32 (a - b) ∧
  u32 (u32 a * u32 b) = u32 (a * b).
Proof.
  unfold u32. split_and!.
  - by rewrite <- Zplus_mod.
  - by rewrite <- Zminus_mod.
  - by rewrite <- Zmult_mod.
Qed.

Lemma u32_mul_l a b : u32 (u32 a * b) = u32 (a * b).
Proof. unfold u32. by rewrite Zmult_mod_idemp_l. Qed.

Lemma s64_rem_word a b : s32 b ≠ 0 → s64 (rem_word a b) = Z.rem (s32 a) (s32 b).
Proof.
  intros Hb. unfold rem_word. rewrite s64_u64. pose proof (s32_range a).
  destruct (Z.eqb_spec (s32 b) 0); [done|].
  destruct (Z.eqb_spec (s32 a) (- 2 ^ 31)) as [->|]; cbn;
    [destruct (Z.eqb_spec (s32 b) (-1)) as [->|]; [done|]|];
    apply s64_small; pose proof (Z.rem_bound_abs (s32 a) (s32 b) ltac:(done));
    pose proof (s32_range b); pose proof (Z.rem_bound_abs (- 2 ^ 31) (s32 b) ltac:(done)); lia.
Qed.

Lemma s64_remainder a b :
  is_u64 a → is_u64 b → s64 b ≠ 0 →
  s64 (if b =? 0 then a
       else if (s64 a =? - 2 ^ 63) && (s64 b =? -1) then 0
       else u64 (Z.rem (s64 a) (s64 b))) = Z.rem (s64 a) (s64 b).
Proof.
  intros Ha Hb Hn. pose proof (s64_range a). pose proof (s64_range b).
  destruct (Z.eqb_spec b 0) as [->|]; [done|].
  destruct (Z.eqb_spec (s64 a) (- 2 ^ 63)) as [->|]; cbn;
    [destruct (Z.eqb_spec (s64 b) (-1)) as [->|]; [done|]|];
    rewrite s64_u64; apply s64_small;
    pose proof (Z.rem_bound_abs (s64 a) (s64 b) ltac:(done));
    pose proof (Z.rem_bound_abs (- 2 ^ 63) (s64 b) ltac:(done)); lia.
Qed.

(** ** Properties *)

(** The I-type decoder inverts the RISC-V encoding: for every operation of the table,
    every register pair and every 12-bit immediate, decoding recovers the semantics, the
    signed immediate and the load width, and changes no operand metadata. *)
Theorem decode_itype (opcode f3 : Z) (sem : Semantic) (lb : option Z) (rd rs1 imm : Z)
    (a : Z) (srcs dests : list RegId) (u : Uop) :
  (opcode, f3, sem, lb) ∈ itype_table →
  0 <= rd < 32 → 0 <= rs1 < 32 → - 2 ^ 11 <= imm < 2 ^ 11 →
  let e := enc_i opcode f3 rd rs1 imm in
  dvrDecodeRiscvSemantic u (encoded_inst a e srcs dests) =
    u <| encoding := e |> <| encodingValid := true |> <| semantic := sem |>
      <| immediate := imm |> <| loadBytes := default (loadBytes u) lb |>.
Proof.
  intros Hin Hrd Hrs Himm e. pose proof (itype_table_range _ _ _ _ Hin) as (Ho & Hf & Hm).
  destruct (enc_i_fields opcode f3 rd rs1 imm Ho Hf Hrd Hrs) as (E0 & E1 & E2 & E3 & E4).
  fold e in E0, E1, E2, E3, E4. clearbody e. rewrite Hm in E2.
  pose proof (sext12_mod imm Himm) as HS. rewrite <- E4 in HS.
  rewrite decode_encoded_wide by done.
  pose proof (decode_wide_itype (u <| encoding := e |> <| encodingValid := true |>)) as HT.
  rewrite Forall_forall in HT. specialize (HT _ Hin E1 E3). rewrite HT.
  cbn. by rewrite HS.
Qed.

Lemma decode_itype_witness :
  let u := dvrDecodeRiscvSemantic Uop_init (encoded_inst 64 (enc_i 3 3 10 11 (-8)) [] []) in
  (semantic u, immediate u, loadBytes u) = (LoadDouble, -8, 8).
Proof.
  assert ((3, 3, LoadDouble, Some 8) ∈ itype_table) as Hin
    by (unfold itype_table; set_unfold; tauto).
  cbv zeta.
  rewrite (decode_itype 3 3 LoadDouble (Some 8) 10 11 (-8) 64 [] [] Uop_init Hin) by lia.
  reflexivity.
Defined.

(** The R-type decoder inverts the RISC-V encoding for every register operation of the
    table, with any registers. *)
Theorem decode_rtype (opcode f3 f7 : Z) (sem : Semantic) (rd rs1 rs2 a : Z)
    (srcs dests : list RegId) (u : Uop) :
  (opcode, f3, f7, sem) ∈ rtype_table →
  0 <= rd < 32 → 0 <= rs1 < 32 → 0 <= rs2 < 32 →
  let e := enc_r opcode f3 f7 rd rs1 rs2 in
  dvrDecodeRiscvSemantic u (encoded_inst a e srcs dests) =
    u <| encoding := e |> <| encodingValid := true |> <| semantic := sem |>.
Proof.
  intros Hin Hrd Hrs1 Hrs2 e.
  pose proof (rtype_table_range _ _ _ _ Hin) as (Ho & Hf & Hf7 & Hm).
  destruct (enc_r_fields opcode f3 f7 rd rs1 rs2 Ho Hf Hf7 Hrd Hrs1 Hrs2)
    as (E0 & E1 & E2 & E3 & E4).
  fold e in E0, E1, E2, E3, E4. clearbody e. rewrite Hm in E2.
  rewrite decode_encoded_wide by done.
  pose proof (decode_wide_rtype (u <| encoding := e |> <| encodingValid := true |>)) as HT.
  rewrite Forall_forall in HT. by rewrite (HT _ Hin E1 E3 E4).
Qed.

Lemma decode_rtype_witness :
  semantic (dvrDecodeRiscvSemantic Uop_init
    (encoded_inst 64 (enc_r 59 7 1 10 11 12) [] [])) = RemainderUnsignedWord.
Proof.
  assert ((59, 7, 1, RemainderUnsignedWord) ∈ rtype_table) as Hin
    by (unfold rtype_table; set_unfold; tauto).
  rewrite (decode_rtype 59 7 1 RemainderUnsignedWord 10 11 12 64 [] [] Uop_init Hin) by lia.
  reflexivity.
Defined.

(** C.LD and C.LWSP decode exactly, for every register and every offset the format can
    express. *)
Theorem decode_cld_clwsp (k rs rd rd' m a : Z) (srcs dests : list RegId) (u : Uop) :
  0 <= k < 32 → 0 <= rs < 8 → 0 <= rd < 8 → 0 <= m < 64 → 0 < rd' < 32 →
  dvrDecodeRiscvSemantic u (encoded_inst a (enc_cld (8 * k) rs rd) srcs dests) =
    u <| encoding := enc_cld (8 * k) rs rd |> <| encodingValid := true |>
      <| semantic := LoadDouble |> <| loadBytes := 8 |> <| immediate := 8 * k |> ∧
  dvrDecodeRiscvSemantic u (encoded_inst a (enc_clwsp (4 * m) rd') srcs dests) =
    u <| encoding := enc_clwsp (4 * m) rd' |> <| encodingValid := true |>
      <| semantic := LoadWordSigned |> <| loadBytes := 4 |> <| source0 := 2 |>
      <| immediate := 4 * m |>.
Proof.
  intros Hk Hrs Hrd Hm Hrd'.
  pose proof (cld_checked k rs rd Hk Hrs Hrd) as H1.
  pose proof (csp_checked m rd' Hm ltac:(lia)) as H2.
  unfold cld_check, clwsp_check in H1, H2.
  set (e := enc_cld _ _ _) in *. set (e' := enc_clwsp _ _) in *. clearbody e e'.
  apply andb_true_iff in H1 as [H1 I1]. apply andb_true_iff in H2 as [H2 _]. 
  apply andb_true_iff in H2 as [H2 I2]. apply andb_true_iff in H2 as [H2 R2].
  apply Z.eqb_eq in I1, I2, R2.
  destruct (c_head_decode u a e 0 3 srcs dests H1) as (-> & A1 & B1 & C1); [done|].
  destruct (c_head_decode u a e' 2 2 srcs dests H2) as (-> & A2 & B2 & C2); [done|].
  unfold decode_compressed, decode_c_immediate, decode_c_load.
  cbn [encoding]. cbn. rewrite A1, B1, C1, A2, B2, C2, R2. cbn.
  destruct (Z.eqb_spec rd' 0); [lia|]. cbn. unfold csp_imm in I2. by rewrite I1, I2.
Qed.

Lemma decode_cld_clwsp_witness :
  immediate (dvrDecodeRiscvSemantic Uop_init
    (encoded_inst 64 (enc_cld 248 1 2) [] [])) = 248.
Proof.
  destruct (decode_cld_clwsp 31 1 2 1 0 64 [] [] Uop_init) as [H _]; [lia..|].
  change (enc_cld 248 1 2) with (enc_cld (8 * 31) 1 2). by rewrite H.
Defined.

(** Three compressed forms lose offset bits.  C.LW drops bit 6 of its offset; C.LDSP is
    decoded with the C.LWSP layout, so bit 8 of its offset lands on bit 2; and C.ADDI4SPN of
    s0 with an offset whose bits 2 and 3 are clear is not recognised at all. *)
Theorem compressed_offset_defects (k rs rd rd' m a : Z) (u : Uop) :
  0 <= k < 32 → 0 <= rs < 8 → 0 <= rd < 8 → 0 < m < 64 → 0 < rd' < 32 →
  immediate (dvrDecodeRiscvSemantic u (encoded_inst a (enc_clw (4 * k) rs rd) [] []))
    = (4 * k) mod 64 ∧
  immediate (dvrDecodeRiscvSemantic u (encoded_inst a (enc_cldsp (8 * m) rd') [] []))
    = (8 * m) mod 256 + 4 * ((8 * m) / 256) ∧
  semantic (dvrDecodeRiscvSemantic Uop_init (encoded_inst a (enc_caddi4spn (16 * m) 0) [] []))
    = Unsupported.
Proof.
  intros Hk Hrs Hrd Hm Hrd'.
  pose proof (clw_checked k rs rd Hk Hrs Hrd) as H1.
  pose proof (csp_checked m rd' ltac:(lia) ltac:(lia)) as H2.
  unfold clw_check, cldsp_check in H1, H2. split_and!.
  - set (e := enc_clw _ _ _) in *. clearbody e. apply andb_true_iff in H1 as [H1 I1].
    apply Z.eqb_eq in I1.
    destruct (c_head_decode u a e 0 2 [] [] H1) as (-> & A1 & B1 & C1); [done|].
    unfold decode_compressed, decode_c_immediate, decode_c_load.
    cbn. rewrite A1, B1, C1. cbn. done.
  - set (e := enc_cldsp _ _) in *. clearbody e. apply andb_true_iff in H2 as [_ H2].
    apply andb_true_iff in H2 as [H2 I2]. apply andb_true_iff in H2 as [H2 R2].
    apply Z.eqb_eq in I2, R2.
    destruct (c_head_decode u a e 2 3 [] [] H2) as (-> & A2 & B2 & C2); [done|].
    unfold decode_compressed, decode_c_immediate, decode_c_load.
    cbn. rewrite A2, B2, C2, R2. cbn. by destruct (Z.eqb_spec rd' 0); [lia|].
  - assert (all_below 64 (λ m, bool_decide (semantic (dvrDecodeRiscvSemantic Uop_init
      (encoded_inst 0 (enc_caddi4spn (16 * m) 0) [] [])) = Unsupported)) = true) as H
      by by vm_compute.
    eapply (all_below_spec _ _ ) with (z := m) in H; [|lia]. apply bool_decide_eq_true in H.
    unfold dvrDecodeRiscvSemantic in *. cbn in *. done.
Qed.

Lemma compressed_offset_defects_witness :
  immediate (dvrDecodeRiscvSemantic Uop_init (encoded_inst 64 (enc_clw 64 1 2) [] [])) = 0 ∧
  immediate (dvrDecodeRiscvSemantic Uop_init (encoded_inst 64 (enc_cldsp 256 1) [] [])) = 4.
Proof.
  destruct (compressed_offset_defects 16 1 2 1 32 64 Uop_init) as (H1 & H2 & _); [lia..|].
  split; [exact H1|exact H2].
Defined.

(** Evaluation is closed on 64-bit register values, and the two evaluators split the
    semantics: branches have a predicate and no value, every other supported semantics has a
    value and no predicate. *)
Theorem evaluate_total (u : Uop) (a b : Z) :
  is_u64 a → is_u64 b →
  match evaluate u a b, evaluateBranch u a b with
  | Some v, None => is_u64 v ∧ semantic u ≠ Unsupported
  | None, Some _ => semantic u ≠ Unsupported
  | None, None => semantic u = Unsupported
  | Some _, Some _ => False
  end.
Proof.
  intros Ha Hb. unfold evaluate, evaluateBranch, sext_word, rem_word, rem_unsigned_word.
  destruct (semantic u); try done; (split; [|done]);
    auto 6 using u64_range, imm_shamt_nonneg with dvr lia.
  - destruct (b =? 0); [done|]. destruct (_ && _); [split; lia|apply u64_range].
  - destruct (Z.eqb_spec b 0); [done|]. unfold is_u64 in *.
    pose proof (Z.mod_pos_bound a b ltac:(lia)). lia.
  - apply u64_range.
Qed.

Lemma evaluate_total_witness :
  match evaluate (Uop_init <| semantic := Remainder |>) (2 ^ 64 - 7) 3,
        evaluateBranch (Uop_init <| semantic := Remainder |>) (2 ^ 64 - 7) 3 with
  | Some v, None => is_u64 v ∧ Remainder ≠ Unsupported
  | _, _ => False
  end.
Proof.
  assert (is_u64 (2 ^ 64 - 7)) as Ha by (unfold is_u64; lia).
  assert (is_u64 3) as Hb by (unfold is_u64; lia).
  pose proof (evaluate_total (Uop_init <| semantic := Remainder |>) _ _ Ha Hb) as T.
  vm_compute in T. vm_compute. exact T.
Defined.

(** The word forms compute the sign-extended 32-bit result of the exact integer
    operation, and the signed remainder is the truncating remainder for every non-zero
    divisor, the overflowing case included. *)
Theorem evaluate_signed_exact (u : Uop) (a b : Z) :
  is_u64 a → is_u64 b →
  let val sem := default 0 (s64 <$> evaluate (u <| semantic := sem |>) a b) in
  val AddWord = s32 (a + b) ∧ val SubWord = s32 (a - b) ∧ val MultiplyWord = s32 (a * b) ∧
  val AddWordImmediate = s32 (a + immediate u) ∧
  val ShiftLeftWordImmediate = s32 (a * 2 ^ imm_shamt u 31) ∧
  (s32 b ≠ 0 → val RemainderWord = Z.rem (s32 a) (s32 b)) ∧
  (s64 b ≠ 0 → val Remainder = Z.rem (s64 a) (s64 b)).
Proof.
  intros Ha Hb val. unfold val, evaluate. cbn [semantic].
  pose proof (u32_arith a b) as (E1 & E2 & E3).
  pose proof (u32_arith a (immediate u)) as (E4 & _ & _).
  split_and!; cbn; rewrite ?s64_of_sext_word.
  - by rewrite E1, s32_u32.
  - by rewrite E2, s32_u32.
  - by rewrite E3, s32_u32.
  - by rewrite E4, s32_u32.
  - change (imm_shamt _ 31) with (imm_shamt u 31). rewrite s32_u32.
    pose proof (imm_shamt_nonneg u 31 ltac:(lia)).
    rewrite Z.shiftl_mul_pow2 by done. rewrite <- s32_u32, u32_mul_l, s32_u32. done.
  - intros Hn. by apply s64_rem_word.
  - intros Hn. by apply s64_remainder.
Qed.

Lemma evaluate_signed_exact_witness :
  let val sem := default 0 (s64 <$> evaluate (Uop_init <| semantic := sem |>)
                                      (u64 (- 2 ^ 63)) (u64 (-1))) in
  val Remainder = 0 ∧ val SubWord = 1.
Proof.
  destruct (evaluate_signed_exact Uop_init (u64 (- 2 ^ 63)) (u64 (-1)))
    as (_ & H1 & _ & _ & _ & _ & H2); [apply u64_range..|].
  split; [|exact H1]. apply H2. vm_compute. discriminate.
Defined.

End Uop.
