(* ===== verification/Recorder.v ===== *)
(** * The trigger-to-FLR instruction template

    Model of [DVRInstructionRecorder] (src/cpu/o3/pre.hh, pre.cc): the bounded array of
    recorded uops, the append of alternate suffixes, and the reconvergence policy that places
    each branch before the final load (FLR) or before the loop-closing branch (LCR). *)

From S2P Require Import Prelude Inst Uop.

Module Recorder.
Import Uop.

Definition MaxUops : nat := 256.
Definition FrontEndBufferUops : nat := 8.
#[global] Arguments MaxUops : simpl never.
#[global] Arguments FrontEndBufferUops : simpl never.

Record Recorder := mkRecorder { uops : list Uop;  count : nat;  overflowed : bool }.

#[export] Instance eta_Recorder : Eta Recorder := λ r,
  mkRecorder (uops r) (count r) (overflowed r).

(** [reset] *)
Definition reset : Recorder := mkRecorder (replicate MaxUops Uop_init) 0 false.

(** [program[index]] *)
Definition uop_at (r : Recorder) (k : nat) : Uop := uops r !!! k.

(** [uops[index].field = v] *)
Definition update_uop (k : nat) (f : Uop → Uop) (us : list Uop) : list Uop :=
  <[k := f (us !!! k)]> us.

(** The metadata [record] writes into a slot that holds [u].  A direct control instruction
    always has a branch target. *)
Definition fill_uop (u : Uop) (i : DynInst) (tnt : bool) : Uop :=
  let si := staticInst i in
  let u := u <| Uop.pc := instAddr i |> in
  let u := if isDirectCtrl si
           then u <| branchTargetPC := default (branchTargetPC u) (branchTarget i) |> else u in
  let u := u <| intSources := dvrIntRegisterMask (inst_srcs i) |>
             <| intDestinations := dvrIntRegisterMask (inst_dests i) |>
             <| source0 := dvrFirstIntRegister (inst_srcs i) 0 |>
             <| source1 := dvrFirstIntRegister (inst_srcs i) 1 |>
             <| destination := dvrFirstIntRegister (inst_dests i) 0 |>
             <| load := isLoad si |> <| control := isControl si |>
             <| conditional := isCondCtrl si |> <| branchTaken := branching (pcState i) |>
             <| tainted := tnt |> in
  let u := dvrDecodeRiscvSemantic u i in
  u <| fallthroughPC := u64 (Uop.pc u +
        (if encodingValid u && negb (Z.land (encoding u) 3 =? 3) then 2 else 4)) |>.

(** The first statement of [record]: the instruction after a conditional branch is its
    reconvergence boundary. *)
Definition mark_reconvergence (r : Recorder) (a : Z) : Recorder :=
  let last := (count r - 1)%nat in
  if negb (count r =? 0)%nat && conditional (uop_at r last)
     && (reconvergencePC (uop_at r last) =? 0)
  then r <| uops ::= update_uop last (λ u, u <| reconvergencePC := a |>) |>
  else r.

(** [record] *)
Definition record (r : Recorder) (i : DynInst) (tnt : bool) : Recorder * bool :=
  let r := mark_reconvergence r (instAddr i) in
  if (MaxUops <=? count r)%nat then (r <| overflowed := true |>, false)
  else
    let k := count r in
    (r <| count := S k |> <| uops ::= update_uop k (λ u, fill_uop u i tnt) |>, true).

(** [begin] *)
Definition begin (trigger : DynInst) : Recorder := (record reset trigger false).1.

(** [import] *)
Definition import (source : list Uop) (size : nat) : Recorder :=
  let n := Nat.min size MaxUops in
  mkRecorder (for_range 0 n (λ k us, <[k := source !!! k]> us) (uops reset)) n false.

(** [truncate] *)
Definition truncate (r : Recorder) (size : nat) : Recorder :=
  r <| count ::= λ c, Nat.min c size |>.

(** The scan for the first uop of a PC, as [insertBeforePC] and the VIR perform it. *)
Definition find_pc (r : Recorder) (p : Z) : option nat :=
  find_from 0 (count r) (λ k, Uop.pc (uop_at r k) =? p).

(** [insertBeforePC] *)
Definition insertBeforePC (r : Recorder) (reconvergence_pc : Z) (path : list Uop)
  : Recorder * bool :=
  if (reconvergence_pc =? 0) || (length path =? 0)%nat || (MaxUops <=? count r)%nat
     || (MaxUops - count r <? length path)%nat then (r, false)
  else match find_pc r reconvergence_pc with
  | None => (r, false)
  | Some _ =>
      (r <| uops ::= λ us, for_range 0 (length path)
                            (λ k us, <[(count r + k)%nat := path !!! k]> us) us |>
         <| count ::= λ c, (c + length path)%nat |>, true)
  end.

(** The last occurrence of the final load. *)
Definition flr_index (r : Recorder) (flr_pc : Z) : option nat :=
  find_last (count r) (λ k, load (uop_at r k) && (Uop.pc (uop_at r k) =? flr_pc)).

(** The first loop-closing branch after the final load. *)
Definition lcr_index (r : Recorder) (flr : nat) (loop_branch_pc : Z) : option nat :=
  find_from (S flr) (count r - S flr)
    (λ k, conditional (uop_at r k) && (Uop.pc (uop_at r k) =? loop_branch_pc)).

(** The body of the last loop of [setReconvergencePC]. *)
Definition place_reconvergence (flr lcr : nat) (flr_pc loop_branch_pc : Z)
    (k : nat) (us : list Uop) : list Uop :=
  if negb (conditional (us !!! k)) then us
  else if (k <=? flr)%nat then update_uop k (λ u, u <| reconvergencePC := flr_pc |>) us
  else if (k <? lcr)%nat && negb (loop_branch_pc =? 0)
       then update_uop k (λ u, u <| reconvergencePC := loop_branch_pc |>) us
       else us.

(** [setReconvergencePC] *)
Definition setReconvergencePC (r : Recorder) (flr_pc loop_branch_pc : Z) : Recorder :=
  if flr_pc =? 0 then r
  else match flr_index r flr_pc with
  | None => r
  | Some flr =>
      let lcr := if negb (loop_branch_pc =? 0)
                 then default (count r) (lcr_index r flr loop_branch_pc)
                 else count r in
      r <| uops ::= for_range 0 (count r) (place_reconvergence flr lcr flr_pc loop_branch_pc) |>
  end.

(** [hasConditionalBetween] *)
Definition hasConditionalBetween (r : Recorder) (flr_pc loop_branch_pc : Z) : bool :=
  if (flr_pc =? 0) || (loop_branch_pc =? 0) then false
  else match flr_index r flr_pc with
  | None => false
  | Some flr =>
      match lcr_index r flr loop_branch_pc with
      | None => false
      | Some lcr =>
          match find_from (S flr) (lcr - S flr) (λ k, conditional (uop_at r k)) with
          | Some _ => true
          | None => false
          end
      end
  end.

(** [struct ResourceCounts] *)
Record ResourceCounts := mkResources { alu : nat;  shift : nat;  multiply : nat;  lsu : nat }.

#[export] Instance eta_ResourceCounts : Eta ResourceCounts := λ r,
  mkResources (alu r) (shift r) (multiply r) (lsu r).

(** The functional units a uop is charged to. *)
Definition is_lsu (u : Uop) : bool := load u || bool_decide (semantic u = LoadAddress).
Definition is_multiply (u : Uop) : bool :=
  match semantic u with Multiply | MultiplyWord => true | _ => false end.
Definition is_shift (u : Uop) : bool :=
  match semantic u with
  | ShiftLeft | ShiftRightLogical | ShiftRightArithmetic | ShiftLeftImmediate
  | ShiftLeftWordImmediate | ShiftRightLogicalImmediate | ShiftRightArithmeticImmediate
  | ShiftRightLogicalWordImmediate | ShiftRightArithmeticWordImmediate => true
  | _ => false
  end.

(** [resourceCounts] *)
Definition resourceCounts (r : Recorder) : ResourceCounts :=
  for_range 0 (count r) (λ k res,
    let u := uop_at r k in
    if is_lsu u then res <| lsu ::= S |>
    else if is_multiply u then res <| multiply ::= S |>
    else if is_shift u then res <| shift ::= S |>
    else res <| alu ::= S |>) (mkResources 0 0 0 0).

(** ** Specification

    The template of a committed stream: each instruction decoded into a fresh uop, a
    conditional branch reconverging at the instruction that follows it. *)

Definition record_all (r : Recorder) (xs : list (DynInst * bool)) : Recorder :=
  foldl (λ r x, (record r x.1 x.2).1) r xs.

Definition template_uop (x : DynInst * bool) (next : option (DynInst * bool)) : Uop :=
  let u := fill_uop Uop_init x.1 x.2 in
  match next with
  | Some y => if conditional u then u <| reconvergencePC := instAddr y.1 |> else u
  | None => u
  end.

(** ** Lemmas *)

(** The metadata the decoder never touches. *)
Definition captured (u : Uop) :=
  ((Uop.pc u, branchTargetPC u, fallthroughPC u, reconvergencePC u),
   (intSources u, intDestinations u, load u, control u, conditional u),
   (branchTaken u, tainted u, alternatePath u, alternateResumePC u, destination u, source1 u)).

Local Ltac solve_captured :=
  cbv zeta; intros;
  repeat case_match; try discriminate;
  try match goal with H : Some _ = Some _ |- _ => injection H as <- end; reflexivity.

Lemma captured_c_immediate c u u' : decode_c_immediate c u = Some u' → captured u' = captured u.
Proof. unfold decode_c_immediate. solve_captured. Qed.

Lemma captured_c_load c u u' : decode_c_load c u = Some u' → captured u' = captured u.
Proof. unfold decode_c_load. solve_captured. Qed.

Lemma captured_c_alu c u u' : decode_c_alu c u = Some u' → captured u' = captured u.
Proof. unfold decode_c_alu. solve_captured. Qed.

Lemma captured_c_rest c u : captured (decode_c_rest c u) = captured u.
Proof. unfold decode_c_rest. solve_captured. Qed.

Lemma captured_upper u u' : decode_upper u = Some u' → captured u' = captured u.
Proof. unfold decode_upper. solve_captured. Qed.

Lemma captured_register u u' : decode_register u = Some u' → captured u' = captured u.
Proof. unfold decode_register. solve_captured. Qed.

Lemma captured_op_imm u u' : decode_op_imm u = Some u' → captured u' = captured u.
Proof. unfold decode_op_imm. solve_captured. Qed.

Lemma captured_load_branch u : captured (decode_load_branch u) = captured u.
Proof. unfold decode_load_branch. solve_captured. Qed.

Lemma captured_decode u i : captured (dvrDecodeRiscvSemantic u i) = captured u.
Proof.
  unfold dvrDecodeRiscvSemantic. destruct (asBytes (staticInst i)) as [sz enc].
  destruct (_ || _); [done|]. cbv zeta. set (v := u <| encoding := _ |> <| _ := _ |>).
  transitivity (captured v); [|done]. clearbody v. destruct (negb _).
  - unfold decode_compressed. cbv zeta.
    destruct (decode_c_immediate _ _) eqn:E1; [by eapply captured_c_immediate|].
    destruct (decode_c_load _ _) eqn:E2; [by eapply captured_c_load|].
    destruct (decode_c_alu _ _) eqn:E3; [by eapply captured_c_alu|]. apply captured_c_rest.
  - unfold decode_wide.
    destruct (decode_upper _) eqn:E1; [by apply captured_upper|].
    destruct (decode_register _) eqn:E2; [by apply captured_register|].
    destruct (decode_op_imm _) eqn:E3; [by apply captured_op_imm|]. apply captured_load_branch.
Qed.

Lemma fill_uop_captured u i t :
  conditional (fill_uop u i t) = isCondCtrl (staticInst i) ∧
  reconvergencePC (fill_uop u i t) = reconvergencePC u ∧
  Uop.pc (fill_uop u i t) = instAddr i ∧ load (fill_uop u i t) = isLoad (staticInst i).
Proof.
  unfold fill_uop. cbv zeta. set (v := _ <| tainted := t |>).
  pose proof (captured_decode v i) as H. unfold captured in H.
  assert (conditional v = isCondCtrl (staticInst i) ∧ reconvergencePC v = reconvergencePC u ∧
    Uop.pc v = instAddr i ∧ load v = isLoad (staticInst i)) as (E1 & E2 & E3 & E4)
    by (unfold v; by destruct (isDirectCtrl _)).
  set (w := dvrDecodeRiscvSemantic v i) in *. clearbody v w. cbn.
  injection H as -> _ _ -> _ _ -> _ -> _. done.
Qed.

Lemma uop_at_update r k j f :
  (k < length (uops r))%nat →
  uop_at (r <| uops ::= update_uop k f |>) j =
    if bool_decide (k = j) then f (uop_at r k) else uop_at r j.
Proof. intros. unfold uop_at, update_uop. cbn. by rewrite lookup_total_insert_case. Qed.

Lemma uop_at_reset k : (k < MaxUops)%nat → uop_at reset k = Uop_init.
Proof. intros. unfold uop_at, reset. cbn [uops]. by apply lookup_total_replicate_2. Qed.

(** *** Recording a stream *)

Definition slots (r : Recorder) (g : nat → Uop) : Prop :=
  length (uops r) = MaxUops ∧ ∀ k, (k < MaxUops)%nat → uop_at r k = g k.

Definition template_slot (xs : list (DynInst * bool)) (next : nat → option (DynInst * bool))
    (k : nat) : Uop :=
  match xs !! k with Some x => template_uop x (next k) | None => Uop_init end.

Definition template_ok (r : Recorder) (xs : list (DynInst * bool)) : Prop :=
  slots r (template_slot xs (λ k, xs !! S k)) ∧
  count r = Nat.min (length xs) MaxUops ∧ overflowed r = (MaxUops <? length xs)%nat.

Lemma template_uop_conditional x n : conditional (template_uop x n) = isCondCtrl (staticInst x.1).
Proof.
  pose proof (fill_uop_captured Uop_init x.1 x.2) as (E & _).
  unfold template_uop. cbv zeta. destruct n as [y|]; [|done].
  set (v := fill_uop _ _ _) in *. clearbody v. by destruct (conditional v) eqn:E'; cbn; congruence.
Qed.

Lemma template_uop_reconvergence x n :
  reconvergencePC (template_uop x n) =
    match n with
    | Some y => if isCondCtrl (staticInst x.1) then instAddr y.1 else 0
    | None => 0
    end.
Proof.
  pose proof (fill_uop_captured Uop_init x.1 x.2) as (E & E' & _).
  unfold template_uop. cbv zeta. destruct n as [y|]; [|done].
  set (v := fill_uop _ _ _) in *. clearbody v. rewrite <- E. by destruct (conditional v).
Qed.

(** Adding the successor of an uncaptured conditional is what the template specifies. *)
Lemma template_uop_next (x y : DynInst * bool) :
  (if isCondCtrl (staticInst x.1)
   then (template_uop x None) <| reconvergencePC := instAddr y.1 |>
   else template_uop x None) = template_uop x (Some y).
Proof.
  pose proof (fill_uop_captured Uop_init x.1 x.2) as (E & _).
  unfold template_uop. cbv zeta. set (v := fill_uop _ _ _) in *. clearbody v.
  by rewrite E.
Qed.

Lemma mark_template r xs i t :
  template_ok r xs → Forall (λ x, instAddr x.1 ≠ 0) xs →
  let r' := mark_reconvergence r (instAddr i) in
  slots r' (template_slot xs (λ k, (xs ++ [(i, t)]) !! S k)) ∧
  count r' = count r ∧ overflowed r' = overflowed r.
Proof.
  intros [[Hlen Hs] [Hc Ho]] Hnz r'. unfold r', mark_reconvergence.
  destruct (Nat.eqb_spec (count r) 0) as [E|E]; cbn [negb andb].
  { assert (xs = []) as -> by (destruct xs; [done|cbn in *; unfold MaxUops in *; lia]).
    split; [|done]. split; [done|]. intros k Hk. rewrite Hs by done. done. }
  set (last := (count r - 1)%nat). assert (last < MaxUops)%nat as Hl by (unfold last, MaxUops in *; lia).
  assert (last < length xs)%nat as Hlx by (unfold last; lia).
  destruct (lookup_lt_is_Some_2 xs last Hlx) as [x Hx].
  pose proof (Hs last Hl) as Hat. unfold template_slot in Hat. rewrite Hx in Hat.
  rewrite Hat, template_uop_conditional, template_uop_reconvergence.
  assert (∀ k, k ≠ last ∨ is_Some (xs !! S k) → (k < MaxUops)%nat →
    template_slot xs (λ k, xs !! S k) k = template_slot xs (λ k, (xs ++ [(i, t)]) !! S k) k)
    as Hsame.
  { intros k Hk Hk'. unfold template_slot. destruct (xs !! k) as [y|] eqn:Ek; [|done].
    apply lookup_lt_Some in Ek. rewrite lookup_app_l; [done|].
    destruct Hk as [Hk|Hk]; [|by apply lookup_lt_is_Some]. unfold last in Hk. lia. }
  destruct (xs !! S last) as [y|] eqn:Ey.
  - assert (instAddr y.1 ≠ 0) as Hy by (by eapply Forall_lookup_1 in Hnz; [|exact Ey]).
    assert ((isCondCtrl (staticInst x.1) &&
      ((if isCondCtrl (staticInst x.1) then instAddr y.1 else 0) =? 0)) = false) as ->.
    { destruct (isCondCtrl _); [|done]. by apply Z.eqb_neq. }
    split; [|done]. split; [done|]. intros k Hk. rewrite Hs by done. apply Hsame; [|done].
    destruct (decide (k = last)) as [->|]; [right; by rewrite Ey|by left].
  - apply lookup_ge_None in Ey. rewrite Z.eqb_refl, andb_true_r.
    assert (template_slot xs (λ k, (xs ++ [(i, t)]) !! S k) last = template_uop x (Some (i, t)))
      as Hlast.
    { unfold template_slot. rewrite Hx. rewrite lookup_app_r by lia.
      replace (S last - length xs)%nat with O; [done|]. apply lookup_lt_Some in Hx. lia. }
    pose proof (template_uop_next x (i, t)) as Hn. cbn [fst] in Hn.
    destruct (isCondCtrl (staticInst x.1)); (split; [|done]); (split; [cbn;
      unfold update_uop; rewrite ?length_insert; done|]); intros k Hk;
      rewrite ?uop_at_update by lia.
    + case_bool_decide as D; subst; [by rewrite Hat, Hlast|].
      rewrite Hs by done. apply Hsame; auto.
    + destruct (decide (k = last)) as [->|]; [by rewrite Hat, Hlast|].
      rewrite Hs by done. apply Hsame; auto.
Qed.

Lemma record_template r xs i t :
  template_ok r xs → Forall (λ x, instAddr x.1 ≠ 0) xs →
  template_ok (record r i t).1 (xs ++ [(i, t)]).
Proof.
  intros Hok Hnz. destruct (mark_template r xs i t Hok Hnz) as ([Hlen Hs] & Hc & Ho).
  destruct Hok as (_ & Hc' & Ho'). unfold record. set (r' := mark_reconvergence _ _) in *.
  clearbody r'. unfold template_ok. rewrite length_app. cbn [length].
  destruct (Nat.leb_spec MaxUops (count r')); cbn.
  - split_and!; [|lia|symmetry; apply Nat.ltb_lt; lia].
    split; [done|]. intros k Hk. change (uop_at _ k) with (uop_at r' k). rewrite Hs by done.
    unfold template_slot. by rewrite (lookup_app_l xs _ k) by lia.
  - assert (count r' = length xs) as Hcx by lia.
    split_and!; [|lia|rewrite Ho, Ho'; destruct (Nat.ltb_spec MaxUops (length xs)), (Nat.ltb_spec MaxUops (length xs + 1)); done || (exfalso; lia)].
    split; [cbn; unfold update_uop; by rewrite length_insert|]. intros k Hk.
    unfold uop_at. cbn. unfold update_uop. rewrite lookup_total_insert_case by lia.
    change (uops r' !!! k) with (uop_at r' k).
    change (uops r' !!! count r') with (uop_at r' (count r')).
    rewrite !Hs by lia. rewrite Hcx. unfold template_slot. case_bool_decide as D.
    + subst k. rewrite (list_lookup_middle xs [] (i, t) (length xs)) by done.
      rewrite (lookup_ge_None_2 xs (length xs)) by lia. cbn.
      by rewrite lookup_ge_None_2 by (rewrite length_app; cbn; lia).
    + destruct (decide (k < length xs)%nat).
      * by rewrite (lookup_app_l xs _ k) by lia.
      * rewrite !lookup_ge_None_2; [done|rewrite length_app; cbn; lia|lia].
Qed.

Lemma reset_template : template_ok reset [].
Proof.
  split; [|done]. split; [done|]. intros k Hk. rewrite uop_at_reset by done.
  unfold template_slot. by rewrite lookup_nil.
Qed.

Lemma record_all_template xs :
  Forall (λ x, instAddr x.1 ≠ 0) xs → template_ok (record_all reset xs) xs.
Proof.
  induction xs as [|[i t] xs IH] using rev_ind; [intros; apply reset_template|].
  intros H. apply Forall_app in H as [H _]. unfold record_all. rewrite foldl_app.
  apply record_template; [by apply IH|done].
Qed.

(** *** Scans and placements *)

Definition wf (r : Recorder) : Prop := length (uops r) = MaxUops ∧ (count r <= MaxUops)%nat.

(** [k] is the last recorded occurrence of the final load. *)
Definition is_flr (r : Recorder) (flr_pc : Z) (k : nat) : Prop :=
  let final j := load (uop_at r j) = true ∧ Uop.pc (uop_at r j) = flr_pc in
  (k < count r)%nat ∧ final k ∧ ∀ j, (k < j < count r)%nat → ¬ final j.

(** [k] is the first loop-closing branch after [flr]. *)
Definition is_lcr (r : Recorder) (flr : nat) (lpc : Z) (k : nat) : Prop :=
  let closing j := conditional (uop_at r j) = true ∧ Uop.pc (uop_at r j) = lpc in
  (flr < k < count r)%nat ∧ closing k ∧ ∀ j, (flr < j < k)%nat → ¬ closing j.

Lemma and_eqb_true b (x y : Z) : b && (x =? y) = true ↔ b = true ∧ x = y.
Proof. by rewrite andb_true_iff, Z.eqb_eq. Qed.

Lemma and_eqb_false b (x y : Z) : b && (x =? y) = false ↔ ¬ (b = true ∧ x = y).
Proof. rewrite <- and_eqb_true. by destruct (_ && _). Qed.

Lemma flr_index_Some r p k : flr_index r p = Some k ↔ is_flr r p k.
Proof.
  unfold flr_index, is_flr. pose proof (find_last_spec (count r)
    (λ k, load (uop_at r k) && (Uop.pc (uop_at r k) =? p))) as H.
  destruct (find_last _ _) as [i|].
  - destruct H as (Hi & Hp & Hm). apply and_eqb_true in Hp. split.
    + intros [= <-]. split_and!; [done|apply Hp..|].
      intros j Hj. apply and_eqb_false. by apply Hm.
    + intros (Hk & Hf & Hk'). f_equal. destruct (decide (i = k)) as [|Hne]; [done|].
      exfalso. destruct (decide (i < k)%nat).
      * specialize (Hm k ltac:(lia)). by apply and_eqb_false in Hm.
      * by apply (Hk' i ltac:(lia)).
  - split; [done|]. intros (Hk & Hf & _). specialize (H k Hk). by apply and_eqb_false in H.
Qed.

Lemma lcr_index_Some r flr p k :
  (flr < count r)%nat → lcr_index r flr p = Some k ↔ is_lcr r flr p k.
Proof.
  intros Hflr. unfold lcr_index, is_lcr. rewrite find_from_Some. split.
  - intros (Hk & Hp & Hm). apply and_eqb_true in Hp. split_and!; [lia|lia|apply Hp..|].
    intros j Hj. apply and_eqb_false. apply Hm. lia.
  - intros (Hk & Hp & Hm). split_and!; [lia|lia|by apply and_eqb_true|].
    intros j Hj. apply and_eqb_false. apply Hm. lia.
Qed.

(** What [place_reconvergence] makes of the uop at [k]. *)
Definition placed (flr lcr : nat) (flr_pc lpc : Z) (k : nat) (u : Uop) : Uop :=
  if negb (conditional u) then u
  else if (k <=? flr)%nat then u <| reconvergencePC := flr_pc |>
  else if (k <? lcr)%nat && negb (lpc =? 0) then u <| reconvergencePC := lpc |> else u.

Lemma place_is_placed flr lcr flr_pc lpc k us :
  place_reconvergence flr lcr flr_pc lpc k us
  = <[k := placed flr lcr flr_pc lpc k (us !!! k)]> us.
Proof.
  unfold place_reconvergence, placed, update_uop.
  repeat case_match; by rewrite ?insert_lookup_total.
Qed.

Lemma setReconvergencePC_at r flr flr_pc lpc k :
  wf r → flr_pc ≠ 0 → is_flr r flr_pc flr → (k < count r)%nat →
  uop_at (setReconvergencePC r flr_pc lpc) k =
    placed flr (if negb (lpc =? 0) then default (count r) (lcr_index r flr lpc) else count r)
      flr_pc lpc k (uop_at r k).
Proof.
  intros [Hl Hc] Hnz Hf Hk. apply flr_index_Some in Hf.
  unfold setReconvergencePC. rewrite (proj2 (Z.eqb_neq _ _) Hnz), Hf. unfold uop_at at 1. cbn.
  edestruct (for_range_map (A := Uop)) as [_ E]; [apply place_is_placed| |].
  2: { rewrite E. destruct (decide _); [done|lia]. }
  lia.
Qed.

Lemma insertBeforePC_true r rpc path :
  insertBeforePC r rpc path =
    if decide (rpc ≠ 0 ∧ path ≠ [] ∧ (count r + length path <= MaxUops)%nat ∧
               is_Some (find_pc r rpc))
    then (r <| uops ::= λ us, for_range 0 (length path)
                            (λ k us, <[(count r + k)%nat := path !!! k]> us) us |>
            <| count ::= λ c, (c + length path)%nat |>, true)
    else (r, false).
Proof.
  unfold insertBeforePC. destruct (Z.eqb_spec rpc 0); cbn [orb].
  { destruct (decide _) as [(?&_)|]; done. }
  destruct path as [|u path]; cbn [length Nat.eqb orb].
  { destruct (decide _) as [(?&?&_)|]; done. }
  destruct (Nat.leb_spec MaxUops (count r)); cbn [orb].
  { destruct (decide _) as [(?&?&?&_)|]; [cbn in *; lia|done]. }
  destruct (Nat.ltb_spec (MaxUops - count r) (S (length path))).
  { destruct (decide _) as [(?&?&?&_)|]; [cbn in *; lia|done]. }
  destruct (find_pc r rpc) as [i|].
  - destruct (decide _) as [|Hn]; [done|]. exfalso. apply Hn.
    split_and!; [done..|cbn; lia|eauto].
  - destruct (decide _) as [(?&?&?&[? ?])|]; done.
Qed.

(** The first uop of a PC in a suffix. *)
Definition path_find (path : list Uop) (p : Z) : option nat :=
  find_from 0 (length path) (λ k, Uop.pc (path !!! k) =? p).

Lemma find_pc_extend r r' path p :
  count r' = (count r + length path)%nat →
  (∀ k, (k < count r)%nat → uop_at r' k = uop_at r k) →
  (∀ k, (k < length path)%nat → uop_at r' (count r + k) = path !!! k) →
  find_pc r' p = match find_pc r p with
                 | Some i => Some i
                 | None => (λ i, (count r + i)%nat) <$> path_find path p
                 end.
Proof.
  intros Hc H1 H2. unfold find_pc, path_find. rewrite Hc, find_from_app.
  rewrite (find_from_ext 0 (count r) _ (λ k, Uop.pc (uop_at r k) =? p))
    by (intros; by rewrite H1 by lia).
  destruct (find_from 0 (count r) _); [done|].
  replace (0 + count r)%nat with (count r + 0)%nat by lia. rewrite find_from_shift. f_equal.
  apply find_from_ext. intros k Hk. by rewrite H2 by lia.
Qed.

Lemma resourceCounts_app r n :
  let body k res :=
    let u := uop_at r k in
    if is_lsu u then res <| lsu ::= S |>
    else if is_multiply u then res <| multiply ::= S |>
    else if is_shift u then res <| shift ::= S |>
    else res <| alu ::= S |> in
  let n_of p := length (filter (λ k, p (uop_at r k) = true) (seq 0 n)) in
  for_range 0 n body (mkResources 0 0 0 0) =
    mkResources
      (n_of (λ u, negb (is_lsu u) && negb (is_multiply u) && negb (is_shift u)))
      (n_of (λ u, negb (is_lsu u) && is_shift u)) (n_of (λ u, negb (is_lsu u) && is_multiply u))
      (n_of is_lsu).
Proof.
  cbv zeta. induction n as [|n IH]; [done|]. rewrite for_range_snoc, IH, seq_S.
  rewrite !filter_app, !length_app, !filter_cons, !filter_nil. cbn [plus].
  assert (is_multiply (uop_at r n) = true → is_shift (uop_at r n) = false)
    by (unfold is_multiply, is_shift; by destruct (semantic _)).
  destruct (is_lsu (uop_at r n)), (is_multiply (uop_at r n)), (is_shift (uop_at r n)); cbn;
    rewrite ?Nat.add_0_r, ?Nat.add_1_r; try done; naive_solver.
Qed.

(** ** Properties *)

(** Recording a stream of instructions with non-zero PCs builds exactly its template:
    slot [k] holds the decode of the [k]-th instruction, a conditional branch reconverging
    at the instruction after it; the template is truncated at 256 uops and the overflow flag
    tells whether it was. *)
Theorem recorded_template (trigger : DynInst) (xs : list (DynInst * bool)) :
  instAddr trigger ≠ 0 → Forall (λ x, instAddr x.1 ≠ 0) xs →
  let r := record_all (begin trigger) xs in
  let ys := (trigger, false) :: xs in
  count r = Nat.min (length ys) MaxUops ∧ overflowed r = (MaxUops <? length ys)%nat ∧
  ∀ k, (k < MaxUops)%nat →
    uop_at r k = match ys !! k with
                 | Some y => template_uop y (ys !! S k)
                 | None => Uop_init
                 end.
Proof.
  intros Ht Hxs r ys.
  destruct (record_all_template ys) as ([_ Hs] & Hc & Ho); [by constructor|done].
Qed.

Lemma recorded_template_witness :
  let br := branch_inst 2 68 64 (enc_r 99 1 0 0 10 11) [] true in
  let r := record_all (begin (plain_inst 1 64 (enc_i 3 3 10 11 8) [] [] true))
             [(br, true); (plain_inst 3 64 (enc_i 3 3 10 11 8) [] [] true, true)] in
  reconvergencePC (uop_at r 1) = 64 ∧ count r = 3%nat.
Proof.
  intros br r.
  destruct (recorded_template (plain_inst 1 64 (enc_i 3 3 10 11 8) [] [] true)
    [(br, true); (plain_inst 3 64 (enc_i 3 3 10 11 8) [] [] true, true)])
    as (Hc & _ & Hs); [done|by repeat constructor|].
  split; [|exact Hc]. unfold r. rewrite Hs by (unfold MaxUops; lia). by vm_compute.
Defined.

(** The FLR/LCR reconvergence policy.  With [flr] the last occurrence of the final load
    and [lcr] the first loop-closing branch after it (the end of the template when there is
    none), a conditional branch reconverges at the final load when it is not after it, and at
    the loop branch when it lies strictly between the two; a later branch, and every uop that
    is not a conditional branch, is left as recorded. *)
Theorem reconvergence_policy (r : Recorder) (flr_pc lpc : Z) (flr : nat) :
  wf r → flr_pc ≠ 0 → lpc ≠ 0 → is_flr r flr_pc flr →
  ∀ k, (k < count r)%nat →
  let u := uop_at r k in
  let u' := uop_at (setReconvergencePC r flr_pc lpc) k in
  (u' = u <| reconvergencePC := reconvergencePC u' |>) ∧
  (conditional u = false → u' = u) ∧
  (conditional u = true → (k <= flr)%nat → reconvergencePC u' = flr_pc) ∧
  (∀ lcr, is_lcr r flr lpc lcr → conditional u = true → (flr < k)%nat →
     reconvergencePC u' = if (k <? lcr)%nat then lpc else reconvergencePC u) ∧
  ((∀ lcr, ¬ is_lcr r flr lpc lcr) → conditional u = true → (flr < k)%nat →
     reconvergencePC u' = lpc).
Proof.
  intros Hwf Hnz Hl Hf k Hk u u'.
  assert (u' = placed flr (default (count r) (lcr_index r flr lpc)) flr_pc lpc k u) as E.
  { unfold u', u. rewrite (setReconvergencePC_at r flr) by done.
    by rewrite (proj2 (Z.eqb_neq _ _) Hl). }
  clearbody u'. rewrite E. clear E. unfold placed. rewrite (proj2 (Z.eqb_neq _ _) Hl). cbn.
  rewrite andb_true_r. pose proof (λ j, lcr_index_Some r flr lpc j (proj1 Hf)) as Hlcr.
  split_and!.
  - destruct u as [? ? ? ? ? ? ? ? ? ? ? ? ? ? ? ? cnd]. cbn. repeat case_match; done.
  - intros ->. done.
  - intros -> Hle. cbn. by rewrite (proj2 (Nat.leb_le _ _) Hle).
  - intros lcr Hcr -> Hlt. cbn. apply Hlcr in Hcr as ->. cbn.
    rewrite (proj2 (Nat.leb_gt _ _) Hlt). by destruct (k <? lcr)%nat.
  - intros Hno -> Hlt. cbn. rewrite (proj2 (Nat.leb_gt _ _) Hlt).
    destruct (lcr_index r flr lpc) as [j|] eqn:E; [exfalso; eapply Hno, Hlcr, eq_refl|].
    cbn. by rewrite (proj2 (Nat.ltb_lt _ _) Hk).
Qed.

(** A load, a branch between, and the loop branch. *)
Definition loop_template : Recorder :=
  record_all (begin (plain_inst 1 64 (enc_i 3 3 10 11 8) [] [] true))
    [(branch_inst 2 68 80 (enc_r 99 0 0 0 10 0) [] false, true);
     (branch_inst 3 72 64 (enc_r 99 1 0 0 10 11) [] true, false)].

Lemma loop_template_flr : wf loop_template ∧ is_flr loop_template 64 0.
Proof.
  split; [split; [by vm_compute|apply Nat.leb_le; by vm_compute]|].
  apply flr_index_Some. by vm_compute.
Qed.

Lemma loop_template_lcr : is_lcr loop_template 0 72 2.
Proof. apply lcr_index_Some; [apply Nat.ltb_lt|]; by vm_compute. Qed.

Lemma reconvergence_policy_witness :
  reconvergencePC (uop_at (setReconvergencePC loop_template 64 72) 1) = 72.
Proof.
  destruct loop_template_flr as [Hwf Hf].
  destruct (reconvergence_policy loop_template 64 72 0 Hwf ltac:(done) ltac:(done) Hf 1)
    as (_ & _ & _ & H & _); [apply Nat.ltb_lt; by vm_compute|].
  rewrite (H 2%nat); [done|exact loop_template_lcr|done|lia].
Defined.

(** [hasConditionalBetween] decides whether some conditional branch lies strictly between
    the final load and the loop-closing branch, and only then does the policy give a branch
    of a closed loop the loop boundary as its reconvergence point. *)
Theorem hasConditionalBetween_spec (r : Recorder) (flr_pc lpc : Z) :
  wf r →
  (hasConditionalBetween r flr_pc lpc = true ↔
   flr_pc ≠ 0 ∧ lpc ≠ 0 ∧ ∃ flr lcr k, is_flr r flr_pc flr ∧ is_lcr r flr lpc lcr ∧
     (flr < k < lcr)%nat ∧ conditional (uop_at r k) = true) ∧
  (hasConditionalBetween r flr_pc lpc = true →
   ∃ k, (k < count r)%nat ∧ conditional (uop_at r k) = true ∧
        reconvergencePC (uop_at (setReconvergencePC r flr_pc lpc) k) = lpc).
Proof.
  intros Hwf.
  assert (hasConditionalBetween r flr_pc lpc = true ↔
    flr_pc ≠ 0 ∧ lpc ≠ 0 ∧ ∃ flr lcr k, is_flr r flr_pc flr ∧ is_lcr r flr lpc lcr ∧
     (flr < k < lcr)%nat ∧ conditional (uop_at r k) = true) as Hiff.
  { unfold hasConditionalBetween.
    destruct (Z.eqb_spec flr_pc 0); [by split; [|intros [? ?]]|].
    destruct (Z.eqb_spec lpc 0); [by split; [|intros (? & ? & _)]|].
    cbn [orb]. destruct (flr_index r flr_pc) as [flr|] eqn:Ef.
    2: { split; [done|]. intros (_&_&flr&?&?&Hf&_). apply flr_index_Some in Hf. congruence. }
    pose proof (proj1 (flr_index_Some _ _ _) Ef) as Hf.
    destruct (lcr_index r flr lpc) as [lcr|] eqn:El.
    2: { split; [done|]. intros (_&_&flr'&lcr&?&Hf'&Hl&_). apply flr_index_Some in Hf'.
         simplify_eq. apply lcr_index_Some in Hl; [congruence|apply Hf]. }
    pose proof (proj1 (lcr_index_Some _ _ _ _ (proj1 Hf)) El) as Hl.
    destruct (find_from _ _ _) as [k|] eqn:Ek.
    - apply find_from_Some in Ek as (Hk & Hc & _). split; [|done]. intros _.
      split_and!; [done..|]. exists flr, lcr, k. split_and!; [done..|lia|lia|done].
    - split; [done|]. intros (_&_&flr'&lcr'&k&Hf'&Hl'&Hk&Hc). exfalso.
      apply flr_index_Some in Hf'. simplify_eq. apply lcr_index_Some in Hl'; [|apply Hf].
      simplify_eq. rewrite (proj1 (find_from_None _ _ _) Ek k) in Hc by lia. done. }
  split; [done|]. intros H. apply Hiff in H as (Hnz & Hl & flr & lcr & k & Hf & Hcr & Hk & Hc).
  exists k. assert (k < count r)%nat as Hkc by (destruct Hcr as [? _]; lia).
  split_and!; [done..|]. rewrite (setReconvergencePC_at r flr) by done. unfold placed.
  rewrite (proj2 (Z.eqb_neq _ _) Hl), Hc. apply lcr_index_Some in Hcr as ->; [|apply Hf]. cbn.
  rewrite (proj2 (Nat.leb_gt k flr)), (proj2 (Nat.ltb_lt k lcr)) by lia. done.
Qed.

Lemma hasConditionalBetween_spec_witness :
  hasConditionalBetween loop_template 64 72 = true.
Proof.
  destruct loop_template_flr as [Hwf Hf].
  apply (hasConditionalBetween_spec loop_template 64 72 Hwf). split_and!; [done..|].
  exists 0%nat, 2%nat, 1%nat.
  split_and!; [exact Hf|exact loop_template_lcr|lia|lia|done].
Defined.

(** Appending an alternate suffix.  It succeeds exactly when the suffix is non-empty and
    fits, and its reconvergence PC is captured; then the captured prefix is untouched, a
    captured PC still selects the same uop, and every other PC selects its first uop in the
    suffix.  On failure nothing changes. *)
Theorem insertBeforePC_spec (r : Recorder) (rpc : Z) (path : list Uop) :
  wf r →
  let '(r', ok) := insertBeforePC r rpc path in
  (ok = true ↔ rpc ≠ 0 ∧ path ≠ [] ∧ (count r + length path <= MaxUops)%nat ∧
               is_Some (find_pc r rpc)) ∧
  (ok = false → r' = r) ∧
  (ok = true → wf r' ∧ count r' = (count r + length path)%nat ∧
     (∀ k, (k < count r)%nat → uop_at r' k = uop_at r k) ∧
     (∀ k, (k < length path)%nat → uop_at r' (count r + k) = path !!! k) ∧
     ∀ p, find_pc r' p = match find_pc r p with
                         | Some i => Some i
                         | None => (λ i, (count r + i)%nat) <$> path_find path p
                         end).
Proof.
  intros [Hlen Hcnt]. rewrite insertBeforePC_true. destruct (decide _) as [H|H]; [|done].
  split; [done|]. split; [done|]. intros _. destruct H as (Hr & Hp & Hfit & Hf).
  set (r' := _ <| count ::= _ |>).
  destruct (for_range_fill (λ k, path !!! k) (count r) (length path) (uops r)) as [El E];
    [lia|].
  change (for_range _ _ _ _) with (uops r') in El, E.
  assert (∀ k, (k < count r)%nat → uop_at r' k = uop_at r k) as H1.
  { intros k Hk. unfold uop_at. rewrite E. destruct (decide _); [lia|done]. }
  assert (∀ k, (k < length path)%nat → uop_at r' (count r + k) = path !!! k) as H2.
  { intros k Hk. unfold uop_at. rewrite E. destruct (decide _); [|lia]. f_equal. lia. }
  split_and!; [split; [congruence|done]|done..|]. intros p. by apply find_pc_extend.
Qed.

Lemma insertBeforePC_spec_witness :
  let r' := (insertBeforePC loop_template 72 [Uop_init <| Uop.pc := 80 |>]).1 in
  find_pc r' 80 = Some 3%nat ∧ find_pc r' 72 = Some 2%nat.
Proof.
  destruct loop_template_flr as [Hwf _].
  pose proof (insertBeforePC_spec loop_template 72 [Uop_init <| Uop.pc := 80 |>] Hwf) as H.
  destruct (insertBeforePC loop_template 72 _) as [r' ok]. destruct H as (Hok & _ & H).
  destruct H as (_ & _ & _ & _ & H).
  - apply Hok. split_and!; [done..|apply Nat.leb_le; by vm_compute|vm_compute; eauto].
  - cbn [fst]. rewrite !H. by vm_compute.
Defined.

(** The resource counts partition the template: every recorded uop is charged to exactly
    one of the load/store, multiply, shift and ALU units, a load always to the first. *)
Theorem resourceCounts_partition (r : Recorder) :
  let c := resourceCounts r in
  let n_of p := length (filter (λ k, p (uop_at r k) = true) (seq 0 (count r))) in
  lsu c = n_of is_lsu ∧ multiply c = n_of (λ u, negb (is_lsu u) && is_multiply u) ∧
  shift c = n_of (λ u, negb (is_lsu u) && is_shift u) ∧
  (alu c + shift c + multiply c + lsu c)%nat = count r.
Proof.
  intros c n_of. unfold c, resourceCounts. rewrite resourceCounts_app. cbn.
  split_and!; [done..|]. clear c. unfold n_of. generalize (length_seq (count r) 0).
  generalize (seq 0 (count r)). intros l <-. induction l as [|k l IH]; [done|].
  rewrite !filter_cons. cbn [length].
  assert (is_multiply (uop_at r k) = true → is_shift (uop_at r k) = false)
    by (unfold is_multiply, is_shift; by destruct (semantic _)).
  destruct (is_lsu (uop_at r k)), (is_multiply (uop_at r k)), (is_shift (uop_at r k)); cbn;
    repeat destruct (decide _); cbn; try done; try lia; naive_solver.
Qed.

End Recorder.
