(* ===== verification/Rename.v ===== *)
(** * The vector rename table (VRAT)

    Model of [DVRVectorRenameTable] (src/cpu/o3/pre.hh, pre.cc): 32 architectural registers,
    eight 16-lane chunks each, mapped round-robin onto 128 vector physical registers. *)

From S2P Require Import Prelude Inst Uop Recorder.

Module Rename.
Import Uop Recorder.

Definition NumArchitecturalRegs : nat := 32.
Definition NumChunks : nat := 8.
Definition NumPhysicalRegs : Z := 128.
#[global] Arguments NumArchitecturalRegs : simpl never.
#[global] Arguments NumChunks : simpl never.

(** [mapping[reg][chunk]] is an [int16_t], -1 for a scalar register. *)
Record Table := mkTable { mapping : list (list Z);  nextPhysical : Z }.

#[export] Instance eta_Table : Eta Table := λ r, mkTable (mapping r) (nextPhysical r).

(** [reset] *)
Definition reset (t : Table) : Table :=
  mkTable (replicate NumArchitecturalRegs (replicate NumChunks (-1))) 0.

(** [mapping[reg][chunk]] *)
Definition map_at (t : Table) (reg chunk : nat) : Z := (mapping t !!! reg) !!! chunk.

(** [(lanes + 15) / 16] on [unsigned]. *)
Definition chunks_of (lanes : Z) : Z := u32 (lanes + 15) / 16.

(** [mapping[reg][chunk] = nextPhysical++ % NumPhysicalRegs; ++allocations;] *)
Definition allocate (reg chunk : nat) (s : Table * Z) : Table * Z :=
  let '(t, allocations) := s in
  (t <| mapping ::= λ m,
       (<[reg := <[chunk := nextPhysical t mod NumPhysicalRegs]> (m !!! reg)]> m) |>
     <| nextPhysical ::= inc32 |>, inc32 allocations).

(** The three nested loops of [build]. *)
Definition build_reg (destinations : Z) (chunks reg : nat) (s : Table * Z) : Table * Z :=
  if negb (test_bit destinations reg) then s
  else for_range 0 chunks (allocate reg) s.

Definition build_uop (program : Recorder) (chunks k : nat) (s : Table * Z) : Table * Z :=
  for_range 0 NumArchitecturalRegs (build_reg (intDestinations (uop_at program k)) chunks) s.

(** [build] *)
Definition build (t : Table) (program : Recorder) (lanes : Z) : Table * Z :=
  let chunks := Nat.min NumChunks (Z.to_nat (chunks_of lanes)) in
  for_range 0 (count program) (build_uop program chunks) (reset t, 0).

(** [lookup]; its two assertions are the bounds. *)
Definition lookup (t : Table) (architectural chunk : nat) : option Z :=
  if (architectural <? NumArchitecturalRegs)%nat && (chunk <? NumChunks)%nat
  then Some (map_at t architectural chunk) else None.

(** ** Specification

    The allocation requests of a program, in the order the loops of [build] issue them. *)

Definition destinations_of (u : Uop) : list nat :=
  filter (λ reg, test_bit (intDestinations u) reg = true) (seq 0 NumArchitecturalRegs).

Definition requests (program : Recorder) (chunks : nat) : list (nat * nat) :=
  k ← seq 0 (count program);
  reg ← destinations_of (uop_at program k);
  chunk ← seq 0 chunks;
  [(reg, chunk)].

(** ** Lemmas *)

Lemma foldl_bind {A B S} (f : S → B → S) (g : A → list B) l s :
  foldl f s (l ≫= g) = foldl (λ s x, foldl f s (g x)) s l.
Proof. revert s. induction l as [|x l IH]; intros s; csimpl; [done|]. by rewrite foldl_app, IH. Qed.

Lemma foldl_filter {A S} (p : A → bool) (f : S → A → S) l s :
  foldl (λ s x, if negb (p x) then s else f s x) s l = foldl f s (filter (λ x, p x = true) l).
Proof.
  revert s. induction l as [|x l IH]; intros s; [done|]. rewrite filter_cons. cbn [foldl].
  rewrite IH. by destruct (p x), (decide _).
Qed.

Lemma foldl_ext_fun {A S} (f g : S → A → S) l s : (∀ s x, f s x = g s x) → foldl f s l = foldl g s l.
Proof. intros H. revert s. induction l as [|x l IH]; intros s; cbn; [done|]. by rewrite H, IH. Qed.

Lemma length_bind_le {A B} (g : A → list B) b l :
  (∀ x, (length (g x) <= b)%nat) → (length (l ≫= g) <= length l * b)%nat.
Proof.
  intros H. induction l as [|x l IH]; csimpl; [lia|]. rewrite length_app. specialize (H x). lia.
Qed.

Definition run_requests (s : Table * Z) (l : list (nat * nat)) : Table * Z :=
  foldl (λ s rc, allocate rc.1 rc.2 s) s l.

Definition chunk_count (lanes : Z) : nat := Nat.min NumChunks (Z.to_nat (chunks_of lanes)).

Lemma build_requests t program lanes :
  build t program lanes = run_requests (reset t, 0) (requests program (chunk_count lanes)).
Proof.
  unfold build, run_requests, requests, for_range. rewrite foldl_bind.
  apply foldl_ext_fun. intros s k. unfold build_uop, for_range. rewrite foldl_bind.
  unfold destinations_of. rewrite <- foldl_filter. apply foldl_ext_fun. intros s' reg.
  unfold build_reg. destruct (negb _); [done|]. unfold for_range. rewrite foldl_bind. done.
Qed.

Lemma requests_bounds program chunks :
  wf program → (chunks <= NumChunks)%nat →
  Z.of_nat (length (requests program chunks)) <= 65536 ∧
  ∀ rc, rc ∈ requests program chunks → (rc.1 < NumArchitecturalRegs)%nat ∧ (rc.2 < chunks)%nat.
Proof.
  intros [_ Hc] Hch. split.
  - assert (length (requests program chunks)
            <= length (seq 0 (count program)) * (NumArchitecturalRegs * NumChunks))%nat as H.
    { apply length_bind_le. intros k. etrans; [apply (length_bind_le _ NumChunks)|].
      - intros reg. etrans; [apply (length_bind_le _ 1); intros; done|].
        rewrite length_seq. lia.
      - apply Nat.mul_le_mono_r. unfold destinations_of. etrans; [apply length_filter|].
        by rewrite length_seq. }
    rewrite length_seq in H. unfold MaxUops, NumArchitecturalRegs, NumChunks in *. lia.
  - intros rc Hin. unfold requests in Hin.
    apply list_elem_of_bind in Hin as (k & Hin & _).
    apply list_elem_of_bind in Hin as (reg & Hin & Hreg).
    apply list_elem_of_bind in Hin as (c & Hin & Hcc).
    apply list_elem_of_singleton in Hin as ->. apply elem_of_seq in Hcc.
    unfold destinations_of in Hreg. apply list_elem_of_filter in Hreg as [_ Hreg].
    apply elem_of_seq in Hreg. cbn. lia.
Qed.

Lemma requests_elem program chunks reg c :
  (reg, c) ∈ requests program chunks ↔
  (reg < NumArchitecturalRegs)%nat ∧ (c < chunks)%nat ∧
  ∃ k, (k < count program)%nat ∧ test_bit (intDestinations (uop_at program k)) reg = true.
Proof.
  unfold requests. rewrite list_elem_of_bind. setoid_rewrite list_elem_of_bind.
  setoid_rewrite list_elem_of_bind. setoid_rewrite list_elem_of_singleton.
  unfold destinations_of. setoid_rewrite list_elem_of_filter. setoid_rewrite elem_of_seq.
  split.
  - intros (k & (reg' & (c' & [= <- <-] & ?) & ? & ?) & ?). split_and!; [lia|lia|]. exists k.
    split; [lia|done].
  - intros (? & ? & k & ? & ?). exists k. split; [|lia]. exists reg. split; [|split; [done|lia]].
    exists c. split; [done|lia].
Qed.

(** The table after a list of requests: every mapping is the number of its last request. *)
Definition table_ok (l : list (nat * nat)) (s : Table * Z) : Prop :=
  let '(t, n) := s in
  length (mapping t) = NumArchitecturalRegs ∧
  (∀ reg, (reg < NumArchitecturalRegs)%nat → length (mapping t !!! reg) = NumChunks) ∧
  nextPhysical t = Z.of_nat (length l) ∧ n = Z.of_nat (length l) ∧
  ∀ reg c, (reg < NumArchitecturalRegs)%nat → (c < NumChunks)%nat →
    ((reg, c) ∉ l → map_at t reg c = -1) ∧
    (∀ i, l !! i = Some (reg, c) → (∀ j, (i < j)%nat → l !! j ≠ Some (reg, c)) →
       map_at t reg c = Z.of_nat i mod NumPhysicalRegs).

Lemma table_ok_reset t : table_ok [] (reset t, 0).
Proof.
  unfold table_ok, reset, map_at. cbn [mapping nextPhysical]. split_and!; [done| |done|done|].
  - intros reg Hr. by rewrite lookup_total_replicate_2.
  - intros reg c Hr Hc. split; [|done]. intros _. by rewrite !lookup_total_replicate_2.
Qed.

Lemma table_ok_allocate l reg c s :
  (reg < NumArchitecturalRegs)%nat → (c < NumChunks)%nat → Z.of_nat (length l) < 65536 →
  table_ok l s → table_ok (l ++ [(reg, c)]) (allocate reg c s).
Proof.
  intros Hr Hc Hl. destruct s as [t n]. intros (H1 & H2 & H3 & H4 & H5).
  unfold table_ok, allocate. cbn. rewrite length_insert, length_app. cbn [length].
  rewrite H3, H4. rewrite !inc32_small by lia. split_and!; [done| |lia|lia|].
  - intros reg' Hr'. rewrite lookup_total_insert_case by lia.
    case_bool_decide; subst; [rewrite length_insert|]; auto.
  - intros reg' c' Hr' Hc'. unfold map_at. cbn. rewrite lookup_total_insert_case by lia.
    destruct (decide ((reg', c') = (reg, c))) as [[= -> ->]|Hne].
    + rewrite bool_decide_true by done. rewrite lookup_total_insert_eq by (rewrite H2; lia).
      split; [set_solver|]. intros i Hi Hlast.
      assert (i = length l) as ->; [|done].
      apply lookup_app_Some in Hi as [Hi|[Hi Hi']].
      * exfalso. apply lookup_lt_Some in Hi. apply (Hlast (length l) Hi).
        by apply list_lookup_middle.
      * apply list_lookup_singleton_Some in Hi' as [? _]. lia.
    + assert ((if bool_decide (reg = reg') then <[c:=Z.of_nat (length l) mod NumPhysicalRegs]>
                 (mapping t !!! reg) else mapping t !!! reg') !!! c' = map_at t reg' c') as ->.
      { case_bool_decide; [subst|done]. apply lookup_total_insert_ne. congruence. }
      destruct (H5 reg' c' Hr' Hc') as [Hno Hyes]. split; [set_solver|].
      intros i Hi Hlast. apply lookup_app_Some in Hi as [Hi|[_ Hi]].
      * apply Hyes; [done|]. intros j Hj Hj'. apply (Hlast j Hj).
        by apply lookup_app_l_Some.
      * apply list_lookup_singleton_Some in Hi as [_ ?]. congruence.
Qed.

Lemma table_ok_run t l :
  Z.of_nat (length l) <= 65536 →
  (∀ rc, rc ∈ l → (rc.1 < NumArchitecturalRegs)%nat ∧ (rc.2 < NumChunks)%nat) →
  table_ok l (run_requests (reset t, 0) l).
Proof.
  induction l as [|[reg c] l IH] using rev_ind; intros Hl Hin; [apply table_ok_reset|].
  rewrite length_app in Hl. cbn in Hl. unfold run_requests. rewrite foldl_app.
  destruct (Hin (reg, c)) as [? ?]; [set_solver|].
  apply table_ok_allocate; [done|done|lia|]. apply IH; [lia|]. set_solver.
Qed.

(** A request has a last position. *)
Lemma last_position {A} `{EqDecision A} (l : list A) x :
  x ∈ l → ∃ i, l !! i = Some x ∧ ∀ j, (i < j)%nat → l !! j ≠ Some x.
Proof.
  induction l as [|y l IH] using rev_ind; [by intros ?%elem_of_nil|].
  intros Hin. destruct (decide (x = y)) as [->|Hne].
  - exists (length l). split; [by apply list_lookup_middle|]. intros j Hj H.
    apply lookup_lt_Some in H. rewrite length_app in H. cbn in H. lia.
  - destruct IH as (i & Hi & Hlast); [set_solver|]. exists i.
    split; [by apply lookup_app_l_Some|]. intros j Hj H.
    apply lookup_app_Some in H as [H|[_ H]]; [by apply (Hlast j)|].
    apply list_lookup_singleton_Some in H as [_ ?]. congruence.
Qed.

(** ** Properties *)

(** The rename table maps a register chunk exactly when some recorded uop writes the
    register and the chunk holds lanes; a mapping is a physical register number, distinct
    live chunks get distinct registers as long as no more than 128 were allocated, and the
    returned count is the number of allocations. *)
Theorem build_spec (t : Table) (program : Recorder) (lanes : Z) :
  wf program →
  let '(t', n) := build t program lanes in
  let live reg c := (c < chunk_count lanes)%nat ∧
    ∃ k, (k < count program)%nat ∧ test_bit (intDestinations (uop_at program k)) reg = true in
  n = Z.of_nat (length (requests program (chunk_count lanes))) ∧
  ∀ reg c, (reg < NumArchitecturalRegs)%nat → (c < NumChunks)%nat →
    (live reg c → ∃ v, lookup t' reg c = Some v ∧ 0 <= v < NumPhysicalRegs) ∧
    (¬ live reg c → lookup t' reg c = Some (-1)) ∧
    (n <= NumPhysicalRegs → live reg c → ∀ reg' c', (reg' < NumArchitecturalRegs)%nat →
       (c' < NumChunks)%nat → live reg' c' →
       lookup t' reg c = lookup t' reg' c' → reg = reg' ∧ c = c').
Proof.
  intros Hwf. set (l := requests program (chunk_count lanes)).
  destruct (requests_bounds program (chunk_count lanes) Hwf) as [Hl Hin];
    [unfold chunk_count; lia|]. fold l in Hl, Hin.
  pose proof (table_ok_run t l Hl) as Hok. rewrite build_requests. fold l.
  destruct (run_requests (reset t, 0) l) as [t' n]. destruct Hok as (_ & _ & _ & Hn & Hmap).
  { intros rc Hrc. destruct (Hin rc Hrc). unfold chunk_count in *. lia. }
  assert (∀ reg c, (reg < NumArchitecturalRegs)%nat → (c < NumChunks)%nat →
    lookup t' reg c = Some (map_at t' reg c)) as Hlk.
  { intros reg c Hr Hc. unfold lookup. by rewrite !(proj2 (Nat.ltb_lt _ _)) by done. }
  split; [done|]. intros reg c Hr Hc. rewrite Hlk by done. split_and!.
  - intros [Hch Hk]. destruct (last_position l (reg, c)) as (i & Hi & Hlast);
      [by apply requests_elem|].
    eexists. split; [done|]. rewrite (proj2 (Hmap reg c Hr Hc) i Hi Hlast).
    apply Z.mod_pos_bound. done.
  - intros Hnl. f_equal. apply (Hmap reg c Hr Hc). intros (_ & ?)%requests_elem. by apply Hnl.
  - intros Hsmall [Hch Hk] reg' c' Hr' Hc' [Hch' Hk']. rewrite Hlk by done.
    destruct (last_position l (reg, c)) as (i & Hi & Hlast); [by apply requests_elem|].
    destruct (last_position l (reg', c')) as (i' & Hi' & Hlast'); [by apply requests_elem|].
    rewrite (proj2 (Hmap reg c Hr Hc) i Hi Hlast), (proj2 (Hmap reg' c' Hr' Hc') i' Hi' Hlast').
    pose proof (lookup_lt_Some _ _ _ Hi). pose proof (lookup_lt_Some _ _ _ Hi').
    intros [= E]. unfold NumPhysicalRegs in *. rewrite !Z.mod_small in E by lia.
    assert (i = i') as -> by lia. simplify_eq. done.
Qed.

(** Two loads: into a0, then into a1. *)
Definition two_loads : Recorder :=
  record_all (Recorder.begin
      (plain_inst 1 64 (enc_i 3 3 10 11 8) [] [mkRegId IntRegClass 10] true))
    [(plain_inst 2 68 (enc_i 3 3 11 10 0) [] [mkRegId IntRegClass 11] true, true)].

Lemma two_loads_wf : wf two_loads.
Proof. split; [by vm_compute|apply Nat.leb_le; by vm_compute]. Qed.

Lemma build_spec_witness :
  let '(t', n) := build (mkTable [] 0) two_loads 40 in
  n = 6 ∧ lookup t' 11 2 = Some 5 ∧ lookup t' 10 3 = Some (-1).
Proof.
  pose proof (build_spec (mkTable [] 0) two_loads 40 two_loads_wf) as H.
  destruct (build (mkTable [] 0) two_loads 40) as [t' n] eqn:E. cbv zeta in H.
  destruct H as [Hn H]. split; [rewrite Hn; by vm_compute|]. split.
  { replace t' with (build (mkTable [] 0) two_loads 40).1 by (by rewrite E). by vm_compute. }
  destruct (H 10%nat 3%nat) as (_ & H2 & _);
    [unfold NumArchitecturalRegs; lia|unfold NumChunks; lia|].
  apply H2. intros [Hc _]. apply Nat.ltb_lt in Hc. vm_compute in Hc. discriminate Hc.
Defined.

End Rename.
