(* ===== verification/Vir.v ===== *)
(** * The vector instruction register (VIR): state

    Model of the data of [DVRVectorInstructionRegister] (src/cpu/o3/pre.hh, pre.cc) and of
    the operations its interpreters share: reset, the lane arrays, the windowed fetch and the
    initialisation of a source-response continuation. *)

From S2P Require Import Prelude Inst Uop Recorder.

Module Vir.
Import Uop Recorder.

Definition Lanes : nat := 128.
Definition NumRegs : nat := 32.
Definition ReconvergenceEntries : nat := 8.
#[global] Arguments Lanes : simpl never.
#[global] Arguments NumRegs : simpl never.
#[global] Arguments ReconvergenceEntries : simpl never.

(** [struct ReconvergenceEntry] *)
Record ReconvergenceEntry := mkEntry {
  deferredMask : LaneMask;  deferredPC : Z;  reconvPC : Z;  reconvAlternate : bool
}.

Definition Entry_init : ReconvergenceEntry := mkEntry mask_empty 0 0 false.

#[export] Instance Entry_inhabited : Inhabited ReconvergenceEntry := populate Entry_init.

(** The data members.  [vectorRegs] is indexed by register, then lane;
    [lanePendingReconvergence] by lane, then uop.  [laneStack] is only ever reset. *)
Record Vir := mkVir {
  activeMask : LaneMask;
  stack : list ReconvergenceEntry;
  vectorRegs : list (list Z);
  lanePC : list Z;
  laneActive : list bool;
  laneReady : list bool;
  laneBlocked : list bool;
  lanePendingReconvergence : list (list bool);
  laneWindowStart : list nat;
  laneWindowEnd : list nat;
  laneStackDepth : list Z;
  laneStack : list (list ReconvergenceEntry);
  continuationLanes : nat;
  continuationStopIndex : nat;
  continuationContinuePastFLR : bool;
  continuationInitialized : bool;
  stackDepth : nat;
  issuedChunks : Z;
  executedChunks : Z
}.

#[export] Instance eta_Vir : Eta Vir := λ r,
  mkVir (activeMask r) (stack r) (vectorRegs r) (lanePC r) (laneActive r) (laneReady r)
    (laneBlocked r) (lanePendingReconvergence r) (laneWindowStart r) (laneWindowEnd r)
    (laneStackDepth r) (laneStack r) (continuationLanes r) (continuationStopIndex r)
    (continuationContinuePastFLR r) (continuationInitialized r) (stackDepth r)
    (issuedChunks r) (executedChunks r).

(** [struct Result] *)
Record Result := mkResult {
  activeLanes : Z;
  chunkIssues : Z;
  chunkExecutions : Z;
  divergentBranches : Z;
  reconvergences : Z;
  helperUops : Z;
  normalTerminatedLanes : Z;
  earlyExitLanes : Z;
  externalPathLanes : Z;
  unsupportedSemanticLanes : Z;
  alternatePathUops : Z;
  alternatePathReconvergences : Z;
  pcGroups : Z;
  maxPCGroupLanes : Z;
  unsupportedSemanticPC : Z;
  unsupportedSemanticEncoding : Z;
  unsupportedSemantic : Semantic;
  timedOut : bool;
  stackOverflow : bool;
  unsupportedControlFlow : bool
}.

#[export] Instance eta_Result : Eta Result := λ r,
  mkResult (activeLanes r) (chunkIssues r) (chunkExecutions r) (divergentBranches r)
    (reconvergences r) (helperUops r) (normalTerminatedLanes r) (earlyExitLanes r)
    (externalPathLanes r) (unsupportedSemanticLanes r) (alternatePathUops r)
    (alternatePathReconvergences r) (pcGroups r) (maxPCGroupLanes r)
    (unsupportedSemanticPC r) (unsupportedSemanticEncoding r) (unsupportedSemantic r)
    (timedOut r) (stackOverflow r) (unsupportedControlFlow r).

(** [Result{}]; the semantic 0 is [Unsupported]. *)
Definition Result_init : Result :=
  mkResult 0 0 0 0 0 0 0 0 0 0 0 0 0 0 0 0 Unsupported false false false.

(** [reset] *)
Definition reset : Vir :=
  mkVir mask_empty (replicate ReconvergenceEntries Entry_init)
    (replicate NumRegs (replicate Lanes 0)) (replicate Lanes 0) (replicate Lanes false)
    (replicate Lanes false) (replicate Lanes false) (replicate Lanes (replicate MaxUops false))
    (replicate Lanes 0%nat) (replicate Lanes 0%nat) (replicate Lanes 0)
    (replicate Lanes (replicate ReconvergenceEntries Entry_init))
    0 0 false false 0 0 0.

(** [vectorRegs[reg][lane]] *)
Definition lane_reg (s : Vir) (reg lane : nat) : Z := (vectorRegs s !!! reg) !!! lane.
Definition set_lane_reg (reg lane : nat) (v : Z) (s : Vir) : Vir :=
  s <| vectorRegs ::= λ rs, (<[reg := <[lane := v]> (rs !!! reg)]> rs) |>.

(** [lanePendingReconvergence[lane][k]] *)
Definition pending (s : Vir) (lane k : nat) : bool :=
  (lanePendingReconvergence s !!! lane) !!! k.

(** [lanePendingReconvergence[lane][k] = b] *)
Definition set_pending (lane k : nat) (b : bool) (s : Vir) : Vir :=
  s <| lanePendingReconvergence ::=
         λ ps : list (list bool), (<[lane := <[k := b]> (ps !!! lane)]> ps) |>.

(** [laneValue]; its two assertions are the bounds. *)
Definition laneValue (s : Vir) (reg lane : nat) : option Z :=
  if (reg <? NumRegs)%nat && (lane <? Lanes)%nat then Some (lane_reg s reg lane) else None.

(** [op.source >= 0 ? vectorRegs[op.source][lane] : 0] *)
Definition operand (s : Vir) (source : Z) (lane : nat) : Z :=
  if 0 <=? source then lane_reg s (Z.to_nat source) lane else 0.

(** [if (destination >= 0) vectorRegs[destination][lane] = value] *)
Definition write_dest (destination : Z) (lane : nat) (v : Z) (s : Vir) : Vir :=
  if 0 <=? destination then set_lane_reg (Z.to_nat destination) lane v s else s.

(** The guarded write of a source response. *)
Definition write_source (destination : Z) (lane : nat) (v : Z) (s : Vir) : Vir :=
  if (0 <=? destination) && (destination <? Z.of_nat NumRegs)
  then set_lane_reg (Z.to_nat destination) lane v s else s.

Definition set_lanePC (lane : nat) (p : Z) (s : Vir) : Vir := s <| lanePC ::= <[lane := p]> |>.

(** [laneActive[lane] = false] and the matching bit of [activeMask]. *)
Definition retire (lane : nat) (s : Vir) : Vir :=
  s <| laneActive ::= <[lane := false]> |> <| activeMask ::= λ m, mask_clear m lane |>.

(** The first uop of [p] in [source[lo..hi)]. *)
Definition scan (source : list Uop) (lo hi : nat) (p : Z) : option nat :=
  find_from lo (hi - lo) (λ k, Uop.pc (source !!! k) =? p).

(** Fetch for one lane: its eight-uop window, then a refill from [start] on that moves the
    window. *)
Definition window_end (k size : nat) : nat := Nat.min (k + FrontEndBufferUops) size.

#[global] Arguments window_end : simpl never.

Definition fetch (source : list Uop) (start size lane : nat) (s : Vir) : Vir * option nat :=
  let p := lanePC s !!! lane in
  match scan source (laneWindowStart s !!! lane) (laneWindowEnd s !!! lane) p with
  | Some k => (s, Some k)
  | None =>
      match scan source start size p with
      | Some k =>
          (s <| laneWindowStart ::= <[lane := k]> |>
             <| laneWindowEnd ::= <[lane := window_end k size]> |>, Some k)
      | None => (s, None)
      end
  end.

(** [op_index + 1 < size ? source[op_index + 1].pc : 0] *)
Definition sequential (source : list Uop) (size op_index : nat) : Z :=
  if (op_index + 1 <? size)%nat then Uop.pc (source !!! (op_index + 1)%nat) else 0.

(** The successor of a conditional branch. *)
Definition branch_next (op : Uop) (source : list Uop) (size op_index : nat) (taken : bool) : Z :=
  if taken then branchTargetPC op
  else if negb (fallthroughPC op =? 0) then fallthroughPC op
  else sequential source size op_index.

(** An uop that is neither executed nor control: it only advances the lane. *)
Definition is_skip (op : Uop) : bool :=
  bool_decide (semantic op = Unsupported) && negb (control op) && (intDestinations op =? 0).

(** The classification of an uop the interpreters test in order. *)
Definition is_jump (op : Uop) : bool :=
  control op && negb (conditional op) && negb (branchTargetPC op =? 0).
Definition is_return (op : Uop) : bool :=
  control op && negb (conditional op) && (branchTargetPC op =? 0) && (intDestinations op =? 0).

(** The counters of an uop whose semantics cannot be evaluated. *)
Definition note_unsupported (op : Uop) (r : Result) : Result :=
  let r := r <| unsupportedControlFlow := true |> <| unsupportedSemanticLanes ::= inc32 |> in
  if unsupportedSemanticPC r =? 0
  then r <| unsupportedSemanticPC := Uop.pc op |>
         <| unsupportedSemanticEncoding := encoding op |> <| unsupportedSemantic := semantic op |>
  else r.

Definition note_external (r : Result) : Result :=
  r <| unsupportedControlFlow := true |> <| externalPathLanes ::= inc32 |>.

(** [++helperUops; ++chunkIssues; ++chunkExecutions] *)
Definition count_issue (r : Result) : Result :=
  r <| helperUops ::= inc32 |> <| chunkIssues ::= inc32 |> <| chunkExecutions ::= inc32 |>.

(** Broadcast of the initial registers into a lane. *)
Definition load_lane (initial_regs : list Z) (lane : nat) (s : Vir) : Vir :=
  for_range 0 NumRegs (λ reg, set_lane_reg reg lane (initial_regs !!! reg)) s.

(** The body of the lane loop of [initializeSourceContinuation]. *)
Definition init_lane (entry : Z) (size : nat) (initial_regs : list Z) (lane : nat) (s : Vir)
  : Vir :=
  let s := s <| laneActive ::= <[lane := true]> |> <| laneReady ::= <[lane := false]> |>
             <| laneBlocked ::= <[lane := false]> |> <| lanePC ::= <[lane := entry]> |>
             <| laneWindowStart ::= <[lane := 1%nat]> |>
             <| laneWindowEnd ::= <[lane := window_end 1 size]> |>
             <| activeMask ::= λ m, mask_set m lane |> in
  load_lane initial_regs lane s.

(** [initializeSourceContinuation] *)
Definition initializeSourceContinuation (source : list Uop) (size lanes : nat)
    (initial_regs : list Z) (scalar_count : nat) (continue_past_flr : bool) : Vir :=
  let s := reset <| continuationLanes := Nat.min lanes Lanes |>
             <| continuationStopIndex :=
                  if (1 <? scalar_count)%nat then (scalar_count - 1)%nat else 0%nat |>
             <| continuationContinuePastFLR := continue_past_flr |> in
  if (size <=? 1)%nat || (continuationLanes s =? 0)%nat then s
  else
    for_range 0 (continuationLanes s)
      (init_lane (Uop.pc (source !!! 1%nat)) size initial_regs)
      (s <| continuationInitialized := true |>).

(** ** Well-formedness

    What every reachable continuation satisfies: the arrays keep their C++ extents, the
    reconvergence stack is not over-full, the active mask is the lane array packed into
    words, and a lane's window only holds uops of the template after its trigger. *)
Record vir_wf (size : nat) (s : Vir) : Prop := {
  wf_stack : length (stack s) = ReconvergenceEntries;
  wf_depth : (stackDepth s <= ReconvergenceEntries)%nat;
  wf_regs : length (vectorRegs s) = NumRegs;
  wf_row : ∀ reg, (reg < NumRegs)%nat → length (vectorRegs s !!! reg) = Lanes;
  wf_pc : length (lanePC s) = Lanes;
  wf_active : length (laneActive s) = Lanes;
  wf_ready : length (laneReady s) = Lanes;
  wf_blocked : length (laneBlocked s) = Lanes;
  wf_pending : length (lanePendingReconvergence s) = Lanes;
  wf_pending_row : ∀ l, (l < Lanes)%nat → length (lanePendingReconvergence s !!! l) = MaxUops;
  wf_sdepth : length (laneStackDepth s) = Lanes;
  wf_start : length (laneWindowStart s) = Lanes;
  wf_end : length (laneWindowEnd s) = Lanes;
  wf_lanes : (continuationLanes s <= Lanes)%nat;
  wf_mask : ∀ l, (l < Lanes)%nat → mask_test (activeMask s) l = laneActive s !!! l;
  wf_window : ∀ l k, (l < Lanes)%nat →
    (laneWindowStart s !!! l <= k < laneWindowEnd s !!! l)%nat → (1 <= k < size)%nat
}.

(** ** Frames

    What one lane's step may touch: nothing of another lane and nothing shared. *)
Definition same_lane (l : nat) (s s' : Vir) : Prop :=
  (∀ reg, lane_reg s' reg l = lane_reg s reg l) ∧
  lanePC s' !!! l = lanePC s !!! l ∧
  laneActive s' !!! l = laneActive s !!! l ∧
  laneReady s' !!! l = laneReady s !!! l ∧
  laneBlocked s' !!! l = laneBlocked s !!! l ∧
  (∀ k, pending s' l k = pending s l k) ∧
  laneWindowStart s' !!! l = laneWindowStart s !!! l ∧
  laneWindowEnd s' !!! l = laneWindowEnd s !!! l ∧
  laneStackDepth s' !!! l = laneStackDepth s !!! l ∧
  mask_test (activeMask s') l = mask_test (activeMask s) l.

Definition shared (s : Vir) :=
  (stack s, stackDepth s, laneStack s, (continuationLanes s, continuationStopIndex s,
   continuationContinuePastFLR s, continuationInitialized s), (issuedChunks s, executedChunks s)).

Definition only_lane (lane : nat) (s s' : Vir) : Prop :=
  shared s' = shared s ∧ ∀ l, (l < Lanes)%nat → l ≠ lane → same_lane l s s'.

(** ** Lemmas *)

#[export] Instance same_lane_preorder l : PreOrder (same_lane l).
Proof.
  split; [by intros s; split_and!|].
  intros s1 s2 s3 (A1&A2&A3&A4&A5&A6&A7&A8&A9&A10) (B1&B2&B3&B4&B5&B6&B7&B8&B9&B10).
  split_and!; try congruence; intros; by etrans.
Qed.

#[export] Instance only_lane_preorder lane : PreOrder (only_lane lane).
Proof.
  split; [by intros s; split|]. intros s1 s2 s3 [H1 H2] [H3 H4].
  split; [congruence|]. intros l Hl Hn. etrans; [by apply H2|by apply H4].
Qed.

Lemma scan_Some source lo hi p k :
  scan source lo hi p = Some k →
  (lo <= k < hi)%nat ∧ Uop.pc (source !!! k) = p ∧
  ∀ j, (lo <= j < k)%nat → Uop.pc (source !!! j) ≠ p.
Proof.
  unfold scan. rewrite find_from_Some. intros (? & ?%Z.eqb_eq & Hm). split_and!; [lia|lia|done|].
  intros j Hj. apply Z.eqb_neq. by apply Hm.
Qed.

Lemma scan_None source lo hi p k :
  scan source lo hi p = None → (lo <= k < hi)%nat → Uop.pc (source !!! k) ≠ p.
Proof.
  unfold scan. rewrite find_from_None. intros H Hk. apply Z.eqb_neq. apply H. lia.
Qed.

Lemma lane_reg_set reg lane v s reg' l :
  (l ≠ lane) → lane_reg (set_lane_reg reg lane v s) reg' l = lane_reg s reg' l.
Proof.
  intros Hne. unfold lane_reg, set_lane_reg. cbn.
  destruct (decide (reg < length (vectorRegs s))%nat) as [Hlt|Hge].
  - rewrite lookup_total_insert_case by done. case_bool_decide; [subst|done].
    by apply lookup_total_insert_ne.
  - by rewrite list_insert_ge by lia.
Qed.

Lemma only_set_lane_reg reg lane v s : only_lane lane s (set_lane_reg reg lane v s).
Proof.
  split; [done|]. intros l Hl Hne. split_and!; try done. intros. by apply lane_reg_set.
Qed.

Lemma only_write_dest d lane v s : only_lane lane s (write_dest d lane v s).
Proof. unfold write_dest. case_match; [apply only_set_lane_reg|done]. Qed.

Lemma only_write_source d lane v s : only_lane lane s (write_source d lane v s).
Proof. unfold write_source. case_match; [apply only_set_lane_reg|done]. Qed.

Lemma only_set_lanePC lane p s : only_lane lane s (set_lanePC lane p s).
Proof.
  split; [done|]. intros l Hl Hne. split_and!; try done. by apply lookup_total_insert_ne.
Qed.

Lemma only_retire lane s : (lane < Lanes)%nat → only_lane lane s (retire lane s).
Proof.
  intros Hlane. split; [done|]. intros l Hl Hne. split_and!; try done; cbn.
  - by apply lookup_total_insert_ne.
  - rewrite mask_test_clear by done. by rewrite bool_decide_false.
Qed.

Lemma only_set_pending lane k b s : only_lane lane s (set_pending lane k b s).
Proof.
  split; [done|]. intros l Hl Hne. split_and!; try done. intros j. unfold pending. cbn.
  by rewrite lookup_total_insert_ne.
Qed.

Lemma only_fetch source start size lane s s' found :
  fetch source start size lane s = (s', found) → only_lane lane s s'.
Proof.
  unfold fetch. intros H. repeat case_match; simplify_eq; try reflexivity.
  split; [done|]. intros l Hl Hne. split_and!; try done; by apply lookup_total_insert_ne.
Qed.

#[export] Hint Resolve only_set_lane_reg only_write_dest only_write_source only_set_lanePC
  only_retire only_set_pending : dvr.

(** *** Preservation *)

Lemma wf_reset size : vir_wf size reset.
Proof.
  split; try done; unfold reset; cbn; try lia.
  - intros reg Hr. by rewrite lookup_total_replicate_2.
  - intros l Hl. by rewrite lookup_total_replicate_2.
  - intros l Hl. rewrite lookup_total_replicate_2 by done. apply mask_test_empty.
Qed.

Lemma wf_set_lane_reg size reg lane v s : vir_wf size s → vir_wf size (set_lane_reg reg lane v s).
Proof.
  intros []. split; try done; cbn.
  - by rewrite length_insert.
  - intros reg' Hr'. destruct (decide (reg < NumRegs)%nat) as [Hlt|Hge].
    + rewrite lookup_total_insert_case by congruence.
      case_bool_decide; subst; [rewrite length_insert|]; auto.
    + rewrite list_insert_ge by lia. auto.
Qed.

Lemma wf_write_dest size d lane v s : vir_wf size s → vir_wf size (write_dest d lane v s).
Proof. unfold write_dest. case_match; auto using wf_set_lane_reg. Qed.

Lemma wf_write_source size d lane v s : vir_wf size s → vir_wf size (write_source d lane v s).
Proof. unfold write_source. case_match; auto using wf_set_lane_reg. Qed.

Lemma wf_set_lanePC size lane p s : vir_wf size s → vir_wf size (set_lanePC lane p s).
Proof. intros []. split; try done; cbn. by rewrite length_insert. Qed.

Lemma wf_retire size lane s : (lane < Lanes)%nat → vir_wf size s → vir_wf size (retire lane s).
Proof.
  intros Hl []. split; try done; cbn.
  - by rewrite length_insert.
  - intros l Hl'. rewrite mask_test_clear, lookup_total_insert_case, wf_mask0 by (done || lia).
    by case_bool_decide.
Qed.

Lemma wf_set_pending size lane k b s : vir_wf size s → vir_wf size (set_pending lane k b s).
Proof.
  intros []. split; try done; cbn; [by rewrite length_insert|].
  intros l Hl. destruct (decide (lane < Lanes)%nat).
  - rewrite lookup_total_insert_case by lia. case_bool_decide; subst; rewrite ?length_insert; auto.
  - rewrite list_insert_ge by lia. auto.
Qed.

Lemma wf_depth_update size lane d s :
  vir_wf size s → vir_wf size (s <| laneStackDepth ::= <[lane := d]> |>).
Proof. intros []. split; try done; cbn. by rewrite length_insert. Qed.

(** A fetched uop is one of the template, at the lane's PC. *)
Lemma fetch_wf source start size lane s s' found :
  (1 <= start)%nat → (lane < Lanes)%nat → vir_wf size s →
  fetch source start size lane s = (s', found) →
  vir_wf size s' ∧ lanePC s' = lanePC s ∧ laneActive s' = laneActive s ∧
  (∀ k, found = Some k → (1 <= k < size)%nat ∧ Uop.pc (source !!! k) = lanePC s !!! lane) ∧
  (found = None → s' = s ∧ ∀ k, (start <= k < size)%nat → Uop.pc (source !!! k) ≠ lanePC s !!! lane).
Proof.
  unfold fetch. intros Hst Hlane Hwf H.
  destruct (scan source (laneWindowStart s !!! lane) _ _) as [k|] eqn:E1.
  - injection H as <- <-. split_and!; try done. intros k' [= <-].
    apply scan_Some in E1 as (Hk & Hp & _). split; [|done]. by eapply wf_window.
  - destruct (scan source start size _) as [k|] eqn:E2; injection H as <- <-.
    + apply scan_Some in E2 as (Hk & Hp & _). split_and!; try done.
      2: { intros k' [= <-]. split; [lia|done]. }
      destruct Hwf. split; try done; cbn; rewrite ?length_insert; try done.
      intros l j Hl. rewrite !lookup_total_insert_case by lia. case_bool_decide; [|by apply wf_window0].
      unfold window_end. intros ?. lia.
    + split_and!; try done. intros _. split; [done|]. intros k Hk. by eapply scan_None.
Qed.

Lemma wf_load_lane size regs lane s : vir_wf size s → vir_wf size (load_lane regs lane s).
Proof. intros H. apply (for_range_inv (vir_wf size)); [done|]. intros. by apply wf_set_lane_reg. Qed.

Lemma wf_init_lane entry size regs lane s :
  (lane < Lanes)%nat → vir_wf size s → vir_wf size (init_lane entry size regs lane s).
Proof.
  intros Hl Hwf. apply wf_load_lane. destruct Hwf.
  split; cbn; rewrite ?length_insert; try done.
  - intros l Hl'. rewrite mask_test_set, lookup_total_insert_case, wf_mask0 by (done || lia).
    by case_bool_decide.
  - intros l k Hl'. rewrite !lookup_total_insert_case by lia. case_bool_decide; [|by apply wf_window0].
    unfold window_end. intros Hk. lia.
Qed.

(** A freshly initialised continuation is well formed. *)
Lemma wf_initialize source size lanes regs sc past :
  vir_wf size (initializeSourceContinuation source size lanes regs sc past).
Proof.
  unfold initializeSourceContinuation. set (s := _ <| continuationContinuePastFLR := _ |>).
  assert (vir_wf size s) as Hs.
  { destruct (wf_reset size). split; try done. cbn. lia. }
  assert (continuationLanes s <= Lanes)%nat as Hl by apply Hs.
  cbv zeta. case_match; [done|]. apply (for_range_inv (vir_wf size)).
  - destruct Hs. by split.
  - intros. apply wf_init_lane; [lia|done].
Qed.

#[global] Arguments set_lanePC : simpl never.
#[global] Arguments set_lane_reg : simpl never.
#[global] Arguments set_pending : simpl never.
#[global] Arguments write_dest : simpl never.
#[global] Arguments write_source : simpl never.
#[global] Arguments retire : simpl never.
#[global] Arguments operand : simpl never.
#[global] Arguments count_issue : simpl never.
#[global] Arguments note_unsupported : simpl never.
#[global] Arguments note_external : simpl never.
#[global] Arguments sequential : simpl never.
#[global] Arguments branch_next : simpl never.

(** *** Operands of recorded instructions *)

Lemma decode_wide_blt u :
  Z.land (encoding u) 127 = 99 → field (encoding u) 12 7 = 4 →
  decode_wide u = u <| semantic := BranchSignedLess |>.
Proof.
  intros E1 E2. unfold decode_wide, decode_upper, decode_register, decode_op_imm,
    decode_load_branch. by rewrite E1, E2.
Qed.

Lemma decode_wide_sub u :
  Z.land (encoding u) 127 = 51 → field (encoding u) 12 7 = 0 → field (encoding u) 25 127 = 32 →
  decode_wide u = u <| semantic := Sub |>.
Proof.
  intros E1 E2 E3. unfold decode_wide, decode_upper, decode_register. by rewrite E1, E2, E3.
Qed.

(** Only the second operand survives when the first is x0. *)
Lemma x0_sources n rest :
  (0 < n < 32)%nat →
  dvrFirstIntRegister (riscv_int_operand 0 :: riscv_int_operand n :: rest) 0 = Z.of_nat n ∧
  dvrFirstIntRegister [riscv_int_operand 0; riscv_int_operand n] 1 = -1.
Proof.
  intros Hn. unfold riscv_int_operand. cbn [Nat.eqb]. destruct (Nat.eqb_spec n 0); [lia|].
  assert (dvr_int_operand (mkRegId IntRegClass n) = true) as E.
  { unfold dvr_int_operand. cbn [is_int_class classValue index].
    apply andb_true_iff. split; [done|apply Nat.ltb_lt; lia]. }
  cbn [dvrFirstIntRegister]. rewrite E. done.
Qed.

(** ** Properties *)

(** X0 is not an operand of a recorded uop, so the other operand takes its place.  The
    replay of [sub rd, x0, rs] (that is, [neg rd, rs]) copies [rs] instead of negating it,
    and the replay of [blt x0, rs, L] (that is, [bgtz rs, L]) tests [rs < 0] instead of
    [0 < rs]. *)
Theorem x0_operand_dropped (rd rs : nat) (a : Z) (f7 : Z) (t : bool) (s : Vir) (lane : nat) :
  (rd < 32)%nat → (0 < rs < 32)%nat → 0 <= f7 < 128 → is_u64 (lane_reg s rs lane) →
  let v := lane_reg s rs lane in
  let replay u := evaluate u (operand s (source0 u) lane) (operand s (source1 u) lane) in
  let branch u := evaluateBranch u (operand s (source0 u) lane) (operand s (source1 u) lane) in
  let srcs := [riscv_int_operand 0; riscv_int_operand rs] in
  let neg := encoded_inst a (enc_r 51 0 32 (Z.of_nat rd) 0 (Z.of_nat rs)) srcs
               [riscv_int_operand rd] in
  let bgtz := encoded_inst a (enc_r 99 4 f7 (Z.of_nat rd) 0 (Z.of_nat rs)) srcs [] in
  replay (fill_uop Uop_init neg t) = Some v ∧
  branch (fill_uop Uop_init bgtz t) = Some (s64 v <? 0) ∧
  (v ≠ 0 → v ≠ 2 ^ 63 → v ≠ u64 (0 - v)).
Proof.
  intros Hrd Hrs Hf7 Hv v replay branch srcs neg bgtz.
  destruct (x0_sources rs [] Hrs) as [X0 X1].
  split_and!.
  - destruct (enc_r_fields 51 0 32 (Z.of_nat rd) 0 (Z.of_nat rs)) as (E0&E1&E2&E3&E4); [lia..|].
    unfold replay, neg, fill_uop. cbv zeta. set (e := enc_r _ _ _ _ _ _) in *. clearbody e.
    change (isDirectCtrl (staticInst (encoded_inst a e _ _))) with false. cbv iota.
    rewrite decode_encoded_wide by done. rewrite decode_wide_sub by done.
    unfold evaluate. cbn -[dvrFirstIntRegister]. unfold inst_srcs. cbn -[dvrFirstIntRegister].
    unfold srcs. rewrite X0, X1.
    unfold operand. destruct (Z.leb_spec 0 (Z.of_nat rs)); [|lia]. rewrite Nat2Z.id. cbn.
    f_equal. rewrite Z.sub_0_r. by apply u64_small.
  - destruct (enc_r_fields 99 4 f7 (Z.of_nat rd) 0 (Z.of_nat rs)) as (E0&E1&E2&E3&E4); [lia..|].
    unfold branch, bgtz, fill_uop. cbv zeta. set (e := enc_r _ _ _ _ _ _) in *. clearbody e.
    change (isDirectCtrl (staticInst (encoded_inst a e _ _))) with false. cbv iota.
    rewrite decode_encoded_wide by done. rewrite decode_wide_blt by done.
    unfold evaluateBranch. cbn -[dvrFirstIntRegister]. unfold inst_srcs.
    cbn -[dvrFirstIntRegister]. unfold srcs. rewrite X0, X1.
    unfold operand. destruct (Z.leb_spec 0 (Z.of_nat rs)); [|lia]. by rewrite Nat2Z.id.
  - intros H0 H63 E. unfold is_u64, u64 in *. fold v in Hv.
    assert ((0 - v) mod 2 ^ 64 = 2 ^ 64 - v) as E'.
    { replace (0 - v) with (2 ^ 64 - v + (-1) * 2 ^ 64) by lia. rewrite Z_mod_plus_full.
      apply Z.mod_small. lia. }
    lia.
Qed.

Lemma x0_operand_dropped_witness :
  let s := set_lane_reg 11 0 5 reset in
  let i := encoded_inst 64 (enc_r 51 0 32 10 0 11)
             [riscv_int_operand 0; riscv_int_operand 11] [riscv_int_operand 10] in
  let u := fill_uop Uop_init i true in
  evaluate u (operand s (source0 u) 0) (operand s (source1 u) 0) = Some 5.
Proof.
  assert (lane_reg (set_lane_reg 11 0 5 reset) 11 0 = 5) as E by by vm_compute.
  assert (is_u64 (lane_reg (set_lane_reg 11 0 5 reset) 11 0)) as H
    by (rewrite E; unfold is_u64; lia).
  pose proof (x0_operand_dropped 10 11 64 0 true (set_lane_reg 11 0 5 reset) 0
    ltac:(lia) ltac:(lia) ltac:(lia) H) as [T _].
  cbv zeta in T |- *. rewrite E in T. exact T.
Defined.

End Vir.
