(* ===== verification/VirLane.v ===== *)
(** * Resuming one lane from its source response

    Model of [DVRVectorInstructionRegister::resumeSourceLane] (src/cpu/o3/pre.cc): the
    interpreter that runs a single lane of a continuation over the captured template. *)

From S2P Require Import Prelude Inst Uop Recorder Vir.

Module VirLane.
Import Uop Recorder Vir.

(** The interpreter's state: the VIR and the result being filled. *)
Definition St : Type := Vir * Result.

Section Lane.
Context (source : list Uop) (size lane : nat).

(** [if (lanePendingReconvergence[lane][op_index]) { ... }] *)
Definition take_pending (op_index : nat) (st : St) : St :=
  let '(s, r) := st in
  if pending s lane op_index then
    ((set_pending lane op_index false s)
       <| laneStackDepth ::= λ ds : list Z,
            if ds !!! lane =? 0 then ds else (<[lane := u8 (ds !!! lane - 1)]> ds) |>,
     r <| reconvergences ::= inc32 |> <| alternatePathReconvergences ::= inc32 |>)
  else st.

(** The first uop of the reconvergence PC is marked pending for this lane. *)
Definition mark_pending (op : Uop) (next : Z) (s : Vir) : Vir :=
  let captured_target := if branchTaken op then branchTargetPC op else fallthroughPC op in
  if negb (next =? captured_target) && negb (reconvergencePC op =? 0) then
    match scan source 1 size (reconvergencePC op) with
    | Some k => set_pending lane k true s
    | None => s
    end
  else s.

(** [taken], and what a tainted branch without an evaluable predicate records. *)
Definition resolve_taken (op : Uop) (lhs rhs : Z) (r : Result) : bool * Result :=
  if tainted op then
    match evaluateBranch op lhs rhs with
    | Some t => (t, r)
    | None => (Bool.eqb (negb (lhs =? 0)) (branchTaken op), note_external r)
    end
  else (branchTaken op, r).

(** How a control transfer to [next] ends the lane, if it does. *)
Definition after_control (next : Z) (st : St) : St * Flow :=
  let '(s, r) := st in
  if next =? 0 then ((retire lane s, r <| earlyExitLanes ::= inc32 |>), Break)
  else if next =? Uop.pc (source !!! 0%nat)
       then ((retire lane s, r <| normalTerminatedLanes ::= inc32 |>), Break)
       else (st, Continue).

(** [op.conditional] *)
Definition step_conditional (op : Uop) (op_index : nat) (lhs rhs : Z) (st : St) : St * Flow :=
  let '(s, r) := st in
  let '(taken, r) := resolve_taken op lhs rhs r in
  let next := branch_next op source size op_index taken in
  let s := mark_pending op next s in
  after_control next (set_lanePC lane next s, count_issue r).

(** A direct unconditional jump. *)
Definition step_jump (op : Uop) (st : St) : St * Flow :=
  let '(s, r) := st in
  let s := mark_pending op (branchTargetPC op) s in
  after_control (branchTargetPC op) (set_lanePC lane (branchTargetPC op) s, count_issue r).

(** An uop that only advances the lane. *)
Definition step_skip (op_index : nat) (st : St) : St * Flow :=
  let '(s, r) := st in
  let next := sequential source size op_index in
  let s := set_lanePC lane next s in
  let r := count_issue r in
  if next =? 0 then ((retire lane s, r <| normalTerminatedLanes ::= inc32 |>), Break)
  else ((s, r), Continue).

(** An evaluated uop. *)
Definition step_value (op : Uop) (op_index : nat) (v : Z) (st : St) : St * Flow :=
  let '(s, r) := st in
  let next := sequential source size op_index in
  let s := set_lanePC lane next (write_dest (destination op) lane v s) in
  let r := count_issue r in
  if next =? 0 then ((retire lane s, r <| normalTerminatedLanes ::= inc32 |>), Break)
  else if negb (continuationContinuePastFLR s) && (op_index =? continuationStopIndex s)%nat
       then ((retire lane (set_lanePC lane 0 s), r <| normalTerminatedLanes ::= inc32 |>), Break)
       else ((s, r), Continue).

(** No captured uop has the lane's PC. *)
Definition step_no_uop (st : St) : St * Flow :=
  let '(s, r) := st in
  let p := lanePC s !!! lane in
  if p =? Uop.pc (source !!! 0%nat)
  then ((retire lane s, r <| normalTerminatedLanes ::= inc32 |>), Break)
  else ((retire lane s, if p =? 0 then r else note_external r), Break).

(** One uop of the lane. *)
Definition step_uop (op_index : nat) (st : St) : St * Flow :=
  let op := source !!! op_index in
  let st := take_pending op_index st in
  let lhs := operand st.1 (source0 op) lane in
  let rhs := operand st.1 (source1 op) lane in
  if conditional op then step_conditional op op_index lhs rhs st
  else if is_jump op then step_jump op st
  else if is_return op
       then ((retire lane st.1, st.2 <| normalTerminatedLanes ::= inc32 |>), Break)
  else if is_skip op then step_skip op_index st
  else match evaluate op lhs rhs with
  | None => ((retire lane st.1, note_unsupported op st.2), Break)
  | Some v => step_value op op_index v st
  end.

(** The body of the loop. *)
Definition step_lane (st : St) : St * Flow :=
  let '(s, found) := fetch source 1 size lane st.1 in
  match found with
  | None => step_no_uop (s, st.2)
  | Some op_index => step_uop op_index (s, st.2)
  end.

(** The function around the loop. *)
Definition resume_with (step : St → St * Flow) (source_destination source_value : Z)
    (max_helper_uops : nat) (s : Vir) : St :=
  let r := Result_init in
  if negb (continuationInitialized s) || (size <=? 1)%nat || (continuationLanes s <=? lane)%nat
     || negb (laneActive s !!! lane) || (max_helper_uops =? 0)%nat then (s, r)
  else
    let r := r <| activeLanes := 1 |> in
    let s := write_source source_destination lane source_value s in
    let '((s, r), _) := run_loop max_helper_uops step (s, r) in
    if (Z.of_nat max_helper_uops <=? helperUops r) && laneActive s !!! lane
    then (s, r <| timedOut := true |>) else (s, r).

(** [resumeSourceLane] *)
Definition resumeSourceLane : Z → Z → nat → Vir → St := resume_with step_lane.
End Lane.

(** ** Specification

    The lane without its fetch window: the next uop is the first one after the trigger that
    has the lane's PC. *)

Definition step_lane_ref (source : list Uop) (size lane : nat) (st : St) : St * Flow :=
  match scan source 1 size (lanePC st.1 !!! lane) with
  | None => step_no_uop source lane st
  | Some op_index => step_uop source size lane op_index st
  end.

Definition resume_ref (source : list Uop) (size lane : nat) : Z → Z → nat → Vir → St :=
  resume_with size lane (step_lane_ref source size lane).

(** The VIR with its windows forgotten. *)
Definition no_window (s : Vir) : Vir := s <| laneWindowStart := [] |> <| laneWindowEnd := [] |>.

(** No two uops after the trigger have the same PC. *)
Definition distinct_pcs (source : list Uop) (size : nat) : Prop :=
  ∀ j k, (1 <= j < size)%nat → (1 <= k < size)%nat →
    Uop.pc (source !!! j) = Uop.pc (source !!! k) → j = k.

(** ** Lemmas *)

(** A predicate preserved by everything a lane may do is preserved by its step. *)
Section Closed.
Context (source : list Uop) (size lane : nat) (P : Vir → Prop).
Hypothesis P_pc : ∀ p s, P s → P (set_lanePC lane p s).
Hypothesis P_retire : ∀ s, P s → P (retire lane s).
Hypothesis P_dest : ∀ d v s, P s → P (write_dest d lane v s).
Hypothesis P_pending : ∀ k b s, P s → P (set_pending lane k b s).
Hypothesis P_depth : ∀ d s, P s → P (s <| laneStackDepth ::= <[lane := d]> |>).
Hypothesis P_fetch : ∀ s s' found, P s → fetch source 1 size lane s = (s', found) → P s'.

Lemma closed_take_pending k st : P st.1 → P (take_pending lane k st).1.
Proof.
  destruct st as [s r]. unfold take_pending. cbn [fst]. intros H. case_match; [|done]. cbn [fst].
  apply (P_pending k false) in H. set (s1 := set_pending lane k false s) in *. clearbody s1.
  destruct (laneStackDepth s1 !!! lane =? 0) eqn:E.
  - destruct s1. cbn in *. by rewrite E.
  - apply (P_depth (u8 (laneStackDepth s1 !!! lane - 1))) in H. destruct s1. cbn in *.
    by rewrite E.
Qed.

Lemma closed_mark_pending op next s : P s → P (mark_pending source size lane op next s).
Proof. unfold mark_pending. cbv zeta. intros H. repeat case_match; auto. Qed.

Lemma closed_after_control next st : P st.1 → P (after_control source lane next st).1.1.
Proof. destruct st. unfold after_control. cbn. intros H. repeat case_match; cbn; auto. Qed.

Lemma closed_step st : P st.1 → P (step_lane source size lane st).1.1.
Proof.
  destruct st as [s0 r0]. unfold step_lane. cbn [fst snd]. intros H0.
  destruct (fetch _ _ _ _ _) as [s found] eqn:E. apply P_fetch in E; [|done].
  destruct found as [k|]; [|unfold step_no_uop; repeat case_match; cbn; auto].
  unfold step_uop. pose proof (closed_take_pending k (s, r0) E) as H.
  destruct (take_pending lane k (s, r0)) as [s1 r1]. cbn [fst snd] in H |- *.
  destruct (conditional _).
  { unfold step_conditional. destruct (resolve_taken _ _ _ _) as [t r2].
    apply closed_after_control. cbn [fst]. by apply P_pc, closed_mark_pending. }
  destruct (is_jump _).
  { unfold step_jump. apply closed_after_control. cbn [fst]. by apply P_pc, closed_mark_pending. }
  destruct (is_return _); [cbn; auto|].
  destruct (is_skip _); [unfold step_skip; case_match; cbn; auto|].
  destruct (evaluate _ _ _) as [v|]; [|cbn; auto].
  unfold step_value. repeat case_match; cbn; auto.
Qed.

Lemma closed_resume d v n s : (∀ d v s, P s → P (write_source d lane v s)) →
  P s → P (resumeSourceLane source size lane d v n s).1.
Proof.
  intros P_source H. unfold resumeSourceLane, resume_with. destruct (_ || _); [done|].
  pose proof (run_loop_inv (λ st : St, P st.1) n (step_lane source size lane)
    (write_source d lane v s, Result_init <| activeLanes := 1 |>)) as HL.
  destruct (run_loop _ _ _) as [[s' r'] f]. cbn in HL. destruct (_ && _); cbn.
  - apply HL; [by apply P_source|apply closed_step].
  - apply HL; [by apply P_source|apply closed_step].
Qed.
End Closed.

Lemma only_depth lane d s : only_lane lane s (s <| laneStackDepth ::= <[lane := d]> |>).
Proof.
  split; [done|]. intros l Hl Hne. split_and!; try done. by apply lookup_total_insert_ne.
Qed.

Lemma wf_resume source size lane d v n s :
  (lane < Lanes)%nat → vir_wf size s → vir_wf size (resumeSourceLane source size lane d v n s).1.
Proof.
  intros Hl Hwf. apply closed_resume;
    eauto using wf_set_lanePC, wf_retire, wf_write_dest, wf_set_pending, wf_depth_update,
      wf_write_source.
  intros s1 s2 found H1 H2. by eapply (fetch_wf _ _ _ _ _ _ _) in H2 as (? & _).
Qed.

(** *** Accounting *)

(** The counters of a lane that is still running after [h] uops. *)
Definition acct (r : Result) :=
  (helperUops r, chunkIssues r, chunkExecutions r,
   (normalTerminatedLanes r, earlyExitLanes r, timedOut r)).

Definition running (r : Result) (h : Z) : Prop := acct r = (h, h, h, (0, 0, false)).

(** Why a lane left the machine. *)
Definition ended (lane : nat) (s : Vir) (r : Result) : Prop :=
  laneActive s !!! lane = false ∧ timedOut r = false ∧
  (normalTerminatedLanes r = 1 ∧ earlyExitLanes r = 0 ∨
   normalTerminatedLanes r = 0 ∧ earlyExitLanes r = 1 ∨
   normalTerminatedLanes r = 0 ∧ earlyExitLanes r = 0 ∧
     (unsupportedControlFlow r = true ∨ lanePC s !!! lane = 0)).

Definition issued (r : Result) (h : Z) : Prop :=
  helperUops r = h ∧ chunkIssues r = h ∧ chunkExecutions r = h.

(** What one step leaves behind. *)
Definition step_post (lane : nat) (s : Vir) (h : Z) (res : St * Flow) : Prop :=
  let '((s', r'), f) := res in
  match f with
  | Continue => running r' (h + 1) ∧ laneActive s' = laneActive s
  | Break => ended lane s' r' ∧ (issued r' h ∨ issued r' (h + 1))
  | Return => False
  end.

Lemma take_pending_acct lane k st :
  acct (take_pending lane k st).2 = acct st.2 ∧
  laneActive (take_pending lane k st).1 = laneActive st.1 ∧
  lanePC (take_pending lane k st).1 = lanePC st.1.
Proof. destruct st as [s r]. unfold take_pending. case_match; done. Qed.

Lemma mark_pending_active source size lane op next s :
  laneActive (mark_pending source size lane op next s) = laneActive s.
Proof. unfold mark_pending. cbv zeta. by repeat case_match. Qed.

Lemma write_dest_active d lane v s : laneActive (write_dest d lane v s) = laneActive s.
Proof. unfold write_dest. by case_match. Qed.

Lemma write_source_active d lane v s : laneActive (write_source d lane v s) = laneActive s.
Proof. unfold write_source. by case_match. Qed.

Lemma resolve_taken_acct op lhs rhs r : acct (resolve_taken op lhs rhs r).2 = acct r.
Proof. unfold resolve_taken. by repeat case_match. Qed.

Lemma retire_inactive lane s :
  (lane < length (laneActive s))%nat → laneActive (retire lane s) !!! lane = false.
Proof. intros. unfold retire. cbn. by apply lookup_total_insert_eq. Qed.

Lemma acct_issue r h :
  running r h → 0 <= h < 2 ^ 32 - 1 → running (count_issue r) (h + 1).
Proof.
  unfold running, acct, count_issue. cbn. intros [= -> -> -> -> -> ->] Hh.
  by rewrite !inc32_small by lia.
Qed.

(** The three ways to finish from a running state. *)
Lemma ended_normal lane s r h :
  (lane < length (laneActive s))%nat → running r h →
  ended lane (retire lane s) (r <| normalTerminatedLanes ::= inc32 |>) ∧
  issued (r <| normalTerminatedLanes ::= inc32 |>) h.
Proof.
  intros Hl [= E1 E2 E3 E4 E5 E6]. split; [|done]. split; [by apply retire_inactive|].
  split; [done|]. left. cbn. by rewrite E4, E5.
Qed.

Lemma ended_early lane s r h :
  (lane < length (laneActive s))%nat → running r h →
  ended lane (retire lane s) (r <| earlyExitLanes ::= inc32 |>) ∧
  issued (r <| earlyExitLanes ::= inc32 |>) h.
Proof.
  intros Hl [= E1 E2 E3 E4 E5 E6]. split; [|done]. split; [by apply retire_inactive|].
  split; [done|]. right; left. cbn. by rewrite E4, E5.
Qed.

Lemma ended_other lane s r r' h :
  (lane < length (laneActive s))%nat → running r h → acct r' = acct r →
  unsupportedControlFlow r' = true ∨ lanePC s !!! lane = 0 →
  ended lane (retire lane s) r' ∧ issued r' h.
Proof.
  intros Hl Hr Ha Hwhy. unfold running in Hr. rewrite Hr in Ha. injection Ha as E1 E2 E3 E4 E5 E6.
  split; [|done]. split; [by apply retire_inactive|]. split; [done|]. by right; right.
Qed.

Lemma after_control_post source lane s0 s r next h :
  (lane < length (laneActive s))%nat → laneActive s = laneActive s0 → running r (h + 1) →
  step_post lane s0 h (after_control source lane next (s, r)).
Proof.
  intros Hl Ha Hr. unfold after_control, step_post.
  destruct (next =? 0); [destruct (ended_early lane s r _ Hl Hr); auto|].
  destruct (next =? _); [destruct (ended_normal lane s r _ Hl Hr); auto|]. done.
Qed.

Lemma step_uop_post source size lane k s r h :
  (lane < length (laneActive s))%nat → running r h → 0 <= h < 2 ^ 32 - 1 →
  step_post lane s h (step_uop source size lane k (s, r)).
Proof.
  intros Hl Hr Hh. unfold step_uop.
  pose proof (take_pending_acct lane k (s, r)) as (H1 & H2 & _).
  destruct (take_pending lane k (s, r)) as [s1 r1]. cbn [fst snd] in *.
  assert (running r1 h) as Hr1 by (unfold running in *; congruence).
  pose proof (acct_issue r1 h Hr1 Hh) as Hi. rewrite <- H2 in Hl.
  destruct (conditional _).
  { unfold step_conditional. pose proof (resolve_taken_acct (source !!! k)
      (operand s1 (source0 (source !!! k)) lane) (operand s1 (source1 (source !!! k)) lane) r1).
    destruct (resolve_taken _ _ _ _) as [t r2]. cbn [snd] in *.
    apply after_control_post; [| |apply acct_issue; [unfold running in *; congruence|done]];
      unfold set_lanePC; cbn; rewrite mark_pending_active; congruence. }
  destruct (is_jump _).
  { unfold step_jump. apply after_control_post; [| |done]; unfold set_lanePC; cbn;
      rewrite mark_pending_active; congruence. }
  destruct (is_return _).
  { destruct (ended_normal lane s1 r1 h Hl Hr1). split; auto. }
  destruct (is_skip _).
  { unfold step_skip. case_match.
    - edestruct (ended_normal lane (set_lanePC lane (sequential source size k) s1)); [done..|].
      split; eauto.
    - split; [done|]. done. }
  destruct (evaluate _ _ _) as [v|].
  - unfold step_value. set (s2 := set_lanePC _ _ _).
    assert (laneActive s2 = laneActive s1) as H by (unfold s2, set_lanePC; cbn;
      apply write_dest_active). clearbody s2. rewrite <- H in Hl.
    case_match; [|case_match].
    + edestruct (ended_normal lane s2); [done..|]. split; eauto.
    + edestruct (ended_normal lane (set_lanePC lane 0 s2)); [done..|]. split; eauto.
    + split; [done|congruence].
  - edestruct (ended_other lane s1 r1 (note_unsupported (source !!! k) r1)); [done..| | |].
    + unfold note_unsupported. by case_match.
    + left. unfold note_unsupported. by case_match.
    + split; eauto.
Qed.

Lemma step_lane_post source size lane s r h :
  (lane < Lanes)%nat → vir_wf size s → running r h → 0 <= h < 2 ^ 32 - 1 →
  step_post lane s h (step_lane source size lane (s, r)).
Proof.
  intros Hl Hwf Hr Hh. unfold step_lane. cbn [fst snd].
  destruct (fetch source 1 size lane s) as [s1 found] eqn:E.
  destruct (fetch_wf source 1 size lane s s1 found ltac:(lia) Hl Hwf E) as (Hwf1 & Hp & Ha & _ & Hn).
  assert (lane < length (laneActive s1))%nat as Hl1 by (by rewrite (wf_active _ _ Hwf1)).
  destruct found as [k|].
  - pose proof (step_uop_post source size lane k s1 r h Hl1 Hr Hh) as H. unfold step_post in *.
    destruct (step_uop _ _ _ _ _) as [[s' r'] []]; [|done|done]. by rewrite <- Ha.
  - destruct (Hn eq_refl) as [-> _]. unfold step_no_uop, step_post.
    destruct (lanePC s !!! lane =? Uop.pc (source !!! 0%nat)).
    + destruct (ended_normal lane s r h Hl1 Hr). split; auto.
    + edestruct (ended_other lane s r (if lanePC s !!! lane =? 0 then r else note_external r));
        [done|done| | |split; eauto].
      * by case_match.
      * destruct (Z.eqb_spec (lanePC s !!! lane) 0); [by right|by left].
Qed.
(** *** The window is an optimisation *)

Definition nw (st : St) : St := (no_window st.1, st.2).
Definition nw_res (res : St * Flow) : St * Flow := (nw res.1, res.2).

Lemma nw_take_pending lane k st : take_pending lane k (nw st) = nw (take_pending lane k st).
Proof.
  destruct st as [s r]. unfold take_pending, nw. cbn [fst snd].
  change (pending (no_window s) lane k) with (pending s lane k). by case_match.
Qed.

Lemma nw_mark_pending source size lane op next s :
  mark_pending source size lane op next (no_window s)
  = no_window (mark_pending source size lane op next s).
Proof. unfold mark_pending. cbv zeta. by repeat case_match. Qed.

Lemma nw_after_control source lane next st :
  after_control source lane next (nw st) = nw_res (after_control source lane next st).
Proof. destruct st as [s r]. unfold after_control, nw. cbn [fst snd]. by repeat case_match. Qed.

Lemma nw_write_dest d lane v s : write_dest d lane v (no_window s) = no_window (write_dest d lane v s).
Proof. unfold write_dest. by case_match. Qed.

Lemma nw_write_source d lane v s :
  write_source d lane v (no_window s) = no_window (write_source d lane v s).
Proof. unfold write_source. by case_match. Qed.

Local Ltac fold_nw :=
  match goal with
  | |- after_control _ _ _ (?x, ?y) = nw_res (after_control _ _ _ (?x', _)) =>
      change (x, y) with (nw (x', y)); apply nw_after_control
  end.

Lemma nw_step_uop source size lane k st :
  step_uop source size lane k (nw st) = nw_res (step_uop source size lane k st).
Proof.
  unfold step_uop. rewrite nw_take_pending. destruct (take_pending lane k st) as [s r].
  unfold nw at 1 2 3 4 5 6 7. cbn [fst snd].
  change (operand (no_window s)) with (operand s).
  destruct (conditional _).
  { unfold step_conditional, nw. cbn [fst snd]. destruct (resolve_taken _ _ _ _) as [t r'].
    rewrite nw_mark_pending. fold_nw. }
  destruct (is_jump _).
  { unfold step_jump, nw. cbn [fst snd]. rewrite nw_mark_pending.
    fold_nw. }
  destruct (is_return _); [done|].
  destruct (is_skip _); [unfold step_skip, nw; cbn [fst snd]; by case_match|].
  destruct (evaluate _ _ _) as [v|]; [|done].
  unfold step_value, nw. cbn [fst snd]. rewrite nw_write_dest.
  set (s2 := write_dest _ _ _ _). clearbody s2. cbv zeta.
  change (continuationContinuePastFLR (set_lanePC lane (sequential source size k) (no_window s2)))
    with (continuationContinuePastFLR (set_lanePC lane (sequential source size k) s2)).
  change (continuationStopIndex (set_lanePC lane (sequential source size k) (no_window s2)))
    with (continuationStopIndex (set_lanePC lane (sequential source size k) s2)).
  by repeat case_match.
Qed.

Lemma fetch_distinct source size lane s s' found :
  distinct_pcs source size → (lane < Lanes)%nat → vir_wf size s →
  fetch source 1 size lane s = (s', found) →
  no_window s' = no_window s ∧ found = scan source 1 size (lanePC s !!! lane).
Proof.
  intros Hd Hl Hwf E.
  destruct (fetch_wf source 1 size lane s s' found ltac:(lia) Hl Hwf E) as (_ & _ & _ & Hs & Hn).
  split; [unfold fetch in E; by repeat case_match; simplify_eq|].
  destruct (scan source 1 size _) as [k|] eqn:E'.
  - apply scan_Some in E' as (Hk & Hp & _). destruct found as [k'|].
    + destruct (Hs k' eq_refl) as [Hk' Hp']. f_equal. apply Hd; [lia|lia|congruence].
    + by destruct (proj2 (Hn eq_refl) k Hk).
  - destruct found as [k'|]; [|done]. destruct (Hs k' eq_refl) as [Hk' Hp'].
    by eapply scan_None in E'; [|exact Hk'].
Qed.

Lemma step_lane_sim source size lane st :
  distinct_pcs source size → (lane < Lanes)%nat → vir_wf size st.1 →
  step_lane_ref source size lane (nw st) = nw_res (step_lane source size lane st).
Proof.
  intros Hd Hl Hwf. unfold step_lane_ref, step_lane. destruct st as [s r]. cbn [fst snd nw].
  destruct (fetch source 1 size lane s) as [s' found] eqn:E.
  destruct (fetch_distinct _ _ _ _ _ _ Hd Hl Hwf E) as [Hnw Hf].
  change (lanePC (no_window s)) with (lanePC s). cbn [fst snd] in Hf. rewrite <- Hf.
  replace (nw (s, r)) with (nw (s', r)) by (unfold nw; cbn; by rewrite Hnw).
  destruct found as [k|]; [apply nw_step_uop|].
  unfold step_no_uop, nw. cbn [fst snd].
  change (lanePC (no_window s')) with (lanePC s'). by case_match.
Qed.

Lemma wf_step source size lane st :
  (lane < Lanes)%nat → vir_wf size st.1 → vir_wf size (step_lane source size lane st).1.1.
Proof.
  intros Hl Hwf. apply closed_step;
    eauto using wf_set_lanePC, wf_retire, wf_write_dest, wf_set_pending, wf_depth_update.
  intros s1 s2 found H1 H2. by eapply (fetch_wf _ _ _ _ _ _ _) in H2 as (? & _).
Qed.

(** *** A lane only depends on itself *)

Definition agree (size lane : nat) (s t : Vir) : Prop :=
  vir_wf size s ∧ vir_wf size t ∧ same_lane lane s t ∧ shared t = shared s.

Section Agree.
Context (source : list Uop) (size lane : nat) (Hlane : (lane < Lanes)%nat).

Local Ltac solve_agree :=
  let Hs := fresh in let Ht := fresh in
  intros (Hs & Ht & (A1&A2&A3&A4&A5&A6&A7&A8&A9&A10) & Hsh); split_and!;
  [auto using wf_set_lanePC, wf_retire, wf_set_pending, wf_depth_update, wf_set_lane_reg..| | ];
  try done; destruct Hs, Ht; split_and!; unfold set_lanePC, retire; cbn; intros;
  rewrite ?lookup_total_insert_eq by lia; try first [done | apply A1 | apply A6].

Lemma agree_set_lanePC p s t :
  agree size lane s t → agree size lane (set_lanePC lane p s) (set_lanePC lane p t).
Proof. solve_agree. Qed.

Lemma agree_retire s t : agree size lane s t → agree size lane (retire lane s) (retire lane t).
Proof. solve_agree. by rewrite !mask_test_clear, A10 by done. Qed.

Lemma agree_depth d s t :
  agree size lane s t →
  agree size lane (s <| laneStackDepth ::= <[lane := d]> |>) (t <| laneStackDepth ::= <[lane := d]> |>).
Proof. solve_agree. Qed.

Lemma agree_set_pending k b s t :
  agree size lane s t → agree size lane (set_pending lane k b s) (set_pending lane k b t).
Proof.
  solve_agree. unfold pending, set_pending in *. cbn. rewrite !lookup_total_insert_eq by lia.
  destruct (decide (k < MaxUops)%nat).
  - rewrite !lookup_total_insert_case by (rewrite ?wf_pending_row0, ?wf_pending_row1; lia).
    by rewrite A6.
  - rewrite !list_insert_ge by (rewrite ?wf_pending_row0, ?wf_pending_row1; lia). apply A6.
Qed.

Lemma agree_set_lane_reg reg v s t :
  agree size lane s t → agree size lane (set_lane_reg reg lane v s) (set_lane_reg reg lane v t).
Proof.
  solve_agree. unfold lane_reg, set_lane_reg in *. cbn.
  destruct (decide (reg < NumRegs)%nat).
  - rewrite !lookup_total_insert_case by lia. case_bool_decide; [subst|apply A1].
    by rewrite !lookup_total_insert_eq by (rewrite ?wf_row0, ?wf_row1; lia).
  - rewrite !(list_insert_ge _ reg) by lia. apply A1.
Qed.

Lemma agree_write_dest d v s t :
  agree size lane s t → agree size lane (write_dest d lane v s) (write_dest d lane v t).
Proof. unfold write_dest. case_match; [apply agree_set_lane_reg|done]. Qed.

Lemma agree_write_source d v s t :
  agree size lane s t → agree size lane (write_source d lane v s) (write_source d lane v t).
Proof. unfold write_source. case_match; [apply agree_set_lane_reg|done]. Qed.

Lemma agree_operand d s t : agree size lane s t → operand t d lane = operand s d lane.
Proof. intros (_ & _ & (A1 & _) & _). unfold operand. case_match; [apply A1|done]. Qed.

Lemma agree_fetch s t :
  agree size lane s t →
  agree size lane (fetch source 1 size lane s).1 (fetch source 1 size lane t).1 ∧
  (fetch source 1 size lane t).2 = (fetch source 1 size lane s).2.
Proof.
  intros H. pose proof H as (Hs & Ht & (A1&A2&A3&A4&A5&A6&A7&A8&A9&A10) & Hsh).
  pose proof (fetch_wf source 1 size lane s) as F1. pose proof (fetch_wf source 1 size lane t) as F2.
  unfold fetch in *. rewrite A2, A7, A8 in *.
  destruct (scan source (laneWindowStart s !!! lane) _ _); [done|].
  destruct (scan source 1 size _); [|done]. split; [|done].
  specialize (F1 _ _ ltac:(lia) Hlane Hs eq_refl) as [F1 _].
  specialize (F2 _ _ ltac:(lia) Hlane Ht eq_refl) as [F2 _]. split_and!; [done|done| |done].
  destruct Hs, Ht. split_and!; cbn; rewrite ?lookup_total_insert_eq by lia; done.
Qed.

(** Related outcomes: agreeing machines, equal results. *)
Definition agree_st (x y : St) : Prop := agree size lane x.1 y.1 ∧ x.2 = y.2.
Definition agree_res (x y : St * Flow) : Prop := agree_st x.1 y.1 ∧ x.2 = y.2.

Lemma agree_take_pending k x y : agree_st x y → agree_st (take_pending lane k x) (take_pending lane k y).
Proof.
  destruct x as [s r], y as [t r']. intros [H E]. cbn in E. subst r'. unfold take_pending.
  pose proof H as (_ & _ & (A1&A2&A3&A4&A5&A6&A7&A8&A9&A10) & _). cbn [fst] in A6.
  rewrite A6. case_match; [|done]. split; [|done]. cbn [fst].
  apply (agree_set_pending k false) in H. cbn [fst] in H.
  set (s1 := set_pending _ _ _ s) in *. set (t1 := set_pending _ _ _ t) in *. clearbody s1 t1.
  pose proof H as (_ & _ & (_&_&_&_&_&_&_&_&B9&_) & _).
  pose proof (agree_depth (u8 (laneStackDepth s1 !!! lane - 1)) _ _ H) as H'.
  destruct s1, t1. cbn in *. rewrite B9. by case_match.
Qed.

Lemma agree_mark_pending op next s t :
  agree size lane s t →
  agree size lane (mark_pending source size lane op next s) (mark_pending source size lane op next t).
Proof. unfold mark_pending. cbv zeta. intros H. repeat case_match; auto using agree_set_pending. Qed.

Lemma agree_after_control next x y :
  agree_st x y → agree_res (after_control source lane next x) (after_control source lane next y).
Proof.
  destruct x as [s r], y as [t r']. intros [H E]. cbn in H, E. subst r'. unfold after_control.
  repeat case_match; (split; [split; [cbn [fst]; by auto using agree_retire|done]|done]).
Qed.

Lemma agree_step_uop k x y :
  agree_st x y → agree_res (step_uop source size lane k x) (step_uop source size lane k y).
Proof.
  intros H. unfold step_uop. apply (agree_take_pending k) in H.
  destruct (take_pending lane k x) as [s r], (take_pending lane k y) as [t r'].
  destruct H as [H E]. cbn [fst snd] in *. subst r'. rewrite !(agree_operand _ s t H).
  destruct (conditional _).
  { unfold step_conditional. destruct (resolve_taken _ _ _ _) as [b r'].
    apply agree_after_control. split; [|done]. by apply agree_set_lanePC, agree_mark_pending. }
  destruct (is_jump _).
  { unfold step_jump. apply agree_after_control. split; [|done].
    by apply agree_set_lanePC, agree_mark_pending. }
  destruct (is_return _); [split; [split; [by apply agree_retire|done]|done]|].
  destruct (is_skip _).
  { unfold step_skip. case_match; (split; [split; [|done]|done]); cbn [fst];
      auto using agree_retire, agree_set_lanePC. }
  destruct (evaluate _ _ _) as [v|]; [|split; [split; [by apply agree_retire|done]|done]].
  unfold step_value. cbv zeta.
  pose proof (agree_set_lanePC (sequential source size k) _ _
    (agree_write_dest (destination (source !!! k)) v _ _ H)) as H'.
  pose proof H' as (_ & _ & _ & Hsh).
  set (s2 := set_lanePC lane _ (write_dest _ _ _ s)) in *.
  set (t2 := set_lanePC lane _ (write_dest _ _ _ t)) in *. clearbody s2 t2.
  injection Hsh as _ _ _ _ -> -> _ _ _.
  repeat case_match; (split; [split; [|done]|done]); cbn [fst];
    auto using agree_retire, agree_set_lanePC.
Qed.

Lemma agree_step_lane x y :
  agree_st x y → agree_res (step_lane source size lane x) (step_lane source size lane y).
Proof.
  destruct x as [s r], y as [t r']. intros [H E]. cbn [fst snd] in *. subst r'.
  unfold step_lane. cbn [fst snd]. destruct (agree_fetch s t H) as [H' E].
  destruct (fetch source 1 size lane s) as [s1 f], (fetch source 1 size lane t) as [t1 f'].
  cbn [fst snd] in *. subst f'. destruct f as [k|]; [by apply agree_step_uop|].
  unfold step_no_uop. pose proof H' as (_ & _ & (_ & A2 & _) & _). rewrite A2.
  case_match; (split; [split; [by apply agree_retire|done]|done]).
Qed.

Lemma agree_resume d v n s t :
  agree size lane s t →
  agree_st (resumeSourceLane source size lane d v n s) (resumeSourceLane source size lane d v n t).
Proof.
  intros H. unfold resumeSourceLane, resume_with. cbv zeta.
  pose proof H as (_ & _ & (_ & _ & A3 & _) & Hsh). rewrite A3.
  injection Hsh as _ _ _ -> _ _ -> _ _. destruct (_ || _); [done|].
  destruct (run_loop_sim agree_st n (step_lane source size lane) (step_lane source size lane)
    (write_source d lane v s, Result_init <| activeLanes := 1 |>)
    (write_source d lane v t, Result_init <| activeLanes := 1 |>)) as [H' _].
  { split; [by apply agree_write_source|done]. }
  { intros x y Hxy. destruct (agree_step_lane x y Hxy). auto. }
  destruct (run_loop _ _ _) as [[s' r] f].
  destruct (run_loop _ _ _) as [[t' r'] f'].
  destruct H' as [H' E]. cbn [fst snd] in *. subst r'.
  pose proof H' as (_ & _ & (_ & _ & B3 & _) & _). rewrite B3. by case_match.
Qed.
End Agree.

Lemma only_resume source size lane d v n s :
  (lane < Lanes)%nat → only_lane lane s (resumeSourceLane source size lane d v n s).1.
Proof.
  intros Hl. apply closed_resume.
  - intros. etrans; [done|]. apply only_set_lanePC.
  - intros. etrans; [done|]. by apply only_retire.
  - intros. etrans; [done|]. apply only_write_dest.
  - intros. etrans; [done|]. apply only_set_pending.
  - intros. etrans; [done|]. apply only_depth.
  - intros s1 s2 f Ho E. etrans; [done|]. by eapply only_fetch.
  - intros. etrans; [done|]. apply only_write_source.
  - reflexivity.
Qed.

(** ** Properties *)

(** C4: The outcome of resuming a lane.  Take a well-formed interpreter whose continuation is
    initialised, a template of more than one uop, a live lane of the continuation, and a budget
    between 1 and 2^32 - 1.  Resuming the lane uses at most the budget and counts one chunk issue and
    one chunk execution per uop.  The lane is still live exactly when the result says it timed out;
    then the budget is used up and no ending is counted.  Otherwise the lane has left, in one of four
    ways: by one normal termination; by one early exit; by control flow reported as unsupported; or
    with lane PC 0, which the code counts in no class (the step it leaves by finds no uop for this
    PC, which it takes for a lane that has already ended). *)
Theorem lane_outcome (source : list Uop) (size lane : nat) (d v : Z) (n : nat) (s : Vir) :
  vir_wf size s → continuationInitialized s = true → (1 < size)%nat →
  (lane < continuationLanes s)%nat → laneActive s !!! lane = true →
  (0 < n)%nat → Z.of_nat n < 2 ^ 32 →
  let '(s', r) := resumeSourceLane source size lane d v n s in
  (∃ h, issued r h ∧ 0 <= h <= Z.of_nat n) ∧
  timedOut r = laneActive s' !!! lane ∧
  (timedOut r = true →
     helperUops r = Z.of_nat n ∧ normalTerminatedLanes r = 0 ∧ earlyExitLanes r = 0) ∧
  (timedOut r = false → ended lane s' r).
Proof.
  intros Hwf Hi Hsz Hl Ha Hn Hn32. unfold resumeSourceLane, resume_with. cbv zeta.
  rewrite Hi, Ha, (proj2 (Nat.leb_gt _ _) Hsz), (proj2 (Nat.leb_gt _ _) Hl).
  destruct (Nat.eqb_spec n 0); [lia|]. cbn [negb orb].
  assert (lane < Lanes)%nat as Hlane by (pose proof (wf_lanes _ _ Hwf); lia).
  pose proof (run_loop_rule (λ k (st : St), running st.2 (Z.of_nat k) ∧ vir_wf size st.1 ∧
      laneActive st.1 !!! lane = true)
    (λ (st : St) f, match f with
      | Continue => running st.2 (Z.of_nat n) ∧ laneActive st.1 !!! lane = true
      | Break => ended lane st.1 st.2 ∧ ∃ h, issued st.2 h ∧ 0 <= h <= Z.of_nat n
      | Return => False end) n (step_lane source size lane)
    (write_source d lane v s, Result_init <| activeLanes := 1 |>)) as HL.
  destruct (run_loop _ _ _) as [[s' r] f]. cbn [fst snd] in HL.
  assert (match f with
      | Continue => running r (Z.of_nat n) ∧ laneActive s' !!! lane = true
      | Break => ended lane s' r ∧ ∃ h, issued r h ∧ 0 <= h <= Z.of_nat n
      | Return => False end) as H.
  { apply HL.
    - split; [done|]. split; [by apply wf_write_source|]. cbn [fst].
      by rewrite write_source_active.
    - intros k [s1 r1] Hk (Hr & Hwf1 & Ha1). cbn [fst snd] in *.
      pose proof (step_lane_post source size lane s1 r1 (Z.of_nat k) Hlane Hwf1 Hr ltac:(lia)) as H.
      pose proof (wf_step source size lane (s1, r1) Hlane Hwf1) as Hwf2. unfold step_post in H.
      destruct (step_lane source size lane (s1, r1)) as [[s2 r2] []]; cbn [fst snd] in *.
      + destruct H as [Hr2 Ha2]. split_and!; [|done|by rewrite Ha2].
        by replace (Z.of_nat (S k)) with (Z.of_nat k + 1) by lia.
      + destruct H as [He [Hh|Hh]]; (split; [done|]); eexists; (split; [done|]); lia.
      + done.
    - intros [s1 r1] (? & _ & ?). done. }
  clear HL. destruct f; [| |done].
  - destruct H as [Hr Ha']. injection Hr as E1 E2 E3 E4 E5 E6.
    rewrite E1, Z.leb_refl, Ha'. cbn. split_and!; [|done|done|done].
    exists (Z.of_nat n). split; [done|lia].
  - destruct H as [He [h [Hh Hle]]]. pose proof He as (Ha' & Ht & _). rewrite Ha', andb_false_r.
    split_and!; [eauto|congruence|congruence|done].
Qed.

(** A continuation of two lanes over [loop_template]. *)
Definition example_vir : Vir :=
  initializeSourceContinuation (uops loop_template) 3 2 (replicate 32 5) 0 true.

Lemma example_vir_wf : vir_wf 3 example_vir.
Proof. apply wf_initialize. Qed.

Lemma lane_outcome_witness :
  let '(s', r) := resumeSourceLane (uops loop_template) 3 1 10 7 100 example_vir in
  timedOut r = false ∧ ended 1 s' r.
Proof.
  pose proof (lane_outcome (uops loop_template) 3 1 10 7 100 example_vir example_vir_wf) as H.
  destruct (resumeSourceLane (uops loop_template) 3 1 10 7 100 example_vir) as [s' r] eqn:E.
  destruct H as (_ & _ & _ & H); [by vm_compute|lia|apply Nat.ltb_lt; by vm_compute|
    by vm_compute|lia|lia|].
  assert (timedOut r = false) as Ht.
  { change r with (s', r).2. rewrite <- E. by vm_compute. }
  split; [exact Ht|by apply H].
Defined.

(** The eight-uop window and its refill are an optimisation.  When no two captured uops
    share a PC, the windowed interpreter computes what fetching the uop of the lane's PC from
    the whole template computes, apart from the windows themselves. *)
Theorem window_equivalence (source : list Uop) (size lane : nat) (d v : Z) (n : nat) (s : Vir) :
  distinct_pcs source size → vir_wf size s →
  let '(s', r) := resumeSourceLane source size lane d v n s in
  resume_ref source size lane d v n (no_window s) = (no_window s', r).
Proof.
  intros Hd Hwf. unfold resume_ref, resumeSourceLane, resume_with. cbv zeta.
  change (continuationInitialized (no_window s)) with (continuationInitialized s).
  change (continuationLanes (no_window s)) with (continuationLanes s).
  change (laneActive (no_window s)) with (laneActive s).
  destruct (_ || (size <=? 1)%nat || (continuationLanes s <=? lane)%nat || _ || _) eqn:Hg; [done|].
  assert (lane < Lanes)%nat as Hl by (pose proof (wf_lanes _ _ Hwf); reflect; lia).
  destruct (run_loop_sim (λ st st2 : St, st2 = nw st ∧ vir_wf size st.1) n
    (step_lane source size lane) (step_lane_ref source size lane)
    (write_source d lane v s, Result_init <| activeLanes := 1 |>)
    (write_source d lane v (no_window s), Result_init <| activeLanes := 1 |>)) as [[E1 _] _].
  - split; [|by apply wf_write_source]. unfold nw. cbn [fst snd]. by rewrite nw_write_source.
  - intros st st2 [-> Hst]. rewrite step_lane_sim by done.
    split; [split; [done|by apply wf_step]|done].
  - set (x := run_loop n (step_lane source size lane) _) in *.
    set (y := run_loop n (step_lane_ref source size lane) _) in *. clearbody x y.
    destruct x as [[s1 r1] f1], y as [[s2 r2] f2]. cbn [fst] in E1. unfold nw in E1. cbn in E1.
    injection E1 as -> ->. change (laneActive (no_window s1)) with (laneActive s1).
    by destruct (_ && _).
Qed.

Lemma window_equivalence_witness :
  let '(s', r) := resumeSourceLane (uops loop_template) 3 1 10 7 100 example_vir in
  resume_ref (uops loop_template) 3 1 10 7 100 (no_window example_vir) = (no_window s', r).
Proof.
  apply window_equivalence; [|exact example_vir_wf]. intros j k Hj Hk.
  assert (j = 1 ∨ j = 2)%nat as [->| ->] by lia; assert (k = 1 ∨ k = 2)%nat as [->| ->] by lia;
    vm_compute; congruence.
Defined.

(** Source responses commute.  Resuming two different lanes in either order gives each
    lane the same result, and the two final machines agree on every lane and on everything
    the lanes share. *)
Theorem responses_commute (source : list Uop) (size l1 l2 : nat) (d1 v1 d2 v2 : Z)
    (n1 n2 : nat) (s : Vir) :
  vir_wf size s → l1 ≠ l2 → (l1 < Lanes)%nat → (l2 < Lanes)%nat →
  let a := resumeSourceLane source size l1 d1 v1 n1 s in
  let ab := resumeSourceLane source size l2 d2 v2 n2 a.1 in
  let b := resumeSourceLane source size l2 d2 v2 n2 s in
  let ba := resumeSourceLane source size l1 d1 v1 n1 b.1 in
  a.2 = ba.2 ∧ b.2 = ab.2 ∧ shared ab.1 = shared ba.1 ∧
  ∀ l, (l < Lanes)%nat → same_lane l ab.1 ba.1.
Proof.
  intros Hwf Hne H1 H2 a ab b ba.
  pose proof (only_resume source size l1 d1 v1 n1 s H1) as [Sa Fa]. fold a in Sa, Fa.
  pose proof (only_resume source size l2 d2 v2 n2 a.1 H2) as [Sab Fab]. fold ab in Sab, Fab.
  pose proof (only_resume source size l2 d2 v2 n2 s H2) as [Sb Fb]. fold b in Sb, Fb.
  pose proof (only_resume source size l1 d1 v1 n1 b.1 H1) as [Sba Fba]. fold ba in Sba, Fba.
  assert (agree size l1 s b.1) as G1 by (split_and!; [done|by apply wf_resume|by apply Fb|done]).
  assert (agree size l2 s a.1) as G2 by (split_and!; [done|by apply wf_resume|by apply Fa|done]).
  pose proof (agree_resume source size l1 H1 d1 v1 n1 s b.1 G1) as [(_ & _ & Ga & _) Ra].
  pose proof (agree_resume source size l2 H2 d2 v2 n2 s a.1 G2) as [(_ & _ & Gb & _) Rb].
  fold a ba in Ga, Ra. fold b ab in Gb, Rb.
  split_and!; [done|done|congruence|]. intros l Hl.
  assert (∀ x y, same_lane l x y → same_lane l y x) as Hsym.
  { intros x y (?&?&?&?&?&?&?&?&?&?). split_and!; done || (intros; symmetry; auto). }
  destruct (decide (l = l1)) as [->|]; [|destruct (decide (l = l2)) as [->|]].
  - etrans; [apply Hsym, Fab; [done|congruence]|done].
  - etrans; [apply Hsym; exact Gb|]. by apply Fba.
  - etrans; [apply Hsym; etrans; [by apply Fa|by apply Fab]|]. etrans; [by apply Fb|by apply Fba].
Qed.

Lemma responses_commute_witness :
  let a := resumeSourceLane (uops loop_template) 3 0 10 7 100 example_vir in
  let b := resumeSourceLane (uops loop_template) 3 1 11 9 100 example_vir in
  let ba := resumeSourceLane (uops loop_template) 3 0 10 7 100 b.1 in
  a.2 = ba.2.
Proof.
  pose proof (responses_commute (uops loop_template) 3 0 1 10 7 11 9 100 100 example_vir
    example_vir_wf ltac:(lia) ltac:(unfold Lanes; lia) ltac:(unfold Lanes; lia)) as H.
  cbv zeta in H |- *. exact (proj1 H).
Defined.

End VirLane.
