(* ===== verification/VirGroup.v ===== *)
(** * Resuming all source-ready lanes in current-PC groups

    Model of [DVRVectorInstructionRegister::resumeSourceLanes] (src/cpu/o3/pre.cc): the SIMT
    scheduler of a continuation.  A step pops a deferred path when the selected one is done,
    selects a group of lanes with one PC, executes its uop on every lane of the group and
    defers the lanes that left the group's first path. *)

From S2P Require Import Prelude Inst Uop Recorder Vir VirLane.

Module VirGroup.
Import Uop Recorder Vir.

Definition St : Type := Vir * Result.

(** [any lane in 0 .. n-1 satisfies p] *)
Definition any_lane (n : nat) (p : nat → bool) : bool := existsb p (seq 0 n).

(** ** The reconvergence stack, shared by both schedulers *)

(** The first uop at the deferred PC is on an alternate path. *)
Definition deferred_alternate (source : list Uop) (size : nat) (p : Z) : bool :=
  match scan source 0 size p with
  | Some k => alternatePath (source !!! k)
  | None => false
  end.

(** Restore the lanes of a deferred mask. *)
Definition restore_lane (m : LaneMask) (p : Z) (lane : nat) (s : Vir) : Vir :=
  if mask_test m lane
  then (set_lanePC lane p s) <| laneBlocked ::= <[lane := false]> |>
  else s.

(** The pop at the head of a step; [live] are the lanes of the selected path.  The boolean
    tells whether a path was resumed. *)
Definition pop_path (source : list Uop) (size lanes : nat) (live : Vir → nat → bool)
    (st : St) : St * bool :=
  let '(s, r) := st in
  if (stackDepth s =? 0)%nat then (st, false)
  else
    let top := stack s !!! (stackDepth s - 1)%nat in
    let at_reconvergence := any_lane lanes (λ l, live s l && (lanePC s !!! l =? reconvPC top)) in
    let selected_path_alive := any_lane lanes (live s) in
    if at_reconvergence || negb selected_path_alive then
      let alternate := deferred_alternate source size (deferredPC top) in
      let s := for_range 0 lanes (restore_lane (deferredMask top) (deferredPC top)) s in
      let s := s <| stackDepth ::= λ d, (d - 1)%nat |> in
      let r := if at_reconvergence then r <| reconvergences ::= inc32 |> else r in
      let r := if at_reconvergence && (alternate || reconvAlternate top)
               then r <| alternatePathReconvergences ::= inc32 |> else r in
      ((s, r), true)
    else (st, false).

(** The locals of the group loop. *)
Record Group := mkGroup {
  any_active : bool;
  group_lanes : Z;
  taken_lanes : list bool;
  has_taken : bool;
  has_fallthrough : bool;
  first_path_taken : bool;
  first_path_set : bool
}.

#[export] Instance eta_Group : Eta Group := λ r,
  mkGroup (any_active r) (group_lanes r) (taken_lanes r) (has_taken r) (has_fallthrough r)
    (first_path_taken r) (first_path_set r).

Definition Group_init : Group :=
  mkGroup false 0 (replicate Lanes false) false false false false.

(** The updates of [taken_lanes], [first_path_taken], [has_taken], [has_fallthrough]. *)
Definition note_taken (lane : nat) (taken : bool) (g : Group) : Group :=
  let g := g <| taken_lanes ::= <[lane := taken]> |> in
  let g := if first_path_set g then g
           else g <| first_path_taken := taken |> <| first_path_set := true |> in
  g <| has_taken ::= λ b, b || taken |>
    <| has_fallthrough ::= λ b, b || negb taken |>.

(** The entry a divergence pushes, and its lane loop: [member] are the lanes the loop does
    not skip. *)
Record Deferral := mkDeferral { d_mask : LaneMask;  d_pc : Z;  d_alternate : bool }.

Definition defer_lane (source : list Uop) (size : nat) (g : Group) (member : Vir → nat → bool)
    (lane : nat) (x : Vir * Deferral) : Vir * Deferral :=
  let '(s, d) := x in
  if negb (member s lane) then x
  else
    let alternate :=
      match find_from 0 size (λ k, (Uop.pc (source !!! k) =? lanePC s !!! lane)
                                    && alternatePath (source !!! k)) with
      | Some _ => true | None => d_alternate d end in
    if negb (Bool.eqb (taken_lanes g !!! lane) (first_path_taken g))
    then (s <| laneBlocked ::= <[lane := true]> |>,
          mkDeferral (mask_set (d_mask d) lane) (lanePC s !!! lane) alternate)
    else (s, mkDeferral (d_mask d) (d_pc d) alternate).

(** [if (has_taken && has_fallthrough) { ... }]; [Return] on an over-full stack. *)
Definition diverge (source : list Uop) (size lanes : nat) (op : Uop) (g : Group)
    (member : Vir → nat → bool) (st : St) : St * Flow :=
  let '(s, r) := st in
  if has_taken g && has_fallthrough g then
    let r := r <| divergentBranches ::= inc32 |> in
    if (ReconvergenceEntries <=? stackDepth s)%nat
    then ((s, r <| stackOverflow := true |>), Return)
    else
      let reconvergence := if negb (reconvergencePC op =? 0)
                           then reconvergencePC op else fallthroughPC op in
      let '(s, d) := for_range 0 lanes (defer_lane source size g member)
                       (s, mkDeferral mask_empty 0 false) in
      (((s <| stack ::= <[stackDepth s := mkEntry (d_mask d) (d_pc d) reconvergence
                                            (d_alternate d)]> |>)
          <| stackDepth ::= S |>, r), Continue)
  else (st, Continue).

(** ** [resumeSourceLanes] *)

(** [laneActive[l] && laneReady[l]], and the same for lanes that are not deferred. *)
Definition eligible (s : Vir) (l : nat) : bool := laneActive s !!! l && laneReady s !!! l.
Definition live (s : Vir) (l : nat) : bool := eligible s l && negb (laneBlocked s !!! l).

(** Deactivation of a lane of the group scheduler. *)
Definition leave (lane : nat) (s : Vir) : Vir :=
  (retire lane s) <| laneReady ::= <[lane := false]> |>.

Section Group.
Context (source : list Uop) (size : nat).

(** The PC of the restored path, then the lane that leads the group. *)
Definition resumed_pc (s : Vir) : Z :=
  match find_from 0 (continuationLanes s) (live s) with
  | Some l => lanePC s !!! l
  | None => 0
  end.

Definition select (resumed : bool) (s : Vir) : Vir * Z * option nat :=
  let group_pc := if resumed then resumed_pc s else 0 in
  let candidate l :=
    live s l && negb (resumed && negb (group_pc =? 0) && negb (lanePC s !!! l =? group_pc)) in
  match find_from 0 (continuationLanes s) candidate with
  | Some l => let '(s', found) := fetch source 1 size l s in (s', lanePC s !!! l, found)
  | None => (s, group_pc, None)
  end.

(** No uop for the group: every live lane leaves. *)
Definition drop_lane (lane : nat) (st : St) : St :=
  let '(s, r) := st in
  if negb (live s lane) then st
  else
    let p := lanePC s !!! lane in
    (leave lane s,
     if p =? Uop.pc (source !!! 0%nat) then r <| normalTerminatedLanes ::= inc32 |>
     else if negb (p =? 0) then note_external r
     else r).

(** A conditional branch waits until every unblocked active lane at its PC is ready. *)
Definition branch_gate (group_pc : Z) (s : Vir) : bool :=
  let at_branch l := laneActive s !!! l && negb (laneBlocked s !!! l)
                     && (lanePC s !!! l =? group_pc) in
  any_lane (continuationLanes s) at_branch
  && forallb (λ l, negb (at_branch l) || laneReady s !!! l) (seq 0 (continuationLanes s)).

(** Pending reconvergences of the group's uop. *)
Definition settle_lane (group_pc : Z) (op_index lane : nat) (st : St) : St :=
  let '(s, r) := st in
  if eligible s lane && (lanePC s !!! lane =? group_pc) && pending s lane op_index
  then (set_pending lane op_index false s, r <| alternatePathReconvergences ::= inc32 |>)
  else st.

(** How a control transfer ends a lane of the group. *)
Definition after_control (next : Z) (lane : nat) (st : St) : St :=
  let '(s, r) := st in
  if next =? 0 then (leave lane s, r <| earlyExitLanes ::= inc32 |>)
  else if next =? Uop.pc (source !!! 0%nat)
       then (leave lane s, r <| normalTerminatedLanes ::= inc32 |>)
       else st.

(** The uop of the group on one of its lanes. *)
Definition exec_uop (op : Uop) (op_index lane : nat) (x : St * Group) : St * Group :=
  let '((s, r), g) := x in
  let lhs := operand s (source0 op) lane in
  let rhs := operand s (source1 op) lane in
  if conditional op then
    let '(taken, r) := VirLane.resolve_taken op lhs rhs r in
    let next := branch_next op source size op_index taken in
    (after_control next lane (set_lanePC lane next s, r), note_taken lane taken g)
  else if is_jump op then
    (after_control (branchTargetPC op) lane
       (set_lanePC lane (branchTargetPC op) s, count_issue r), g)
  else if is_return op then ((leave lane s, r <| normalTerminatedLanes ::= inc32 |>), g)
  else if is_skip op then
    let next := sequential source size op_index in
    let s := set_lanePC lane next s in
    let r := count_issue r in
    (if next =? 0 then (leave lane s, r <| normalTerminatedLanes ::= inc32 |>) else (s, r), g)
  else match evaluate op lhs rhs with
  | None => ((leave lane s, note_unsupported op r), g)
  | Some v =>
      let next := sequential source size op_index in
      let s := set_lanePC lane next (write_dest (destination op) lane v s) in
      (if next =? 0 then (leave lane s, r <| normalTerminatedLanes ::= inc32 |>)
       else if negb (continuationContinuePastFLR s) && (op_index =? continuationStopIndex s)%nat
       then (leave lane (set_lanePC lane 0 s), r <| normalTerminatedLanes ::= inc32 |>)
       else (s, r), g)
  end.

(** The body of the group loop; blocked lanes at the group's PC are not skipped. *)
Definition exec_lane (group_pc : Z) (op : Uop) (op_index lane : nat) (x : St * Group)
  : St * Group :=
  let '((s, r), g) := x in
  if negb (eligible s lane) || negb (lanePC s !!! lane =? group_pc) then x
  else exec_uop op op_index lane
         ((s, r), g <| any_active := true |> <| group_lanes ::= inc32 |>).

(** The lanes the deferral loop does not skip. *)
Definition deferrable (s : Vir) (l : nat) : bool :=
  eligible s l && negb (lanePC s !!! l =? 0).

(** A selected uop, from the branch gate to the counters. *)
Definition issue_group (group_pc : Z) (op_index : nat) (st : St) : St * Flow :=
  let op := source !!! op_index in
  let n := continuationLanes st.1 in
  if conditional op && negb (branch_gate group_pc st.1) then (st, Return)
  else
    let '(s, r) := st in
    let r := if alternatePath op then r <| alternatePathUops ::= inc32 |> else r in
    let '(s, r) := for_range 0 n (settle_lane group_pc op_index) (s, r) in
    let r := r <| pcGroups ::= inc32 |> in
    let '((s, r), g) := for_range 0 n (exec_lane group_pc op op_index) ((s, r), Group_init) in
    if negb (any_active g) then ((s, r), Break)
    else
      let r := r <| activeLanes ::= λ a, u32 (a + group_lanes g) |>
                 <| maxPCGroupLanes ::= Z.max (group_lanes g) |> in
      let '((s, r), f) := diverge source size n op g deferrable (s, r) in
      match f with
      | Continue => ((s, count_issue r), Continue)
      | _ => ((s, r), f)
      end.

(** One scheduling step. *)
Definition step_group (st : St) : St * Flow :=
  let '((s, r), resumed) := pop_path source size (continuationLanes st.1) live st in
  let '(s, group_pc, found) := select resumed s in
  match found with
  | None => (for_range 0 (continuationLanes s) drop_lane (s, r), Break)
  | Some op_index => issue_group group_pc op_index (s, r)
  end.

(** [resumeSourceLanes] *)
Definition resumeSourceLanes (lane : nat) (source_destination source_value : Z)
    (max_helper_uops : nat) (s : Vir) : St :=
  let r := Result_init in
  if negb (continuationInitialized s) || (size <=? 1)%nat || (continuationLanes s <=? lane)%nat
     || negb (laneActive s !!! lane) || (max_helper_uops =? 0)%nat then (s, r)
  else
    let s := write_source source_destination lane source_value s in
    let s := s <| laneReady ::= <[lane := true]> |> in
    if negb (any_lane (continuationLanes s) (eligible s)) then (s, r)
    else
      let '((s, r), f) := run_loop max_helper_uops step_group (s, r) in
      match f with
      | Return => (s, r)
      | _ =>
          if (Z.of_nat max_helper_uops <=? helperUops r)
             && any_lane (continuationLanes s) (live s)
          then (s, r <| timedOut := true |>) else (s, r)
      end.
End Group.

(** ** Concrete templates *)

(** Uops as the recorder captures them: an immediate addition in place, a load, and a tainted
    conditional branch. *)
Definition addi_uop (a rd imm : Z) : Uop :=
  Uop_init <| Uop.pc := a |> <| semantic := AddImmediate |> <| source0 := rd |>
    <| destination := rd |> <| immediate := imm |> <| intDestinations := bit (Z.to_nat rd) |>.

Definition load_uop (a rd rs : Z) : Uop :=
  Uop_init <| Uop.pc := a |> <| semantic := LoadDouble |> <| source0 := rs |>
    <| destination := rd |> <| load := true |> <| intDestinations := bit (Z.to_nat rd) |>.

Definition branch_uop (a rs1 rs2 : Z) (sem : Semantic) (target : Z) (taken : bool) (reconv : Z)
  : Uop :=
  Uop_init <| Uop.pc := a |> <| semantic := sem |> <| source0 := rs1 |> <| source1 := rs2 |>
    <| control := true |> <| conditional := true |> <| branchTaken := taken |>
    <| tainted := true |> <| branchTargetPC := target |> <| fallthroughPC := a + 4 |>
    <| reconvergencePC := reconv |>.

(** [if (a0 == 0) a1 += 1; a2 += 1; load], with the load as reconvergence point. *)
Definition diamond : list Uop :=
  [load_uop 64 10 9; branch_uop 68 10 (-1) BranchNotEqual 76 false 80; addi_uop 72 11 1;
   addi_uop 76 12 1; load_uop 80 13 12].

Definition diamond_start : Vir :=
  initializeSourceContinuation diamond 5 2 (replicate 32 0) 0 true.

(** [if (a0 != a5) { if (a0 == 0) a1 += 1; a2 += 1; } a3 += 1; load] *)
Definition nested : list Uop :=
  [load_uop 64 10 9; branch_uop 68 10 15 BranchEqual 88 false 96;
   branch_uop 72 10 (-1) BranchNotEqual 80 true 96; addi_uop 76 11 1; addi_uop 80 12 1;
   addi_uop 88 13 1; load_uop 96 14 13].

Definition nested_start : Vir :=
  initializeSourceContinuation nested 7 3 (<[15%nat := 5]> (replicate 32 0)) 0 true.

(** The responses [values] arrive for lanes 0, 1, ... in order. *)
Fixpoint respond_all (source : list Uop) (size lane : nat) (values : list Z) (s : Vir) : Vir :=
  match values with
  | [] => s
  | v :: values' =>
      respond_all source size (S lane) values' (resumeSourceLanes source size lane 10 v 1000 s).1
  end.

(** ** Well-formed schedulers

    A deferred mask only names lanes that are ready, or have left. *)
Definition group_wf (size : nat) (s : Vir) : Prop :=
  vir_wf size s ∧
  ∀ i l, (i < stackDepth s)%nat → (l < Lanes)%nat →
    mask_test (deferredMask (stack s !!! i)) l = true →
    laneReady s !!! l = true ∨ laneActive s !!! l = false.

(** What the execution of a group does to readiness and activity. *)
Definition evolves (s s' : Vir) : Prop :=
  stack s' = stack s ∧ stackDepth s' = stackDepth s ∧
  continuationLanes s' = continuationLanes s ∧
  ∀ l, (l < Lanes)%nat → laneActive s' !!! l = true →
    laneActive s !!! l = true ∧ laneReady s' !!! l = laneReady s !!! l.

(** A lane whose source response has not arrived, in its state of [s0]. *)
Definition waiting (l : nat) (s0 s : Vir) : Prop :=
  same_lane l s0 s ∧ laneActive s !!! l = true ∧ laneReady s !!! l = false.

(** The machines a continuation goes through: its initial state, then any response for any
    lane, with any budget. *)
Inductive reachable (source : list Uop) (size : nat) : Vir → Prop :=
| reach_init lanes regs sc past :
    reachable source size (initializeSourceContinuation source size lanes regs sc past)
| reach_response lane d v n s :
    reachable source size s →
    reachable source size (resumeSourceLanes source size lane d v n s).1.

(** ** Lemmas *)

#[export] Instance evolves_preorder : PreOrder evolves.
Proof.
  split; [by intros s; split_and!|]. intros s1 s2 s3 (A1&A2&A3&A4) (B1&B2&B3&B4).
  split_and!; [congruence..|]. intros l Hl H. destruct (B4 l Hl H) as [H1 H2].
  destruct (A4 l Hl H1). split; congruence.
Qed.

(** One bundle for everything a group step does to the machine: it stays well formed, the
    stack is untouched, and no lane but [lane] is concerned. *)
Definition lane_step (size lane : nat) (s s' : Vir) : Prop :=
  (vir_wf size s → vir_wf size s') ∧ evolves s s' ∧
  ∀ l, (l < Lanes)%nat → l ≠ lane → same_lane l s s'.

#[export] Instance lane_step_preorder size lane : PreOrder (lane_step size lane).
Proof.
  split; [by intros s; split_and!|]. intros s1 s2 s3 (A1&A2&A3) (B1&B2&B3).
  split_and!; [tauto|by etrans|]. intros l Hl Hn. etrans; [by apply A3|by apply B3].
Qed.

Lemma lane_step_only size lane s s' :
  (vir_wf size s → vir_wf size s') → only_lane lane s s' →
  laneActive s' = laneActive s → laneReady s' = laneReady s → lane_step size lane s s'.
Proof.
  intros Hwf [Hsh Ho] Ha Hr. split_and!; [done| |done]. injection Hsh as E1 E2 _ E3 _ _ _ _ _.
  split_and!; [done..|]. intros l Hl. by rewrite Ha, Hr.
Qed.

Lemma lane_step_set_lanePC size lane p s : lane_step size lane s (set_lanePC lane p s).
Proof. apply lane_step_only; auto using wf_set_lanePC, only_set_lanePC. Qed.

Lemma lane_step_write_dest size lane d v s : lane_step size lane s (write_dest d lane v s).
Proof.
  apply lane_step_only; auto using wf_write_dest, only_write_dest;
    unfold write_dest; by case_match.
Qed.

Lemma lane_step_set_pending size lane k b s : lane_step size lane s (set_pending lane k b s).
Proof. apply lane_step_only; auto using wf_set_pending, only_set_pending. Qed.

Lemma wf_ready_update size lane b s :
  vir_wf size s → vir_wf size (s <| laneReady ::= <[lane := b]> |>).
Proof. intros []. split; try done; cbn. by rewrite length_insert. Qed.

Lemma wf_blocked_update size lane b s :
  vir_wf size s → vir_wf size (s <| laneBlocked ::= <[lane := b]> |>).
Proof. intros []. split; try done; cbn. by rewrite length_insert. Qed.

Lemma lane_step_leave size lane s :
  (lane < Lanes)%nat → vir_wf size s → lane_step size lane s (leave lane s).
Proof.
  intros Hl Hwf. pose proof (wf_active _ _ Hwf) as Hlen. unfold leave. split_and!.
  - intros H. by apply wf_ready_update, wf_retire.
  - split_and!; [done..|]. intros l Hl'. unfold retire. cbn.
    rewrite lookup_total_insert_case by lia. case_bool_decide; [done|].
    by rewrite lookup_total_insert_ne.
  - intros l Hl' Hn. etrans; [by apply (only_retire lane s)|].
    split_and!; try done. by apply lookup_total_insert_ne.
Qed.

Lemma lane_step_then size lane s s1 s2 :
  vir_wf size s → lane_step size lane s s1 →
  (vir_wf size s1 → lane_step size lane s1 s2) → lane_step size lane s s2.
Proof. intros Hwf H1 H2. etrans; [done|]. apply H2. by apply H1. Qed.

Lemma lane_step_after_control source size next lane s r :
  (lane < Lanes)%nat → vir_wf size s →
  lane_step size lane s (after_control source next lane (s, r)).1.
Proof.
  intros Hl Hwf. unfold after_control. repeat case_match; cbn [fst]; auto using lane_step_leave.
  reflexivity.
Qed.

Lemma lane_step_exec_uop source size op k lane s r g :
  (lane < Lanes)%nat → vir_wf size s →
  lane_step size lane s (exec_uop source size op k lane ((s, r), g)).1.1.
Proof.
  intros Hl Hwf. unfold exec_uop. cbv zeta. destruct (conditional op).
  { destruct (VirLane.resolve_taken _ _ _ _) as [t r']. cbn [fst].
    eapply lane_step_then; [done|apply lane_step_set_lanePC|].
    by apply lane_step_after_control. }
  destruct (is_jump op).
  { cbn [fst]. eapply lane_step_then; [done|apply lane_step_set_lanePC|].
    by apply lane_step_after_control. }
  destruct (is_return op); [by apply lane_step_leave|].
  destruct (is_skip op).
  { case_match; cbn [fst]; [|apply lane_step_set_lanePC].
    eapply lane_step_then; [done|apply lane_step_set_lanePC|]. by apply lane_step_leave. }
  destruct (evaluate op _ _) as [v|]; [|by apply lane_step_leave].
  cbn [fst]. eapply lane_step_then;
    [done|apply (lane_step_write_dest _ _ (destination op) v)|]. intros Hwf1.
  set (s1 := write_dest _ _ _ _) in *. clearbody s1. eapply lane_step_then;
    [done|apply (lane_step_set_lanePC _ _ (sequential source size k))|]. intros Hwf2.
  set (s2 := set_lanePC _ _ _) in *. clearbody s2.
  case_match; [by apply lane_step_leave|]. case_match; [|reflexivity]. cbn [fst].
  eapply lane_step_then; [done|apply lane_step_set_lanePC|]. by apply lane_step_leave.
Qed.

Lemma lane_step_exec source size p op k lane x :
  (lane < Lanes)%nat → vir_wf size x.1.1 →
  lane_step size lane x.1.1 (exec_lane source size p op k lane x).1.1.
Proof.
  destruct x as [[s r] g]. intros Hl Hwf. unfold exec_lane. case_match; [done|].
  by apply lane_step_exec_uop.
Qed.

(** *** Groups *)

(** A group step preserves scheduler well-formedness and leaves waiting lanes alone. *)
Definition group_step (size : nat) (s s' : Vir) : Prop :=
  group_wf size s → group_wf size s' ∧ continuationLanes s' = continuationLanes s ∧
    ∀ l, (l < Lanes)%nat → laneActive s !!! l = true → laneReady s !!! l = false →
      waiting l s s'.

#[export] Instance group_step_preorder size : PreOrder (group_step size).
Proof.
  split; [by intros s Hs; split_and!; [done..|]; intros l Hl Ha Hr; split_and!|].
  intros s1 s2 s3 H1 H2 Hwf. destruct (H1 Hwf) as (Hwf2 & Hn & Hw1).
  destruct (H2 Hwf2) as (Hwf3 & Hn' & Hw2). split_and!; [done|congruence|].
  intros l Hl Ha Hr. destruct (Hw1 l Hl Ha Hr) as (Hs1 & Ha1 & Hr1).
  destruct (Hw2 l Hl Ha1 Hr1) as (Hs2 & Ha2 & Hr2). split_and!; [by etrans|done|done].
Qed.

Lemma group_step_lane size lane s s' :
  (vir_wf size s → lane_step size lane s s') →
  (lane < Lanes)%nat → laneReady s !!! lane = true ∨ laneActive s !!! lane = false →
  group_step size s s'.
Proof.
  intros H Hl Hready [Hwf Hm]. destruct (H Hwf) as (H1 & (E1 & E2 & E3 & E4) & Ho).
  split_and!; [|done|].
  - split; [auto|]. rewrite E1, E2. intros i l Hi Hl' Hmask.
    destruct (laneActive s' !!! l) eqn:Ea; [|by right]. destruct (E4 l Hl' Ea) as [Ha Er].
    left. rewrite Er. destruct (Hm i l Hi Hl' Hmask); congruence.
  - intros l Hl' Ha Hr. assert (l ≠ lane) by (intros ->; destruct Hready; congruence).
    pose proof (Ho l Hl' ltac:(done)) as Hs. pose proof Hs as (_&_&A3&A4&_).
    split_and!; congruence || done.
Qed.

(** A loop over the lanes whose body only concerns eligible lanes. *)
Lemma group_step_loop {X} (get : X → Vir) size n (body : nat → X → X) x :
  (n <= Lanes)%nat →
  (∀ l x, (l < n)%nat → group_wf size (get x) → group_step size (get x) (get (body l x))) →
  group_wf size (get x) → group_step size (get x) (get (for_range 0 n body x)).
Proof.
  intros Hn Hb Hwf.
  enough (group_wf size (get (for_range 0 n body x)) ∧
    group_step size (get x) (get (for_range 0 n body x))) as [_ H] by done.
  apply (for_range_inv (λ y, group_wf size (get y) ∧ group_step size (get x) (get y))).
  - split; [done|reflexivity].
  - intros l y Hl [Hy Hs]. specialize (Hb l y ltac:(lia) Hy). split; [by apply Hb|by etrans].
Qed.

Lemma eligible_true s l : eligible s l = true ↔ laneActive s !!! l = true ∧ laneReady s !!! l = true.
Proof. unfold eligible. by rewrite andb_true_iff. Qed.

Lemma group_step_exec source size p op k lane x :
  (lane < Lanes)%nat → group_step size x.1.1 (exec_lane source size p op k lane x).1.1.
Proof.
  intros Hl. destruct (eligible x.1.1 lane) eqn:E.
  - apply eligible_true in E as [_ E].
    apply (group_step_lane size lane); [|done|by left]. intros Hwf. by apply lane_step_exec.
  - destruct x as [[s r] g]. unfold exec_lane. cbn in E. rewrite E. cbn. reflexivity.
Qed.

Lemma group_step_settle size p k lane st :
  (lane < Lanes)%nat → group_step size st.1 (settle_lane p k lane st).1.
Proof.
  intros Hl. destruct st as [s r]. unfold settle_lane. case_match eqn:E; [|reflexivity].
  reflect. apply (group_step_lane size lane); [|done|].
  - intros _. apply lane_step_set_pending.
  - left. by apply eligible_true.
Qed.

Lemma group_step_drop source size lane st :
  (lane < Lanes)%nat → group_step size st.1 (drop_lane source lane st).1.
Proof.
  intros Hl. destruct st as [s r]. unfold drop_lane. cbv zeta. case_match eqn:E; [reflexivity|].
  apply negb_false_iff in E. unfold live in E. apply andb_true_iff in E as [E _].
  apply eligible_true in E as [_ E]. cbn [fst].
  apply (group_step_lane size lane); [|done|by left]. by apply lane_step_leave.
Qed.

(** *** The stack *)

Lemma group_step_restore size m p lane s :
  (lane < Lanes)%nat →
  (mask_test m lane = true → laneReady s !!! lane = true ∨ laneActive s !!! lane = false) →
  group_step size s (restore_lane m p lane s).
Proof.
  intros Hl Hm. unfold restore_lane. case_match; [|reflexivity].
  apply (group_step_lane size lane); [|done|by apply Hm]. intros _.
  etrans; [apply lane_step_set_lanePC|]. split_and!; [apply wf_blocked_update|done|].
  intros l Hl' Hn. split_and!; try done. by apply lookup_total_insert_ne.
Qed.

Lemma restore_ready m p lane s :
  laneReady (restore_lane m p lane s) = laneReady s ∧
  laneActive (restore_lane m p lane s) = laneActive s ∧
  stack (restore_lane m p lane s) = stack s ∧ stackDepth (restore_lane m p lane s) = stackDepth s.
Proof. unfold restore_lane. by case_match. Qed.

Lemma group_step_pop source size lanes lv st :
  (lanes <= Lanes)%nat → group_step size st.1 (pop_path source size lanes lv st).1.1.
Proof.
  destruct st as [s r]. intros Hn. unfold pop_path.
  destruct (Nat.eqb_spec (stackDepth s) 0) as [|Hd]; [reflexivity|]. cbv zeta.
  destruct (_ || _); [|reflexivity]. cbn [fst].
  set (top := stack s !!! (stackDepth s - 1)%nat). intros Hwf.
  set (s1 := for_range 0 lanes _ s).
  assert (group_step size s s1 ∧ laneReady s1 = laneReady s ∧ laneActive s1 = laneActive s ∧
    stack s1 = stack s ∧ stackDepth s1 = stackDepth s) as (Hs1 & _ & _ & _ & Hd1).
  { unfold s1. apply (for_range_inv (λ y, group_step size s y ∧ laneReady y = laneReady s ∧
      laneActive y = laneActive s ∧ stack y = stack s ∧ stackDepth y = stackDepth s)).
    - split_and!; [reflexivity|done..].
    - intros l y Hl (H1 & H2 & H3 & H4 & H5).
      destruct (restore_ready (deferredMask top) (deferredPC top) l y) as (R1&R2&R3&R4).
      split_and!; [|congruence..]. etrans; [done|].
      apply group_step_restore; [lia|]. rewrite H2, H3. intros Hm.
      eapply (proj2 Hwf); [|lia|exact Hm]. lia. }
  destruct (Hs1 Hwf) as ([Hw Hm] & Hc & Hwait). split_and!; [|done|exact Hwait].
  split.
  - destruct Hw. split; try done. cbn. lia.
  - cbn. intros i l Hi. apply Hm. lia.
Qed.

Lemma group_step_blocked size lane b s :
  (lane < Lanes)%nat → eligible s lane = true →
  group_step size s (s <| laneBlocked ::= <[lane := b]> |>).
Proof.
  intros Hl [_ Hr]%eligible_true. apply (group_step_lane size lane); [|done|by left].
  intros _. split_and!; [apply wf_blocked_update|done|].
  intros l Hl' Hn. split_and!; try done. by apply lookup_total_insert_ne.
Qed.

(** The deferral loop changes nothing but the blocked flags of members, and only masks them. *)
Lemma defer_loop size source g n s d0 :
  (n <= Lanes)%nat → d_mask d0 = mask_empty → group_wf size s →
  let '(s', d) := for_range 0 n (defer_lane source size g deferrable) (s, d0) in
  group_step size s s' ∧ laneReady s' = laneReady s ∧ laneActive s' = laneActive s ∧
  stack s' = stack s ∧ stackDepth s' = stackDepth s ∧ continuationLanes s' = continuationLanes s ∧
  ∀ l, (l < Lanes)%nat → mask_test (d_mask d) l = true → eligible s l = true.
Proof.
  intros Hn Hd Hwf.
  pose proof (for_range_inv (λ x : Vir * Deferral, group_step size s x.1 ∧
    laneReady x.1 = laneReady s ∧ laneActive x.1 = laneActive s ∧ stack x.1 = stack s ∧
    stackDepth x.1 = stackDepth s ∧ continuationLanes x.1 = continuationLanes s ∧
    ∀ l, (l < Lanes)%nat → mask_test (d_mask x.2) l = true → eligible s l = true)
    0 n (defer_lane source size g deferrable) (s, d0)) as H.
  destruct (for_range _ _ _ _) as [s' d]. apply H; clear H s' d.
  - split_and!; [reflexivity|done..|]. cbn. rewrite Hd. intros l _. by rewrite mask_test_empty.
  - intros l [s' d] Hl (H1&H2&H3&H4&H5&H6&H7). cbn [fst snd] in *. unfold defer_lane.
    destruct (deferrable s' l) eqn:Em; cbn [negb]; [|by split_and!].
    assert (eligible s' l = true) as He by (unfold deferrable in Em; by reflect).
    assert (eligible s l = true) as He' by (unfold eligible in *; congruence).
    cbv zeta. destruct (negb _); [|by split_and!]. cbn [fst snd d_mask].
    split_and!; [|done..|].
    + etrans; [exact H1|]. apply group_step_blocked; [lia|done].
    + intros j Hj. rewrite mask_test_set by (unfold Lanes in *; lia). case_bool_decide; subst; [done|]. by apply H7.
Qed.

Lemma group_step_diverge size source n op g st :
  (n <= Lanes)%nat → group_step size st.1 (diverge source size n op g deferrable st).1.1.
Proof.
  destruct st as [s r]. intros Hn Hwf. unfold diverge.
  destruct (_ && _); [|by apply (reflexivity (R := group_step size))]. cbv zeta.
  destruct (Nat.leb_spec ReconvergenceEntries (stackDepth s));
    [by apply (reflexivity (R := group_step size))|].
  pose proof (defer_loop size source g n s (mkDeferral mask_empty 0 false) Hn eq_refl Hwf) as H1.
  destruct (for_range _ _ _ _) as [s' d]. destruct H1 as (Hs & Er & Ea & Es & Ed & Ec & Hm).
  destruct (Hs Hwf) as (Hwf' & _ & Hw). cbn [fst]. split_and!; [|exact Ec|exact Hw].
  destruct Hwf' as [Hv Hmask]. split.
  - destruct Hv. split; try done; cbn; [by rewrite length_insert|lia].
  - cbn. intros i l Hi Hl. rewrite lookup_total_insert_case by (rewrite (wf_stack _ _ Hv); lia).
    case_bool_decide; subst.
    + cbn. intros Hm'. left. apply Hm in Hm'; [|done]. apply eligible_true in Hm' as [_ Hm'].
      by rewrite Er.
    + apply Hmask; lia.
Qed.

(** *** Steps *)

Lemma live_eligible s l : live s l = true → eligible s l = true.
Proof. unfold live. intros H. by reflect. Qed.

Lemma group_step_fetch source size l s :
  (l < Lanes)%nat → live s l = true → group_step size s (fetch source 1 size l s).1.
Proof.
  intros Hl Hlive. apply live_eligible, eligible_true in Hlive as [_ Hr].
  apply (group_step_lane size l); [|done|by left]. intros Hwf.
  destruct (fetch source 1 size l s) as [s' f] eqn:E. apply lane_step_only.
  - intros _. by apply (fetch_wf source 1 size l s s' f ltac:(lia) Hl Hwf E).
  - by eapply only_fetch.
  - by apply (fetch_wf source 1 size l s s' f ltac:(lia) Hl Hwf E).
  - unfold fetch in E. by repeat case_match; simplify_eq.
Qed.

Lemma group_step_select source size resumed s :
  group_step size s (select source size resumed s).1.1.
Proof.
  intros Hwf. unfold select. cbv zeta.
  destruct (find_from _ _ _) as [l|] eqn:E; [|by apply (reflexivity (R := group_step size))].
  apply find_from_Some in E as (Hl & Hp & _). reflect.
  assert (l < Lanes)%nat by (pose proof (wf_lanes _ _ (proj1 Hwf)); lia).
  pose proof (group_step_fetch source size l s ltac:(done) ltac:(done)) as Hs.
  destruct (fetch source 1 size l s) as [s' f]. by apply Hs.
Qed.

Lemma group_step_issue source size p k st :
  group_step size st.1 (issue_group source size p k st).1.1.
Proof.
  destruct st as [s r]. intros Hwf. unfold issue_group. cbv zeta. cbn [fst] in Hwf |- *.
  pose proof (wf_lanes _ _ (proj1 Hwf)) as Hn.
  destruct (_ && _); [by apply (reflexivity (R := group_step size))|].
  set (r1 := if alternatePath _ then _ else r). clearbody r1.
  assert (group_step size s
    (for_range 0 (continuationLanes s) (settle_lane p k) (s, r1)).1) as H1.
  { apply (group_step_loop fst size _ _ (s, r1)); [done| |done].
    intros l x Hl _. apply group_step_settle. lia. }
  destruct (for_range _ _ (settle_lane _ _) _) as [s1 r2]. cbn [fst] in H1.
  destruct (H1 Hwf) as (Hwf1 & Hc1 & _).
  assert (group_step size s1 (for_range 0 (continuationLanes s)
    (exec_lane source size p (source !!! k) k) ((s1, r2 <| pcGroups ::= inc32 |>), Group_init)).1.1)
    as H2.
  { apply (group_step_loop (λ x : St * Group, x.1.1) size _ _
      ((s1, r2 <| pcGroups ::= inc32 |>), Group_init)); [done| |done].
    intros l x Hl _. apply group_step_exec. lia. }
  destruct (for_range _ _ (exec_lane _ _ _ _ _) _) as [[s2 r3] g]. cbn [fst] in H2.
  assert (group_step size s s2) as H12 by (etrans; [exact H1|exact H2]).
  destruct (negb _); [by apply H12|].
  set (r4 := _ <| maxPCGroupLanes ::= _ |>). clearbody r4.
  pose proof (group_step_diverge size source (continuationLanes s) (source !!! k) g (s2, r4) Hn) as H3.
  destruct (diverge _ _ _ _ _ _ _) as [[s3 r5] f]. cbn [fst] in H3.
  assert (group_step size s s3) as H13 by (etrans; [exact H12|exact H3]).
  destruct f; by apply H13.
Qed.

Lemma group_step_step source size st :
  group_step size st.1 (step_group source size st).1.1.
Proof.
  intros Hwf. unfold step_group.
  pose proof (group_step_pop source size (continuationLanes st.1) live st
    (wf_lanes _ _ (proj1 Hwf))) as H1.
  destruct (pop_path _ _ _ _ _) as [[s1 r1] resumed]. cbn [fst] in H1.
  pose proof (group_step_select source size resumed s1) as H2.
  destruct (select _ _ _ _) as [[s2 p] found]. cbn [fst] in H2.
  assert (group_step size st.1 s2) as H12 by (etrans; [exact H1|exact H2]).
  destruct (H12 Hwf) as (Hwf2 & _ & _). destruct found as [k|].
  - assert (group_step size st.1 (issue_group source size p k (s2, r1)).1.1) as H;
      [|by apply H]. etrans; [exact H12|]. apply (group_step_issue source size p k (s2, r1)).
  - cbn [fst]. assert (group_step size st.1
      (for_range 0 (continuationLanes s2) (drop_lane source) (s2, r1)).1) as H; [|by apply H].
    etrans; [exact H12|]. pose proof (wf_lanes _ _ (proj1 Hwf2)).
    apply (group_step_loop fst size _ _ (s2, r1)); [done| |done].
    intros l x Hl _. apply group_step_drop. lia.
Qed.

(** Resuming a lane: it becomes ready, the group steps run. *)
Lemma group_resume source size lane d v n s :
  group_wf size s →
  let s' := (resumeSourceLanes source size lane d v n s).1 in
  group_wf size s' ∧ continuationLanes s' = continuationLanes s ∧
  ∀ l, (l < Lanes)%nat → l ≠ lane → laneActive s !!! l = true → laneReady s !!! l = false →
    waiting l s s'.
Proof.
  intros Hwf. unfold resumeSourceLanes. cbv zeta.
  destruct (_ || _ || _ || _ || _) eqn:Hg.
  { split_and!; [done..|]. intros. by split_and!. }
  reflect. pose proof (wf_lanes _ _ (proj1 Hwf)) as Hn.
  assert (lane < Lanes)%nat as Hl by lia.
  set (s1 := (write_source d lane v s) <| laneReady ::= <[lane := true]> |>).
  assert (laneActive s1 = laneActive s ∧ stack s1 = stack s ∧ stackDepth s1 = stackDepth s ∧
    continuationLanes s1 = continuationLanes s ∧
    laneReady s1 = <[lane := true]> (laneReady s)) as (E1 & E2 & E3 & E4 & E5)
    by (unfold s1, write_source; by case_match).
  assert (∀ l, (l < Lanes)%nat → l ≠ lane → same_lane l s s1) as Hsame.
  { intros l Hl' Hne. etrans; [by apply (only_write_source d lane v s)|].
    split_and!; try done. by apply lookup_total_insert_ne. }
  assert (group_wf size s1) as Hwf1.
  { split; [by apply wf_ready_update, wf_write_source, Hwf|]. rewrite E1, E2, E3, E5.
    intros i l Hi Hl' Hm. destruct (decide (l = lane)) as [->|].
    - left. apply lookup_total_insert_eq. by rewrite (wf_ready _ _ (proj1 Hwf)).
    - rewrite lookup_total_insert_ne by done. by apply (proj2 Hwf i). }
  assert (∀ l, (l < Lanes)%nat → l ≠ lane → laneActive s !!! l = true →
    laneReady s !!! l = false → laneActive s1 !!! l = true ∧ laneReady s1 !!! l = false) as Hw1.
  { intros l Hl' Hne Ha Hr. rewrite E1, E5. split; [done|]. by rewrite lookup_total_insert_ne. }
  clearbody s1. destruct (negb _).
  { split_and!; [done..|]. intros l Hl' Hne Ha Hr. destruct (Hw1 l Hl' Hne Ha Hr).
    split_and!; auto. }
  pose proof (run_loop_inv (λ st : St, group_wf size st.1 ∧ group_step size s1 st.1) n
    (step_group source size) (s1, Result_init)) as HL.
  destruct (run_loop _ _ _) as [[s2 r] f]. cbn [fst] in HL.
  destruct HL as [Hwf2 Hstep].
  { split; [done|reflexivity]. }
  { intros st [Hst Hst']. pose proof (group_step_step source size st) as Hs.
    split; [by apply Hs|by etrans]. }
  destruct (Hstep Hwf1) as (_ & Hc & Hwait).
  assert (∀ l, (l < Lanes)%nat → l ≠ lane → laneActive s !!! l = true →
    laneReady s !!! l = false → waiting l s s2) as Hfinal.
  { intros l Hl' Hne Ha Hr. destruct (Hw1 l Hl' Hne Ha Hr) as [Ha1 Hr1].
    destruct (Hwait l Hl' Ha1 Hr1) as (Hs2 & Ha2 & Hr2). split_and!; [|done|done].
    etrans; [by apply Hsame|done]. }
  destruct f; [case_match| case_match|]; cbn [fst]; split_and!; try done; congruence.
Qed.

Lemma initialize_depth source size lanes regs sc past :
  stackDepth (initializeSourceContinuation source size lanes regs sc past) = 0%nat.
Proof.
  unfold initializeSourceContinuation. cbv zeta. case_match; [done|].
  apply (for_range_inv (λ s, stackDepth s = 0%nat)); [done|]. intros l s _ Hs.
  unfold init_lane, load_lane. by apply (for_range_inv (λ s, stackDepth s = 0%nat)).
Qed.

Lemma reachable_wf source size s : reachable source size s → group_wf size s.
Proof.
  induction 1 as [lanes regs sc past|lane d v n s _ IH].
  - split; [apply wf_initialize|]. rewrite initialize_depth. intros i l Hi. lia.
  - by apply group_resume.
Qed.

(** ** Properties *)

(** C6: scheduler invariant.  After any sequence of source responses the arrays have kept
    their extents, the reconvergence stack holds at most eight entries, the active mask is
    exactly the set of active lanes, every fetch window lies in the template, and a deferred
    mask only names lanes that have their source value or have left. *)
Theorem scheduler_invariant (source : list Uop) (size : nat) (s : Vir) :
  reachable source size s → group_wf size s.
Proof. apply reachable_wf. Qed.

(** A machine two lanes wide after the response of its first lane. *)
Lemma diamond_reachable :
  reachable diamond 5 (resumeSourceLanes diamond 5 0 10 0 1000 diamond_start).1.
Proof. apply reach_response, reach_init. Qed.

Lemma scheduler_invariant_witness :
  group_wf 5 (resumeSourceLanes diamond 5 0 10 0 1000 diamond_start).1.
Proof. apply (scheduler_invariant diamond), diamond_reachable. Defined.

(** No lane runs ahead of its data.  While the response of some lane is processed, every
    other active lane whose own source value has not arrived keeps its registers, PC, window,
    pending reconvergences and place in the active mask. *)
Theorem waiting_lane_untouched (source : list Uop) (size lane l : nat) (d v : Z) (n : nat)
    (s : Vir) :
  reachable source size s → (l < Lanes)%nat → l ≠ lane →
  laneActive s !!! l = true → laneReady s !!! l = false →
  waiting l s (resumeSourceLanes source size lane d v n s).1.
Proof. intros H. by apply group_resume, (reachable_wf source). Qed.

Lemma waiting_lane_untouched_witness :
  laneValue (resumeSourceLanes diamond 5 0 10 7 1000 diamond_start).1 10 1 = Some 0.
Proof.
  destruct (waiting_lane_untouched diamond 5 0 1 10 7 1000 diamond_start) as [[Hr _] _];
    [apply reach_init|unfold Lanes; lia|done|by vm_compute|by vm_compute|].
  unfold laneValue. cbn [andb Nat.ltb]. 
  change ((10 <? NumRegs)%nat && (1 <? Lanes)%nat) with true. cbn iota.
  rewrite Hr. by vm_compute.
Defined.

(** A deferred lane whose saved PC the selected path reaches is executed there although
    it is blocked, and again once it is popped: on [diamond] the second lane adds one to a2
    twice, where the lane by itself, like the program, adds it once. *)
Theorem blocked_lane_reexecutes :
  laneValue (respond_all diamond 5 0 [0; 1] diamond_start) 12 1 = Some 2 ∧
  laneValue (VirLane.resumeSourceLane diamond 5 1 10 1 1000 diamond_start).1 12 1 = Some 1 ∧
  laneValue (respond_all diamond 5 0 [0; 1] diamond_start) 12 0 = Some 1.
Proof. by vm_compute. Qed.

(** A nested divergence defers every eligible lane under one saved PC, the lanes already
    deferred by the outer branch included: on [nested] the second lane resumes at the outer
    target and never executes the two additions its own path holds. *)
Theorem nested_divergence_loses_pc :
  let s := respond_all nested 7 0 [1; 0; 5] nested_start in
  laneValue s 11 1 = Some 0 ∧ laneValue s 12 1 = Some 0 ∧
  let t := (VirLane.resumeSourceLane nested 7 1 10 0 1000 nested_start).1 in
  laneValue t 11 1 = Some 1 ∧ laneValue t 12 1 = Some 1.
Proof. by vm_compute. Qed.

End VirGroup.
