(* ===== verification/VirExec.v ===== *)
(** * The initial vector pass

    Model of [DVRVectorInstructionRegister::executeLanePC], [execute] and
    [executeFromSource] (src/cpu/o3/pre.cc): the interpreter that runs all lanes of the
    captured program from its entry, with lane-local windows and activity.  Its specification
    is a scalar machine. *)

From S2P Require Import Prelude Inst Uop Recorder Vir VirGroup.

Module VirExec.
Import Uop Recorder Vir.

(** The VIR, the result and the local arrays [lane_active], [lane_window_start],
    [lane_window_end]. *)
Record Exec := mkExec {
  vir : Vir;
  result : Result;
  lane_active : list bool;
  lane_window_start : list nat;
  lane_window_end : list nat
}.

#[export] Instance eta_Exec : Eta Exec := λ r,
  mkExec (vir r) (result r) (lane_active r) (lane_window_start r) (lane_window_end r).

Section Program.
Context (source : list Uop) (size lanes start_index : nat).

(** The set-up of one lane: activity, PC, window and mask, then the registers. *)
Definition prepare_lane (lane : nat) (e : Exec) : Exec :=
  e <| lane_active ::= <[lane := true]> |>
    <| vir ::= set_lanePC lane (Uop.pc (source !!! start_index)) |>
    <| lane_window_start ::= <[lane := start_index]> |>
    <| lane_window_end ::= <[lane := window_end start_index size]> |>
    <| vir ::= λ s, s <| activeMask ::= λ m, mask_set m lane |> |>.

Definition setup_lane (initial_regs : list Z) (source_destination source_value : Z)
    (lane : nat) (e : Exec) : Exec :=
  let e := prepare_lane lane e in
  let e := e <| vir := load_lane initial_regs lane (vir e) |> in
  e <| vir := write_source source_destination lane source_value (vir e) |>.

Definition setup (initial_regs : list Z) (source_destination source_value : Z) : Exec :=
  for_range 0 lanes (setup_lane initial_regs source_destination source_value)
    (mkExec reset (Result_init <| activeLanes := Z.of_nat lanes |>)
       (replicate Lanes false) (replicate Lanes 0%nat) (replicate Lanes 0%nat)).

(** [lane_active[lane] = false] and the matching bit of [activeMask]. *)
Definition deactivate (lane : nat) (e : Exec) : Exec :=
  e <| lane_active ::= <[lane := false]> |>
    <| vir ::= λ s, s <| activeMask ::= λ m, mask_clear m lane |> |>.

(** The lanes of the selected path. *)
Definition selected (e : Exec) (s : Vir) (lane : nat) : bool :=
  lane_active e !!! lane && negb (laneBlocked s !!! lane).

Definition pop (e : Exec) : Exec * bool :=
  let '((s, r), resumed) := VirGroup.pop_path source size lanes (selected e) (vir e, result e) in
  (e <| vir := s |> <| result := r |>, resumed).

(** The PC of the path just restored. *)
Definition resumed_pc (resumed : bool) (e : Exec) : Z :=
  if resumed && (stackDepth (vir e) <? ReconvergenceEntries)%nat then
    match find_from 0 lanes (λ l, selected e (vir e) l && negb (lanePC (vir e) !!! l =? 0)) with
    | Some l => lanePC (vir e) !!! l
    | None => 0
    end
  else 0.

(** One lane of the selection loop; [found] is [op_index] once it is set. *)
Definition select_lane (resumed : bool) (lane : nat) (x : Exec * Z * option nat)
  : Exec * Z * option nat :=
  let '(e, group_pc, found) := x in
  match found with
  | Some _ => x
  | None =>
      let p := lanePC (vir e) !!! lane in
      if negb (selected e (vir e) lane) then x
      else if resumed && negb (group_pc =? 0) && negb (p =? group_pc) then x
      else match scan source (lane_window_start e !!! lane) (lane_window_end e !!! lane) p with
      | Some k => (e, p, Some k)
      | None =>
          match scan source 0 size p with
          | Some k =>
              (e <| lane_window_start ::= <[lane := k]> |>
                 <| lane_window_end ::= <[lane := window_end k size]> |>, p, Some k)
          | None =>
              let e := if negb (p =? 0) then e <| result ::= note_external |> else e in
              (deactivate lane e, group_pc, None)
          end
      end
  end.

Definition select (resumed : bool) (e : Exec) : Exec * Z * option nat :=
  for_range 0 lanes (select_lane resumed) (e, resumed_pc resumed e, None).

(** The predicate of a branch: only a response-driven run evaluates it. *)
Definition lane_taken (op : Uop) (lhs rhs : Z) (r : Result) : bool * Result :=
  if tainted op && negb (start_index =? 0)%nat then
    match evaluateBranch op lhs rhs with
    | Some t => (t, r)
    | None => (branchTaken op, note_external r)
    end
  else (branchTaken op, r).

(** The uop on one lane of the group. *)
Definition exec_uop (op : Uop) (op_index lane : nat) (x : Exec * VirGroup.Group)
  : Exec * VirGroup.Group :=
  let '(e, g) := x in
  let lhs := operand (vir e) (source0 op) lane in
  let rhs := operand (vir e) (source1 op) lane in
  if conditional op then
    let '(taken, r) := lane_taken op lhs rhs (result e) in
    let next := branch_next op source size op_index taken in
    let r := if next =? 0 then r <| earlyExitLanes ::= inc32 |> else r in
    (e <| vir ::= set_lanePC lane next |> <| result := r |>, VirGroup.note_taken lane taken g)
  else if is_jump op then
    let next := branchTargetPC op in
    (e <| vir ::= set_lanePC lane next |>
       <| result ::= λ r, if next =? 0 then r <| earlyExitLanes ::= inc32 |>
                          else if next =? Uop.pc (source !!! 0%nat)
                          then r <| normalTerminatedLanes ::= inc32 |> else r |>, g)
  else if is_return op then
    (deactivate lane (e <| result ::= λ r, r <| normalTerminatedLanes ::= inc32 |> |>), g)
  else if is_skip op then
    let next := sequential source size op_index in
    (e <| vir ::= set_lanePC lane next |>
       <| result ::= λ r, if next =? 0 then r <| normalTerminatedLanes ::= inc32 |> else r |>, g)
  else match evaluate op lhs rhs with
  | None => (deactivate lane (e <| result ::= note_unsupported op |>), g)
  | Some v =>
      let next := sequential source size op_index in
      (e <| vir ::= λ s, set_lanePC lane next (write_dest (destination op) lane v s) |>
         <| result ::= λ r, if next =? 0 then r <| normalTerminatedLanes ::= inc32 |> else r |>, g)
  end.

(** The body of the lane loop; [executing] collects the lanes of the group.  As in
    [resumeSourceLanes], blocked lanes at the group's PC are not skipped. *)
Definition exec_lane (group_pc : Z) (op : Uop) (op_index lane : nat)
    (x : Exec * VirGroup.Group * list bool) : Exec * VirGroup.Group * list bool :=
  let '(e, g, executing) := x in
  if negb (lane_active e !!! lane) || negb (lanePC (vir e) !!! lane =? group_pc) then x
  else
    let '(e, g) := exec_uop op op_index lane (e, g) in
    (e, g, <[lane := true]> executing).

(** The accounting of one 16-lane chunk. *)
Definition count_chunk (executing : list bool) (chunk : nat) (e : Exec) : Exec :=
  let first := (chunk * 16)%nat in
  let last := Nat.min (first + 16) lanes in
  if VirGroup.any_lane (last - first)
       (λ i, executing !!! (first + i)%nat && lane_active e !!! (first + i)%nat)
  then e <| vir ::= λ s, s <| issuedChunks ::= λ w, u16 (set_bit w chunk) |>
                           <| executedChunks ::= λ w, u16 (set_bit w chunk) |> |>
         <| result ::= λ r, r <| chunkIssues ::= inc32 |> <| chunkExecutions ::= inc32 |> |>
  else e.

Definition chunks : nat := (lanes + 15) / 16.

(** [any_active] *)
Definition any_active (e : Exec) : bool :=
  VirGroup.any_lane lanes (λ l, lane_active e !!! l && negb (lanePC (vir e) !!! l =? 0)).

(** A selected uop, from the lane loop to the end of the step. *)
Definition issue (group_pc : Z) (op_index : nat) (e : Exec) : Exec * Flow :=
  let op := source !!! op_index in
  let e := if alternatePath op
           then e <| result ::= λ r, r <| alternatePathUops ::= inc32 |> |> else e in
  let '(e, g, executing) := for_range 0 lanes (exec_lane group_pc op op_index)
                              (e, VirGroup.Group_init, replicate Lanes false) in
  let '((s, r), f) := VirGroup.diverge source size lanes op g (λ _ l, executing !!! l)
                        (vir e, result e) in
  let e := e <| vir := s |> <| result := r |> in
  match f with
  | Continue =>
      let e := for_range 0 chunks (count_chunk executing) e in
      let e := e <| result ::= λ r, r <| helperUops ::= inc32 |> |> in
      (e, if negb (any_active e) && (stackDepth (vir e) =? 0)%nat then Break else Continue)
  | _ => (e, f)
  end.

(** One scheduling step. *)
Definition step (e : Exec) : Exec * Flow :=
  let '(e, resumed) := pop e in
  let '(e, group_pc, found) := select resumed e in
  match found with
  | None => (e, Break)
  | Some op_index => issue group_pc op_index e
  end.

(** The timeout at the end. *)
Definition finish (max_helper_uops : nat) (e : Exec) : Exec :=
  if Z.of_nat max_helper_uops <=? helperUops (result e)
  then e <| result ::= λ r, r <| timedOut := any_active e |> |> else e.
End Program.

(** [executeLanePC] *)
Definition executeLanePC (program : Recorder) (lanes max_helper_uops : nat)
    (initial_regs : list Z) (start_index : nat) (source_destination source_value : Z)
  : Vir * Result :=
  let lanes := Nat.min lanes Lanes in
  let size := count program in
  if (size =? 0)%nat || (size <=? start_index)%nat || (lanes =? 0)%nat
     || (max_helper_uops =? 0)%nat
  then (reset, Result_init)
  else
    let e := setup (uops program) size lanes start_index initial_regs
               source_destination source_value in
    let '(e, f) := run_loop max_helper_uops (step (uops program) size lanes start_index) e in
    let e := match f with Return => e | _ => finish lanes max_helper_uops e end in
    (vir e, result e).

(** [execute]; what follows its [return] is unreachable. *)
Definition execute (program : Recorder) (lanes max_helper_uops : nat) (initial_regs : list Z)
  : Vir * Result :=
  executeLanePC program lanes max_helper_uops initial_regs 0 (-1) 0.

(** [executeFromSource] *)
Definition executeFromSource (source : list Uop) (size : nat)
    (source_destination source_value : Z) (max_helper_uops : nat) (initial_regs : list Z)
  : Vir * Result :=
  executeLanePC (import source size) 1 max_helper_uops initial_regs 1
    source_destination source_value.

(** ** Specification: one scalar lane *)

Record Scalar := mkScalar {
  sc_pc : Z;  sc_regs : list Z;  sc_active : bool;  sc_start : nat;  sc_end : nat
}.

#[export] Instance eta_Scalar : Eta Scalar := λ r,
  mkScalar (sc_pc r) (sc_regs r) (sc_active r) (sc_start r) (sc_end r).

Definition sc_operand (c : Scalar) (src : Z) : Z :=
  if 0 <=? src then sc_regs c !!! Z.to_nat src else 0.

Section Scalar.
Context (source : list Uop) (size start_index : nat).

Definition sc_taken (op : Uop) (c : Scalar) : bool :=
  if tainted op && negb (start_index =? 0)%nat
  then default (branchTaken op)
         (evaluateBranch op (sc_operand c (source0 op)) (sc_operand c (source1 op)))
  else branchTaken op.

Definition sc_uop (op : Uop) (k : nat) (c : Scalar) : Scalar :=
  if conditional op then c <| sc_pc := branch_next op source size k (sc_taken op c) |>
  else if is_jump op then c <| sc_pc := branchTargetPC op |>
  else if is_return op then c <| sc_active := false |>
  else if is_skip op then c <| sc_pc := sequential source size k |>
  else match evaluate op (sc_operand c (source0 op)) (sc_operand c (source1 op)) with
  | None => c <| sc_active := false |>
  | Some v =>
      (if 0 <=? destination op then c <| sc_regs ::= <[Z.to_nat (destination op) := v]> |> else c)
        <| sc_pc := sequential source size k |>
  end.

Definition sc_fetch (c : Scalar) : Scalar * option nat :=
  match scan source (sc_start c) (sc_end c) (sc_pc c) with
  | Some k => (c, Some k)
  | None =>
      match scan source 0 size (sc_pc c) with
      | Some k => (c <| sc_start := k |> <| sc_end := window_end k size |>, Some k)
      | None => (c <| sc_active := false |>, None)
      end
  end.

(** The machine and the uops it has executed; a machine that left stays where it is. *)
Definition sc_step (x : Scalar * Z) : (Scalar * Z) * Flow :=
  let '(c, h) := x in
  if negb (sc_active c) then (x, Break)
  else
    let '(c, found) := sc_fetch c in
    match found with
    | None => ((c, h), Break)
    | Some k =>
        let c := sc_uop (source !!! k) k c in
        ((c, inc32 h), if sc_active c && negb (sc_pc c =? 0) then Continue else Break)
    end.

(** The scalar run of [n] uops from [start_index]. *)
Definition sc_run (n : nat) (regs : list Z) : Scalar * Z :=
  (run_loop n sc_step
     (mkScalar (Uop.pc (source !!! start_index)) regs true start_index
        (window_end start_index size), 0)).1.
End Scalar.

(** ** Lemmas *)

(** A lane shows the scalar machine. *)
Definition view (e : Exec) (l : nat) (c : Scalar) : Prop :=
  lane_active e !!! l = sc_active c ∧ lanePC (vir e) !!! l = sc_pc c ∧
  ∀ reg, lane_reg (vir e) reg l = sc_regs c !!! reg.

(** The extents the interpreter keeps. *)
Record exec_wf (e : Exec) : Prop := {
  ew_regs : length (vectorRegs (vir e)) = NumRegs;
  ew_row : ∀ reg, (reg < NumRegs)%nat → length (vectorRegs (vir e) !!! reg) = Lanes;
  ew_pc : length (lanePC (vir e)) = Lanes;
  ew_active : length (lane_active e) = Lanes;
  ew_start : length (lane_window_start e) = Lanes;
  ew_end : length (lane_window_end e) = Lanes
}.

(** The results the reconvergence stack would change. *)
Definition quiet (r : Result) :=
  (divergentBranches r, reconvergences r, alternatePathReconvergences r, stackOverflow r,
   helperUops r).

(** What the uop of a group leaves alone. *)
Definition kept (e e' : Exec) : Prop :=
  stackDepth (vir e') = stackDepth (vir e) ∧ laneBlocked (vir e') = laneBlocked (vir e) ∧
  lane_window_start e' = lane_window_start e ∧ lane_window_end e' = lane_window_end e ∧
  quiet (result e') = quiet (result e).

#[export] Instance kept_preorder : PreOrder kept.
Proof.
  split; [by intros e; split_and!|]. intros e1 e2 e3 (?&?&?&?&?) (?&?&?&?&?).
  split_and!; congruence.
Qed.

(** The effect of one lane's uop. *)
Definition lane_effect (lane : nat) (c' : Scalar) (e e' : Exec) : Prop :=
  exec_wf e' ∧ kept e e' ∧ view e' lane c' ∧
  ∀ l c, l ≠ lane → view e l c → view e' l c.

Lemma effect_set_pc lane p c e f :
  (lane < Lanes)%nat → exec_wf e → view e lane c → (∀ r, quiet (f r) = quiet r) →
  lane_effect lane (c <| sc_pc := p |>) e (e <| vir ::= set_lanePC lane p |> <| result ::= f |>).
Proof.
  intros Hl [] (V1 & V2 & V3) Hf. split_and!.
  - split; try done. unfold set_lanePC. cbn. by rewrite length_insert.
  - split_and!; try done. apply Hf.
  - split_and!; [done| |done]. unfold set_lanePC. cbn. apply lookup_total_insert_eq. lia.
  - intros l c' Hne (W1 & W2 & W3). split_and!; [done| |done]. unfold set_lanePC. cbn.
    by rewrite lookup_total_insert_ne.
Qed.

Lemma effect_deactivate lane c e f :
  (lane < Lanes)%nat → exec_wf e → view e lane c → (∀ r, quiet (f r) = quiet r) →
  lane_effect lane (c <| sc_active := false |>) e (deactivate lane (e <| result ::= f |>)).
Proof.
  intros Hl [] (V1 & V2 & V3) Hf. split_and!.
  - split; try done. cbn. by rewrite length_insert.
  - split_and!; try done. apply Hf.
  - split_and!; [|done|done]. cbn. apply lookup_total_insert_eq. lia.
  - intros l c' Hne (W1 & W2 & W3). split_and!; [|done|done]. cbn.
    by rewrite lookup_total_insert_ne.
Qed.

Lemma lane_reg_write_dest d lane v s reg l :
  length (vectorRegs s) = NumRegs →
  (∀ reg, (reg < NumRegs)%nat → length (vectorRegs s !!! reg) = Lanes) → (lane < Lanes)%nat →
  lane_reg (write_dest d lane v s) reg l =
    if decide (l = lane ∧ 0 <= d ∧ reg = Z.to_nat d ∧ (reg < NumRegs)%nat) then v
    else lane_reg s reg l.
Proof.
  intros H1 H2 Hl. unfold write_dest. destruct (Z.leb_spec 0 d) as [Hd|Hd].
  2: { destruct (decide _) as [(?&?&_)|]; [lia|done]. }
  destruct (decide (l = lane)) as [->|Hne].
  2: { rewrite lane_reg_set by done. destruct (decide _) as [(?&_)|]; done. }
  unfold set_lane_reg, lane_reg. cbn. destruct (decide (Z.to_nat d < NumRegs)%nat) as [Hlt|Hge].
  - rewrite lookup_total_insert_case by lia. case_bool_decide as E.
    + subst reg. rewrite lookup_total_insert_eq by (rewrite H2; lia).
      destruct (decide _) as [|Hn]; [done|]. exfalso. by apply Hn.
    + destruct (decide _) as [(_&_&->&_)|]; done.
  - rewrite list_insert_ge by lia. destruct (decide _) as [(_&_&->&?)|]; [lia|done].
Qed.

Lemma effect_value lane d v p c e f :
  (lane < Lanes)%nat → exec_wf e → length (sc_regs c) = NumRegs → view e lane c →
  (∀ r, quiet (f r) = quiet r) →
  lane_effect lane
    ((if 0 <=? d then c <| sc_regs ::= <[Z.to_nat d := v]> |> else c) <| sc_pc := p |>) e
    (e <| vir ::= λ s, set_lanePC lane p (write_dest d lane v s) |> <| result ::= f |>).
Proof.
  intros Hl [] Hlen (V1 & V2 & V3) Hf.
  assert (stackDepth (write_dest d lane v (vir e)) = stackDepth (vir e) ∧
    laneBlocked (write_dest d lane v (vir e)) = laneBlocked (vir e) ∧
    lanePC (write_dest d lane v (vir e)) = lanePC (vir e)) as (E1 & E2 & E3)
    by (unfold write_dest; by case_match).
  split_and!.
  - split; try done; unfold set_lanePC, write_dest; cbn; case_match; try done;
      unfold set_lane_reg; cbn; rewrite ?length_insert; try done.
    intros reg Hr. destruct (decide (Z.to_nat d < NumRegs)%nat).
    + rewrite lookup_total_insert_case by lia. case_bool_decide; subst;
        rewrite ?length_insert; auto.
    + rewrite list_insert_ge by lia. auto.
  - split_and!; try done. apply Hf.
  - split_and!.
    + unfold set_lanePC. cbn. by case_match.
    + unfold set_lanePC. cbn. rewrite E3. apply lookup_total_insert_eq. lia.
    + intros reg. unfold set_lanePC. cbn.
      change (lane_reg (write_dest d lane v (vir e)) reg lane =
        sc_regs (if 0 <=? d then c <| sc_regs ::= <[Z.to_nat d := v]> |> else c) !!! reg).
      rewrite lane_reg_write_dest by done. destruct (Z.leb_spec 0 d); cbn.
      * destruct (decide (Z.to_nat d < NumRegs)%nat).
        -- rewrite lookup_total_insert_case by lia. rewrite V3.
           case_bool_decide; subst; destruct (decide _) as [(_&_&?&_)|Hn]; try done.
           exfalso. by apply Hn.
        -- rewrite list_insert_ge by lia.
           destruct (decide _) as [(_&_&->&?)|]; [lia|apply V3].
      * destruct (decide _) as [(_&?&_)|]; [lia|apply V3].
  - intros l c' Hne (W1 & W2 & W3). split_and!; [done| |].
    + unfold set_lanePC. cbn. rewrite E3. by rewrite lookup_total_insert_ne.
    + intros reg. change (lane_reg (write_dest d lane v (vir e)) reg l = sc_regs c' !!! reg).
      rewrite lane_reg_write_dest by done. destruct (decide _) as [(?&_)|]; [done|apply W3].
Qed.

Lemma view_operand e l c src : view e l c → operand (vir e) src l = sc_operand c src.
Proof. intros (_ & _ & H). unfold operand, sc_operand. case_match; [apply H|done]. Qed.

Lemma quiet_note_unsupported op r : quiet (note_unsupported op r) = quiet r.
Proof. unfold note_unsupported. by case_match. Qed.

Lemma sc_uop_length source size start op k c :
  length (sc_regs c) = NumRegs → length (sc_regs (sc_uop source size start op k c)) = NumRegs.
Proof. intros H. unfold sc_uop. repeat case_match; cbn; rewrite ?length_insert; done. Qed.

Lemma sc_uop_window source size start op k c :
  sc_start (sc_uop source size start op k c) = sc_start c ∧
  sc_end (sc_uop source size start op k c) = sc_end c.
Proof. unfold sc_uop. by repeat case_match. Qed.

(** The group locals after lane [lane] took outcome [t], for a conditional. *)
Definition group_after (op : Uop) (lane : nat) (t : bool) (g : VirGroup.Group) : VirGroup.Group :=
  if conditional op then VirGroup.note_taken lane t g else g.

Lemma exec_uop_effect source size start op k lane e g c :
  (lane < Lanes)%nat → exec_wf e → length (sc_regs c) = NumRegs → view e lane c →
  let x := exec_uop source size start op k lane (e, g) in
  lane_effect lane (sc_uop source size start op k c) e x.1 ∧
  x.2 = group_after op lane (sc_taken start op c) g.
Proof.
  intros Hl Hwf Hlen Hv. unfold exec_uop, sc_uop, group_after.
  rewrite !(view_operand e lane c) by done. destruct (conditional op) eqn:Ec.
  { unfold lane_taken, sc_taken.
    assert (∀ b t r', quiet r' = quiet (result e) → t = b →
      lane_effect lane (c <| sc_pc := branch_next op source size k b |>) e
        (e <| vir ::= set_lanePC lane (branch_next op source size k t) |>
           <| result := if branch_next op source size k t =? 0
                        then r' <| earlyExitLanes ::= inc32 |> else r' |>)) as H.
    { intros b t r' Hq ->. 
      pose proof (effect_set_pc lane (branch_next op source size k b) c e (λ r, r) Hl Hwf Hv
        ltac:(done)) as (H1 & H2 & H3 & H4).
      split_and!; [by destruct H1| |done|done]. destruct H2 as (K1&K2&K3&K4&_).
      split_and!; [done..|]. cbn. by case_match. }
    destruct (_ && _); [destruct (evaluateBranch op _ _) as [t|]|]; cbn [fst snd default];
      (split; [by apply H|done]). }
  destruct (is_jump op).
  { split; [|done]. cbn [fst]. apply effect_set_pc; try done. intros r. by repeat case_match. }
  destruct (is_return op); [split; [by apply effect_deactivate|done]|].
  destruct (is_skip op).
  { split; [|done]. cbn [fst]. apply effect_set_pc; try done. intros r. by case_match. }
  destruct (evaluate op _ _) as [v|]; (split; [|done]); cbn [fst].
  - apply effect_value; try done. intros r. by case_match.
  - apply effect_deactivate; try done. apply quiet_note_unsupported.
Qed.

(** *** The lanes in lockstep *)

(** Every lane below [lanes] shows [c]; no path is deferred. *)
Definition lockstep (lanes size : nat) (e : Exec) (c : Scalar) : Prop :=
  exec_wf e ∧ length (sc_regs c) = NumRegs ∧ stackDepth (vir e) = 0%nat ∧
  (∀ l, (l < lanes)%nat → laneBlocked (vir e) !!! l = false) ∧
  (∀ l, (l < lanes)%nat → view e l c) ∧
  (∀ l, (l < lanes)%nat → (lane_window_end e !!! l <= size)%nat) ∧
  lane_window_start e !!! 0%nat = sc_start c ∧ lane_window_end e !!! 0%nat = sc_end c.

(** The group loop takes every lane from [c] to its successor, all with the same outcome. *)
Lemma exec_lanes_lockstep source size start lanes op k c e :
  (lanes <= Lanes)%nat → lockstep lanes size e c → sc_active c = true →
  let '(e', g, executing) := for_range 0 lanes (exec_lane source size start (sc_pc c) op k)
                               (e, VirGroup.Group_init, replicate Lanes false) in
  lockstep lanes size e' (sc_uop source size start op k c) ∧ kept e e' ∧
  VirGroup.has_taken g && VirGroup.has_fallthrough g = false.
Proof.
  intros Hn (Hwf & Hlen & Hd & Hb & Hv & Hw & Hs0 & He0) Ha.
  set (c' := sc_uop source size start op k c).
  pose proof (for_range_rule (λ j (x : Exec * VirGroup.Group * list bool),
    exec_wf x.1.1 ∧ kept e x.1.1 ∧ (∀ l, (l < j)%nat → view x.1.1 l c') ∧
    (∀ l, (j <= l < lanes)%nat → view x.1.1 l c) ∧
    (VirGroup.has_taken x.1.2 = true → conditional op = true ∧ sc_taken start op c = true) ∧
    (VirGroup.has_fallthrough x.1.2 = true → conditional op = true ∧ sc_taken start op c = false))
    0 lanes (exec_lane source size start (sc_pc c) op k)
    (e, VirGroup.Group_init, replicate Lanes false)) as H.
  destruct (for_range _ _ _ _) as [[e' g] ex]. cbn [fst snd] in H.
  destruct H as (Hwf' & Hk & Hnew & _ & Ht & Hf).
  - split_and!; try done; [lia|]. intros l Hl. apply Hv. lia.
  - intros j [[e1 g1] ex1] Hj (H1 & H2 & H3 & H4 & H5 & H6). cbn [fst snd] in *.
    pose proof (H4 j ltac:(lia)) as Hvj. pose proof Hvj as (V1 & V2 & _). unfold exec_lane.
    rewrite V1, V2, Ha, Z.eqb_refl. cbn [negb orb].
    destruct (exec_uop_effect source size start op k j e1 g1 c ltac:(lia) H1 Hlen Hvj)
      as [(E1 & E2 & E3 & E4) Eg].
    destruct (exec_uop _ _ _ _ _ _ _) as [e2 g2]. cbn [fst snd] in *. fold c' in E3.
    split_and!; [done|by etrans| | | |].
    + intros l Hl. destruct (decide (l = j)) as [->|]; [done|]. apply E4, H3; lia.
    + intros l Hl. apply E4, H4; lia.
    + subst g2. unfold group_after. destruct (conditional op) eqn:Ec; [|done]. cbn.
      intros [Hh| ->]%orb_true_iff; [|done]. apply H5. destruct (VirGroup.first_path_set g1); done.
    + subst g2. unfold group_after. destruct (conditional op) eqn:Ec; [|done]. cbn.
      intros [Hh|Hh]%orb_true_iff; [|split; [done|by apply negb_true_iff]].
      apply H6. destruct (VirGroup.first_path_set g1); done.
  - destruct (sc_uop_window source size start op k c) as [Ws We]. fold c' in Ws, We.
    split; [|split; [done|]].
    + destruct Hk as (K1 & K2 & K3 & K4 & K5). unfold lockstep.
      rewrite K1, K2, K3, K4, Ws, We. split_and!; try done. by apply sc_uop_length.
    + destruct (VirGroup.has_taken g), (VirGroup.has_fallthrough g); try done.
      destruct (Ht eq_refl), (Hf eq_refl). congruence.
Qed.

Lemma select_found source size resumed lo n x k :
  x.2 = Some k → for_range lo n (select_lane source size resumed) x = x.
Proof.
  intros Hx. apply (for_range_inv (λ y, y = x)); [done|]. intros i y _ ->.
  destruct x as [[e p] f]. cbn in Hx. by subst f.
Qed.

Lemma select_skip source size n e p :
  (∀ l, (l < n)%nat → selected e (vir e) l = false) →
  for_range 0 n (select_lane source size false) (e, p, None) = (e, p, None).
Proof.
  intros H. apply (for_range_inv (λ y, y = (e, p, None))); [done|]. intros l y Hl ->.
  unfold select_lane. by rewrite H by lia.
Qed.

Lemma view_selected lanes size e c l :
  lockstep lanes size e c → (l < lanes)%nat → selected e (vir e) l = sc_active c.
Proof.
  intros (_ & _ & _ & Hb & Hv & _) Hl. unfold selected. destruct (Hv l Hl) as (-> & _ & _).
  rewrite Hb by done. apply andb_true_r.
Qed.

(** A PC that is nowhere in the template retires every lane. *)
Lemma select_none source size lanes e c :
  (lanes <= Lanes)%nat → lockstep lanes size e c → sc_active c = true →
  scan source 0 size (sc_pc c) = None →
  let '(e', _, found) := for_range 0 lanes (select_lane source size false) (e, 0, None) in
  found = None ∧ lockstep lanes size e' (c <| sc_active := false |>) ∧
  quiet (result e') = quiet (result e).
Proof.
  intros Hn (Hwf & Hlen & Hd & Hb & Hv & Hw & Hs0 & He0) Ha Hscan.
  pose proof (for_range_rule (λ j (x : Exec * Z * option nat), x.2 = None ∧
    exec_wf x.1.1 ∧ kept e x.1.1 ∧ (∀ l, (l < j)%nat → view x.1.1 l (c <| sc_active := false |>)) ∧
    (∀ l, (j <= l < lanes)%nat → view x.1.1 l c))
    0 lanes (select_lane source size false) (e, 0, None)) as H.
  destruct (for_range _ _ _ _) as [[e' p] f]. cbn [fst snd] in H.
  destruct H as (Hf & Hwf' & (K1 & K2 & K3 & K4 & K5) & Hnew & _).
  - split_and!; try done; [lia|]. intros l Hl. apply Hv. lia.
  - intros j [[e1 p1] f1] Hj (H0 & H1 & H2 & H3 & H4). cbn [fst snd] in *. subst f1.
    pose proof (H4 j ltac:(lia)) as Hvj. pose proof Hvj as (V1 & V2 & _).
    destruct H2 as (K1 & K2 & K3 & K4 & K5). unfold select_lane. rewrite V2.
    assert (selected e1 (vir e1) j = true) as -> by (unfold selected; rewrite V1, K2, Hb by lia;
      by rewrite Ha). cbn [negb andb].
    destruct (scan source (lane_window_start e1 !!! j) _ _) as [k|] eqn:Ek.
    { exfalso. apply scan_Some in Ek as (Hk & Hp & _). rewrite K4 in Hk.
      eapply (scan_None _ _ _ _ k) in Hscan; [done|]. specialize (Hw j ltac:(lia)). lia. }
    rewrite Hscan.
    destruct (effect_deactivate j c e1 (λ r, if negb (sc_pc c =? 0) then note_external r else r)
      ltac:(lia) H1 Hvj) as (E1 & E2 & E3 & E4); [intros r; by case_match|].
    assert (deactivate j (if negb (sc_pc c =? 0) then e1 <| result ::= note_external |> else e1)
      = deactivate j (e1 <| result ::= λ r, if negb (sc_pc c =? 0) then note_external r else r |>))
      as -> by (destruct e1; by destruct (negb _)).
    cbn [fst snd]. split_and!; [done|done|etrans; [|exact E2]; by split_and!| |].
    + intros l Hl. destruct (decide (l = j)) as [->|]; [done|]. apply E4, H3; lia.
    + intros l Hl. apply E4, H4; lia.
  - split_and!; [done| |done]. unfold lockstep. rewrite K1, K2, K3, K4.
    by split_and!.
Qed.

Lemma select_lockstep source size lanes e c :
  (0 < lanes <= Lanes)%nat → lockstep lanes size e c → sc_active c = true →
  let '(e', p, found) := select source size lanes false e in
  let '(c', found') := sc_fetch source size c in
  found = found' ∧ lockstep lanes size e' c' ∧ quiet (result e') = quiet (result e) ∧
  (is_Some found → p = sc_pc c ∧ sc_active c' = true ∧ sc_pc c' = sc_pc c).
Proof.
  intros Hn Hls Ha. unfold select, resumed_pc. cbn [andb].
  pose proof (view_selected lanes size e c 0 Hls ltac:(lia)) as Hsel. rewrite Ha in Hsel.
  pose proof Hls as (Hwf & Hlen & Hd & Hb & Hv & Hw & Hs0 & He0).
  destruct (Hv 0%nat ltac:(lia)) as (V1 & V2 & _). unfold sc_fetch.
  destruct (scan source (sc_start c) (sc_end c) (sc_pc c)) as [k|] eqn:Ew.
  - destruct lanes as [|m]; [lia|]. rewrite for_range_S.
    assert (select_lane source size false 0 (e, 0, None) = (e, sc_pc c, Some k)) as ->.
    { unfold select_lane. rewrite Hsel, V2, Hs0, He0, Ew. done. }
    rewrite (select_found _ _ _ _ _ _ k) by done. done.
  - destruct (scan source 0 size (sc_pc c)) as [k|] eqn:Es.
    + destruct lanes as [|m]; [lia|]. rewrite for_range_S.
      assert (select_lane source size false 0 (e, 0, None) =
        (e <| lane_window_start ::= <[0%nat := k]> |>
           <| lane_window_end ::= <[0%nat := window_end k size]> |>, sc_pc c, Some k)) as ->.
      { unfold select_lane. rewrite Hsel, V2, Hs0, He0, Ew, Es. done. }
      rewrite (select_found _ _ _ _ _ _ k) by done. split_and!; [done| |done|done].
      destruct Hwf. unfold lockstep. cbn. rewrite !lookup_total_insert_eq by lia.
      split_and!; try done; [by split; cbn; rewrite ?length_insert|].
      intros l Hl. rewrite lookup_total_insert_case by lia. case_bool_decide; [|by apply Hw].
      unfold window_end. lia.
    + pose proof (select_none source size lanes e c ltac:(lia) Hls Ha Es) as H.
      destruct (for_range _ _ _ _) as [[e' p] f]. destruct H as (-> & H1 & H2).
      split_and!; [done|done|done|by intros [? ?]].
Qed.

Lemma count_chunks lanes size ex c n e :
  lockstep lanes size e c →
  lockstep lanes size (for_range 0 n (count_chunk lanes ex) e) c ∧
  quiet (result (for_range 0 n (count_chunk lanes ex) e)) = quiet (result e).
Proof.
  intros H. apply (for_range_inv (λ e', lockstep lanes size e' c ∧
    quiet (result e') = quiet (result e))); [done|].
  intros i e' _ [H1 H2]. unfold count_chunk. cbv zeta. case_match; [|done].
  split; [|done]. destruct H1 as ([] & Hr). split; [by split|exact Hr].
Qed.

(** *** The simulation *)

Definition simulates (lanes size : nat) (e : Exec) (x : Scalar * Z) : Prop :=
  lockstep lanes size e x.1 ∧ quiet (result e) = (0, 0, 0, false, x.2).

Lemma lockstep_any_active lanes size e c :
  (0 < lanes)%nat → lockstep lanes size e c →
  any_active lanes e = sc_active c && negb (sc_pc c =? 0).
Proof.
  intros Hn (_ & _ & _ & _ & Hv & _). unfold any_active, VirGroup.any_lane.
  destruct (sc_active c && negb (sc_pc c =? 0)) eqn:E.
  - apply existsb_exists. exists 0%nat. split; [apply in_seq; lia|].
    destruct (Hv 0%nat Hn) as (-> & -> & _). done.
  - apply not_true_iff_false. intros (l & Hl & H)%existsb_exists. apply in_seq in Hl.
    destruct (Hv l ltac:(lia)) as (V1 & V2 & _). rewrite V1, V2 in H. congruence.
Qed.

Lemma lockstep_result lanes size e c f :
  lockstep lanes size e c → lockstep lanes size (e <| result ::= f |>) c.
Proof. intros ([] & Hr). split; [by split|exact Hr]. Qed.

Lemma step_simulates source size start lanes e x :
  (0 < lanes <= Lanes)%nat → simulates lanes size e x →
  simulates lanes size (step source size lanes start e).1 (sc_step source size start x).1 ∧
  (step source size lanes start e).2 = (sc_step source size start x).2.
Proof.
  destruct x as [c h]. intros Hn [Hls Hq]. cbn [fst snd] in *.
  pose proof Hls as (_ & _ & Hd & _). unfold step, pop, VirGroup.pop_path, sc_step.
  rewrite Hd, Nat.eqb_refl. replace (e <| vir := vir e |> <| result := result e |>) with e
    by (by destruct e).
  destruct (sc_active c) eqn:Ha; cbn [negb].
  2: { unfold select, resumed_pc. cbn [andb]. rewrite select_skip; [done|].
       intros l Hl. rewrite (view_selected lanes size e c) by done. done. }
  pose proof (select_lockstep source size lanes e c Hn Hls Ha) as Hsel.
  destruct (select _ _ _ _ _) as [[e1 p] found], (sc_fetch _ _ _) as [c1 found'].
  destruct Hsel as (<- & Hls1 & Hq1 & Hf). destruct found as [k|]; [|split; [split; [done|etrans; [exact Hq1|exact Hq]]|done]].
  destruct (Hf ltac:(eauto)) as (-> & Ha1 & Hp1). rewrite <- Hp1. unfold issue. cbv zeta.
  set (e2 := if alternatePath _ then _ else e1).
  assert (lockstep lanes size e2 c1 ∧ quiet (result e2) = quiet (result e1)) as [Hls2 Hq2]
    by (unfold e2; case_match; [split; [by apply lockstep_result|done]|done]).
  clearbody e2.
  pose proof (exec_lanes_lockstep source size start lanes (source !!! k) k c1 e2 ltac:(lia) Hls2 Ha1)
    as H. destruct (for_range _ _ _ _) as [[e3 g] ex]. destruct H as (Hls3 & (_&_&_&_&Hq3) & Hdiv).
  unfold VirGroup.diverge. rewrite Hdiv. cbn [fst snd].
  replace (e3 <| vir := vir e3 |> <| result := result e3 |>) with e3 by (by destruct e3).
  set (c' := sc_uop _ _ _ _ _ _) in *.
  destruct (count_chunks lanes size ex c' (chunks lanes) e3 Hls3) as [Hls4 Hq4].
  set (e4 := for_range _ _ _ e3) in *. clearbody e4.
  set (e5 := e4 <| result ::= _ |>).
  assert (lockstep lanes size e5 c') as Hls5 by by apply lockstep_result.
  rewrite (lockstep_any_active lanes size e5 c' ltac:(lia) Hls5).
  pose proof Hls5 as (_ & _ & -> & _). rewrite Nat.eqb_refl, andb_true_r.
  split; [|by destruct (sc_active c' && _)]. split; [done|].
  assert (quiet (result e4) = (0, 0, 0, false, h)) as Hqf
    by (etrans; [exact Hq4|]; etrans; [exact Hq3|]; etrans; [exact Hq2|];
        etrans; [exact Hq1|exact Hq]).
  unfold e5. destruct e4 as [? r4 ? ? ?]. unfold quiet in *. cbn in *.
  injection Hqf as -> -> -> -> ->. done.
Qed.

(** *** The set-up *)

Lemma lane_reg_beyond s reg l :
  (length (vectorRegs s) <= reg)%nat → lane_reg s reg l = inhabitant.
Proof.
  intros H. unfold lane_reg. rewrite (list_lookup_total_alt (vectorRegs s)).
  by rewrite lookup_ge_None_2.
Qed.

(** What a register update of one lane does. *)
Definition regs_step (e e' : Exec) (upd : nat → nat → option Z) : Prop :=
  exec_wf e' ∧ kept e e' ∧ lanePC (vir e') = lanePC (vir e) ∧ lane_active e' = lane_active e ∧
  ∀ reg l, lane_reg (vir e') reg l = default (lane_reg (vir e) reg l) (upd reg l).

Lemma set_lane_reg_spec reg lane v e :
  (lane < Lanes)%nat → (reg < NumRegs)%nat → exec_wf e →
  regs_step e (e <| vir ::= set_lane_reg reg lane v |>)
    (λ reg' l, if decide (l = lane ∧ reg' = reg) then Some v else None).
Proof.
  intros Hl Hr []. split_and!; try done.
  - split; try done; unfold set_lane_reg; cbn; [by rewrite length_insert|].
    intros reg' Hr'. rewrite lookup_total_insert_case by lia.
    case_bool_decide; subst; rewrite ?length_insert; auto.
  - intros reg' l. cbn [vir update_field].
    pose proof (lane_reg_write_dest (Z.of_nat reg) lane v (vir e) reg' l ew_regs0 ew_row0 Hl) as H.
    unfold write_dest in H. destruct (Z.leb_spec 0 (Z.of_nat reg)); [|lia].
    rewrite Nat2Z.id in H. cbn. rewrite H.
    destruct (decide (l = lane ∧ 0 <= _ ∧ _)) as [(->&_&->&_)|Hn].
    + by rewrite decide_True.
    + rewrite decide_False; [done|]. intros [-> ->]. by apply Hn.
Qed.

(** Loading a lane sets its registers and nothing else. *)
Lemma load_regs_spec (regs : list Z) lane e n :
  (lane < Lanes)%nat → exec_wf e → (n <= NumRegs)%nat →
  regs_step e
    (e <| vir := for_range 0 n (λ reg, set_lane_reg reg lane (regs !!! reg)) (vir e) |>)
    (λ reg l, if decide (l = lane ∧ (reg < n)%nat) then Some (regs !!! reg) else None).
Proof.
  intros Hl Hwf. induction n as [|n IH]; intros Hn.
  - split_and!; [by destruct Hwf; split|by split_and!|done|done|]. intros reg l.
    destruct (decide _); [lia|done].
  - destruct IH as (H1 & H2 & H3 & H4 & H5); [lia|]. rewrite for_range_snoc. cbn [Nat.add].
    set (s := for_range 0 n _ _) in *. clearbody s.
    destruct (set_lane_reg_spec n lane (regs !!! n) (e <| vir := s |>) Hl ltac:(lia) H1)
      as (E1 & E2 & E3 & E4 & E5).
    split_and!; [exact E1|etrans; [exact H2|exact E2]|etrans; [exact E3|exact H3]|done|].
    intros reg l. etrans; [apply E5|]. rewrite H5.
    destruct (decide (l = lane ∧ reg = n)) as [[-> ->]|Hne]; cbn.
    + rewrite decide_True by (split; [done|lia]). done.
    + destruct (decide (l = lane ∧ (reg < n)%nat)) as [[-> ?]|Hn'].
      * rewrite decide_True by (split; [done|lia]). done.
      * rewrite decide_False; [done|]. intros [-> ?].
        destruct (decide (reg = n)) as [->|]; [by apply Hne|]. apply Hn'. split; [done|lia].
Qed.

Lemma load_lane_spec (regs : list Z) lane e :
  (lane < Lanes)%nat → exec_wf e →
  regs_step e (e <| vir := load_lane regs lane (vir e) |>)
    (λ reg l, if decide (l = lane ∧ (reg < NumRegs)%nat) then Some (regs !!! reg) else None).
Proof. intros. unfold load_lane. by apply load_regs_spec. Qed.

Lemma write_source_spec d lane v e :
  (lane < Lanes)%nat → exec_wf e →
  regs_step e (e <| vir := write_source d lane v (vir e) |>)
    (λ reg l, if decide (l = lane ∧ Z.of_nat reg = d ∧ (reg < NumRegs)%nat) then Some v else None).
Proof.
  intros Hl Hwf. unfold write_source. destruct (_ && _) eqn:E.
  - reflect. destruct (set_lane_reg_spec (Z.to_nat d) lane v e Hl ltac:(lia) Hwf)
      as (E1 & E2 & E3 & E4 & E5).
    split_and!; [exact E1|exact E2|exact E3|exact E4|]. intros reg l. etrans; [apply E5|].
    f_equal. destruct (decide (l = lane ∧ reg = Z.to_nat d)) as [[-> ->]|Hn].
    + by rewrite decide_True by (split_and!; [done|lia|lia]).
    + rewrite decide_False; [done|]. intros (-> & ? & ?). apply Hn. split; [done|lia].
  - split_and!; [by destruct Hwf; split|by split_and!|done|done|]. intros reg l.
    rewrite decide_False; [done|]. intros (_ & <- & Hr).
    apply andb_false_iff in E as [E|E]; reflect; lia.
Qed.

(** The registers a scalar run starts from. *)
Definition start_regs (initial_regs : list Z) (d v : Z) : list Z :=
  if (0 <=? d) && (d <? Z.of_nat NumRegs) then <[Z.to_nat d := v]> initial_regs else initial_regs.

Definition sc_init (source : list Uop) (size start : nat) (regs : list Z) : Scalar :=
  mkScalar (Uop.pc (source !!! start)) regs true start (window_end start size).

Lemma start_regs_lookup regs d v reg :
  length regs = NumRegs →
  start_regs regs d v !!! reg =
    if decide (Z.of_nat reg = d ∧ (reg < NumRegs)%nat) then v else regs !!! reg.
Proof.
  intros Hlen. unfold start_regs. destruct (_ && _) eqn:E.
  - reflect. rewrite lookup_total_insert_case by lia. case_bool_decide; subst.
    + rewrite decide_True; [done|]. lia.
    + rewrite decide_False; [done|]. lia.
  - rewrite decide_False; [done|]. intros [<- Hr].
    apply andb_false_iff in E as [E|E]; reflect; lia.
Qed.

Lemma setup_lane_spec source size start regs d v lane e :
  (lane < Lanes)%nat → length regs = NumRegs → exec_wf e →
  let e' := setup_lane source size start regs d v lane e in
  exec_wf e' ∧ stackDepth (vir e') = stackDepth (vir e) ∧
  laneBlocked (vir e') = laneBlocked (vir e) ∧ quiet (result e') = quiet (result e) ∧
  lane_window_start e' = <[lane := start]> (lane_window_start e) ∧
  lane_window_end e' = <[lane := window_end start size]> (lane_window_end e) ∧
  view e' lane (sc_init source size start (start_regs regs d v)) ∧
  ∀ l c, l ≠ lane → view e l c → view e' l c.
Proof.
  intros Hl Hlen Hwf e'. unfold e', setup_lane. clear e'. cbv zeta.
  assert (exec_wf (prepare_lane source size start lane e)) as Hwf2.
  { destruct Hwf. split; try done; unfold prepare_lane, set_lanePC; cbn; by rewrite length_insert. }
  set (e2 := prepare_lane source size start lane e) in *.
  destruct (load_lane_spec regs lane e2 Hl Hwf2) as (L1 & (A1&A2&A3&A4&A5) & L3 & L4 & L5).
  set (e3 := e2 <| vir := load_lane regs lane (vir e2) |>) in *.
  destruct (write_source_spec d lane v e3 Hl L1) as (W1 & (B1&B2&B3&B4&B5) & W3 & W4 & W5).
  set (e' := e3 <| vir := write_source d lane v (vir e3) |>) in *. clearbody e' e3.
  assert (lanePC (vir e') = <[lane := Uop.pc (source !!! start)]> (lanePC (vir e))) as Hpc
    by (rewrite W3, L3; done).
  assert (lane_active e' = <[lane := true]> (lane_active e)) as Hact by (rewrite W4, L4; done).
  split_and!; [done|by rewrite B1, A1|by rewrite B2, A2|by rewrite B5, A5|by rewrite B3, A3|by rewrite B4, A4| |].
  - destruct Hwf. split_and!.
    + rewrite Hact. apply lookup_total_insert_eq. lia.
    + rewrite Hpc. apply lookup_total_insert_eq. lia.
    + intros reg. rewrite W5, L5. cbn [sc_regs sc_init]. rewrite start_regs_lookup by done.
      destruct (decide (lane = lane ∧ Z.of_nat reg = d ∧ (reg < NumRegs)%nat)) as [(_&?&?)|Hn];
        cbn [default from_option].
      * by rewrite decide_True.
      * rewrite (decide_False (P := Z.of_nat reg = d ∧ _)) by (intros []; by apply Hn).
        destruct (decide (lane = lane ∧ (reg < NumRegs)%nat)) as [|Hn']; [done|]. cbn [default from_option].
        rewrite lane_reg_beyond.
        -- symmetry. rewrite list_lookup_total_alt, lookup_ge_None_2; [done|].
           destruct (decide (reg < NumRegs)%nat); [exfalso; by apply Hn'|lia].
        -- rewrite (ew_regs _ Hwf2).
           destruct (decide (reg < NumRegs)%nat); [exfalso; by apply Hn'|lia].
  - intros l c Hne (V1 & V2 & V3). split_and!.
    + rewrite Hact. by rewrite lookup_total_insert_ne.
    + rewrite Hpc. by rewrite lookup_total_insert_ne.
    + intros reg. rewrite W5, L5. rewrite !decide_False by (by intros [? _]). cbn. apply V3.
Qed.

Lemma setup_simulates source size start lanes regs d v :
  (0 < lanes <= Lanes)%nat → length regs = NumRegs →
  simulates lanes size (setup source size lanes start regs d v)
    (sc_init source size start (start_regs regs d v), 0).
Proof.
  intros Hn Hlen. set (c := sc_init _ _ _ _).
  pose proof (for_range_rule (λ j e, exec_wf e ∧ stackDepth (vir e) = 0%nat ∧
    laneBlocked (vir e) = replicate Lanes false ∧ quiet (result e) = (0, 0, 0, false, 0) ∧
    ∀ l, (l < j)%nat → view e l c ∧ lane_window_start e !!! l = start ∧
      lane_window_end e !!! l = window_end start size) 0 lanes
    (setup_lane source size start regs d v)
    (mkExec reset (Result_init <| activeLanes := Z.of_nat lanes |>)
       (replicate Lanes false) (replicate Lanes 0%nat) (replicate Lanes 0%nat))) as H.
  destruct H as (Hwf & Hd & Hb & Hq & Hv).
  - split_and!; [|done|done|done|intros l Hl; lia]. split; try done. cbn.
    intros reg Hr. by rewrite lookup_total_replicate_2.
  - intros j e Hj (H1 & H2 & H3 & H4 & H5).
    destruct (setup_lane_spec source size start regs d v j e ltac:(lia) Hlen H1)
      as (S1 & S2 & S3 & S4 & S5 & S6 & S7 & S8).
    split_and!; [done|congruence|congruence|congruence|]. intros l Hl. rewrite S5, S6.
    pose proof (ew_start _ H1). pose proof (ew_end _ H1).
    rewrite !lookup_total_insert_case by lia. case_bool_decide; [by subst|].
    destruct (H5 l ltac:(lia)) as (V1 & V2 & V3). split_and!; [|done|done].
    apply S8; [congruence|done].
  - fold (setup source size lanes start regs d v) in *. split; [|exact Hq].
    unfold lockstep. rewrite Hb. cbn [fst]. split_and!; try done.
    + cbn. unfold start_regs. case_match; by rewrite ?length_insert.
    + intros l Hl. apply lookup_total_replicate_2. lia.
    + intros l Hl. by apply Hv.
    + intros l Hl. destruct (Hv l Hl) as (_ & _ & ->). unfold window_end. lia.
    + by apply (Hv 0%nat ltac:(lia)).
    + by apply (Hv 0%nat ltac:(lia)).
Qed.

(** ** Properties *)

(** C5: the initial pass is one scalar run, broadcast.  On any program and any number of
    lanes, every lane ends with the registers and PC of the scalar machine that runs the
    captured uops from the same registers, the number of helper uops is the number of uops
    that machine executed, and no branch ever diverges: the reconvergence stack stays
    unused. *)
Theorem executeLanePC_lockstep (program : Recorder) (lanes n start : nat) (regs : list Z)
    (d v : Z) :
  (start < count program)%nat → (0 < lanes)%nat → (0 < n)%nat → length regs = NumRegs →
  let '(s, r) := executeLanePC program lanes n regs start d v in
  let '(c, h) := sc_run (uops program) (count program) start n (start_regs regs d v) in
  helperUops r = h ∧ divergentBranches r = 0 ∧ reconvergences r = 0 ∧ stackOverflow r = false ∧
  stackDepth s = 0%nat ∧
  ∀ l, (l < Nat.min lanes Lanes)%nat →
    lanePC s !!! l = sc_pc c ∧ ∀ reg, lane_reg s reg l = sc_regs c !!! reg.
Proof.
  intros Hst Hl Hn Hlen. unfold executeLanePC. cbv zeta.
  destruct (Nat.eqb_spec (count program) 0); [lia|].
  destruct (Nat.leb_spec (count program) start); [lia|].
  assert (0 < Nat.min lanes Lanes <= Lanes)%nat as Hls by (unfold Lanes; lia).
  destruct (Nat.eqb_spec (Nat.min lanes Lanes) 0); [lia|].
  destruct (Nat.eqb_spec n 0); [lia|]. cbn [orb].
  pose proof (setup_simulates (uops program) (count program) start _ regs d v Hls Hlen) as H0.
  destruct (run_loop_sim (simulates (Nat.min lanes Lanes) (count program)) n
    (step (uops program) (count program) (Nat.min lanes Lanes) start)
    (sc_step (uops program) (count program) start) _ _ H0) as [Hsim _].
  { intros e x Hx. by apply step_simulates. }
  unfold sc_run. change (mkScalar _ _ true start _) with
    (sc_init (uops program) (count program) start (start_regs regs d v)).
  destruct (run_loop n (sc_step _ _ _) _) as [[c h] f'].
  destruct (run_loop n (step _ _ _ _) _) as [e f]. cbn [fst] in Hsim.
  set (e' := match f with Return => e | _ => finish _ n e end).
  assert (vir e' = vir e ∧ quiet (result e') = quiet (result e)) as [Ev Eq]
    by (unfold e', finish; by repeat case_match). rewrite Ev. clearbody e'.
  destruct Hsim as [(_ & _ & Hd & _ & Hv & _) Hq]. cbn [fst snd] in *.
  rewrite <- Eq in Hq. injection Hq as Q1 Q2 _ Q3 Q4.
  split_and!; [done..|]. intros l Hl'. destruct (Hv l Hl') as (_ & V2 & V3). by split.
Qed.

Lemma executeLanePC_lockstep_witness :
  let '(s, r) := executeLanePC loop_template 100 50 (replicate 32 9) 0 (-1) 0 in
  divergentBranches r = 0 ∧ lanePC s !!! 99%nat = lanePC s !!! 0%nat.
Proof.
  pose proof (executeLanePC_lockstep loop_template 100 50 0 (replicate 32 9) (-1) 0) as H.
  destruct (executeLanePC loop_template 100 50 (replicate 32 9) 0 (-1) 0) as [s r].
  destruct (sc_run _ _ _ _ _) as [c h].
  destruct H as (_ & Hdiv & _ & _ & _ & Hl);
    [apply Nat.ltb_lt; by vm_compute|lia|lia|by vm_compute|].
  split; [exact Hdiv|]. destruct (Hl 99%nat) as [-> _]; [unfold Lanes; lia|].
  destruct (Hl 0%nat) as [-> _]; [unfold Lanes; lia|]. reflexivity.
Defined.

End VirExec.
