(* ===== verification/LoopBound.v ===== *)
(** * The loop-bound detector

    Model of [DVRLoopBoundDetector] (src/cpu/o3/pre.hh, pre.cc): recognition of the branch
    that closes the loop around the dependence chain, and the inference of the number of
    remaining iterations from two register snapshots. *)

From S2P Require Import Prelude Inst.

Module LoopBound.

(** [enum class Comparison] *)
Inductive Comparison :=
| Unknown | Equal | NotEqual | SignedLess | SignedGreaterEqual
| UnsignedLess | UnsignedGreaterEqual.

#[export] Instance Comparison_eq_dec : EqDecision Comparison.
Proof. solve_decision. Defined.

Definition MaxArchitecturalIntRegs : Z := 32.

(** The data members; -1 stands for "no register". *)
Record Detector := mkDetector {
  triggerPC : Z;
  finalLoadPC : Z;
  lastComparePC : Z;
  loopBranchPC : Z;
  loopTargetPC : Z;
  boundSource0 : Z;
  boundSource1 : Z;
  compareDestination : Z;
  branchValue0 : Z;
  branchValue1 : Z;
  branchValuesValid : bool;
  comparison : Comparison;
  seenBranch : bool;
  earlyExitSeen : bool
}.

#[export] Instance eta_Detector : Eta Detector := λ r,
  mkDetector (triggerPC r) (finalLoadPC r) (lastComparePC r) (loopBranchPC r) (loopTargetPC r)
    (boundSource0 r) (boundSource1 r) (compareDestination r) (branchValue0 r) (branchValue1 r)
    (branchValuesValid r) (comparison r) (seenBranch r) (earlyExitSeen r).

(** [struct Observation], [struct Inference] *)
Record Observation := mkObservation { backwardBranch : bool;  boundFound : bool }.

Record Inference := mkInference {
  matched : bool;  fallback : bool;  bound : Z;  increment : Z;  remaining : Z;  lanes : Z
}.

#[export] Instance eta_Inference : Eta Inference := λ r,
  mkInference (matched r) (fallback r) (bound r) (increment r) (remaining r) (lanes r).

(** [reset] *)
Definition reset (d : Detector) : Detector :=
  mkDetector 0 0 0 0 0 (-1) (-1) (-1) 0 0 false Unknown false false.

Definition init : Detector := mkDetector 0 0 0 0 0 (-1) (-1) (-1) 0 0 false Unknown false false.

(** [begin] *)
Definition begin (trigger_pc : Z) (d : Detector) : Detector :=
  (reset d) <| triggerPC := trigger_pc |>.

(** [updateFinalLoad] *)
Definition updateFinalLoad (final_load_pc : Z) (d : Detector) : Detector :=
  (reset d) <| triggerPC := triggerPC d |> <| finalLoadPC := final_load_pc |>.

(** ** [observe] *)

(** The first two integer sources, and the first integer destination. *)
Definition integer_sources (i : DynInst) : list Z :=
  take 2 ((λ r, Z.of_nat (index r)) <$> filter (λ r, is_int_class r = true) (inst_srcs i)).
Definition integer_destination (i : DynInst) : Z :=
  match filter (λ r, is_int_class r = true) (inst_dests i) with
  | r :: _ => Z.of_nat (index r)
  | [] => -1
  end.

(** An instruction's encoding as [observe] reads it. *)
Definition encoded_size (i : DynInst) : Z := (asBytes (staticInst i)).1.
Definition opcode (i : DynInst) : Z := Z.land (asBytes (staticInst i)).2 127.
Definition funct3 (i : DynInst) : Z := Z.land (Z.shiftr (asBytes (staticInst i)).2 12) 7.

Definition is_compare (i : DynInst) : bool :=
  (4 <=? encoded_size i) && (opcode i =? 51) && ((funct3 i =? 2) || (funct3 i =? 3)).

(** LCR: a register-register comparison after the final load. *)
Definition observe_compare (i : DynInst) (d : Detector) : Detector :=
  match integer_sources i with
  | [s0; s1] =>
      if 0 <=? integer_destination i then
        d <| lastComparePC := instAddr i |> <| boundSource0 := s0 |> <| boundSource1 := s1 |>
          <| compareDestination := integer_destination i |>
          <| comparison := if funct3 i =? 2 then SignedLess else UnsignedLess |>
          <| branchValuesValid := false |>
      else d
  | _ => d
  end.

(** BEQ/BNE of the recorded comparison with x0. *)
Definition consumes_compare (i : DynInst) (d : Detector) : bool :=
  (4 <=? encoded_size i) && (opcode i =? 99) && ((funct3 i =? 0) || (funct3 i =? 1))
  && (0 <=? compareDestination d)
  && match integer_sources i with
     | [s0; s1] => ((s0 =? compareDestination d) && (s1 =? 0))
                   || ((s1 =? compareDestination d) && (s0 =? 0))
     | _ => false
     end.

(** The comparison of a fused compare-and-branch. *)
Definition branch_comparison (f3 : Z) : option Comparison :=
  match f3 with
  | 1 => Some NotEqual
  | 4 => Some SignedLess
  | 5 => Some SignedGreaterEqual
  | 6 => Some UnsignedLess
  | 7 => Some UnsignedGreaterEqual
  | _ => None
  end.

(** A BNE, BLT, BGE, BLTU or BGEU of two registers is its own comparison. *)
Definition virtual_compare (i : DynInst) (d : Detector) : option Detector :=
  if negb (seenBranch d) && (4 <=? encoded_size i) && (opcode i =? 99) then
    match integer_sources i, branch_comparison (funct3 i) with
    | [s0; s1], Some c =>
        Some (d <| comparison := c |> <| lastComparePC := instAddr i |>
                <| boundSource0 := s0 |> <| boundSource1 := s1 |> <| compareDestination := -1 |>)
    | _, _ => None
    end
  else None.

(** BEQ closes the loop when the comparison is false. *)
Definition invert_beq (i : DynInst) (c : Comparison) : Comparison :=
  if funct3 i =? 0 then
    match c with
    | SignedLess => SignedGreaterEqual
    | UnsignedLess => UnsignedGreaterEqual
    | c => c
    end
  else c.

(** SBB: the back edge that closes the chain. *)
Definition close_loop (i : DynInst) (target : Z) (regs : option (list Z)) (d : Detector)
  : Detector :=
  let d := d <| comparison ::= invert_beq i |> <| loopBranchPC := instAddr i |>
             <| loopTargetPC := target |> in
  let d := match regs with
           | Some rs =>
               d <| branchValue0 := rs !!! Z.to_nat (boundSource0 d) |>
                 <| branchValue1 := rs !!! Z.to_nat (boundSource1 d) |>
                 <| branchValuesValid := true |>
           | None => d
           end in
  d <| seenBranch := true |>.

(** A conditional direct branch to [target]. *)
Definition observe_branch (i : DynInst) (target : Z) (regs : option (list Z)) (d : Detector)
  : Detector * Observation :=
  let pc := instAddr i in
  let d := if seenBranch d && (pc <? target) && (loopBranchPC d <? target)
           then d <| earlyExitSeen := true |> else d in
  if pc <? target then (d, mkObservation false false)
  else
    let encloses_chain := negb (finalLoadPC d =? 0) && (target <=? triggerPC d)
                          && (finalLoadPC d <=? pc) in
    let consumes := consumes_compare i d in
    let virtual := virtual_compare i d in
    let closes := consumes || match virtual with Some _ => true | None => false end in
    let d := default d virtual in
    let d := if negb (seenBranch d) && encloses_chain && closes
             then close_loop i target regs d else d in
    (d, mkObservation true (seenBranch d && encloses_chain && closes)).

(** [observe] *)
Definition observe (i : DynInst) (regs : option (list Z)) (d : Detector)
  : Detector * Observation :=
  if negb (seenBranch d) && negb (finalLoadPC d =? 0) && is_compare i
  then (observe_compare i d, mkObservation false false)
  else if negb (isCondCtrl (staticInst i)) || negb (isDirectCtrl (staticInst i))
  then (d, mkObservation false false)
  else match branchTarget i with
  | None => (d, mkObservation false false)
  | Some target => observe_branch i target regs d
  end.

(** ** [infer] *)

(** The saturating difference [finish - start] of two unsigned words. *)
Definition signedDelta (finish start : Z) : Z :=
  let max_int64 := 2 ^ 63 - 1 in
  if start <=? finish then
    (if max_int64 <? finish - start then max_int64 else finish - start)
  else
    (if max_int64 <? start - finish then - 2 ^ 63 else - (start - finish)).

(** The operand that stayed put, the current value of the other one and its step. *)
Definition induction_of (d : Detector) (start0 start1 finish0 finish1 : Z)
  : option (Z * Z * Z) :=
  if (start0 =? finish0) && negb (start1 =? finish1)
  then Some (finish0, finish1, signedDelta finish1 start1)
  else if (start1 =? finish1) && negb (start0 =? finish0)
  then Some (finish1, finish0, signedDelta finish0 start0)
  else if branchValuesValid d && (start0 =? branchValue0 d) && negb (start1 =? branchValue1 d)
  then Some (branchValue0 d, branchValue1 d, signedDelta (branchValue1 d) start1)
  else if branchValuesValid d && (start1 =? branchValue1 d) && negb (start0 =? branchValue0 d)
  then Some (branchValue1 d, branchValue0 d, signedDelta (branchValue0 d) start0)
  else None.

(** [uint64_t(-(increment + 1)) + 1] *)
Definition magnitude (inc : Z) : Z := u64 (u64 (- (inc + 1)) + 1).

(** The distance to the bound and the step, where the comparison is consistent with them. *)
Definition distance_step (c : Comparison) (bnd current inc : Z) : option (Z * Z) :=
  let sb := s64 bnd in
  let sc := s64 current in
  match c with
  | SignedLess =>
      if (inc <=? 0) || (sb <=? sc) then None else Some (u64 (s64 (sb - sc)), u64 inc)
  | UnsignedLess =>
      if (inc <=? 0) || (bnd <=? current) then None else Some (u64 (bnd - current), u64 inc)
  | SignedGreaterEqual =>
      if (0 <=? inc) || (sc <? sb) then None
      else Some (u64 (u64 (s64 (sc - sb)) + 1), magnitude inc)
  | UnsignedGreaterEqual =>
      if (0 <=? inc) || (current <? bnd) then None
      else Some (u64 (current - bnd + 1), magnitude inc)
  | NotEqual =>
      if inc =? 0 then None
      else
        let mag := if 0 <? inc then u64 inc else magnitude inc in
        let distance := if 0 <? inc then (if bnd <=? current then None else Some (bnd - current))
                        else (if current <=? bnd then None else Some (current - bnd)) in
        match distance with
        | None => None
        | Some dist => if (dist =? 0) || negb (dist mod mag =? 0) then None else Some (dist, mag)
        end
  | Unknown | Equal => None
  end.

(** [(distance + step - 1) / step] *)
Definition iterations (dist step : Z) : Z := u64 (u64 (dist + step) - 1) / step.

(** The bounded speculative fallback. *)
Definition fallback_inference (max_lanes : Z) : Inference :=
  mkInference false true 0 0 0 (Z.min 128 max_lanes).

(** [infer] *)
Definition infer (d : Detector) (start finish : list Z) (max_lanes : Z) : Inference :=
  if negb (seenBranch d) || earlyExitSeen d || (boundSource0 d <? 0) || (boundSource1 d <? 0)
     || (MaxArchitecturalIntRegs <=? boundSource0 d) || (MaxArchitecturalIntRegs <=? boundSource1 d)
  then fallback_inference max_lanes
  else
    let at_reg (rs : list Z) src := rs !!! Z.to_nat src in
    match induction_of d (at_reg start (boundSource0 d)) (at_reg start (boundSource1 d))
            (at_reg finish (boundSource0 d)) (at_reg finish (boundSource1 d)) with
    | None => fallback_inference max_lanes
    | Some (bnd, current, inc) =>
        match distance_step (comparison d) bnd current inc with
        | None => fallback_inference max_lanes
        | Some (dist, step) =>
            let rem := iterations dist step in
            mkInference true false bnd inc rem (Z.min rem max_lanes)
        end
    end.

(** ** Specification *)

(** The domain a comparison works in, and the condition of the back edge there. *)
Definition view (c : Comparison) (x : Z) : Z :=
  match c with SignedLess | SignedGreaterEqual => s64 x | _ => x end.

Definition taken (c : Comparison) (x y : Z) : Prop :=
  match c with
  | SignedLess | UnsignedLess => x < y
  | SignedGreaterEqual | UnsignedGreaterEqual => y <= x
  | NotEqual => x ≠ y
  | Unknown | Equal => False
  end.

(** The comparison with its operands, and the values it had at the branch, exchanged. *)
Definition swap_operands (d : Detector) : Detector :=
  d <| boundSource0 := boundSource1 d |> <| boundSource1 := boundSource0 d |>
    <| branchValue0 := branchValue1 d |> <| branchValue1 := branchValue0 d |>.

(** ** Lemmas *)

Lemma ceil_div dist step :
  0 < dist → 0 < step →
  let k := (dist + step - 1) / step in 0 < k ∧ (k - 1) * step < dist ∧ dist <= k * step.
Proof.
  intros Hd Hs k. pose proof (Z.div_mod (dist + step - 1) step ltac:(lia)) as E.
  pose proof (Z.mod_pos_bound (dist + step - 1) step Hs). fold k in E.
  assert (0 < k); [|nia]. unfold k. apply Z.div_str_pos. lia.
Qed.

Lemma iterations_exact dist step :
  0 < dist → 0 < step → dist + step < 2 ^ 64 + 1 →
  let k := iterations dist step in 0 < k ∧ (k - 1) * step < dist ∧ dist <= k * step.
Proof.
  intros Hd Hs Hb. unfold iterations. rewrite u64_sub_l.
  rewrite u64_small by (unfold is_u64; lia). by apply ceil_div.
Qed.

Lemma magnitude_neg inc : - 2 ^ 63 <= inc < 0 → magnitude inc = - inc.
Proof.
  intros H. unfold magnitude. rewrite u64_add_l. rewrite u64_small by (unfold is_u64; lia). lia.
Qed.

Lemma signedDelta_range x y : - 2 ^ 63 <= signedDelta x y < 2 ^ 63.
Proof.
  unfold signedDelta. cbv zeta.
  destruct (Z.leb_spec y x); [destruct (Z.ltb_spec (2 ^ 63 - 1) (x - y))|
    destruct (Z.ltb_spec (2 ^ 63 - 1) (y - x))]; lia.
Qed.

(** The distance and step of a consistent comparison, as exact integers. *)
Lemma distance_step_exact c bnd cur start inc dist step :
  is_u64 bnd → is_u64 cur → is_u64 start → - 2 ^ 63 <= inc < 2 ^ 63 →
  view c cur - view c start = inc →
  distance_step c bnd cur inc = Some (dist, step) →
  0 < dist ∧ 0 < step ∧ dist + step < 2 ^ 64 + 1 ∧
  match c with
  | SignedLess | UnsignedLess => dist = view c bnd - view c cur ∧ step = inc
  | SignedGreaterEqual | UnsignedGreaterEqual =>
      dist = view c cur - view c bnd + 1 ∧ step = - inc
  | NotEqual =>
      (dist = bnd - cur ∧ step = inc ∨ dist = cur - bnd ∧ step = - inc) ∧ (step | dist)
  | Unknown | Equal => False
  end.
Proof.
  intros Hb Hc Hs Hi Hinc. unfold is_u64 in *.
  pose proof (s64_range bnd). pose proof (s64_range cur). pose proof (s64_range start).
  unfold distance_step. cbv zeta. destruct c; cbn [view] in *; try done.
  - destruct (Z.eqb_spec inc 0); [done|]. destruct (Z.ltb_spec 0 inc).
    + destruct (Z.leb_spec bnd cur); [done|]. destruct (Z.eqb_spec (bnd - cur) 0); [done|].
      rewrite (u64_small inc) by (unfold is_u64; lia).
      destruct (Z.eqb_spec ((bnd - cur) mod inc) 0) as [Em|]; [|done]. cbn. intros [= <- <-].
      split_and!; [lia..| |]; [by left|]. by apply Z.mod_divide; [lia|].
    + destruct (Z.leb_spec cur bnd); [done|]. destruct (Z.eqb_spec (cur - bnd) 0); [done|].
      rewrite magnitude_neg by lia.
      destruct (Z.eqb_spec ((cur - bnd) mod (- inc)) 0) as [Em|]; [|done]. cbn. intros [= <- <-].
      split_and!; [lia..| |]; [by right|]. by apply Z.mod_divide; [lia|].
  - destruct (Z.leb_spec inc 0); [done|]. destruct (Z.leb_spec (s64 bnd) (s64 cur)); [done|].
    cbn. intros [= <- <-]. rewrite u64_s64, !u64_small by (unfold is_u64; lia). lia.
  - destruct (Z.leb_spec 0 inc); [done|]. destruct (Z.ltb_spec (s64 cur) (s64 bnd)); [done|].
    cbn. intros [= <- <-]. rewrite magnitude_neg, u64_s64, u64_add_l by lia.
    rewrite u64_small by (unfold is_u64; lia). lia.
  - destruct (Z.leb_spec inc 0); [done|]. destruct (Z.leb_spec bnd cur); [done|].
    cbn. intros [= <- <-]. rewrite !u64_small by (unfold is_u64; lia). lia.
  - destruct (Z.leb_spec 0 inc); [done|]. destruct (Z.ltb_spec cur bnd); [done|].
    cbn. intros [= <- <-]. rewrite magnitude_neg by lia.
    rewrite u64_small by (unfold is_u64; lia). lia.
Qed.

(** The number of iterations is the first one whose back edge is not taken. *)
Lemma iterations_sound c bnd cur start inc dist step :
  is_u64 bnd → is_u64 cur → is_u64 start → - 2 ^ 63 <= inc < 2 ^ 63 →
  view c cur - view c start = inc → distance_step c bnd cur inc = Some (dist, step) →
  let k := iterations dist step in
  0 < k ∧ (∀ j, 0 <= j < k → taken c (view c cur + j * inc) (view c bnd)) ∧
  ¬ taken c (view c cur + k * inc) (view c bnd).
Proof.
  intros Hb Hc Hs Hi Hinc E k.
  destruct (distance_step_exact c bnd cur start inc dist step Hb Hc Hs Hi Hinc E)
    as (Hd & Hst & Hsum & Hcase).
  destruct (iterations_exact dist step Hd Hst Hsum) as (Hk & Hlo & Hhi). fold k in Hk, Hlo, Hhi.
  split; [done|]. destruct c; cbn [view taken] in *; try done.
  - destruct Hcase as [Hdir [q Hq]].
    assert (q = k) as -> by nia.
    destruct Hdir as [[-> ->]|[-> ->]].
    + split; [intros j Hj; nia|]. nia.
    + split; [intros j Hj; nia|]. nia.
  - destruct Hcase as [-> ->]. split; [intros j Hj; nia|nia].
  - destruct Hcase as [-> ->]. split; [intros j Hj; nia|nia].
  - destruct Hcase as [-> ->]. split; [intros j Hj; nia|nia].
  - destruct Hcase as [-> ->]. split; [intros j Hj; nia|nia].
Qed.

Lemma infer_unfold d start finish ml :
  matched (infer d start finish ml) = true →
  let r0 := Z.to_nat (boundSource0 d) in let r1 := Z.to_nat (boundSource1 d) in
  ∃ bnd cur inc dist step,
    induction_of d (start !!! r0) (start !!! r1) (finish !!! r0) (finish !!! r1)
      = Some (bnd, cur, inc) ∧
    distance_step (comparison d) bnd cur inc = Some (dist, step) ∧
    infer d start finish ml = mkInference true false bnd inc (iterations dist step)
                                (Z.min (iterations dist step) ml).
Proof.
  unfold infer. cbv zeta. destruct (_ || _); [done|].
  destruct (induction_of _ _ _ _ _) as [[[bnd cur] inc]|]; [|done].
  destruct (distance_step _ _ _ _) as [[dist step]|] eqn:E; [|done]. intros _.
  by exists bnd, cur, inc, dist, step.
Qed.

(** With x0 missing from the operand list, no pair of integer sources contains register 0. *)
Lemma integer_sources_no_x0 i x :
  no_x0_operand (inst_srcs i) → x ∈ integer_sources i → x ≠ 0.
Proof.
  intros Hno Hin. unfold integer_sources in Hin. apply elem_of_take in Hin as (n & Hin & _).
  apply list_elem_of_lookup_2 in Hin. apply list_elem_of_fmap in Hin as (r & -> & Hr).
  apply list_elem_of_filter in Hr as [Hc Hr]. unfold is_int_class in Hc.
  apply bool_decide_eq_true in Hc. specialize (Hno r Hr Hc). lia.
Qed.

Lemma consumes_compare_dead i d : no_x0_operand (inst_srcs i) → consumes_compare i d = false.
Proof.
  intros Hno. unfold consumes_compare. pose proof (integer_sources_no_x0 i) as H.
  destruct (integer_sources i) as [|s0 [|s1 [|]]]; rewrite ?andb_false_r; try done.
  assert (s0 ≠ 0) by (apply H; [done|set_solver]). assert (s1 ≠ 0) by (apply H; [done|set_solver]).
  rewrite (proj2 (Z.eqb_neq s0 0)), (proj2 (Z.eqb_neq s1 0)) by done.
  by rewrite !andb_false_r.
Qed.

Lemma induction_swap d a b a' b' :
  induction_of (swap_operands d) b a b' a' = induction_of d a b a' b'.
Proof.
  unfold induction_of, swap_operands. cbn.
  destruct (a =? a'), (b =? b'); cbn; try done;
    destruct (branchValuesValid d), (a =? branchValue0 d), (b =? branchValue1 d); done.
Qed.

Lemma signedDelta_pos finish start : start < finish → 0 < signedDelta finish start.
Proof.
  intros H. unfold signedDelta. cbv zeta. destruct (Z.leb_spec start finish); [|lia].
  destruct (Z.ltb_spec (2 ^ 63 - 1) (finish - start)); lia.
Qed.

Lemma virtual_compare_Some i d d' :
  virtual_compare i d = Some d' →
  seenBranch d = false ∧ opcode i = 99 ∧ length (integer_sources i) = 2%nat ∧
  is_Some (branch_comparison (funct3 i)).
Proof.
  unfold virtual_compare. intros H. destruct (_ && _) eqn:E; [|done]. reflect.
  destruct (integer_sources i) as [|s0 [|s1 [|]]]; try done.
  destruct (branch_comparison (funct3 i)); [|done]. by split_and!.
Qed.

(** ** Properties *)

(** A matched inference is exact.  When the induction variable is the first operand of
    the closing branch and the snapshots show its true step, [remaining] is the number of
    further iterations: the back edge is taken at each of them and not after, and the lanes
    are that number, bounded by the maximum. *)
Theorem infer_sound (d : Detector) (start finish : list Z) (ml : Z) :
  let r0 := Z.to_nat (boundSource0 d) in let r1 := Z.to_nat (boundSource1 d) in
  let c := comparison d in
  let inf := infer d start finish ml in
  is_u64 (start !!! r0) → is_u64 (finish !!! r0) → is_u64 (finish !!! r1) →
  start !!! r1 = finish !!! r1 → start !!! r0 ≠ finish !!! r0 →
  view c (finish !!! r0) - view c (start !!! r0) = signedDelta (finish !!! r0) (start !!! r0) →
  matched inf = true →
  0 < remaining inf ∧ lanes inf = Z.min (remaining inf) ml ∧ fallback inf = false ∧
  (∀ j, 0 <= j < remaining inf →
     taken c (view c (finish !!! r0) + j * increment inf) (view c (finish !!! r1))) ∧
  ¬ taken c (view c (finish !!! r0) + remaining inf * increment inf) (view c (finish !!! r1)).
Proof.
  intros r0 r1 c inf Hs0 Hf0 Hf1 Heq Hne Hstep Hm.
  destruct (infer_unfold d start finish ml Hm) as (bnd & cur & inc & dist & step & Hi & Hd & E).
  fold inf in E. rewrite E. cbn. fold r0 r1 in Hi. fold c in Hd.
  unfold induction_of in Hi. rewrite Heq, Z.eqb_refl in Hi.
  rewrite (proj2 (Z.eqb_neq _ _) Hne) in Hi. cbn in Hi. injection Hi as <- <- <-.
  destruct (iterations_sound c _ _ (start !!! r0) _ dist step Hf1 Hf0 Hs0
    (signedDelta_range _ _) Hstep Hd) as (Hk & Htk & Hnt).
  by split_and!.
Qed.

(** A detector that closed [blt a0, a1]: three more steps of 4 reach 20 from 8. *)
Definition example_detector : Detector :=
  init <| boundSource0 := 10 |> <| boundSource1 := 11 |> <| comparison := SignedLess |>
    <| seenBranch := true |>.

Definition snapshot (a0 a1 : Z) : list Z := <[10%nat := a0]> (<[11%nat := a1]> (replicate 32 0)).

Lemma infer_sound_witness :
  let inf := infer example_detector (snapshot 4 19) (snapshot 8 19) 128 in
  remaining inf = 3 ∧ lanes inf = 3.
Proof.
  destruct (infer_sound example_detector (snapshot 4 19) (snapshot 8 19) 128) as (_ & H & _);
    [by vm_compute|by vm_compute|by vm_compute|by vm_compute|by vm_compute|by vm_compute|
     by vm_compute|].
  split; [by vm_compute|]. cbv zeta. rewrite H. by vm_compute.
Defined.

(** The inference does not see which operand of the branch is the bound: exchanging the
    two operands, in the branch and in its recorded values, gives the same inference, although
    only an equality test is symmetric.  A loop written [i <= n] (BGE n, i with an increasing
    [i]) is therefore never matched. *)
Theorem infer_order_blind (d : Detector) (start finish : list Z) (ml : Z) :
  infer (swap_operands d) start finish ml = infer d start finish ml ∧
  let r0 := Z.to_nat (boundSource0 d) in let r1 := Z.to_nat (boundSource1 d) in
  (comparison d = SignedGreaterEqual → start !!! r0 = finish !!! r0 →
   start !!! r1 < finish !!! r1 →
   infer d start finish ml = fallback_inference ml).
Proof.
  split; [|cbv zeta; intros Hc Heq Hlt]; unfold infer; cbv zeta.
  - rewrite <- induction_swap. cbn [swap_operands boundSource0 boundSource1 seenBranch
      earlyExitSeen comparison update_field].
    destruct (seenBranch d), (earlyExitSeen d), (boundSource0 d <? 0), (boundSource1 d <? 0),
      (MaxArchitecturalIntRegs <=? boundSource0 d), (MaxArchitecturalIntRegs <=? boundSource1 d);
      reflexivity.
  - destruct (_ || _); [done|]. unfold induction_of. rewrite Heq, Z.eqb_refl, Hc.
    rewrite (proj2 (Z.eqb_neq (_ !!! Z.to_nat (boundSource1 d)) _)) by lia. cbn.
    pose proof (signedDelta_pos _ _ Hlt) as Hp.
    unfold distance_step. rewrite (proj2 (Z.leb_le 0 _)) by lia. done.
Qed.

(** The comparison/branch pair is never recognised.  As x0 is not an operand of a decoded
    instruction, a branch can only close the loop as a fused compare-and-branch of two
    registers: the path from a recorded SLT or SLTU through BEQ/BNE of its result with x0 to a
    closed loop is dead. *)
Theorem compare_pair_dead (d : Detector) (i : DynInst) (regs : option (list Z)) :
  no_x0_operand (inst_srcs i) →
  consumes_compare i d = false ∧
  (boundFound (observe i regs d).2 = true →
   seenBranch d = false ∧ opcode i = 99 ∧ length (integer_sources i) = 2%nat ∧
   is_Some (branch_comparison (funct3 i))).
Proof.
  intros Hno. split; [by apply consumes_compare_dead|]. unfold observe.
  destruct (_ && _); [done|]. destruct (_ || _); [done|].
  destruct (branchTarget i) as [target|]; [|done]. unfold observe_branch. cbv zeta.
  set (d1 := if _ && (loopBranchPC d <? target) then _ else d).
  assert (seenBranch d1 = seenBranch d) as E by (unfold d1; by case_match).
  destruct (_ <? target); [done|]. rewrite consumes_compare_dead by done. cbn [orb snd boundFound].
  destruct (virtual_compare i d1) as [d2|] eqn:Ev; [|by rewrite andb_false_r].
  intros _. rewrite <- E. by apply virtual_compare_Some in Ev.
Qed.

(** [slt a2, a0, a1] followed by [bne a2, x0, loop]. *)
Lemma compare_pair_dead_witness :
  let d := (observe (plain_inst 1 72 (2 ^ 12 * 2 + 51) [mkRegId IntRegClass 10;
              mkRegId IntRegClass 11] [mkRegId IntRegClass 12] false) None
              (updateFinalLoad 68 (begin 64 init))).1 in
  let i := branch_inst 2 76 64 (2 ^ 12 + 99) (riscv_int_operand <$> [12; 0]%nat) true in
  compareDestination d = 12 ∧ consumes_compare i d = false ∧ boundFound (observe i None d).2 = false.
Proof.
  cbv zeta. set (d := (observe _ _ _).1).
  destruct (compare_pair_dead d (branch_inst 2 76 64 (2 ^ 12 + 99)
    (riscv_int_operand <$> [12; 0]%nat) true) None (riscv_operands_no_x0 _)) as [H1 H2].
  split; [by vm_compute|]. split; [exact H1|].
  destruct (boundFound _) eqn:E; [|done]. destruct (H2 eq_refl) as (_ & _ & Hl & _).
  vm_compute in Hl. done.
Defined.

End LoopBound.
