(* ===== verification/Sst.v ===== *)
(** * The stalling slice table and the misprediction table

    Model of [SST] and [MispTable] (src/cpu/o3/pre.hh, pre.cc).  The SST is a hash list: a
    fixed pool of list nodes in recency order and a map from addresses to nodes; its
    specification is a bounded LRU list of distinct addresses. *)

From S2P Require Import Prelude Inst.

Module Sst.

(** [L], [M] and [numEntries]; a list node is its identity (what an iterator denotes) and the
    address it holds. *)
Record SST := mkSST { L : list (nat * Z);  M : gmap Z nat;  numEntries : nat }.

#[export] Instance eta_SST : Eta SST := λ r, mkSST (L r) (M r) (numEntries r).

(** The constructor: [numEntries] nodes holding 0. *)
Definition create (n : nat) : SST := mkSST ((λ k, (k, 0)) <$> seq 0 n) ∅ n.

(** [L.splice(L.begin(), L, it)] *)
Definition to_front (id : nat) (l : list (nat * Z)) : list (nat * Z) :=
  filter (λ x, x.1 = id) l ++ filter (λ x, x.1 ≠ id) l.

(** [L.back()] *)
Definition back (l : list (nat * Z)) : nat * Z := default (0%nat, 0) (last l).

(** [addInst(Addr)] *)
Definition addInst (addr : Z) (s : SST) : SST :=
  match M s !! addr with
  | Some id => s <| L ::= to_front id |>
  | None =>
      let m := if (size (M s) =? numEntries s)%nat then delete (back (L s)).2 (M s) else M s in
      let id := (back (L s)).1 in
      s <| L ::= λ l, (id, addr) :: removelast l |> <| M := <[addr := id]> m |>
  end.

(** [addInst(inst)] *)
Definition addInst_inst (i : DynInst) (s : SST) : SST := addInst (instAddr i) s.

(** [hasInst] *)
Definition hasInst (i : DynInst) (s : SST) : SST * bool :=
  match M s !! instAddr i with
  | Some id => (s <| L ::= to_front id |>, true)
  | None => (s, false)
  end.

(** ** Specification: a bounded list of distinct addresses, most recent first *)

Definition lru_touch (a : Z) (l : list Z) : list Z :=
  if decide (a ∈ l) then a :: filter (λ x, x ≠ a) l else l.

(** The addresses a table holds, most recent first. *)
Definition contents (s : SST) : list Z := take (size (M s)) (L s).*2.

(** ** The misprediction table *)

Definition MAX_REF : Z := 256.
Definition Ways : nat := 8.
Definition Rows : nat := 8.
#[global] Arguments Ways : simpl never.
#[global] Arguments Rows : simpl never.

(** [struct Cell] *)
Record Cell := mkCell { c_pc : Z;  c_lru : Z;  c_ref : Z;  c_misp : Z }.

#[export] Instance eta_Cell : Eta Cell := λ r, mkCell (c_pc r) (c_lru r) (c_ref r) (c_misp r).
#[export] Instance Cell_inhabited : Inhabited Cell := populate (mkCell 0 0 0 0).


(** The constructor sets [lru]; the other members keep what the storage [garbage] held. *)
Definition misp_create (garbage : list (list Cell)) : list (list Cell) :=
  (λ row : list Cell, for_range 0 Ways (λ j row, <[j := (row !!! j) <| c_lru := Z.of_nat j |>]> row) row)
    <$> garbage.

(** [(pc >> 1) & (table.size() - 1)] *)
Definition row_index (pc : Z) : nat := Z.to_nat (Z.land (Z.shiftr pc 1) (Z.of_nat Rows - 1)).

(** The first cell of a PC. *)
Definition find_cell (pc : Z) (row : list Cell) : option nat :=
  find_from 0 Ways (λ i, c_pc (row !!! i) =? pc).

(** The counters of a hit, with the halving at [MAX_REF]. *)
Definition count_hit (misp : bool) (c : Cell) : Cell :=
  let c := c <| c_ref ::= λ r, r + 1 |> in
  let c := if misp then c <| c_misp ::= λ m, m + 1 |> else c in
  if c_ref c =? MAX_REF
  then c <| c_ref ::= λ r, Z.shiftr r 1 |> <| c_misp ::= λ m, Z.shiftr m 1 |> else c.

(** The body of a hit on cell [i]. *)
Definition hit_row (i : nat) (misp : bool) (row : list Cell) : list Cell :=
  let row := <[i := count_hit misp (row !!! i)]> row in
  let lru := c_lru (row !!! i) in
  let row := for_range 0 Ways
    (λ j row, if negb (j =? i)%nat && (c_lru (row !!! j) <? lru)
              then <[j := (row !!! j) <| c_lru ::= λ l, l + 1 |>]> row else row) row in
  <[i := (row !!! i) <| c_lru := 0 |>]> row.

(** One iteration of the miss loop, which does not stop at the first victim. *)
Definition miss_cell (pc : Z) (misp : bool) (i : nat) (row : list Cell) : list Cell :=
  if c_lru (row !!! i) =? Z.of_nat Ways - 1 then
    let row := <[i := mkCell pc 0 1 (if misp then 1 else 0)]> row in
    for_range 0 Ways
      (λ j row, if negb (j =? i)%nat
                then <[j := (row !!! j) <| c_lru ::= λ l, l + 1 |>]> row else row) row
  else row.

Definition miss_row (pc : Z) (misp : bool) (row : list Cell) : list Cell :=
  for_range 0 Ways (miss_cell pc misp) row.

(** [add] *)
Definition misp_add (pc : Z) (misp : bool) (t : list (list Cell)) : list (list Cell) :=
  let k := row_index pc in
  let row := t !!! k in
  <[k := match find_cell pc row with
         | Some i => hit_row i misp row
         | None => miss_row pc misp row
         end]> t.

(** [HIGH] and [high] *)
Definition HIGH (ref misp : Z) : bool := (64 <=? ref) && (Z.quot ref 8 <=? misp).

Definition misp_high (pc : Z) (t : list (list Cell)) : bool :=
  let row := t !!! row_index pc in
  match find_cell pc row with
  | Some i => HIGH (c_ref (row !!! i)) (c_misp (row !!! i))
  | None => false
  end.

(** ** Invariants *)

(** The first [size M] nodes are the live ones, with distinct addresses; the map sends each
    of them to its node; every node identity occurs once. *)
Record sst_wf (s : SST) : Prop := {
  sw_pos : (0 < numEntries s)%nat;
  sw_len : length (L s) = numEntries s;
  sw_ids : NoDup (L s).*1;
  sw_size : (size (M s) <= numEntries s)%nat;
  sw_addrs : NoDup (contents s);
  sw_map : ∀ a id, M s !! a = Some id ↔ (id, a) ∈ take (size (M s)) (L s)
}.

(** The recency numbers of a row are those of the eight ways. *)
Definition row_wf (row : list Cell) : Prop :=
  length row = Ways ∧ (∀ j, (j < Ways)%nat → 0 <= c_lru (row !!! j) < Z.of_nat Ways) ∧
  ∀ j k, (j < Ways)%nat → (k < Ways)%nat → c_lru (row !!! j) = c_lru (row !!! k) → j = k.

Definition misp_wf (t : list (list Cell)) : Prop := length t = Rows ∧ Forall row_wf t.

(** ** Lemmas *)

(** *** The hash list *)

Lemma to_front_split id a l1 l2 :
  NoDup ((l1 ++ (id, a) :: l2).*1) → to_front id (l1 ++ (id, a) :: l2) = (id, a) :: l1 ++ l2.
Proof.
  intros Hnd. rewrite fmap_app, fmap_cons in Hnd. apply NoDup_app in Hnd as (_ & H1 & H2).
  apply NoDup_cons in H2 as [H2 _]. cbn in *.
  assert (∀ x, x ∈ l1 → x.1 ≠ id) as Hl1.
  { intros x Hx E. apply (H1 x.1); [by apply list_elem_of_fmap_2|]. rewrite E. by left. }
  assert (∀ x, x ∈ l2 → x.1 ≠ id) as Hl2.
  { intros x Hx E. apply H2. rewrite <- E. by apply list_elem_of_fmap_2. }
  assert (∀ l : list (nat * Z), (∀ x, x ∈ l → x.1 ≠ id) →
    filter (λ x, x.1 = id) l = [] ∧ filter (λ x, x.1 ≠ id) l = l) as Hf.
  { intros l. induction l as [|x l IH]; intros H; [done|]. rewrite !filter_cons.
    destruct IH as [IH1 IH2]; [intros; apply H; by right|].
    assert (x.1 ≠ id) by (apply H; by left). rewrite decide_False by done.
    rewrite decide_True by done. split; [exact IH1|f_equal; exact IH2]. }
  destruct (Hf l1 Hl1) as [A1 A2], (Hf l2 Hl2) as [B1 B2].
  unfold to_front. rewrite !filter_app, !filter_cons, A1, A2, B1, B2. cbn.
  rewrite decide_True by done. by rewrite decide_False by tauto.
Qed.

(** A hit: the node of a mapped address moves to the front. *)
Lemma hit_spec s a id :
  sst_wf s → M s !! a = Some id →
  let s' := s <| L ::= to_front id |> in
  sst_wf s' ∧ contents s' = a :: filter (λ x, x ≠ a) (contents s).
Proof.
  intros [] Hm s'. pose proof Hm as Hin. apply sw_map0 in Hin.
  apply list_elem_of_split in Hin as (l1 & l2 & Hl).
  pose proof (take_drop (size (M s)) (L s)) as HL. rewrite Hl in HL.
  set (rest := drop (size (M s)) (L s)) in *. rewrite <- app_assoc in HL. cbn in HL.
  assert (NoDup (l1 ++ (id, a) :: l2 ++ rest).*1) as Hnd by (by rewrite HL).
  assert (L s' = (id, a) :: l1 ++ l2 ++ rest) as HL'.
  { unfold s'. cbn. rewrite <- HL. by apply to_front_split. }
  assert (length (l1 ++ (id, a) :: l2) = size (M s)) as Hlen.
  { rewrite <- Hl, length_take. lia. }
  assert (take (size (M s)) (L s') = (id, a) :: l1 ++ l2) as Htake.
  { rewrite HL', app_assoc, app_comm_cons. apply take_app_length'.
    rewrite <- Hlen, !length_app. cbn. rewrite length_app. lia. }
  assert (contents s = (l1.*2) ++ a :: (l2.*2)) as Hc.
  { unfold contents. rewrite <- fmap_take, Hl, fmap_app. done. }
  assert (contents s' = a :: (l1.*2) ++ (l2.*2)) as Hc'.
  { unfold contents. change (M s') with (M s). rewrite <- fmap_take, Htake. cbn.
    by rewrite fmap_app. }
  assert (a ∉ l1.*2 ∧ a ∉ l2.*2 ∧ NoDup ((l1.*2) ++ (l2.*2))) as (Ha1 & Ha2 & Hnd').
  { rewrite Hc in sw_addrs0. apply NoDup_app in sw_addrs0 as (N1 & N2 & N3).
    apply NoDup_cons in N3 as [N3 N4]. split_and!; [|done|].
    - intros H. apply (N2 a H). by left.
    - apply NoDup_app. split_and!; [done| |done]. intros x Hx Hx'. apply (N2 x Hx). by right. }
  split.
  - assert (L s' ≡ₚ L s) as Hp by (rewrite HL', <- HL; apply Permutation_middle).
    split; [done| | |done| |].
    + by rewrite Hp.
    + by rewrite Hp.
    + rewrite Hc'. apply NoDup_cons. split; [|done]. rewrite elem_of_app. tauto.
    + intros b k. change (M s') with (M s). rewrite sw_map0, Hl, Htake.
      rewrite elem_of_cons, !elem_of_app, elem_of_cons. tauto.
  - rewrite Hc', Hc, filter_app, filter_cons, decide_False by tauto. f_equal.
    by rewrite !filter_ne_id.
Qed.

Lemma contents_elem s a : sst_wf s → a ∈ contents s ↔ is_Some (M s !! a).
Proof.
  intros []. unfold contents. rewrite <- fmap_take, list_elem_of_fmap. split.
  - intros ([id b] & -> & H). exists id. by apply sw_map0.
  - intros [id H]. apply sw_map0 in H. by exists (id, a).
Qed.

Lemma contents_length s : sst_wf s → length (contents s) = size (M s).
Proof. intros []. unfold contents. rewrite length_take, length_fmap. lia. Qed.

(** A miss: the last node takes the address and moves to the front. *)
Lemma miss_spec s a :
  sst_wf s → M s !! a = None →
  sst_wf (addInst a s) ∧
  contents (addInst a s) = take (numEntries s) (a :: contents s).
Proof.
  intros Hwf Hm. pose proof Hwf as [].
  assert (a ∉ contents s) as Ha by (rewrite contents_elem by done; intros [? ?]; congruence).
  destruct (L s) as [|y l0] eqn:EL using rev_ind; [cbn in *; lia|]. clear IHl0.
  destruct y as [id x]. rename l0 into l.
  unfold addInst. rewrite Hm. unfold back. rewrite EL, last_snoc.
  change (default (0%nat, 0) (Some (id, x))) with (id, x). cbn [fst snd].
  rewrite length_app in sw_len0. cbn in sw_len0.
  set (s' := s <| L ::= _ |> <| M := _ |>).
  assert (L s' = (id, a) :: l) as EL' by (unfold s'; cbn; by rewrite EL, removelast_last).
  assert (NoDup (L s').*1) as Hids.
  { rewrite EL'. rewrite fmap_app in sw_ids0. cbn in *.
    by rewrite <- Permutation_cons_append in sw_ids0. }
  destruct (Nat.eqb_spec (size (M s)) (numEntries s)) as [Hfull|Hfree].
  - assert (contents s = (l.*2) ++ [x]) as Hc.
    { unfold contents. rewrite EL, fmap_app. apply take_ge. rewrite length_app, length_fmap. cbn. lia. }
    assert (M s !! x = Some id) as Hx.
    { apply sw_map0. rewrite take_ge by (rewrite length_app; cbn; lia). set_solver. }
    rewrite Hc in sw_addrs0. apply NoDup_app in sw_addrs0 as (N1 & N2 & _).
    assert (x ∉ l.*2) as Hxl by (intros H; apply (N2 x H); by left).
    assert (a ∉ l.*2 ∧ a ≠ x) as [Hal Hax] by (rewrite Hc in Ha; set_solver).
    assert (size (M s') = numEntries s) as Hsz.
    { unfold s'. cbn. rewrite map_size_insert_None by (rewrite lookup_delete_ne; congruence).
      rewrite map_size_delete_Some by (by eexists). lia. }
    assert (contents s' = a :: l.*2) as Hc'.
    { unfold contents. rewrite Hsz, EL'. cbn. apply take_ge. cbn. rewrite length_fmap. lia. }
    split.
    + split; [done|rewrite EL'; cbn; lia|done|rewrite Hsz; done| |].
      * rewrite Hc'. by apply NoDup_cons.
      * intros b j. rewrite Hsz, EL', take_ge by (cbn; lia). rewrite elem_of_cons.
        unfold s'. cbn [M update_field]. destruct (decide (b = a)) as [->|Hb].
        { rewrite lookup_insert_eq. split; [intros [= ->]; by left|].
          intros [[= ->]|Hin]; [done|]. exfalso. apply Hal. by apply (list_elem_of_fmap_2' snd _ (j, a)). }
        rewrite lookup_insert_ne by done. destruct (decide (b = x)) as [->|Hbx].
        { rewrite lookup_delete_eq. split; [done|]. intros [[= _ ?]|Hin]; [done|].
          exfalso. apply Hxl. by apply (list_elem_of_fmap_2' snd _ (j, x)). }
        rewrite lookup_delete_ne by done. rewrite sw_map0, take_ge by (rewrite length_app; cbn; lia).
        rewrite elem_of_app, list_elem_of_singleton. split; [intros [?|[= _ ?]]; [by right|done]|].
        intros [[= _ ?]|?]; [done|by left].
    + rewrite Hc', Hc, <- sw_len0. rewrite Nat.add_1_r. cbn.
      f_equal. symmetry. apply take_app_length'. by rewrite length_fmap.
  - assert (take (size (M s)) (l ++ [(id, x)]) = take (size (M s)) l) as Htake
      by (apply take_app_le; lia).
    assert (size (M s') = S (size (M s))) as Hsz.
    { unfold s'. cbn. by rewrite map_size_insert_None. }
    assert (take (size (M s')) (L s') = (id, a) :: take (size (M s)) l) as Ht
      by (by rewrite Hsz, EL').
    assert (contents s' = a :: contents s) as Hc'.
    { unfold contents. rewrite <- !fmap_take, Ht, EL, Htake. done. }
    split.
    + split; [done|rewrite EL'; cbn; lia|done|rewrite Hsz; cbn; lia| |].
      * rewrite Hc'. by apply NoDup_cons.
      * intros b j. rewrite Ht, elem_of_cons. unfold s'. cbn [M update_field].
        destruct (decide (b = a)) as [->|Hb].
        { rewrite lookup_insert_eq. split; [intros [= ->]; by left|].
          intros [[= ->]|Hin]; [done|]. exfalso. apply Ha. unfold contents.
          rewrite <- fmap_take, EL, Htake. by apply (list_elem_of_fmap_2' snd _ (j, a)). }
        rewrite lookup_insert_ne by done. rewrite sw_map0, Htake.
        split; [by right|]. intros [[= _ ?]|?]; done.
    + rewrite Hc'. symmetry. apply take_ge. cbn. rewrite contents_length by done. lia.
Qed.

(** *** The misprediction table *)

(** A loop that bumps the recency of the cells [sel] selects. *)
Definition bump (sel : nat → Cell → bool) (row : list Cell) : list Cell :=
  for_range 0 Ways
    (λ j row, if sel j (row !!! j) then <[j := (row !!! j) <| c_lru ::= λ l, l + 1 |>]> row
              else row) row.

Lemma bump_spec sel row :
  length row = Ways →
  length (bump sel row) = Ways ∧ ∀ j, (j < Ways)%nat →
    bump sel row !!! j = if sel j (row !!! j) then (row !!! j) <| c_lru ::= λ l, l + 1 |>
                         else row !!! j.
Proof.
  intros Hl. unfold bump.
  destruct (for_range_map (λ j (c : Cell), if sel j c then c <| c_lru ::= λ l, l + 1 |> else c)
    (λ j row, if sel j (row !!! j) then <[j := (row !!! j) <| c_lru ::= λ l, l + 1 |>]> row
              else row) 0 Ways row) as [H1 H2].
  - intros k l. case_match; [done|]. by rewrite insert_lookup_total.
  - lia.
  - split; [etrans; [exact H1|exact Hl]|]. intros j Hj. etrans; [apply H2|].
    by rewrite decide_True by lia.
Qed.

Lemma count_hit_lru misp c : c_lru (count_hit misp c) = c_lru c.
Proof. unfold count_hit. cbv zeta. destruct misp; case_match; done. Qed.

Lemma hit_row_lru i misp row :
  row_wf row → (i < Ways)%nat →
  length (hit_row i misp row) = Ways ∧ ∀ j, (j < Ways)%nat →
    c_lru (hit_row i misp row !!! j) =
      if decide (j = i) then 0
      else if c_lru (row !!! j) <? c_lru (row !!! i) then c_lru (row !!! j) + 1
      else c_lru (row !!! j).
Proof.
  intros (Hl & _) Hi. unfold hit_row. cbv zeta. set (row1 := <[i := count_hit misp _]> row).
  assert (length row1 = Ways) as Hl1 by (unfold row1; by rewrite length_insert).
  assert (∀ j, c_lru (row1 !!! j) = c_lru (row !!! j)) as Hlru1.
  { intros j. unfold row1. rewrite lookup_total_insert_case by lia.
    case_bool_decide; subst; [apply count_hit_lru|done]. }
  destruct (bump_spec (λ j c, negb (j =? i)%nat && (c_lru c <? c_lru (row1 !!! i))) row1 Hl1)
    as [B1 B2]. unfold bump in B1, B2.
  set (row2 := for_range 0 Ways _ row1) in *. clearbody row2. split; [by rewrite length_insert|].
  intros j Hj. rewrite lookup_total_insert_case by lia. case_bool_decide as E.
  - subst. by rewrite decide_True.
  - rewrite decide_False by congruence. rewrite B2 by done.
    rewrite (proj2 (Nat.eqb_neq j i)) by congruence. cbn [negb andb]. rewrite !Hlru1.
    case_match; cbn; by rewrite Hlru1.
Qed.

Lemma hit_row_wf i misp row : row_wf row → (i < Ways)%nat → row_wf (hit_row i misp row).
Proof.
  intros Hwf Hi. destruct (hit_row_lru i misp row Hwf Hi) as [Hl Hg]. destruct Hwf as (_ & Hr & Hinj).
  pose proof (Hr i Hi). split_and!; [done| |].
  - intros j Hj. rewrite Hg by done. pose proof (Hr j Hj). destruct (decide _); [lia|].
    destruct (Z.ltb_spec (c_lru (row !!! j)) (c_lru (row !!! i))); lia.
  - intros j k Hj Hk. rewrite !Hg by done. pose proof (Hr j Hj). pose proof (Hr k Hk).
    pose proof (Hinj j k Hj Hk). pose proof (Hinj j i Hj Hi). pose proof (Hinj k i Hk Hi).
    destruct (decide (j = i)) as [->|], (decide (k = i)) as [->|]; try done;
      try assert (c_lru (row !!! j) ≠ c_lru (row !!! i)) by tauto;
      try assert (c_lru (row !!! k) ≠ c_lru (row !!! i)) by tauto;
      try destruct (Z.ltb_spec (c_lru (row !!! j)) (c_lru (row !!! i)));
      try destruct (Z.ltb_spec (c_lru (row !!! k)) (c_lru (row !!! i)));
      intros; lia.
Qed.

Lemma miss_cell_wf pc misp i row : row_wf row → (i < Ways)%nat → row_wf (miss_cell pc misp i row).
Proof.
  intros Hwf Hi. unfold miss_cell. destruct (Z.eqb_spec (c_lru (row !!! i)) (Z.of_nat Ways - 1)) as [E|];
    [|done]. cbv zeta. destruct Hwf as (Hl & Hr & Hinj). set (row1 := <[i := _]> row).
  assert (length row1 = Ways) as Hl1 by (unfold row1; by rewrite length_insert).
  destruct (bump_spec (λ j _, negb (j =? i)%nat) row1 Hl1) as [B1 B2]. unfold bump in B1, B2.
  set (row2 := for_range 0 Ways _ row1) in *. clearbody row2.
  assert (∀ j, (j < Ways)%nat → c_lru (row2 !!! j) = if decide (j = i) then 0
    else c_lru (row !!! j) + 1) as Hg.
  { intros j Hj. rewrite B2 by done. destruct (decide (j = i)) as [->|Hne].
    - rewrite Nat.eqb_refl. cbn. unfold row1. by rewrite lookup_total_insert_eq by lia.
    - rewrite (proj2 (Nat.eqb_neq j i)) by done. cbn. unfold row1.
      by rewrite lookup_total_insert_ne. }
  split_and!; [done| |].
  - intros j Hj. rewrite Hg by done. pose proof (Hr j Hj). pose proof (Hinj j i Hj Hi).
    destruct (decide _); [unfold Ways in *; lia|].
    assert (c_lru (row !!! j) ≠ c_lru (row !!! i)) by tauto. lia.
  - intros j k Hj Hk. rewrite !Hg by done. pose proof (Hr j Hj). pose proof (Hr k Hk).
    pose proof (Hinj j k Hj Hk).
    destruct (decide (j = i)), (decide (k = i)); subst; intros; try done; lia.
Qed.

Lemma misp_add_wf pc misp t : misp_wf t → misp_wf (misp_add pc misp t).
Proof.
  intros [Hl Hr]. unfold misp_add. cbv zeta. split; [by rewrite length_insert|].
  destruct (decide (row_index pc < Rows)%nat) as [Hk|Hk].
  2: { rewrite list_insert_ge; [done|]. lia. }
  destruct (lookup_lt_is_Some_2 t (row_index pc)) as [row Hrow]; [lia|].
  rewrite (list_lookup_total_correct _ _ _ Hrow).
  assert (row_wf row) as Hwf by (by eapply Forall_lookup_1 in Hr; [|exact Hrow]).
  apply Forall_insert; [done|]. destruct (find_cell pc row) as [i|] eqn:E.
  - apply find_from_Some in E as (Hi & _). apply hit_row_wf; [done|lia].
  - unfold miss_row. apply (for_range_inv row_wf); [done|]. intros i r Hi Hw.
    apply miss_cell_wf; [done|lia].
Qed.

Lemma misp_create_wf garbage :
  length garbage = Rows → Forall (λ row, length row = Ways) garbage → misp_wf (misp_create garbage).
Proof.
  intros Hl Hr. split; [unfold misp_create; by rewrite length_fmap|]. unfold misp_create.
  apply Forall_fmap. eapply Forall_impl; [exact Hr|]. intros row Hrow. cbn in Hrow |- *.
  destruct (for_range_map (λ j (c : Cell), c <| c_lru := Z.of_nat j |>)
    (λ j row, <[j := (row !!! j) <| c_lru := Z.of_nat j |>]> row) 0 Ways row) as [H1 H2];
    [done|lia|].
  assert (∀ j, (j < Ways)%nat → c_lru (for_range 0 Ways
    (λ j row, <[j := (row !!! j) <| c_lru := Z.of_nat j |>]> row) row !!! j) = Z.of_nat j) as Hg.
  { intros j Hj. rewrite H2. by rewrite decide_True by lia. }
  split_and!; [etrans; [exact H1|exact Hrow]| |].
  - intros j Hj. rewrite Hg by done. lia.
  - intros j k Hj Hk. rewrite !Hg by done. lia.
Qed.

(** ** Properties *)

(** The stalling slice table is a bounded LRU list.  [addInst] makes its address the most
    recent one and evicts the least recent when the table is full; [hasInst] answers whether
    the address is held and, when it is, makes it the most recent one; the list and the map
    stay consistent. *)
Theorem sst_refines_lru (s : SST) (a : Z) (i : DynInst) :
  sst_wf s → instAddr i = a →
  (sst_wf (addInst a s) ∧ contents (addInst a s) = lru_add (numEntries s) a (contents s)) ∧
  (let '(s', hit) := hasInst i s in
   sst_wf s' ∧ contents s' = lru_touch a (contents s) ∧ hit = bool_decide (a ∈ contents s)).
Proof.
  intros Hwf Hi. unfold hasInst. rewrite Hi. destruct (M s !! a) as [id|] eqn:Hm.
  - pose proof (hit_spec s a id Hwf Hm) as [Hwf' Hc].
    assert (a ∈ contents s) as Ha by (rewrite contents_elem by done; by eexists).
    split; [|split; [done|]].
    + unfold addInst. rewrite Hm. split; [done|]. rewrite Hc. unfold lru_add, to_head. symmetry.
      apply take_ge. rewrite <- Hc, contents_length by done. apply Hwf'.
    + unfold lru_touch. rewrite decide_True by done. split; [done|].
      by rewrite bool_decide_eq_true_2.
  - assert (a ∉ contents s) as Ha by (rewrite contents_elem by done; intros [? ?]; congruence).
    split.
    + destruct (miss_spec s a Hwf Hm) as [Hwf' Hc]. split; [done|]. rewrite Hc. unfold lru_add, to_head.
      by rewrite filter_ne_id.
    + unfold lru_touch. rewrite decide_False by done. split_and!; [done|done|].
      by rewrite bool_decide_eq_false_2.
Qed.

Lemma create_wf n : (0 < n)%nat → sst_wf (create n).
Proof.
  intros Hn. split; unfold create, contents; cbn; rewrite ?map_size_empty; try done.
  - by rewrite length_fmap, length_seq.
  - rewrite <- list_fmap_compose. cbn. rewrite list_fmap_id. apply NoDup_seq.
  - lia.
  - constructor.
  - intros a id. split; [by rewrite lookup_empty|by intros ?%elem_of_nil].
Qed.

Lemma sst_refines_lru_witness :
  contents (addInst 8 (create 2)) = [8].
Proof.
  destruct (sst_refines_lru (create 2) 8 (plain_inst 1 8 0 [] [] false)
    (create_wf 2 ltac:(lia)) eq_refl) as [[_ H] _]. rewrite H. by vm_compute.
Defined.

(** The recency numbers of every row of the misprediction table remain the numbers of its
    eight ways, whatever the table's storage held at first and whatever branches are added. *)
Theorem misp_recency_invariant (garbage : list (list Cell)) (adds : list (Z * bool)) :
  length garbage = Rows → Forall (λ row, length row = Ways) garbage →
  misp_wf (foldl (λ t x, misp_add x.1 x.2 t) (misp_create garbage) adds).
Proof.
  intros Hl Hr. induction adds as [|x adds IH] using rev_ind; [by apply misp_create_wf|].
  rewrite foldl_app. by apply misp_add_wf.
Qed.

Definition blank_table : list (list Cell) := replicate 8 (replicate 8 (mkCell 0 0 0 0)).

Lemma misp_recency_invariant_witness : misp_wf (misp_add 64 true (misp_create blank_table)).
Proof.
  apply (misp_recency_invariant blank_table [(64, true)]); [done|].
  by repeat constructor.
Defined.

(** A miss does not stop at its victim.  Eight branches that share a row fit in its eight
    ways, but the eighth insertion also overwrites the way of the first: the first branch is
    lost and two ways hold the eighth. *)
Theorem misp_eighth_branch_evicts_first :
  let t := foldl (λ t k, misp_add (16 * k) true t) (misp_create blank_table)
             [1; 2; 3; 4; 5; 6; 7; 8] in
  find_cell 16 (t !!! 0%nat) = None ∧
  length (filter (λ c, c_pc c = 128) (t !!! 0%nat)) = 2%nat.
Proof. by vm_compute. Qed.

End Sst.
