(* ===== verification/Nested.v ===== *)
(** * The bounded nested-discovery controller

    Model of [DVRNestedController] (src/cpu/o3/dvr_nested.hh, dvr_nested.cc): a stack of at
    most two discoveries, a root and one child, that complete or time out in LIFO order. *)

From S2P Require Import Prelude.

Module Nested.

Definition MaxDepth : nat := 2.
#[global] Arguments MaxDepth : simpl never.

Inductive Event :=
| NoEvent | Started | Completed | TimedOut | RejectedDepth | RejectedParent | RejectedOrder.

#[export] Instance Event_eq_dec : EqDecision Event.
Proof. solve_decision. Defined.

(** [struct Result] *)
Record Result := mkResult {
  event : Event;  id : Z;  parentId : Z;  depth : nat;
  r_triggerPC : Z;  finalLoadPC : Z;  r_committed : Z
}.

(** [Result{}] *)
Definition Result_init : Result := mkResult NoEvent 0 0 0 0 0 0.

(** [struct Statistics] *)
Record Statistics := mkStatistics {
  rootStarts : Z;  nestedStarts : Z;  rootCompletions : Z;  nestedCompletions : Z;
  rootTimeouts : Z;  nestedTimeouts : Z;
  depthRejects : Z;  parentRejects : Z;  orderRejects : Z
}.

#[export] Instance eta_Statistics : Eta Statistics := λ r,
  mkStatistics (rootStarts r) (nestedStarts r) (rootCompletions r) (nestedCompletions r)
    (rootTimeouts r) (nestedTimeouts r) (depthRejects r) (parentRejects r) (orderRejects r).

(** [struct Frame] *)
Record Frame := mkFrame {
  f_id : Z;  f_parent : Z;  triggerPC : Z;  triggerSequence : Z;  committedInstructions : Z
}.

#[export] Instance eta_Frame : Eta Frame := λ r,
  mkFrame (f_id r) (f_parent r) (triggerPC r) (triggerSequence r) (committedInstructions r).

Definition Frame_init : Frame := mkFrame 0 0 0 0 0.
#[export] Instance Frame_inhabited : Inhabited Frame := populate Frame_init.

(** The data members. *)
Record Controller := mkController {
  frames : list Frame;  activeDepth : nat;  maxInstructions : Z;  nextId : Z;
  counters : Statistics
}.

#[export] Instance eta_Controller : Eta Controller := λ r,
  mkController (frames r) (activeDepth r) (maxInstructions r) (nextId r) (counters r).

Definition no_statistics : Statistics := mkStatistics 0 0 0 0 0 0 0 0 0.

(** The constructor. *)
Definition create (max_instructions : Z) : Controller :=
  mkController (replicate MaxDepth Frame_init) 0 max_instructions 1 no_statistics.

Definition active (c : Controller) : bool := negb (activeDepth c =? 0)%nat.

(** [frames[activeDepth - 1]] *)
Definition top (c : Controller) : Frame := frames c !!! (activeDepth c - 1)%nat.

(** [reject] *)
Definition reject (e : Event) (c : Controller) : Controller * Result :=
  (c <| counters ::= λ k,
      match e with
      | RejectedDepth => k <| depthRejects ::= inc64 |>
      | RejectedParent => k <| parentRejects ::= inc64 |>
      | RejectedOrder => k <| orderRejects ::= inc64 |>
      | _ => k
      end |>,
   mkResult e 0 0 (activeDepth c) 0 0 0).

(** [startRoot] *)
Definition startRoot (trigger_pc sequence : Z) (c : Controller) : Controller * Result :=
  if active c then reject RejectedParent c
  else
    let frame := mkFrame (nextId c) 0 trigger_pc sequence 0 in
    (c <| nextId ::= inc64 |> <| frames ::= <[0%nat := frame]> |> <| activeDepth := 1%nat |>
       <| counters ::= λ k, k <| rootStarts ::= inc64 |> |>,
     mkResult Started (f_id frame) 0 1 trigger_pc 0 0).

(** [startNested] *)
Definition startNested (parent_id trigger_pc sequence : Z) (c : Controller)
  : Controller * Result :=
  if negb (active c) || negb (f_id (top c) =? parent_id) then reject RejectedParent c
  else if (activeDepth c =? MaxDepth)%nat then reject RejectedDepth c
  else
    let frame := mkFrame (nextId c) parent_id trigger_pc sequence 0 in
    (c <| nextId ::= inc64 |> <| frames ::= <[activeDepth c := frame]> |> <| activeDepth ::= S |>
       <| counters ::= λ k, k <| nestedStarts ::= inc64 |> |>,
     mkResult Started (f_id frame) parent_id (S (activeDepth c)) trigger_pc 0 0).

(** The pop shared by [timeoutTop] and [complete]. *)
Definition pop_frame (count : Statistics → Statistics) (c : Controller) : Controller :=
  c <| frames ::= <[(activeDepth c - 1)%nat := Frame_init]> |> <| counters ::= count |>
    <| activeDepth ::= λ d, (d - 1)%nat |>.

(** [timeoutTop] *)
Definition timeoutTop (c : Controller) : Controller * Result :=
  let frame := top c in
  (pop_frame (λ k, if (activeDepth c =? 1)%nat then k <| rootTimeouts ::= inc64 |>
                   else k <| nestedTimeouts ::= inc64 |>) c,
   mkResult TimedOut (f_id frame) (f_parent frame) (activeDepth c) (triggerPC frame) 0
     (committedInstructions frame)).

(** [complete] *)
Definition complete (discovery final_load_pc : Z) (c : Controller) : Controller * Result :=
  if negb (active c) || negb (f_id (top c) =? discovery) then reject RejectedOrder c
  else
    let frame := top c in
    (pop_frame (λ k, if (activeDepth c =? 1)%nat then k <| rootCompletions ::= inc64 |>
                     else k <| nestedCompletions ::= inc64 |>) c,
     mkResult Completed (f_id frame) (f_parent frame) (activeDepth c) (triggerPC frame)
       final_load_pc (committedInstructions frame)).

(** The loop over the active frames. *)
Definition age_frames (c : Controller) : Controller :=
  c <| frames ::= for_range 0 (activeDepth c)
         (λ i fs, <[i := (fs !!! i) <| committedInstructions ::= inc32 |>]> fs) |>.

(** [observeCommit] *)
Definition observeCommit (pc sequence : Z) (c : Controller) : Controller * Result :=
  if negb (active c) then (c, Result_init)
  else if (1 <? activeDepth c)%nat && (triggerSequence (top c) <? sequence)
          && (pc =? triggerPC (top c))
  then complete (f_id (top c)) pc c
  else
    let c := age_frames c in
    if maxInstructions c <=? committedInstructions (top c) then timeoutTop c
    else (c, Result_init).

(** [currentId], [rootId] *)
Definition currentId (c : Controller) : option Z := if active c then Some (f_id (top c)) else None.
Definition rootId (c : Controller) : option Z :=
  if active c then Some (f_id (frames c !!! 0%nat)) else None.

(** [reset], [clear] *)
Definition reset (c : Controller) : Controller :=
  c <| frames := replicate MaxDepth Frame_init |> <| activeDepth := 0%nat |>.
Definition clear (c : Controller) : Controller :=
  (reset c) <| counters := no_statistics |> <| nextId := 1 |>.

(** ** Runs *)

Inductive Op :=
| StartRoot (trigger_pc sequence : Z)
| StartNested (parent_id trigger_pc sequence : Z)
| Commit (pc sequence : Z)
| Complete (discovery final_load_pc : Z).

Definition apply_op (c : Controller) (o : Op) : Controller :=
  match o with
  | StartRoot p s => (startRoot p s c).1
  | StartNested i p s => (startNested i p s c).1
  | Commit p s => (observeCommit p s c).1
  | Complete i p => (complete i p c).1
  end.

Definition run (c : Controller) (ops : list Op) : Controller := foldl apply_op c ops.

Definition commits (c : Controller) (xs : list (Z * Z)) : Controller :=
  foldl (λ c x, (observeCommit x.1 x.2 c).1) c xs.

(** The frames below the depth are live discoveries with increasing identifiers, the child's
    parent being the root; the others are empty.  A child has not seen more instructions than
    its parent, and the top frame is within the budget. *)
Definition frames_ok (c : Controller) : Prop :=
  match frames c, activeDepth c with
  | [r; n], 0%nat => r = Frame_init ∧ n = Frame_init
  | [r; n], 1%nat =>
      n = Frame_init ∧ 0 < f_id r < nextId c ∧ f_parent r = 0 ∧
      0 <= committedInstructions r
  | [r; n], 2%nat =>
      0 < f_id r < f_id n ∧ f_id n < nextId c ∧ f_parent r = 0 ∧ f_parent n = f_id r ∧
      0 <= committedInstructions n <= committedInstructions r ∧
      committedInstructions n < maxInstructions c
  | _, _ => False
  end.

(** How many roots and children are live. *)
Definition live_roots (d : nat) : Z := match d with O => 0 | _ => 1 end.
Definition live_children (d : nat) : Z := match d with S (S _) => 1 | _ => 0 end.

(** Every discovery that was started is live, completed or timed out. *)
Definition conserved (c : Controller) : Prop :=
  let k := counters c in
  rootStarts k = rootCompletions k + rootTimeouts k + live_roots (activeDepth c) ∧
  nestedStarts k = nestedCompletions k + nestedTimeouts k + live_children (activeDepth c).

(** The counters, identifiers and ages after [n] operations. *)
Definition within (c : Controller) (n : Z) : Prop :=
  let k := counters c in
  0 < nextId c <= n + 1 ∧ 0 < maxInstructions c ∧
  (0 <= rootStarts k <= n ∧ 0 <= nestedStarts k <= n ∧ 0 <= rootCompletions k <= n ∧
   0 <= nestedCompletions k <= n ∧ 0 <= rootTimeouts k <= n ∧ 0 <= nestedTimeouts k <= n) ∧
  Forall (λ f, 0 <= committedInstructions f <= n) (frames c).

Definition ok (n : Z) (c : Controller) : Prop := frames_ok c ∧ conserved c ∧ within c n.

(** ** Lemmas *)

(** The three shapes a controller can have. *)
Lemma ok_shape n c :
  ok n c →
  (activeDepth c = 0%nat ∧ frames c = [Frame_init; Frame_init]) ∨
  (∃ r, activeDepth c = 1%nat ∧ frames c = [r; Frame_init]) ∨
  (∃ r k, activeDepth c = 2%nat ∧ frames c = [r; k]).
Proof.
  intros [Hf _]. unfold frames_ok in Hf. destruct (frames c) as [|r [|k [|? ?]]]; try done.
  destruct (activeDepth c) as [|[|[|d]]]; try done.
  - left. destruct Hf as [-> ->]. done.
  - right; left. exists r. by destruct Hf as [-> _].
  - right; right. by exists r, k.
Qed.

Ltac split_ok Hok :=
  let Hs := fresh in
  pose proof (ok_shape _ _ Hok) as Hs; destruct Hok as (Hf & Hc & Hw);
  unfold frames_ok, conserved, within in Hf, Hc, Hw;
  match type of Hs with context [frames ?c] => destruct c as [fs d mx nid [k1 k2 k3 k4 k5 k6 k7 k8 k9]] end;
  cbn in Hs, Hf, Hc, Hw;
  destruct Hs as [[-> ->]|[(r & -> & ->)|(r & k & -> & ->)]]; cbn in Hf, Hc, Hw;
  rewrite ?Forall_cons in Hw.

Ltac finish_ok :=
  unfold ok, frames_ok, conserved, within; cbn in *;
  rewrite ?inc64_small, ?inc32_small by lia; rewrite ?Forall_cons, ?Forall_nil in *; cbn in *;
  destruct_and?; simplify_eq; split_and!; solve [done | lia | congruence].

Lemma ok_startRoot n p s c : 0 <= n < 2 ^ 32 - 2 → ok n c → ok (n + 1) (startRoot p s c).1.
Proof.
  intros Hn Hok. split_ok Hok; unfold startRoot, active, reject; finish_ok.
Qed.

Lemma ok_startNested n i p s c :
  0 <= n < 2 ^ 32 - 2 → ok n c → ok (n + 1) (startNested i p s c).1.
Proof.
  intros Hn Hok. split_ok Hok; unfold startNested, active, top, reject, MaxDepth; cbn.
  - finish_ok.
  - destruct (Z.eqb_spec (f_id r) i); finish_ok.
  - destruct (Z.eqb_spec (f_id k) i); finish_ok.
Qed.

Lemma ctl_ok_complete n i p c :
  0 <= n < 2 ^ 32 - 2 → ok n c → ok (n + 1) (complete i p c).1.
Proof.
  intros Hn Hok. split_ok Hok; unfold complete, active, top, reject, pop_frame; cbn.
  - finish_ok.
  - destruct (Z.eqb_spec (f_id r) i); finish_ok.
  - destruct (Z.eqb_spec (f_id k) i); finish_ok.
Qed.

Lemma age_one r k mx nid cs :
  age_frames (mkController [r; k] 1 mx nid cs) =
  mkController [r <| committedInstructions ::= inc32 |>; k] 1 mx nid cs.
Proof. reflexivity. Qed.

Lemma age_two r k mx nid cs :
  age_frames (mkController [r; k] 2 mx nid cs) =
  mkController [r <| committedInstructions ::= inc32 |>; k <| committedInstructions ::= inc32 |>]
    2 mx nid cs.
Proof. reflexivity. Qed.

Lemma ok_observeCommit n p s c :
  0 <= n < 2 ^ 32 - 2 → ok n c → ok (n + 1) (observeCommit p s c).1.
Proof.
  intros Hn Hok. split_ok Hok; unfold observeCommit, active; cbn; rewrite ?age_one, ?age_two;
    destruct_and?.
  - finish_ok.
  - unfold timeoutTop, top, pop_frame; cbn. change (1 <? 1)%nat with false; cbn.
    rewrite inc32_small by lia. case_match eqn:E; reflect; finish_ok.
  - unfold complete, timeoutTop, top, pop_frame, active; cbn. rewrite Z.eqb_refl; cbn.
    case_match; [finish_ok|]. rewrite (inc32_small (committedInstructions k)) by lia.
    case_match eqn:E; reflect; finish_ok.
Qed.

Lemma ctl_ok_create m : 0 < m → ok 0 (create m).
Proof. intros. unfold create, MaxDepth, no_statistics. finish_ok. Qed.

Lemma ctl_ok_step n o c : 0 <= n < 2 ^ 32 - 2 → ok n c → ok (n + 1) (apply_op c o).
Proof.
  destruct o; [apply ok_startRoot|apply ok_startNested|apply ok_observeCommit|apply ctl_ok_complete].
Qed.

Lemma ctl_ok_run ops : ∀ n c,
  0 <= n → n + Z.of_nat (length ops) < 2 ^ 32 - 2 → ok n c →
  ok (n + Z.of_nat (length ops)) (run c ops).
Proof.
  induction ops as [|o ops IH]; intros n c Hn Hb Hok; cbn [length] in *.
  - by rewrite Z.add_0_r.
  - replace (n + Z.of_nat (S (length ops))) with (n + 1 + Z.of_nat (length ops)) by lia.
    apply IH; [lia|lia|]. apply ctl_ok_step; [lia|done].
Qed.

(** A bound on the commits before the stack is empty. *)
Definition patience (c : Controller) : Z :=
  let left f := Z.max 1 (maxInstructions c - committedInstructions f) in
  match activeDepth c with
  | O => 0
  | S O => left (top c)
  | _ => left (top c) + 1
  end.

Lemma patience_step n p s c :
  0 <= n < 2 ^ 32 - 2 → ok n c →
  maxInstructions (observeCommit p s c).1 = maxInstructions c ∧
  patience (observeCommit p s c).1 <= Z.max 0 (patience c - 1).
Proof.
  intros Hn Hok. split_ok Hok; unfold observeCommit, active, patience; cbn; rewrite ?age_one, ?age_two.
  - done.
  - unfold timeoutTop, top, pop_frame; cbn. change (1 <? 1)%nat with false; cbn. destruct_and?.
    rewrite inc32_small by lia. case_match eqn:E; reflect; cbn; split; lia.
  - unfold complete, timeoutTop, top, pop_frame, active; cbn. rewrite Z.eqb_refl; cbn. destruct_and?.
    case_match; cbn; [split; lia|]. rewrite !inc32_small by lia.
    case_match eqn:E; reflect; cbn; rewrite ?inc32_small by lia; split; lia.
Qed.

Lemma commits_patience xs : ∀ n c,
  0 <= n → n + Z.of_nat (length xs) < 2 ^ 32 - 2 → ok n c →
  patience (commits c xs) <= Z.max 0 (patience c - Z.of_nat (length xs)) ∧
  ok (n + Z.of_nat (length xs)) (commits c xs).
Proof.
  induction xs as [|[p s] xs IH]; intros n c Hn Hb Hok; cbn [length] in *.
  - rewrite Z.add_0_r. split; [cbn; lia|done].
  - pose proof (ok_observeCommit n p s c ltac:(lia) Hok) as Hok'.
    pose proof (patience_step n p s c ltac:(lia) Hok) as [_ Hp].
    destruct (IH (n + 1) (observeCommit p s c).1) as [H1 H2]; [lia|lia|done|].
    unfold commits in *; cbn [foldl fst snd].
    replace (n + Z.of_nat (S (length xs))) with (n + 1 + Z.of_nat (length xs)) by lia.
    split; [lia|done].
Qed.

Lemma patience_bound n c : ok n c → 0 <= patience c <= maxInstructions c + 1.
Proof. intros Hok. split_ok Hok; unfold patience, top; cbn; destruct_and?; lia. Qed.

Lemma patience_zero c : patience c <= 0 → activeDepth c = 0%nat.
Proof. unfold patience. destruct (activeDepth c) as [|[|d]]; [done|lia|lia]. Qed.

Lemma run_max c ops : maxInstructions (run c ops) = maxInstructions c.
Proof.
  revert c; induction ops as [|o ops IH]; intros c; [done|]. cbn. rewrite IH.
  destruct o; cbn; unfold startRoot, startNested, observeCommit, complete, timeoutTop, reject;
    repeat case_match; done.
Qed.

(** ** Theorems *)

(** C36: the controller's stack discipline.  After any sequence of root starts, child starts,
    commits and completions the controller holds at most two frames; live identifiers are
    positive, distinct and increasing, the child names the root as its parent, has seen at most
    as many instructions as it and is within the budget; frames above the depth are empty; and
    every discovery ever started is live, completed or timed out, for roots and children
    separately. *)
Theorem controller_discipline m ops
  (Hm : 0 < m) (Hlen : Z.of_nat (length ops) < 2 ^ 32 - 2) :
  let c := run (create m) ops in
  (activeDepth c <= MaxDepth)%nat ∧ frames_ok c ∧ conserved c ∧ maxInstructions c = m.
Proof.
  pose proof (ctl_ok_run ops 0 (create m) ltac:(lia) ltac:(lia) (ctl_ok_create m Hm)) as Hok.
  cbn zeta. split_and!; [|apply Hok|apply Hok|by rewrite run_max].
  unfold MaxDepth. destruct (ok_shape _ _ Hok) as [[-> _]|[(r & -> & _)|(r & k & -> & _)]]; lia.
Qed.

(** C37: the discoveries terminate.  Whatever was started, after [maxInstructions + 1] further
    commits no discovery is live: a child that neither completes nor is completed times out,
    and its parent times out with it or on the next commit. *)
Theorem controller_terminates m ops xs
  (Hm : 0 < m) (Hlen : Z.of_nat (length ops + length xs) < 2 ^ 32 - 2)
  (Hmany : m + 1 <= Z.of_nat (length xs)) :
  activeDepth (commits (run (create m) ops) xs) = 0%nat.
Proof.
  pose proof (ctl_ok_run ops 0 (create m) ltac:(lia) ltac:(lia) (ctl_ok_create m Hm)) as Hok.
  pose proof (patience_bound _ _ Hok) as Hp. rewrite run_max in Hp. cbn in Hp.
  apply patience_zero.
  destruct (commits_patience xs (0 + Z.of_nat (length ops)) (run (create m) ops)) as [H _];
    [lia|lia|exact Hok|lia].
Qed.

(** ** Witnesses *)

Definition trace : list Op :=
  [StartRoot 16 1; StartNested 1 32 2; Commit 20 3; StartNested 2 40 4; Complete 1 8].

Lemma controller_discipline_witness :
  let c := run (create 3) trace in
  activeDepth c = 2%nat ∧ nestedStarts (counters c) = 1 ∧ orderRejects (counters c) = 1 ∧
  frames_ok c ∧ conserved c.
Proof.
  destruct (controller_discipline 3 trace ltac:(lia) ltac:(by vm_compute)) as (_ & H1 & H2 & _).
  split_and!; [by vm_compute..|exact H1|exact H2].
Defined.

Lemma controller_terminates_witness :
  activeDepth (run (create 3) trace) = 2%nat ∧
  activeDepth (commits (run (create 3) trace) [(1, 1); (1, 2); (1, 3); (1, 4)]) = 0%nat.
Proof.
  split; [reflexivity|].
  apply (controller_terminates 3 trace [(1, 1); (1, 2); (1, 3); (1, 4)]);
    [lia|by vm_compute|by vm_compute].
Defined.
End Nested.
