(* ===== verification/Ndm.v ===== *)
(** * Nested Discovery Mode

    Model of [DVRNestedDiscoveryMode] (src/cpu/o3/dvr_nested.hh, dvr_nested.cc): the control
    state machine that inverts a short inner loop's backward branch, learns the stride of an
    outer load and materialises a plan of up to sixteen inner invocations. *)

From S2P Require Import Prelude.

Module Ndm.

(** [enum class State], [enum class Event] *)
Inductive State := Idle | SeekingOuter | OuterFound | Vectorizing.
Inductive Event := NoEvent | Started | OuterAccepted | VectorizeReady | TimedOut | Fallback.

#[export] Instance State_eq_dec : EqDecision State.
Proof. solve_decision. Defined.
#[export] Instance Event_eq_dec : EqDecision Event.
Proof. solve_decision. Defined.

Definition PaperOuterSearchInstructions : Z := 200.
Definition MaxOuterInvocations : nat := 16.
Definition MaxProbes : nat := 8.
#[global] Arguments MaxOuterInvocations : simpl never.
#[global] Arguments MaxProbes : simpl never.

(** [struct ControlState] *)
Record ControlState := mkControl {
  innerBranchPC : Z;  innerBranchTarget : Z;  innerFallthrough : Z;  c_reconvergencePC : Z;
  inductionRegister : Z;  boundRegister : Z;  inductionValue : Z;  boundValue : Z;
  inductionIncrement : Z;  remainingIterations : Z;
  branchTaken : bool;  branchInverted : bool;  valid : bool;
  takenMask : LaneMask;  fallthroughMask : LaneMask
}.

#[export] Instance eta_ControlState : Eta ControlState := λ r,
  mkControl (innerBranchPC r) (innerBranchTarget r) (innerFallthrough r) (c_reconvergencePC r)
    (inductionRegister r) (boundRegister r) (inductionValue r) (boundValue r)
    (inductionIncrement r) (remainingIterations r) (branchTaken r) (branchInverted r) (valid r)
    (takenMask r) (fallthroughMask r).

(** [ControlState{}] *)
Definition Control_init : ControlState :=
  mkControl 0 0 0 0 (-1) (-1) 0 0 0 0 false false false mask_empty mask_empty.

(** [struct OuterInvocation] *)
Record OuterInvocation := mkInvocation {
  outerBase : Z;  innerStart : Z;  i_innerLanes : Z;  innerTriggerPC : Z;  innerFLRPC : Z;
  innerStride : Z;  predicate : LaneMask;  i_reconvergencePC : Z
}.

#[export] Instance eta_OuterInvocation : Eta OuterInvocation := λ r,
  mkInvocation (outerBase r) (innerStart r) (i_innerLanes r) (innerTriggerPC r) (innerFLRPC r)
    (innerStride r) (predicate r) (i_reconvergencePC r).

Definition Invocation_init : OuterInvocation := mkInvocation 0 0 0 0 0 0 mask_empty 0.
#[export] Instance Invocation_inhabited : Inhabited OuterInvocation := populate Invocation_init.

(** [struct OuterProbe] *)
Record OuterProbe := mkProbe {
  p_pc : Z;  p_address : Z;  p_stride : Z;  samples : Z;  recentAddresses : list Z
}.

#[export] Instance eta_OuterProbe : Eta OuterProbe := λ r,
  mkProbe (p_pc r) (p_address r) (p_stride r) (samples r) (recentAddresses r).

Definition Probe_init : OuterProbe := mkProbe 0 0 0 0 [0; 0; 0].
#[export] Instance Probe_inhabited : Inhabited OuterProbe := populate Probe_init.

(** [struct Statistics] *)
Record Statistics := mkStatistics {
  attempts : Z;  outerFound : Z;  fallbacks : Z;  timeouts : Z;  branchInversions : Z;
  irCaptures : Z;  ilrCaptures : Z;  lcrCaptures : Z;  outerInvocations : Z
}.

#[export] Instance eta_Statistics : Eta Statistics := λ r,
  mkStatistics (attempts r) (outerFound r) (fallbacks r) (timeouts r) (branchInversions r)
    (irCaptures r) (ilrCaptures r) (lcrCaptures r) (outerInvocations r).

(** The data members. *)
Record Mode := mkMode {
  currentState : State;
  laneThreshold : Z;
  outerSearchMaxInstructions : Z;
  outerCollectionMaxInstructions : Z;
  committedInstructions : Z;
  innerLoadPC : Z;
  increment : Z;
  innerLanes : Z;
  outerLoadPC : Z;
  outerAddress : Z;
  outerStride : Z;
  invocations : list OuterInvocation;
  invocationCount : nat;
  outerProbes : list OuterProbe;
  pendingOuterBases : list Z;
  pendingOuterCount : nat;
  pendingOuterConsumed : nat;
  control : ControlState;
  counters : Statistics
}.

#[export] Instance eta_Mode : Eta Mode := λ r,
  mkMode (currentState r) (laneThreshold r) (outerSearchMaxInstructions r)
    (outerCollectionMaxInstructions r) (committedInstructions r) (innerLoadPC r) (increment r)
    (innerLanes r) (outerLoadPC r) (outerAddress r) (outerStride r) (invocations r)
    (invocationCount r) (outerProbes r) (pendingOuterBases r) (pendingOuterCount r)
    (pendingOuterConsumed r) (control r) (counters r).

(** [struct Result]: the snapshot an operation returns. *)
Record Result := mkResult {
  r_event : Event;  r_state : State;  r_innerLoadPC : Z;  r_increment : Z;  r_innerLanes : Z;
  r_outerLoadPC : Z;  r_outerAddress : Z;  r_outerStride : Z;  r_committed : Z;
  r_control : ControlState
}.

Definition Result_init : Result := mkResult NoEvent Idle 0 0 0 0 0 0 0 Control_init.

(** [reset] *)
Definition reset (m : Mode) : Mode :=
  mkMode Idle (laneThreshold m) (outerSearchMaxInstructions m) (outerCollectionMaxInstructions m)
    0 0 0 0 0 0 0 (replicate MaxOuterInvocations Invocation_init) 0
    (replicate MaxProbes Probe_init) (replicate MaxOuterInvocations 0) 0 0 Control_init
    (counters m).

(** The constructor; [unsigned] products wrap. *)
Definition create (lane_threshold max_instructions : Z) : Mode :=
  reset (mkMode Idle lane_threshold (Z.min max_instructions PaperOuterSearchInstructions)
    (u32 (Z.max max_instructions PaperOuterSearchInstructions * Z.of_nat MaxOuterInvocations))
    0 0 0 0 0 0 0 [] 0 [] [] 0 0 Control_init (mkStatistics 0 0 0 0 0 0 0 0 0)).

(** [clear] *)
Definition clear (m : Mode) : Mode :=
  (reset m) <| counters := mkStatistics 0 0 0 0 0 0 0 0 0 |>.

(** [snapshot] *)
Definition snapshot (e : Event) (m : Mode) : Result :=
  mkResult e (currentState m) (innerLoadPC m) (increment m) (innerLanes m) (outerLoadPC m)
    (outerAddress m) (outerStride m) (committedInstructions m) (control m).

(** [active], [eligible], [readyToVectorize], [plannedInvocationCount] *)
Definition active (m : Mode) : bool := negb (bool_decide (currentState m = Idle)).
Definition eligible (inner_lanes : Z) (m : Mode) : bool :=
  negb (inner_lanes =? 0) && (inner_lanes <? laneThreshold m).
Definition readyToVectorize (m : Mode) : bool := bool_decide (currentState m = Vectorizing).
Definition plannedInvocationCount (m : Mode) : nat :=
  if (pendingOuterCount m <? invocationCount m)%nat then invocationCount m
  else pendingOuterCount m.

(** ** [start] *)

(** The members both branches of [start] set. *)
Definition open_generation (inner_load_pc loop_increment inner_lanes : Z) (m : Mode) : Mode :=
  m <| innerLoadPC := inner_load_pc |> <| increment := loop_increment |>
    <| innerLanes := inner_lanes |>
    <| control := Control_init <| inductionIncrement := loop_increment |> |>
    <| counters ::= λ k, k <| attempts ::= inc64 |> |>.

Definition start (inner_load_pc loop_increment inner_lanes : Z) (m : Mode) : Mode * Result :=
  if (inner_load_pc =? 0) || (inner_lanes =? 0) || (laneThreshold m <=? inner_lanes)
  then (m, snapshot NoEvent m)
  else if bool_decide (currentState m = Vectorizing) && (inner_load_pc =? innerLoadPC m)
  then
    let m := open_generation inner_load_pc loop_increment inner_lanes
               (m <| committedInstructions := 0 |>) in
    (m, snapshot Started m)
  else
    let m := if bool_decide (currentState m = Vectorizing) then reset m else m in
    if active m then (m, snapshot NoEvent m)
    else
      let m := open_generation inner_load_pc loop_increment inner_lanes
                 ((reset m) <| currentState := SeekingOuter |>) in
      (m, snapshot Started m).

(** [captureLoopRegisters] *)
Definition captureLoopRegisters
    (induction_register bound_register induction_value bound_value remaining : Z) (m : Mode)
  : Mode :=
  if negb (active m) then m
  else
    m <| control ::= λ c, c
           <| inductionRegister := induction_register |> <| boundRegister := bound_register |>
           <| inductionValue := induction_value |> <| boundValue := bound_value |>
           <| remainingIterations := remaining |> <| inductionIncrement := increment m |> |>
      <| counters ::= λ k,
           let k := if 0 <=? induction_register then k <| ilrCaptures ::= inc64 |> else k in
           if 0 <=? bound_register then k <| lcrCaptures ::= inc64 |> else k |>.

(** The loop that parks the first [n] lanes on both paths of the inverted branch. *)
Definition park_lanes (n : nat) (c : ControlState) : ControlState :=
  for_range 0 n (λ lane c,
    c <| takenMask ::= λ w, mask_set w lane |> <| fallthroughMask ::= λ w, mask_set w lane |>) c.

(** [observeInnerBranch] *)
Definition observeInnerBranch
    (branch_pc branch_target fallthrough_pc : Z) (taken : bool) (m : Mode) : Mode * bool :=
  if negb (active m) || (branch_pc <=? innerLoadPC m) || (innerLoadPC m <? branch_target)
     || (branch_pc <=? branch_target)
  then (m, false)
  else if valid (control m) then (m, false)
  else
    let active_lanes := Z.to_nat (Z.min (innerLanes m) 128) in
    (m <| control ::= λ c,
            (park_lanes active_lanes
               (c <| innerBranchPC := branch_pc |> <| innerBranchTarget := branch_target |>
                  <| innerFallthrough := fallthrough_pc |> <| branchTaken := taken |>
                  <| branchInverted := true |> <| c_reconvergencePC := fallthrough_pc |>))
              <| valid := true |> |>
       <| counters ::= λ k, k <| irCaptures ::= inc64 |> <| branchInversions ::= inc64 |> |>,
     true).

(** ** [recordOuterInvocation] *)

(** One step of the loop that copies the first invocation to the remaining plan entries. *)
Definition materialise (seed : OuterInvocation) (k : nat) (m : Mode) : Mode :=
  let base := pendingOuterBases m !!! k in
  let delta := s64 (s64 base - s64 (outerBase seed)) in
  m <| invocations ::= <[k := seed <| outerBase := base |>
                                   <| innerStart := u64 (s64 (innerStart seed) + delta) |>]> |>
    <| invocationCount := S k |>.

(** Take the next pending base for [invocation]. *)
Definition append_invocation (invocation : OuterInvocation) (m : Mode) : Mode :=
  m <| invocations ::= <[invocationCount m := invocation]> |>
    <| pendingOuterConsumed ::= S |> <| invocationCount ::= S |>.

(** Materialise the remaining plan entries from the first child. *)
Definition materialise_rest (m : Mode) : Mode :=
  (for_range (invocationCount m) (pendingOuterCount m - invocationCount m)
     (materialise (invocations m !!! 0%nat)) m)
    <| pendingOuterConsumed := pendingOuterCount m |>.

Definition recordOuterInvocation
    (inner_start lanes inner_trigger_pc inner_flr_pc inner_stride : Z) (m : Mode)
  : Mode * bool :=
  if (negb (bool_decide (currentState m = OuterFound))
      && negb (bool_decide (currentState m = Vectorizing)))
     || (pendingOuterCount m <=? pendingOuterConsumed m)%nat
     || (inner_start =? 0) || (lanes =? 0) || (inner_trigger_pc =? 0) || (inner_flr_pc =? 0)
     || negb (valid (control m))
  then (m, false)
  else
    let m := m <| counters ::= λ k, k <| outerInvocations ::= inc64 |> |> in
    let m :=
      if (invocationCount m <? MaxOuterInvocations)%nat then
        let m := append_invocation
          (mkInvocation (pendingOuterBases m !!! pendingOuterConsumed m) inner_start
             (Z.min lanes 128) inner_trigger_pc inner_flr_pc inner_stride
             (fallthroughMask (control m)) (c_reconvergencePC (control m))) m in
        if (invocationCount m =? 1)%nat && (1 <? pendingOuterCount m)%nat
        then materialise_rest m else m
      else m in
    let m := if (1 <=? invocationCount m)%nat then m <| currentState := Vectorizing |> else m in
    (m <| committedInstructions := 0 |>, true).

(** ** [observeOuterLoad] *)

(** [acceptOuter] *)
Definition acceptOuter (outer_load_pc outer_address outer_stride : Z) (m : Mode)
  : Mode * Result :=
  if negb (bool_decide (currentState m = SeekingOuter)) || negb (valid (control m))
     || (outer_load_pc =? 0) || (outer_load_pc =? innerLoadPC m) || (outer_stride =? 0)
  then (m, snapshot NoEvent m)
  else
    let m := m <| currentState := OuterFound |> <| outerLoadPC := outer_load_pc |>
               <| outerAddress := outer_address |> <| outerStride := outer_stride |>
               <| committedInstructions := 0 |>
               <| counters ::= λ k, k <| outerFound ::= inc64 |> |> in
    (m, snapshot OuterAccepted m).

(** [pendingOuterBases[pendingOuterCount++] = address], guarded by the capacity. *)
Definition push_base (address : Z) (m : Mode) : Mode :=
  if (pendingOuterCount m <? MaxOuterInvocations)%nat then
    m <| pendingOuterBases ::= <[pendingOuterCount m := address]> |> <| pendingOuterCount ::= S |>
  else m.

(** The accepted outer load was observed again. *)
Definition extend_plan (pc address : Z) (m : Mode) : Mode :=
  if (pc =? outerLoadPC m) && (s64 (s64 address - s64 (outerAddress m)) =? outerStride m)
  then (push_base address (m <| outerAddress := address |>)) <| committedInstructions := 0 |>
  else m.

(** The probe of [pc], or the first free one. *)
Definition probe_index (pc : Z) (probes : list OuterProbe) : option nat :=
  match find_from 0 MaxProbes (λ i, p_pc (probes !!! i) =? pc) with
  | Some i => Some i
  | None => find_from 0 MaxProbes (λ i, p_pc (probes !!! i) =? 0)
  end.

(** [recentAddresses] shifted by one. *)
Definition shift_recent (address : Z) (recent : list Z) : list Z :=
  let recent := <[2%nat := recent !!! 1%nat]> recent in
  let recent := <[1%nat := recent !!! 0%nat]> recent in
  <[0%nat := address]> recent.

(** The three confirming addresses, oldest first. *)
Definition push_recent (recent : list Z) (m : Mode) : Mode :=
  foldl (λ m (i : nat), if negb (recent !!! i =? 0) then push_base (recent !!! i) m else m)
    m [2; 1; 0]%nat.

#[global] Arguments push_recent : simpl never.
#[global] Arguments acceptOuter : simpl never.

(** A load at the tracked [pc] of probe [i]. *)
Definition sample_probe (i : nat) (pc address : Z) (m : Mode) : Mode * Result :=
  let probe := outerProbes m !!! i in
  let set p := m <| outerProbes ::= <[i := p]> |> in
  if p_pc probe =? 0 then
    let m := set (probe <| p_pc := pc |> <| p_address := address |> <| samples := 1 |>
                        <| recentAddresses ::= <[0%nat := address]> |>) in
    (m, snapshot NoEvent m)
  else
    let delta := s64 (s64 address - s64 (p_address probe)) in
    let probe := probe <| p_address := address |>
                       <| recentAddresses ::= shift_recent address |> in
    if delta =? 0 then
      let m := set (probe <| samples := 1 |> <| p_stride := 0 |>) in (m, snapshot NoEvent m)
    else if samples probe =? 1 then
      let m := set (probe <| p_stride := delta |> <| samples := 2 |>) in (m, snapshot NoEvent m)
    else if negb (delta =? p_stride probe) then
      let m := set (probe <| p_stride := delta |> <| samples := 2 |>) in (m, snapshot NoEvent m)
    else
      let '(m, r) := acceptOuter pc address (p_stride probe)
                       (set (probe <| samples ::= inc32 |>)) in
      (push_recent (recentAddresses probe) m, r).

Definition observeOuterLoad (pc address : Z) (m : Mode) : Mode * Result :=
  if negb (valid (control m)) || (pc =? 0) || (pc =? innerLoadPC m) || (address =? 0)
  then (m, snapshot NoEvent m)
  else if bool_decide (currentState m = OuterFound) then
    let m := extend_plan pc address m in (m, snapshot NoEvent m)
  else if negb (bool_decide (currentState m = SeekingOuter)) then (m, snapshot NoEvent m)
  else
    match probe_index pc (outerProbes m) with
    | None => (m, snapshot NoEvent m)
    | Some i => sample_probe i pc address m
    end.

(** [finishVectorization] *)
Definition finishVectorization (m : Mode) : Mode :=
  if bool_decide (currentState m = Vectorizing) then reset m else m.

(** The commit budget of the current state. *)
Definition budget (m : Mode) : Z :=
  match currentState m with
  | SeekingOuter => outerSearchMaxInstructions m
  | _ => outerCollectionMaxInstructions m
  end.

(** [observeCommit] *)
Definition observeCommit (m : Mode) : Mode * Result :=
  if negb (active m) then (m, Result_init)
  else
    let m := m <| committedInstructions ::= inc32 |> in
    if committedInstructions m <? budget m then (m, snapshot NoEvent m)
    else
      (reset (m <| counters ::= λ k, k <| timeouts ::= inc64 |> <| fallbacks ::= inc64 |> |>),
       snapshot TimedOut m).

(** [fallback] *)
Definition fallback (m : Mode) : Mode * Result :=
  if negb (active m) then (m, Result_init)
  else (reset (m <| counters ::= λ k, k <| fallbacks ::= inc64 |> |>), snapshot Fallback m).

(** ** Runs *)

Inductive Op :=
| Start (inner_load_pc loop_increment inner_lanes : Z)
| Capture (induction_register bound_register induction_value bound_value remaining : Z)
| InnerBranch (branch_pc branch_target fallthrough_pc : Z) (taken : bool)
| OuterLoad (pc address : Z)
| Accept (pc address stride : Z)
| RecordInvocation (inner_start lanes trigger_pc flr_pc stride : Z)
| Commit
| Finish
| GiveUp.

Definition apply_op (m : Mode) (o : Op) : Mode :=
  match o with
  | Start p i l => (start p i l m).1
  | Capture i b iv bv r => captureLoopRegisters i b iv bv r m
  | InnerBranch p t f k => (observeInnerBranch p t f k m).1
  | OuterLoad p a => (observeOuterLoad p a m).1
  | Accept p a s => (acceptOuter p a s m).1
  | RecordInvocation a l t f s => (recordOuterInvocation a l t f s m).1
  | Commit => (observeCommit m).1
  | Finish => finishVectorization m
  | GiveUp => (fallback m).1
  end.

Definition run (m : Mode) (ops : list Op) : Mode := foldl apply_op m ops.
(** ** Invariant *)

(** Consecutive planned bases are one outer stride apart. *)
Definition progression (m : Mode) : Prop :=
  ∀ i, (S i < pendingOuterCount m)%nat →
    s64 (s64 (pendingOuterBases m !!! S i) - s64 (pendingOuterBases m !!! i)) = outerStride m.

(** The plan's counters in each state: entries are collected in [OuterFound] and all consumed
    at once on the way to [Vectorizing]. *)
Definition plan_shape (m : Mode) : Prop :=
  match currentState m with
  | Idle => m = reset m
  | SeekingOuter =>
      pendingOuterCount m = 0%nat ∧ pendingOuterConsumed m = 0%nat ∧ invocationCount m = 0%nat
  | OuterFound =>
      pendingOuterConsumed m = 0%nat ∧ invocationCount m = 0%nat ∧ outerStride m ≠ 0 ∧
      ∀ k, pendingOuterCount m = S k → (S k < MaxOuterInvocations)%nat →
           pendingOuterBases m !!! k = outerAddress m
  | Vectorizing =>
      (0 < pendingOuterCount m)%nat ∧ pendingOuterConsumed m = pendingOuterCount m ∧
      invocationCount m = pendingOuterCount m
  end.

(** The planned invocations are copies of the first one, moved with the outer base. *)
Definition plan_content (m : Mode) : Prop :=
  currentState m = Vectorizing →
  outerBase (invocations m !!! 0%nat) = pendingOuterBases m !!! 0%nat ∧
  ∀ k, (0 < k < invocationCount m)%nat →
    let seed := invocations m !!! 0%nat in
    let base := pendingOuterBases m !!! k in
    invocations m !!! k =
      seed <| outerBase := base |>
           <| innerStart := u64 (s64 (innerStart seed) + s64 (s64 base - s64 (outerBase seed))) |>.

(** A probe in use remembers the addresses its stride was computed from. *)
Definition probe_ok (p : OuterProbe) : Prop :=
  length (recentAddresses p) = 3%nat ∧
  (p_pc p ≠ 0 →
   p_address p ≠ 0 ∧ recentAddresses p !!! 0%nat = p_address p ∧
   (samples p = 1 ∨
    samples p = 2 ∧ recentAddresses p !!! 1%nat ≠ 0 ∧ p_stride p ≠ 0 ∧
    p_stride p = s64 (s64 (p_address p) - s64 (recentAddresses p !!! 1%nat)))).

(** The inverted branch surrounds the inner load, and its masks are the inner lanes. *)
Definition control_ok (m : Mode) : Prop :=
  if valid (control m) then
    innerBranchTarget (control m) <= innerLoadPC m < innerBranchPC (control m) ∧
    branchInverted (control m) = true ∧
    takenMask (control m) = fallthroughMask (control m) ∧
    ∀ lane, (lane < 128)%nat →
      mask_test (takenMask (control m)) lane = (Z.of_nat lane <? innerLanes m)
  else takenMask (control m) = mask_empty ∧ fallthroughMask (control m) = mask_empty.

Definition sizes_ok (m : Mode) : Prop :=
  length (invocations m) = MaxOuterInvocations ∧
  length (pendingOuterBases m) = MaxOuterInvocations ∧
  length (outerProbes m) = MaxProbes ∧
  (pendingOuterCount m <= MaxOuterInvocations)%nat ∧
  0 < outerSearchMaxInstructions m < 2 ^ 32 ∧ 0 < outerCollectionMaxInstructions m < 2 ^ 32.

Definition generation_ok (m : Mode) : Prop :=
  currentState m ≠ Idle →
  innerLoadPC m ≠ 0 ∧ innerLanes m ≠ 0 ∧ innerLanes m < laneThreshold m ∧
  0 <= committedInstructions m < budget m.

Definition probes_ok (m : Mode) : Prop :=
  currentState m = SeekingOuter → Forall probe_ok (outerProbes m).

Definition ok (m : Mode) : Prop :=
  sizes_ok m ∧ plan_shape m ∧ progression m ∧ plan_content m ∧ control_ok m ∧
  generation_ok m ∧ probes_ok m.

(** ** Lemmas *)

Ltac unfold_ok :=
  unfold ok, sizes_ok, plan_shape, progression, plan_content, control_ok, generation_ok,
    probes_ok, budget in *.

Lemma probe_init_ok : probe_ok Probe_init.
Proof. by split. Qed.

(** [reset] gives a valid idle mode, whatever it is applied to. *)
Lemma ok_reset m :
  0 < outerSearchMaxInstructions m < 2 ^ 32 → 0 < outerCollectionMaxInstructions m < 2 ^ 32 →
  ok (reset m).
Proof.
  intros [] []. unfold_ok. cbn. split_and!; try done; try (intros; lia).
Qed.

Lemma ok_budgets m :
  ok m → 0 < outerSearchMaxInstructions m < 2 ^ 32 ∧ 0 < outerCollectionMaxInstructions m < 2 ^ 32.
Proof. intros [H _]. unfold sizes_ok in H. tauto. Qed.

(** The idle mode is its own reset. *)
Lemma ok_idle m : ok m → currentState m = Idle → m = reset m.
Proof. intros (_ & H & _). unfold plan_shape in H. intros E. by rewrite E in H. Qed.

Lemma budget_pos m : ok m → 0 < budget m < 2 ^ 32.
Proof. intros H. apply ok_budgets in H. unfold budget. case_match; lia. Qed.

(** A fresh generation. *)
Lemma ok_seek p i l m :
  ok m → p ≠ 0 → l ≠ 0 → l < laneThreshold m →
  ok (open_generation p i l ((reset m) <| currentState := SeekingOuter |>)).
Proof.
  intros Hok Hp Hl Ht. apply ok_budgets in Hok as [H1 H2].
  pose proof (ok_reset m H1 H2) as Hr. unfold_ok. cbn in *.
  destruct Hr as (? & _ & ? & _ & ? & _). split_and!; try tauto; try done; try lia.
  - intros _. by apply Forall_replicate, probe_init_ok.
Qed.

(** The next generation of a plan that is being vectorized. *)
Lemma ok_reopen p i l m :
  ok m → currentState m = Vectorizing → p ≠ 0 → l ≠ 0 → l < laneThreshold m →
  ok (open_generation p i l (m <| committedInstructions := 0 |>)).
Proof.
  intros Hok E Hp Hl Ht. unfold_ok. cbn. rewrite E in *. destruct_and?. split_and!; try done.
Qed.

Lemma ok_start p i l m : ok m → ok (start p i l m).1.
Proof.
  intros Hok. unfold start. destruct (_ || _) eqn:G; [done|]. reflect.
  pose proof (ok_budgets _ Hok) as [Hs Hc].
  case_bool_decide as E; cbn [andb].
  - destruct (p =? innerLoadPC m) eqn:P; cbn; [by apply ok_reopen|].
    apply (ok_seek p i l (reset m)); [by apply ok_reset|done..].
  - destruct (active m) eqn:A; cbn; [done|]. by apply ok_seek.
Qed.

Lemma ok_capture i b iv bv r m : ok m → ok (captureLoopRegisters i b iv bv r m).
Proof.
  intros Hok. unfold captureLoopRegisters. destruct (active m) eqn:A; cbn [negb]; [|done].
  unfold active in A. reflect. apply bool_decide_eq_false in A.
  unfold_ok. cbn. destruct (currentState m); done.
Qed.

(** The loop that parks the inner lanes. *)
Lemma park_lanes_spec n c :
  (n <= 128)%nat → takenMask c = mask_empty → fallthroughMask c = mask_empty →
  let c' := park_lanes n c in
  c' = c <| takenMask := takenMask c' |> <| fallthroughMask := takenMask c' |> ∧
  ∀ lane, (lane < 128)%nat → mask_test (takenMask c') lane = (lane <? n)%nat.
Proof.
  intros Hn H1 H2. cbn zeta. unfold park_lanes.
  apply (for_range_rule (λ k c',
    c' = c <| takenMask := takenMask c' |> <| fallthroughMask := takenMask c' |> ∧
    ∀ lane, (lane < 128)%nat → mask_test (takenMask c') lane = (lane <? k)%nat)).
  - split; [destruct c; cbn in *; congruence|]. intros lane _.
    rewrite H1, mask_test_empty. symmetry. by apply Nat.ltb_ge; lia.
  - intros k c' Hk [IH1 IH2]. split; [rewrite IH1; done|]. cbn. intros lane Hl.
    rewrite mask_test_set, IH2 by lia.
    case_bool_decide; destruct (Nat.ltb_spec lane k), (Nat.ltb_spec lane (S k)); done || lia.
Qed.

Lemma ok_innerBranch p t f k m : ok m → ok (observeInnerBranch p t f k m).1.
Proof.
  intros Hok. unfold observeInnerBranch. destruct (_ || _) eqn:G; [done|]. reflect.
  destruct (valid (control m)) eqn:V; [done|].
  match goal with H : active m = true |- _ => rename H into A end.
  unfold active in A. reflect. apply bool_decide_eq_false in A.
  pose proof Hok as (_ & _ & _ & _ & Hc & _). unfold control_ok in Hc. rewrite V in Hc.
  destruct Hc as [Hc1 Hc2].
  cbn. match goal with |- context [park_lanes ?n ?c] =>
    pose proof (park_lanes_spec n c ltac:(lia) Hc1 Hc2) as [P1 P2] end.
  unfold_ok. cbn in *. rewrite P1. cbn. destruct (currentState m); try done; destruct_and?; split_and!; try done;
    try lia; intros lane Hl; rewrite P2 by done;
    destruct (Nat.ltb_spec lane (Z.to_nat (Z.min (innerLanes m) 128))),
      (Z.ltb_spec (Z.of_nat lane) (innerLanes m)); done || lia.
Qed.
(** Entry [k] of the plan that [seed] opens. *)
Definition moved (seed : OuterInvocation) (base : Z) : OuterInvocation :=
  seed <| outerBase := base |>
       <| innerStart := u64 (s64 (innerStart seed) + s64 (s64 base - s64 (outerBase seed))) |>.

(** The loop of [recordOuterInvocation] fills the entries from 1 on. *)
Lemma materialise_loop seed n m :
  invocationCount m = 1%nat → (1 + n <= length (invocations m))%nat →
  let m' := for_range 1 n (materialise seed) m in
  m' = m <| invocations := invocations m' |> <| invocationCount := (1 + n)%nat |> ∧
  length (invocations m') = length (invocations m) ∧
  ∀ k, invocations m' !!! k =
         if (1 <=? k)%nat && (k <? 1 + n)%nat then moved seed (pendingOuterBases m !!! k)
         else invocations m !!! k.
Proof.
  intros Hc Hn. cbn zeta.
  apply (for_range_rule (λ i m',
    m' = m <| invocations := invocations m' |> <| invocationCount := i |> ∧
    length (invocations m') = length (invocations m) ∧
    ∀ k, invocations m' !!! k =
         if (1 <=? k)%nat && (k <? i)%nat then moved seed (pendingOuterBases m !!! k)
         else invocations m !!! k)).
  - split_and!; [|done|].
    + destruct m; cbn in *; congruence.
    + intros k. by destruct (Nat.leb_spec 1 k), (Nat.ltb_spec k 1); try lia.
  - intros i m' Hi (IH1 & IH2 & IH3). split_and!.
    + rewrite IH1. done.
    + cbn. by rewrite length_insert.
    + intros k. cbn. rewrite lookup_total_insert_case by lia.
      rewrite IH3, IH1. cbn -[Nat.leb].
      case_bool_decide; destruct (Nat.leb_spec 1 k), (Nat.ltb_spec k i), (Nat.ltb_spec k (S i));
        cbn; subst; done || lia.
Qed.

(** The plan built on a first invocation [seed]. *)
Lemma append_first seed m :
  invocationCount m = 0%nat → pendingOuterConsumed m = 0%nat →
  length (invocations m) = MaxOuterInvocations →
  (0 < pendingOuterCount m <= MaxOuterInvocations)%nat →
  let m1 := append_invocation seed m in
  let m' := if (invocationCount m1 =? 1)%nat && (1 <? pendingOuterCount m1)%nat
            then materialise_rest m1 else m1 in
  m' = m <| invocations := invocations m' |> <| invocationCount := pendingOuterCount m |>
         <| pendingOuterConsumed := pendingOuterCount m |> ∧
  length (invocations m') = MaxOuterInvocations ∧
  ∀ k, (k < pendingOuterCount m)%nat →
    invocations m' !!! k =
      if (k =? 0)%nat then seed else moved seed (pendingOuterBases m !!! k).
Proof.
  intros Hc Hd Hl Hp. cbv zeta.
  assert (invocations (append_invocation seed m) !!! 0%nat = seed) as H0.
  { cbn. rewrite Hc. apply lookup_total_insert_eq. rewrite Hl. unfold MaxOuterInvocations. lia. }
  assert (length (invocations (append_invocation seed m)) = MaxOuterInvocations) as Hl1.
  { cbn. by rewrite length_insert. }
  assert (invocationCount (append_invocation seed m) = 1%nat) as Hc1 by (cbn; by rewrite Hc).
  assert (pendingOuterConsumed (append_invocation seed m) = 1%nat) as Hd1 by (cbn; by rewrite Hd).
  assert (append_invocation seed m = m <| invocations := invocations (append_invocation seed m) |>
    <| invocationCount := 1%nat |> <| pendingOuterConsumed := 1%nat |>) as Hm1.
  { unfold append_invocation. cbn. by rewrite Hc, Hd. }
  set (m1 := append_invocation seed m) in *. clearbody m1.
  assert (pendingOuterCount m1 = pendingOuterCount m) as Hp1 by by rewrite Hm1.
  assert (pendingOuterBases m1 = pendingOuterBases m) as Hb1 by by rewrite Hm1.
  rewrite Hc1, Hp1. cbn [Nat.eqb andb].
  destruct (Nat.ltb_spec 1 (pendingOuterCount m)) as [Hmany|Hone].
  - unfold materialise_rest. rewrite H0, Hc1, Hp1.
    destruct (materialise_loop seed (pendingOuterCount m - 1) m1) as (L1 & L2 & L3); [done|lia|].
    set (m2 := for_range _ _ _ m1) in *. clearbody m2.
    replace (1 + (pendingOuterCount m - 1))%nat with (pendingOuterCount m) in * by lia.
    split_and!; [rewrite L1, Hm1; done|cbn; congruence|]. intros k Hk. cbn. rewrite L3, Hb1.
    destruct (Nat.eqb_spec k 0) as [->|]; [done|].
    destruct (Nat.leb_spec 1 k), (Nat.ltb_spec k (pendingOuterCount m)); done || lia.
  - assert (pendingOuterCount m = 1%nat) as E by lia. rewrite E.
    split_and!; [by rewrite Hm1|done|]. intros k Hk. by assert (k = 0%nat) as -> by lia.
Qed.

(** An accepted record turns the whole pending list into the plan. *)
Lemma record_spec a l t f st m :
  ok m →
  let '(m', recorded) := recordOuterInvocation a l t f st m in
  if recorded then
    currentState m = OuterFound ∧ (0 < pendingOuterCount m)%nat ∧
    m' = m <| currentState := Vectorizing |> <| committedInstructions := 0 |>
           <| invocations := invocations m' |> <| invocationCount := pendingOuterCount m |>
           <| pendingOuterConsumed := pendingOuterCount m |>
           <| counters ::= λ k, k <| outerInvocations ::= inc64 |> |> ∧
    length (invocations m') = MaxOuterInvocations ∧
    ∀ k, (k < pendingOuterCount m)%nat →
      invocations m' !!! k =
        let seed := mkInvocation (pendingOuterBases m !!! 0%nat) a (Z.min l 128) t f st
                      (fallthroughMask (control m)) (c_reconvergencePC (control m)) in
        if (k =? 0)%nat then seed else moved seed (pendingOuterBases m !!! k)
  else m' = m.
Proof.
  intros (Hsz & Hsh & _). unfold sizes_ok, plan_shape in *.
  unfold recordOuterInvocation. destruct (_ || _) eqn:G; [done|]. reflect.
  destruct (currentState m) eqn:E; try done; [|lia].
  destruct Hsh as (Hcons & Hinv & _ & _), Hsz as (Hlen & _ & _ & Hcap & _).
  set (mc := m <| counters ::= _ |>).
  change (invocationCount mc) with (invocationCount m).
  change (pendingOuterConsumed mc) with (pendingOuterConsumed m).
  change (pendingOuterBases mc) with (pendingOuterBases m). change (control mc) with (control m).
  rewrite Hinv, Hcons. change (0 <? MaxOuterInvocations)%nat with true. cbv iota beta zeta.
  set (seed := mkInvocation _ _ _ _ _ _ _ _).
  destruct (append_first seed mc) as (P1 & P2 & P3); [done..|cbn; lia|]. cbv zeta in P1, P2, P3.
  set (m1 := if (_ && _) then materialise_rest _ else _) in *. clearbody m1.
  assert (invocationCount m1 = pendingOuterCount m) as Hc1 by by rewrite P1.
  rewrite Hc1. destruct (Nat.leb_spec 1 (pendingOuterCount m)); [|lia].
  split_and!; [done|lia|rewrite P1; done|done|]. intros k Hk. by apply P3.
Qed.

Lemma ok_record a l t f st m : ok m → ok (recordOuterInvocation a l t f st m).1.
Proof.
  intros Hok. pose proof (record_spec a l t f st m Hok) as H.
  destruct (recordOuterInvocation a l t f st m) as [m' [|]]; cbn; [|by subst].
  destruct H as (E & Hpos & Hm & Hlen & Hk).
  rewrite Hm. unfold_ok. cbn. rewrite E in *. destruct_and?. split_and!; try done; try lia.
  - intros _. rewrite (Hk 0%nat Hpos). cbn. split; [done|]. intros k Hkk.
    rewrite Hk by lia. destruct (Nat.eqb_spec k 0); [lia|done].
  - intros _. match goal with H : OuterFound ≠ Idle → _ |- _ => specialize (H ltac:(done)) end.
    destruct_and?. split_and!; done || lia.
Qed.

Lemma push_base_spec a m :
  length (pendingOuterBases m) = MaxOuterInvocations →
  (pendingOuterCount m <= MaxOuterInvocations)%nat →
  push_base a m = m <| pendingOuterBases := pendingOuterBases (push_base a m) |>
                    <| pendingOuterCount := (S (pendingOuterCount m) `min` MaxOuterInvocations)%nat |> ∧
  length (pendingOuterBases (push_base a m)) = MaxOuterInvocations ∧
  ∀ k, pendingOuterBases (push_base a m) !!! k =
    if (k =? pendingOuterCount m)%nat && (pendingOuterCount m <? MaxOuterInvocations)%nat then a
    else pendingOuterBases m !!! k.
Proof.
  intros Hl Hc. unfold push_base. destruct (Nat.ltb_spec (pendingOuterCount m) MaxOuterInvocations).
  - rewrite Nat.min_l by lia. cbn.
    split_and!; [done|by rewrite length_insert|]. intros k.
    rewrite lookup_total_insert_case, andb_true_r by lia.
    case_bool_decide; destruct (Nat.eqb_spec k (pendingOuterCount m)); done || lia.
  - rewrite Nat.min_r by lia.
    split_and!; [destruct m; cbn in *; f_equal; lia|done|]. intros k. by rewrite andb_false_r.
Qed.

(** An address one stride after the last base continues the progression. *)
Lemma ok_extend pc a m :
  ok m → currentState m = OuterFound → ok (extend_plan pc a m).
Proof.
  intros Hok E. unfold extend_plan. destruct (_ && _) eqn:G; [|done]. reflect.
  pose proof Hok as (Hsz & Hsh & Hpr & _). unfold sizes_ok, plan_shape, progression in *.
  rewrite E in Hsh. destruct Hsz as (_ & Hl & _ & Hc & _), Hsh as (_ & _ & _ & Hlast).
  destruct (push_base_spec a (m <| outerAddress := a |>)) as (P1 & P2 & P3); [done|done|].
  set (m1 := push_base _ _) in *. clearbody m1. cbn in P3.
  assert (∀ k, pendingOuterCount m1 = S k → (S k < MaxOuterInvocations)%nat →
           pendingOuterBases m1 !!! k = a) as Hlast1.
  { intros k Hk Hcap. rewrite P1 in Hk. cbn -[Nat.min] in Hk. rewrite P3.
    destruct (Nat.eqb_spec k (pendingOuterCount m)),
      (Nat.ltb_spec (pendingOuterCount m) MaxOuterInvocations); done || lia. }
  assert (∀ i, (S i < pendingOuterCount m1)%nat →
    s64 (s64 (pendingOuterBases m1 !!! S i) - s64 (pendingOuterBases m1 !!! i)) = outerStride m)
    as Hpr1.
  { intros i Hi. rewrite P1 in Hi. cbn -[Nat.min] in Hi. rewrite !P3.
    destruct (Nat.eqb_spec i (pendingOuterCount m)); [lia|]. cbn [andb].
    destruct (Nat.eqb_spec (S i) (pendingOuterCount m)) as [Hi'|]; cbn [andb]; [|apply Hpr; lia].
    destruct (Nat.ltb_spec (pendingOuterCount m) MaxOuterInvocations); [|apply Hpr; lia].
    rewrite (Hlast i); done || lia. }
  rewrite P1. unfold_ok. cbn -[Nat.min]. rewrite P1 in Hlast1, Hpr1.
  cbn -[Nat.min] in Hlast1, Hpr1.
  rewrite E in *. destruct_and?. split_and!; try done; try lia.
  - intros _. match goal with H : OuterFound ≠ Idle → _ |- _ => specialize (H ltac:(done)) end.
    destruct_and?. split_and!; done || lia.
Qed.

(** An accepted outer load opens the collection window, whatever the probes are. *)
Lemma accept_spec pc a st m :
  currentState m = SeekingOuter → valid (control m) = true → pc ≠ 0 → pc ≠ innerLoadPC m →
  st ≠ 0 →
  (acceptOuter pc a st m).1 =
  m <| currentState := OuterFound |> <| outerLoadPC := pc |> <| outerAddress := a |>
    <| outerStride := st |> <| committedInstructions := 0 |>
    <| counters ::= λ k, k <| outerFound ::= inc64 |> |>.
Proof.
  intros E V H1 H2 H3. unfold acceptOuter. rewrite E, V.
  apply Z.eqb_neq in H1, H2, H3. by rewrite H1, H2, H3.
Qed.

Lemma ok_accepted pc a st l m :
  ok m → currentState m = SeekingOuter → valid (control m) = true → pc ≠ 0 →
  pc ≠ innerLoadPC m → st ≠ 0 → length l = MaxProbes →
  ok (acceptOuter pc a st (m <| outerProbes := l |>)).1.
Proof.
  intros Hok E V H1 H2 H3 Hl. rewrite accept_spec by done.
  unfold_ok. cbn. rewrite E in *. destruct_and?. split_and!; try done; try lia.
  intros _. match goal with H : SeekingOuter ≠ Idle → _ |- _ => specialize (H ltac:(done)) end.
  destruct_and?. split_and!; done || lia.
Qed.

Lemma ok_accept pc a st m : ok m → ok (acceptOuter pc a st m).1.
Proof.
  intros Hok. destruct (acceptOuter pc a st m) eqn:A. pose proof A as A'. cbn.
  unfold acceptOuter in A'. destruct (_ || _) eqn:G; [by injection A' as <- _|]. clear A'. reflect.
  match goal with H : bool_decide _ = true |- _ => apply bool_decide_eq_true in H; rename H into E end.
  replace m0 with (acceptOuter pc a st (m <| outerProbes := outerProbes m |>)).1.
  - apply ok_accepted; try done. apply Hok.
  - replace (m <| outerProbes := outerProbes m |>) with m by (by destruct m). by rewrite A.
Qed.

(** The three confirming addresses open the plan. *)
Lemma push_recent_spec r0 r1 r2 m :
  r0 ≠ 0 → r1 ≠ 0 → r2 ≠ 0 → pendingOuterCount m = 0%nat →
  push_recent [r0; r1; r2] m =
  m <| pendingOuterBases ::= λ l, <[2%nat := r0]> (<[1%nat := r1]> (<[0%nat := r2]> l)) |>
    <| pendingOuterCount := 3%nat |>.
Proof.
  intros H0 H1 H2 Hc. apply Z.eqb_neq in H0, H1, H2.
  unfold push_recent. cbn [foldl]. change ([r0; r1; r2] !!! 2%nat) with r2.
  change ([r0; r1; r2] !!! 1%nat) with r1. change ([r0; r1; r2] !!! 0%nat) with r0.
  rewrite H0, H1, H2. cbn [negb]. unfold push_base. rewrite Hc. cbn. rewrite Hc. reflexivity.
Qed.

Lemma ok_push_recent r0 r1 r2 m :
  ok m → currentState m = OuterFound → pendingOuterCount m = 0%nat →
  r0 ≠ 0 → r1 ≠ 0 → r2 ≠ 0 → r0 = outerAddress m →
  s64 (s64 r1 - s64 r2) = outerStride m → s64 (s64 r0 - s64 r1) = outerStride m →
  ok (push_recent [r0; r1; r2] m).
Proof.
  intros Hok E Hc H0 H1 H2 Ha Hs1 Hs0. rewrite push_recent_spec by done.
  unfold_ok. cbn. rewrite E in *. destruct Hok as ((Hi & Hl & Hp & _ & Hb1 & Hb2) & Hsh & _ & Hpl & Hct & Hg & _).
  assert (length (pendingOuterBases m) = 16%nat) as Hl' by done.
  assert (∀ k, <[2%nat:=r0]> (<[1%nat:=r1]> (<[0%nat:=r2]> (pendingOuterBases m))) !!! k =
    if (k =? 2)%nat then r0 else if (k =? 1)%nat then r1 else if (k =? 0)%nat then r2
    else pendingOuterBases m !!! k) as HL.
  { intros k. rewrite !lookup_total_insert_case by (rewrite ?length_insert; lia).
    destruct (Nat.eqb_spec k 2), (Nat.eqb_spec k 1), (Nat.eqb_spec k 0);
      repeat case_bool_decide; done || lia. }
  split_and!; try done; try tauto.
  - by rewrite !length_insert.
  - unfold MaxOuterInvocations. lia.
  - intros k [= <-] _. rewrite HL. done.
  - intros i Hi3. rewrite !HL. destruct i as [|[|i]]; [done|done|lia].
Qed.

Lemma set_probes_ok m l :
  ok m → currentState m = SeekingOuter → length l = MaxProbes → Forall probe_ok l →
  ok (m <| outerProbes := l |>).
Proof. intros Hok E Hl Hf. unfold_ok. cbn. rewrite E in *. tauto. Qed.

Lemma probe_index_Some pc probes i :
  probe_index pc probes = Some i →
  (i < MaxProbes)%nat ∧ (p_pc (probes !!! i) = pc ∨ p_pc (probes !!! i) = 0).
Proof.
  unfold probe_index. destruct (find_from _ _ (λ i, _ =? pc)) eqn:F.
  - intros [= <-]. apply find_from_Some in F as (? & ? & _). reflect. split; [lia|tauto].
  - intros G. apply find_from_Some in G as (? & ? & _). reflect. split; [lia|tauto].
Qed.

(** A list of length three, by its entries. *)
Lemma list_three (l : list Z) :
  length l = 3%nat → l = [l !!! 0%nat; l !!! 1%nat; l !!! 2%nat].
Proof. destruct l as [|a [|b [|c [|d l]]]]; done. Qed.

Lemma ok_sample i pc a m :
  ok m → currentState m = SeekingOuter → valid (control m) = true →
  (i < MaxProbes)%nat → (p_pc (outerProbes m !!! i) = pc ∨ p_pc (outerProbes m !!! i) = 0) →
  pc ≠ 0 → pc ≠ innerLoadPC m → a ≠ 0 → ok (sample_probe i pc a m).1.
Proof.
  intros Hok E V Hi Hpc Hp0 Hpi Ha. pose proof Hok as (Hsz & Hsh & _ & _ & _ & _ & Hpr).
  specialize (Hpr E). destruct Hsz as (_ & _ & Hlp & _). unfold plan_shape in Hsh. rewrite E in Hsh.
  assert (probe_ok (outerProbes m !!! i)) as [Hlen Hprobe].
  { eapply Forall_lookup_total_1; [exact Hpr|]. rewrite Hlp. done. }
  unfold sample_probe. destruct (outerProbes m !!! i) as [ppc pa pst n rec] eqn:Ep. cbn in *.
  rewrite (list_three rec Hlen). set (r0 := rec !!! 0%nat) in *. set (r1 := rec !!! 1%nat) in *.
  clearbody r0 r1. clear Hlen.
  assert (∀ p, probe_ok p → ok (m <| outerProbes ::= <[i := p]> |>)) as Hset.
  { intros p Hp. apply (set_probes_ok m); [done|done|by rewrite length_insert|].
    by apply Forall_insert. }
  destruct (Z.eqb_spec ppc 0) as [Hz|Hnz]; cbn [fst].
  - apply Hset. split; [done|]. cbn. intros _. split_and!; tauto.
  - destruct Hprobe as (Hpa & Hr0 & Hn); [done|]. cbn.
    destruct (Z.eqb_spec (s64 (s64 a - s64 pa)) 0) as [Hd|Hd]; cbn [fst].
    { apply Hset. split; [done|]. cbn. intros _. split_and!; tauto. }
    assert (∀ n', n' = 2 → ok (m <| outerProbes ::= <[i :=
      mkProbe ppc a (s64 (s64 a - s64 pa)) n' [a; r0; r1]]> |>)) as Hnew.
    { intros n' ->. apply Hset. split; [done|]. cbn. intros _. rewrite Hr0.
      split_and!; try done. right. split_and!; done. }
    destruct (Z.eqb_spec n 1) as [H1|H1]; cbn [fst]; [by apply Hnew|].
    destruct (Z.eqb_spec (s64 (s64 a - s64 pa)) pst) as [Hst|]; cbn [negb fst]; [|by apply Hnew].
    destruct Hn as [?|(Hn & Hr1 & Hps & Hpd)]; [done|].
    set (l := <[i := _]> (outerProbes m)).
    assert (length l = MaxProbes) as Hl by (unfold l; by rewrite length_insert).
    match goal with |- context [acceptOuter pc a pst ?x] =>
      assert (ok (acceptOuter pc a pst x).1) as Hacc by exact (ok_accepted pc a pst l m Hok E V Hp0 Hpi Hps Hl);
      pose proof (accept_spec pc a pst x E V Hp0 Hpi Hps) as Hspec
    end.
    rewrite (surjective_pairing (acceptOuter _ _ _ _)). cbn [fst].
    rewrite Hspec in Hacc |- *. apply ok_push_recent; try done; try tauto; cbn; congruence.
Qed.
Lemma ok_outerLoad pc a m : ok m → ok (observeOuterLoad pc a m).1.
Proof.
  intros Hok. unfold observeOuterLoad. destruct (_ || _) eqn:G; [done|]. reflect.
  case_bool_decide as F; [by apply ok_extend|]. case_bool_decide as E; cbn [negb]; [|done].
  destruct (probe_index pc (outerProbes m)) as [i|] eqn:P; [|done].
  apply probe_index_Some in P as [Hi Hpc]. by apply ok_sample.
Qed.

Lemma ok_commit m : ok m → ok (observeCommit m).1.
Proof.
  intros Hok. unfold observeCommit. destruct (active m) eqn:A; cbn [negb]; [|done].
  unfold active in A. reflect. apply bool_decide_eq_false in A.
  pose proof (ok_budgets _ Hok) as [Hs Hc]. pose proof (budget_pos _ Hok) as Hb.
  destruct (_ <? _) eqn:L; cbn [fst]; [|by apply ok_reset]. reflect.
  pose proof Hok as (_ & _ & _ & _ & _ & Hg & _). specialize (Hg A).
  cbn in L. unfold_ok. cbn in *. rewrite inc32_small in L |- * by lia.
  destruct (currentState m); try done; destruct_and?; split_and!; try done; try lia;
    intros _; split_and!; done || lia.
Qed.

Lemma ok_fallback m : ok m → ok (fallback m).1.
Proof.
  intros Hok. unfold fallback. destruct (active m); cbn [negb]; [|done].
  pose proof (ok_budgets _ Hok) as [Hs Hc]. by apply ok_reset.
Qed.

Lemma ok_step m o : ok m → ok (apply_op m o).
Proof.
  intros Hok. destruct o; cbn [apply_op].
  - by apply ok_start.
  - by apply ok_capture.
  - by apply ok_innerBranch.
  - by apply ok_outerLoad.
  - by apply ok_accept.
  - by apply ok_record.
  - by apply ok_commit.
  - unfold finishVectorization. case_bool_decide; [|done].
    pose proof (ok_budgets _ Hok) as [Hs Hc]. by apply ok_reset.
  - by apply ok_fallback.
Qed.

Lemma ok_run ops m : ok m → ok (run m ops).
Proof. revert m. induction ops as [|o ops IH]; intros m Hok; [done|]. by apply IH, ok_step. Qed.

Lemma ok_create threshold n : 0 < n < 2 ^ 28 → ok (create threshold n).
Proof.
  intros Hn. apply ok_reset; cbn; unfold PaperOuterSearchInstructions, MaxOuterInvocations; norm_pow.
  - lia.
  - rewrite u32_small; unfold is_u32; norm_pow; lia.
Qed.
(** *** A regular outer loop *)

(** The addresses of an outer load with a constant stride. *)
Definition outer_address (base stride : Z) (i : nat) : Z := u64 (base + Z.of_nat i * stride).

Lemma signed_difference x y : s64 (s64 (u64 x) - s64 (u64 y)) = s64 (x - y).
Proof.
  apply s64_congr. rewrite !s64_u64. unfold u64.
  rewrite Zminus_mod. change (s64 x mod 2 ^ 64) with (u64 (s64 x)).
  change (s64 y mod 2 ^ 64) with (u64 (s64 y)). rewrite !u64_s64. unfold u64.
  by rewrite <- Zminus_mod.
Qed.

Lemma outer_stride base stride i j :
  - 2 ^ 63 <= (Z.of_nat j - Z.of_nat i) * stride < 2 ^ 63 →
  s64 (s64 (outer_address base stride j) - s64 (outer_address base stride i)) =
  (Z.of_nat j - Z.of_nat i) * stride.
Proof.
  intros H. unfold outer_address. rewrite signed_difference.
  rewrite s64_small by lia. lia.
Qed.

Lemma observe_seeking pc a m i :
  currentState m = SeekingOuter → valid (control m) = true → pc ≠ 0 → pc ≠ innerLoadPC m →
  a ≠ 0 → probe_index pc (outerProbes m) = Some i →
  observeOuterLoad pc a m = sample_probe i pc a m.
Proof.
  intros E V H1 H2 H3 P. unfold observeOuterLoad. rewrite E, V, P.
  apply Z.eqb_neq in H1, H2, H3. by rewrite H1, H2, H3.
Qed.

Lemma probe_index_fresh pc : pc ≠ 0 → probe_index pc (replicate MaxProbes Probe_init) = Some 0%nat.
Proof.
  intros H. unfold probe_index, MaxProbes. cbn. by destruct pc.
Qed.

Lemma probe_index_head pc p l : p_pc p = pc → probe_index pc (p :: l) = Some 0%nat.
Proof. intros H. unfold probe_index, MaxProbes. cbn. by rewrite H, Z.eqb_refl. Qed.

Lemma first_sample pc a m :
  outerProbes m = replicate MaxProbes Probe_init →
  (sample_probe 0 pc a m).1 =
  m <| outerProbes := mkProbe pc a 0 1 [a; 0; 0] :: replicate 7 Probe_init |>.
Proof. intros Hp. unfold sample_probe. rewrite Hp. cbn. by rewrite Hp. Qed.

Lemma second_sample pc a0 a1 d l m :
  outerProbes m = mkProbe pc a0 0 1 [a0; 0; 0] :: l → pc ≠ 0 → d ≠ 0 →
  s64 (s64 a1 - s64 a0) = d →
  (sample_probe 0 pc a1 m).1 = m <| outerProbes := mkProbe pc a1 d 2 [a1; a0; 0] :: l |>.
Proof.
  intros Hp H1 Hd Hs. apply Z.eqb_neq in H1, Hd.
  unfold sample_probe. rewrite Hp. cbn. rewrite H1, Hs, Hd. cbn. by rewrite Hp.
Qed.

Lemma third_sample pc a1 a0 a2 d l m :
  outerProbes m = mkProbe pc a1 d 2 [a1; a0; 0] :: l → pc ≠ 0 → d ≠ 0 →
  s64 (s64 a2 - s64 a1) = d →
  (sample_probe 0 pc a2 m).1 =
  push_recent [a2; a1; a0] (acceptOuter pc a2 d (m <| outerProbes :=
    mkProbe pc a2 d 3 [a2; a1; a0] :: l |>)).1.
Proof.
  intros Hp H1 Hd Hs. apply Z.eqb_neq in H1, Hd.
  unfold sample_probe. rewrite Hp. cbn. rewrite H1, Hs, Hd, Z.eqb_refl. cbn. rewrite Hp.
  change (inc32 2) with 3. cbn.
  by rewrite (surjective_pairing (acceptOuter _ _ _ _)).
Qed.

(** What is known once [n] addresses of a regular outer load have been planned. *)
Definition planned (pc : Z) (address : nat → Z) (stride : Z) (n : nat) (m0 m : Mode) : Prop :=
  currentState m = OuterFound ∧ outerLoadPC m = pc ∧ outerStride m = stride ∧
  outerAddress m = address (n - 1)%nat ∧ pendingOuterCount m = n ∧
  control m = control m0 ∧ innerLoadPC m = innerLoadPC m0 ∧
  pendingOuterConsumed m = pendingOuterConsumed m0 ∧
  length (pendingOuterBases m) = MaxOuterInvocations ∧
  ∀ k, (k < n)%nat → pendingOuterBases m !!! k = address k.

(** Three samples of a fresh mode accept the stride and open the plan. *)
Lemma three_loads pc address d m :
  currentState m = SeekingOuter → valid (control m) = true → pc ≠ 0 → pc ≠ innerLoadPC m →
  outerProbes m = replicate MaxProbes Probe_init → pendingOuterCount m = 0%nat →
  length (pendingOuterBases m) = MaxOuterInvocations →
  address 0%nat ≠ 0 → address 1%nat ≠ 0 → address 2%nat ≠ 0 → d ≠ 0 →
  s64 (s64 (address 1%nat) - s64 (address 0%nat)) = d →
  s64 (s64 (address 2%nat) - s64 (address 1%nat)) = d →
  planned pc address d 3 m (run m ((λ i, OuterLoad pc (address i)) <$> seq 0 3)).
Proof.
  intros E V H1 H2 Hp Hc Hl Ha0 Ha1 Ha2 Hd Hs1 Hs2.
  set (m1 := m <| outerProbes :=
    mkProbe pc (address 0%nat) 0 1 [address 0%nat; 0; 0] :: replicate 7 Probe_init |>).
  set (m2 := m1 <| outerProbes :=
    mkProbe pc (address 1%nat) d 2 [address 1%nat; address 0%nat; 0] :: replicate 7 Probe_init |>).
  assert (apply_op m (OuterLoad pc (address 0%nat)) = m1) as S1.
  { cbn [apply_op]. rewrite (observe_seeking pc _ m 0), first_sample;
      rewrite ?Hp; auto using probe_index_fresh. }
  assert (apply_op m1 (OuterLoad pc (address 1%nat)) = m2) as S2.
  { cbn [apply_op]. rewrite (observe_seeking pc _ m1 0) by (cbn; auto using probe_index_head).
    by apply second_sample. }
  set (m3 := m2 <| outerProbes :=
    mkProbe pc (address 2%nat) d 3 [address 2%nat; address 1%nat; address 0%nat]
      :: replicate 7 Probe_init |>).
  assert (apply_op m2 (OuterLoad pc (address 2%nat)) =
    push_recent [address 2%nat; address 1%nat; address 0%nat] (acceptOuter pc (address 2%nat) d m3).1)
    as S3.
  { cbn [apply_op]. rewrite (observe_seeking pc _ m2 0) by (cbn; auto using probe_index_head).
    by apply third_sample. }
  cbn [fmap list_fmap seq]. unfold run; cbn [foldl]. rewrite S1, S2, S3.
  rewrite accept_spec by done. clear S1 S2 S3. rewrite push_recent_spec by done.
  assert (length (pendingOuterBases m) = 16%nat) as Hl' by done.
  unfold planned; cbn. split_and!; try done; [by rewrite !length_insert|].
  intros k Hk. rewrite !lookup_total_insert_case by (rewrite ?length_insert; lia).
  repeat case_bool_decide; subst; done || lia.
Qed.

(** Every further address extends the plan. *)
Lemma next_load pc address d n m0 m :
  planned pc address d n m0 m → (0 < n < MaxOuterInvocations)%nat →
  valid (control m0) = true → pc ≠ 0 → pc ≠ innerLoadPC m0 → address n ≠ 0 →
  s64 (s64 (address n) - s64 (address (n - 1)%nat)) = d →
  planned pc address d (S n) m0 (apply_op m (OuterLoad pc (address n))).
Proof.
  intros (E & Hpc & Hst & Ha & Hc & Hct & Hin & Hcons & Hl & Hb) Hn V H1 H2 H3 Hd.
  cbn [apply_op]. unfold observeOuterLoad. rewrite E, Hct, V, Hin.
  apply Z.eqb_neq in H1, H2, H3. rewrite H1, H2, H3. cbn [negb orb].
  rewrite bool_decide_eq_true_2 by done. cbn [fst]. unfold extend_plan.
  rewrite Hpc, Z.eqb_refl, Ha, Hd, Hst, Z.eqb_refl. cbn [andb].
  destruct (push_base_spec (address n) (m <| outerAddress := address n |>)) as (P1 & P2 & P3);
    [done|cbn; lia|].
  set (m1 := push_base _ _) in *. clearbody m1. rewrite P1. unfold planned. cbn -[Nat.min].
  cbn in P3. rewrite Hc, Nat.min_l by lia.
  replace (n - 0)%nat with n by lia. split_and!; try done.
  intros k Hk. rewrite P3, Hc. destruct (Nat.eqb_spec k n), (Nat.ltb_spec n MaxOuterInvocations);
    cbn; subst; try done; try lia; apply Hb; lia.
Qed.

(** [n] addresses of a regular outer load. *)
Lemma regular_loads pc base stride n m :
  currentState m = SeekingOuter → valid (control m) = true → pc ≠ 0 → pc ≠ innerLoadPC m →
  outerProbes m = replicate MaxProbes Probe_init → pendingOuterCount m = 0%nat →
  length (pendingOuterBases m) = MaxOuterInvocations →
  (3 <= n <= MaxOuterInvocations)%nat → stride ≠ 0 → - 2 ^ 63 <= stride < 2 ^ 63 →
  (∀ i, (i < n)%nat → outer_address base stride i ≠ 0) →
  planned pc (outer_address base stride) stride n m
    (run m ((λ i, OuterLoad pc (outer_address base stride i)) <$> seq 0 n)).
Proof.
  intros E V H1 H2 Hp Hc Hl Hn Hs Hr Ha.
  assert (∀ i, s64 (s64 (outer_address base stride (S i)) - s64 (outer_address base stride i)) = stride)
    as Hd by (intros i; rewrite outer_stride; lia).
  assert (∀ j, (3 + j <= n)%nat → planned pc (outer_address base stride) stride (3 + j) m
    (run m ((λ i, OuterLoad pc (outer_address base stride i)) <$> seq 0 (3 + j)))) as H.
  { induction j as [|j IH]; intros Hj.
    - apply three_loads; try done; try (apply Ha; lia); apply Hd.
    - specialize (IH ltac:(lia)). rewrite Nat.add_succ_r, seq_S, fmap_app.
      unfold run in *. rewrite foldl_app. apply next_load; try done; [lia|apply Ha; lia|].
      replace (3 + j)%nat with (S (2 + j)) by lia. cbn [Nat.sub]. apply Hd. }
  specialize (H (n - 3)%nat ltac:(lia)). by replace (3 + (n - 3))%nat with n in H by lia.
Qed.
(** Commits alone exhaust the budget. *)
Lemma commits_exhaust k : ∀ m,
  ok m → (currentState m ≠ Idle → budget m - committedInstructions m <= Z.of_nat k) →
  currentState (run m (replicate k Commit)) = Idle.
Proof.
  induction k as [|k IH]; intros m Hok Hb.
  - cbn. destruct (decide (currentState m = Idle)) as [|A]; [done|]. exfalso.
    pose proof Hok as (_ & _ & _ & _ & _ & Hg & _). specialize (Hg A). specialize (Hb A). lia.
  - cbn. apply IH; [by apply (ok_step m Commit)|].
    cbn [apply_op]. unfold observeCommit. destruct (active m) eqn:A; cbn [negb fst].
    + unfold active in A. reflect. apply bool_decide_eq_false in A. specialize (Hb A).
      pose proof Hok as (_ & _ & _ & _ & _ & Hg & _). specialize (Hg A).
      pose proof (budget_pos _ Hok) as Hp.
      destruct (_ <? _); [|by intros []]. intros _. cbn [fst].
      change (budget (_ <| _ ::= _ |>)) with (budget m). cbn [committedInstructions].
      cbn. rewrite inc32_small by lia. lia.
    + unfold active in A. reflect. apply bool_decide_eq_true in A. done.
Qed.

(** A short inner loop whose backward branch has been inverted. *)
Lemma opened_spec threshold n p i l bpc tgt ft taken :
  p ≠ 0 → 0 < l < threshold → tgt <= p < bpc →
  let m := run (create threshold n) [Start p i l; InnerBranch bpc tgt ft taken] in
  currentState m = SeekingOuter ∧ valid (control m) = true ∧ innerLoadPC m = p ∧
  outerProbes m = replicate MaxProbes Probe_init ∧ pendingOuterCount m = 0%nat ∧
  innerLanes m = l ∧ c_reconvergencePC (control m) = ft ∧
  length (pendingOuterBases m) = MaxOuterInvocations ∧ takenMask (control m) = fallthroughMask (control m).
Proof.
  intros Hp Hl Hb. cbn zeta. unfold run. cbn [foldl apply_op].
  assert ((start p i l (create threshold n)).1 =
    open_generation p i l ((reset (create threshold n)) <| currentState := SeekingOuter |>)) as ->.
  { unfold start. cbn. destruct (Z.eqb_spec p 0), (Z.eqb_spec l 0), (Z.leb_spec threshold l);
      done || lia. }
  unfold observeInnerBranch. cbn.
  destruct (Z.leb_spec bpc p), (Z.ltb_spec p tgt), (Z.leb_spec bpc tgt); try lia. cbn [orb fst].
  match goal with |- context [park_lanes ?k ?c] =>
    destruct (park_lanes_spec k c ltac:(lia) ltac:(done) ltac:(done)) as [P _] end.
  rewrite P. done.
Qed.

(** A bounded child is accepted when the plan has a pending base. *)
Lemma record_accepts a l t f st m :
  currentState m = OuterFound → valid (control m) = true →
  (pendingOuterConsumed m < pendingOuterCount m)%nat → a ≠ 0 → l ≠ 0 → t ≠ 0 → f ≠ 0 →
  (recordOuterInvocation a l t f st m).2 = true.
Proof.
  intros E V Hc Ha Hl Ht Hf. unfold recordOuterInvocation. rewrite E, V.
  apply Z.eqb_neq in Ha, Hl, Ht, Hf. rewrite Ha, Hl, Ht, Hf.
  destruct (Nat.leb_spec (pendingOuterCount m) (pendingOuterConsumed m)); [lia|done].
Qed.

(** ** Theorems *)

(** C35: The NDM invariant.  With an instruction limit between 1 and 2^28 - 1 and whatever the sequence of calls:
    the planned outer bases are one stride apart and at most sixteen; in the vectorizing state there are as
    many invocations as planned bases, the later ones being the first moved with the outer
    base, since one recorded child fills the plan, as the comments in recordOuterInvocation say (the
    smoke test, which expects one invocation for three planned bases, describes an earlier version, see
    the findings); the inverted branch surrounds the inner load and its lane masks are exactly
    the inner lanes; the lane count is below the threshold and the commits seen are within the
    budget of the state; an idle mode is fully reset. *)
Theorem ndm_invariant threshold n ops (Hn : 0 < n < 2 ^ 28) :
  let m := run (create threshold n) ops in
  ok m ∧ (plannedInvocationCount m <= MaxOuterInvocations)%nat ∧
  (readyToVectorize m = true → invocationCount m = plannedInvocationCount m).
Proof.
  cbn zeta. pose proof (ok_run ops _ (ok_create threshold n Hn)) as Hok.
  set (m := run _ _) in *. clearbody m. split; [done|].
  destruct Hok as (Hsz & Hsh & _). unfold sizes_ok, plan_shape in *.
  unfold plannedInvocationCount, readyToVectorize.
  split.
  - destruct (Nat.ltb_spec (pendingOuterCount m) (invocationCount m)); [|lia].
    destruct (currentState m); try lia. rewrite Hsh. cbn. unfold MaxOuterInvocations. lia.
  - intros R%bool_decide_eq_true. rewrite R in Hsh.
    destruct (Nat.ltb_spec (pendingOuterCount m) (invocationCount m)); lia.
Qed.

(** A plan is recorded once.  A successful [recordOuterInvocation] happens only in
    [OuterFound]; it materialises every pending base at once, so that the plan has as many
    invocations as pending bases, and no further invocation is accepted for it. *)
Theorem ndm_recorded_once threshold n ops a l t f st a' l' t' f' st'
  (Hn : 0 < n < 2 ^ 28)
  (Hr : (recordOuterInvocation a l t f st (run (create threshold n) ops)).2 = true) :
  let m := run (create threshold n) ops in
  let m' := (recordOuterInvocation a l t f st m).1 in
  currentState m = OuterFound ∧ currentState m' = Vectorizing ∧
  invocationCount m' = pendingOuterCount m ∧
  outerInvocations (counters m') = inc64 (outerInvocations (counters m)) ∧
  recordOuterInvocation a' l' t' f' st' m' = (m', false).
Proof.
  cbn zeta. pose proof (ok_run ops _ (ok_create threshold n Hn)) as Hok.
  set (m := run _ _) in *. clearbody m.
  pose proof (record_spec a l t f st m Hok) as H.
  destruct (recordOuterInvocation a l t f st m) as [m' r]. cbn in Hr |- *. subst r.
  destruct H as (E & Hp & Hm & _). rewrite Hm. split_and!; [done..|].
  unfold recordOuterInvocation. cbn. by rewrite Nat.leb_refl.
Qed.

(** C34: A regular outer loop is planned exactly, from one child.  With an instruction limit between
    1 and 2^28 - 1, start the mode on an inner loop of fewer lanes than the threshold, invert its
    backward branch, let an outer load of another PC execute three to sixteen times with a constant
    non-zero stride (below 2^59, no address 0), and then record one
    bounded child (start, lanes, trigger and final load not 0).  The code makes the
    whole plan from that one child and is ready to vectorize: one invocation per outer address, each
    starting at the child's address moved by the same number of strides, with the child's lane bound (at
    most 128), trigger, final load and stride and the inner lanes as predicate.  This is what the comments
    in recordOuterInvocation say; the smoke test (one invocation per record) and stage 16 of the README
    (two invocations before vectorizing) describe an earlier version, see the findings. *)
Theorem ndm_regular_plan threshold n p i l bpc tgt ft taken pc base stride c a la t f st
  (Hn : 0 < n < 2 ^ 28) (Hp : p ≠ 0) (Hl : 0 < l < threshold)
  (Hbr : tgt <= p < bpc) (Hpc : pc ≠ 0) (Hpp : pc ≠ p)
  (Hc : (3 <= c <= MaxOuterInvocations)%nat)
  (Hs : stride ≠ 0) (Hsr : - 2 ^ 59 <= stride < 2 ^ 59)
  (Ha : ∀ k, (k < c)%nat → outer_address base stride k ≠ 0)
  (Hrec : a ≠ 0 ∧ la ≠ 0 ∧ t ≠ 0 ∧ f ≠ 0) :
  let m := run (create threshold n)
    ([Start p i l; InnerBranch bpc tgt ft taken]
     ++ ((λ k, OuterLoad pc (outer_address base stride k)) <$> seq 0 c)
     ++ [RecordInvocation a la t f st]) in
  readyToVectorize m = true ∧ invocationCount m = c ∧ outerStride m = stride ∧
  ∀ k, (k < c)%nat →
    let inv := invocations m !!! k in
    outerBase inv = outer_address base stride k ∧
    (0 < k → innerStart inv = u64 (a + Z.of_nat k * stride))%nat ∧
    (k = 0%nat → innerStart inv = a) ∧
    i_innerLanes inv = Z.min la 128 ∧ innerTriggerPC inv = t ∧ innerFLRPC inv = f ∧
    innerStride inv = st ∧ i_reconvergencePC inv = ft ∧
    ∀ lane, (lane < 128)%nat → mask_test (predicate inv) lane = (Z.of_nat lane <? l).
Proof.
  cbn zeta. rewrite app_assoc. unfold run. rewrite !foldl_app.
  pose proof (opened_spec threshold n p i l bpc tgt ft taken Hp Hl Hbr)
    as (E & V & Hi & Hpr & Hpc0 & Hln & Hft & Hlb & Hmask).
  pose proof (ok_run [Start p i l; InnerBranch bpc tgt ft taken] _ (ok_create threshold n Hn)) as Hok0.
  unfold run in E, V, Hi, Hpr, Hpc0, Hln, Hft, Hlb, Hmask, Hok0.
  set (m0 := foldl apply_op (create threshold n) _) in *. clearbody m0.
  pose proof (regular_loads pc base stride c m0 E V Hpc ltac:(by rewrite Hi) Hpr Hpc0 Hlb Hc Hs
    ltac:(lia) Ha) as Hpl.
  pose proof (ok_run ((λ k, OuterLoad pc (outer_address base stride k)) <$> seq 0 c) _ Hok0) as Hok.
  unfold run in Hpl, Hok. set (m1 := foldl apply_op m0 _) in *. clearbody m1.
  destruct Hpl as (E1 & _ & Hst & _ & Hcnt & Hct & _ & _ & _ & Hb).
  cbn [foldl apply_op].
  pose proof (record_spec a la t f st m1 Hok) as Hr.
  assert ((recordOuterInvocation a la t f st m1).2 = true) as Hrt.
  { pose proof Hok as (_ & Hsh & _). unfold plan_shape in Hsh. rewrite E1 in Hsh.
    apply record_accepts; try tauto; [by rewrite Hct|lia]. }
  destruct (recordOuterInvocation a la t f st m1) as [m2 r]. cbn in Hrt |- *. subst r.
  destruct Hr as (_ & _ & Hm & _ & Hk).
  assert (∀ lane, (lane < 128)%nat →
    mask_test (fallthroughMask (control m1)) lane = (Z.of_nat lane <? l)) as Hlanes.
  { destruct Hok0 as (_ & _ & _ & _ & Hctl & _). unfold control_ok in Hctl. rewrite V in Hctl.
    destruct Hctl as (_ & _ & _ & Hctl). rewrite Hct, <- Hmask. by rewrite Hln in Hctl. }
  split_and!; [by rewrite Hm|by rewrite Hm|by rewrite Hm|]. intros k Hkc.
  rewrite Hk by lia. rewrite !Hb by lia.
  destruct (Nat.eqb_spec k 0) as [->|Hk0]; cbn -[outer_address].
  - split_and!; try done; [intros; lia|congruence].
  - split_and!; try done; [|congruence]. intros _.
    assert (0 <= Z.of_nat k - 0 <= 16) by (unfold MaxOuterInvocations in Hc; lia).
    rewrite outer_stride by (norm_pow; nia). rewrite <- u64_add_l, u64_s64, u64_add_l. f_equal. lia.
Qed.

(** Nested discovery terminates.  Once [outerCollectionMaxInstructions] (or, while still
    seeking an outer stride, [outerSearchMaxInstructions]) commits pass without progress the
    mode is idle. *)
Theorem ndm_terminates threshold n ops k
  (Hn : 0 < n < 2 ^ 28) (Hk : budget (run (create threshold n) ops) <= Z.of_nat k) :
  currentState (run (run (create threshold n) ops) (replicate k Commit)) = Idle.
Proof.
  pose proof (ok_run ops _ (ok_create threshold n Hn)) as Hok.
  apply commits_exhaust; [done|]. intros A.
  destruct Hok as (_ & _ & _ & _ & _ & Hg & _). specialize (Hg A). lia.
Qed.
(** ** Witnesses *)

Definition busy : list Op :=
  [Start 100 8 5; InnerBranch 120 90 124 true; OuterLoad 130 1000; OuterLoad 130 1040;
   OuterLoad 130 1080; OuterLoad 130 1120].

Lemma ndm_invariant_witness :
  let m := run (create 64 300) busy in
  (currentState m = OuterFound ∧ pendingOuterCount m = 4%nat ∧ outerStride m = 40) ∧ ok m.
Proof.
  split; [by vm_compute|].
  assert (0 < 300 < 2 ^ 28) as Hn by (by vm_compute).
  apply (ndm_invariant 64 300 busy Hn).
Defined.

Lemma ndm_recorded_once_witness :
  let m := (recordOuterInvocation 5000 5 100 110 8 (run (create 64 300) busy)).1 in
  invocationCount m = 4%nat ∧ recordOuterInvocation 6000 5 100 110 8 m = (m, false).
Proof.
  assert (0 < 300 < 2 ^ 28) as Hn by (by vm_compute).
  assert ((recordOuterInvocation 5000 5 100 110 8 (run (create 64 300) busy)).2 = true) as Hr
    by (by vm_compute).
  pose proof (ndm_recorded_once 64 300 busy 5000 5 100 110 8 6000 5 100 110 8 Hn Hr)
    as (_ & _ & _ & _ & H).
  split; [by vm_compute|exact H].
Defined.

Lemma ndm_regular_plan_witness :
  let m := run (create 64 300)
    ([Start 100 8 5; InnerBranch 120 90 124 true]
     ++ ((λ k, OuterLoad 130 (outer_address 1000 40 k)) <$> seq 0 4)
     ++ [RecordInvocation 5000 5 100 110 8]) in
  readyToVectorize m = true ∧ invocationCount m = 4%nat.
Proof.
  assert (∀ k, (k < 4)%nat → outer_address 1000 40 k ≠ 0) as Ha.
  { intros [|[|[|[|k]]]] Hk; [by vm_compute..|lia]. }
  pose proof (ndm_regular_plan 64 300 100 8 5 120 90 124 true 130 1000 40 4 5000 5 100 110 8
    ltac:(by vm_compute) ltac:(lia) ltac:(lia) ltac:(lia) ltac:(lia) ltac:(lia)
    ltac:(unfold MaxOuterInvocations; lia) ltac:(lia) ltac:(norm_pow; lia) Ha ltac:(lia))
    as (H1 & H2 & _).
  split; [exact H1|exact H2].
Defined.

Lemma ndm_terminates_witness :
  currentState (run (create 64 300) (take 2 busy)) = SeekingOuter ∧
  currentState (run (run (create 64 300) (take 2 busy)) (replicate 200 Commit)) = Idle.
Proof.
  split; [by vm_compute|].
  apply (ndm_terminates 64 300 (take 2 busy) 200); by vm_compute.
Defined.
End Ndm.
