(* ===== verification/Predicate.v ===== *)
(** * The lane predicate tracker

    Model of [DVRLanePredicateTracker] (src/cpu/o3/dvr_predicate.hh, dvr_predicate.cc): the
    values returned to the lanes by a source load select, per lane, the one path whose masked
    pattern matches. *)

From S2P Require Import Prelude.

Module Predicate.

Definition MaxLanes : nat := 128.
Definition MaxPaths : nat := 4.
#[global] Arguments MaxLanes : simpl never.
#[global] Arguments MaxPaths : simpl never.

(** [enum class Observation] *)
Inductive Observation := Selected | NoMatch | Ambiguous | Duplicate | InvalidLane.

#[export] Instance Observation_eq_dec : EqDecision Observation.
Proof. solve_decision. Defined.

(** The data members. *)
Record Tracker := mkTracker {
  lanes : nat;  paths : nat;  masks : list Z;  patterns : list Z;
  selected : list LaneMask;  unmatched : LaneMask;  observed : LaneMask
}.

#[export] Instance eta_Tracker : Eta Tracker := λ r,
  mkTracker (lanes r) (paths r) (masks r) (patterns r) (selected r) (unmatched r) (observed r).

#[export] Instance LaneMask_inhabited : Inhabited LaneMask := populate mask_empty.

(** [reset] *)
Definition reset (t : Tracker) : Tracker :=
  mkTracker 0 0 (replicate MaxPaths 0) (replicate MaxPaths 0) (replicate MaxPaths mask_empty)
    mask_empty mask_empty.

(** [begin]: every pattern is restricted to its mask. *)
Definition begin (requested_lanes requested_paths : nat) (path_masks path_patterns : list Z)
    (t : Tracker) : Tracker :=
  let t := (reset t) <| lanes := Nat.min requested_lanes MaxLanes |>
             <| paths := Nat.min requested_paths MaxPaths |>
             <| masks := path_masks |> <| patterns := path_patterns |> in
  t <| patterns ::= for_range 0 (paths t)
         (λ path ps, <[path := Z.land (ps !!! path) (masks t !!! path)]> ps) |>.

(** One path of the loop over the paths: an empty discriminator identifies none of several. *)
Definition path_matches (t : Tracker) (value : Z) (path : nat) : bool :=
  negb ((1 <? paths t)%nat && (masks t !!! path =? 0))
  && (Z.land value (masks t !!! path) =? patterns t !!! path).

(** The loop over the paths: the last match and the number of matches. *)
Definition count_matches (t : Tracker) (value : Z) : nat * nat :=
  for_range 0 (paths t)
    (λ path acc, if path_matches t value path then (path, S acc.2) else acc) (MaxPaths, 0%nat).

(** [observe] *)
Definition observe (lane : nat) (value : Z) (t : Tracker) : Tracker * Observation :=
  if (lanes t <=? lane)%nat then (t, InvalidLane)
  else if mask_test (observed t) lane then (t, Duplicate)
  else
    let t := t <| observed ::= λ w, mask_set w lane |> in
    let '(path, matches) := count_matches t value in
    if negb (matches =? 1)%nat then
      (t <| unmatched ::= λ w, mask_set w lane |>,
       if (matches =? 0)%nat then NoMatch else Ambiguous)
    else (t <| selected ::= alter (λ w, mask_set w lane) path |>, Selected).

(** [pathMask] *)
Definition pathMask (path : nat) (t : Tracker) : LaneMask := selected t !!! path.

(** [selectedPaths], [divergent] *)
Definition mask_any (w : LaneMask) : bool := negb (w.1 =? 0) || negb (w.2 =? 0).

Definition selectedPaths (t : Tracker) : nat :=
  for_range 0 (paths t)
    (λ path count, if mask_any (pathMask path t) then S count else count) 0%nat.

Definition divergent (t : Tracker) : bool := (1 <? selectedPaths t)%nat.

(** ** Specification *)

(** Several observations in order. *)
Definition observe_all (t : Tracker) (xs : list (nat * Z)) : Tracker :=
  foldl (λ t x, (observe x.1 x.2 t).1) t xs.

(** The first value returned to a lane. *)
Fixpoint first_value (lane : nat) (xs : list (nat * Z)) : option Z :=
  match xs with
  | [] => None
  | (l, v) :: xs => if (l =? lane)%nat then Some v else first_value lane xs
  end.

(** [path] is the only one of the tracker's paths that [value] matches. *)
Definition selects (t : Tracker) (value : Z) (path : nat) : Prop :=
  (path < paths t)%nat ∧ path_matches t value path = true ∧
  ∀ q, (q < paths t)%nat → path_matches t value q = true → q = path.

(** ** Lemmas *)

Lemma count_matches_spec t v :
  (paths t <= MaxPaths)%nat →
  let '(path, n) := count_matches t v in
  match n with
  | 0%nat => ∀ q, (q < paths t)%nat → path_matches t v q = false
  | 1%nat => selects t v path
  | _ => ∃ p q, (p < q < paths t)%nat ∧ path_matches t v p = true ∧ path_matches t v q = true
  end.
Proof.
  intros _. unfold count_matches, selects.
  apply (for_range_rule (λ k '(path, n),
    match n with
    | 0%nat => ∀ q, (q < k)%nat → path_matches t v q = false
    | 1%nat => (path < k)%nat ∧ path_matches t v path = true ∧
               ∀ q, (q < k)%nat → path_matches t v q = true → q = path
    | _ => ∃ p q, (p < q < k)%nat ∧ path_matches t v p = true ∧ path_matches t v q = true
    end)).
  - intros q Hq. lia.
  - intros k [path n] Hk IH. destruct (path_matches t v k) eqn:M; cbn [snd].
    + destruct n as [|[|n]].
      * split_and!; [lia|done|]. intros q Hq Hm. destruct (decide (q = k)) as [|]; [done|].
        rewrite IH in Hm by lia. done.
      * destruct IH as (H1 & H2 & _). exists path, k. split_and!; done || lia.
      * destruct IH as (p & q & Hpq & H1 & H2). exists p, q. split_and!; done || lia.
    + destruct n as [|[|n]].
      * intros q Hq. destruct (decide (q = k)) as [->|]; [done|]. apply IH. lia.
      * destruct IH as (H1 & H2 & H3). split_and!; [lia|done|]. intros q Hq Hm.
        destruct (decide (q = k)) as [->|]; [congruence|]. apply H3; done || lia.
      * destruct IH as (p & q & Hpq & H1 & H2). exists p, q. split_and!; done || lia.
Qed.

(** The parts of the tracker an observation does not change. *)
Definition same_paths (t t' : Tracker) : Prop :=
  lanes t' = lanes t ∧ paths t' = paths t ∧ masks t' = masks t ∧ patterns t' = patterns t.

Lemma same_paths_matches t t' v p : same_paths t t' → path_matches t' v p = path_matches t v p.
Proof. intros (_ & H1 & H2 & H3). unfold path_matches. by rewrite H1, H2, H3. Qed.

Lemma same_paths_selects t t' v p : same_paths t t' → selects t' v p ↔ selects t v p.
Proof.
  intros H. unfold selects. setoid_rewrite (same_paths_matches t t' v _ H).
  by destruct H as (_ & -> & _).
Qed.

Definition shape (t : Tracker) : Prop :=
  (lanes t <= MaxLanes)%nat ∧ (paths t <= MaxPaths)%nat ∧ length (selected t) = MaxPaths.

(** What the masks say about lane [l] when [v] is the first value it received. *)
Definition lane_state (t : Tracker) (l : nat) (v : option Z) : Prop :=
  match v with
  | None =>
      mask_test (observed t) l = false ∧ mask_test (unmatched t) l = false ∧
      ∀ p, (p < MaxPaths)%nat → mask_test (pathMask p t) l = false
  | Some v =>
      mask_test (observed t) l = true ∧
      (∀ p, (p < MaxPaths)%nat → mask_test (pathMask p t) l = true ↔ selects t v p) ∧
      (mask_test (unmatched t) l = true ↔ ∀ p, ¬ selects t v p)
  end.

Lemma mask_set_other w a b :
  (a < 128)%nat → (b < 128)%nat → a ≠ b → mask_test (mask_set w a) b = mask_test w b.
Proof. intros. rewrite mask_test_set by done. by rewrite bool_decide_eq_false_2. Qed.

Lemma mask_set_self w a : (a < 128)%nat → mask_test (mask_set w a) a = true.
Proof. intros. rewrite mask_test_set by done. by rewrite bool_decide_eq_true_2. Qed.

(** [lane_state] depends on the paths and the lane's bits only. *)
Lemma lane_state_frame t t' l o :
  same_paths t t' → mask_test (observed t') l = mask_test (observed t) l →
  mask_test (unmatched t') l = mask_test (unmatched t) l →
  (∀ p, mask_test (pathMask p t') l = mask_test (pathMask p t) l) →
  lane_state t l o → lane_state t' l o.
Proof.
  intros Hp H1 H2 H3. unfold lane_state. rewrite H1, H2. destruct o as [v|].
  - intros (G1 & G2 & G3). split_and!; [done| |].
    + intros p Hm. by rewrite H3, (same_paths_selects t t' v p Hp), G2.
    + rewrite G3. split; intros Hno p; [rewrite (same_paths_selects t t' v p Hp)|
        rewrite <- (same_paths_selects t t' v p Hp)]; apply Hno.
  - intros (G1 & G2 & G3). split_and!; [done..|]. intros p Hm. by rewrite H3, G3.
Qed.

(** An observation of one lane leaves the others alone. *)
Lemma observe_other lane v t l o :
  shape t → (l < MaxLanes)%nat → lane ≠ l → lane_state t l o →
  shape (observe lane v t).1 ∧ same_paths t (observe lane v t).1 ∧
  lane_state (observe lane v t).1 l o.
Proof.
  intros Hsh Hl Hne Hst. assert (same_paths t t) as Hrefl by done.
  unfold observe. destruct (Nat.leb_spec (lanes t) lane); [done|].
  destruct (mask_test (observed t) lane); [done|].
  destruct (count_matches _ v) as [path n] eqn:C. unfold MaxLanes in *.
  assert (lane < 128)%nat as Hlane by (unfold shape, MaxLanes in Hsh; lia).
  destruct (negb (n =? 1)%nat) eqn:N; cbn [fst]; split_and!; try done;
    try (unfold shape in *; cbn; rewrite ?length_alter; tauto).
  - eapply lane_state_frame; [..|exact Hst]; cbn; rewrite ?mask_set_other by done; done.
  - assert (∀ p, mask_test (pathMask p (t <| observed ::= λ w, mask_set w lane |>
        <| selected ::= alter (λ w, mask_set w lane) path |>)) l = mask_test (pathMask p t) l) as Hp.
    { intros p. unfold pathMask. cbn. destruct (decide (p = path)) as [->|].
      - rewrite !list_lookup_total_alt, list_lookup_alter_eq.
        destruct (selected t !! path); cbn; [by apply mask_set_other|done].
      - by rewrite list_lookup_total_alter_ne. }
    eapply lane_state_frame; [..|exact Hst]; cbn; rewrite ?mask_set_other by done; try done.
Qed.

(** The first observation of a lane classifies it. *)
Lemma observe_fresh lane v t :
  shape t → (lane < lanes t)%nat → lane_state t lane None →
  shape (observe lane v t).1 ∧ same_paths t (observe lane v t).1 ∧
  lane_state (observe lane v t).1 lane (Some v).
Proof.
  intros Hsh Hl (Ho & Hu & Hs). unfold pathMask in Hs.
  unfold observe. destruct (Nat.leb_spec (lanes t) lane); [lia|]. rewrite Ho.
  set (t1 := t <| observed ::= λ w, mask_set w lane |>).
  assert (shape t1) as Hsh1 by done.
  assert (lane < 128)%nat as Hlane by (unfold shape, MaxLanes in Hsh; lia).
  assert (∀ p, selects t1 v p ↔ selects t v p) as Hsel by (intros; by apply same_paths_selects).
  pose proof (count_matches_spec t1 v ltac:(apply Hsh)) as C.
  destruct (count_matches t1 v) as [path n].
  destruct n as [|[|n]]; cbn [Nat.eqb negb fst].
  - assert (∀ p, ¬ selects t v p) as Hno.
    { intros p Hp. apply Hsel in Hp as (H1 & H2 & _). by rewrite (C p H1) in H2. }
    split_and!; [done..|]. unfold lane_state, pathMask. cbn. rewrite !mask_set_self by done.
    split_and!; [done| |done]. intros p Hp. rewrite Hs by done. split; [done|]. intros Hp'.
    by destruct (Hno p).
  - split_and!; [|done|].
    { unfold shape in *; cbn; rewrite ?length_alter; tauto. }
    assert (path < MaxPaths)%nat as Hpm by (destruct C as [C _], Hsh as (_ & ? & _); cbn in C; lia).
    unfold lane_state. cbn. rewrite mask_set_self by done. split_and!; [done| |].
    + intros p Hp. unfold pathMask. cbn. destruct (decide (p = path)) as [->|Hne].
      * rewrite list_lookup_total_alter_eq by (destruct Hsh as (_ & _ & ->); done).
        rewrite mask_set_self by done. split; [intros _; by apply Hsel|done].
      * rewrite list_lookup_total_alter_ne by done. rewrite (Hs p Hp). split; [done|].
        intros Hp'. destruct C as (C1 & C2 & _). destruct Hp' as (_ & _ & Hp').
        by rewrite (Hp' path C1 C2) in Hne.
    + rewrite Hu. split; [done|]. intros Hno. destruct (Hno path). by apply Hsel.
  - destruct C as (p1 & p2 & Hlt & M1 & M2).
    assert (∀ p, ¬ selects t v p) as Hno.
    { intros p (_ & _ & Hp). pose proof (Hp p1 ltac:(cbn in Hlt; lia) M1).
      pose proof (Hp p2 ltac:(cbn in Hlt; lia) M2). lia. }
    split_and!; [done..|]. unfold lane_state, pathMask. cbn. rewrite !mask_set_self by done.
    split_and!; [done| |done]. intros p Hp. rewrite Hs by done. split; [done|]. intros Hp'.
    by destruct (Hno p).
Qed.
Lemma observe_state lane v t l o :
  shape t → (l < MaxLanes)%nat → lane_state t l o → (o ≠ None → (l < lanes t)%nat) →
  shape (observe lane v t).1 ∧ same_paths t (observe lane v t).1 ∧
  lane_state (observe lane v t).1 l
    (match o with
     | Some w => Some w
     | None => if (lane =? l)%nat && (l <? lanes t)%nat then Some v else None
     end).
Proof.
  intros Hsh Hl Hst Ho. destruct (Nat.eqb_spec lane l) as [->|Hne].
  - destruct o as [w|]; cbn [andb].
    + destruct Hst as (Hob & Hrest). unfold observe.
      destruct (Nat.leb_spec (lanes t) l); rewrite ?Hob; done.
    + destruct (Nat.ltb_spec l (lanes t)); [by apply observe_fresh|].
      unfold observe. destruct (Nat.leb_spec (lanes t) l); [done|lia].
  - destruct (observe_other lane v t l o) as (H1 & H2 & H3); try done.
    split_and!; [done..|]. by destruct o.
Qed.

Lemma observe_all_state xs : ∀ t l o,
  shape t → (l < MaxLanes)%nat → lane_state t l o → (o ≠ None → (l < lanes t)%nat) →
  shape (observe_all t xs) ∧ same_paths t (observe_all t xs) ∧
  lane_state (observe_all t xs) l
    (match o with
     | Some w => Some w
     | None => if (l <? lanes t)%nat then first_value l xs else None
     end).
Proof.
  induction xs as [|[a v] xs IH]; intros t l o Hsh Hl Hst Ho; cbn [observe_all foldl fst snd].
  - split_and!; [done..|]. destruct o; [done|]. by destruct (_ <? _)%nat.
  - destruct (observe_state a v t l o) as (H1 & H2 & H3); try done.
    pose proof H2 as (Hlanes & _). unfold observe_all in IH.
    edestruct IH as (G1 & G2 & G3); [exact H1|exact Hl|exact H3| |].
    + rewrite Hlanes. destruct o; [intros _; by apply Ho|].
      destruct (Nat.eqb_spec a l), (Nat.ltb_spec l (lanes t)); cbn; done || lia.
    + split_and!; [done| |].
      * destruct H2 as (? & ? & ? & ?), G2 as (? & ? & ? & ?). unfold same_paths. split_and!; congruence.
      * rewrite Hlanes in G3. cbn [first_value]. destruct o; [exact G3|].
        destruct (Nat.eqb_spec a l), (Nat.ltb_spec l (lanes t)); cbn in G3 |- *; exact G3.
Qed.

Lemma begin_fields ln pn ms ps t0 :
  lanes (begin ln pn ms ps t0) = Nat.min ln MaxLanes ∧
  paths (begin ln pn ms ps t0) = Nat.min pn MaxPaths ∧
  selected (begin ln pn ms ps t0) = replicate MaxPaths mask_empty.
Proof. done. Qed.

Lemma begin_state ln pn ms ps t0 l :
  shape (begin ln pn ms ps t0) ∧ lane_state (begin ln pn ms ps t0) l None.
Proof.
  destruct (begin_fields ln pn ms ps t0) as (H1 & H2 & H3).
  unfold shape, lane_state, pathMask. rewrite H1, H2, H3. split.
  - split_and!; [lia|lia|done].
  - split_and!; [apply mask_test_empty..|]. intros p Hp.
    rewrite lookup_total_replicate_2 by done. apply mask_test_empty.
Qed.

(** The masked patterns. *)
Lemma begin_patterns ln pn ms ps t0 p :
  length ms = MaxPaths → length ps = MaxPaths → (p < Nat.min pn MaxPaths)%nat →
  patterns (begin ln pn ms ps t0) !!! p = Z.land (ps !!! p) (ms !!! p).
Proof.
  intros Hm Hps Hp. unfold begin. cbn -[Nat.min].
  destruct (for_range_map (λ k x, Z.land x (ms !!! k))
    (λ path ps, <[path := Z.land (ps !!! path) (ms !!! path)]> ps) 0 (Nat.min pn MaxPaths) ps)
    as [_ H]; [done|lia|]. rewrite H. by destruct (decide _); [|lia].
Qed.

Definition word_range (w : LaneMask) : Prop := is_u64 w.1 ∧ is_u64 w.2.

Lemma mask_set_range w a : (a < 128)%nat → word_range w → word_range (mask_set w a).
Proof.
  intros Ha [H1 H2]. unfold mask_set, word_range, is_u64 in *.
  assert (a mod 64 < 64)%nat by (apply Nat.mod_upper_bound; lia).
  change (2 ^ 64) with (2 ^ Z.of_nat 64) in *.
  destruct (a / 64 =? 0)%nat; cbn [fst snd]; split; try done; by apply set_bit_range.
Qed.

(** A mask word is non-zero when a lane is in the mask. *)
Lemma mask_any_spec w :
  word_range w → mask_any w = true ↔ ∃ l, (l < 128)%nat ∧ mask_test w l = true.
Proof.
  intros [H1 H2]. unfold mask_any, is_u64 in *.
  assert (∀ x, 0 <= x < 2 ^ 64 → x ≠ 0 → ∃ n, (n < 64)%nat ∧ test_bit x n = true) as Hbit.
  { intros x Hx Hnz. exists (Z.to_nat (Z.log2 x)). pose proof (Z.log2_nonneg x).
    assert (Z.log2 x < 64) by (apply Z.log2_lt_pow2; lia). split; [lia|].
    rewrite test_bit_spec, Z2Nat.id by done. apply Z.bit_log2. lia. }
  split.
  - intros [H|H]%orb_true_iff; apply negb_true_iff, Z.eqb_neq in H.
    + destruct (Hbit _ H1 H) as (n & Hn & Ht). exists n. split; [lia|]. unfold mask_test.
      rewrite Nat.div_small, Nat.mod_small by done. done.
    + destruct (Hbit _ H2 H) as (n & Hn & Ht). exists (n + 1 * 64)%nat. split; [lia|].
      unfold mask_test. rewrite Nat.div_add, Nat.Div0.mod_add, Nat.div_small, Nat.mod_small by lia.
      done.
  - intros (l & Hl & Ht). unfold mask_test in Ht. apply orb_true_iff.
    destruct (l / 64 =? 0)%nat; [left|right]; apply negb_true_iff, Z.eqb_neq; intros E;
      rewrite E, test_bit_0 in Ht; done.
Qed.

Lemma observe_range lane v t :
  (lanes t <= MaxLanes)%nat → Forall word_range (selected t) →
  Forall word_range (selected (observe lane v t).1).
Proof.
  intros Hl Hf. unfold observe. destruct (Nat.leb_spec (lanes t) lane); [done|].
  destruct (mask_test _ _); [done|]. destruct (count_matches _ v) as [path n].
  destruct (negb _); cbn; [done|]. apply Forall_alter; [done|]. intros w _ Hw.
  apply mask_set_range; [unfold MaxLanes in Hl; lia|done].
Qed.

Lemma observe_shape lane v t : shape t → shape (observe lane v t).1.
Proof.
  intros Hsh. unfold observe. destruct (_ <=? _)%nat; [done|]. destruct (mask_test _ _); [done|].
  destruct (count_matches _ v) as [path n]. unfold shape in *.
  destruct (negb _); cbn; rewrite ?length_alter; tauto.
Qed.

Lemma observe_all_range xs : ∀ t,
  shape t → Forall word_range (selected t) → Forall word_range (selected (observe_all t xs)).
Proof.
  induction xs as [|[a v] xs IH]; intros t Hsh Hf; [done|]. apply IH.
  - by apply observe_shape.
  - by apply observe_range; [apply Hsh|].
Qed.

(** More than one selected path. *)
Lemma selectedPaths_spec t :
  (1 < selectedPaths t)%nat ↔
  ∃ p q, (p < q < paths t)%nat ∧ mask_any (pathMask p t) = true ∧ mask_any (pathMask q t) = true.
Proof.
  unfold selectedPaths.
  set (any p := mask_any (pathMask p t)).
  pose proof (for_range_rule (λ k n,
    match n with
    | 0%nat => ∀ q, (q < k)%nat → any q = false
    | 1%nat => ∃ p, (p < k)%nat ∧ any p = true ∧ ∀ q, (q < k)%nat → any q = true → q = p
    | _ => ∃ p q, (p < q < k)%nat ∧ any p = true ∧ any q = true
    end) 0 (paths t) (λ p n, if any p then S n else n) 0%nat) as H.
  cbn beta in H. lapply H; [clear H; intros H|intros q Hq; lia]. lapply H; [clear H; intros H|].
  - set (n := for_range _ _ _ _) in *. clearbody n. cbn [Nat.add] in H.
    destruct n as [|[|n]]; (split; [|]).
    + lia.
    + intros (p & q & Hpq & H1 & H2). change (any p = true) in H1. rewrite (H p) in H1 by lia. done.
    + lia.
    + intros (p & q & Hpq & H1 & H2). destruct H as (r & _ & _ & H).
      rewrite (H p), (H q) in Hpq by (done || lia). lia.
    + done.
    + lia.
  - clear H. intros k n Hk IH. destruct (any k) eqn:A; destruct n as [|[|n]].
    + exists k. split_and!; [lia|done|]. intros q Hq Hqa. destruct (decide (q = k)); [done|].
      rewrite IH in Hqa by lia. done.
    + destruct IH as (p & Hp & Ap & IH). exists p, k. split_and!; done || lia.
    + destruct IH as (p & q & Hpq & ? & ?). exists p, q. split_and!; done || lia.
    + intros q Hq. destruct (decide (q = k)) as [->|]; [done|]. apply IH. lia.
    + destruct IH as (p & Hp & Ap & IH). exists p. split_and!; [lia|done|]. intros q Hq Hqa.
      destruct (decide (q = k)) as [->|]; [congruence|]. apply IH; done || lia.
    + destruct IH as (p & q & Hpq & ? & ?). exists p, q. split_and!; done || lia.
Qed.
(** ** Theorems *)

(** A lane's path is decided by the first value it receives, and by that value alone.
    After any sequence of observations, a lane below the lane count that received a value is in
    the mask of path [p] exactly when [p] is the only path its first value matches, and in the
    unmatched mask exactly when no path is; every other lane is in no mask.  The patterns
    matched are the given ones under their masks. *)
Theorem predicate_first_value ln pn ms ps t0 xs lane
  (Hms : length ms = MaxPaths) (Hps : length ps = MaxPaths) (Hlane : (lane < MaxLanes)%nat) :
  let t := observe_all (begin ln pn ms ps t0) xs in
  let first := if (lane <? Nat.min ln MaxLanes)%nat then first_value lane xs else None in
  lane_state t lane first ∧
  ∀ v p, path_matches t v p = true → (p < paths t)%nat →
    Z.land v (ms !!! p) = Z.land (ps !!! p) (ms !!! p).
Proof.
  cbn zeta. destruct (begin_state ln pn ms ps t0 lane) as [Hsh Hst].
  destruct (observe_all_state xs _ lane None Hsh Hlane Hst ltac:(done)) as (_ & Hsame & H).
  split; [exact H|]. intros v p Hm Hp. rewrite (same_paths_matches _ _ _ _ Hsame) in Hm.
  destruct Hsame as (_ & Hpaths & _). rewrite Hpaths in Hp.
  unfold path_matches in Hm. reflect. rewrite begin_patterns in * by done. done.
Qed.

(** Divergence means disagreeing lanes.  [divergent] holds exactly when two lanes have
    been selected for different paths. *)
Theorem predicate_divergent ln pn ms ps t0 xs :
  let t := observe_all (begin ln pn ms ps t0) xs in
  divergent t = true ↔
  ∃ a b p q, p ≠ q ∧ (p < paths t)%nat ∧ (q < paths t)%nat ∧ (a < MaxLanes)%nat ∧
    (b < MaxLanes)%nat ∧ mask_test (pathMask p t) a = true ∧ mask_test (pathMask q t) b = true.
Proof.
  cbn zeta. destruct (begin_state ln pn ms ps t0 0) as [Hsh Hst].
  pose proof (observe_all_state xs _ 0%nat None Hsh ltac:(unfold MaxLanes; lia) Hst ltac:(done))
    as (Hsh' & _ & _).
  assert (Forall word_range (selected (observe_all (begin ln pn ms ps t0) xs))) as Hr.
  { apply observe_all_range; [done|]. apply Forall_replicate. done. }
  set (t := observe_all _ _) in *. clearbody t.
  assert (∀ p, (p < paths t)%nat → mask_any (pathMask p t) = true ↔
    ∃ l, (l < 128)%nat ∧ mask_test (pathMask p t) l = true) as Hany.
  { intros p Hp. apply mask_any_spec. unfold pathMask. eapply Forall_lookup_total_1; [exact Hr|].
    destruct Hsh' as (_ & ? & ->). lia. }
  unfold divergent. rewrite Nat.ltb_lt, selectedPaths_spec. unfold MaxLanes. split.
  - intros (p & q & Hpq & Hp & Hq). apply Hany in Hp as (a & Ha & Hp); [|lia].
    apply Hany in Hq as (b & Hb & Hq); [|lia]. exists a, b, p, q. split_and!; done || lia.
  - intros (a & b & p & q & Hne & Hp & Hq & Ha & Hb & Hpa & Hqb).
    destruct (decide (p < q)%nat).
    + exists p, q. split_and!; try lia; apply Hany; eauto.
    + exists q, p. split_and!; try lia; apply Hany; eauto.
Qed.

(** ** Witness *)

Lemma predicate_first_value_witness :
  let t := observe_all (begin 8 2 [3; 3; 0; 0] [1; 2; 0; 0] (reset (mkTracker 0 0 [] [] [] mask_empty mask_empty)))
             [(0%nat, 5); (1%nat, 6); (2%nat, 7); (0%nat, 6)] in
  (mask_test (pathMask 0 t) 0 = true ∧ mask_test (pathMask 1 t) 1 = true ∧
   mask_test (unmatched t) 2 = true ∧ divergent t = true) ∧ lane_state t 0 (Some 5).
Proof.
  split; [by vm_compute|].
  pose proof (predicate_first_value 8 2 [3; 3; 0; 0] [1; 2; 0; 0]
    (reset (mkTracker 0 0 [] [] [] mask_empty mask_empty))
    [(0%nat, 5); (1%nat, 6); (2%nat, 7); (0%nat, 6)] 0 ltac:(done) ltac:(done)
    ltac:(unfold MaxLanes; lia)) as [H _].
  exact H.
Defined.
End Predicate.
