(* ===== verification/Quality.v ===== *)
(** * The prefetch quality tracker

    Model of [DVRQualityTracker] (src/cpu/o3/dvr_quality.hh, dvr_quality.cc): request
    accounting, a demand-only LRU shadow cache and the attribution of hits, late prefetches
    and pollution.  The ratios, which are [double]s, are not modelled; that they are at most
    one is stated on their numerators and denominators. *)

From S2P Require Import Prelude.

Module Quality.

(** [enum class FillOrigin] *)
Inductive FillOrigin := Demand | DVR.

#[export] Instance FillOrigin_eq_dec : EqDecision FillOrigin.
Proof. solve_decision. Defined.

(** The exceptions the operations throw. *)
Inductive Error := ZeroGeometry | DuplicateRequest | UnknownCompletion | IncompleteVictim.

Definition bind_result {A B} (x : Error + A) (f : A → Error + B) : Error + B :=
  match x with inl e => inl e | inr a => f a end.

(** [struct Counters] *)
Record Counters := mkCounters {
  generated : Z;  issued : Z;  issuedBytes : Z;  completed : Z;  completedBytes : Z;
  fills : Z;  redundantFills : Z;  usefulTimely : Z;  usefulLate : Z;  coveredMisses : Z;
  unusedEvictions : Z;  demandAccesses : Z;  demandAddressesObserved : Z;
  actualDemandMisses : Z;  shadowDemandMisses : Z;  pollutionEvictions : Z;
  pollutionMisses : Z;  leadTime : Z
}.

#[export] Instance eta_Counters : Eta Counters := λ r,
  mkCounters (generated r) (issued r) (issuedBytes r) (completed r) (completedBytes r) (fills r)
    (redundantFills r) (usefulTimely r) (usefulLate r) (coveredMisses r) (unusedEvictions r)
    (demandAccesses r) (demandAddressesObserved r) (actualDemandMisses r)
    (shadowDemandMisses r) (pollutionEvictions r) (pollutionMisses r) (leadTime r).

Definition Counters_init : Counters := mkCounters 0 0 0 0 0 0 0 0 0 0 0 0 0 0 0 0 0 0.

(** [struct Request], [struct PrefetchedLine] *)
Record Request := mkRequest { q_line : Z;  q_bytes : Z;  issuedAt : Z }.
Record PrefetchedLine := mkPrefetched { filledAt : Z;  used : bool }.

#[export] Instance eta_PrefetchedLine : Eta PrefetchedLine := λ r,
  mkPrefetched (filledAt r) (used r).

(** ** The shadow cache *)

(** [class ShadowCache]: each set is a list, most recently used first. *)
Record ShadowCache := mkShadow { sets : list (list Z);  ways : nat;  lineBytes : Z }.

#[export] Instance eta_ShadowCache : Eta ShadowCache := λ r,
  mkShadow (sets r) (ways r) (lineBytes r).

(** The constructor. *)
Definition shadow_create (set_count way_count : nat) (line_bytes : Z) : Error + ShadowCache :=
  if (set_count =? 0)%nat || (way_count =? 0)%nat || (line_bytes =? 0) then inl ZeroGeometry
  else inr (mkShadow (replicate set_count []) way_count line_bytes).

(** [(line / lineBytes) % sets.size()] *)
Definition set_index (line : Z) (c : ShadowCache) : nat :=
  Z.to_nat ((line / lineBytes c) mod Z.of_nat (length (sets c))).

(** [contains] *)
Definition contains (line : Z) (c : ShadowCache) : bool :=
  existsb (λ candidate, candidate =? line) (sets c !!! set_index line c).

(** [set.splice(set.begin(), set, it)] for the first occurrence [it] of [line]. *)
Fixpoint remove_first (line : Z) (l : list Z) : list Z :=
  match l with
  | [] => []
  | x :: l => if x =? line then l else x :: remove_first line l
  end.

(** [access] on one set. *)
Definition access_set (ways : nat) (line : Z) (set : list Z) : list Z * bool :=
  if existsb (λ candidate, candidate =? line) set then (line :: remove_first line set, true)
  else
    let set := line :: set in
    (if (ways <? length set)%nat then removelast set else set, false).

(** [access] *)
Definition access (line : Z) (c : ShadowCache) : ShadowCache * bool :=
  let i := set_index line c in
  let '(set, hit) := access_set (ways c) line (sets c !!! i) in
  (c <| sets ::= <[i := set]> |>, hit).

(** ** The tracker *)

(** The data members; [outstandingByLine] is the list of its (line, id) pairs. *)
Record Tracker := mkTracker {
  counts : Counters;
  demandShadow : ShadowCache;
  outstanding : gmap Z Request;
  outstandingByLine : list (Z * Z);
  prefetched : gmap Z PrefetchedLine;
  lateReported : gset Z;
  pollutionVictims : gset Z
}.

#[export] Instance eta_Tracker : Eta Tracker := λ r,
  mkTracker (counts r) (demandShadow r) (outstanding r) (outstandingByLine r) (prefetched r)
    (lateReported r) (pollutionVictims r).

(** The constructor. *)
Definition create (set_count way_count : nat) (line_bytes : Z) : Error + Tracker :=
  bind_result (shadow_create set_count way_count line_bytes) (λ shadow,
    inr (mkTracker Counters_init shadow ∅ [] ∅ ∅ ∅)).

(** [generated], [demandAddressObserved] *)
Definition note_generated (t : Tracker) : Tracker :=
  t <| counts ::= λ k, k <| generated ::= inc64 |> |>.
Definition demandAddressObserved (t : Tracker) : Tracker :=
  t <| counts ::= λ k, k <| demandAddressesObserved ::= inc64 |> |>.

(** [issued] *)
Definition issue (id line bytes now : Z) (t : Tracker) : Error + Tracker :=
  match outstanding t !! id with
  | Some _ => inl DuplicateRequest
  | None =>
      inr (t <| outstanding ::= <[id := mkRequest line bytes now]> |>
             <| outstandingByLine ::= cons (line, id) |>
             <| counts ::= λ k, k <| issued ::= inc64 |>
                                  <| issuedBytes ::= λ b, u64 (b + bytes) |> |>)
  end.

(** The loop that erases the first (line, id) pair. *)
Fixpoint erase_pair (line id : Z) (l : list (Z * Z)) : list (Z * Z) :=
  match l with
  | [] => []
  | (x, i) :: l => if (x =? line) && (i =? id) then l else (x, i) :: erase_pair line id l
  end.

(** Forget an outstanding request. *)
Definition forget (id : Z) (request : Request) (t : Tracker) : Tracker :=
  t <| outstandingByLine ::= erase_pair (q_line request) id |> <| outstanding ::= delete id |>.

(** [completed] *)
Definition complete (id : Z) (t : Tracker) : Error + Tracker :=
  match outstanding t !! id with
  | None => inl UnknownCompletion
  | Some request =>
      inr ((forget id request t)
             <| counts ::= λ k, k <| completed ::= inc64 |>
                                  <| completedBytes ::= λ b, u64 (b + q_bytes request) |> |>)
  end.

(** The loop of [completedLine] over the collected identifiers. *)
Fixpoint complete_all (ids : list Z) (t : Tracker) : Error + Tracker :=
  match ids with
  | [] => inr t
  | id :: ids => bind_result (complete id t) (complete_all ids)
  end.

Definition ids_of (line : Z) (t : Tracker) : list Z :=
  (filter (λ p, p.1 = line) (outstandingByLine t)).*2.

(** [completedLine] *)
Definition completedLine (line : Z) (t : Tracker) : Error + Tracker :=
  complete_all (ids_of line t) t.

(** [dropped] *)
Definition dropped (id : Z) (t : Tracker) : Tracker :=
  match outstanding t !! id with
  | None => t
  | Some request => forget id request t
  end.

(** [outstandingByLine.find(line) != end] *)
Definition in_flight (line : Z) (t : Tracker) : bool :=
  existsb (λ p, p.1 =? line) (outstandingByLine t).

(** The tag lookups of a demand access: actual cache, then shadow. *)
Definition count_access (actual_hit shadow_hit : bool) (k : Counters) : Counters :=
  let k := k <| demandAccesses ::= inc64 |> in
  let k := if actual_hit then k else k <| actualDemandMisses ::= inc64 |> in
  if shadow_hit then k else k <| shadowDemandMisses ::= inc64 |>.

(** The first demand hit on a prefetched line makes it useful. *)
Definition attribute_hit (line now : Z) (p : PrefetchedLine) (shadow_hit : bool) (t : Tracker)
  : Tracker :=
  t <| prefetched ::= <[line := p <| used := true |>]> |>
    <| counts ::= λ k,
         let k := k <| usefulTimely ::= inc64 |> in
         let k := if shadow_hit then k else k <| coveredMisses ::= inc64 |> in
         k <| leadTime ::= λ l, u64 (l + u64 (now - filledAt p)) |> |>.

(** A demand miss on a line in flight is a late prefetch, once. *)
Definition attribute_late (line : Z) (t : Tracker) : Tracker :=
  if in_flight line t && negb (bool_decide (line ∈ lateReported t)) then
    t <| lateReported ::= λ s, {[line]} ∪ s |> <| counts ::= λ k, k <| usefulLate ::= inc64 |> |>
  else t.

(** A miss on a line DVR displaced and the shadow still holds. *)
Definition attribute_pollution (line : Z) (actual_hit shadow_hit : bool) (t : Tracker) : Tracker :=
  let t := if negb actual_hit && shadow_hit && bool_decide (line ∈ pollutionVictims t)
           then t <| counts ::= λ k, k <| pollutionMisses ::= inc64 |> |> else t in
  t <| pollutionVictims ::= λ s, s ∖ {[line]} |>.

(** [demandLookup] *)
Definition demandLookup (line : Z) (actual_hit : bool) (now : Z) (t : Tracker) : Tracker :=
  let '(shadow, shadow_hit) := access line (demandShadow t) in
  let t := t <| counts ::= count_access actual_hit shadow_hit |> <| demandShadow := shadow |> in
  let t :=
    match prefetched t !! line with
    | Some p =>
        if actual_hit && negb (used p) then attribute_hit line now p shadow_hit t
        else if negb actual_hit then attribute_late line t
        else t
    | None => if negb actual_hit then attribute_late line t else t
    end in
  attribute_pollution line actual_hit shadow_hit t.

(** The displacement of [victim] by a fill of [origin]. *)
Definition displace (origin : FillOrigin) (victim : Z) (victim_origin : FillOrigin) (t : Tracker)
  : Tracker :=
  let t :=
    match prefetched t !! victim with
    | Some p =>
        (if used p then t else t <| counts ::= λ k, k <| unusedEvictions ::= inc64 |> |>)
          <| prefetched ::= delete victim |>
    | None => t
    end in
  let t := t <| pollutionVictims ::= λ s, s ∖ {[victim]} |> in
  if bool_decide (origin = DVR) && bool_decide (victim_origin = Demand)
     && contains victim (demandShadow t)
  then t <| pollutionVictims ::= λ s, {[victim]} ∪ s |>
         <| counts ::= λ k, k <| pollutionEvictions ::= inc64 |> |>
  else t.

(** The installation of [line]. *)
Definition install (line : Z) (origin : FillOrigin) (now : Z) (t : Tracker) : Tracker :=
  match origin with
  | DVR =>
      let already_used := bool_decide (line ∈ lateReported t) in
      let t1 := t <| counts ::= λ k, k <| fills ::= inc64 |> |>
                  <| lateReported ::= λ s, s ∖ {[line]} |> in
      match prefetched t !! line with
      | Some _ => t1 <| counts ::= λ k, k <| redundantFills ::= inc64 |> |>
      | None => t1 <| prefetched ::= <[line := mkPrefetched now already_used]> |>
      end
  | Demand => t <| prefetched ::= delete line |> <| pollutionVictims ::= λ s, s ∖ {[line]} |>
  end.

(** [cacheFill] *)
Definition cacheFill (line : Z) (origin : FillOrigin) (now : Z) (victim : option Z)
    (victim_origin : option FillOrigin) (t : Tracker) : Error + Tracker :=
  match victim, victim_origin with
  | None, None => inr (install line origin now t)
  | Some v, Some vo => inr (install line origin now (displace origin v vo t))
  | _, _ => inl IncompleteVictim
  end.

(** [cacheRemove] *)
Definition cacheRemove (line : Z) (origin : FillOrigin) (t : Tracker) : Tracker :=
  let t :=
    match origin with
    | DVR =>
        let t :=
          match prefetched t !! line with
          | Some p => if used p then t
                      else t <| counts ::= λ k, k <| unusedEvictions ::= inc64 |> |>
          | None => t
          end in
        t <| prefetched ::= delete line |>
    | Demand => t
    end in
  t <| pollutionVictims ::= λ s, s ∖ {[line]} |> <| lateReported ::= λ s, s ∖ {[line]} |>.
(** ** Runs *)

Inductive Op :=
| Generated
| AddressObserved
| Issued (id line bytes now : Z)
| Completed (id : Z)
| CompletedLine (line : Z)
| Dropped (id : Z)
| Lookup (line : Z) (actual_hit : bool) (now : Z)
| Fill (line : Z) (origin : FillOrigin) (now : Z) (victim : option Z)
    (victim_origin : option FillOrigin)
| Remove (line : Z) (origin : FillOrigin).

Definition apply_op (t : Tracker) (o : Op) : Error + Tracker :=
  match o with
  | Generated => inr (note_generated t)
  | AddressObserved => inr (demandAddressObserved t)
  | Issued id line bytes now => issue id line bytes now t
  | Completed id => complete id t
  | CompletedLine line => completedLine line t
  | Dropped id => inr (dropped id t)
  | Lookup line hit now => inr (demandLookup line hit now t)
  | Fill line origin now v vo => cacheFill line origin now v vo t
  | Remove line origin => inr (cacheRemove line origin t)
  end.

(** A run; an operation that throws leaves the tracker as it was. *)
Definition run (t : Tracker) (ops : list Op) : Tracker :=
  foldl (λ t o, match apply_op t o with inl _ => t | inr t' => t' end) t ops.

(** ** Invariant *)

(** The index holds each outstanding request once, under its line. *)
Definition index_ok (t : Tracker) : Prop :=
  outstandingByLine t ≡ₚ (λ p, (q_line p.2, p.1)) <$> map_to_list (outstanding t).

(** Prefetched lines no demand access has used yet. *)
Definition unused_lines (m : gmap Z PrefetchedLine) : gmap Z PrefetchedLine :=
  filter (λ p, used p.2 = false) m.

(** Requests: each completion is of a request that was issued and is no longer outstanding. *)
Definition requests_ok (n : Z) (t : Tracker) : Prop :=
  0 <= completed (counts t) ∧
  completed (counts t) + Z.of_nat (size (outstanding t)) <= issued (counts t) <= n.

(** Fills: the redundant ones, those used, those evicted unused and those still unused are disjoint
    classes; a line reported late or replaced by a demand fill is in none. *)
Definition fills_ok (n : Z) (t : Tracker) : Prop :=
  let k := counts t in
  0 <= usefulTimely k ∧ 0 <= unusedEvictions k ∧ 0 <= redundantFills k ∧
  usefulTimely k + unusedEvictions k + redundantFills k
    + Z.of_nat (size (unused_lines (prefetched t))) <= fills k <= n.

(** Demand accesses: covered misses are useful hits the shadow missed, late prefetches are
    actual misses. *)
Definition demand_ok (n : Z) (t : Tracker) : Prop :=
  let k := counts t in
  0 <= coveredMisses k <= usefulTimely k ∧
  coveredMisses k <= shadowDemandMisses k <= demandAccesses k ∧
  0 <= usefulLate k <= actualDemandMisses k ∧
  actualDemandMisses k + usefulTimely k <= demandAccesses k <= n.

(** Pollution: every pollution miss ends the attribution of one eviction. *)
Definition pollution_ok (n : Z) (t : Tracker) : Prop :=
  let k := counts t in
  0 <= pollutionMisses k ∧
  pollutionMisses k + Z.of_nat (size (pollutionVictims t)) <= pollutionEvictions k <= n.

Definition ok (n : Z) (t : Tracker) : Prop :=
  index_ok t ∧ requests_ok n t ∧ fills_ok n t ∧ demand_ok n t ∧ pollution_ok n t.

(** ** Lemmas *)

(** *** The request index *)

Lemma erase_pair_spec line id l :
  (line, id) ∈ l → l ≡ₚ (line, id) :: erase_pair line id l.
Proof.
  induction l as [|[x i] l IH]; intros H; [by apply not_elem_of_nil in H|]. cbn.
  destruct (Z.eqb_spec x line), (Z.eqb_spec i id); cbn; subst; [done|..];
    (apply elem_of_cons in H as [H|H]; [congruence|]); rewrite (IH H) at 1; by constructor.
Qed.

Lemma index_mem t id r :
  index_ok t → outstanding t !! id = Some r → (q_line r, id) ∈ outstandingByLine t.
Proof.
  intros Hi Hr. unfold index_ok in Hi. rewrite Hi. apply list_elem_of_fmap.
  exists (id, r). split; [done|]. by apply elem_of_map_to_list.
Qed.

Lemma index_lookup t line id :
  index_ok t → (line, id) ∈ outstandingByLine t →
  ∃ r, outstanding t !! id = Some r ∧ q_line r = line.
Proof.
  intros Hi Hm. unfold index_ok in Hi. rewrite Hi in Hm.
  apply list_elem_of_fmap in Hm as ([i r] & [= -> ->] & Hm). apply elem_of_map_to_list in Hm. eauto.
Qed.

Lemma forget_index t id r :
  index_ok t → outstanding t !! id = Some r → index_ok (forget id r t).
Proof.
  intros Hi Hr. pose proof (index_mem t id r Hi Hr) as Hm. unfold index_ok in *. cbn.
  apply (Permutation_cons_inv (a := (q_line r, id))). rewrite <- erase_pair_spec by done.
  rewrite Hi. change ((q_line r, id) :: ?l) with ([(q_line r, id)] ++ l).
  rewrite <- (map_to_list_delete _ _ _ Hr). done.
Qed.

Lemma index_NoDup t : index_ok t → NoDup (outstandingByLine t).*2.
Proof.
  intros Hi. unfold index_ok in Hi. rewrite Hi, <- list_fmap_compose.
  apply (NoDup_fst_map_to_list (outstanding t)).
Qed.

(** *** The shadow cache *)

Lemma remove_first_filter x l : NoDup l → remove_first x l = filter (λ y, y ≠ x) l.
Proof.
  induction l as [|y l IH]; intros Hnd; [done|]. apply NoDup_cons in Hnd as [Hy Hnd].
  cbn [remove_first]. rewrite filter_cons. destruct (Z.eqb_spec y x) as [->|Hne].
  - rewrite decide_False by tauto. by rewrite filter_ne_id.
  - rewrite decide_True by done. f_equal. auto.
Qed.

Lemma existsb_eq x l : existsb (λ y, y =? x) l = bool_decide (x ∈ l).
Proof.
  induction l as [|y l IH]; [done|]. cbn. rewrite IH.
  destruct (Z.eqb_spec y x) as [->|Hne]; cbn; symmetry.
  - apply bool_decide_eq_true. by left.
  - apply bool_decide_ext. rewrite elem_of_cons. split; [|by right].
    intros [?|?]; [congruence|done].
Qed.

(** One access is a use in the bounded recency list of the set. *)
Lemma access_set_lru w x l :
  NoDup l → (length l <= w)%nat → (0 < w)%nat →
  access_set w x l = (lru_add w x l, bool_decide (x ∈ l)).
Proof.
  intros Hnd Hl Hw. unfold access_set. rewrite existsb_eq. case_bool_decide as Hx.
  - f_equal. unfold lru_add. rewrite take_ge.
    + unfold to_head. by rewrite remove_first_filter.
    + by rewrite to_head_length.
  - f_equal. unfold lru_add, to_head. rewrite filter_ne_id by done.
    destruct (Nat.ltb_spec w (length (x :: l))) as [Hlt|Hge].
    + cbn in Hlt. rewrite removelast_firstn_len. f_equal. cbn. lia.
    + by rewrite take_ge.
Qed.

(** Several accesses in order. *)
Definition access_all (c : ShadowCache) (xs : list Z) : ShadowCache :=
  foldl (λ c x, (access x c).1) c xs.

(** The set of a line depends on the geometry only. *)
Definition line_set (set_count : nat) (line_bytes line : Z) : nat :=
  Z.to_nat ((line / line_bytes) mod Z.of_nat set_count).

Lemma line_set_lt n b x : (0 < n)%nat → (line_set n b x < n)%nat.
Proof.
  intros Hn. unfold line_set.
  pose proof (Z.mod_pos_bound (x / b) (Z.of_nat n) ltac:(lia)). lia.
Qed.

(** What a cache of a given geometry holds after the accesses [xs]. *)
Definition shadow_state (n w : nat) (b : Z) (xs : list Z) (c : ShadowCache) : Prop :=
  length (sets c) = n ∧ ways c = w ∧ lineBytes c = b ∧
  ∀ i, (i < n)%nat → sets c !!! i = take w (recency (filter (λ x, line_set n b x = i) xs)).

Lemma access_state n w b xs x c :
  (0 < n)%nat → (0 < w)%nat → shadow_state n w b xs c →
  shadow_state n w b (xs ++ [x]) (access x c).1 ∧
  (access x c).2 =
    bool_decide (x ∈ take w (recency (filter (λ y, line_set n b y = line_set n b x) xs))).
Proof.
  intros Hn Hw (Hl & Hwc & Hb & Hs).
  assert (set_index x c = line_set n b x) as Hi by (unfold set_index, line_set; congruence).
  pose proof (line_set_lt n b x Hn) as Hlt.
  set (h := filter (λ y, line_set n b y = line_set n b x) xs) in *.
  assert (NoDup (recency h)) as Hnd by apply recency_NoDup.
  unfold access. rewrite Hi, Hwc, Hs by done. fold h.
  assert (NoDup (take w (recency h))) as Hnd'.
  { rewrite <- (take_drop w (recency h)) in Hnd. by apply NoDup_app in Hnd as [? _]. }
  rewrite access_set_lru by (rewrite ?length_take; done || lia).
  cbn [fst snd]. split; [|done]. unfold shadow_state. cbn.
  split_and!; [by rewrite length_insert|done|done|]. intros i Hin.
  rewrite lookup_total_insert_case by lia. rewrite filter_app, filter_cons, filter_nil.
  case_bool_decide as E.
  - subst i. rewrite decide_True by done. fold h. rewrite lru_add_take by done.
    unfold recency. by rewrite foldl_app.
  - rewrite decide_False by done. rewrite app_nil_r. by apply Hs.
Qed.

Lemma access_all_state n w b xs : ∀ c ys,
  (0 < n)%nat → (0 < w)%nat → shadow_state n w b ys c →
  shadow_state n w b (ys ++ xs) (access_all c xs).
Proof.
  induction xs as [|x xs IH]; intros c ys Hn Hw Hc; cbn [access_all foldl].
  - by rewrite app_nil_r.
  - destruct (access_state n w b ys x c Hn Hw Hc) as [H _].
    specialize (IH _ _ Hn Hw H). by rewrite <- app_assoc in IH.
Qed.
(** *** Sizes *)

Lemma size_diff_singleton (s : gset Z) x :
  Z.of_nat (size (s ∖ {[x]})) = Z.of_nat (size s) - (if bool_decide (x ∈ s) then 1 else 0) ∧
  Z.of_nat (size (s ∖ {[x]})) <= Z.of_nat (size s).
Proof.
  case_bool_decide as H.
  - rewrite size_difference by set_solver. rewrite size_singleton.
    assert (size s ≠ 0%nat) by (apply size_non_empty_iff; set_solver). lia.
  - replace (s ∖ {[x]}) with s by set_solver. lia.
Qed.

Lemma size_add_singleton (s : gset Z) x :
  Z.of_nat (size ({[x]} ∪ s ∖ {[x]})) = Z.of_nat (size (s ∖ {[x]})) + 1.
Proof. rewrite size_union by set_solver. rewrite size_singleton. lia. Qed.

(** Removing a line removes it from the unused ones. *)
Lemma unused_delete l m :
  Z.of_nat (size (unused_lines (delete l m))) =
  Z.of_nat (size (unused_lines m)) -
    (match m !! l with Some p => if used p then 0 else 1 | None => 0 end).
Proof.
  unfold unused_lines. rewrite map_filter_delete. destruct (m !! l) as [p|] eqn:E.
  - destruct (used p) eqn:U.
    + rewrite delete_id; [lia|]. apply map_lookup_filter_None. right. intros q Hq.
      rewrite E in Hq. injection Hq as <-. cbn. congruence.
    + assert (filter (λ p : Z * PrefetchedLine, used p.2 = false) m !! l = Some p) as F
        by (by apply map_lookup_filter_Some).
      rewrite map_size_delete_Some by (by eexists).
      assert (size (filter (λ p : Z * PrefetchedLine, used p.2 = false) m) ≠ 0%nat).
      { apply map_size_ne_0_lookup. exists l. by eexists. }
      lia.
  - rewrite delete_id; [lia|]. apply map_lookup_filter_None. by left.
Qed.

(** Adding or marking a line. *)
Lemma unused_insert l p m :
  Z.of_nat (size (unused_lines (<[l := p]> m))) =
  Z.of_nat (size (unused_lines (delete l m))) + (if used p then 0 else 1).
Proof.
  rewrite <- insert_delete_eq. unfold unused_lines at 1. destruct (used p) eqn:U.
  - rewrite map_filter_insert_False; [rewrite delete_delete_eq; unfold unused_lines; lia|].
    cbn. congruence.
  - rewrite map_filter_insert_True by done.
    rewrite map_size_insert_None; [unfold unused_lines; lia|].
    apply map_lookup_filter_None. left. apply lookup_delete_eq.
Qed.

(** *** Preservation *)

Ltac unfold_quality :=
  unfold ok, requests_ok, fills_ok, demand_ok, pollution_ok, index_ok in *.

(** The counters are bounded by the operations so far, so that they do not wrap. *)
Ltac solve_counters :=
  unfold_quality; cbn in *; rewrite ?inc64_small by lia; destruct_and?; split_and!; done || lia.

(** Split on the membership tests of the code. *)
Ltac split_quality :=
  repeat match goal with
  | |- context [in_flight ?l ?t] => destruct (in_flight l t) eqn:?
  | |- context [bool_decide (?x ∈ ?s)] => destruct (bool_decide (x ∈ s)) eqn:?
  end; cbn [andb negb];
  repeat match goal with
  | H : bool_decide _ = _ |- _ => cbn in H; rewrite H in *; clear H
  end.

Lemma quality_init c : ok 0 (mkTracker Counters_init c ∅ [] ∅ ∅ ∅).
Proof. unfold_quality. cbn. split_and!; try lia; done. Qed.

Lemma ok_mono n n' t : ok n t → n <= n' → ok n' t.
Proof. intros H Hn. unfold_quality. destruct_and?. split_and!; done || lia. Qed.

Lemma ok_issue n id line b now t t' :
  0 <= n < 2 ^ 64 - 2 → ok n t → issue id line b now t = inr t' → ok (n + 1) t'.
Proof.
  intros Hn Hok. unfold issue. destruct (outstanding t !! id) eqn:E; [done|]. intros [= <-].
  assert (index_ok (t <| outstanding ::= <[id := mkRequest line b now]> |>
                      <| outstandingByLine ::= cons (line, id) |>)) as Hi.
  { destruct Hok as [Hi _]. unfold index_ok in *. cbn. rewrite Hi.
    by rewrite map_to_list_insert. }
  destruct Hok as (_ & H). unfold_quality. cbn in *. rewrite map_size_insert_None by done.
  rewrite ?inc64_small by lia. destruct_and?. split_and!; done || lia.
Qed.

(** One completion keeps everything but the requests. *)
Lemma ok_complete n id t t' :
  0 <= n < 2 ^ 64 - 2 → ok n t → complete id t = inr t' → ok n t'.
Proof.
  intros Hn Hok. unfold complete. destruct (outstanding t !! id) as [r|] eqn:E; [|done].
  intros [= <-]. pose proof (forget_index t id r (proj1 Hok) E) as Hi.
  assert (size (outstanding t) ≠ 0%nat) by (apply map_size_ne_0_lookup; exists id; by eexists).
  destruct Hok as (_ & H'). unfold_quality. cbn in *. rewrite map_size_delete_Some by (by eexists).
  rewrite ?inc64_small by lia. destruct_and?. split_and!; done || lia.
Qed.

Lemma ok_dropped n id t : ok n t → ok n (dropped id t).
Proof.
  intros Hok. unfold dropped. destruct (outstanding t !! id) as [r|] eqn:E; [|done].
  pose proof (forget_index t id r (proj1 Hok) E) as Hi.
  assert (size (outstanding t) ≠ 0%nat) by (apply map_size_ne_0_lookup; exists id; by eexists).
  destruct Hok as (_ & H'). unfold_quality. cbn in *. rewrite map_size_delete_Some by (by eexists).
  destruct_and?. split_and!; done || lia.
Qed.

(** Completing several distinct outstanding requests succeeds and removes exactly them. *)
Lemma complete_all_spec n ids : ∀ t,
  0 <= n < 2 ^ 64 - 2 → ok n t → NoDup ids →
  (∀ id, id ∈ ids → is_Some (outstanding t !! id)) →
  ∃ t', complete_all ids t = inr t' ∧ ok n t' ∧
    (∀ id, outstanding t' !! id = if bool_decide (id ∈ ids) then None else outstanding t !! id) ∧
    completed (counts t') = completed (counts t) + Z.of_nat (length ids).
Proof.
  induction ids as [|i ids IH]; intros t Hn Hok Hnd Hin; cbn [complete_all].
  - exists t. split_and!; [done|done| |cbn; lia]. intros id. by rewrite bool_decide_eq_false_2 by set_solver.
  - apply NoDup_cons in Hnd as [Hi Hnd].
    destruct (Hin i) as [r Hr]; [by left|].
    assert (complete i t = inr ((forget i r t) <| counts ::= λ k, k <| completed ::= inc64 |>
      <| completedBytes ::= λ b, u64 (b + q_bytes r) |> |>)) as Hc by (unfold complete; by rewrite Hr).
    pose proof (ok_complete n i t _ Hn Hok Hc) as Hok'. rewrite Hc. cbn [bind_result].
    set (t1 := (forget i r t) <| counts ::= _ |>) in *.
    destruct (IH t1) as (t' & H1 & H2 & H3 & H4); [done|done|done| |].
    { intros id Hid. unfold t1. cbn. rewrite lookup_delete_ne by (intros ->; done).
      apply Hin. by right. }
    exists t'. split_and!; [done|done| |].
    + intros id. rewrite H3. unfold t1. cbn. destruct (decide (id = i)) as [->|Hne].
      * rewrite lookup_delete_eq, (bool_decide_eq_true_2 (i ∈ i :: ids)) by (by left).
        by destruct (bool_decide _).
      * rewrite lookup_delete_ne by done. apply (f_equal (λ b : bool, if b then _ else _)).
        apply bool_decide_ext. rewrite elem_of_cons. tauto.
    + rewrite H4. unfold t1. cbn. unfold_quality. rewrite inc64_small by lia. lia.
Qed.

Lemma ids_of_elem line t id :
  index_ok t → id ∈ ids_of line t ↔ ∃ r, outstanding t !! id = Some r ∧ q_line r = line.
Proof.
  intros Hi. unfold ids_of. rewrite list_elem_of_fmap. split.
  - intros ([x i] & -> & [Hx H]%list_elem_of_filter). cbn in *. subst x. by apply index_lookup.
  - intros (r & Hr & <-). exists (q_line r, id). split; [done|]. apply list_elem_of_filter.
    split; [done|]. by apply index_mem.
Qed.

Lemma ids_of_NoDup line t : index_ok t → NoDup (ids_of line t).
Proof.
  intros Hi. unfold ids_of. pose proof (index_NoDup t Hi) as Hnd.
  induction (outstandingByLine t) as [|[x i] l IH]; [constructor|].
  cbn [fmap list_fmap] in Hnd. apply NoDup_cons in Hnd as [Hx Hnd]. rewrite filter_cons.
  destruct (decide _); [|auto]. cbn. apply NoDup_cons. split; [|auto].
  intros Hin. apply Hx. apply list_elem_of_fmap in Hin as (y & -> & [_ Hy]%list_elem_of_filter).
  cbn. by apply (list_elem_of_fmap_2 snd).
Qed.

Lemma completedLine_spec n line t :
  0 <= n < 2 ^ 64 - 2 → ok n t →
  ∃ t', completedLine line t = inr t' ∧ ok n t' ∧
    (∀ id, outstanding t' !! id =
       match outstanding t !! id with
       | Some r => if q_line r =? line then None else Some r
       | None => None
       end) ∧
    completed (counts t') = completed (counts t) + Z.of_nat (length (ids_of line t)).
Proof.
  intros Hn Hok. pose proof (proj1 Hok) as Hi.
  destruct (complete_all_spec n (ids_of line t) t) as (t' & H1 & H2 & H3 & H4); try done.
  - by apply ids_of_NoDup.
  - intros id Hid. apply ids_of_elem in Hid as (r & Hr & _); [by eexists|done].
  - exists t'. split_and!; [done|done| |done]. intros id. rewrite H3.
    destruct (outstanding t !! id) as [r|] eqn:E.
    + destruct (Z.eqb_spec (q_line r) line) as [El|El].
      * rewrite bool_decide_eq_true_2; [done|]. apply ids_of_elem; [done|]. eauto.
      * rewrite bool_decide_eq_false_2; [done|]. rewrite ids_of_elem by done.
        intros (r' & Hr' & Hl). congruence.
    + by destruct (bool_decide _).
Qed.
(** A demand lookup: at most one of a useful hit and a late miss, at most one pollution miss. *)
Lemma ok_lookup n line hit now t :
  0 <= n < 2 ^ 64 - 2 → ok n t → ok (n + 1) (demandLookup line hit now t).
Proof.
  intros Hn Hok. unfold demandLookup. destruct (access line (demandShadow t)) as [c sh].
  pose proof (size_diff_singleton (pollutionVictims t) line) as [Hpol Hle].
  set (t1 := t <| counts ::= count_access hit sh |> <| demandShadow := c |>).
  change (prefetched t1 !! line) with (prefetched t !! line).
  pose proof (unused_delete line (prefetched t)) as Hd.
  assert (∀ t2, t2 = t1 ∨ (hit = false ∧ t2 = attribute_late line t1) ∨
      (∃ p, prefetched t !! line = Some p ∧ hit = true ∧ used p = false ∧
            t2 = attribute_hit line now p sh t1) →
    ok (n + 1) (attribute_pollution line hit sh t2)) as H.
  { intros t2 [->|[[-> ->]|(p & Ep & -> & Hp & ->)]].
    - unfold attribute_pollution, t1, count_access. destruct hit, sh; cbn [andb negb];
        split_quality; solve_counters.
    - unfold attribute_pollution, attribute_late, t1, count_access. destruct sh; cbn [andb negb];
        split_quality; solve_counters.
    - pose proof (unused_insert line (p <| used := true |>) (prefetched t)) as Hu.
      rewrite Ep, Hp in Hd. cbn in Hu. unfold attribute_pollution, attribute_hit, t1, count_access.
      destruct sh; cbn [andb negb]; split_quality; solve_counters. }
  apply H. destruct (prefetched t !! line) as [p|] eqn:Ep; [|destruct hit; cbn; auto].
  destruct hit; cbn [andb negb]; [|auto]. destruct (used p) eqn:U; cbn [andb negb]; [auto|].
  right. right. by exists p.
Qed.

Lemma ok_install n line origin now t :
  0 <= n < 2 ^ 64 - 2 → ok n t → ok (n + 1) (install line origin now t).
Proof.
  intros Hn Hok. unfold install.
  pose proof (unused_delete line (prefetched t)) as Hd.
  pose proof (size_diff_singleton (pollutionVictims t) line) as [Hpol Hle].
  destruct origin.
  - destruct (prefetched t !! line) as [p|] eqn:Ep; [destruct (used p)|]; case_bool_decide;
      solve_counters.
  - destruct (prefetched t !! line) as [p|] eqn:Ep; [solve_counters|].
    pose proof (unused_insert line (mkPrefetched now (bool_decide (line ∈ lateReported t)))
      (prefetched t)) as Hu. cbn in Hu.
    case_bool_decide; solve_counters.
Qed.

(** A displacement counts an unused eviction and starts or ends an attribution. *)
Lemma ok_displace n origin v vo t :
  0 <= n < 2 ^ 64 - 2 → ok n t → ok (n + 1) (displace origin v vo t).
Proof.
  intros Hn Hok. unfold displace.
  pose proof (unused_delete v (prefetched t)) as Hd.
  pose proof (size_diff_singleton (pollutionVictims t) v) as [Hpol Hle].
  pose proof (size_add_singleton (pollutionVictims t) v) as Hadd.
  destruct (prefetched t !! v) as [p|] eqn:Ep; [destruct (used p)|];
    destruct (bool_decide (v ∈ pollutionVictims t));
    (match goal with |- context [if ?b then _ else _] => destruct b end); solve_counters.
Qed.

Lemma ok_remove n line origin t :
  0 <= n < 2 ^ 64 - 2 → ok n t → ok (n + 1) (cacheRemove line origin t).
Proof.
  intros Hn Hok. unfold cacheRemove.
  pose proof (unused_delete line (prefetched t)) as Hd.
  pose proof (size_diff_singleton (pollutionVictims t) line) as [Hpol Hle].
  destruct origin; [case_bool_decide; solve_counters|].
  destruct (prefetched t !! line) as [p|] eqn:Ep; [destruct (used p)|]; case_bool_decide;
    solve_counters.
Qed.
Lemma ok_apply n o t t' :
  0 <= n < 2 ^ 64 - 4 → ok n t → apply_op t o = inr t' → ok (n + 2) t'.
Proof.
  intros Hn Hok. destruct o; cbn [apply_op].
  - intros [= <-]. solve_counters.
  - intros [= <-]. solve_counters.
  - intros H. apply ok_issue with (n := n) in H; [|lia|done]. eapply ok_mono; [exact H|lia].
  - intros H. apply ok_complete with (n := n) in H; [|lia|done]. eapply ok_mono; [exact H|lia].
  - intros H. destruct (completedLine_spec n line t) as (t1 & H1 & H2 & _); [lia|done|].
    rewrite H1 in H. injection H as <-. eapply ok_mono; [exact H2|lia].
  - intros [= <-]. eapply ok_mono; [by apply ok_dropped|lia].
  - intros [= <-]. eapply ok_mono; [apply ok_lookup; [|done]; lia|lia].
  - unfold cacheFill. destruct victim as [v|], victim_origin as [vo|]; try done; intros [= <-].
    + replace (n + 2) with (n + 1 + 1) by lia.
      apply ok_install; [lia|]. apply ok_displace; [lia|done].
    + eapply ok_mono; [apply ok_install; [|done]; lia|lia].
  - intros [= <-]. eapply ok_mono; [apply ok_remove; [|done]; lia|lia].
Qed.

Lemma quality_run_ok ops : ∀ n t,
  0 <= n → n + 2 * Z.of_nat (length ops) < 2 ^ 64 - 4 → ok n t →
  ok (n + 2 * Z.of_nat (length ops)) (run t ops).
Proof.
  induction ops as [|o ops IH]; intros n t Hn Hb Hok; cbn [length run foldl] in *.
  - by rewrite Z.add_0_r.
  - replace (n + 2 * Z.of_nat (S (length ops))) with (n + 2 + 2 * Z.of_nat (length ops)) by lia.
    destruct (apply_op t o) as [e|t'] eqn:E; apply IH; try lia.
    + eapply ok_mono; [exact Hok|lia].
    + eapply ok_apply; [|done|exact E]. lia.
Qed.

Lemma create_ok n w b t : create n w b = inr t → ok 0 t ∧ (0 < n)%nat ∧ (0 < w)%nat ∧ b ≠ 0.
Proof.
  unfold create, shadow_create.
  destruct (_ || _) eqn:G; cbn [bind_result]; [done|]. intros [= <-]. reflect.
  split; [apply quality_init|]. split_and!; done || lia.
Qed.

(** ** Theorems *)

(** C38: Quality accounting.  After fewer than 2^63 - 2 events reported to a fresh tracker (an event that
    throws changes nothing), no counter has wrapped, and: completions are at most the issued requests; redundant
    fills, useful hits, unused evictions and lines still unused add up to at most the fills (at most, since a
    line reported late, or replaced by a demand fill, is in none of these classes); covered misses
    are at most the useful hits and at most the shadow's misses; useful and late prefetches together are at
    most the demand accesses; and pollution misses are at most the pollution evictions.  Hence the
    fill accuracy and coverage ratios have numerators at most their denominators. *)
Theorem quality_accounting n w b t ops
  (Ht : create n w b = inr t) (Hlen : 2 * Z.of_nat (length ops) < 2 ^ 64 - 4) :
  let t' := run t ops in
  ok (2 * Z.of_nat (length ops)) t' ∧
  let k := counts t' in
  completed k <= issued k ∧ usefulTimely k <= fills k ∧
  coveredMisses k <= shadowDemandMisses k ∧ coveredMisses k <= usefulTimely k ∧
  pollutionMisses k <= pollutionEvictions k ∧
  usefulTimely k + usefulLate k <= demandAccesses k ∧
  redundantFills k + usefulTimely k + unusedEvictions k
    + Z.of_nat (size (unused_lines (prefetched t'))) <= fills k.
Proof.
  apply create_ok in Ht as [Hok _].
  pose proof (quality_run_ok ops 0 t ltac:(lia) ltac:(lia) Hok) as H. cbn [Z.add] in H.
  cbv zeta. split; [exact H|]. unfold_quality. destruct_and?. split_and!; lia.
Qed.

(** [completedLine] never throws.  In every state the tracker can reach, completing a line
    succeeds, completes exactly the requests outstanding for that line, keeps the others, and
    leaves the line with no request in flight; reporting a completion for an identifier throws
    exactly when it is not outstanding. *)
Theorem completedLine_never_throws n w b t0 ops line
  (Ht : create n w b = inr t0) (Hlen : 2 * Z.of_nat (length ops) < 2 ^ 64 - 4) :
  let t := run t0 ops in
  (∃ t', completedLine line t = inr t' ∧
     (∀ id, outstanding t' !! id =
        match outstanding t !! id with
        | Some r => if q_line r =? line then None else Some r
        | None => None
        end) ∧
     completed (counts t') = completed (counts t) + Z.of_nat (length (ids_of line t)) ∧
     in_flight line t' = false) ∧
  ∀ id, complete id t = inl UnknownCompletion ↔ outstanding t !! id = None.
Proof.
  apply create_ok in Ht as [Hok _].
  pose proof (quality_run_ok ops 0 t0 ltac:(lia) ltac:(lia) Hok) as H. cbn [Z.add] in H.
  cbv zeta. set (t := run t0 ops) in *. clearbody t. split.
  - destruct (completedLine_spec (2 * Z.of_nat (length ops)) line t) as (t' & H1 & H2 & H3 & H4); [lia|done|].
    exists t'. split_and!; [done..|]. unfold in_flight. apply not_true_iff_false.
    rewrite existsb_exists. intros ([x id] & Hin & Hx). cbn in Hx. reflect. subst x.
    apply list_elem_of_In in Hin. destruct (index_lookup t' line id (proj1 H2) Hin) as (r & Hr & Hl).
    rewrite H3 in Hr. destruct (outstanding t !! id) as [r'|]; [|done].
    destruct (Z.eqb_spec (q_line r') line); [done|congruence].
  - intros id. unfold complete. by destruct (outstanding t !! id).
Qed.

(** C39: the shadow cache is LRU.  After any accesses each set holds the most recently used
    distinct lines that map to it, as many as there are ways, and the next access hits exactly
    when its line is among them; lines of other sets do not matter. *)
Theorem shadow_is_lru n w b c xs x
  (Hc : shadow_create n w b = inr c) :
  let mine y := line_set n b y = line_set n b x in
  sets (access_all c xs) !!! line_set n b x = take w (recency (filter mine xs)) ∧
  (access x (access_all c xs)).2 = bool_decide (x ∈ take w (recency (filter mine xs))) ∧
  contains x (access_all c xs) = bool_decide (x ∈ take w (recency (filter mine xs))).
Proof.
  unfold shadow_create in Hc. destruct (_ || _) eqn:G; [done|]. injection Hc as <-. reflect.
  assert (shadow_state n w b [] (mkShadow (replicate n []) w b)) as Hinit.
  { split_and!; [apply length_replicate|done|done|]. intros i Hi. cbn.
    rewrite lookup_total_replicate_2 by done. by rewrite take_nil. }
  pose proof (access_all_state n w b xs _ [] ltac:(lia) ltac:(lia) Hinit) as Hst. cbn [app] in Hst.
  cbv zeta. set (c := access_all _ xs) in *. clearbody c.
  pose proof (line_set_lt n b x ltac:(lia)) as Hlt.
  destruct (access_state n w b xs x c ltac:(lia) ltac:(lia) Hst) as [_ Hhit].
  destruct Hst as (Hl & Hw & Hb & Hs). split_and!; [by apply Hs|exact Hhit|].
  unfold contains. replace (set_index x c) with (line_set n b x) by (unfold set_index, line_set; congruence).
  rewrite Hs by done. apply existsb_eq.
Qed.

(** ** Witnesses *)

Definition events : list Op :=
  [Generated; Issued 1 64 64 10; Issued 2 64 64 11; Lookup 64 false 12; Completed 1;
   Fill 64 DVR 20 None None; Lookup 64 true 25; Issued 1 128 64 30;
   Fill 128 DVR 40 (Some 64) (Some DVR); Completed 9].

Definition shadow_2x1 : ShadowCache := mkShadow [[]; []] 1 64.
Definition tracker_2x1 : Tracker := mkTracker Counters_init shadow_2x1 ∅ [] ∅ ∅ ∅.

Lemma quality_accounting_witness :
  let k := counts (run tracker_2x1 events) in
  usefulLate k = 1 ∧ fills k = 2 ∧ completed k <= issued k ∧ usefulTimely k <= fills k.
Proof.
  destruct (quality_accounting 2 1 64 tracker_2x1 events eq_refl ltac:(by vm_compute))
    as (_ & H1 & H2 & _).
  split_and!; [by vm_compute|by vm_compute|exact H1|exact H2].
Defined.

Lemma completedLine_never_throws_witness :
  let t := run tracker_2x1 events in
  in_flight 128 t = true ∧ ∃ t', completedLine 128 t = inr t' ∧ in_flight 128 t' = false.
Proof.
  split; [by vm_compute|].
  destruct (completedLine_never_throws 2 1 64 tracker_2x1 events 128 eq_refl ltac:(by vm_compute))
    as ((t' & H1 & _ & _ & H2) & _).
  exists t'. split; [exact H1|exact H2].
Defined.

Lemma shadow_is_lru_witness :
  sets (access_all shadow_2x1 [64; 128; 192]) = [[128]; [192]] ∧
  (access 64 (access_all shadow_2x1 [64; 128; 192])).2 = false ∧
  (access 128 (access_all shadow_2x1 [64; 128; 192])).2 = true.
Proof.
  destruct (shadow_is_lru 2 1 64 shadow_2x1 [64; 128; 192] 128 eq_refl) as (_ & H & _).
  split_and!; [by vm_compute|by vm_compute|]. rewrite H. by vm_compute.
Defined.
End Quality.
