(* ===== verification/Relation.v ===== *)
(** * Address relations

    Model of [CPU::trainDVRAddressRelation] (src/cpu/o3/cpu.cc) with the tables of cpu.hh, and
    of the part of [CPU::launchDVRStridePrefetches] that gathers the trained relations of a
    trigger and turns them into the paths of the lane predicate tracker.  A relation fits the
    address of a dependent load as an affine function of the value its trigger loaded, and
    records which bits of that value stayed the same.

    The signed arithmetic is the machine's: it wraps, and the remainder of the least integer by
    -1 traps ([None]). *)

From S2P Require Import Prelude Predicate.

Module Relation.

(** [DVRPrefetchSenderState::MaxRelations] *)
Definition MaxRelations : nat := 4.
#[global] Arguments MaxRelations : simpl never.

(** [struct DVRAddressRelation] *)
Record Relation := mkRelation {
  hasPrevious : bool;  trained : bool;  previousValue : Z;  previousAddress : Z;
  scale : Z;  offset : Z;  stableMask : Z;  pattern : Z;  minAddress : Z;  maxAddress : Z;
  samples : Z
}.

#[export] Instance eta_Relation : Eta Relation := λ r,
  mkRelation (hasPrevious r) (trained r) (previousValue r) (previousAddress r) (scale r)
    (offset r) (stableMask r) (pattern r) (minAddress r) (maxAddress r) (samples r).

Definition Relation_init : Relation :=
  mkRelation false false 0 0 0 0 (2 ^ 64 - 1) 0 0 0 0.

(** The members of the CPU: the relations by (trigger PC, load PC), the loads related to each
    trigger in the order they were met, and all dependent load PCs. *)
Record Tables := mkTables {
  relations : gmap (Z * Z) Relation;  triggers : gmap Z (list Z);  dependentLoads : gset Z
}.

#[export] Instance eta_Tables : Eta Tables := λ t,
  mkTables (relations t) (triggers t) (dependentLoads t).

Definition Tables_init : Tables := mkTables ∅ ∅ ∅.

(** ** Training *)

(** The range of the addresses and the bits all values share. *)
Definition summarise (value address : Z) (r : Relation) : Relation :=
  let r :=
    if samples r =? 0
    then r <| pattern := value |> <| minAddress := address |> <| maxAddress := address |>
    else
      let r := r <| stableMask ::= λ m, Z.land m (Z.lnot (Z.lxor (previousValue r) value)) |> in
      r <| pattern := Z.land (pattern r) (stableMask r) |>
        <| minAddress := Z.min (minAddress r) address |>
        <| maxAddress := Z.max (maxAddress r) address |> in
  r <| samples ::= inc32 |>.

(** [lhs % rhs] on [int64_t]. *)
Definition rem64 (a b : Z) : option Z :=
  if (a =? - 2 ^ 63) && (b =? -1) then None else Some (Z.rem a b).

(** The affine fit on two samples of different values. *)
Definition fit (value address : Z) (r : Relation) : option Relation :=
  if hasPrevious r && negb (value =? previousValue r) then
    let value_delta := s64 (value - previousValue r) in
    let address_delta := s64 (address - previousAddress r) in
    if value_delta =? 0 then Some r
    else
      rem ← rem64 address_delta value_delta;
      if rem =? 0 then
        let new_scale := Z.quot address_delta value_delta in
        if negb (new_scale =? 0) && (s64 (Z.abs new_scale) <=? 4096)
        then Some (r <| scale := new_scale |>
                     <| offset := s64 (s64 address - s64 (new_scale * s64 value)) |>
                     <| trained := true |>)
        else Some r
      else Some r
  else Some r.

(** The update of one relation. *)
Definition train_relation (value address : Z) (r : Relation) : option Relation :=
  r ← fit value address (summarise value address r);
  Some (r <| hasPrevious := true |> <| previousValue := value |>
          <| previousAddress := address |>).

(** [trainDVRAddressRelation] *)
Definition trainDVRAddressRelation (trigger_pc flr_pc source_value dependent_address : Z)
    (t : Tables) : option Tables :=
  let t := t <| dependentLoads ::= λ s, {[flr_pc]} ∪ s |> in
  let loads := default [] (triggers t !! trigger_pc) in
  let t := t <| triggers ::=
                  <[trigger_pc := if decide (flr_pc ∈ loads) then loads
                                  else loads ++ [flr_pc]]> |> in
  r ← train_relation source_value dependent_address
        (default Relation_init (relations t !! (trigger_pc, flr_pc)));
  Some (t <| relations ::= <[(trigger_pc, flr_pc) := r]> |>).

(** ** The paths of a launch *)

(** The arrays a launch fills, with their common count. *)
Record Paths := mkPaths {
  relationCount : nat;  scales : list Z;  offsets : list Z;  masks : list Z;  patterns : list Z
}.

#[export] Instance eta_Paths : Eta Paths := λ p,
  mkPaths (relationCount p) (scales p) (offsets p) (masks p) (patterns p).

Definition Paths_init : Paths :=
  mkPaths 0 (replicate MaxRelations 0) (replicate MaxRelations 0) (replicate MaxRelations 0)
    (replicate MaxRelations 0).

(** The body of the loop over the loads of the trigger, for a trained relation. *)
Definition add_path (r : Relation) (p : Paths) : Paths :=
  let k := relationCount p in
  p <| scales ::= <[k := scale r]> |> <| offsets ::= <[k := offset r]> |>
    <| masks ::= <[k := stableMask r]> |>
    <| patterns ::= <[k := Z.land (pattern r) (stableMask r)]> |> <| relationCount ::= S |>.

Fixpoint gather_loads (t : Tables) (pc : Z) (loads : list Z) (p : Paths) : Paths :=
  match loads with
  | [] => p
  | flr_pc :: loads =>
      match relations t !! (pc, flr_pc) with
      | Some r =>
          if trained r then
            let p := add_path r p in
            if (relationCount p =? MaxRelations)%nat then p else gather_loads t pc loads p
          else gather_loads t pc loads p
      | None => gather_loads t pc loads p
      end
  end.

Definition gather (t : Tables) (pc : Z) : Paths :=
  match triggers t !! pc with
  | Some loads => gather_loads t pc loads Paths_init
  | None => Paths_init
  end.

(** The bits both paths keep stable and on which they differ. *)
Definition differing (ms ps : list Z) (lhs rhs : nat) : Z :=
  Z.land (Z.land (ms !!! lhs) (ms !!! rhs)) (Z.lxor (ps !!! lhs) (ps !!! rhs)).

(** The inner loop: the bits that tell [lhs] from some other path. *)
Definition discriminating (n : nat) (ms ps : list Z) (lhs : nat) : Z :=
  for_range 0 n (λ rhs d, if (lhs =? rhs)%nat then d else Z.lor d (differing ms ps lhs rhs)) 0.

(** With several relations, only discriminating bits are kept. *)
Definition discriminate (p : Paths) : Paths :=
  if (1 <? relationCount p)%nat then
    for_range 0 (relationCount p) (λ lhs q,
      let d := discriminating (relationCount p) (masks p) (patterns p) lhs in
      q <| masks ::= <[lhs := d]> |>
        <| patterns ::= <[lhs := Z.land (patterns p !!! lhs) d]> |>) p
  else p.

Definition launch_paths (t : Tables) (pc : Z) : Paths := discriminate (gather t pc).

(** The predicate generation of the launch: none with fewer than two relations. *)
Definition launch_tracker (t : Tables) (pc : Z) (lanes : nat) (tracker : Predicate.Tracker)
  : option Predicate.Tracker :=
  let p := launch_paths t pc in
  if (1 <? relationCount p)%nat
  then Some (Predicate.begin lanes (relationCount p) (masks p) (patterns p) tracker)
  else None.

(** ** Specification *)

(** One relation trained on several samples (value, address) in order. *)
Fixpoint train_all (xs : list (Z * Z)) (r : Relation) : option Relation :=
  match xs with
  | [] => Some r
  | x :: xs => r ← train_relation x.1 x.2 r; train_all xs r
  end.

(** The tables trained on several events ((trigger, load), (value, address)). *)
Fixpoint train_events (es : list ((Z * Z) * (Z * Z))) (t : Tables) : option Tables :=
  match es with
  | [] => Some t
  | e :: es => t ← trainDVRAddressRelation e.1.1 e.1.2 e.2.1 e.2.2 t; train_events es t
  end.

(** The samples of one relation. *)
Definition samples_of (k : Z * Z) (es : list ((Z * Z) * (Z * Z))) : list (Z * Z) :=
  (filter (λ e, e.1 = k) es).*2.

Definition sample_ok (x : Z * Z) : Prop := is_u64 x.1 ∧ is_u64 x.2.

(** [r] predicts the address of the value [v]. *)
Definition predicts (r : Relation) (v a : Z) : Prop := u64 (scale r * v + offset r) = a.

(** All of [vs] have the same bit [n]. *)
Definition same_bit (vs : list Z) (n : Z) : Prop :=
  ∀ v w, v ∈ vs → w ∈ vs → Z.testbit v n = Z.testbit w n.

(** [r] is the summary of the samples [xs]. *)
Record summary (xs : list (Z * Z)) (r : Relation) : Prop := mkSummary {
  sm_samples : samples r = Z.of_nat (length xs);
  sm_previous : hasPrevious r = bool_decide (xs ≠ []);
  sm_last : xs ≠ [] → last xs = Some (previousValue r, previousAddress r);
  sm_mask : ∀ n, 0 <= n → Z.testbit (stableMask r) n = true ↔ n < 64 ∧ same_bit xs.*1 n;
  sm_pattern : ∀ v, v ∈ xs.*1 → Z.land v (stableMask r) = pattern r;
  sm_range : ∀ a, a ∈ xs.*2 → minAddress r <= a <= maxAddress r;
  sm_attained : xs ≠ [] → minAddress r ∈ xs.*2 ∧ maxAddress r ∈ xs.*2
}.

(** ** Lemmas: one relation *)

(** A fit touches only the affine part. *)
Lemma fit_frame v a r r' :
  fit v a r = Some r' →
  r' = r <| scale := scale r' |> <| offset := offset r' |> <| trained := trained r' |>.
Proof.
  unfold fit, rem64. intros H. destruct r. cbn in *.
  repeat (case_match; cbn in *; simplify_eq); done.
Qed.

Lemma train_relation_eq v a r r' :
  train_relation v a r = Some r' →
  ∃ q, fit v a (summarise v a r) = Some q ∧
    r' = q <| hasPrevious := true |> <| previousValue := v |> <| previousAddress := a |>.
Proof.
  unfold train_relation. destruct (fit v a _) as [q|] eqn:F; cbn; [|done].
  intros [= <-]. by exists q.
Qed.

(** What a sample does to the parts outside the fit. *)
Lemma train_relation_summary v a r r' :
  train_relation v a r = Some r' →
  samples r' = samples (summarise v a r) ∧ stableMask r' = stableMask (summarise v a r) ∧
  pattern r' = pattern (summarise v a r) ∧ minAddress r' = minAddress (summarise v a r) ∧
  maxAddress r' = maxAddress (summarise v a r) ∧ hasPrevious r' = true ∧
  previousValue r' = v ∧ previousAddress r' = a.
Proof.
  intros (q & F & ->)%train_relation_eq. apply fit_frame in F. by rewrite F.
Qed.

Lemma ones64_testbit n : 0 <= n → Z.testbit (2 ^ 64 - 1) n = bool_decide (n < 64).
Proof.
  intros Hn. replace (2 ^ 64 - 1) with (Z.ones 64) by done.
  rewrite Z.testbit_ones by lia. destruct (bool_decide_reflect (n < 64)), (Z.ltb_spec n 64); lia || done.
Qed.

Lemma testbit_u64 v n : is_u64 v → 64 <= n → Z.testbit v n = false.
Proof.
  intros [H0 H1] Hn. destruct (decide (v = 0)) as [->|]; [apply Z.bits_0|].
  apply Z.bits_above_log2; [done|]. assert (Z.log2 v < 64); [apply Z.log2_lt_pow2; lia|lia].
Qed.

(** The first sample. *)
Lemma summary_first v a r :
  sample_ok (v, a) → train_relation v a Relation_init = Some r → summary [(v, a)] r.
Proof.
  intros [Hv Ha] H. apply train_relation_summary in H as (E1 & E2 & E3 & E4 & E5 & E6 & E7 & E8).
  cbn in *. split; rewrite ?E1, ?E2, ?E3, ?E4, ?E5, ?E6, ?E7, ?E8; try done.
  - intros n Hn. rewrite ones64_testbit by done. rewrite bool_decide_eq_true. split; [|by intros [??]].
    intros. split; [done|]. by intros x y ->%list_elem_of_singleton ->%list_elem_of_singleton.
  - intros w ->%list_elem_of_singleton. apply Z.bits_inj'. intros n Hn.
    rewrite Z.land_spec, ones64_testbit by done. case_bool_decide; [by rewrite andb_true_r|].
    rewrite andb_false_r, testbit_u64; [done|exact Hv|lia].
  - intros x Hx%list_elem_of_singleton. subst x. cbn. lia.
  - intros _. cbn. by rewrite !list_elem_of_singleton.
Qed.

Lemma elem_snoc {A} (x y : A) l : x ∈ l ++ [y] ↔ x ∈ l ∨ x = y.
Proof. by rewrite elem_of_app, list_elem_of_singleton. Qed.

Lemma negb_xorb a b : negb (xorb a b) = true ↔ a = b.
Proof. by destruct a, b. Qed.

(** A further sample. *)
Lemma summary_snoc xs v a r r' :
  xs ≠ [] → Z.of_nat (length xs) < 2 ^ 32 - 1 → summary xs r → sample_ok (v, a) →
  train_relation v a r = Some r' → summary (xs ++ [(v, a)]) r'.
Proof.
  intros Hne Hlen S [Hv Ha] H. pose proof (sm_last _ _ S Hne) as Hl.
  apply last_Some_elem_of in Hl as Hin.
  assert (previousValue r ∈ xs.*1) as Hpv by (apply list_elem_of_fmap; by eexists (_, _)).
  apply train_relation_summary in H as (E1 & E2 & E3 & E4 & E5 & E6 & E7 & E8).
  assert ((samples r =? 0) = false) as Hz.
  { rewrite (sm_samples _ _ S). by destruct xs. }
  unfold summarise in *. rewrite Hz in *. cbn in *.
  assert (∀ n, 0 <= n → Z.testbit (stableMask r') n = true ↔ n < 64 ∧ same_bit (xs ++ [(v, a)]).*1 n)
    as Hmask.
  { intros n Hn. rewrite E2, Z.land_spec, Z.lnot_spec, Z.lxor_spec by done.
    rewrite andb_true_iff, (sm_mask _ _ S n Hn), negb_xorb, fmap_app.
    unfold same_bit. cbn. setoid_rewrite elem_snoc. split.
    - intros [[H1 H2] H3]. split; [done|].
      assert (∀ z, z ∈ xs.*1 ∨ z = v → Z.testbit z n = Z.testbit v n) as Hall.
      { intros z [Hz'| ->]; [by rewrite (H2 z _ Hz' Hpv)|done]. }
      intros x y Hx Hy. by rewrite (Hall x), (Hall y).
    - intros [H1 H2]. split_and!; [done| |]; [|by apply H2; [left|right]].
      intros x y Hx Hy. apply H2; by left. }
  split; rewrite ?E1, ?E3, ?E4, ?E5, ?E6, ?E7, ?E8; try done.
  - rewrite (sm_samples _ _ S), inc32_small, length_app by lia. cbn. lia.
  - by destruct xs.
  - intros _. by rewrite last_snoc.
  - intros w Hw. rewrite <- E2. apply Z.bits_inj'. intros n Hn. rewrite Z.land_spec.
    rewrite <- (sm_pattern _ _ S _ Hpv), !Z.land_spec.
    assert (Z.testbit (stableMask r') n = true →
      Z.testbit w n = Z.testbit (previousValue r) n ∧ Z.testbit (stableMask r) n = true) as Hb.
    { intros Hm. split.
      - apply (Hmask n Hn) in Hm as [_ Hm]. apply Hm; [done|].
        rewrite fmap_app. apply elem_of_app. by left.
      - rewrite E2, Z.land_spec in Hm. by apply andb_true_iff in Hm as [? _]. }
    destruct (Z.testbit (stableMask r') n); [|by rewrite !andb_false_r].
    destruct Hb as [-> ->]; [done|]. by rewrite !andb_true_r.
  - intros x. rewrite fmap_app. cbn. intros [Hx| ->]%elem_snoc; [|lia].
    pose proof (sm_range _ _ S x Hx). lia.
  - intros _. rewrite !fmap_app. cbn. rewrite !elem_snoc.
    destruct (sm_attained _ _ S Hne) as [H1 H2].
    split; [destruct (Z.min_spec (minAddress r) a) as [[_ ->]|[_ ->]]
           |destruct (Z.max_spec (maxAddress r) a) as [[_ ->]|[_ ->]]]; solve [by left|by right].
Qed.

Lemma train_all_snoc xs x r :
  train_all (xs ++ [x]) r = (q ← train_all xs r; train_relation x.1 x.2 q).
Proof.
  revert r. induction xs as [|y xs IH]; intros r; cbn.
  - by destruct (train_relation _ _ r).
  - destruct (train_relation y.1 y.2 r); cbn; [apply IH|done].
Qed.

Lemma train_all_summary xs r :
  xs ≠ [] → Z.of_nat (length xs) < 2 ^ 32 → Forall sample_ok xs →
  train_all xs Relation_init = Some r → summary xs r.
Proof.
  revert r. induction xs as [|[v a] xs IH] using rev_ind; intros r Hne Hlen Hok H; [done|].
  apply Forall_app in Hok as [Hok [Hx _]%Forall_cons].
  rewrite length_app in Hlen. cbn in Hlen.
  rewrite train_all_snoc in H. cbn in H.
  destruct (train_all xs Relation_init) as [q|] eqn:E; cbn in H; [|done].
  destruct xs as [|y ys]; [injection E as <-; by apply summary_first|].
  eapply summary_snoc; [done|lia|apply IH; [done|lia|done|done]|done|done].
Qed.

(** ** Lemmas: the affine fit *)

Lemma s64_shift z : ∃ k, s64 z = z + k * 2 ^ 64.
Proof.
  exists ((s64 z - z) / 2 ^ 64). pose proof (u64_s64 z) as H. unfold u64 in H.
  assert ((s64 z - z) mod 2 ^ 64 = 0) as Hm.
  { rewrite Zminus_mod, H, Z.sub_diag. done. }
  apply Z.div_exact in Hm; lia.
Qed.

Lemma u64_shift z k : u64 (z + k * 2 ^ 64) = u64 z.
Proof. unfold u64. by rewrite Z_mod_plus_full. Qed.

(** The scale an accepted fit installs. *)
Definition accepted (dv da c : Z) : Prop := c * dv = da ∧ c ≠ 0 ∧ (Z.abs c <= 4096 ∨ c = - 2 ^ 63).

Definition value_delta (v : Z) (r : Relation) : Z := s64 (v - previousValue r).
Definition address_delta (a : Z) (r : Relation) : Z := s64 (a - previousAddress r).

(** The relation with an accepted fit on ([v], [a]). *)
Definition install (v a c : Z) (r : Relation) : Relation :=
  r <| scale := c |> <| offset := s64 (s64 a - s64 (c * s64 v)) |> <| trained := true |>.

Lemma install_predicts v a c r :
  is_u64 a → is_u64 (previousAddress r) → c * value_delta v r = address_delta a r →
  predicts (install v a c r) v a ∧ predicts (install v a c r) (previousValue r) (previousAddress r).
Proof.
  unfold predicts, install, value_delta, address_delta. intros Ha Hp E.
  cbn.
  destruct (s64_shift v) as [k1 ->], (s64_shift a) as [k2 ->], (s64_shift (c * (v + k1 * 2 ^ 64))) as [k3 ->].
  destruct (s64_shift (a + k2 * 2 ^ 64 - (c * (v + k1 * 2 ^ 64) + k3 * 2 ^ 64))) as [k4 ->].
  destruct (s64_shift (v - previousValue r)) as [k5 E5], (s64_shift (a - previousAddress r)) as [k6 E6].
  rewrite E5, E6 in E. split.
  - etransitivity; [|apply (u64_small a Ha)].
    rewrite <- (u64_shift a (k2 - c * k1 - k3 + k4)). f_equal. ring.
  - etransitivity; [|apply (u64_small _ Hp)].
    rewrite <- (u64_shift (previousAddress r) (k2 - c * k1 - k3 + k4 + c * k5 - k6)). f_equal.
    replace (c * previousValue r) with
      (c * v + c * k5 * 2 ^ 64 - (a - previousAddress r + k6 * 2 ^ 64)) by (rewrite <- E; ring).
    ring.
Qed.

Lemma value_delta_0 v r :
  is_u64 v → is_u64 (previousValue r) → value_delta v r = 0 → v = previousValue r.
Proof.
  unfold value_delta. intros Hv Hp E. assert (u64 (v - previousValue r) = 0) as H.
  { rewrite <- u64_s64, E. done. }
  unfold u64, is_u64 in *. apply Z.mod_divide in H as [k Hk]; lia.
Qed.

(** What a fit does. *)
Lemma fit_spec v a r :
  is_u64 v → is_u64 (previousValue r) →
  match fit v a r with
  | None =>
      hasPrevious r = true ∧ value_delta v r = -1 ∧ address_delta a r = - 2 ^ 63
  | Some r' =>
      (∃ c, hasPrevious r = true ∧ v ≠ previousValue r ∧
            accepted (value_delta v r) (address_delta a r) c ∧ r' = install v a c r) ∨
      r' = r ∧ (hasPrevious r = true → v ≠ previousValue r →
                ∀ c, ¬ accepted (value_delta v r) (address_delta a r) c)
  end.
Proof.
  intros Hv Hp. unfold fit, rem64. destruct (hasPrevious r); cbn [andb]; [|by right].
  fold (value_delta v r) (address_delta a r).
  pose proof (value_delta_0 v r Hv Hp) as H0.
  assert (- 2 ^ 63 <= address_delta a r < 2 ^ 63) as Hda by apply s64_range.
  destruct (Z.eqb_spec v (previousValue r)) as [E|E]; cbn [negb]; [by right|].
  set (dv := value_delta v r) in *. set (da := address_delta a r) in *.
  destruct (Z.eqb_spec dv 0) as [|D]; [by destruct E; apply H0|].
  destruct (Z.eqb_spec da (- 2 ^ 63)) as [M|M], (Z.eqb_spec dv (-1)) as [N|N]; cbn [andb mbind option_bind];
    [done| | |];
  (destruct (Z.eqb_spec (Z.rem da dv) 0) as [R|R];
   [|right; split; [done|]; intros _ _ c (C & _); apply R; rewrite <- C; by apply Z.rem_mul]);
  (assert (dv * Z.quot da dv = da) as Q by (pose proof (Z.quot_rem' da dv); lia));
  (assert (∀ c, c * dv = da → c = Z.quot da dv) as U
     by (intros c C; rewrite <- C; by rewrite Z.quot_mul));
  (assert (- 2 ^ 63 <= Z.quot da dv < 2 ^ 63) as HQ by (split; nia));
  (destruct (Z.eqb_spec (Z.quot da dv) 0) as [Z0|Z0]; cbn [negb andb];
   [right; split; [done|]; intros _ _ c (C & C0 & _); apply C0; by rewrite (U c C)|]);
  (destruct (Z.leb_spec (s64 (Z.abs (Z.quot da dv))) 4096) as [L|L];
   [left; exists (Z.quot da dv); split_and!; [done|done| |done];
    split_and!; [lia|done|];
    destruct (decide (Z.quot da dv = - 2 ^ 63)); [by right|left]; rewrite s64_small in L; lia
   |right; split; [done|]; intros _ _ c (C & _ & C1); rewrite (U c C) in C1;
    destruct C1 as [C1|C1]; [rewrite s64_small in L; lia|rewrite C1 in L; done]]).
Qed.

Lemma summarise_affine v a r :
  hasPrevious (summarise v a r) = hasPrevious r ∧
  previousValue (summarise v a r) = previousValue r ∧
  previousAddress (summarise v a r) = previousAddress r ∧
  scale (summarise v a r) = scale r ∧ offset (summarise v a r) = offset r ∧
  trained (summarise v a r) = trained r.
Proof. unfold summarise. by case_match. Qed.

(** What a sample does to the affine part. *)
Lemma train_relation_affine v a r :
  is_u64 v → is_u64 (previousValue r) →
  match train_relation v a r with
  | None => hasPrevious r = true ∧ value_delta v r = -1 ∧ address_delta a r = - 2 ^ 63
  | Some r' =>
      (∃ c, hasPrevious r = true ∧ v ≠ previousValue r ∧
            accepted (value_delta v r) (address_delta a r) c ∧
            trained r' = true ∧ scale r' = c ∧ offset r' = offset (install v a c r)) ∨
      (scale r' = scale r ∧ offset r' = offset r ∧ trained r' = trained r ∧
       (hasPrevious r = true → v ≠ previousValue r →
        ∀ c, ¬ accepted (value_delta v r) (address_delta a r) c))
  end.
Proof.
  intros Hv Hp. destruct (summarise_affine v a r) as (E1 & E2 & E3 & E4 & E5 & E6).
  pose proof (fit_spec v a (summarise v a r)) as F. unfold value_delta, address_delta in *.
  rewrite E1, E2, E3 in F. specialize (F Hv Hp). unfold train_relation.
  destruct (fit v a (summarise v a r)) as [q|]; cbn [mbind option_bind]; [|done].
  destruct F as [(c & F1 & F2 & F3 & ->)|[-> F]]; [left; by exists c|right]. by split_and!.
Qed.

Section affine.
Variables sc b : Z.
Hypothesis sc_nonzero : sc ≠ 0.
Hypothesis sc_bound : Z.abs sc <= 4096.

Definition on_line (x : Z * Z) : Prop := is_u64 x.1 ∧ x.2 = u64 (sc * x.1 + b).

(** The address deltas along the values are representable. *)
Fixpoint no_overflow (v : Z) (xs : list (Z * Z)) : Prop :=
  match xs with
  | [] => True
  | x :: xs => - 2 ^ 63 <= sc * s64 (x.1 - v) < 2 ^ 63 ∧ no_overflow x.1 xs
  end.

(** Some value differs from the one before it. *)
Fixpoint changes (v : Z) (xs : list (Z * Z)) : bool :=
  match xs with
  | [] => false
  | x :: xs => negb (x.1 =? v) || changes x.1 xs
  end.

Definition learned (r : Relation) : Prop :=
  trained r = true → ∀ v, u64 (scale r * v + offset r) = u64 (sc * v + b).

Lemma line_delta v w :
  - 2 ^ 63 <= sc * s64 (w - v) < 2 ^ 63 →
  s64 (u64 (sc * w + b) - u64 (sc * v + b)) = sc * s64 (w - v).
Proof.
  intros H. rewrite <- (s64_small _ H). apply s64_congr.
  destruct (s64_shift (w - v)) as [k ->].
  replace (sc * (w - v + k * 2 ^ 64)) with (sc * w + b - (sc * v + b) + sc * k * 2 ^ 64) by ring.
  rewrite u64_shift, u64_sub_l, u64_sub_r. done.
Qed.

Lemma predicts_line r v :
  is_u64 v → predicts r v (u64 (sc * v + b)) → scale r = sc →
  ∀ w, u64 (scale r * w + offset r) = u64 (sc * w + b).
Proof.
  unfold predicts. intros Hv P E w. rewrite E in *.
  replace (sc * w + offset r) with (sc * (w - v) + (sc * v + offset r)) by ring.
  replace (sc * w + b) with (sc * (w - v) + (sc * v + b)) by ring.
  rewrite <- (u64_add_r _ (sc * v + offset r)), P, u64_add_r. done.
Qed.

Lemma train_line_step x r :
  hasPrevious r = true → is_u64 (previousValue r) →
  previousAddress r = u64 (sc * previousValue r + b) → learned r → on_line x →
  - 2 ^ 63 <= sc * s64 (x.1 - previousValue r) < 2 ^ 63 →
  ∃ r', train_relation x.1 x.2 r = Some r' ∧ learned r' ∧
        trained r' = trained r || negb (x.1 =? previousValue r).
Proof.
  intros Hh Hp Ha L [Hv Hx] Hb. pose proof (train_relation_affine x.1 x.2 r Hv Hp) as T.
  assert (address_delta x.2 r = sc * value_delta x.1 r) as D.
  { unfold address_delta, value_delta. by rewrite Ha, Hx, line_delta. }
  destruct (train_relation x.1 x.2 r) as [r'|]; [|destruct T as (_ & T1 & T2); lia].
  exists r'. split; [done|]. destruct T as [(c & _ & Hne & (C1 & C2 & C3) & T1 & T2 & T3)|(T1 & T2 & T3 & T4)].
  - assert (value_delta x.1 r ≠ 0) as Hd by (intros E; by apply value_delta_0 in E).
    assert (c = sc) as -> by nia. split.
    + intros _. apply (predicts_line r' x.1); [done| |done]. unfold predicts. rewrite T2, T3, <- Hx.
      apply (install_predicts x.1 x.2 sc r); [by rewrite Hx; apply u64_range|
        by rewrite Ha; apply u64_range|lia].
    + rewrite T1. destruct (Z.eqb_spec x.1 (previousValue r)); [done|]. by rewrite orb_true_r.
  - split; [by intros Ht v; rewrite T1, T2; apply L; rewrite <- T3|]. rewrite T3.
    destruct (Z.eqb_spec x.1 (previousValue r)) as [E|E]; [by rewrite orb_false_r|].
    exfalso. apply (T4 Hh E sc). split_and!; [lia|done|by left].
Qed.

Lemma train_line xs r :
  hasPrevious r = true → is_u64 (previousValue r) →
  previousAddress r = u64 (sc * previousValue r + b) → learned r → Forall on_line xs →
  no_overflow (previousValue r) xs →
  ∃ r', train_all xs r = Some r' ∧ learned r' ∧
        trained r' = trained r || changes (previousValue r) xs.
Proof.
  revert r. induction xs as [|x xs IH]; intros r Hh Hp Ha L Hx Hb; cbn.
  { exists r. by rewrite orb_false_r. }
  apply Forall_cons in Hx as [Hx Hxs]. destruct Hb as [Hb Hbs].
  destruct (train_line_step x r) as (q & E & Lq & Tq); [done..|].
  rewrite E. cbn [mbind option_bind].
  pose proof (train_relation_summary _ _ _ _ E) as (_ & _ & _ & _ & _ & Q1 & Q2 & Q3).
  destruct Hx as [Hv Hx]. destruct (IH q) as (r' & E' & L' & T'); [done| | |done..| |].
  - by rewrite Q2.
  - by rewrite Q2, Q3.
  - by rewrite Q2.
  - exists r'. split_and!; [done..|]. by rewrite T', Tq, Q2, orb_assoc.
Qed.
End affine.

(** ** Lemmas: the tables *)

Lemma samples_of_cons k e es :
  samples_of k (e :: es) = if decide (e.1 = k) then e.2 :: samples_of k es else samples_of k es.
Proof. unfold samples_of. rewrite filter_cons. by case_decide. Qed.

Lemma train_event_inv e t t' :
  trainDVRAddressRelation e.1.1 e.1.2 e.2.1 e.2.2 t = Some t' →
  ∃ r, train_relation e.2.1 e.2.2 (default Relation_init (relations t !! e.1)) = Some r ∧
    relations t' = <[e.1 := r]> (relations t) ∧
    triggers t' = <[e.1.1 := if decide (e.1.2 ∈ default [] (triggers t !! e.1.1))
                             then default [] (triggers t !! e.1.1)
                             else default [] (triggers t !! e.1.1) ++ [e.1.2]]> (triggers t) ∧
    dependentLoads t' = {[e.1.2]} ∪ dependentLoads t.
Proof.
  unfold trainDVRAddressRelation. cbn. rewrite <- surjective_pairing.
  destruct (train_relation _ _ _) as [r|]; cbn; [|done]. intros [= <-]. by exists r.
Qed.

(** Each relation is trained on its own samples only. *)
Lemma events_relation es t t' k :
  train_events es t = Some t' →
  relations t' !! k =
    match samples_of k es with
    | [] => relations t !! k
    | xs => train_all xs (default Relation_init (relations t !! k))
    end.
Proof.
  revert t. induction es as [|e es IH]; intros t; cbn [train_events]; [by intros [= ->]|].
  destruct (trainDVRAddressRelation _ _ _ _ t) as [q|] eqn:E; cbn [mbind option_bind]; [|done].
  intros H. rewrite (IH q H), samples_of_cons.
  apply (train_event_inv e) in E as (r & Er & E & _). rewrite E. case_decide as K.
  - subst k. rewrite lookup_insert_eq. cbn [train_all default]. rewrite Er.
    cbn [mbind option_bind]. by destruct (samples_of e.1 es).
  - by rewrite lookup_insert_ne.
Qed.

(** The loads of a trigger: those trained with it, each once. *)
Definition loads_of (t : Tables) (pc : Z) : list Z := default [] (triggers t !! pc).

Lemma events_loads es t t' pc :
  train_events es t = Some t' → NoDup (loads_of t pc) →
  NoDup (loads_of t' pc) ∧
  ∀ flr, flr ∈ loads_of t' pc ↔ flr ∈ loads_of t pc ∨ samples_of (pc, flr) es ≠ [].
Proof.
  revert t. induction es as [|e es IH]; intros t; cbn [train_events].
  { intros [= ->] ?. split; [done|]. intros flr. unfold samples_of. cbn. tauto. }
  destruct (trainDVRAddressRelation _ _ _ _ t) as [q|] eqn:E; cbn [mbind option_bind]; [|done].
  intros H Hnd. apply (train_event_inv e) in E as (r & _ & _ & E & _).
  assert (loads_of q pc = if decide (e.1.1 = pc ∧ e.1.2 ∉ loads_of t pc)
                          then loads_of t pc ++ [e.1.2] else loads_of t pc) as Eq.
  { unfold loads_of. rewrite E. destruct (decide (e.1.1 = pc)) as [<-|].
    - rewrite lookup_insert_eq. cbn. destruct (decide (e.1.2 ∈ _)); case_decide; tauto || done.
    - rewrite lookup_insert_ne by done. rewrite decide_False by tauto. done. }
  assert (NoDup (loads_of q pc)) as Hq.
  { rewrite Eq. case_decide as D; [|done]. apply NoDup_app. split_and!; [done| |apply NoDup_singleton].
    intros x Hx ->%list_elem_of_singleton. tauto. }
  destruct (IH q H Hq) as [H1 H2]. split; [done|]. intros flr.
  rewrite H2, samples_of_cons, Eq. destruct e as [[a b'] x]; cbn [fst snd] in *.
  destruct (decide ((a, b') = (pc, flr))) as [[= -> ->]|N].
  - split; [by right|]. intros _. left. case_decide as D; [apply elem_snoc; by right|].
    destruct (decide (flr ∈ loads_of t pc)); tauto.
  - case_decide as D; [|done]. destruct D as [-> _]. rewrite elem_snoc.
    assert (flr ≠ b') by congruence. tauto.
Qed.

(** The trained relations of a trigger, in order. *)
Definition trained_relation (t : Tables) (pc flr : Z) : option Relation :=
  r ← relations t !! (pc, flr); if trained r then Some r else None.

Definition path_relations (t : Tables) (pc : Z) : list Relation :=
  take MaxRelations (omap (trained_relation t pc) (loads_of t pc)).

(** The arrays hold the relations [rs]. *)
Definition holds (p : Paths) (rs : list Relation) : Prop :=
  relationCount p = length rs ∧ (length rs <= MaxRelations)%nat ∧
  length (masks p) = MaxRelations ∧ length (patterns p) = MaxRelations ∧
  length (scales p) = MaxRelations ∧ length (offsets p) = MaxRelations ∧
  ∀ i r, rs !! i = Some r →
    scales p !!! i = scale r ∧ offsets p !!! i = offset r ∧ masks p !!! i = stableMask r ∧
    patterns p !!! i = Z.land (pattern r) (stableMask r).

Lemma add_path_holds p rs r :
  holds p rs → (length rs < MaxRelations)%nat → holds (add_path r p) (rs ++ [r]).
Proof.
  intros (E & L & L1 & L2 & L3 & L4 & H) Hlt. unfold holds, add_path. cbn.
  rewrite !length_insert, length_app, E. cbn. split_and!; [lia..|].
  intros i q Hq. apply lookup_app_Some in Hq as [Hq|[Hi Hq]].
  - pose proof (lookup_lt_Some _ _ _ Hq). rewrite !lookup_total_insert_ne by lia. by apply H.
  - apply list_lookup_singleton_Some in Hq as [Hi' ->].
    replace i with (length rs) by lia. rewrite !lookup_total_insert_eq by lia. done.
Qed.

Lemma gather_loads_holds t pc loads p rs :
  holds p rs → (length rs < MaxRelations)%nat →
  holds (gather_loads t pc loads p) (take MaxRelations (rs ++ omap (trained_relation t pc) loads)).
Proof.
  revert p rs. induction loads as [|flr loads IH]; intros p rs H Hlt.
  { cbn. rewrite app_nil_r, take_ge by lia. done. }
  cbn [gather_loads omap list_omap]. unfold trained_relation at 1.
  destruct (relations t !! (pc, flr)) as [r|]; cbn [mbind option_bind]; [|by apply IH].
  destruct (trained r); [|by apply IH].
  pose proof (add_path_holds p rs r H Hlt) as H'.
  rewrite cons_middle, (app_assoc rs [r]). cbn zeta. pose proof H' as (E & _).
  rewrite E, length_app. cbn [length].
  destruct (Nat.eqb_spec (length rs + 1) MaxRelations) as [D|D].
  - rewrite take_app_length' by (rewrite length_app; done). done.
  - apply IH; [done|]. rewrite length_app. cbn. lia.
Qed.

Lemma Paths_init_holds : holds Paths_init [].
Proof. split_and!; done || apply Nat.le_0_l. Qed.

Lemma gather_holds t pc : holds (gather t pc) (path_relations t pc).
Proof.
  unfold gather, path_relations, loads_of.
  destruct (triggers t !! pc) as [loads|]; cbn [default id].
  - apply (gather_loads_holds t pc loads Paths_init []); [apply Paths_init_holds|apply Nat.lt_0_succ].
  - apply Paths_init_holds.
Qed.

(** ** Lemmas: the discriminating bits *)

Lemma discriminating_bits n ms ps lhs k :
  0 <= k →
  Z.testbit (discriminating n ms ps lhs) k = true ↔
  ∃ rhs, (rhs < n)%nat ∧ rhs ≠ lhs ∧ Z.testbit (differing ms ps lhs rhs) k = true.
Proof.
  intros Hk. unfold discriminating.
  apply (for_range_rule (λ m d, Z.testbit d k = true ↔
    ∃ rhs, (rhs < m)%nat ∧ rhs ≠ lhs ∧ Z.testbit (differing ms ps lhs rhs) k = true)).
  - rewrite Z.bits_0. split; [done|]. intros (? & ? & _). lia.
  - intros m d _ IH. destruct (Nat.eqb_spec lhs m) as [->|N].
    + rewrite IH. split; intros (j & H1 & H2 & H3); exists j; (split; [lia|done]).
    + rewrite Z.lor_spec, orb_true_iff, IH. split.
      * intros [(j & H1 & H2 & H3)|H]; [exists j; split; [lia|done]|exists m; split_and!; [lia|done|done]].
      * intros (j & H1 & H2 & H3). destruct (decide (j = m)) as [->|]; [by right|left].
        exists j. split; [lia|done].
Qed.

Lemma discriminate_spec p rs lhs r :
  holds p rs → (1 < length rs)%nat → rs !! lhs = Some r →
  relationCount (discriminate p) = length rs ∧ length (masks (discriminate p)) = MaxRelations ∧
  length (patterns (discriminate p)) = MaxRelations ∧
  let d := discriminating (length rs) (masks p) (patterns p) lhs in
  masks (discriminate p) !!! lhs = d ∧
  patterns (discriminate p) !!! lhs = Z.land (patterns p !!! lhs) d.
Proof.
  intros (E & L & L1 & L2 & _ & _ & _) Hn Hr. apply lookup_lt_Some in Hr.
  unfold discriminate. rewrite E. destruct (Nat.ltb_spec 1 (length rs)); [|lia].
  set (d := λ l, discriminating (length rs) (masks p) (patterns p) l).
  pose proof (for_range_rule (λ m q, relationCount q = length rs ∧
    length (masks q) = MaxRelations ∧ length (patterns q) = MaxRelations ∧
    ∀ l, (l < m)%nat → masks q !!! l = d l ∧ patterns q !!! l = Z.land (patterns p !!! l) (d l))
    0 (length rs) (λ l q, q <| masks ::= <[l:=d l]> |>
        <| patterns ::= <[l := Z.land (patterns p !!! l) (d l)]> |>) p) as F.
  destruct F as (F1 & F3 & F4 & F2).
  - split_and!; [done..|]. lia.
  - intros m q Hm (G1 & G2 & G3 & G4). cbn. rewrite !length_insert. split_and!; [done..|].
    intros l Hl. destruct (decide (l = m)) as [->|].
    + rewrite !lookup_total_insert_eq by lia. done.
    + rewrite !lookup_total_insert_ne by done. apply G4. lia.
  - split_and!; [done..| |]; by apply F2.
Qed.

(** ** Lemmas: the selected path *)

(** The loads of the paths of a launch. *)
Definition path_loads (t : Tables) (pc : Z) : list Z :=
  take MaxRelations (filter (λ flr, is_Some (trained_relation t pc flr)) (loads_of t pc)).

Definition values_of (k : Z * Z) (es : list ((Z * Z) * (Z * Z))) : list Z := (samples_of k es).*1.

(** [v] has the bits all of [vs] share. *)
Definition follows (v : Z) (vs : list Z) : Prop :=
  ∀ n w, 0 <= n < 64 → same_bit vs n → w ∈ vs → Z.testbit v n = Z.testbit w n.

(** [vs] and [ws] differ in a bit each of them shares. *)
Definition separated (vs ws : list Z) : Prop :=
  ∃ n, 0 <= n < 64 ∧ same_bit vs n ∧ same_bit ws n ∧
       ∀ v w, v ∈ vs → w ∈ ws → Z.testbit v n ≠ Z.testbit w n.

Definition event_ok (e : (Z * Z) * (Z * Z)) : Prop := sample_ok e.2.

Lemma path_relations_loads t pc :
  path_relations t pc = omap (trained_relation t pc) (path_loads t pc).
Proof.
  unfold path_relations, path_loads. generalize MaxRelations as m.
  induction (loads_of t pc) as [|flr loads IH]; intros m; cbn [omap list_omap].
  { by rewrite filter_nil, !take_nil. }
  rewrite filter_cons. destruct (trained_relation t pc flr) as [r|] eqn:E.
  - rewrite decide_True by done. destruct m as [|m]; [done|]. cbn. by rewrite E, IH.
  - rewrite decide_False by (by intros [??]). apply IH.
Qed.

Lemma path_relations_lookup t pc i flr :
  path_loads t pc !! i = Some flr →
  ∃ r, trained_relation t pc flr = Some r ∧ path_relations t pc !! i = Some r.
Proof.
  rewrite path_relations_loads. intros H.
  assert (Forall (λ f, is_Some (trained_relation t pc f)) (path_loads t pc)) as Hf.
  { apply Forall_take, Forall_forall. by intros f [??]%list_elem_of_filter. }
  revert i H. induction Hf as [|f fs [r E] Hf IH]; intros i H; [done|].
  cbn [omap list_omap]. rewrite E. destruct i as [|i]; cbn in *; [|by apply IH].
  injection H as ->. by exists r.
Qed.

Lemma path_relations_length t pc : length (path_relations t pc) = length (path_loads t pc).
Proof.
  rewrite path_relations_loads.
  assert (Forall (λ f, is_Some (trained_relation t pc f)) (path_loads t pc)) as Hf.
  { apply Forall_take, Forall_forall. by intros f [??]%list_elem_of_filter. }
  induction Hf as [|f fs [r E] Hf IH]; [done|]. cbn [omap list_omap]. rewrite E. cbn. by rewrite IH.
Qed.

Lemma samples_of_ok k es :
  Forall event_ok es → Forall sample_ok (samples_of k es).
Proof.
  intros H. unfold samples_of. apply Forall_fmap, Forall_forall.
  intros e [_ He]%list_elem_of_filter. rewrite Forall_forall in H. by apply H.
Qed.

Lemma samples_of_length k es : (length (samples_of k es) <= length es)%nat.
Proof. unfold samples_of. rewrite length_fmap. apply length_filter. Qed.

(** A trained relation is the summary of its samples. *)
Lemma trained_summary es t pc flr r :
  Forall event_ok es → Z.of_nat (length es) < 2 ^ 32 → train_events es Tables_init = Some t →
  trained_relation t pc flr = Some r →
  samples_of (pc, flr) es ≠ [] ∧ summary (samples_of (pc, flr) es) r.
Proof.
  intros Hok Hlen H Hr. unfold trained_relation in Hr.
  rewrite (events_relation es _ _ (pc, flr) H) in Hr. cbn [relations Tables_init] in Hr.
  rewrite lookup_empty in Hr. cbn [default] in Hr.
  pose proof (samples_of_ok (pc, flr) es Hok) as Hs. pose proof (samples_of_length (pc, flr) es).
  destruct (samples_of (pc, flr) es) as [|x xs]; [done|].
  destruct (train_all (x :: xs) Relation_init) as [q|] eqn:E; cbn [mbind option_bind] in Hr; [|done].
  destruct (trained q); [|done]. injection Hr as ->.
  split; [done|]. apply train_all_summary; done || lia.
Qed.

Lemma summary_stable xs r v :
  xs ≠ [] → summary xs r → follows v xs.*1 → Z.land v (stableMask r) = pattern r.
Proof.
  intros Hne S Hv. destruct xs as [|x xs]; [done|].
  assert (x.1 ∈ (x :: xs).*1) as Hx by (cbn; by left).
  rewrite <- (sm_pattern _ _ S x.1 Hx). apply Z.bits_inj'. intros n Hn. rewrite !Z.land_spec.
  destruct (Z.testbit (stableMask r) n) eqn:M; [|by rewrite !andb_false_r].
  apply (sm_mask _ _ S n Hn) in M as [Hn' M]. by rewrite (Hv n x.1) by (done || lia).
Qed.

(** The bit that separates two training sets is stable in both relations and differs. *)
Lemma separated_bit xs ys r q n x y :
  summary xs r → summary ys q → x ∈ xs.*1 → y ∈ ys.*1 → 0 <= n < 64 → same_bit xs.*1 n →
  same_bit ys.*1 n →
  Z.testbit (stableMask r) n = true ∧ Z.testbit (pattern r) n = Z.testbit x n ∧
  Z.testbit (stableMask q) n = true ∧ Z.testbit (pattern q) n = Z.testbit y n.
Proof.
  intros S1 S2 Hx Hy Hn H1 H2.
  assert (Z.testbit (stableMask r) n = true) as M1 by (apply (sm_mask _ _ S1); [lia|split; [lia|done]]).
  assert (Z.testbit (stableMask q) n = true) as M2 by (apply (sm_mask _ _ S2); [lia|split; [lia|done]]).
  rewrite <- (sm_pattern _ _ S1 x Hx), <- (sm_pattern _ _ S2 y Hy), !Z.land_spec, M1, M2.
  by rewrite !andb_true_r.
Qed.


(** A launch with relations [rs] on at least two loads. *)
Section launch.
Context (es : list ((Z * Z) * (Z * Z))) (t : Tables) (pc : Z).
Hypothesis events_good : Forall event_ok es.
Hypothesis few_events : Z.of_nat (length es) < 2 ^ 32.
Hypothesis trained_tables : train_events es Tables_init = Some t.
Hypothesis several : (1 < length (path_loads t pc))%nat.

Definition path_values (i : nat) : list Z := values_of (pc, path_loads t pc !!! i) es.

Lemma path_summary i :
  (i < length (path_loads t pc))%nat →
  ∃ r x, path_relations t pc !! i = Some r ∧ x ∈ path_values i ∧
    summary (samples_of (pc, path_loads t pc !!! i) es) r ∧
    samples_of (pc, path_loads t pc !!! i) es ≠ [].
Proof.
  intros Hi. destruct (lookup_lt_is_Some_2 _ _ Hi) as [flr Hf].
  destruct (path_relations_lookup t pc i flr Hf) as (r & Hr & E).
  unfold path_values. rewrite (list_lookup_total_correct _ _ _ Hf).
  destruct (trained_summary es t pc flr r) as [Hne S]; [done..|]. unfold values_of.
  destruct (samples_of (pc, flr) es) as [|x xs]; [done|]. exists r, x.1. split_and!; [done| |done..].
  cbn. by left.
Qed.

Lemma launch_masks i r :
  path_relations t pc !! i = Some r →
  let d := masks (launch_paths t pc) !!! i in
  patterns (launch_paths t pc) !!! i = Z.land (Z.land (pattern r) (stableMask r)) d ∧
  ∀ n, 0 <= n → Z.testbit d n = true ↔
    ∃ j q, path_relations t pc !! j = Some q ∧ j ≠ i ∧
      Z.testbit (stableMask r) n = true ∧ Z.testbit (stableMask q) n = true ∧
      Z.testbit (pattern r) n ≠ Z.testbit (pattern q) n.
Proof.
  intros Hr. pose proof (gather_holds t pc) as G.
  pose proof (path_relations_length t pc) as L.
  destruct (discriminate_spec _ _ i r G ltac:(lia) Hr) as (_ & _ & _ & D1 & D2).
  unfold launch_paths. cbn zeta. rewrite D1, D2. destruct G as (_ & _ & _ & _ & _ & _ & G).
  destruct (G i r Hr) as (_ & _ & G1 & G2). rewrite G2. split; [done|].
  intros n Hn. rewrite discriminating_bits by done. split.
  - intros (j & Hj & Hne & H). destruct (lookup_lt_is_Some_2 _ _ Hj) as [q Hq].
    exists j, q. destruct (G j q Hq) as (_ & _ & G3 & G4). unfold differing in H.
    rewrite G1, G2, G3, G4, !Z.land_spec, Z.lxor_spec, !Z.land_spec in H.
    apply andb_true_iff in H as [[H1 H2]%andb_true_iff H3]. rewrite H1, H2 in *.
    rewrite !andb_true_r in H3. split_and!; [done..|]. intros E. by rewrite E, xorb_nilpotent in H3.
  - intros (j & q & Hq & Hne & H1 & H2 & H3). exists j.
    split_and!; [by apply lookup_lt_Some in Hq|done|]. destruct (G j q Hq) as (_ & _ & G3 & G4).
    unfold differing. rewrite G1, G2, G3, G4, !Z.land_spec, Z.lxor_spec, !Z.land_spec, H1, H2. cbn.
    rewrite !andb_true_r. destruct (Z.testbit (pattern r) n), (Z.testbit (pattern q) n); done.
Qed.

(** Matching a path of the launch. *)
Definition path_match (v : Z) (i : nat) : bool :=
  negb (masks (launch_paths t pc) !!! i =? 0) &&
  (Z.land v (masks (launch_paths t pc) !!! i) =? patterns (launch_paths t pc) !!! i).

Lemma own_path_matches v i :
  (i < length (path_loads t pc))%nat → follows v (path_values i) →
  (∀ j, (j < length (path_loads t pc))%nat → j ≠ i → separated (path_values i) (path_values j)) →
  path_match v i = true.
Proof.
  intros Hi Hv Hsep. destruct (path_summary i Hi) as (r & x & Hr & Hx & S & Hne).
  destruct (launch_masks i r Hr) as [D1 D2]. cbn zeta in D2. unfold path_match. apply andb_true_iff. split.
  - assert (∃ j, (j < length (path_loads t pc))%nat ∧ j ≠ i) as (j & Hj & Hji).
    { destruct i; [exists 1%nat|exists 0%nat]; lia. }
    destruct (path_summary j Hj) as (q & y & Hq & Hy & Sq & _).
    destruct (Hsep j Hj Hji) as (n & Hn & B1 & B2 & B3).
    destruct (separated_bit _ _ _ _ n x y S Sq Hx Hy Hn B1 B2) as (M1 & P1 & M2 & P2).
    apply negb_true_iff, Z.eqb_neq. intros E.
    assert (Z.testbit (masks (launch_paths t pc) !!! i) n = true) as C.
    { apply D2; [lia|]. exists j, q. split_and!; [done..|]. rewrite P1, P2. by apply B3. }
    by rewrite E, Z.bits_0 in C.
  - apply Z.eqb_eq. rewrite D1, <- (summary_stable _ r v Hne S Hv). apply Z.bits_inj'.
    intros n Hn. rewrite !Z.land_spec.
    destruct (Z.testbit (masks (launch_paths t pc) !!! i) n) eqn:M; [|by rewrite !andb_false_r].
    apply (D2 n Hn) in M as (_ & _ & _ & _ & M & _). rewrite M. by rewrite !andb_true_r.
Qed.

Lemma other_path_differs v i j :
  (i < length (path_loads t pc))%nat → (j < length (path_loads t pc))%nat → j ≠ i →
  follows v (path_values i) → separated (path_values i) (path_values j) →
  path_match v j = false.
Proof.
  intros Hi Hj Hji Hv (n & Hn & B1 & B2 & B3).
  destruct (path_summary i Hi) as (r & x & Hr & Hx & S & Hne).
  destruct (path_summary j Hj) as (q & y & Hq & Hy & Sq & _).
  destruct (separated_bit _ _ _ _ n x y S Sq Hx Hy Hn B1 B2) as (M1 & P1 & M2 & P2).
  destruct (launch_masks j q Hq) as [D1 D2]. cbn zeta in D2. unfold path_match.
  apply andb_false_iff. right. apply Z.eqb_neq. intros E.
  assert (Z.testbit (masks (launch_paths t pc) !!! j) n = true) as C.
  { apply D2; [lia|]. exists i, r. split_and!; [done..|]. rewrite P1, P2. intros F. by apply (B3 x y). }
  apply (f_equal (λ z, Z.testbit z n)) in E. rewrite D1, !Z.land_spec, C, M2, P2, !andb_true_r in E.
  rewrite (Hv n x) in E by done. by apply (B3 x y).
Qed.

Lemma launch_tracker_spec lanes t0 :
  ∃ tr, launch_tracker t pc lanes t0 = Some tr ∧
    Predicate.paths tr = length (path_loads t pc) ∧ Predicate.shape tr ∧
    (∀ l, Predicate.lane_state tr l None) ∧ Predicate.lanes tr = Nat.min lanes 128 ∧
    ∀ v i, (i < length (path_loads t pc))%nat → Predicate.path_matches tr v i = path_match v i.
Proof.
  pose proof (gather_holds t pc) as G. pose proof (path_relations_length t pc) as L.
  destruct (lookup_lt_is_Some_2 (path_relations t pc) 0) as [r0 Hr0]; [lia|].
  destruct (discriminate_spec _ _ 0 r0 G ltac:(lia) Hr0) as (C & L1 & L2 & _).
  fold (launch_paths t pc) in C, L1, L2. unfold launch_tracker. rewrite C.
  assert (length (path_relations t pc) <= 4)%nat as Hle by (destruct G as (_ & ? & _); done).
  destruct (Nat.ltb_spec 1 (length (path_relations t pc))); [|lia]. eexists. split; [done|].
  destruct (Predicate.begin_state lanes (length (path_relations t pc)) (masks (launch_paths t pc))
    (patterns (launch_paths t pc)) t0 0) as [Hsh _].
  destruct (Predicate.begin_fields lanes (length (path_relations t pc)) (masks (launch_paths t pc))
    (patterns (launch_paths t pc)) t0) as (F1 & F2 & _).
  assert (Nat.min (length (path_relations t pc)) Predicate.MaxPaths = length (path_loads t pc)) as Hm.
  { rewrite L in *. apply Nat.min_l. exact Hle. }
  split_and!; [by rewrite F2|done| |done|].
  - intros l. apply Predicate.begin_state.
  - intros v i Hi. unfold Predicate.path_matches, path_match.
    rewrite Predicate.begin_patterns by (done || lia). rewrite F2, Hm.
    destruct (Nat.ltb_spec 1 (length (path_loads t pc))); [|lia].
    cbn [Predicate.masks Predicate.begin andb]. f_equal. f_equal.
    destruct (path_summary i Hi) as (r & _ & Hr & _). destruct (launch_masks i r Hr) as [D1 _].
    change (Predicate.masks _ !!! i) with (masks (launch_paths t pc) !!! i).
    rewrite D1, <- Z.land_assoc, Z.land_diag. done.
Qed.
End launch.


(** ** Theorems *)

(** A trained relation summarises its samples exactly.
    After any samples (fewer than 2^32, so that the sample counter has not wrapped), the address
    range is the exact range of the addresses, a bit is in the stable mask exactly when every
    sampled value has the same bit there, the pattern is what every sampled value has under the
    mask, and the count is the number of samples. *)
Theorem relation_summary (xs : list (Z * Z)) (r : Relation)
  (Hne : xs ≠ []) (Hlen : Z.of_nat (length xs) < 2 ^ 32) (Hok : Forall sample_ok xs)
  (Hr : train_all xs Relation_init = Some r) :
  (∀ a, a ∈ xs.*2 → minAddress r <= a <= maxAddress r) ∧
  minAddress r ∈ xs.*2 ∧ maxAddress r ∈ xs.*2 ∧
  (∀ n, 0 <= n → Z.testbit (stableMask r) n = true ↔ n < 64 ∧ same_bit xs.*1 n) ∧
  (∀ v, v ∈ xs.*1 → Z.land v (stableMask r) = pattern r) ∧
  samples r = Z.of_nat (length xs).
Proof.
  pose proof (train_all_summary xs r Hne Hlen Hok Hr) as S.
  destruct (sm_attained _ _ S Hne) as [H1 H2].
  split_and!; [apply S|done|done|apply S|apply S|apply S].
Qed.

Definition sample_stream : list (Z * Z) := [(0x1000, 0x2005); (0x1008, 0x2015); (0x1010, 0x2025)].

Definition sample_relation : Relation := default Relation_init (train_all sample_stream Relation_init).

Lemma sample_stream_ok :
  train_all sample_stream Relation_init = Some sample_relation ∧ Forall sample_ok sample_stream.
Proof. split; [by vm_compute|]. repeat constructor; by vm_compute. Qed.

Lemma relation_summary_witness :
  minAddress sample_relation ∈ sample_stream.*2 ∧
  (∀ v, v ∈ sample_stream.*1 → Z.land v (stableMask sample_relation) = pattern sample_relation).
Proof.
  destruct (relation_summary sample_stream sample_relation ltac:(discriminate) ltac:(reflexivity)
    (proj2 sample_stream_ok) (proj1 sample_stream_ok)) as (_ & H1 & _ & _ & H2 & _).
  split; [exact H1|exact H2].
Defined.

(** An affine dependence is learned from any stream of its samples.
    If every address is [sc * value + b] modulo 2^64 with a nonzero scale of at most 4096 in
    absolute value, and the address deltas along the stream are representable, then training
    never traps, the relation is trained as soon as some value differs from the one before it
    and not earlier, and from then on it predicts the address of every value, sampled or not. *)
Theorem affine_learned (sc b : Z) (x : Z * Z) (xs : list (Z * Z))
  (Hsc : sc ≠ 0) (Hbound : Z.abs sc <= 4096) (Hline : Forall (on_line sc b) (x :: xs))
  (Hover : no_overflow sc x.1 xs) :
  ∃ r, train_all (x :: xs) Relation_init = Some r ∧ trained r = changes x.1 xs ∧
       (trained r = true → ∀ v, u64 (scale r * v + offset r) = u64 (sc * v + b)).
Proof.
  apply Forall_cons in Hline as [[Hv Hx] Hxs]. cbn [train_all].
  assert (is_u64 (previousValue Relation_init)) as H0 by done.
  pose proof (train_relation_affine x.1 x.2 Relation_init Hv H0) as T.
  destruct (train_relation x.1 x.2 Relation_init) as [q|] eqn:E; [|by destruct T].
  apply train_relation_summary in E as (_ & _ & _ & _ & _ & Q1 & Q2 & Q3).
  destruct T as [(c & Hh & _)|(T1 & T2 & T3 & _)]; [done|]. cbn [mbind option_bind].
  destruct (train_line sc b Hsc Hbound xs q) as (r & E & L & T);
    [done|by rewrite Q2|by rewrite Q2, Q3|by intros H; rewrite T3 in H|done|by rewrite Q2|].
  exists r. split_and!; [done| |exact L]. by rewrite T, T3, Q2.
Qed.

Lemma sample_stream_line :
  Forall (on_line 2 5) sample_stream ∧ no_overflow 2 0x1000 (tail sample_stream).
Proof. split; [repeat constructor; by vm_compute|cbn; by vm_compute]. Qed.

Lemma affine_learned_witness :
  ∃ r, train_all sample_stream Relation_init = Some r ∧ trained r = true ∧
    u64 (scale r * 0x9000 + offset r) = u64 (2 * 0x9000 + 5).
Proof.
  destruct (affine_learned 2 5 (0x1000, 0x2005) (tail sample_stream) ltac:(discriminate)
    ltac:(discriminate) (proj1 sample_stream_line) (proj2 sample_stream_line)) as (r & H1 & H2 & H3).
  exists r. split; [exact H1|]. assert (trained r = true) as H4 by (rewrite H2; vm_compute; reflexivity).
  split; [exact H4|]. exact (H3 H4 0x9000).
Defined.

(** C27: The launch's predicate paths tell the loads of a trigger apart.  Take the tables after fewer than
    2^32 training events (on 64-bit values and addresses, no division trapping), and a trigger with at least two trained
    loads.  The launch makes a path for the first four of them in the order of the table; a fifth has
    none, and nothing is claimed of it.  If the values sampled for one of these four share, against each of
    the others, a bit on which the two sets of values are constant and differ, then whenever the
    first value a lane receives has the bits that load's values share, the lane predicate tracker
    selects exactly that load's path for the lane, whatever the other lanes receive. *)
Theorem launch_selects (es : list ((Z * Z) * (Z * Z))) (t : Tables) (pc : Z) (lanes lane i : nat)
  (t0 : Predicate.Tracker) (xs : list (nat * Z)) (v : Z)
  (Hes : Forall event_ok es) (Hlen : Z.of_nat (length es) < 2 ^ 32)
  (Ht : train_events es Tables_init = Some t) (Hseveral : (1 < length (path_loads t pc))%nat)
  (Hi : (i < length (path_loads t pc))%nat) (Hlane : (lane < Nat.min lanes 128)%nat)
  (Hfirst : Predicate.first_value lane xs = Some v) (Hv : follows v (path_values es t pc i))
  (Hsep : ∀ j, (j < length (path_loads t pc))%nat → j ≠ i →
     separated (path_values es t pc i) (path_values es t pc j)) :
  ∃ tr, launch_tracker t pc lanes t0 = Some tr ∧
    ∀ p, (p < 4)%nat →
      mask_test (Predicate.pathMask p (Predicate.observe_all tr xs)) lane = true ↔ p = i.
Proof.
  destruct (launch_tracker_spec es t pc Hes Hlen Ht Hseveral lanes t0)
    as (tr & E & P & Hsh & Hst & L & M).
  exists tr. split; [done|]. intros p Hp.
  destruct (Predicate.observe_all_state xs tr lane None Hsh ltac:(unfold Predicate.MaxLanes; lia)
    (Hst lane) ltac:(done)) as (_ & S & H). rewrite L in H.
  destruct (Nat.ltb_spec lane (Nat.min lanes 128)); [|lia]. rewrite Hfirst in H.
  destruct H as (_ & H & _). rewrite H, Predicate.same_paths_selects by done.
  assert (Predicate.path_matches tr v i = true) as Own.
  { rewrite M by done. by apply own_path_matches with (es := es). }
  unfold Predicate.selects. rewrite P. split.
  - intros (Q1 & Q2 & Q3). symmetry. by apply Q3.
  - intros ->. split_and!; [done..|]. intros q Hq Hm.
    destruct (decide (q = i)) as [|N]; [done|]. rewrite M in Hm by done.
    rewrite (other_path_differs es t pc Hes Hlen Ht Hseveral v i q) in Hm; [done|done..|].
    by apply Hsep.
Qed.


(** Two loads of one trigger, told apart by the bits 12 and 13 of the value. *)
Definition two_loads : list ((Z * Z) * (Z * Z)) :=
  [((10, 100), (0x1000, 0x2005)); ((10, 200), (0x2000, 0x9000)); ((10, 100), (0x1008, 0x2015));
   ((10, 200), (0x2010, 0x9040)); ((10, 100), (0x1010, 0x2025))].

Definition two_tables : Tables := default Tables_init (train_events two_loads Tables_init).

Lemma two_loads_trained :
  train_events two_loads Tables_init = Some two_tables ∧ path_loads two_tables 10 = [100; 200] ∧
  path_values two_loads two_tables 10 0 = [0x1000; 0x1008; 0x1010] ∧
  path_values two_loads two_tables 10 1 = [0x2000; 0x2010] ∧ Forall event_ok two_loads.
Proof. split_and!; [by vm_compute..|]. repeat constructor; by vm_compute. Qed.

Lemma two_loads_follow : follows 0x1018 (path_values two_loads two_tables 10 0).
Proof.
  destruct two_loads_trained as (_ & _ & -> & _). intros n w Hn Hs Hw.
  assert (Z.testbit 0x1000 n = Z.testbit 0x1008 n ∧ Z.testbit 0x1000 n = Z.testbit 0x1010 n) as [H1 H2].
  { split; apply Hs; rewrite !elem_of_cons; tauto. }
  rewrite (Hs w 0x1000 Hw) by (rewrite elem_of_cons; tauto). revert H1 H2.
  pose proof (all_below_spec 64 (λ n,
    implb (eqb (Z.testbit 0x1000 n) (Z.testbit 0x1008 n) && eqb (Z.testbit 0x1000 n) (Z.testbit 0x1010 n))
      (eqb (Z.testbit 0x1018 n) (Z.testbit 0x1000 n))) ltac:(vm_compute; reflexivity) n Hn) as H.
  cbn beta in H. destruct (Z.testbit 0x1018 n), (Z.testbit 0x1000 n), (Z.testbit 0x1008 n),
    (Z.testbit 0x1010 n); done.
Qed.

Lemma two_loads_separated j :
  (j < 2)%nat → j ≠ 0%nat →
  separated (path_values two_loads two_tables 10 0) (path_values two_loads two_tables 10 j).
Proof.
  intros Hj Hne. replace j with 1%nat by lia. destruct two_loads_trained as (_ & _ & -> & -> & _).
  exists 12. split_and!; [done|done| | |]; intros x y Hx Hy;
    repeat match goal with H : _ ∈ _ |- _ =>
      first [apply list_elem_of_singleton in H|apply elem_of_cons in H as [H|H]] end;
    subst; by vm_compute.
Qed.

Lemma launch_selects_witness :
  ∃ tr, launch_tracker two_tables 10 8 (Predicate.reset (Predicate.mkTracker 0 0 [] [] [] mask_empty mask_empty)) = Some tr ∧
    mask_test (Predicate.pathMask 0 (Predicate.observe_all tr [(5%nat, 0x2000); (3%nat, 0x1018)])) 3 = true.
Proof.
  destruct two_loads_trained as (H1 & H2 & _ & _ & H3).
  assert (length (path_loads two_tables 10) = 2%nat) as Hlen by (rewrite H2; reflexivity).
  destruct (launch_selects two_loads two_tables 10 8 3 0
    (Predicate.reset (Predicate.mkTracker 0 0 [] [] [] mask_empty mask_empty))
    [(5%nat, 0x2000); (3%nat, 0x1018)] 0x1018 H3 eq_refl H1) as (tr & E & H).
  - rewrite Hlen. lia.
  - rewrite Hlen. lia.
  - cbn. lia.
  - reflexivity.
  - exact two_loads_follow.
  - rewrite Hlen. exact two_loads_separated.
  - exists tr. split; [exact E|]. apply (H 0%nat); [lia|reflexivity].
Defined.

(** The bound on the scale misses the least integer, whose absolute value wraps to itself; and
    the remainder by -1 traps on it. *)
Lemma extreme_scale_accepted :
  (∃ r, train_all [(0, 0); (1, 2 ^ 63)] Relation_init = Some r ∧ trained r = true ∧
        scale r = - 2 ^ 63) ∧
  train_all [(1, 0); (0, 2 ^ 63)] Relation_init = None.
Proof. split; [eexists; split_and!; vm_compute; reflexivity|by vm_compute]. Qed.

End Relation.
