(* ===== verification/AltPath.v ===== *)
(** * The alternate-path cache

    Model of [CPU::recordDVRAlternatePaths] and [CPU::augmentDVRAlternatePaths]
    (src/cpu/o3/cpu.cc) with the cache of cpu.hh.  A completed discovery publishes, for each
    tainted forward branch, the uops its recorder captured between the branch and its
    reconvergence point; a later discovery that took the other direction appends them to its
    own template.

    The order in which an unordered map is iterated is left open: it is the argument [order]
    of [augmentDVRAlternatePaths], any permutation of the entries. *)

From S2P Require Import Prelude Inst Uop Recorder.

Module AltPath.
Import Uop Recorder.

(** [struct DVRAlternatePathKey]: branch, target, reconvergence, address space. *)
Definition Key : Type := Z * Z * Z * Z.

(** [struct DVRAlternatePath]; its [codeVersion] is always 0. *)
Record Path := mkPath { puops : list Uop;  liveInRegisters : Z;  complete : bool }.

#[export] Instance eta_Path : Eta Path := λ p, mkPath (puops p) (liveInRegisters p) (complete p).

Definition Cache : Type := gmap Key Path.

(** The lambdas [near] and [cache_reconvergence]: an immediate successor is no stable join. *)
Definition near (lhs rhs : Z) : bool :=
  negb (lhs =? 0) && negb (rhs =? 0) &&
  ((if rhs <=? lhs then lhs - rhs else rhs - lhs) <=? 4).

Definition cache_reconvergence (u : Uop) : Z :=
  if near (reconvergencePC u) (branchTargetPC u) || near (reconvergencePC u) (fallthroughPC u)
  then 0 else reconvergencePC u.

Definition marked (u : Uop) : Uop := u <| alternatePath := true |>.

(** A backward conditional closes a loop. *)
Definition backward (u : Uop) : bool :=
  negb (branchTargetPC u =? 0) && (branchTargetPC u <? Uop.pc u).

Definition direct_jump (u : Uop) : bool :=
  control u && negb (conditional u) && negb (branchTargetPC u =? 0).

(** ** Recording *)

(** The path under construction, with the registers it has defined. *)
Record Build := mkBuild { built : list Uop;  live : Z;  defined : Z }.

#[export] Instance eta_Build : Eta Build := λ b, mkBuild (built b) (live b) (defined b).

(** Union of the source masks of the slots [lo .. lo + n). *)
Definition sources_from (r : Recorder) (lo n : nat) : Z :=
  for_range lo n (λ k w, Z.lor w (intSources (uop_at r k))) 0.

Section scan.
Variables (cache : Cache) (r : Recorder) (branch path_end : nat).
Variables (reconvergence address_space_id live_out : Z).

(** The lambda [captured_pc]. *)
Definition captured_pc (b : Build) (a : Z) : bool :=
  (a =? reconvergence)
  || bool_decide (is_Some (find_from (S branch) (path_end - S branch)
                             (λ k, Uop.pc (uop_at r k) =? a)))
  || existsb (λ u, Uop.pc u =? a) (built b).

(** Append a uop with its uses and definitions. *)
Definition push_uop (u : Uop) (b : Build) : Build :=
  b <| live := Z.lor (live b) (Z.land (intSources u) (Z.lnot (defined b))) |>
    <| defined ::= λ d, Z.lor d (intDestinations u) |> <| built ::= λ us, us ++ [marked u] |>.

(** The lambda [append_cached_target]. *)
Definition append_cached_target (branch_pc target : Z) (b : Build) : Build * bool :=
  if (target =? 0) || captured_pc b target then (b, negb (target =? 0))
  else match cache !! (branch_pc, target, reconvergence, address_space_id) with
  | None => (b, false)
  | Some nested =>
      if negb (complete nested) || (length (puops nested) =? 0)%nat
         || (MaxUops <? length (built b) + length (puops nested))%nat
      then (b, false)
      else
        let b := b <| live := Z.lor (live b)
                        (Z.land (liveInRegisters nested) (Z.lnot (defined b))) |> in
        let b := foldl (λ b u, b <| defined ::= λ d, Z.lor d (intDestinations u) |>
                                 <| built ::= λ us, us ++ [marked u] |>) b (puops nested) in
        (b, captured_pc b target)
  end.

(** Whether an unsupported uop writes a register read later in the path. *)
Definition writes_live_value (u : Uop) (index : nat) : bool :=
  negb (intDestinations u =? 0) &&
  bool_decide (is_Some (find_from (S index) (path_end - S index)
    (λ later, negb (Z.land (intDestinations u) (intSources (uop_at r later)) =? 0)))).

(** A nested conditional needs both of its successors. *)
Definition scan_branch (u : Uop) (b : Build) : option Build :=
  let '(b, target_ok) := append_cached_target (Uop.pc u) (branchTargetPC u) (push_uop u b) in
  let '(b, fallthrough_ok) := append_cached_target (Uop.pc u) (fallthroughPC u) b in
  if negb target_ok || negb fallthrough_ok then None else Some b.

(** One uop of the path; [None] rejects the path. *)
Definition scan_uop (index : nat) (b : Build) : option Build :=
  let u := uop_at r index in
  if direct_jump u && captured_pc b (branchTargetPC u)
  then Some (b <| built ::= λ us, us ++ [marked u] |>)
  else if bool_decide (semantic u = Unsupported) then
    if control u || writes_live_value u index || negb (Z.land (intDestinations u) live_out =? 0)
    then None else Some b
  else if control u && conditional u then scan_branch u b
  else Some (push_uop u b).

(** The loop over the path. *)
Fixpoint scan (n index : nat) (b : Build) : option Build :=
  match n with
  | O => Some b
  | S n => b ← scan_uop index b; scan n (S index) b
  end.
End scan.

(** The path of the branch at [branch] when it is complete. *)
Definition build_path (cache : Cache) (r : Recorder) (branch : nat) (address_space_id : Z)
  : option Path :=
  let reconvergence := reconvergencePC (uop_at r branch) in
  let stop := default (count r) (find_from (S branch) (count r - S branch)
                                   (λ k, Uop.pc (uop_at r k) =? reconvergence)) in
  if (stop <? count r)%nat && (S branch <? stop)%nat then
    let boundary_load := load (uop_at r stop) in
    let path_end := if boundary_load then S stop else stop in
    let alternate_resume := if boundary_load && (path_end <? count r)%nat
                            then Uop.pc (uop_at r path_end) else 0 in
    let live_out := sources_from r stop (count r - stop) in
    b ← scan cache r branch path_end reconvergence address_space_id live_out
          (path_end - S branch) (S branch) (mkBuild [] 0 0);
    match last (built b) with
    | None => None
    | Some u =>
        Some (mkPath (take (length (built b) - 1) (built b) ++
                        [u <| alternateResumePC := alternate_resume |>]) (live b) true)
    end
  else None.

(** The direction taken, and the other one. *)
Definition taken_target (u : Uop) : Z := if branchTaken u then branchTargetPC u else fallthroughPC u.
Definition alternate_target (u : Uop) : Z :=
  if branchTaken u then fallthroughPC u else branchTargetPC u.

Definition path_key (u : Uop) (target address_space_id : Z) : Key :=
  (Uop.pc u, target, cache_reconvergence u, address_space_id).

(** The body of the loop over the branches. *)
Definition record_branch (r : Recorder) (address_space_id : Z) (branch : nat) (cache : Cache)
  : Cache :=
  let op := uop_at r branch in
  if negb (conditional op) || negb (tainted op) then cache
  else if backward op then cache
  else if (Uop.pc op =? 0) || (taken_target op =? 0) || (reconvergencePC op =? 0) then cache
  else match build_path cache r branch address_space_id with
  | None => cache
  | Some path =>
      let key := path_key op (taken_target op) address_space_id in
      match cache !! key with
      | None => <[key := path]> cache
      | Some existing => if negb (complete existing) then <[key := path]> cache else cache
      end
  end.

(** [recordDVRAlternatePaths] *)
Definition recordDVRAlternatePaths (r : Recorder) (address_space_id : Z) (cache : Cache) : Cache :=
  for_range 0 (count r) (record_branch r address_space_id) cache.

(** ** Augmenting *)

(** The occurrences of tainted branches. *)
Definition branch_occurrences (r : Recorder) : list (nat * Uop) :=
  omap (λ k, if conditional (uop_at r k) && tainted (uop_at r k) then Some (k, uop_at r k) else None)
    (seq 0 (count r)).

(** The scan for the alternate target before the reconvergence point. *)
Fixpoint target_before (r : Recorder) (target reconvergence : Z) (n index : nat) : bool :=
  match n with
  | O => false
  | S n =>
      if Uop.pc (uop_at r index) =? reconvergence then false
      else if Uop.pc (uop_at r index) =? target then true
      else target_before r target reconvergence n (S index)
  end.

(** The cache lookup: the exact key, or any complete path of the same branch and target. *)
Definition lookup_path (order : list (Key * Path)) (cache : Cache) (u : Uop)
    (target address_space_id : Z) : option Path :=
  match cache !! path_key u target address_space_id with
  | Some p => Some p
  | None =>
      match list_find (λ e, e.1.1.1.1 = Uop.pc u ∧ e.1.1.1.2 = target ∧
                            e.1.2 = address_space_id ∧ complete e.2 = true) order with
      | Some (_, e) => Some e.2
      | None => None
      end
  end.

(** The live-in check against the size of the register snapshot. *)
Definition live_in_valid (path : Path) (initial_regs : list Z) : bool :=
  bool_decide (find_from 0 32
    (λ reg, test_bit (liveInRegisters path) reg && (length initial_regs <=? reg)%nat) = None).

(** The body of the loop over the occurrences, from the last one. *)
Definition augment_branch (order : list (Key * Path)) (cache : Cache) (address_space_id : Z)
    (initial_regs : list Z) (rb : Recorder * bool) (occurrence : nat * Uop) : Recorder * bool :=
  let '(branch, op) := occurrence in
  let r := rb.1 in
  let target := alternate_target op in
  if negb (conditional op) || (reconvergencePC op =? 0) then rb
  else if backward op then rb
  else if (count r <=? branch)%nat || negb (Uop.pc (uop_at r branch) =? Uop.pc op) then rb
  else if target =? 0 then rb
  else if (target =? reconvergencePC op)
          || target_before r target (reconvergencePC op) (count r - S branch) (S branch) then rb
  else match lookup_path order cache op target address_space_id with
  | None => rb
  | Some path =>
      if negb (complete path) then rb
      else if negb (live_in_valid path initial_regs) then rb
      else
        let '(r, inserted) := insertBeforePC r (reconvergencePC op) (puops path) in
        if inserted then (r, true) else rb
  end.

(** [augmentDVRAlternatePaths] *)
Definition augmentDVRAlternatePaths (order : list (Key * Path)) (cache : Cache) (r : Recorder)
    (address_space_id : Z) (initial_regs : list Z) : Recorder * bool :=
  foldl (augment_branch order cache address_space_id initial_regs) (r, false)
    (reverse (branch_occurrences r)).

(** ** Specification *)

(** Every bit of [a] is in [b]. *)
Definition submask (a b : Z) : Prop := ∀ n, 0 <= n → Z.testbit a n = true → Z.testbit b n = true.

(** Every register a uop of the list reads is among [regs] or written earlier in the list.  (The
    sources of direct jumps are not counted, as the code does not count them.) *)
Fixpoint reads_covered (us : list Uop) (regs : Z) : Prop :=
  match us with
  | [] => True
  | u :: us =>
      (direct_jump u = false → submask (intSources u) regs) ∧
      reads_covered us (Z.lor regs (intDestinations u))
  end.

(** A path the cache may hold. *)
Definition path_ok (p : Path) : Prop :=
  complete p = true ∧ puops p ≠ [] ∧ Forall (λ u, alternatePath u = true) (puops p) ∧
  reads_covered (puops p) (liveInRegisters p).

Definition cache_ok (cache : Cache) : Prop := map_Forall (λ _, path_ok) cache.

(** Several recordings (recorder, address space). *)
Definition record_paths (xs : list (Recorder * Z)) (cache : Cache) : Cache :=
  foldl (λ c x, recordDVRAlternatePaths x.1 x.2 c) cache xs.

(** ** Lemmas: the cache *)

Lemma submask_refl a : submask a a.
Proof. by intros n. Qed.

Lemma submask_trans a b c : submask a b → submask b c → submask a c.
Proof. intros H1 H2 n Hn Ha. by apply H2, H1. Qed.

Lemma submask_lor_l a b : submask a (Z.lor a b).
Proof. intros n Hn Ha. by rewrite Z.lor_spec, Ha. Qed.

Lemma submask_lor_mono a b c : submask a b → submask (Z.lor a c) (Z.lor b c).
Proof.
  intros H n Hn. rewrite !Z.lor_spec, !orb_true_iff. intros [Ha|Ha]; [left; by apply H|by right].
Qed.

Lemma reads_covered_mono us v w : submask v w → reads_covered us v → reads_covered us w.
Proof.
  revert v w. induction us as [|u us IH]; intros v w H; [done|]. intros [H1 H2]. split.
  - intros Hj. by eapply submask_trans; [apply H1|].
  - eapply IH; [|exact H2]. by apply submask_lor_mono.
Qed.

(** The registers a list of uops writes. *)
Definition written (us : list Uop) : Z := foldr (λ u w, Z.lor (intDestinations u) w) 0 us.

Lemma reads_covered_app us vs w :
  reads_covered (us ++ vs) w ↔ reads_covered us w ∧ reads_covered vs (Z.lor w (written us)).
Proof.
  revert w. induction us as [|u us IH]; intros w; cbn [app reads_covered written foldr].
  - rewrite Z.lor_0_r. tauto.
  - rewrite IH, Z.lor_assoc. unfold written. tauto.
Qed.

Lemma written_app us vs : written (us ++ vs) = Z.lor (written us) (written vs).
Proof.
  induction us as [|u us IH]; cbn [app written foldr]; [done|].
  unfold written in *. by rewrite IH, Z.lor_assoc.
Qed.

(** Annotations do not change what a path reads and writes. *)
Definition same_registers (u v : Uop) : Prop :=
  intSources u = intSources v ∧ intDestinations u = intDestinations v ∧
  direct_jump u = direct_jump v.

Lemma marked_same u : same_registers (marked u) u.
Proof. by destruct u. Qed.

Lemma same_written us vs : Forall2 same_registers us vs → written us = written vs.
Proof. induction 1 as [|u v us vs (_ & H & _) _ IH]; cbn; [done|]. unfold written in *. by rewrite H, IH. Qed.

Lemma same_covered us vs w : Forall2 same_registers us vs → reads_covered us w ↔ reads_covered vs w.
Proof.
  intros H. revert w. induction H as [|u v us vs (H1 & H2 & H3) _ IH]; intros w; [done|].
  cbn [reads_covered]. by rewrite H1, H2, H3, IH.
Qed.

Lemma marked_list_same us : Forall2 same_registers (marked <$> us) us.
Proof. induction us; constructor; [apply marked_same|done]. Qed.

(** The path under construction. *)
Definition build_ok (b : Build) : Prop :=
  Forall (λ u, alternatePath u = true) (built b) ∧ reads_covered (built b) (live b) ∧
  submask (defined b) (written (built b)).

(** A use outside what is defined becomes live. *)
Lemma uncovered s d w l : submask d w → submask s (Z.lor (Z.lor l (Z.land s (Z.lnot d))) w).
Proof.
  intros H n Hn Hs. rewrite !Z.lor_spec, Z.land_spec, Z.lnot_spec, Hs by done.
  destruct (Z.testbit d n) eqn:D; cbn; [|by rewrite orb_true_r].
  rewrite (H n Hn D). by rewrite orb_true_r.
Qed.

Lemma empty_build_ok : build_ok (mkBuild [] 0 0).
Proof. split_and!; [apply Forall_nil_2|done|apply submask_refl]. Qed.

Lemma push_uop_ok u b : build_ok b → build_ok (push_uop u b).
Proof.
  intros (H1 & H2 & H3). unfold push_uop. split_and!; cbn.
  - apply Forall_app. split; [done|]. by repeat constructor.
  - apply reads_covered_app. split.
    + eapply reads_covered_mono; [|exact H2]. apply submask_lor_l.
    + cbn [reads_covered]. split; [|done]. intros _. by apply uncovered.
  - rewrite written_app. cbn. rewrite Z.lor_0_r. by apply submask_lor_mono.
Qed.

Lemma push_jump_ok u b :
  direct_jump u = true → build_ok b → build_ok (b <| built ::= λ us, us ++ [marked u] |>).
Proof.
  intros Hj (H1 & H2 & H3). split_and!; cbn.
  - apply Forall_app. split; [done|]. by repeat constructor.
  - apply reads_covered_app. split; [done|]. cbn [reads_covered]. split; [|done].
    destruct (marked_same u) as (_ & _ & ->). by rewrite Hj.
  - rewrite written_app. eapply submask_trans; [exact H3|apply submask_lor_l].
Qed.

(** Splicing a cached path. *)
Definition splice (us : list Uop) (b : Build) : Build :=
  foldl (λ b u, b <| defined ::= λ d, Z.lor d (intDestinations u) |>
                  <| built ::= λ us, us ++ [marked u] |>) b us.

Lemma splice_fields us b :
  live (splice us b) = live b ∧ defined (splice us b) = Z.lor (defined b) (written us) ∧
  built (splice us b) = built b ++ (marked <$> us).
Proof.
  unfold splice. revert b. induction us as [|u us IH]; intros b; cbn [foldl written foldr fmap list_fmap].
  - by rewrite Z.lor_0_r, app_nil_r.
  - destruct (IH (b <| defined ::= λ d, Z.lor d (intDestinations u) |>
                    <| built ::= λ us, us ++ [marked u] |>)) as (-> & -> & ->). cbn.
    unfold written. by rewrite Z.lor_assoc, <- (assoc_L (++)).
Qed.

Lemma splice_ok p b :
  path_ok p → build_ok b →
  build_ok (splice (puops p) (b <| live := Z.lor (live b)
                                 (Z.land (liveInRegisters p) (Z.lnot (defined b))) |>)).
Proof.
  intros (_ & _ & P1 & P2) (H1 & H2 & H3). set (b1 := b <| live := _ |>).
  destruct (splice_fields (puops p) b1) as (E1 & E2 & E3). split_and!; rewrite ?E1, ?E2, ?E3.
  - apply Forall_app. split; [done|]. apply Forall_fmap, Forall_true. by intros [].
  - apply reads_covered_app. split.
    + eapply reads_covered_mono; [|exact H2]. apply submask_lor_l.
    + apply (same_covered _ _ _ (marked_list_same _)). eapply reads_covered_mono; [|exact P2].
      by apply uncovered.
  - rewrite written_app, (same_written _ _ (marked_list_same (puops p))). by apply submask_lor_mono.
Qed.

Lemma append_cached_target_ok cache r branch path_end rc asid pc target b :
  cache_ok cache → build_ok b →
  build_ok (append_cached_target cache r branch path_end rc asid pc target b).1.
Proof.
  intros Hc Hb. unfold append_cached_target. destruct (_ || _); [done|].
  destruct (cache !! _) as [p|] eqn:E; [|done]. destruct (_ || _); [done|].
  apply (splice_ok p b); [|done]. by apply (Hc _ _ E).
Qed.

Lemma scan_branch_ok cache r branch path_end rc asid u b b' :
  cache_ok cache → build_ok b → scan_branch cache r branch path_end rc asid u b = Some b' →
  build_ok b'.
Proof.
  intros Hc Hb. unfold scan_branch. pose proof (push_uop_ok u b Hb) as Hp.
  pose proof (append_cached_target_ok cache r branch path_end rc asid (Uop.pc u) (branchTargetPC u)
    _ Hc Hp) as H1.
  destruct (append_cached_target _ _ _ _ _ _ _ (branchTargetPC u) _) as [b1 ok1]; cbn [fst] in H1.
  pose proof (append_cached_target_ok cache r branch path_end rc asid (Uop.pc u) (fallthroughPC u)
    _ Hc H1) as H2.
  destruct (append_cached_target _ _ _ _ _ _ _ (fallthroughPC u) _) as [b2 ok2]; cbn [fst] in H2.
  destruct (negb ok1 || negb ok2); [done|by intros [= <-]].
Qed.

Lemma scan_uop_ok cache r branch path_end rc asid lo index b b' :
  cache_ok cache → build_ok b → scan_uop cache r branch path_end rc asid lo index b = Some b' →
  build_ok b'.
Proof.
  intros Hc Hb. unfold scan_uop. destruct (direct_jump _ && _) eqn:J.
  { apply andb_true_iff in J as [J _]. intros [= <-]. by apply push_jump_ok. }
  destruct (bool_decide _); [destruct (_ || _ || _); [done|by intros [= <-]]|].
  destruct (control _ && conditional _); [by apply scan_branch_ok|].
  intros [= <-]. by apply push_uop_ok.
Qed.

Lemma scan_ok cache r branch path_end rc asid lo n index b b' :
  cache_ok cache → build_ok b → scan cache r branch path_end rc asid lo n index b = Some b' →
  build_ok b'.
Proof.
  intros Hc. revert index b. induction n as [|n IH]; intros index b Hb; cbn [scan].
  { by intros [= <-]. }
  destruct (scan_uop _ _ _ _ _ _ _ index b) as [b1|] eqn:E; cbn [mbind option_bind]; [|done].
  apply IH. by eapply scan_uop_ok.
Qed.

(** The last uop gets the PC to resume at. *)
Definition set_resume (us : list Uop) (a : Z) : list Uop :=
  match last us with
  | Some u => take (length us - 1) us ++ [u <| alternateResumePC := a |>]
  | None => us
  end.

Lemma set_resume_snoc us u a : set_resume (us ++ [u]) a = us ++ [u <| alternateResumePC := a |>].
Proof.
  unfold set_resume. rewrite last_snoc, length_app. cbn.
  by rewrite Nat.add_sub, take_app_length.
Qed.

(** What [build_path] computes: the scan of the slots from the branch to [path_end]. *)
Record scanned (cache : Cache) (r : Recorder) (branch : nat) (asid : Z) (stop path_end : nat)
    (b : Build) : Prop := mkScanned {
  sc_stop : (S branch < stop < count r)%nat;
  sc_join : Uop.pc (uop_at r stop) = reconvergencePC (uop_at r branch);
  sc_end : path_end = (if load (uop_at r stop) then S stop else stop);
  sc_scan : scan cache r branch path_end (reconvergencePC (uop_at r branch)) asid
              (sources_from r stop (count r - stop)) (path_end - S branch) (S branch)
              (mkBuild [] 0 0) = Some b;
  sc_nonempty : built b ≠ []
}.

Lemma build_path_inv cache r branch asid p :
  build_path cache r branch asid = Some p →
  ∃ stop path_end b resume,
    scanned cache r branch asid stop path_end b ∧
    p = mkPath (set_resume (built b) resume) (live b) true.
Proof.
  unfold build_path. cbv zeta.
  set (stop := default _ _). destruct (Nat.ltb_spec stop (count r)) as [Hlt|]; [|done].
  assert (Uop.pc (uop_at r stop) = reconvergencePC (uop_at r branch)) as Hjoin.
  { destruct (find_from _ _ _) as [k|] eqn:F; cbn [default id] in stop; [|lia].
    apply find_from_Some in F as (_ & F & _). by apply Z.eqb_eq in F. }
  destruct (Nat.ltb_spec (S branch) stop); cbn [andb]; [|done].
  set (path_end := if load (uop_at r stop) then S stop else stop).
  destruct (scan _ _ _ _ _ _ _ _ _ _) as [b|] eqn:E; cbn [mbind option_bind]; [|done].
  destruct (last (built b)) as [u|] eqn:L; [|done]. intros [= <-].
  eexists stop, path_end, b, _. split.
  - split; [lia|done..|]. intros N. by rewrite N in L.
  - unfold set_resume. by rewrite L.
Qed.

Lemma set_resume_same us a : Forall2 same_registers (set_resume us a) us.
Proof.
  destruct (last us) as [u|] eqn:L; [|apply last_None in L as ->; constructor].
  apply last_Some in L as [us' ->]. rewrite set_resume_snoc.
  apply Forall2_app; [|by repeat constructor; destruct u].
  induction us'; by constructor.
Qed.

Lemma set_resume_marked us a :
  Forall (λ u, alternatePath u = true) us → Forall (λ u, alternatePath u = true) (set_resume us a).
Proof.
  intros H. destruct (last us) as [u|] eqn:L; [|unfold set_resume; by rewrite L].
  apply last_Some in L as [us' ->]. rewrite set_resume_snoc.
  apply Forall_app in H as [H1 H2]. apply Forall_app. split; [done|].
  apply Forall_cons in H2 as [H2 _]. by repeat constructor.
Qed.

Lemma build_path_ok cache r branch asid p :
  cache_ok cache → build_path cache r branch asid = Some p → path_ok p.
Proof.
  intros Hc (stop & path_end & b & resume & [_ _ _ Hs Hne] & ->)%build_path_inv.
  assert (build_ok b) as (H1 & H2 & H3).
  { eapply scan_ok; [exact Hc|apply empty_build_ok|exact Hs]. }
  split_and!; cbn; [done| |by apply set_resume_marked|].
  - intros N. apply Hne. pose proof (set_resume_same (built b) resume) as F. rewrite N in F.
    by inversion F.
  - by apply (same_covered _ _ _ (set_resume_same _ _)).
Qed.

(** Recording one branch only adds a new key. *)
Definition grows (cache cache' : Cache) : Prop :=
  cache_ok cache → cache_ok cache' ∧ cache ⊆ cache'.

Lemma record_branch_grows r asid branch cache :
  cache_ok cache →
  record_branch r asid branch cache = cache ∨
  ∃ p, build_path cache r branch asid = Some p ∧
    let u := uop_at r branch in
    cache !! path_key u (taken_target u) asid = None ∧
    record_branch r asid branch cache = <[path_key u (taken_target u) asid := p]> cache ∧
    conditional u = true ∧ tainted u = true ∧ backward u = false ∧
    Uop.pc u ≠ 0 ∧ taken_target u ≠ 0.
Proof.
  intros Hc. unfold record_branch. cbv zeta. set (u := uop_at r branch).
  destruct (conditional u) eqn:C, (tainted u) eqn:T; cbn [negb orb]; try by left.
  destruct (backward u) eqn:B; [by left|].
  destruct (Z.eqb_spec (Uop.pc u) 0); cbn [orb]; [by left|].
  destruct (Z.eqb_spec (taken_target u) 0); cbn [orb]; [by left|].
  destruct (reconvergencePC u =? 0); [by left|].
  destruct (build_path cache r branch asid) as [p|]; [|by left].
  destruct (cache !! path_key u (taken_target u) asid) as [q|] eqn:E.
  - left. by rewrite (proj1 (Hc _ _ E)).
  - right. exists p. by split_and!.
Qed.

Lemma record_branch_ok r asid branch cache : grows cache (record_branch r asid branch cache).
Proof.
  intros Hc. destruct (record_branch_grows r asid branch cache Hc) as [->|(p & Hp & Hn & -> & _)]; [done|].
  split; [|by apply insert_subseteq]. apply map_Forall_insert_2; [|done].
  by eapply build_path_ok.
Qed.

#[export] Instance grows_preorder : PreOrder grows.
Proof.
  split; [by intros c ?|]. intros c1 c2 c3 H1 H2 Hc. destruct (H1 Hc) as [Hc2 S1].
  destruct (H2 Hc2) as [Hc3 S2]. split; [done|]. by etransitivity.
Qed.

Lemma record_paths_grows xs cache : grows cache (record_paths xs cache).
Proof.
  revert cache. induction xs as [|[r asid] xs IH]; intros cache; [done|].
  cbn [record_paths foldl]. etransitivity; [|apply IH].
  unfold recordDVRAlternatePaths. apply (for_range_rel grows). intros k c _.
  apply record_branch_ok.
Qed.

(** ** Lemmas: replaying a straight path

    A semantics of uops on register files that respects the register masks. *)

Section semantics.
Variable exec : Uop → (Z → Z) → Z → Z.
Hypothesis exec_writes : ∀ u s reg, Z.testbit (intDestinations u) reg = false → exec u s reg = s reg.
Hypothesis exec_reads : ∀ u s s' reg,
  (∀ q, Z.testbit (intSources u) q = true → s q = s' q) →
  Z.testbit (intDestinations u) reg = true → exec u s reg = exec u s' reg.
Hypothesis exec_marked : ∀ u s reg, exec (marked u) s reg = exec u s reg.
Hypothesis exec_resume : ∀ u a s reg, exec (u <| alternateResumePC := a |>) s reg = exec u s reg.

(** The values a uop reads. *)
Definition operands (u : Uop) (s : Z → Z) : list Z :=
  s <$> filter (λ reg, Z.testbit (intSources u) reg = true) (seqZ 0 32).

(** The uops executed in order, each with the values it read. *)
Fixpoint trace (us : list Uop) (s : Z → Z) : list (Uop * list Z) :=
  match us with
  | [] => []
  | u :: us => (u, operands u s) :: trace us (exec u s)
  end.

Definition run (us : list Uop) (s : Z → Z) : Z → Z := foldl (λ s u, exec u s) s us.

(** What is observed of an executed uop: its PC and the values it read. *)
Definition observed (e : Uop * list Z) : Z * list Z := (Uop.pc e.1, e.2).

Definition agree (regs : Z → Prop) (s s' : Z → Z) : Prop := ∀ reg, regs reg → s reg = s' reg.

Definition reads (u : Uop) (reg : Z) : Prop := Z.testbit (intSources u) reg = true.
Definition writes (u : Uop) (reg : Z) : Prop := Z.testbit (intDestinations u) reg = true.

Lemma exec_agree (A : Z → Prop) u s s' :
  (∀ reg, reads u reg → A reg) → agree A s s' →
  agree (λ reg, A reg ∨ writes u reg) (exec u s) (exec u s').
Proof.
  intros Hr Ha reg H. destruct (Z.testbit (intDestinations u) reg) eqn:D.
  - apply exec_reads; [|done]. intros q Hq. by apply Ha, Hr.
  - rewrite !exec_writes by done. destruct H as [H|H]; [by apply Ha|]. unfold writes in H. congruence.
Qed.

Lemma operands_agree (A : Z → Prop) u s s' :
  (∀ reg, reads u reg → A reg) → agree A s s' → operands u s = operands u s'.
Proof.
  intros Hr Ha. unfold operands. apply list_fmap_ext. intros i reg Hreg.
  apply list_elem_of_lookup_2 in Hreg as [Hreg _]%list_elem_of_filter. by apply Ha, Hr.
Qed.

(** A trace depends on the uncovered reads only. *)
Lemma trace_covered us w s s' :
  Forall (λ u, direct_jump u = true → intSources u = 0) us →
  reads_covered us w → agree (λ reg, Z.testbit w reg = true) s s' →
  observed <$> trace us s = observed <$> trace us s'.
Proof.
  revert w s s'. induction us as [|u us IH]; intros w s s' Hj Hc Ha; [done|].
  apply Forall_cons in Hj as [Hj Hjs]. destruct Hc as [Hc Hcs].
  assert (∀ reg, reads u reg → Z.testbit w reg = true) as Hr.
  { intros reg Hreg. unfold reads in Hreg. destruct (direct_jump u).
    - rewrite Hj, Z.bits_0 in Hreg; done.
    - destruct (Z.neg_nonneg_cases reg) as [Hn|Hn]; [by rewrite Z.testbit_neg_r in Hreg|].
      by apply Hc. }
  cbn [trace fmap list_fmap]. unfold observed at 1 3. cbn [fst snd].
  rewrite (operands_agree _ u s s' Hr Ha). f_equal.
  apply (IH (Z.lor w (intDestinations u))); [done|done|].
  intros reg. rewrite Z.lor_spec, orb_true_iff. apply (exec_agree _ u s s' Hr Ha).
Qed.

(** Annotated uops execute alike. *)
Lemma run_ext us s s' : (∀ reg, s reg = s' reg) → ∀ reg, run us s reg = run us s' reg.
Proof.
  revert s s'. induction us as [|u us IH]; intros s s' H reg; [apply H|]. apply IH. intros q.
  destruct (Z.testbit (intDestinations u) q) eqn:D; [by apply exec_reads|].
  by rewrite !exec_writes.
Qed.

Lemma trace_ext us s s' : (∀ reg, s reg = s' reg) → trace us s = trace us s'.
Proof.
  revert s s'. induction us as [|u us IH]; intros s s' H; [done|]. cbn [trace]. f_equal.
  - f_equal. apply (operands_agree (λ _, True)); [done|]. intros reg _. apply H.
  - apply IH. intros q. destruct (Z.testbit (intDestinations u) q) eqn:D; [by apply exec_reads|].
    by rewrite !exec_writes.
Qed.

Definition alike (u v : Uop) : Prop :=
  Uop.pc u = Uop.pc v ∧ intSources u = intSources v ∧ ∀ s reg, exec u s reg = exec v s reg.

Lemma alike_trace us vs s : Forall2 alike us vs → observed <$> trace us s = observed <$> trace vs s.
Proof.
  intros H. revert s. induction H as [|u v us vs (H1 & H2 & H3) _ IH]; intros s; [done|].
  cbn [trace fmap list_fmap]. unfold observed at 1 3, operands. cbn [fst snd]. rewrite H1, H2. f_equal.
  rewrite IH. by rewrite (trace_ext vs _ (exec v s) (H3 s)).
Qed.

Lemma alike_run us vs s reg : Forall2 alike us vs → run us s reg = run vs s reg.
Proof.
  intros H. revert s. induction H as [|u v us vs (H1 & H2 & H3) _ IH]; intros s; [done|].
  cbn [run foldl]. unfold run in IH. rewrite IH. by apply run_ext, H3.
Qed.

(** Dropping uops whose results nobody reads. *)
Lemma drop_dead (keep : Uop → Prop) `{!∀ u, Decision (keep u)} (out : Z → Prop) us s s' :
  (∀ before u after reg, us = before ++ u :: after → ¬ keep u → writes u reg →
     ¬ out reg ∧ ∀ v, v ∈ after → ¬ reads v reg) →
  agree (λ reg, out reg ∨ ∃ v, v ∈ us ∧ reads v reg) s s' →
  filter (λ e, keep e.1) (trace us s) = trace (filter keep us) s' ∧
  agree out (run us s) (run (filter keep us) s').
Proof.
  revert s s'. induction us as [|u us IH]; intros s s' Hdead Ha.
  { split; [done|]. intros reg Hreg. apply Ha. by left. }
  assert (∀ before v after reg, us = before ++ v :: after → ¬ keep v → writes v reg →
     ¬ out reg ∧ ∀ w, w ∈ after → ¬ reads w reg) as Hdead'.
  { intros before v after reg ->. by apply (Hdead (u :: before)). }
  cbn [trace]. rewrite !filter_cons. cbn [fst]. case_decide as K.
  - cbn [trace run foldl]. destruct (IH (exec u s) (exec u s') Hdead') as [E1 E2].
    { intros reg Hreg. apply (exec_agree _ u s s'
        (λ q Hq, or_intror (ex_intro _ u (conj (list_elem_of_here u us) Hq))) Ha).
      left. destruct Hreg as [Hreg|(v & Hv & Hreg)]; [by left|right].
      exists v. split; [by apply list_elem_of_further|done]. }
    rewrite E1. split; [|exact E2]. f_equal. f_equal.
    apply (operands_agree _ u s s' (λ q Hq, or_intror (ex_intro _ u (conj (list_elem_of_here u us) Hq))) Ha).
  - apply IH; [done|]. intros reg Hreg. destruct (Z.testbit (intDestinations u) reg) eqn:D.
    + destruct (Hdead [] u us reg eq_refl K D) as [D1 D2].
      destruct Hreg as [Hreg|(v & Hv & Hreg)]; [done|by destruct (D2 v)].
    + rewrite exec_writes by done. apply Ha. destruct Hreg as [Hreg|(v & Hv & Hreg)]; [by left|right].
      exists v. split; [by apply list_elem_of_further|done].
Qed.
End semantics.

(** ** Lemmas: the scan of a straight path *)

(** The recorded uops [lo .. lo + n). *)
Definition segment (r : Recorder) (lo n : nat) : list Uop := uop_at r <$> seq lo n.

(** The uops a path keeps: all but unsupported ones that are not control transfers. *)
Definition kept (u : Uop) : Prop := semantic u ≠ Unsupported ∨ control u = true.

#[export] Instance kept_dec u : Decision (kept u).
Proof. unfold kept. solve_decision. Defined.

Lemma segment_S r lo n : segment r lo (S n) = uop_at r lo :: segment r (S lo) n.
Proof. done. Qed.

Lemma elem_of_segment r lo n u : u ∈ segment r lo n ↔ ∃ k, (lo <= k < lo + n)%nat ∧ u = uop_at r k.
Proof.
  unfold segment. rewrite list_elem_of_fmap. split.
  - intros (k & -> & Hk%elem_of_seq). by exists k.
  - intros (k & Hk & ->). exists k. split; [done|by apply elem_of_seq].
Qed.

(** The registers a dropped uop writes are dead. *)
Definition dead_after (live_out : Z) (u : Uop) (after : list Uop) : Prop :=
  Z.land (intDestinations u) live_out = 0 ∧
  ∀ v, v ∈ after → Z.land (intDestinations u) (intSources v) = 0.

Lemma writes_live_value_false r path_end u index :
  writes_live_value r path_end u index = false →
  ∀ v, v ∈ segment r (S index) (path_end - S index) → Z.land (intDestinations u) (intSources v) = 0.
Proof.
  unfold writes_live_value. intros H v (k & Hk & ->)%elem_of_segment.
  apply andb_false_iff in H as [H|H].
  - apply negb_false_iff, Z.eqb_eq in H. by rewrite H, Z.land_0_l.
  - apply bool_decide_eq_false in H. rewrite <- eq_None_not_Some in H.
    pose proof (proj1 (find_from_None _ _ _) H k ltac:(lia)) as Hz. cbn beta in Hz.
    by apply negb_false_iff, Z.eqb_eq in Hz.
Qed.

Lemma scan_uop_straight cache r branch path_end rc asid live_out index b b' :
  conditional (uop_at r index) = false →
  scan_uop cache r branch path_end rc asid live_out index b = Some b' →
  built b' = built b ++ (marked <$> filter kept [uop_at r index]) ∧
  (¬ kept (uop_at r index) →
   dead_after live_out (uop_at r index) (segment r (S index) (path_end - S index))).
Proof.
  intros Hn. unfold scan_uop, direct_jump, kept, dead_after. rewrite Hn. cbn [negb].
  destruct (control (uop_at r index)) eqn:C; cbn [andb].
  - rewrite filter_cons_True by by right. rewrite filter_nil.
    destruct (negb _ && captured_pc _ _ _ _ _ _); [intros [= <-]; split; [done|tauto]|].
    destruct (bool_decide _); [done|]. intros [= <-]. split; [done|tauto].
  - case_bool_decide as U; cbn [orb].
    + destruct (writes_live_value _ _ _ _) eqn:W; cbn [orb]; [done|].
      destruct (Z.eqb_spec (Z.land (intDestinations (uop_at r index)) live_out) 0); cbn [negb]; [|done].
      intros [= <-]. rewrite filter_cons_False by (intros [?|?]; congruence). rewrite app_nil_r.
      split; [done|]. intros _. split; [done|]. by apply writes_live_value_false.
    + intros [= <-]. rewrite filter_cons_True by by left. split; [done|]. intros []. by left.
Qed.

Lemma scan_straight cache r branch path_end rc asid live_out n index b b' :
  (∀ k, (index <= k < index + n)%nat → conditional (uop_at r k) = false) →
  (index + n)%nat = path_end →
  scan cache r branch path_end rc asid live_out n index b = Some b' →
  built b' = built b ++ (marked <$> filter kept (segment r index n)) ∧
  ∀ before u after, segment r index n = before ++ u :: after → ¬ kept u → dead_after live_out u after.
Proof.
  revert index b. induction n as [|n IH]; intros index b Hc He; cbn [scan].
  { intros [= <-]. cbn. rewrite app_nil_r. split; [done|]. intros before u after H.
    by destruct before. }
  destruct (scan_uop _ _ _ _ _ _ _ index b) as [b1|] eqn:E; cbn [mbind option_bind]; [|done].
  intros H. apply scan_uop_straight in E as [E1 E2]; [|apply Hc; lia].
  apply IH in H as [H1 H2]; [|intros; apply Hc; lia|lia]. rewrite segment_S. split.
  - rewrite H1, E1, <- (assoc_L (++)), <- fmap_app, <- filter_app. done.
  - intros before u after Hs K. destruct before as [|x before]; cbn in Hs; injection Hs as <- Hs.
    + subst after. replace n with (path_end - S index)%nat by lia. by apply E2.
    + by apply (H2 before).
Qed.

Lemma sources_from_bit r lo n reg :
  Z.testbit (sources_from r lo n) reg = true ↔
  ∃ k, (lo <= k < lo + n)%nat ∧ reads (uop_at r k) reg.
Proof.
  unfold sources_from.
  apply (for_range_rule (λ m w, Z.testbit w reg = true ↔
    ∃ k, (lo <= k < m)%nat ∧ reads (uop_at r k) reg)).
  - rewrite Z.bits_0. split; [done|]. intros (? & ? & _). lia.
  - intros m w Hm IH. rewrite Z.lor_spec, orb_true_iff, IH. split.
    + intros [(k & Hk & H)|H]; [exists k; split; [lia|done]|exists m; split; [lia|done]].
    + intros (k & Hk & H). destruct (decide (k = m)) as [->|]; [by right|left].
      exists k. split; [lia|done].
Qed.

Lemma land_0_disjoint a b n :
  Z.land a b = 0 → Z.testbit a n = true → Z.testbit b n = true → False.
Proof. intros H Ha Hb. assert (Z.testbit (Z.land a b) n = true) as C by by rewrite Z.land_spec, Ha, Hb. by rewrite H, Z.bits_0 in C. Qed.


(** ** Lemmas: augmenting *)

(** One occurrence appends at most one cached path. *)
Definition admissible_occurrence (cache : Cache) (asid : Z) (occ : nat * Uop) (p : Path) : Prop :=
  ∃ key, cache !! key = Some p ∧ key.1.1.1 = Uop.pc occ.2 ∧ key.1.1.2 = alternate_target occ.2 ∧
         key.2 = asid ∧ alternate_target occ.2 ≠ 0.

(** [r'] is [r] with the uops [us] appended. *)
Definition extends (r r' : Recorder) (us : list Uop) : Prop :=
  Recorder.wf r' ∧ count r' = (count r + length us)%nat ∧ overflowed r' = overflowed r ∧
  (∀ k, (k < count r)%nat → uop_at r' k = uop_at r k) ∧ segment r' (count r) (length us) = us.

Lemma segment_app r lo a b : segment r lo (a + b) = segment r lo a ++ segment r (lo + a) b.
Proof. unfold segment. by rewrite seq_app, fmap_app. Qed.

Lemma segment_ext r r' lo n :
  (∀ k, (lo <= k < lo + n)%nat → uop_at r' k = uop_at r k) → segment r' lo n = segment r lo n.
Proof.
  intros H. apply list_fmap_ext. intros i k Hk.
  apply H. apply elem_of_seq. by eapply list_elem_of_lookup_2.
Qed.

Lemma extends_refl r : Recorder.wf r → extends r r [].
Proof. intros H. split_and!; [done|cbn; lia|done..]. Qed.

Lemma extends_trans r1 r2 r3 us vs : extends r1 r2 us → extends r2 r3 vs → extends r1 r3 (us ++ vs).
Proof.
  intros (_ & C1 & O1 & K1 & S1) (W & C2 & O2 & K2 & S2). unfold extends. rewrite length_app.
  split_and!; [done|lia|congruence| |].
  - intros k Hk. rewrite K2, K1 by lia. done.
  - rewrite segment_app. f_equal; [|by rewrite <- C1].
    rewrite <- S1 at 2. apply segment_ext. intros k Hk. apply K2. lia.
Qed.

Lemma insert_extends r rpc path :
  Recorder.wf r → let '(r', ok) := insertBeforePC r rpc path in
  if ok then extends r r' path ∧ path ≠ [] else r' = r.
Proof.
  intros Hw. pose proof (insertBeforePC_spec r rpc path Hw) as H.
  pose proof (insertBeforePC_true r rpc path) as T.
  destruct (insertBeforePC r rpc path) as [r' ok]. destruct H as (H1 & H2 & H3).
  destruct ok; [|by apply H2]. destruct (H3 eq_refl) as (W & C & K & S & _).
  destruct (proj1 H1 eq_refl) as (_ & Hp & _ & _). split; [|done].
  split_and!; [done|done| |done|].
  - case_decide; [|done]. by injection T as ->.
  - apply list_eq. intros k. unfold segment. rewrite list_lookup_fmap.
    destruct (decide (k < length path)%nat) as [Hk|Hk].
    + rewrite lookup_seq_lt by done. cbn. rewrite S by done.
      symmetry. by apply list_lookup_lookup_total_lt.
    + rewrite lookup_seq_ge, lookup_ge_None_2 by lia. done.
Qed.

Lemma lookup_path_admissible order cache u asid p branch :
  order ≡ₚ map_to_list cache → lookup_path order cache u (alternate_target u) asid = Some p →
  alternate_target u ≠ 0 → admissible_occurrence cache asid (branch, u) p.
Proof.
  intros Ho. unfold lookup_path.
  destruct (cache !! path_key u (alternate_target u) asid) as [q|] eqn:E.
  - intros [= ->] Ht. by exists (path_key u (alternate_target u) asid).
  - case_match eqn:F; [|done]. destruct p0 as [i [key q]]. intros [= <-] Ht.
    apply list_find_Some in F as (F1 & (F2 & F3 & F4 & F5) & _). exists key. split_and!; try done.
    apply elem_of_map_to_list. rewrite <- Ho. by eapply list_elem_of_lookup_2.
Qed.

(** The step on one occurrence. *)
Lemma augment_branch_spec order cache asid regs r ok occ :
  order ≡ₚ map_to_list cache → Recorder.wf r →
  let rb := augment_branch order cache asid regs (r, ok) occ in
  rb = (r, ok) ∨
  ∃ p, admissible_occurrence cache asid occ p ∧ extends r rb.1 (puops p) ∧ puops p ≠ [] ∧ rb.2 = true.
Proof.
  intros Ho Hw. destruct occ as [branch u]. cbn zeta. unfold augment_branch. cbn [fst].
  destruct (_ || (reconvergencePC u =? 0)); [by left|]. destruct (backward u); [by left|].
  destruct (_ || _); [by left|]. destruct (Z.eqb_spec (alternate_target u) 0) as [|Ht]; [by left|].
  destruct (_ || _); [by left|].
  destruct (lookup_path order cache u (alternate_target u) asid) as [p|] eqn:L; [|by left].
  destruct (negb _); [by left|]. destruct (negb _); [by left|].
  pose proof (insert_extends r (reconvergencePC u) (puops p) Hw) as I.
  destruct (insertBeforePC _ _ _) as [r' []]; [|by left]. right. exists p.
  destruct I as [I1 I2]. split_and!; [by eapply lookup_path_admissible|done..].
Qed.

Lemma augment_fold order cache asid regs occs r ok :
  order ≡ₚ map_to_list cache → Recorder.wf r →
  ∃ ps, let rb := foldl (augment_branch order cache asid regs) (r, ok) occs in
    (∃ sub, sub `sublist_of` occs ∧ Forall2 (admissible_occurrence cache asid) sub ps) ∧
    extends r rb.1 (mjoin (puops <$> ps)) ∧ rb.2 = ok || negb (length ps =? 0)%nat.
Proof.
  intros Ho. revert r ok. induction occs as [|occ occs IH]; intros r ok Hw.
  { exists []. cbn. rewrite orb_false_r. split_and!; [by exists []|by apply extends_refl|done]. }
  cbn [foldl]. pose proof (augment_branch_spec order cache asid regs r ok occ Ho Hw) as S.
  cbn zeta in S. destruct (augment_branch _ _ _ _ (r, ok) occ) as [r1 ok1].
  destruct S as [[= -> ->]|(p & Ha & Hx & Hp & Hok)].
  - destruct (IH r ok Hw) as (ps & (sub & S1 & S2) & E1 & E2). exists ps.
    split_and!; [|done..]. exists sub. split; [by apply sublist_cons|done].
  - cbn [fst snd] in *. subst ok1. destruct (IH r1 true) as (ps & (sub & S1 & S2) & E1 & E2); [apply Hx|].
    exists (p :: ps). cbn zeta in *. split_and!.
    + exists (occ :: sub). split; [by apply sublist_skip|by constructor].
    + cbn [fmap list_fmap mjoin list_join]. by eapply extends_trans.
    + rewrite E2. cbn. by rewrite orb_true_r.
Qed.


(** ** Lemmas: the published path against the captured one *)

Lemma path_alike (exec : Uop → (Z → Z) → Z → Z) us a :
  (∀ u s reg, exec (marked u) s reg = exec u s reg) →
  (∀ u a s reg, exec (u <| alternateResumePC := a |>) s reg = exec u s reg) →
  Forall2 (alike exec) (set_resume (marked <$> us) a) us.
Proof.
  intros Hm Hr. destruct us as [|u us _] using rev_ind; [constructor|].
  rewrite fmap_app. cbn. rewrite set_resume_snoc. apply Forall2_app.
  - induction us as [|v us IH]; constructor; [|done]. split_and!; [by destruct v..|apply Hm].
  - repeat constructor; [by destruct u..|]. intros s reg. by rewrite Hr, Hm.
Qed.

Definition reads_nothing_if_jump (u : Uop) : Prop := direct_jump u = true → intSources u = 0.

Lemma same_jumps us vs :
  Forall2 same_registers us vs → Forall reads_nothing_if_jump vs → Forall reads_nothing_if_jump us.
Proof.
  unfold reads_nothing_if_jump.
  induction 1 as [|u v us vs (H1 & _ & H2) _ IH]; intros H; [done|].
  apply Forall_cons in H as [H Hs]. constructor; [by rewrite H1, H2|by apply IH].
Qed.

(** ** Theorems *)

(** C26: What the cache of alternate paths holds.  Whatever discoveries publish their recorders, in
    whatever order: only complete paths are cached, which are not empty and all of whose uops are
    marked as alternate (a fragment that does not reach its join is not kept, as the comment in the code
    says; README_DVR_REPRO still describes it as kept for evidence); a path once cached stays the path
    of its key under all further recordings; and, position by position in the list of its uops, each
    uop that is not a direct jump reads only registers that are among the path's recorded live-ins or are written
    by a uop earlier in the list.  The list is not an execution: the uops of an arm spliced in
    for a nested branch count as earlier ones although the branch's other successor runs without
    them, so a register such an arm writes can be missing from the live-ins (spliced_arm_counts). *)
Theorem cached_paths_ok (xs ys : list (Recorder * Z)) (key : Key) (p : Path)
  (Hp : record_paths xs ∅ !! key = Some p) :
  complete p = true ∧ puops p ≠ [] ∧ Forall (λ u, alternatePath u = true) (puops p) ∧
  reads_covered (puops p) (liveInRegisters p) ∧ record_paths ys (record_paths xs ∅) !! key = Some p.
Proof.
  assert (cache_ok ∅) as H0 by apply map_Forall_empty.
  destruct (record_paths_grows xs ∅ H0) as [H1 _]. destruct (H1 key p Hp) as (A1 & A2 & A3 & A4).
  destruct (record_paths_grows ys _ H1) as [_ H2]. split_and!; [done..|]. by eapply lookup_weaken.
Qed.

(** C25: A published path replays what the discovery executed.
    Let a path be published for a branch whose captured path, up to its reconvergence point or
    the load there, holds no further conditional.  Take any semantics of uops that writes only
    a uop's destination registers, depends only on its source registers, and ignores the
    alternate-path annotations.  From any register file that agrees with the discovery's on the
    path's live-ins, the path executes exactly the captured uops other than the unsupported
    ones it skipped, in order, each reading the values it read in the discovery; and afterwards
    every register read from the reconvergence point on is as if nothing had been skipped. *)
Theorem alternate_path_replays (cache : Cache) (r : Recorder) (branch : nat) (asid : Z) (p : Path)
  (exec : Uop → (Z → Z) → Z → Z)
  (Hwrites : ∀ u s reg, Z.testbit (intDestinations u) reg = false → exec u s reg = s reg)
  (Hreads : ∀ u s s' reg, (∀ q, Z.testbit (intSources u) q = true → s q = s' q) →
     Z.testbit (intDestinations u) reg = true → exec u s reg = exec u s' reg)
  (Hmarked : ∀ u s reg, exec (marked u) s reg = exec u s reg)
  (Hresume : ∀ u a s reg, exec (u <| alternateResumePC := a |>) s reg = exec u s reg)
  (Hcache : cache_ok cache) (Hp : build_path cache r branch asid = Some p) :
  ∃ stop path_end, (S branch < stop < count r)%nat ∧
    Uop.pc (uop_at r stop) = reconvergencePC (uop_at r branch) ∧
    path_end = (if load (uop_at r stop) then S stop else stop) ∧
    let path := segment r (S branch) (path_end - S branch) in
    (Forall (λ u, conditional u = false ∧ (direct_jump u = true → intSources u = 0)) path →
     ∀ s, (∀ s', agree (λ reg, Z.testbit (liveInRegisters p) reg = true) s s' →
             observed <$> trace exec (puops p) s' =
             observed <$> filter (λ e, kept e.1) (trace exec path s)) ∧
          (∀ k reg, (stop <= k < count r)%nat → reads (uop_at r k) reg →
             run exec (puops p) s reg = run exec path s reg)).
Proof.
  pose proof (build_path_ok _ _ _ _ _ Hcache Hp) as (_ & _ & _ & Hcov).
  apply build_path_inv in Hp as (stop & path_end & b & resume & [H1 H2 H3 H4 H5] & ->).
  exists stop, path_end. split_and!; [lia..|done|done|]. cbn zeta. intros Hstraight s.
  assert (S branch <= path_end)%nat as Hle by (rewrite H3; destruct (load _); lia).
  apply scan_straight in H4 as [Hb Hdead]; [| |lia].
  2: { intros k Hk. rewrite Forall_forall in Hstraight. apply Hstraight, elem_of_segment. by exists k. }
  cbn [built app] in Hb. set (path := segment r (S branch) (path_end - S branch)) in *.
  pose proof (path_alike exec (filter kept path) resume Hmarked Hresume) as Halike. rewrite <- Hb in Halike.
  destruct (drop_dead exec Hwrites Hreads kept
    (λ reg, ∃ k, (stop <= k < count r)%nat ∧ reads (uop_at r k) reg) path s s) as [D1 D2]; [|done|].
  { intros before u after reg Hs K W. destruct (Hdead before u after Hs K) as [E1 E2]. split.
    - intros (k & Hk & Hreg). eapply land_0_disjoint; [exact E1|exact W|].
      apply sources_from_bit. exists k. split; [lia|done].
    - intros v Hv Hreg. by eapply land_0_disjoint; [apply (E2 v Hv)| |]. }
  split.
  - intros s' Hs'. rewrite D1, <- (alike_trace exec Hwrites Hreads _ _ s Halike). symmetry.
    apply (trace_covered exec Hwrites Hreads _ (live b)); [|exact Hcov|exact Hs'].
    apply (same_jumps _ _ (set_resume_same _ _)). rewrite Hb.
    apply (same_jumps _ _ (marked_list_same _)). apply Forall_forall.
    intros u [_ Hu]%list_elem_of_filter. rewrite Forall_forall in Hstraight.
    by destruct (Hstraight u Hu).
  - intros k reg Hk Hreg. cbn [puops]. rewrite (alike_run exec Hwrites Hreads _ _ s reg Halike).
    symmetry. apply D2. by exists k.
Qed.

(** Augmenting appends opposite-direction paths and changes nothing else.
    Whatever order the cache is iterated in, the template keeps its captured uops, its capacity
    and its overflow flag; what is appended is the concatenation of cached paths, for distinct
    occurrences of tainted branches from the last to the first, each path recorded for the same
    branch and address space in the direction this discovery did not take; a PC that was in
    the template still selects the same uop; and the result tells whether any path was
    appended. *)
Theorem augment_appends (order : list (Key * Path)) (cache : Cache) (r : Recorder) (asid : Z)
  (regs : list Z) (Horder : order ≡ₚ map_to_list cache) (Hr : Recorder.wf r) :
  let '(r', ok) := augmentDVRAlternatePaths order cache r asid regs in
  ∃ occurrences ps,
    occurrences `sublist_of` reverse (branch_occurrences r) ∧
    Forall2 (admissible_occurrence cache asid) occurrences ps ∧
    Recorder.wf r' ∧ overflowed r' = overflowed r ∧
    (∀ k, (k < count r)%nat → uop_at r' k = uop_at r k) ∧
    segment r' (count r) (count r' - count r) = mjoin (puops <$> ps) ∧
    (∀ a k, find_pc r a = Some k → find_pc r' a = Some k) ∧
    (ok = true ↔ ps ≠ []).
Proof.
  destruct (augment_fold order cache asid regs (reverse (branch_occurrences r)) r false Horder Hr)
    as (ps & (sub & S1 & S2) & (W & C & O & K & S) & Hok).
  unfold augmentDVRAlternatePaths. destruct (foldl _ _ _) as [r' ok]. cbn [fst snd orb] in *.
  exists sub, ps. split_and!; try done.
  - rewrite C, Nat.add_comm, Nat.add_sub. done.
  - intros a k [Hk [Ha Hmin]]%find_from_Some. apply find_from_Some. split_and!; [lia..| |].
    + by rewrite K by lia.
    + intros j Hj. rewrite K by lia. by apply Hmin.
  - rewrite Hok. by destruct ps.
Qed.

(** ** Witnesses *)

(** A branch at 14 around a block at 30 that joins at the load at 40. *)
Definition trigger_uop : Uop := Uop_init <| Uop.pc := 10 |> <| intDestinations := 32 |> <| load := true |>.
Definition branch_uop (taken : bool) : Uop :=
  Uop_init <| Uop.pc := 14 |> <| branchTargetPC := 30 |> <| fallthroughPC := 18 |>
           <| reconvergencePC := 40 |> <| semantic := BranchEqual |> <| control := true |>
           <| conditional := true |> <| tainted := true |> <| branchTaken := taken |>.
Definition add_uop : Uop :=
  Uop_init <| Uop.pc := 30 |> <| semantic := Add |> <| intSources := 32 |> <| intDestinations := 64 |>.
Definition store_uop : Uop := Uop_init <| Uop.pc := 34 |> <| intSources := 192 |>.
Definition join_uop : Uop :=
  Uop_init <| Uop.pc := 40 |> <| semantic := LoadDouble |> <| load := true |> <| intSources := 64 |>
           <| intDestinations := 256 |>.

Definition taken_template : Recorder :=
  import [trigger_uop; branch_uop true; add_uop; store_uop; join_uop] 5.
Definition untaken_template : Recorder :=
  import [trigger_uop; branch_uop false; add_uop <| Uop.pc := 18 |>; join_uop] 4.

Definition taken_path : Path := mkPath [marked add_uop; marked join_uop] 32 true.

Lemma taken_path_built : build_path ∅ taken_template 1 7 = Some taken_path.
Proof. by vm_compute. Qed.

Lemma taken_path_cached :
  record_paths [(taken_template, 7)] ∅ !! (14, 30, 40, 7) = Some taken_path.
Proof. by vm_compute. Qed.

Lemma cached_paths_ok_witness :
  reads_covered (puops taken_path) 32 ∧
  record_paths [(untaken_template, 7)] (record_paths [(taken_template, 7)] ∅) !! (14, 30, 40, 7) =
    Some taken_path.
Proof.
  destruct (cached_paths_ok [(taken_template, 7)] [(untaken_template, 7)] _ _ taken_path_cached)
    as (_ & _ & _ & H1 & H2).
  split; [exact H1|exact H2].
Defined.

(** A semantics that adds up the sources. *)
Definition sum_exec (u : Uop) (s : Z → Z) (reg : Z) : Z :=
  if Z.testbit (intDestinations u) reg then foldr Z.add (Uop.pc u) (operands u s) else s reg.

Lemma sum_exec_reads u s s' reg :
  (∀ q, Z.testbit (intSources u) q = true → s q = s' q) →
  Z.testbit (intDestinations u) reg = true → sum_exec u s reg = sum_exec u s' reg.
Proof.
  intros H D. unfold sum_exec. rewrite D. f_equal. apply list_fmap_ext. intros i q Hq.
  apply list_elem_of_lookup_2 in Hq as [Hq _]%list_elem_of_filter. by apply H.
Qed.

Lemma alternate_path_replays_witness :
  ∃ path, ∀ s reg, reads join_uop reg →
    run sum_exec (puops taken_path) s reg = run sum_exec path s reg.
Proof.
  destruct (alternate_path_replays ∅ taken_template 1 7 taken_path sum_exec) as
    (stop & path_end & H1 & H2 & H3 & H).
  - intros u s reg D. unfold sum_exec. rewrite D. reflexivity.
  - exact sum_exec_reads.
  - intros u s reg. destruct u. reflexivity.
  - intros u a s reg. destruct u. reflexivity.
  - apply map_Forall_empty.
  - exact taken_path_built.
  - assert (count taken_template = 5%nat) as C by (vm_compute; reflexivity).
    assert (stop = 4%nat) as ->.
    { rewrite C in H1. assert (stop = 3 ∨ stop = 4)%nat as [-> | ->] by lia; [|reflexivity].
      vm_compute in H2. discriminate H2. }
    assert (path_end = 5%nat) as -> by (rewrite H3; vm_compute; reflexivity).
    eexists. intros s reg Hreg. refine (proj2 (H _ s) 4%nat reg _ _).
    + repeat constructor; vm_compute; intros; done.
    + rewrite C. lia.
    + exact Hreg.
Defined.

Lemma augment_appends_witness :
  let '(r', ok) := augmentDVRAlternatePaths
    (map_to_list (record_paths [(taken_template, 7)] ∅)) (record_paths [(taken_template, 7)] ∅)
    untaken_template 7 (replicate 32 0) in
  ok = true ∧ (∀ k, (k < 4)%nat → uop_at r' k = uop_at untaken_template k).
Proof.
  pose proof (augment_appends (map_to_list (record_paths [(taken_template, 7)] ∅))
    (record_paths [(taken_template, 7)] ∅) untaken_template 7 (replicate 32 0) ltac:(reflexivity)
    ltac:(split; [reflexivity|apply Nat.leb_le; vm_compute; reflexivity])) as H.
  assert ((augmentDVRAlternatePaths (map_to_list (record_paths [(taken_template, 7)] ∅))
    (record_paths [(taken_template, 7)] ∅) untaken_template 7 (replicate 32 0)).2 = true) as Hok
    by (vm_compute; reflexivity).
  destruct (augmentDVRAlternatePaths _ _ _ _ _) as [r' ok]. split; [exact Hok|].
  destruct H as (_ & _ & _ & _ & _ & _ & H & _). exact H.
Defined.

(** A nested branch to an uop that the path skips passes the check that both successors are
    represented: the skipped uop's PC is captured, and is not in the path. *)
Definition skipping_template : Recorder :=
  import [trigger_uop; branch_uop true; add_uop;
          (branch_uop true) <| Uop.pc := 31 |> <| branchTargetPC := 40 |> <| fallthroughPC := 34 |>;
          store_uop; join_uop] 6.

Lemma skipped_successor_missing :
  ∃ p, build_path ∅ skipping_template 1 7 = Some p ∧
    fallthroughPC (puops p !!! 1%nat) = 34 ∧ Forall (λ u, Uop.pc u ≠ 34) (puops p).
Proof. eexists. split; [by vm_compute|]. split; [done|]. by repeat constructor. Qed.

(** The uops of a spliced arm count as earlier ones for the live-ins.  The path of the branch at 14 has a
    nested branch at 30, whose successor at 50, cached before, writes x5, and whose other successor at 34
    reads it: x5 is not a live-in, although falling through reads it unwritten. *)
Definition nested_branch : Uop :=
  (branch_uop true) <| Uop.pc := 30 |> <| branchTargetPC := 50 |> <| fallthroughPC := 34 |>
                    <| reconvergencePC := 60 |>.
Definition arm_uop : Uop :=
  Uop_init <| Uop.pc := 50 |> <| semantic := Add |> <| intSources := 64 |> <| intDestinations := 32 |>.
Definition reader_uop : Uop :=
  Uop_init <| Uop.pc := 34 |> <| semantic := Add |> <| intSources := 32 |> <| intDestinations := 128 |>.
Definition last_uop : Uop := join_uop <| Uop.pc := 60 |> <| intSources := 128 |>.
Definition arm_template : Recorder := import [trigger_uop; nested_branch; arm_uop; last_uop] 4.
Definition spliced_template : Recorder :=
  import [trigger_uop; (branch_uop true) <| reconvergencePC := 60 |>; nested_branch; reader_uop; last_uop] 5.

Lemma spliced_arm_counts :
  ∃ p, record_paths [(arm_template, 7); (spliced_template, 7)] ∅ !! (14, 30, 60, 7) = Some p ∧
    (Uop.pc <$> puops p) = [30; 50; 60; 34; 60] ∧ fallthroughPC (puops p !!! 0%nat) = 34 ∧
    Z.testbit (intSources (puops p !!! 3%nat)) 5 = true ∧ Z.testbit (liveInRegisters p) 5 = false.
Proof. eexists. split; [by vm_compute|]. by vm_compute. Qed.

End AltPath.
