(* ===== verification/Generation.v ===== *)
(** * Predicate generations

    Model of [DVRPredicateGeneration] (src/cpu/o3/cpu.hh) and of its two operations in cpu.cc:
    [retireDVRPredicateLane] records the end of one source lane, with the value it returned if it
    returned one, and [finishDVRPredicateGeneration] reports the generation.  A generation counts
    its lanes and feeds the tracker of Predicate.v. *)

From S2P Require Import Prelude Predicate.

Module Generation.

(** [DVRPredicateGeneration] *)
Record Gen := mkGen {
  generation : Z;  expectedLanes : nat;  terminalLanes : nat;  terminalMask : LaneMask;
  tracker : Predicate.Tracker;  divergenceCounted : bool;  reported : bool;
  sourceTranslationFaulted : bool
}.

#[export] Instance eta_Gen : Eta Gen := λ r,
  mkGen (generation r) (expectedLanes r) (terminalLanes r) (terminalMask r) (tracker r)
    (divergenceCounted r) (reported r) (sourceTranslationFaulted r).

(** A generation as the launches make it, around a started tracker. *)
Definition fresh (id : Z) (lanes : nat) (t : Predicate.Tracker) : Gen :=
  mkGen id lanes 0 mask_empty t false false false.

(** [finishDVRPredicateGeneration] *)
Definition finish (replaced : bool) (g : Gen) : Gen :=
  if reported g then g
  else if replaced && (terminalLanes g <? expectedLanes g)%nat then g <| reported := true |>
  else if (terminalLanes g <? expectedLanes g)%nat then g
  else g <| reported := true |>.

(** [retireDVRPredicateLane]; [None] is a lane that returned no value. *)
Definition retire (lane : nat) (value : option Z) (g : Gen) : Gen :=
  if reported g || (expectedLanes g <=? lane)%nat then g
  else if mask_test (terminalMask g) lane then g
  else
    let g := g <| terminalMask ::= λ w, mask_set w lane |> <| terminalLanes ::= S |> in
    let g :=
      match value with
      | Some v =>
          let g := g <| tracker ::= λ t, (Predicate.observe lane v t).1 |> in
          if negb (divergenceCounted g) && Predicate.divergent (tracker g)
          then g <| divergenceCounted := true |> else g
      | None => g
      end in
    finish false g.

(** Several lanes end, in order. *)
Definition retire_all (xs : list (nat * option Z)) (g : Gen) : Gen :=
  foldl (λ g x, retire x.1 x.2 g) g xs.

(** ** Specification *)

(** The values the tracker should see: the first end of each lane, if it brought one. *)
Fixpoint firsts (n : nat) (seen : list nat) (xs : list (nat * option Z)) : list (nat * Z) :=
  match xs with
  | [] => []
  | (l, v) :: xs =>
      if (n <=? l)%nat || bool_decide (l ∈ seen) then firsts n seen xs
      else match v with Some v => [(l, v)] | None => [] end ++ firsts n (l :: seen) xs
  end.

(** The lanes that have ended, latest first. *)
Fixpoint ended (n : nat) (seen : list nat) (xs : list (nat * option Z)) : list nat :=
  match xs with
  | [] => seen
  | (l, _) :: xs =>
      if (n <=? l)%nat || bool_decide (l ∈ seen) then ended n seen xs else ended n (l :: seen) xs
  end.

(** The state after the lanes in [seen] have ended. *)
Record gen_ok (n : nat) (seen : list nat) (g : Gen) : Prop := {
  ok_lanes : expectedLanes g = n;
  ok_mask : ∀ l, (l < n)%nat → mask_test (terminalMask g) l = bool_decide (l ∈ seen);
  ok_count : terminalLanes g = length seen;
  ok_nodup : NoDup seen;
  ok_range : ∀ l, l ∈ seen → (l < n)%nat;
  ok_reported : reported g = (n <=? length seen)%nat
}.

(** Distinct lanes below [n] that number [n] are all the lanes. *)
Lemma all_lanes n seen l :
  NoDup seen → (∀ k, k ∈ seen → (k < n)%nat) → (n ≤ length seen)%nat → (l < n)%nat → l ∈ seen.
Proof.
  intros Hnd Hr Hlen Hl. apply list_elem_of_In.
  apply (NoDup_length_incl (l := seen) (l' := seq 0 n)).
  - by apply NoDup_ListNoDup.
  - by rewrite length_seq.
  - intros k Hk. apply in_seq. apply list_elem_of_In, Hr in Hk. lia.
  - apply in_seq. lia.
Qed.

Lemma fresh_ok id n t : (0 < n)%nat → gen_ok n [] (fresh id n t).
Proof.
  intros Hn. split; simpl; try done.
  - intros l _. apply mask_test_empty.
  - constructor.
  - intros l Hl. by apply elem_of_nil in Hl.
  - by destruct n; [lia|].
Qed.

(** A lane that has ended, or is not one of the generation's, changes nothing. *)
Lemma retire_ignored n seen l v g :
  gen_ok n seen g → (n ≤ l)%nat ∨ l ∈ seen → retire l v g = g.
Proof.
  intros Hok Hl. unfold retire. rewrite (ok_lanes _ _ _ Hok).
  destruct (reported g) eqn:Hr; [done|]. destruct (Nat.leb_spec n l) as [|Hn]; [done|].
  rewrite (ok_mask _ _ _ Hok) by done. destruct Hl; [lia|]. by rewrite bool_decide_true.
Qed.

(** The tracker never forgets a selection, so divergence lasts. *)
Lemma mask_any_set w l : Predicate.mask_any (mask_set w l) = true.
Proof.
  assert (H : ∀ x n, set_bit x n ≠ 0).
  { intros x n E. pose proof (test_set_bit x n n) as Ht.
    rewrite E, test_bit_0, bool_decide_true in Ht by done. done. }
  unfold Predicate.mask_any, mask_set. destruct (l / 64 =? 0)%nat; simpl.
  - by rewrite (proj2 (Z.eqb_neq _ 0)).
  - rewrite (proj2 (Z.eqb_neq (set_bit _ _) 0)) by done. apply orb_true_r.
Qed.

Lemma observe_keeps l v t p :
  Predicate.mask_any (Predicate.pathMask p t) = true →
  Predicate.mask_any (Predicate.pathMask p (Predicate.observe l v t).1) = true.
Proof.
  intros H. unfold Predicate.observe. destruct (_ <=? l)%nat; [done|].
  destruct (mask_test _ l); [done|]. destruct (Predicate.count_matches _ v) as [q m].
  destruct (negb (m =? 1)%nat); [done|]. simpl. unfold Predicate.pathMask in *. simpl.
  rewrite !list_lookup_total_alt in *. destruct (decide (p = q)) as [->|Hne].
  - rewrite list_lookup_alter_eq. destruct (Predicate.selected t !! q); [|done]. apply mask_any_set.
  - by rewrite list_lookup_alter_ne.
Qed.

Lemma count_monotone (f g : nat → bool) ks n m :
  (∀ k, f k = true → g k = true) → (n ≤ m)%nat →
  (foldl (λ c k, if f k then S c else c) n ks ≤ foldl (λ c k, if g k then S c else c) m ks)%nat.
Proof.
  intros Hfg. revert n m. induction ks as [|k ks IH]; intros n m Hnm; simpl; [done|].
  apply IH. specialize (Hfg k). destruct (f k); [rewrite Hfg by done|destruct (g k)]; lia.
Qed.

Lemma divergent_keeps l v t :
  Predicate.divergent t = true → Predicate.divergent (Predicate.observe l v t).1 = true.
Proof.
  unfold Predicate.divergent. rewrite !Nat.ltb_lt. intros H. eapply Nat.lt_le_trans; [exact H|].
  unfold Predicate.selectedPaths, for_range.
  replace (Predicate.paths (Predicate.observe l v t).1) with (Predicate.paths t)
    by (unfold Predicate.observe; repeat (case_match; simpl; try done)).
  apply count_monotone; [|done]. intros k. apply observe_keeps.
Qed.

(** The counting of a new lane. *)
Lemma finish_new n seen l g :
  (n ≤ 128)%nat → gen_ok n seen g → (l < n)%nat → l ∉ seen → reported g = false →
  ∀ t d, let g' := finish false (mkGen (generation g) (expectedLanes g) (S (terminalLanes g))
                     (mask_set (terminalMask g) l) t d (reported g) (sourceTranslationFaulted g)) in
  gen_ok n (l :: seen) g' ∧ tracker g' = t ∧ divergenceCounted g' = d.
Proof.
  intros H128 Hok Hl Hn Hrep t d. cbv zeta. unfold finish. simpl.
  rewrite Hrep, (ok_lanes _ _ _ Hok), (ok_count _ _ _ Hok).
  assert (Hmask : ∀ k, (k < n)%nat →
            mask_test (mask_set (terminalMask g) l) k = bool_decide (k ∈ l :: seen)).
  { intros k Hk. rewrite mask_test_set by lia. rewrite (ok_mask _ _ _ Hok) by done.
    apply eq_true_iff_eq. rewrite orb_true_iff, !bool_decide_eq_true, elem_of_cons.
    split; [intros [->|?]; auto|intros [->|?]; auto]. }
  assert (Hrange : ∀ k, k ∈ l :: seen → (k < n)%nat).
  { intros k Hk. apply elem_of_cons in Hk as [->|Hk]; [done|by apply (ok_range _ _ _ Hok)]. }
  assert (Hnd : NoDup (l :: seen)) by (constructor; [done|apply Hok]).
  destruct (Nat.ltb_spec (S (length seen)) n) as [Hs|Hs]; simpl; (split; [|done]);
    split; simpl; try done; symmetry; [apply Nat.leb_gt|apply Nat.leb_le]; lia.
Qed.

(** A new lane. *)
Lemma retire_new n seen l v g :
  (n ≤ 128)%nat → gen_ok n seen g → (l < n)%nat → l ∉ seen →
  gen_ok n (l :: seen) (retire l v g)
  ∧ tracker (retire l v g)
    = match v with Some v => (Predicate.observe l v (tracker g)).1 | None => tracker g end
  ∧ (divergenceCounted g = Predicate.divergent (tracker g) →
     divergenceCounted (retire l v g) = Predicate.divergent (tracker (retire l v g))).
Proof.
  intros H128 Hok Hl Hn. unfold retire.
  assert (Hrep : reported g = false).
  { rewrite (ok_reported _ _ _ Hok). apply Nat.leb_gt.
    destruct (decide (length seen < n)%nat) as [|Hge]; [done|]. destruct Hn.
    apply (all_lanes n); [apply Hok|apply Hok|lia|done]. }
  pose proof (finish_new n seen l g H128 Hok Hl Hn Hrep) as Hf. cbv zeta in Hf.
  rewrite Hrep, (ok_lanes _ _ _ Hok), (proj2 (Nat.leb_gt _ _) Hl), (ok_mask _ _ _ Hok) by done.
  rewrite bool_decide_false by done. cbn [orb]. rewrite <- Hrep.
  destruct v as [v|].
  - cbn -[finish Predicate.divergent Predicate.observe].
    destruct (negb (divergenceCounted g) && Predicate.divergent (Predicate.observe l v (tracker g)).1) eqn:Ed;
      cbn -[finish Predicate.divergent Predicate.observe].
    + destruct (Hf (Predicate.observe l v (tracker g)).1 true) as (G1 & G2 & G3).
      rewrite Hrep in *. split; [exact G1|]. split; [exact G2|]. intros _. rewrite G2, G3.
      by apply andb_prop in Ed as [_ ->].
    + destruct (Hf (Predicate.observe l v (tracker g)).1 (divergenceCounted g)) as (G1 & G2 & G3).
      rewrite Hrep in *. split; [exact G1|]. split; [exact G2|]. intros Hd. rewrite G2, G3.
      destruct (divergenceCounted g) eqn:Ec; simpl in Ed; [|by rewrite Ed].
      symmetry. by apply divergent_keeps.
  - cbn -[finish]. destruct (Hf (tracker g) (divergenceCounted g)) as (G1 & G2 & G3).
    rewrite Hrep in *. split; [exact G1|]. split; [exact G2|]. intros Hd. by rewrite G2, G3.
Qed.

Lemma retire_all_spec n xs seen g :
  (n ≤ 128)%nat → gen_ok n seen g → divergenceCounted g = Predicate.divergent (tracker g) →
  let g' := retire_all xs g in
  gen_ok n (ended n seen xs) g'
  ∧ tracker g' = Predicate.observe_all (tracker g) (firsts n seen xs)
  ∧ divergenceCounted g' = Predicate.divergent (tracker g').
Proof.
  intros H128. revert seen g. induction xs as [|[l v] xs IH]; intros seen g Hok Hd; [done|].
  change (retire_all ((l, v) :: xs) g) with (retire_all xs (retire l v g)).
  cbn [firsts ended]. cbv zeta.
  destruct (Nat.leb_spec n l) as [Hl|Hl]; cbn [orb].
  { rewrite (retire_ignored n seen) by auto. by apply IH. }
  case_bool_decide as Hin.
  { rewrite (retire_ignored n seen) by auto. by apply IH. }
  destruct (retire_new n seen l v g H128 Hok Hl Hin) as (H1 & H2 & H3).
  destruct (IH (l :: seen) (retire l v g) H1 (H3 Hd)) as (G1 & G2 & G3).
  split; [exact G1|]. split; [|exact G3]. rewrite G2, H2. by destruct v.
Qed.

Lemma ended_elem n seen xs l :
  l ∈ ended n seen xs ↔ l ∈ seen ∨ (l < n)%nat ∧ l ∈ xs.*1.
Proof.
  revert seen. induction xs as [|[k v] xs IH]; intros seen; cbn [ended].
  - rewrite fmap_nil, elem_of_nil. tauto.
  - rewrite fmap_cons. cbn [fst]. rewrite elem_of_cons.
    destruct (Nat.leb_spec n k); cbn [orb].
    { rewrite IH. split; [intros [?|[??]]; auto|]. intros [?|[? [->|?]]]; auto. lia. }
    case_bool_decide as Hin; rewrite IH.
    { split; [intros [?|[??]]; auto|]. intros [?|[? [->|?]]]; auto. }
    rewrite elem_of_cons. split; [intros [[->|?]|[??]]; auto|intros [?|[? [->|?]]]; auto].
Qed.

(** A predicate generation of at most 128 lanes is reported exactly when each of its lanes
    has ended, in any order and however often its lanes and others are retired; its tracker has
    then seen the value each lane brought when it first ended and nothing else, and divergence
    has been counted, once, exactly when the tracker's lanes follow several paths. *)
Theorem generation_reports (id : Z) (n : nat) (t : Predicate.Tracker) (xs : list (nat * option Z))
    (Hn : (0 < n ≤ 128)%nat) (Ht : Predicate.divergent t = false) :
  let g := retire_all xs (fresh id n t) in
  (reported g = true ↔ ∀ l, (l < n)%nat → l ∈ xs.*1)
  ∧ (terminalLanes g ≤ n)%nat
  ∧ tracker g = Predicate.observe_all t (firsts n [] xs)
  ∧ divergenceCounted g = Predicate.divergent (tracker g).
Proof.
  destruct (retire_all_spec n xs [] (fresh id n t)) as (Hok & Htr & Hd);
    [lia|apply fresh_ok; lia|by simpl|].
  cbv zeta. set (g := retire_all xs (fresh id n t)) in *.
  assert (Hlen : (length (ended n [] xs) ≤ n)%nat).
  { transitivity (length (seq 0 n)); [|by rewrite length_seq].
    apply NoDup_incl_length; [apply NoDup_ListNoDup, Hok|].
    intros l Hl. apply in_seq. apply list_elem_of_In, (ok_range _ _ _ Hok) in Hl. lia. }
  split; [|split; [|split; [exact Htr|exact Hd]]].
  - rewrite (ok_reported _ _ _ Hok), Nat.leb_le. split.
    + intros Hge l Hl. pose proof (all_lanes n _ l (ok_nodup _ _ _ Hok) (ok_range _ _ _ Hok) Hge Hl) as He.
      apply ended_elem in He as [He|[_ He]]; [by apply elem_of_nil in He|done].
    + intros Hall. transitivity (length (seq 0 n)); [by rewrite length_seq|]. apply NoDup_incl_length.
      * apply seq_NoDup.
      * intros l Hl. apply in_seq in Hl. apply list_elem_of_In, ended_elem. right.
        split; [lia|]. apply Hall. lia.
  - by rewrite (ok_count _ _ _ Hok).
Qed.

(** ** Witness *)

(** Two paths told apart by bit 0; four lanes, one of which ends twice and one without a value. *)
Definition two_paths : Predicate.Tracker :=
  Predicate.begin 4 2 [1; 1; 0; 0] [0; 1; 0; 0] (Predicate.mkTracker 0 0 [] [] [] mask_empty mask_empty).

Definition four_ends : list (nat * option Z) :=
  [(2%nat, Some 8); (0%nat, Some 5); (2%nat, Some 9); (7%nat, Some 1); (1%nat, None); (3%nat, Some 4)].

Lemma generation_reports_witness :
  reported (retire_all four_ends (fresh 1 4 two_paths)) = true
  ∧ divergenceCounted (retire_all four_ends (fresh 1 4 two_paths)) = true.
Proof.
  assert (H : Predicate.divergent two_paths = false) by (vm_compute; reflexivity).
  destruct (generation_reports 1 4 two_paths four_ends ltac:(lia) H) as (H1 & _ & H2 & H3).
  split.
  - apply H1. intros l Hl. destruct l as [|[|[|[|l]]]]; [..|lia]; vm_compute; repeat constructor.
  - rewrite H3, H2. vm_compute. reflexivity.
Defined.
End Generation.
