(* ===== verification/Replay.v ===== *)
(** * Replay templates and the scalar replay of a source value

    Model of [DVRReplayTemplate] (src/cpu/o3/cpu.hh), of its construction in
    [launchDVRStridePrefetches] and [launchDVRNestedPrefetches] and of the interpreter of
    [replayDVRSource] (src/cpu/o3/cpu.cc) up to the address it queues.  The continuation VIR of a
    template feeds only statistics and is not part of the record. *)

From stdpp Require Import gmap relations.
From S2P Require Import Prelude Inst Uop Recorder Vir Relation.

Module Replay.
Import Uop.

(** [DVRLoopBoundDetector::MaxArchitecturalIntRegs] *)
Definition MaxRegs : Z := 32.

(** [DVRReplayTemplate] *)
Record Template := mkTemplate {
  triggerPC : Z;  stridePC : Z;  loopControlPC : Z;  finalLoadPC : Z;
  count : nat;  scalarCount : nat;  triggerDestination : Z;  continuePastFLR : bool;
  uops : list Uop;  initialRegs : list Z;  valid : bool
}.

(** ** Building a template *)

(** The loop that sets [scalarCount]: one past the last load after the trigger. *)
Definition scalar_count (r : Recorder.Recorder) : nat :=
  foldl (λ n k, if load (Recorder.uop_at r k) then S k else n) 0%nat
        (seq 1 (Recorder.count r - 1)).

(** The register numbers of the sources that the prefix does not define. *)
Definition external_ok (external : Z) : bool :=
  forallb (λ k, negb (Z.testbit external (Z.of_nat k)) || (Z.of_nat k <? MaxRegs)) (seq 0 32).

(** The uops the replay can step over; only the ordinary launch admits an indirect jump. *)
Definition supported (indirect : bool) (u : Uop) : bool :=
  negb (bool_decide (semantic u = Unsupported))
  || (negb (control u) && (intDestinations u =? 0))
  || (control u && negb (conditional u) && negb (branchTargetPC u =? 0) && (intDestinations u =? 0))
  || (indirect && control u && negb (conditional u) && (branchTargetPC u =? 0)
      && (intDestinations u =? 0)).

(** One uop of the validation loop on [valid] and [defined_regs]. *)
Definition validate_uop (indirect : bool) (u : Uop) (st : bool * Z) : bool * Z :=
  let '(ok, defined) := st in
  (ok && external_ok (Z.land (intSources u) (Z.lnot defined)) && supported indirect u,
   Z.lor defined (intDestinations u)).

Definition validate (indirect : bool) (r : Recorder.Recorder) (ks : list nat) (st : bool * Z)
    : bool * Z :=
  foldl (λ st k, validate_uop indirect (Recorder.uop_at r k) st) st ks.

(** The template of a trigger: the back-edge target and the branch are the loop-bound detector's,
    [flr] is the committed final load and [regs] the register image at the next trigger. *)
Definition make_template (indirect : bool) (pc target branch flr : Z) (regs : list Z)
    (r : Recorder.Recorder) : Template :=
  let n := Recorder.count r in
  let scalar := scalar_count r in
  let dest := if (n =? 0)%nat then -1 else destination (Recorder.uop_at r 0) in
  let dest_ok := (0 <? dest) && (dest <? MaxRegs) in
  let defined := if dest_ok then Z.lor 1 (Z.shiftl 1 dest) else 1 in
  mkTemplate pc (if target =? 0 then pc else target) branch
    (if (1 <? scalar)%nat then Uop.pc (Recorder.uop_at r (scalar - 1)) else 0)
    n scalar dest (Recorder.hasConditionalBetween r flr branch) (take n (Recorder.uops r)) regs
    (negb (n =? 0)%nat && (validate indirect r (seq 1 (scalar - 1)) ((1 <? scalar)%nat && dest_ok, defined)).1).

(** ** The interpreter *)

Definition uop_at (t : Template) (k : nat) : Uop := uops t !!! k.

(** [uses_source1] *)
Definition uses_source1 (u : Uop) : bool :=
  match semantic u with
  | Add | Sub | And | Or | Xor | ShiftLeft | ShiftRightLogical | ShiftRightArithmetic
  | Multiply | AddWord | SubWord => true
  | _ => conditional u
  end.

(** [is_replayed_load] *)
Definition is_replayed_load (u : Uop) : bool :=
  match semantic u with
  | LoadAddress | LoadByteSigned | LoadByteUnsigned | LoadHalfSigned | LoadHalfUnsigned
  | LoadWordSigned | LoadWordUnsigned | LoadDouble => true
  | _ => false
  end.

(** The first operand; [None] is the rejection of an untracked register. *)
Definition first_operand (u : Uop) (regs : list Z) : option Z :=
  if MaxRegs <=? source0 u then None
  else Some (if 0 <=? source0 u then regs !!! Z.to_nat (source0 u) else 0).

(** The second operand, read only where [uses_source1] says so. *)
Definition second_operand (u : Uop) (regs : list Z) : option Z :=
  if uses_source1 u then
    if conditional u && (source1 u <? 0) then Some 0
    else if (source1 u <? 0) || (MaxRegs <=? source1 u) then None
    else Some (regs !!! Z.to_nat (source1 u))
  else Some 0.

(** The first captured uop after the trigger with a PC. *)
Definition find_uop (t : Template) (pc : Z) : option nat :=
  find_from 1 (count t - 1) (λ k, Uop.pc (uop_at t k) =? pc).

(** The check of a computed address against a trained relation; the products of the
    relation wrap as the compiled code does. *)
Definition agrees (tabs : Relation.Tables) (t : Template) (u : Uop) (value address : Z) : bool :=
  match Relation.relations tabs !! (triggerPC t, Uop.pc u) with
  | Some r =>
      if Relation.trained r then
        let expected := s64 (Relation.scale r * s64 value + Relation.offset r) in
        (0 <=? expected) && (expected =? address)
        && (Relation.minAddress r <=? address) && (address <=? Relation.maxAddress r)
      else true
  | None => true
  end.

(** User addresses that can be queued. *)
Definition queueable (address : Z) : bool := (4096 <=? address) && (address <? 2 ^ 47).

(** The interpreter's state and what one iteration does. *)
Record Machine := mkMachine { index : nat;  regs : list Z;  alternate_selected : bool }.
Inductive Flow := Goto (m : Machine) | Reject | Hit (k : nat) (address : Z) (alternate : bool).

(** One iteration of the loop. *)
Definition replay_step (tabs : Relation.Tables) (t : Template) (value : Z) (m : Machine) : Flow :=
  let u := uop_at t (index m) in
  match first_operand u (regs m), second_operand u (regs m) with
  | Some a, Some b =>
      if conditional u then
        match (if tainted u then evaluateBranch u a b else Some (branchTaken u)) with
        | None => Reject
        | Some taken =>
            let next := if taken then branchTargetPC u else fallthroughPC u in
            let captured := if branchTaken u then branchTargetPC u else fallthroughPC u in
            if next =? 0 then Reject
            else match find_uop t next with
                 | None => Reject
                 | Some k => Goto (mkMachine k (regs m)
                                     (negb (next =? captured) || alternate_selected m))
                 end
        end
      else if control u && negb (branchTargetPC u =? 0) then
        if negb (intDestinations u =? 0) then Reject
        else match find_uop t (branchTargetPC u) with
             | None => Reject
             | Some k => Goto (mkMachine k (regs m) (alternate_selected m))
             end
      else if Vir.is_skip u then Goto (mkMachine (S (index m)) (regs m) (alternate_selected m))
      else
        match evaluate u a b with
        | None => Reject
        | Some v =>
            if is_replayed_load u then
              if agrees tabs t u value v && queueable v
              then Hit (index m) v (alternatePath u || alternate_selected m) else Reject
            else if (destination u <=? 0) || (MaxRegs <=? destination u) then Reject
            else Goto (mkMachine (S (index m))
                         (<[0%nat := 0]> (<[Z.to_nat (destination u) := v]> (regs m)))
                         (alternate_selected m))
        end
  | _, _ => Reject
  end.

(** The loop; the fuel is the code's own bound on [steps]. *)
Fixpoint replay_loop (tabs : Relation.Tables) (t : Template) (value : Z) (fuel : nat) (m : Machine)
    : Flow :=
  if (scalarCount t <=? index m)%nat then Reject
  else match fuel with
       | O => Reject
       | S fuel => match replay_step tabs t value m with
                   | Goto m => replay_loop tabs t value fuel m
                   | f => f
                   end
       end.

(** [replayDVRSource] up to the address. *)
Definition start (t : Template) (value : Z) : Machine :=
  mkMachine 1 (<[Z.to_nat (triggerDestination t) := value]> (<[0%nat := 0]> (initialRegs t))) false.

Definition replay_target (tabs : Relation.Tables) (t : Template) (value : Z) : Flow :=
  if negb (valid t) || (scalarCount t <=? 1)%nat then Reject
  else replay_loop tabs t value (count t * 2) (start t value).

(** ** The program of a template

    The reference: uops with both operands read from the register file, branches resolved by
    their operands where the recorder saw them depend on the trigger and as recorded elsewhere. *)

Definition operand (r : Z) (regs : list Z) : Z := if 0 <=? r then regs !!! Z.to_nat r else 0.

Definition branch_direction (u : Uop) (regs : list Z) : option bool :=
  if tainted u then evaluateBranch u (operand (source0 u) regs) (operand (source1 u) regs)
  else Some (branchTaken u).

(** An uop that computes an integer result. *)
Definition computes (u : Uop) : Prop :=
  conditional u = false ∧ (control u = true → branchTargetPC u = 0) ∧ Vir.is_skip u = false.

(** One uop inside the prefix, from an index and registers to the next. *)
Inductive exec (t : Template) : nat * list Z → nat * list Z → Prop :=
  | exec_branch k regs taken next k' :
      (k < scalarCount t)%nat → conditional (uop_at t k) = true →
      branch_direction (uop_at t k) regs = Some taken →
      next = (if taken then branchTargetPC (uop_at t k) else fallthroughPC (uop_at t k)) →
      next ≠ 0 → find_uop t next = Some k' → exec t (k, regs) (k', regs)
  | exec_jump k regs k' :
      (k < scalarCount t)%nat → conditional (uop_at t k) = false → control (uop_at t k) = true →
      branchTargetPC (uop_at t k) ≠ 0 → intDestinations (uop_at t k) = 0 →
      find_uop t (branchTargetPC (uop_at t k)) = Some k' → exec t (k, regs) (k', regs)
  | exec_skip k regs :
      (k < scalarCount t)%nat → conditional (uop_at t k) = false →
      (control (uop_at t k) = true → branchTargetPC (uop_at t k) = 0) →
      Vir.is_skip (uop_at t k) = true → exec t (k, regs) (S k, regs)
  | exec_value k regs v :
      (k < scalarCount t)%nat → computes (uop_at t k) → is_replayed_load (uop_at t k) = false →
      evaluate (uop_at t k) (operand (source0 (uop_at t k)) regs)
               (operand (source1 (uop_at t k)) regs) = Some v →
      0 < destination (uop_at t k) < MaxRegs →
      exec t (k, regs) (S k, <[0%nat := 0]> (<[Z.to_nat (destination (uop_at t k)) := v]> regs)).

(** The load at [k] computes an address that may be queued. *)
Definition loads (tabs : Relation.Tables) (t : Template) (value : Z) (k : nat) (regs : list Z)
    (address : Z) : Prop :=
  let u := uop_at t k in
  (k < scalarCount t)%nat ∧ computes u ∧ is_replayed_load u = true
  ∧ evaluate u (operand (source0 u) regs) (operand (source1 u) regs) = Some address
  ∧ agrees tabs t u value address = true ∧ queueable address = true.

(** The uops whose second operand the replay reads wherever they need it. *)
Definition both_operands (u : Uop) : Prop :=
  match semantic u with
  | MultiplyWord | Remainder | RemainderUnsigned | RemainderWord | RemainderUnsignedWord => False
  | _ => True
  end.

Definition replayable (u : Uop) : Prop :=
  both_operands u ∧ source0 u < MaxRegs ∧ source1 u < MaxRegs
  ∧ (uses_source1 u = true → conditional u = false → 0 <= source1 u).

(** The other semantics ignore the second operand. *)
Lemma evaluate_source1_unused u a b b' :
  both_operands u → uses_source1 u = false → evaluate u a b = evaluate u a b'.
Proof. unfold both_operands, uses_source1, evaluate. by destruct (semantic u). Qed.

Lemma first_operand_spec u regs :
  source0 u < MaxRegs → first_operand u regs = Some (operand (source0 u) regs).
Proof. intros H. unfold first_operand, operand. by rewrite (proj2 (Z.leb_gt _ _) H). Qed.

Lemma second_operand_spec u regs :
  replayable u →
  ∃ b, second_operand u regs = Some b
       ∧ (conditional u = true → b = operand (source1 u) regs)
       ∧ ∀ a, evaluate u a b = evaluate u a (operand (source1 u) regs).
Proof.
  intros (Hb & _ & H1 & Hs). unfold second_operand. destruct (uses_source1 u) eqn:Hu.
  - unfold operand. destruct (Z.ltb_spec (source1 u) 0) as [Hn|Hn].
    + rewrite (proj2 (Z.leb_gt 0 (source1 u)) Hn). destruct (conditional u); [by exists 0|].
      specialize (Hs eq_refl eq_refl). lia.
    + rewrite andb_false_r, (proj2 (Z.leb_le 0 (source1 u)) Hn), (proj2 (Z.leb_gt _ _) H1).
      by eexists.
  - exists 0. split; [done|]. split.
    + unfold uses_source1 in Hu. intros Hc. destruct (semantic u); congruence.
    + intros a. by apply evaluate_source1_unused.
Qed.

(** The interpreter takes exactly the steps of the program. *)
Lemma step_is_exec tabs t value m m' :
  (index m < scalarCount t)%nat → replayable (uop_at t (index m)) →
  replay_step tabs t value m = Goto m' → exec t (index m, regs m) (index m', regs m').
Proof.
  intros Hk Hr. destruct Hr as (Hb & H0 & H1 & Hs) eqn:Hreq. clear Hreq.
  unfold replay_step. rewrite first_operand_spec by done.
  destruct (second_operand_spec (uop_at t (index m)) (regs m)) as (b & -> & Hcond & Hev); [done|].
  destruct (conditional (uop_at t (index m))) eqn:Hc.
  { specialize (Hcond eq_refl). subst b.
    fold (branch_direction (uop_at t (index m)) (regs m)).
    destruct (branch_direction (uop_at t (index m)) (regs m)) as [taken|] eqn:Ht; [|done].
    set (next := if taken then _ else _). destruct (Z.eqb_spec next 0) as [|Hn]; [done|].
    destruct (find_uop t next) as [k|] eqn:Hf; [|done]. intros [= <-]. simpl.
    by eapply exec_branch. }
  destruct (control (uop_at t (index m)) && negb (branchTargetPC (uop_at t (index m)) =? 0)) eqn:Hj.
  { apply andb_prop in Hj as [Hcl Hbt]. apply negb_true_iff, Z.eqb_neq in Hbt.
    destruct (Z.eqb_spec (intDestinations (uop_at t (index m))) 0); [|done]. simpl.
    destruct (find_uop t _) as [k|] eqn:Hf; [|done]. intros [= <-]. simpl. by apply exec_jump. }
  assert (Hnj : control (uop_at t (index m)) = true → branchTargetPC (uop_at t (index m)) = 0).
  { intros E. rewrite E in Hj. simpl in Hj. by apply negb_false_iff, Z.eqb_eq in Hj. }
  destruct (Vir.is_skip (uop_at t (index m))) eqn:Hsk.
  { intros [= <-]. simpl. by apply exec_skip. }
  rewrite Hev. destruct (evaluate _ _ _) as [v|] eqn:Hv; [|done].
  destruct (is_replayed_load _) eqn:Hl; [by destruct (agrees _ _ _ _ _ && queueable v)|].
  destruct (Z.leb_spec (destination (uop_at t (index m))) 0); [done|].
  destruct (Z.leb_spec MaxRegs (destination (uop_at t (index m)))); [done|]. simpl.
  intros [= <-]. simpl. apply exec_value; try done; lia.
Qed.

Lemma exec_is_step tabs t value k rs k' rs' sel :
  replayable (uop_at t k) → exec t (k, rs) (k', rs') →
  ∃ sel', replay_step tabs t value (mkMachine k rs sel) = Goto (mkMachine k' rs' sel').
Proof.
  intros Hr He. pose proof Hr as (Hb & H0 & H1 & Hs). unfold replay_step. simpl.
  rewrite first_operand_spec by done.
  destruct (second_operand_spec (uop_at t k) rs Hr) as (b & -> & Hcond & Hev).
  inversion He as [? ? taken next ? _ Hc Hd Hn Hnz Hf | ? ? ? _ Hc Hcl Hbt Hi Hf
                  | ? ? _ Hc Hnj Hsk | ? ? v _ [Hc [Hnj Hsk]] Hl Hv Hdst]; subst; rewrite Hc.
  - rewrite (Hcond Hc). fold (branch_direction (uop_at t k) rs'). rewrite Hd.
    rewrite (proj2 (Z.eqb_neq _ 0) Hnz), Hf. by eexists.
  - rewrite Hcl, (proj2 (Z.eqb_neq _ 0) Hbt), Hi. simpl. rewrite Hf. by eexists.
  - rewrite Hsk. destruct (control (uop_at t k)) eqn:E; simpl; [rewrite (Hnj eq_refl); simpl|]; by eexists.
  - rewrite Hsk, Hev, Hv, Hl.
    assert (Hj : control (uop_at t k) && negb (branchTargetPC (uop_at t k) =? 0) = false).
    { destruct (control (uop_at t k)) eqn:E; simpl; [by rewrite (Hnj eq_refl)|done]. }
    rewrite Hj. rewrite (proj2 (Z.leb_gt _ 0)) by lia. rewrite (proj2 (Z.leb_gt MaxRegs _)) by lia.
    by eexists.
Qed.

(** It stops with an address exactly at a load of the program. *)
Lemma hit_is_load tabs t value k rs sel k' a alt :
  (k < scalarCount t)%nat → replayable (uop_at t k) →
  replay_step tabs t value (mkMachine k rs sel) = Hit k' a alt →
  k' = k ∧ loads tabs t value k rs a.
Proof.
  intros Hk Hr. pose proof Hr as (Hb & H0 & H1 & Hs). unfold replay_step. simpl.
  rewrite first_operand_spec by done.
  destruct (second_operand_spec (uop_at t k) rs Hr) as (b & -> & Hcond & Hev).
  destruct (conditional (uop_at t k)) eqn:Hc; [repeat case_match; done|].
  destruct (control (uop_at t k) && negb (branchTargetPC (uop_at t k) =? 0)) eqn:Hj;
    [repeat case_match; done|].
  destruct (Vir.is_skip (uop_at t k)) eqn:Hsk; [done|].
  rewrite Hev. destruct (evaluate _ _ _) as [v|] eqn:Hv; [|done].
  destruct (is_replayed_load _) eqn:Hl; [|repeat case_match; done].
  destruct (agrees _ _ _ _ _ && queueable v) eqn:Ha; [|done]. apply andb_prop in Ha as [Ha Hq].
  intros [= <- <- _]. split; [done|]. unfold loads, computes. repeat split; try done.
  intros E. rewrite E in Hj. simpl in Hj. by apply negb_false_iff, Z.eqb_eq in Hj.
Qed.

Lemma load_is_hit tabs t value k rs sel a :
  replayable (uop_at t k) → loads tabs t value k rs a →
  ∃ alt, replay_step tabs t value (mkMachine k rs sel) = Hit k a alt.
Proof.
  intros Hr (_ & (Hc & Hnj & Hsk) & Hl & Hv & Ha & Hq). pose proof Hr as (Hb & H0 & H1 & Hs).
  unfold replay_step. simpl. rewrite first_operand_spec by done.
  destruct (second_operand_spec (uop_at t k) rs Hr) as (b & -> & _ & Hev).
  assert (Hj : control (uop_at t k) && negb (branchTargetPC (uop_at t k) =? 0) = false).
  { destruct (control (uop_at t k)) eqn:E; simpl; [by rewrite (Hnj eq_refl)|done]. }
  rewrite Hc, Hj, Hsk, Hev, Hv, Hl, Ha, Hq. by eexists.
Qed.

Lemma find_uop_pos t pc k : find_uop t pc = Some k → (1 ≤ k < count t)%nat.
Proof. unfold find_uop. intros H. apply find_from_Some in H as [? _]. lia. Qed.

Lemma exec_pos t x y : exec t x y → (1 ≤ x.1)%nat → (1 ≤ y.1)%nat.
Proof.
  intros H. inversion H; subst; simpl; try lia;
    match goal with Hf : find_uop _ _ = Some _ |- _ => apply find_uop_pos in Hf; lia end.
Qed.

Section replayable.
Context (tabs : Relation.Tables) (t : Template) (value : Z).
Context (Hprefix : ∀ k, (1 ≤ k < scalarCount t)%nat → replayable (uop_at t k)).

Lemma loop_hit fuel m k a alt :
  (1 ≤ index m)%nat → replay_loop tabs t value fuel m = Hit k a alt →
  ∃ n rs, (n < fuel)%nat ∧ nsteps (exec t) n (index m, regs m) (k, rs) ∧ loads tabs t value k rs a.
Proof.
  revert m. induction fuel as [|fuel IH]; intros m Hm; cbn [replay_loop];
    (destruct (Nat.leb_spec (scalarCount t) (index m)) as [|Hk]; [done|]); [done|].
  assert (Hr : replayable (uop_at t (index m))) by (apply Hprefix; lia).
  destruct (replay_step tabs t value m) as [m1 | | k1 a1 alt1] eqn:E; [|done|].
  - pose proof (step_is_exec tabs t value m m1 Hk Hr E) as He.
    intros H. destruct (IH m1 (exec_pos t _ _ He Hm) H) as (n & rs & Hn & Hs & Hl).
    exists (S n), rs. split; [lia|]. split; [|done]. by eapply nsteps_l.
  - intros [= -> -> ->]. destruct m as [i rs sel]. simpl in *.
    destruct (hit_is_load tabs t value i rs sel k a alt Hk Hr E) as [Hki Hl]; subst k.
    exists 0%nat, rs. repeat split; [lia|constructor|apply Hl..].
Qed.

Lemma loop_follows n fuel x k rs a sel :
  (1 ≤ x.1)%nat → (n < fuel)%nat → nsteps (exec t) n x (k, rs) → loads tabs t value k rs a →
  ∃ alt, replay_loop tabs t value fuel (mkMachine x.1 x.2 sel) = Hit k a alt.
Proof.
  revert fuel x sel. induction n as [|n IH]; intros fuel x sel Hx Hf Hs Hl;
    (destruct fuel as [|fuel]; [lia|]); cbn [replay_loop]; simpl; inversion Hs as [|? ? y ? He Hs']; subst.
  - simpl. rewrite (proj2 (Nat.leb_gt _ _) (proj1 Hl)).
    destruct (load_is_hit tabs t value k rs sel a) as [alt ->]; [|done|by eexists].
    apply Hprefix. split; [done|apply Hl].
  - destruct x as [i xs], y as [j ys]. simpl in *.
    assert (Hi : (i < scalarCount t)%nat) by (by inversion He).
    rewrite (proj2 (Nat.leb_gt _ _) Hi).
    destruct (exec_is_step tabs t value i xs j ys sel) as [sel' ->]; [by apply Hprefix|done|].
    apply (IH fuel (j, ys) sel'); [by apply (exec_pos t _ _ He)|lia|done|done].
Qed.
End replayable.

(** C21: The scalar replay runs the captured program.  Take a valid template (an invalid one is refused) whose
    scalar prefix has more than the trigger, and where the replay can read the operands of the
    prefix's uops.  Then the replay of a source value hits an address at a uop exactly
    when the program, started on the registers of the template with the value in the trigger's
    destination, reaches this uop, a load of the prefix, within the step bound and computes this
    address there, and the address is plausible (prefetchable, and as the trained relation predicts).  What then
    happens to a hit, whose line may be known or find the queue full, is not the replay's. *)
Theorem replay_is_program (tabs : Relation.Tables) (t : Template) (value : Z) (k : nat) (a : Z)
    (Hvalid : valid t = true) (Hcount : (1 < scalarCount t)%nat)
    (Hprefix : ∀ j, (1 ≤ j < scalarCount t)%nat → replayable (uop_at t j)) :
  (∃ alt, replay_target tabs t value = Hit k a alt)
  ↔ ∃ n rs, (n < count t * 2)%nat ∧ nsteps (exec t) n (1%nat, regs (start t value)) (k, rs)
            ∧ loads tabs t value k rs a.
Proof.
  unfold replay_target. rewrite Hvalid, (proj2 (Nat.leb_gt _ _) Hcount). cbn [negb orb]. split.
  - intros [alt H]. by apply (loop_hit tabs t value Hprefix _ (start t value) k a alt).
  - intros (n & rs & Hn & Hs & Hl).
    by apply (loop_follows tabs t value Hprefix n (count t * 2) (1%nat, regs (start t value)) k rs a false).
Qed.

(** Where a hit comes from, whatever the operands. *)
Lemma step_hit tabs t value m k a alt :
  replay_step tabs t value m = Hit k a alt →
  k = index m ∧ is_replayed_load (uop_at t k) = true
  ∧ agrees tabs t (uop_at t k) value a = true ∧ queueable a = true.
Proof.
  unfold replay_step. set (u := uop_at t (index m)).
  destruct (first_operand u (regs m)) as [x|], (second_operand u (regs m)) as [y|]; try done.
  destruct (conditional u); [repeat case_match; done|].
  destruct (control u && negb (branchTargetPC u =? 0)); [repeat case_match; done|].
  destruct (Vir.is_skip u); [done|]. destruct (evaluate u x y) as [v|]; [|done].
  destruct (is_replayed_load u) eqn:Hl; [|repeat case_match; done].
  destruct (agrees tabs t u value v && queueable v) eqn:Ha; [|done]. apply andb_prop in Ha as [Ha Hq].
  by intros [= <- <- _].
Qed.

Lemma loop_hit_spec tabs t value fuel m k a alt :
  replay_loop tabs t value fuel m = Hit k a alt →
  (k < scalarCount t)%nat ∧ is_replayed_load (uop_at t k) = true
  ∧ agrees tabs t (uop_at t k) value a = true ∧ queueable a = true.
Proof.
  revert m. induction fuel as [|fuel IH]; intros m; cbn [replay_loop];
    (destruct (Nat.leb_spec (scalarCount t) (index m)) as [|Hk]; [done|]); [done|].
  destruct (replay_step tabs t value m) as [m1 | | k1 a1 alt1] eqn:E; [apply IH|done|].
  intros [= -> -> ->]. apply step_hit in E as (-> & ? & ? & ?). done.
Qed.

(** C24: Every address that the scalar replay queues is a load's of the captured prefix, lies in
    the user range, and, where the load has a trained relation with the trigger, is the value
    that relation predicts and lies within the addresses the load has been seen to touch. *)
Theorem replayed_address_bounds (tabs : Relation.Tables) (t : Template) (value : Z) (k : nat) (a : Z)
    (alt : bool) (H : replay_target tabs t value = Hit k a alt) :
  (k < scalarCount t)%nat ∧ is_replayed_load (uop_at t k) = true ∧ 4096 <= a < 2 ^ 47
  ∧ (∀ r, Relation.relations tabs !! (triggerPC t, Uop.pc (uop_at t k)) = Some r →
          Relation.trained r = true →
          a = s64 (Relation.scale r * s64 value + Relation.offset r)
          ∧ Relation.minAddress r <= a <= Relation.maxAddress r).
Proof.
  unfold replay_target in H. destruct (negb (valid t) || _); [done|].
  apply loop_hit_spec in H as (Hk & Hl & Ha & Hq). split; [done|]. split; [done|].
  unfold queueable in Hq. apply andb_prop in Hq as [Hq1 Hq2]. split; [lia|].
  intros r Hr Ht. unfold agrees in Ha. rewrite Hr, Ht in Ha. cbv zeta in Ha.
  repeat (apply andb_prop in Ha as [Ha ?]). lia.
Qed.

(** ** Templates *)

(** Register numbers of a 32-bit mask are below 32: this part of the validation always holds. *)
Lemma external_ok_true external : external_ok external = true.
Proof.
  unfold external_ok. apply forallb_forall. intros k Hk. apply in_seq in Hk.
  apply orb_true_intro. right. apply Z.ltb_lt. unfold MaxRegs. lia.
Qed.

Lemma validate_spec indirect r ks ok defined :
  (validate indirect r ks (ok, defined)).1
  = ok && forallb (λ k, supported indirect (Recorder.uop_at r k)) ks.
Proof.
  unfold validate. revert ok defined. induction ks as [|k ks IH]; intros ok defined; simpl.
  - by rewrite andb_true_r.
  - rewrite IH, external_ok_true. rewrite andb_true_r. by rewrite andb_assoc.
Qed.

(** The last load of a stretch of uops. *)
Lemma last_load r lo n acc :
  let c := foldl (λ m k, if load (Recorder.uop_at r k) then S k else m) acc (seq lo n) in
  (c = acc ∧ ∀ k, (lo ≤ k < lo + n)%nat → load (Recorder.uop_at r k) = false)
  ∨ (∃ k, c = S k ∧ (lo ≤ k < lo + n)%nat ∧ load (Recorder.uop_at r k) = true
          ∧ ∀ j, (k < j < lo + n)%nat → load (Recorder.uop_at r j) = false).
Proof.
  cbv zeta. induction n as [|n IH]; [left; simpl; split; [done|lia]|].
  rewrite seq_S, foldl_app. cbn [foldl].
  destruct (load (Recorder.uop_at r (lo + n))) eqn:E.
  - right. exists (lo + n)%nat. repeat split; [lia|lia|done|lia].
  - assert (Hnew : ∀ j, j = (lo + n)%nat → load (Recorder.uop_at r j) = false) by (by intros ? ->).
    destruct IH as [[Hc Hn]|(k & Hc & Hk & Hl & Hn)]; [left|right; exists k].
    + split; [done|]. intros j Hj. destruct (decide (j = lo + n)%nat); [by apply Hnew|apply Hn; lia].
    + repeat split; [done|lia|lia|done|]. intros j Hj.
      destruct (decide (j = lo + n)%nat); [by apply Hnew|apply Hn; lia].
Qed.

Lemma template_uop indirect pc target branch flr rs r k :
  (k < Recorder.count r)%nat →
  uop_at (make_template indirect pc target branch flr rs r) k = Recorder.uop_at r k.
Proof.
  intros Hk. unfold uop_at, Recorder.uop_at. simpl.
  by rewrite !list_lookup_total_alt, lookup_take_lt.
Qed.

(** A template's prefix ends at the last captured load after the trigger, whose PC is its
    final load, and it is empty when there is none; the template is valid exactly when there is
    such a load, the trigger writes one of x1 to x31 and every uop of the prefix can be stepped
    over, an indirect jump only by the ordinary launch. *)
Theorem template_spec (indirect : bool) (pc target branch flr : Z) (rs : list Z)
    (r : Recorder.Recorder) :
  let t := make_template indirect pc target branch flr rs r in
  ((scalarCount t = 0%nat ∧ ∀ k, (1 ≤ k < count t)%nat → load (uop_at t k) = false)
   ∨ ∃ k, scalarCount t = S k ∧ (1 ≤ k < count t)%nat ∧ load (uop_at t k) = true
          ∧ finalLoadPC t = Uop.pc (uop_at t k)
          ∧ ∀ j, (k < j < count t)%nat → load (uop_at t j) = false)
  ∧ (valid t = true ↔
     (1 < scalarCount t)%nat ∧ 0 < triggerDestination t < MaxRegs
     ∧ ∀ k, (1 ≤ k < scalarCount t)%nat → supported indirect (uop_at t k) = true).
Proof.
  cbv zeta. set (t := make_template indirect pc target branch flr rs r).
  assert (Hu : ∀ k, (k < count t)%nat → uop_at t k = Recorder.uop_at r k)
    by (intros k; apply template_uop).
  assert (Hload : (scalarCount t = 0%nat ∧ ∀ k, (1 ≤ k < count t)%nat → load (uop_at t k) = false)
   ∨ ∃ k, scalarCount t = S k ∧ (1 ≤ k < count t)%nat ∧ load (uop_at t k) = true
          ∧ finalLoadPC t = Uop.pc (uop_at t k)
          ∧ ∀ j, (k < j < count t)%nat → load (uop_at t j) = false).
  { destruct (last_load r 1 (Recorder.count r - 1) 0%nat) as [[Hc Hn]|(k & Hc & Hk & Hl & Hn)];
      fold (scalar_count r) in Hc; [left|right; exists k].
    - split; [done|]. intros k Hk. rewrite Hu by lia. apply Hn. subst t; simpl in *. lia.
    - assert (Hkc : (1 ≤ k < count t)%nat) by (subst t; simpl; lia).
      split; [done|]. split; [done|]. rewrite Hu by lia. split; [done|]. split.
      + subst t. simpl. rewrite Hc. rewrite (proj2 (Nat.ltb_lt 1 (S k))) by lia.
        replace (S k - 1)%nat with k by lia. done.
      + intros j Hj. rewrite Hu by lia. apply Hn. subst t; simpl in *. lia. }
  split; [exact Hload|].
  assert (Hv : valid t = negb (count t =? 0)%nat
                 && (((1 <? scalarCount t)%nat && ((0 <? triggerDestination t) && (triggerDestination t <? MaxRegs)))
                     && forallb (λ k, supported indirect (Recorder.uop_at r k)) (seq 1 (scalarCount t - 1)))).
  { subst t. simpl. by rewrite validate_spec. }
  rewrite Hv, !andb_true_iff, negb_true_iff, Nat.eqb_neq, Nat.ltb_lt, !Z.ltb_lt, forallb_forall.
  assert (Hin : (1 < scalarCount t)%nat → ∀ k, In k (seq 1 (scalarCount t - 1)) ↔ (1 ≤ k < scalarCount t)%nat).
  { intros Hlt k. rewrite in_seq. lia. }
  assert (Hle : (scalarCount t ≤ count t)%nat) by (destruct Hload as [[? _]|(k & ? & ? & _)]; lia).
  split.
  - intros (_ & (H1 & H2) & H3). split; [done|]. split; [done|].
    intros k Hk. rewrite Hu by lia. apply H3, Hin; done.
  - intros (H1 & H2 & H3). split; [lia|]. split; [done|].
    intros k Hk. apply Hin in Hk; [|done]. rewrite <- Hu by lia. by apply H3.
Qed.

(** ** Witnesses *)

(** A trigger load into x5, x6 = x5 << 3, x7 = x6 + x8 and a load from x7 + 16. *)
Definition trigger_uop : Uop :=
  Uop_init <| Uop.pc := 100 |> <| semantic := LoadDouble |> <| load := true |> <| source0 := 9 |>
           <| destination := 5 |> <| intDestinations := 32 |>.
Definition shift_uop : Uop :=
  Uop_init <| Uop.pc := 104 |> <| semantic := ShiftLeftImmediate |> <| source0 := 5 |>
           <| immediate := 3 |> <| destination := 6 |> <| intDestinations := 64 |>.
Definition add_uop (s : Semantic) : Uop :=
  Uop_init <| Uop.pc := 108 |> <| semantic := s |> <| source0 := 6 |> <| source1 := 8 |>
           <| destination := 7 |> <| intDestinations := 128 |>.
Definition load_uop : Uop :=
  Uop_init <| Uop.pc := 112 |> <| semantic := LoadDouble |> <| load := true |> <| source0 := 7 |>
           <| immediate := 16 |> <| destination := 10 |> <| intDestinations := 1024 |>.

Definition chain (s : Semantic) : Template :=
  make_template true 100 0 0 0 (<[8%nat := 65536]> (replicate 32 0))
    (Recorder.mkRecorder [trigger_uop; shift_uop; add_uop s; load_uop] 4 false).

Lemma chain_replayable j : (1 ≤ j < scalarCount (chain Add))%nat → replayable (uop_at (chain Add) j).
Proof.
  change (scalarCount (chain Add)) with 4%nat. intros Hj.
  assert (j = 1 ∨ j = 2 ∨ j = 3)%nat as [-> | [-> | ->]] by lia; repeat split; vm_compute; done.
Qed.

Lemma replay_is_program_witness :
  ∃ n rs, (n < 8)%nat ∧ nsteps (exec (chain Add)) n (1%nat, regs (start (chain Add) 5)) (3%nat, rs)
          ∧ loads Relation.Tables_init (chain Add) 5 3 rs (65536 + 40 + 16).
Proof.
  refine (proj1 (replay_is_program Relation.Tables_init (chain Add) 5 3 (65536 + 40 + 16)
                   eq_refl _ chain_replayable) _).
  - change (scalarCount (chain Add)) with 4%nat. lia.
  - exists false. vm_compute. reflexivity.
Defined.

Lemma replayed_address_bounds_witness :
  replay_target Relation.Tables_init (chain Add) 5 = Hit 3 65592 false ∧ 4096 <= 65592 < 2 ^ 47.
Proof.
  assert (H : replay_target Relation.Tables_init (chain Add) 5 = Hit 3 65592 false)
    by (vm_compute; reflexivity).
  destruct (replayed_address_bounds Relation.Tables_init (chain Add) 5 3 65592 false H) as (_ & _ & H1 & _).
  exact (conj H H1).
Defined.

(** [uses_source1] leaves out [MultiplyWord] and the remainders: the replay of a chain with one of
    them computes with zero for their second operand and queues an address that the program does
    not touch, here 4096 instead of 2625536. *)
Lemma replay_forgets_operand :
  let t := make_template true 100 0 0 0 (<[8%nat := 65536]> (<[7%nat := 0]> (replicate 32 0)))
             (Recorder.mkRecorder
                [trigger_uop; shift_uop; add_uop MultiplyWord; load_uop <| immediate := 4096 |>]
                4 false) in
  replay_target Relation.Tables_init t 5 = Hit 3 4096 false
  ∧ ∃ rs, nsteps (exec t) 2 (1%nat, regs (start t 5)) (3%nat, rs)
          ∧ evaluate (uop_at t 3) (operand 7 rs) 0 = Some 2625536.
Proof.
  cbv zeta. split; [by vm_compute|]. eexists. split.
  - eapply nsteps_l; [|eapply nsteps_l; [|apply nsteps_O]].
    + apply (exec_value _ 1 _ 40); [vm_compute; lia|vm_compute; done..|vm_compute; done].
    + apply (exec_value _ 2 _ 2621440); [vm_compute; lia|vm_compute; done..|vm_compute; done].
  - by vm_compute.
Qed.
End Replay.
