(* ===== verification/Helper.v ===== *)
(** * The helper thread

    Model of [DVRHelperThread] (src/cpu/o3/cpu.hh) and of [CPU::startDVRHelper] (cpu.cc): the
    counters of the helper's frontend and issue budget, its eight-entry fetch/decode window and
    its eight-entry issue queue with the register scoreboard.  The replay lanes are only counted
    here, so their type is a parameter; the copies in the VIR buffer are not modelled. *)

From S2P Require Import Prelude Inst Uop Recorder.

Module Helper.
Import Uop.

Definition FrontEndBufferCapacity : nat := 8.
Definition IssueQueueCapacity : nat := 8.
Definition ScoreboardRegisters : Z := 32.
#[global] Arguments FrontEndBufferCapacity : simpl never.
#[global] Arguments IssueQueueCapacity : simpl never.

(** [enum class State], [FrontendEntry::State] and [ComputeKind]. *)
Inductive State := Idle | Fetch | Decode | Running | Draining.
Inductive EntryState := FetchPending | DecodePending | Ready | Fault.
Inductive ComputeKind := KAlu | KAdd | KShift | KMultiply.

#[export] Instance State_eq_dec : EqDecision State.
Proof. solve_decision. Defined.
#[export] Instance EntryState_eq_dec : EqDecision EntryState.
Proof. solve_decision. Defined.
#[export] Instance ComputeKind_eq_dec : EqDecision ComputeKind.
Proof. solve_decision. Defined.

(** [FrontendEntry] *)
Record FrontendEntry := mkFrontend { f_pc : Z;  f_state : EntryState;  fetchTick : Z;  decodeTick : Z }.
#[export] Instance eta_FrontendEntry : Eta FrontendEntry := λ r,
  mkFrontend (f_pc r) (f_state r) (fetchTick r) (decodeTick r).

(** [IssueEntry] *)
Record IssueEntry := mkIssue {
  kind : ComputeKind;  i_source0 : Z;  i_source1 : Z;  i_destination : Z;
  i_pc : Z;  nextPC : Z;  readyTick : Z
}.

(** [ReplayGeneration]; [g_program] is the array of uops of its template, up to the count. *)
Record Generation := mkGeneration {
  g_program : option (list Uop);  g_workUnits : nat;  g_unit : nat;  g_uop : nat
}.
#[export] Instance eta_Generation : Eta Generation := λ r,
  mkGeneration (g_program r) (g_workUnits r) (g_unit r) (g_uop r).

(** The data members. *)
Record Thread {Lane : Type} := mkThread {
  state : State;  id : Z;  triggerPC : Z;  programUops : nat;  maxUops : nat;  workUnits : nat;
  issuedUops : nat;  outstanding : nat;  fetchRemaining : nat;  decodeRemaining : nat;
  readyUops : nat;  aluRemaining : nat;  shiftRemaining : nat;  multiplyRemaining : nat;
  computeReadyTick : Z;  vectorChunkModel : bool;  helperPC : Z;  frontendTid : Z;
  frontendUopIndex : nat;  lastFetched : nat;  lastDecoded : nat;  frontendReplay : option nat;
  issueQueue : list IssueEntry;  replayGenerations : list Generation;  replayLanes : list Lane;
  frontendBuffer : list FrontendEntry;  readyCycle : list Z
}.
#[global] Arguments Thread : clear implicits.

#[export] Instance eta_Thread {Lane} : Eta (Thread Lane) := λ r,
  mkThread _ (state r) (id r) (triggerPC r) (programUops r) (maxUops r) (workUnits r)
    (issuedUops r) (outstanding r) (fetchRemaining r) (decodeRemaining r) (readyUops r)
    (aluRemaining r) (shiftRemaining r) (multiplyRemaining r) (computeReadyTick r)
    (vectorChunkModel r) (helperPC r) (frontendTid r) (frontendUopIndex r) (lastFetched r)
    (lastDecoded r) (frontendReplay r) (issueQueue r) (replayGenerations r) (replayLanes r)
    (frontendBuffer r) (readyCycle r).

Section thread.
Context {Lane : Type}.
Implicit Type h : Thread Lane.

(** [reset] *)
Definition reset : Thread Lane :=
  mkThread _ Idle 0 0 0 0 0 0 0 0 0 0 0 0 0 0 false 0 0 0 0 0 None [] [] [] [] (replicate 32 0).

(** [begin] *)
Definition begin (helper_id pc : Z) (uops units budget : nat) (resources : Recorder.ResourceCounts)
    (vector_model : bool) (replay : option nat) (tid : Z) h : Thread Lane :=
  let fetch := Nat.min (uops * units) budget in
  let scalar n := if bool_decide (is_Some replay) && vector_model then 0%nat else n in
  h <| id := helper_id |> <| triggerPC := pc |> <| programUops := uops |> <| maxUops := budget |>
    <| workUnits := units |> <| helperPC := pc |> <| frontendTid := tid |>
    <| frontendUopIndex := 0%nat |> <| lastFetched := 0%nat |> <| lastDecoded := 0%nat |>
    <| frontendReplay := replay |> <| issuedUops := 0%nat |> <| outstanding := 0%nat |>
    <| fetchRemaining := fetch |> <| decodeRemaining := 0%nat |> <| readyUops := 0%nat |>
    <| aluRemaining := scalar (Recorder.alu resources) |>
    <| shiftRemaining := scalar (Recorder.shift resources) |>
    <| multiplyRemaining := scalar (Recorder.multiply resources) |>
    <| vectorChunkModel := vector_model |> <| issueQueue := [] |> <| replayGenerations := [] |>
    <| replayLanes := [] |> <| frontendBuffer := [] |> <| readyCycle := replicate 32 0 |>
    <| state := if (fetch =? 0)%nat then Idle else Fetch |>.

(** [extend] *)
Definition extend (pc : Z) (uops units : nat) (resources : Recorder.ResourceCounts)
    (vector_model : bool) (replay : option nat) h : Thread Lane :=
  if bool_decide (state h = Idle)
  then begin (id h) pc uops units (maxUops h) resources vector_model replay (frontendTid h) h
  else
    let generation_uops := Nat.min (uops * units) (maxUops h) in
    let h := h <| fetchRemaining ::= λ n, (n + generation_uops)%nat |>
               <| maxUops ::= λ n, (n + generation_uops)%nat |> in
    let h :=
      if bool_decide (is_Some replay) && vector_model then h
      else h <| aluRemaining ::= λ n, (n + Recorder.alu resources)%nat |>
             <| shiftRemaining ::= λ n, (n + Recorder.shift resources)%nat |>
             <| multiplyRemaining ::= λ n, (n + Recorder.multiply resources)%nat |> in
    let h := h <| vectorChunkModel := vector_model |> in
    match state h with
    | Draining | Decode => h <| state := Fetch |>
    | _ => h
    end.

(** [advanceFrontend] *)
Definition advanceFrontend (fetch_width decode_width : nat) h : Thread Lane * nat :=
  let h := h <| lastFetched := 0%nat |> <| lastDecoded := 0%nat |> in
  match state h with
  | Idle | Draining => (h, 0%nat)
  | _ =>
      let buffer_space := (FrontEndBufferCapacity - length (frontendBuffer h))%nat in
      let fetched := Nat.min fetch_width (Nat.min (fetchRemaining h) buffer_space) in
      let h := h <| fetchRemaining ::= λ n, (n - fetched)%nat |>
                 <| decodeRemaining ::= λ n, (n + fetched)%nat |> <| lastFetched := fetched |> in
      let decoded := Nat.min decode_width (decodeRemaining h) in
      let h := h <| decodeRemaining ::= λ n, (n - decoded)%nat |>
                 <| readyUops ::= λ n, (n + decoded)%nat |> <| lastDecoded := decoded |> in
      let next :=
        if (fetchRemaining h =? 0)%nat && (decodeRemaining h =? 0)%nat && (readyUops h =? 0)%nat
           && (outstanding h =? 0)%nat then Idle
        else if negb (readyUops h =? 0)%nat then Running
        else if negb (fetchRemaining h =? 0)%nat then Fetch
        else Decode in
      (h <| state := next |>, (fetched + decoded)%nat)
  end.

(** [frontendFetched], [frontendDecoded], [retireFrontend] *)
Definition frontendFetched (pc now : Z) h : Thread Lane :=
  if (FrontEndBufferCapacity <=? length (frontendBuffer h))%nat then h
  else h <| frontendBuffer ::= λ es, es ++ [mkFrontend pc FetchPending now 0] |>.

Definition settled (e : FrontendEntry) : bool :=
  match f_state e with Ready | Fault => true | _ => false end.

Definition frontendDecoded (pc : Z) (fault : bool) (now : Z) h : Thread Lane :=
  match list_find (λ e, f_pc e = pc ∧ settled e = false) (frontendBuffer h) with
  | Some (k, e) =>
      h <| frontendBuffer ::= <[k := e <| f_state := if fault then Fault else Ready |>
                                       <| decodeTick := now |>]> |>
  | None => h
  end.

Definition retireFrontend (pc : Z) h : Thread Lane :=
  match list_find (λ e, f_pc e = pc ∧ settled e = true) (frontendBuffer h) with
  | Some (k, _) => h <| frontendBuffer ::= λ es, delete k es |>
  | None => h
  end.

(** [advanceCompute] *)
Definition advanceCompute (alu_width shift_width multiply_width : nat) h : Thread Lane * nat :=
  match state h with
  | Idle | Draining => (h, 0%nat)
  | _ =>
      let alu := Nat.min alu_width (aluRemaining h) in
      let shift := Nat.min shift_width (shiftRemaining h) in
      let multiply := Nat.min multiply_width (multiplyRemaining h) in
      (h <| aluRemaining ::= λ n, (n - alu)%nat |> <| shiftRemaining ::= λ n, (n - shift)%nat |>
         <| multiplyRemaining ::= λ n, (n - multiply)%nat |>, (alu + shift + multiply)%nat)
  end.

(** [computePending] *)
Definition computePending h : bool :=
  negb (aluRemaining h =? 0)%nat || negb (shiftRemaining h =? 0)%nat
  || negb (multiplyRemaining h =? 0)%nat || negb (length (issueQueue h) =? 0)%nat
  || negb (length (replayGenerations h) =? 0)%nat || negb (length (replayLanes h) =? 0)%nat.

(** The class of a generation's uop. *)
Definition is_add (s : Semantic) : bool :=
  match s with
  | Add | Sub | AddWord | SubWord | AddImmediate | AddWordImmediate
  | LoadAddress | LoadByteSigned | LoadByteUnsigned | LoadHalfSigned | LoadHalfUnsigned
  | LoadWordSigned | LoadWordUnsigned | LoadDouble => true
  | _ => false
  end.

Definition compute_kind (u : Uop) : ComputeKind :=
  if Recorder.is_shift u then KShift
  else if Recorder.is_multiply u then KMultiply
  else if is_add (semantic u) then KAdd else KAlu.

Definition uop_entry (u : Uop) : IssueEntry :=
  mkIssue (compute_kind u) (source0 u) (source1 u) (destination u) (Uop.pc u)
    (if control u then (if branchTaken u then branchTargetPC u else fallthroughPC u)
     else u64 (Uop.pc u + 4)) 0.

(** An entry that stands for a resource count. *)
Definition count_entry (k : ComputeKind) (pc : Z) : IssueEntry :=
  mkIssue k 0 (-1) 0 pc (u64 (pc + 4)) 0.

(** One iteration of the loop of [refillIssueQueue] on a non-full queue; [None] is the [break]. *)
Definition refill_step h : option (Thread Lane) :=
  match replayGenerations h with
  | g :: gs =>
      match g_program g with
      | None => Some (h <| replayGenerations := gs |>)
      | Some program =>
          if (g_workUnits g =? 0)%nat then Some (h <| replayGenerations := gs |>)
          else if (length program <=? g_uop g)%nat then
            let g := g <| g_uop := 0%nat |> <| g_unit ::= S |> in
            Some (h <| replayGenerations := if (g_workUnits g <=? g_unit g)%nat then gs else g :: gs |>)
          else
            let u := program !!! g_uop g in
            let h := h <| replayGenerations := (g <| g_uop ::= S |>) :: gs |>
                       <| helperPC := Uop.pc u |> in
            if load u && negb (bool_decide (semantic u = LoadAddress)) then Some h
            else Some (h <| issueQueue ::= λ q, q ++ [uop_entry u] |>)
      end
  | [] =>
      if negb (aluRemaining h =? 0)%nat
      then Some (h <| aluRemaining ::= Nat.pred |>
                   <| issueQueue ::= λ q, q ++ [count_entry KAlu (helperPC h)] |>)
      else if negb (shiftRemaining h =? 0)%nat
      then Some (h <| shiftRemaining ::= Nat.pred |>
                   <| issueQueue ::= λ q, q ++ [count_entry KShift (helperPC h)] |>)
      else if negb (multiplyRemaining h =? 0)%nat
      then Some (h <| multiplyRemaining ::= Nat.pred |>
                   <| issueQueue ::= λ q, q ++ [count_entry KMultiply (helperPC h)] |>)
      else None
  end.

(** The loop, with fuel; [None] is a loop that has not ended. *)
Fixpoint refill (fuel : nat) h : option (Thread Lane) :=
  if (IssueQueueCapacity <=? length (issueQueue h))%nat then Some h
  else match fuel with
       | O => None
       | S fuel => match refill_step h with
                   | Some h => refill fuel h
                   | None => Some h
                   end
       end.

(** An upper bound on the iterations a generation takes. *)
Definition generation_fuel (g : Generation) : nat :=
  match g_program g with
  | None => 1
  | Some program => S ((g_workUnits g - g_unit g) * S (length program) + (length program - g_uop g))
  end.

Definition refill_fuel h : nat :=
  S (sum_list_with generation_fuel (replayGenerations h)
     + aluRemaining h + shiftRemaining h + multiplyRemaining h).

(** [refillIssueQueue] *)
Definition refillIssueQueue h : option (Thread Lane) :=
  if vectorChunkModel h then refill (refill_fuel h) h else Some h.

(** [issueQueueReady], [issueQueueScoreboardBlocked] *)
Definition register_ready (r now : Z) h : bool :=
  (r <? 0) || (ScoreboardRegisters <=? r) || (readyCycle h !!! Z.to_nat r <=? now).

Definition issueQueueReady (now : Z) h : bool :=
  match issueQueue h with
  | e :: _ => vectorChunkModel h && (readyTick e <=? now) && register_ready (i_source0 e) now h
              && register_ready (i_source1 e) now h
  | [] => false
  end.

Definition issueQueueScoreboardBlocked (now : Z) h : bool :=
  match issueQueue h with
  | e :: _ => negb (register_ready (i_source0 e) now h) || negb (register_ready (i_source1 e) now h)
  | [] => false
  end.

(** [canIssue] *)
Definition canIssue (source_request : bool) h : bool :=
  bool_decide (state h = Running) && negb (readyUops h =? 0)%nat && (issuedUops h <? maxUops h)%nat
  && (source_request || negb (computePending h)).

(** [wakeForMemoryRequest] *)
Definition wakeForMemoryRequest h : Thread Lane * nat :=
  let h := match state h with Idle | Draining => h <| state := Running |> | _ => h end in
  let '(h, became_ready) :=
    if (readyUops h =? 0)%nat then (h <| readyUops := 1%nat |>, 1%nat) else (h, 0%nat) in
  let h := if (maxUops h <=? issuedUops h)%nat then h <| maxUops := S (issuedUops h) |> else h in
  (h, became_ready).

(** The test that ends a program. *)
Definition exhausted h : bool :=
  (maxUops h <=? issuedUops h)%nat && (readyUops h =? 0)%nat && (fetchRemaining h =? 0)%nat
  && (decodeRemaining h =? 0)%nat.

(** [issueCompute]; [None] is a failed assertion. *)
Definition issueCompute (ready_tick : Z) h : option (Thread Lane) :=
  match issueQueue h with
  | e :: q =>
      if (readyUops h =? 0)%nat || negb (vectorChunkModel h) then None
      else
        let h := retireFrontend (i_pc e) (h <| issueQueue := q |>) in
        let h := h <| issuedUops ::= S |> <| readyUops ::= Nat.pred |> in
        let h := if (0 <=? i_destination e) && (i_destination e <? ScoreboardRegisters)
                 then h <| readyCycle ::= <[Z.to_nat (i_destination e) := ready_tick]> |> else h in
        let h := h <| helperPC := nextPC e |> <| computeReadyTick ::= Z.max ready_tick |> in
        Some (if exhausted h && (outstanding h =? 0)%nat && negb (computePending h)
              then h <| state := Draining |> else h)
  | [] => None
  end.

(** [issueReplayChunk] *)
Definition issueReplayChunk (ready_tick : Z) h : option (Thread Lane) :=
  if (readyUops h =? 0)%nat || negb (vectorChunkModel h) then None
  else
    let h := h <| issuedUops ::= S |> <| readyUops ::= Nat.pred |>
               <| computeReadyTick ::= Z.max ready_tick |> in
    Some (if exhausted h && (outstanding h =? 0)%nat && (length (replayLanes h) =? 0)%nat
          then h <| state := Draining |> else h).

(** [refillComputeReady] *)
Definition refillComputeReady h : option (Thread Lane * nat) :=
  h ← refillIssueQueue h;
  Some (if negb (computePending h) || negb (readyUops h =? 0)%nat || negb (fetchRemaining h =? 0)%nat
           || negb (decodeRemaining h =? 0)%nat
        then (h, 0%nat)
        else (h <| state := Running |> <| readyUops := 1%nat |>, 1%nat)).

(** [issue] *)
Definition issue h : option (Thread Lane) :=
  let h := h <| issuedUops ::= S |> in
  if (readyUops h =? 0)%nat then None
  else
    let h := h <| readyUops ::= Nat.pred |> <| outstanding ::= S |> in
    Some (if exhausted h then h <| state := Draining |> else h).

(** [complete] *)
Definition complete h : Thread Lane :=
  let h := if negb (outstanding h =? 0)%nat then h <| outstanding ::= Nat.pred |> else h in
  if bool_decide (state h = Draining) && (outstanding h =? 0)%nat
  then h <| state := Idle |> else h.

(** [active] *)
Definition active h : bool := negb (bool_decide (state h = Idle)).

(** The end of [enqueueReplayLane] and [resumeDependentLane]: a lane earns an issue credit. *)
Definition lane_credit h : Thread Lane * nat :=
  if (readyUops h =? 0)%nat then (h <| readyUops := 1%nat |> <| state := Running |>, 1%nat)
  else (h, 0%nat).

(** [CPU::dvrHelperWorkUnits]: lanes, or chunks of lanes. *)
Definition dvrHelperWorkUnits (vector_chunks : bool) (element_bits lanes : nat) : nat :=
  if vector_chunks
  then let elements := (512 / element_bits)%nat in ((lanes + elements - 1) / elements)%nat
  else lanes.

(** [CPU::startDVRHelper]; the identifier of a new helper is [next_id]. *)
Definition startDVRHelper (vector_chunks : bool) (element_bits budget : nat) (next_id trigger_pc : Z)
    (program_uops lanes : nat) (resources : Recorder.ResourceCounts) (replay : option nat) (tid : Z)
    h : Thread Lane :=
  if (program_uops =? 0)%nat || (lanes =? 0)%nat then h
  else
    let units := dvrHelperWorkUnits vector_chunks element_bits lanes in
    let helper_resources :=
      Recorder.mkResources (Recorder.alu resources * units) (Recorder.shift resources * units)
        (Recorder.multiply resources * units) (Recorder.lsu resources * units) in
    if active h
    then extend trigger_pc program_uops units helper_resources vector_chunks replay h
    else begin next_id trigger_pc program_uops units budget helper_resources vector_chunks replay tid h.
(** ** The operations as one step function *)

(** The calls the processor makes on the helper. *)
Inductive Op :=
  | OBegin (helper_id pc : Z) (uops units budget : nat) (resources : Recorder.ResourceCounts)
      (vector_model : bool) (replay : option nat) (tid : Z)
  | OExtend (pc : Z) (uops units : nat) (resources : Recorder.ResourceCounts)
      (vector_model : bool) (replay : option nat)
  | OFrontend (fetch_width decode_width : nat)
  | OFetched (pc now : Z)
  | ODecoded (pc : Z) (fault : bool) (now : Z)
  | ORetire (pc : Z)
  | OAdvanceCompute (alu_width shift_width multiply_width : nat)
  | ORefill
  | OIssueCompute (ready_tick : Z)
  | OIssueChunk (ready_tick : Z)
  | OIssue
  | OComplete
  | OWake
  | OLane.

(** One call; [None] is a failed assertion. *)
Definition step (o : Op) h : option (Thread Lane) :=
  match o with
  | OBegin i pc uops units budget res vm replay tid =>
      Some (begin i pc uops units budget res vm replay tid h)
  | OExtend pc uops units res vm replay => Some (extend pc uops units res vm replay h)
  | OFrontend fw dw => Some (advanceFrontend fw dw h).1
  | OFetched pc now => Some (frontendFetched pc now h)
  | ODecoded pc fault now => Some (frontendDecoded pc fault now h)
  | ORetire pc => Some (retireFrontend pc h)
  | OAdvanceCompute a s m => Some (advanceCompute a s m h).1
  | ORefill => fst <$> refillComputeReady h
  | OIssueCompute t => issueCompute t h
  | OIssueChunk t => issueReplayChunk t h
  | OIssue => issue h
  | OComplete => Some (complete h)
  | OWake => Some (wakeForMemoryRequest h).1
  | OLane => Some (lane_credit h).1
  end.

(** A run of calls from the freshly constructed helper. *)
Definition run (os : list Op) : option (Thread Lane) := foldl (λ m o, h ← m; step o h) (Some reset) os.

(** ** Refilling the issue queue *)

(** What an entry computes, apart from its program counters. *)
Definition shape (e : IssueEntry) : ComputeKind * Z * Z * Z :=
  (kind e, i_source0 e, i_source1 e, i_destination e).

(** The uops of a program that enter the queue: all but the plain loads. *)
Definition enters (u : Uop) : bool := negb (load u && negb (bool_decide (semantic u = LoadAddress))).
Definition program_stream (program : list Uop) : list (ComputeKind * Z * Z * Z) :=
  (λ u, shape (uop_entry u)) <$> filter (λ u, enters u = true) program.

(** What a generation has still to issue: the rest of its unit, then whole units. *)
Definition generation_stream (g : Generation) : list (ComputeKind * Z * Z * Z) :=
  match g_program g with
  | None => []
  | Some program =>
      if (g_workUnits g =? 0)%nat then []
      else program_stream (drop (g_uop g) program)
           ++ concat (replicate (g_workUnits g - S (g_unit g)) (program_stream program))
  end.

(** What the helper has still to put in its queue, in order. *)
Definition pending_stream h : list (ComputeKind * Z * Z * Z) :=
  concat (generation_stream <$> replayGenerations h)
  ++ replicate (aluRemaining h) (KAlu, 0, -1, 0)
  ++ replicate (shiftRemaining h) (KShift, 0, -1, 0)
  ++ replicate (multiplyRemaining h) (KMultiply, 0, -1, 0).

(** What the helper has to compute: the queue, then what will be put in it. *)
Definition work_stream h : list (ComputeKind * Z * Z * Z) :=
  (shape <$> issueQueue h) ++ pending_stream h.

Lemma program_stream_cons u p :
  program_stream (u :: p) = (if enters u then [shape (uop_entry u)] else []) ++ program_stream p.
Proof.
  unfold program_stream. rewrite filter_cons.
  destruct (enters u) eqn:E; case_decide; try congruence; reflexivity.
Qed.

Lemma generation_stream_empty g :
  match g_program g with None => True | Some _ => g_workUnits g = 0%nat end →
  generation_stream g = [].
Proof. unfold generation_stream. by destruct (g_program g); [intros ->|]. Qed.

(** The end of a unit. *)
Lemma generation_stream_next_unit g program :
  g_program g = Some program → g_workUnits g ≠ 0%nat → (length program ≤ g_uop g)%nat →
  generation_stream g
  = if (g_workUnits g <=? S (g_unit g))%nat then []
    else generation_stream ((g <| g_uop := 0%nat |>) <| g_unit ::= S |>).
Proof.
  intros Hp Hw Hu. unfold generation_stream; simpl; rewrite Hp.
  destruct (Nat.eqb_spec (g_workUnits g) 0) as [?|_]; [lia|].
  rewrite (drop_ge program) by lia; simpl. rewrite drop_0.
  destruct (Nat.leb_spec (g_workUnits g) (S (g_unit g))).
  - replace (g_workUnits g - S (g_unit g))%nat with 0%nat by lia. reflexivity.
  - replace (g_workUnits g - S (g_unit g))%nat with (S (g_workUnits g - S (S (g_unit g)))) by lia.
    reflexivity.
Qed.

(** A uop of a unit. *)
Lemma generation_stream_uop g program :
  g_program g = Some program → g_workUnits g ≠ 0%nat → (g_uop g < length program)%nat →
  generation_stream g
  = (if enters (program !!! g_uop g) then [shape (uop_entry (program !!! g_uop g))] else [])
    ++ generation_stream (g <| g_uop ::= S |>).
Proof.
  intros Hp Hw Hu. unfold generation_stream; simpl; rewrite Hp.
  destruct (Nat.eqb_spec (g_workUnits g) 0) as [?|_]; [lia|].
  destruct (lookup_lt_is_Some_2 program (g_uop g) Hu) as [u Hlk].
  rewrite (drop_S program u (g_uop g)) by done.
  rewrite (list_lookup_total_correct _ _ _ Hlk), program_stream_cons, <- app_assoc.
  reflexivity.
Qed.

(** An iteration moves the front of what is pending to the end of the queue. *)
Lemma refill_step_stream h h' : refill_step h = Some h' → work_stream h' = work_stream h.
Proof.
  unfold refill_step, work_stream, pending_stream.
  destruct (replayGenerations h) as [|g gs] eqn:Eg; simpl.
  - destruct (aluRemaining h) eqn:Ea; simpl.
    + destruct (shiftRemaining h) eqn:Es; simpl.
      * destruct (multiplyRemaining h) eqn:Em; simpl; [done|].
        intros [= <-]; simpl. rewrite ?Eg, ?Ea, ?Es, fmap_app; simpl. by rewrite <- app_assoc.
      * intros [= <-]; simpl. rewrite ?Eg, ?Ea, ?Es, fmap_app; simpl. by rewrite <- app_assoc.
    + intros [= <-]; simpl. rewrite ?Eg, ?Ea, ?Es, fmap_app; simpl. by rewrite <- app_assoc.
  - destruct (g_program g) as [program|] eqn:Ep.
    2: { intros [= <-]; simpl. by rewrite (generation_stream_empty g) by (rewrite Ep; done). }
    destruct (Nat.eqb_spec (g_workUnits g) 0) as [Ew|Ew].
    { intros [= <-]; simpl. by rewrite (generation_stream_empty g) by (rewrite Ep; done). }
    destruct (Nat.leb_spec (length program) (g_uop g)) as [El|El].
    + rewrite (generation_stream_next_unit g program Ep Ew El). intros [= <-].
      cbn -[Nat.leb generation_stream]. rewrite Ep.
      by destruct (g_workUnits g <=? S (g_unit g))%nat.
    + rewrite (generation_stream_uop g program Ep Ew El). unfold enters.
      destruct (load _ && negb _); intros [= <-]; cbn -[generation_stream]; rewrite Ep; [done|].
      by rewrite fmap_app, <- !app_assoc.
Qed.

(** Each iteration uses up fuel. *)
Lemma refill_step_fuel h h' : refill_step h = Some h' → (refill_fuel h' < refill_fuel h)%nat.
Proof.
  unfold refill_step, refill_fuel.
  destruct (replayGenerations h) as [|g gs] eqn:Eg; simpl.
  - destruct (aluRemaining h) eqn:Ea; simpl.
    + destruct (shiftRemaining h) eqn:Es; simpl.
      * destruct (multiplyRemaining h) eqn:Em; simpl; [done|].
        intros [= <-]; simpl. rewrite ?Eg, ?Ea, ?Es, ?Em; simpl. lia.
      * intros [= <-]; simpl. rewrite ?Eg, ?Ea, ?Es, ?Em; simpl. lia.
    + intros [= <-]; simpl. rewrite ?Eg, ?Ea, ?Es, ?Em; simpl. lia.
  - unfold generation_fuel at 2. destruct (g_program g) as [program|] eqn:Ep.
    2: { intros [= <-]; simpl. lia. }
    destruct (Nat.eqb_spec (g_workUnits g) 0) as [Ew|Ew].
    { intros [= <-]; simpl. lia. }
    destruct (Nat.leb_spec (length program) (g_uop g)) as [El|El].
    + intros [= <-]; simpl. destruct (Nat.leb_spec (g_workUnits g) (S (g_unit g))); simpl.
      { generalize ((g_workUnits g - g_unit g) * S (length program))%nat. lia. }
      replace (g_workUnits g - g_unit g)%nat with (S (g_workUnits g - S (g_unit g))) by lia.
      rewrite Nat.mul_succ_l. generalize ((g_workUnits g - S (g_unit g)) * S (length program))%nat. lia.
    + unfold generation_fuel at 1; simpl.
      destruct (load _ && negb _); intros [= <-]; cbn -[Nat.mul Nat.sub]; unfold generation_fuel at 1;
        cbn -[Nat.mul Nat.sub]; rewrite ?Ep;
        generalize ((g_workUnits g - g_unit g) * S (length program))%nat; lia.
Qed.

(** An iteration puts at most one entry in the queue. *)
Lemma refill_step_length h h' :
  refill_step h = Some h' → (length (issueQueue h') ≤ S (length (issueQueue h)))%nat.
Proof.
  unfold refill_step. intros H. repeat (case_match; simplify_eq/=); rewrite ?length_app; simpl; lia.
Qed.

(** The loop breaks when nothing is left. *)
Lemma refill_step_done h : refill_step h = None → pending_stream h = [].
Proof.
  unfold refill_step, pending_stream. intros H. destruct (replayGenerations h) as [|g gs]; simpl.
  - destruct (aluRemaining h), (shiftRemaining h), (multiplyRemaining h); done.
  - repeat (case_match; simplify_eq/=).
Qed.

(** Enough fuel empties the loop: the queue is full or nothing is pending. *)
Lemma refill_spec fuel h :
  (refill_fuel h ≤ fuel)%nat → (length (issueQueue h) ≤ IssueQueueCapacity)%nat →
  ∃ h', refill fuel h = Some h' ∧ work_stream h' = work_stream h
        ∧ (length (issueQueue h') ≤ IssueQueueCapacity)%nat
        ∧ (length (issueQueue h') = IssueQueueCapacity ∨ pending_stream h' = []).
Proof.
  revert h. induction fuel as [|fuel IH]; intros h Hf Hq; [unfold refill_fuel in Hf; lia|].
  cbn [refill]. destruct (Nat.leb_spec IssueQueueCapacity (length (issueQueue h))) as [Hl|Hl].
  { exists h. repeat split; [lia|]. left. lia. }
  destruct (refill_step h) as [h1|] eqn:E.
  - destruct (IH h1) as (h' & H1 & H2 & H3).
    + pose proof (refill_step_fuel _ _ E). lia.
    + pose proof (refill_step_length _ _ E). lia.
    + exists h'. split; [done|]. by rewrite H2, (refill_step_stream _ _ E).
  - exists h. repeat split; [lia|]. right. by apply refill_step_done.
Qed.

Lemma refillIssueQueue_spec h :
  (length (issueQueue h) ≤ IssueQueueCapacity)%nat →
  ∃ h', refillIssueQueue h = Some h' ∧ work_stream h' = work_stream h
        ∧ (length (issueQueue h') ≤ IssueQueueCapacity)%nat
        ∧ (vectorChunkModel h = true →
           length (issueQueue h') = IssueQueueCapacity ∨ pending_stream h' = []).
Proof.
  intros Hq. unfold refillIssueQueue. destruct (vectorChunkModel h).
  - destruct (refill_spec (refill_fuel h) h) as (h' & ? & ? & ? & ?); [lia|done|]. by exists h'.
  - exists h. by repeat split.
Qed.

(** ** The invariant *)

(** The two windows and the scoreboard have their hardware sizes, an idle or draining helper has
    nothing in its frontend, and an idle one has no load outstanding. *)
Record helper_ok h : Prop := mkHelperOk {
  ok_buffer : (length (frontendBuffer h) ≤ FrontEndBufferCapacity)%nat;
  ok_queue : (length (issueQueue h) ≤ IssueQueueCapacity)%nat;
  ok_scoreboard : length (readyCycle h) = Z.to_nat ScoreboardRegisters;
  ok_quiet : state h = Idle ∨ state h = Draining →
             fetchRemaining h = 0%nat ∧ decodeRemaining h = 0%nat ∧ readyUops h = 0%nat;
  ok_idle : state h = Idle → outstanding h = 0%nat
}.

Lemma reset_ok : helper_ok reset.
Proof. split; simpl; try done; lia. Qed.

Lemma begin_ok i pc uops units budget res vm replay tid h :
  helper_ok (begin i pc uops units budget res vm replay tid h).
Proof.
  unfold begin. destruct (Nat.eqb_spec (Nat.min (uops * units) budget) 0) as [E|E];
    split; simpl; try done; try lia; intros [?|?]; done.
Qed.

Lemma extend_ok pc uops units res vm replay h :
  helper_ok h → helper_ok (extend pc uops units res vm replay h).
Proof.
  intros [? ? ? Hq Hi]. unfold extend. case_bool_decide as E; [apply begin_ok|].
  destruct (bool_decide (is_Some replay) && vm); simpl; destruct (state h) eqn:Es; try done;
    split; simpl; try done; rewrite ?Es; intros [?|?]; congruence.
Qed.

Lemma advanceFrontend_ok fw dw h : helper_ok h → helper_ok (advanceFrontend fw dw h).1.
Proof.
  intros [? ? ? Hq Hi]. unfold advanceFrontend; simpl.
  destruct (state h) eqn:Es; simpl;
    try (split; simpl; rewrite ?Es; done);
    (repeat case_match; simpl;
     repeat match goal with
            | H : _ && _ = true |- _ => apply andb_prop in H as [??]
            | H : (_ =? _)%nat = true |- _ => apply Nat.eqb_eq in H
            end;
     split; simpl; try done; try tauto; intros [?|?]; done).
Qed.

Lemma frontendFetched_ok pc now h : helper_ok h → helper_ok (frontendFetched pc now h).
Proof.
  intros [? ? ? Hq Hi]. unfold frontendFetched.
  destruct (Nat.leb_spec FrontEndBufferCapacity (length (frontendBuffer h))); [done|].
  split; simpl; rewrite ?length_app; simpl; try done; lia.
Qed.

Lemma frontendDecoded_ok pc fault now h : helper_ok h → helper_ok (frontendDecoded pc fault now h).
Proof.
  intros [? ? ? Hq Hi]. unfold frontendDecoded. destruct (list_find _ _) as [[k e]|]; [|done].
  split; simpl; rewrite ?length_insert; done.
Qed.

Lemma retireFrontend_ok pc h : helper_ok h → helper_ok (retireFrontend pc h).
Proof.
  intros [? ? ? Hq Hi]. unfold retireFrontend. destruct (list_find _ _) as [[k e]|] eqn:E; [|done].
  apply list_find_Some in E as [Hk _]. apply lookup_lt_Some in Hk.
  split; simpl; rewrite ?length_delete by (by apply lookup_lt_is_Some_2); try done; lia.
Qed.

Lemma advanceCompute_ok a s m h : helper_ok h → helper_ok (advanceCompute a s m h).1.
Proof.
  intros [? ? ? Hq Hi]. unfold advanceCompute. destruct (state h) eqn:Es; simpl; try done;
    split; simpl; rewrite ?Es; try done; intros [?|?]; done.
Qed.

(** Refilling leaves the frontend alone. *)
Lemma refill_frame fuel h h' :
  refill fuel h = Some h' →
  frontendBuffer h' = frontendBuffer h ∧ readyCycle h' = readyCycle h ∧ state h' = state h
  ∧ fetchRemaining h' = fetchRemaining h ∧ decodeRemaining h' = decodeRemaining h
  ∧ readyUops h' = readyUops h ∧ outstanding h' = outstanding h.
Proof.
  revert h. induction fuel as [|fuel IH]; intros h; cbn [refill]; (case_match; [by intros [= <-]|]);
    [done|].
  destruct (refill_step h) as [h1|] eqn:E; [|by intros [= <-]].
  intros H1. apply IH in H1 as (-> & -> & -> & -> & -> & -> & ->). clear IH.
  revert E. unfold refill_step. intros E. repeat (case_match; simplify_eq/=); done.
Qed.

Lemma refill_lanes fuel h h' :
  refill fuel h = Some h' → replayLanes h' = replayLanes h ∧ vectorChunkModel h' = vectorChunkModel h.
Proof.
  revert h. induction fuel as [|fuel IH]; intros h; cbn [refill]; (case_match; [by intros [= <-]|]);
    [done|].
  destruct (refill_step h) as [h1|] eqn:E; [|by intros [= <-]].
  intros H1. apply IH in H1 as (-> & ->). clear IH.
  revert E. unfold refill_step. intros E. repeat (case_match; simplify_eq/=); done.
Qed.

Lemma refillComputeReady_ok h :
  helper_ok h → ∃ h' n, refillComputeReady h = Some (h', n) ∧ helper_ok h'.
Proof.
  intros [? ? ? Hq Hi]. destruct (refillIssueQueue_spec h) as (h1 & E & _ & Hl & _); [done|].
  assert (Hok : helper_ok h1).
  { unfold refillIssueQueue in E. destruct (vectorChunkModel h); [|by injection E as <-].
    apply refill_frame in E as (E1 & E2 & E3 & E4 & E5 & E6 & E7).
    split; rewrite ?E1, ?E2, ?E3, ?E4, ?E5, ?E6, ?E7; done. }
  unfold refillComputeReady. rewrite E; simpl. case_match; [by exists h1, 0%nat|].
  eexists _, _. split; [done|]. destruct Hok. split; simpl; try done; intros [?|?]; done.
Qed.

Lemma issueCompute_ok t h h' : helper_ok h → issueCompute t h = Some h' → helper_ok h'.
Proof.
  intros Hok. unfold issueCompute. destruct (issueQueue h) as [|e q] eqn:Eq; [done|].
  destruct (Nat.eqb_spec (readyUops h) 0) as [?|Hr]; [done|].
  destruct (negb (vectorChunkModel h)); [done|]. cbn [orb].
  assert (H1 : helper_ok (retireFrontend (i_pc e) (h <| issueQueue := q |>))).
  { apply retireFrontend_ok. destruct Hok as [? Hq ? ? ?]. split; simpl; try done.
    rewrite Eq in Hq; simpl in Hq. lia. }
  assert (Hs : state (retireFrontend (i_pc e) (h <| issueQueue := q |>)) ≠ Idle
               ∧ state (retireFrontend (i_pc e) (h <| issueQueue := q |>)) ≠ Draining).
  { unfold retireFrontend. simpl.
    destruct (list_find _ _) as [[??]|]; simpl;
      split; intros E; destruct (ok_quiet _ Hok) as (_ & _ & ?); auto. }
  destruct H1 as [? ? ? Hq Hi], Hs as [Hs1 Hs2].
  remember (retireFrontend (i_pc e) (h <| issueQueue := q |>)) as g.
  destruct ((0 <=? i_destination e) && (i_destination e <? ScoreboardRegisters));
    (case_match eqn:Ee; intros [= <-];
     [apply andb_prop in Ee as [Ee _]; apply andb_prop in Ee as [Ee Eo]; unfold exhausted in Ee;
      simpl in Ee; repeat (apply andb_prop in Ee as [Ee ?])|];
     split; simpl; rewrite ?length_insert; try done;
     repeat match goal with H : (_ =? _)%nat = true |- _ => apply Nat.eqb_eq in H end; tauto).
Qed.

Lemma issueReplayChunk_ok t h h' : helper_ok h → issueReplayChunk t h = Some h' → helper_ok h'.
Proof.
  intros [? ? ? Hq Hi]. unfold issueReplayChunk, exhausted; simpl.
  destruct (Nat.eqb_spec (readyUops h) 0) as [?|Hr]; [done|].
  destruct (negb (vectorChunkModel h)); [done|]. cbn [orb].
  case_match eqn:Ee; intros [= <-]; repeat (apply andb_prop in Ee as [Ee ?]);
    repeat match goal with H : (_ =? _)%nat = true |- _ => apply Nat.eqb_eq in H end;
    split; simpl; try done; tauto.
Qed.

Lemma issue_ok h h' : helper_ok h → issue h = Some h' → helper_ok h'.
Proof.
  intros [? ? ? Hq Hi]. unfold issue, exhausted; simpl.
  destruct (Nat.eqb_spec (readyUops h) 0) as [?|Hr]; [done|].
  case_match eqn:Ee; intros [= <-]; repeat (apply andb_prop in Ee as [Ee ?]);
    repeat match goal with H : (_ =? _)%nat = true |- _ => apply Nat.eqb_eq in H end;
    split; simpl; try done; tauto.
Qed.

Lemma complete_ok h : helper_ok h → helper_ok (complete h).
Proof.
  intros [? ? ? Hq Hi]. unfold complete.
  destruct (Nat.eqb_spec (outstanding h) 0) as [E|E]; simpl;
    (destruct (bool_decide (state h = Draining)) eqn:Es; simpl; [|split; simpl; try done; tauto || lia]);
    apply bool_decide_eq_true in Es;
    (case_match eqn:Eo; [apply Nat.eqb_eq in Eo|]; split; simpl; try done; try tauto; congruence).
Qed.

Lemma wakeForMemoryRequest_ok h : helper_ok h → helper_ok (wakeForMemoryRequest h).1.
Proof.
  intros [? ? ? Hq Hi]. unfold wakeForMemoryRequest.
  destruct (state h) eqn:Es; simpl;
    (destruct (readyUops h =? 0)%nat; simpl; case_match; simpl);
    split; simpl; rewrite ?Es; try done; intros [?|?]; done.
Qed.

Lemma lane_credit_ok h : helper_ok h → helper_ok (lane_credit h).1.
Proof.
  intros Hok. unfold lane_credit. destruct (readyUops h =? 0)%nat; simpl; [|done].
  destruct Hok. split; simpl; try done; intros [?|?]; done.
Qed.

Lemma helper_step_ok o h h' : helper_ok h → step o h = Some h' → helper_ok h'.
Proof.
  intros Hok. destruct o; cbn [step]; try (intros [= <-]).
  - apply begin_ok.
  - by apply extend_ok.
  - by apply advanceFrontend_ok.
  - by apply frontendFetched_ok.
  - by apply frontendDecoded_ok.
  - by apply retireFrontend_ok.
  - by apply advanceCompute_ok.
  - destruct (refillComputeReady_ok h Hok) as (h1 & n & -> & ?). by intros [= <-].
  - by apply issueCompute_ok.
  - by apply issueReplayChunk_ok.
  - by apply issue_ok.
  - by apply complete_ok.
  - by apply wakeForMemoryRequest_ok.
  - by apply lane_credit_ok.
Qed.

(** The calls that neither start a program nor send or answer a memory request. *)
Definition quiet (o : Op) : bool :=
  match o with OBegin _ _ _ _ _ _ _ _ _ | OExtend _ _ _ _ _ _ | OIssue | OComplete => false | _ => true end.

Lemma step_outstanding o h h' :
  quiet o = true → step o h = Some h' → outstanding h' = outstanding h.
Proof.
  destruct o; try done; intros _; cbn [step].
  - intros [= <-]. unfold advanceFrontend. simpl. by destruct (state h).
  - intros [= <-]. unfold frontendFetched. by case_match.
  - intros [= <-]. unfold frontendDecoded. by repeat case_match.
  - intros [= <-]. unfold retireFrontend. by repeat case_match.
  - intros [= <-]. unfold advanceCompute. by destruct (state h).
  - unfold refillComputeReady, refillIssueQueue. destruct (vectorChunkModel h).
    + destruct (refill _ h) as [h1|] eqn:E; [|done]. apply refill_frame in E as (_ & _ & _ & _ & _ & _ & <-).
      simpl. case_match; by intros [= <-].
    + simpl. case_match; by intros [= <-].
  - unfold issueCompute. destruct (issueQueue h); [done|]. destruct (_ || _); [done|].
    assert (E : ∀ pc g, outstanding (retireFrontend pc g) = outstanding g)
      by (intros pc g; unfold retireFrontend; by repeat case_match).
    intros [= <-]. case_match; case_match; simpl; by rewrite E.
  - unfold issueReplayChunk. destruct (_ || _); [done|]. intros [= <-]. by case_match.
  - intros [= <-]. unfold wakeForMemoryRequest.
    destruct (state h); simpl; destruct (_ =? 0)%nat; simpl; by case_match.
  - intros [= <-]. unfold lane_credit. by case_match.
Qed.

Lemma helper_run_ok os h : run os = Some h → helper_ok h.
Proof.
  revert h. induction os as [|o os IH] using rev_ind; intros h; unfold run.
  - intros [= <-]. apply reset_ok.
  - rewrite foldl_app. cbn [foldl]. fold (run os). destruct (run os) as [h1|]; [|done].
    simpl. apply helper_step_ok, IH. done.
Qed.

(** C28: The helper thread's bounds and states.  Started and driven by any sequence of its calls in which no
    assertion fails (new and extended generations, fetch, decode, refill, issue, completion, wake-ups), the
    helper keeps its two windows within their eight entries and its scoreboard at 32 registers; while
    it is idle or draining its three counters, of uops to fetch, to decode and ready to issue, are zero (an
    entry may be left in its frontend buffer), and while it is idle no load is outstanding.  Hence
    issue succeeds, and canIssue holds, only while it is neither idle nor draining; where canIssue
    holds issue succeeds; and while it is idle complete leaves it as it is. *)
Theorem helper_thread_ok (os : list Op) (h : Thread Lane) (H : run os = Some h) :
  helper_ok h ∧ (is_Some (issue h) → state h ≠ Idle ∧ state h ≠ Draining)
  ∧ (∀ source_request, canIssue source_request h = true →
       state h ≠ Idle ∧ state h ≠ Draining ∧ is_Some (issue h))
  ∧ (state h = Idle → complete h = h).
Proof.
  apply helper_run_ok in H.
  assert (Hi : is_Some (issue h) → state h ≠ Idle ∧ state h ≠ Draining).
  { unfold issue; simpl. destruct (Nat.eqb_spec (readyUops h) 0) as [?|Hr]; [by intros [??]|].
    intros _. split; intros E; by destruct (ok_quiet _ H) as (? & ? & ?); [tauto|]. }
  split; [done|]. split; [done|]. split.
  - intros sr Hc. assert (is_Some (issue h)); [|by destruct Hi].
    unfold canIssue in Hc. apply andb_prop in Hc as [[[_ Hr]%andb_prop _]%andb_prop _].
    unfold issue; simpl. apply negb_true_iff in Hr. rewrite Hr. by eexists.
  - intros E. unfold complete. rewrite (ok_idle _ H E). simpl. by rewrite E.
Qed.

(** ** The frontend *)

(** One cycle moves everything it can and leaves the buffer alone. *)
Lemma advanceFrontend_progress fw dw h h' n :
  (0 < fw)%nat → (0 < dw)%nat → helper_ok h →
  (length (frontendBuffer h) < FrontEndBufferCapacity)%nat → advanceFrontend fw dw h = (h', n) →
  frontendBuffer h' = frontendBuffer h
  ∧ (fetchRemaining h' + decodeRemaining h' ≤ pred (fetchRemaining h + decodeRemaining h))%nat
  ∧ (fetchRemaining h' + decodeRemaining h' + readyUops h'
     = fetchRemaining h + decodeRemaining h + readyUops h)%nat
  ∧ issuedUops h' = issuedUops h ∧ maxUops h' = maxUops h.
Proof.
  intros Hf Hd Hok Hb. unfold advanceFrontend; simpl. pose proof (ok_quiet _ Hok) as Hq.
  destruct (state h) eqn:Es; intros [= <- <-]; simpl; repeat split; try done;
    try (destruct Hq as (? & ? & ?); [tauto|]); lia.
Qed.

(** With positive widths and room in its buffer the frontend never stalls: after as many
    cycles as it has uops left to fetch and decode, all of them are ready to issue and none is
    lost or invented. *)
Theorem frontend_drains (fw dw n : nat) (h : Thread Lane) (Hfw : (0 < fw)%nat) (Hdw : (0 < dw)%nat)
    (Hok : helper_ok h) (Hb : (length (frontendBuffer h) < FrontEndBufferCapacity)%nat)
    (Hn : (fetchRemaining h + decodeRemaining h ≤ n)%nat) :
  let h' := Nat.iter n (λ h, (advanceFrontend fw dw h).1) h in
  fetchRemaining h' = 0%nat ∧ decodeRemaining h' = 0%nat
  ∧ readyUops h' = (readyUops h + fetchRemaining h + decodeRemaining h)%nat.
Proof.
  revert h Hok Hb Hn. induction n as [|n IH]; intros h Hok Hb Hn; [simpl; lia|].
  cbv zeta. rewrite Nat.iter_succ_r. destruct (advanceFrontend fw dw h) as [h1 m] eqn:E.
  destruct (advanceFrontend_progress fw dw h h1 m Hfw Hdw Hok Hb E) as (E1 & E2 & E3 & _ & _).
  pose proof (advanceFrontend_ok fw dw h Hok) as Hok1. rewrite E in Hok1. cbn [fst] in *.
  destruct (IH h1 Hok1) as (H1 & H2 & H3); [by rewrite E1|lia|].
  cbv zeta in *. rewrite H3. lia.
Qed.

Lemma wake_spec h :
  let h' := (wakeForMemoryRequest h).1 in
  state h' ≠ Idle ∧ state h' ≠ Draining ∧ readyUops h' ≠ 0%nat ∧ (issuedUops h' < maxUops h')%nat.
Proof.
  cbv zeta. set (h1 := match state h with
                      | Idle | Draining => h <| state := Running |>
                      | _ => h
                      end).
  assert (H1 : state h1 ≠ Idle ∧ state h1 ≠ Draining)
    by (subst h1; destruct (state h) eqn:Es; simpl; rewrite ?Es; done).
  unfold wakeForMemoryRequest. fold h1. destruct H1 as [Hi Hd].
  destruct (Nat.eqb_spec (readyUops h1) 0);
    cbn -[Nat.leb h1]; destruct (Nat.leb_spec (maxUops h1) (issuedUops h1));
    cbn -[Nat.leb h1]; repeat split; try done; try lia.
Qed.

(** A frontend cycle of an active helper with a ready uop leaves it running. *)
Lemma advanceFrontend_running fw dw h :
  state h ≠ Idle → state h ≠ Draining → readyUops h ≠ 0%nat →
  let h' := (advanceFrontend fw dw h).1 in
  state h' = Running ∧ readyUops h' ≠ 0%nat ∧ issuedUops h' = issuedUops h ∧ maxUops h' = maxUops h.
Proof.
  intros H1 H2 H3. unfold advanceFrontend.
  assert (E : ∀ k, (readyUops h + k =? 0)%nat = false) by (intros k; apply Nat.eqb_neq; lia).
  cbv zeta. cbn -[Nat.eqb Nat.min FrontEndBufferCapacity]. rewrite E, andb_false_r.
  destruct (state h); try done; cbn -[Nat.eqb Nat.min FrontEndBufferCapacity];
    repeat split; lia.
Qed.

(** Whatever the helper is doing, a memory request that wakes it can issue after one more
    frontend cycle. *)
Theorem woken_can_issue (fw dw : nat) (h : Thread Lane) :
  canIssue true (advanceFrontend fw dw (wakeForMemoryRequest h).1).1 = true.
Proof.
  destruct (wake_spec h) as (H1 & H2 & H3 & H4).
  destruct (advanceFrontend_running fw dw _ H1 H2 H3) as (E1 & E2 & E3 & E4).
  unfold canIssue. rewrite E1, E3, E4. simpl. rewrite andb_true_r.
  apply andb_true_intro. split; [|by apply Nat.ltb_lt].
  by rewrite (proj2 (Nat.eqb_neq _ 0)).
Qed.

(** The refill of the issue queue ends, with any program and any counts: it moves the next
    entries of what the helper has to compute into the queue, in order and without losing or
    repeating one, until the queue holds eight entries or nothing is pending. *)
Theorem refill_completes (h : Thread Lane) (Hv : vectorChunkModel h = true)
    (Hq : (length (issueQueue h) ≤ IssueQueueCapacity)%nat) :
  ∃ h', refillIssueQueue h = Some h'
        ∧ (shape <$> issueQueue h') = take (length (issueQueue h')) (work_stream h)
        ∧ pending_stream h' = drop (length (issueQueue h')) (work_stream h)
        ∧ length (issueQueue h') = Nat.min IssueQueueCapacity (length (work_stream h)).
Proof.
  destruct (refillIssueQueue_spec h Hq) as (h' & E & Hw & Hl & Hd). exists h'. split; [done|].
  rewrite <- Hw. unfold work_stream.
  rewrite take_app_length', drop_app_length' by (symmetry; apply length_fmap).
  repeat split. rewrite length_app, length_fmap.
  destruct (Hd Hv) as [Hf | Hf]; [|rewrite Hf; cbn [length]]; lia.
Qed.

(** An entry of the issue queue that reads the destination of the entry issued before it is
    blocked by the scoreboard until the tick at which that result is ready. *)
Theorem scoreboard_orders (t now : Z) (h h' : Thread Lane) (e e' : IssueEntry) (q : list IssueEntry)
    (Hok : helper_ok h) (Hq : issueQueue h = e :: e' :: q)
    (Hd : 0 ≤ i_destination e < ScoreboardRegisters)
    (Hs : i_source0 e' = i_destination e ∨ i_source1 e' = i_destination e)
    (Hi : issueCompute t h = Some h') (Hn : now < t) :
  issueQueue h' = e' :: q ∧ issueQueueReady now h' = false
  ∧ issueQueueScoreboardBlocked now h' = true.
Proof.
  pose proof (ok_scoreboard _ Hok) as Hl.
  assert (H : issueQueue h' = e' :: q
              ∧ readyCycle h' = <[Z.to_nat (i_destination e) := t]> (readyCycle h)).
  { revert Hi. unfold issueCompute. rewrite Hq. destruct (_ || _); [done|].
    rewrite (proj2 (andb_true_iff (0 <=? i_destination e) _)) by lia.
    unfold retireFrontend. simpl. destruct (list_find _ _) as [[??]|]; simpl;
      case_match; intros [= <-]; done. }
  destruct H as [H1 H2]. split; [done|].
  assert (Hr : register_ready (i_destination e) now h' = false).
  { unfold register_ready. rewrite H2, list_lookup_total_insert_eq by (rewrite Hl; lia). lia. }
  unfold issueQueueReady, issueQueueScoreboardBlocked. rewrite H1.
  destruct Hs as [->| ->]; rewrite Hr; simpl; rewrite ?andb_false_r, ?orb_true_r; done.
Qed.
End thread.

(** ** Witnesses *)

(** A generation of two uops over three chunks, with an ALU operation and a shift in each. *)
Definition sample_ops : list (@Op) :=
  [OBegin 1 4096 2 3 6 (Recorder.mkResources 3 3 0 0) true None 0; OFrontend 4 4; ORefill;
   OFetched 4096 10; ODecoded 4096 false 11; OIssueCompute 20; OIssue; OComplete; OWake; OFrontend 4 4].

Lemma helper_thread_ok_witness :
  ∃ h : Thread unit, run sample_ops = Some h ∧ issuedUops h = 2%nat ∧ readyUops h = 4%nat ∧ helper_ok h.
Proof.
  assert (H : ∃ h : Thread unit, run sample_ops = Some h ∧ issuedUops h = 2%nat ∧ readyUops h = 4%nat)
    by (eexists; vm_compute; done).
  destruct H as (h & H & H1 & H2). exists h.
  exact (conj H (conj H1 (conj H2 (proj1 (helper_thread_ok sample_ops h H))))).
Defined.

(** A helper with five uops to fetch and one to decode. *)
Definition fetching : Thread unit :=
  reset <| state := Fetch |> <| fetchRemaining := 5%nat |> <| decodeRemaining := 1%nat |>.

Lemma fetching_ok : helper_ok fetching ∧ (length (frontendBuffer fetching) < FrontEndBufferCapacity)%nat.
Proof. repeat split; vm_compute; try lia; intros; intuition discriminate. Qed.

Lemma frontend_drains_witness :
  readyUops (Nat.iter 6 (λ h, (advanceFrontend 2 1 h).1) fetching) = 6%nat.
Proof.
  destruct (frontend_drains 2 1 6 fetching ltac:(lia) ltac:(lia) (proj1 fetching_ok) (proj2 fetching_ok)
              ltac:(simpl; lia)) as (_ & _ & H).
  exact H.
Defined.

(** Twelve entries are pending, eight fit. *)
Definition refilling : Thread unit :=
  reset <| vectorChunkModel := true |> <| aluRemaining := 6%nat |> <| shiftRemaining := 4%nat |>
        <| multiplyRemaining := 2%nat |>.

Lemma refill_completes_witness :
  ∃ h', refillIssueQueue refilling = Some h' ∧ length (issueQueue h') = 8%nat
        ∧ pending_stream h' = replicate 2 (KShift, 0, -1, 0) ++ replicate 2 (KMultiply, 0, -1, 0).
Proof.
  destruct (refill_completes refilling eq_refl ltac:(simpl; lia)) as (h' & H1 & _ & H3 & H4).
  exists h'. split; [exact H1|]. split; [exact H4|]. rewrite H3, H4. reflexivity.
Defined.

(** A multiplication of register 5 and an addition that reads it. *)
Definition dependent : Thread unit :=
  reset <| state := Running |> <| vectorChunkModel := true |> <| readyUops := 2%nat |>
        <| issueQueue := [mkIssue KMultiply 1 2 5 100 104 0; mkIssue KAdd 5 (-1) 6 104 108 0] |>.

Lemma dependent_ok : helper_ok dependent.
Proof. repeat split; vm_compute; try lia; intros; intuition discriminate. Qed.

Lemma dependent_issues : is_Some (issueCompute 30 dependent).
Proof. vm_compute. by eexists. Qed.

Lemma scoreboard_orders_witness :
  ∃ h', issueCompute 30 dependent = Some h' ∧ issueQueueReady 29 h' = false.
Proof.
  destruct dependent_issues as [h' H]. exists h'. split; [exact H|].
  refine (proj1 (proj2 (scoreboard_orders 30 29 dependent h' _ _ [] dependent_ok eq_refl _ _ H _))).
  - simpl. unfold ScoreboardRegisters. lia.
  - left. reflexivity.
  - lia.
Defined.
End Helper.
