(* ===== verification/HelperFetch.v ===== *)
(** * Instruction fetch of the helper thread

    Model of the helper's own instruction port (src/cpu/o3/cpu.cc): the requests of
    [requestDVRInstructionFetch], their responses and retries, the decode cache read by
    [fetchDecodeDVRUop], and the frontend part of [CPU::tick], which drives [Helper.Thread].
    Address translation, the memory behind the port and the ISA decoder are arguments. *)

From stdpp Require Import gmap.
From S2P Require Import Prelude Inst Uop Recorder Helper.

Module HelperFetch.
Import Uop Helper.

(** What a functional read of the bytes at a PC gives. *)
Inductive ReadResult {I : Type} := ReadFault | Undecoded | Decodes (i : I).
#[global] Arguments ReadResult : clear implicits.

(** The surroundings during one call: whether the port is connected, which thread contexts exist,
    which addresses translate, whether the port accepts the request for a PC, and the bytes. *)
Record Env {I : Type} := mkEnv {
  connected : bool;  context : Z → bool;  translates : Z → bool;  accepts : Z → bool;
  bytes : Z → ReadResult I
}.
#[global] Arguments Env : clear implicits.

(** A packet with its [DVRInstructionFetchState]; an instruction pointer may be null. *)
Record Packet {I : Type} := mkPacket { k_pc : Z;  k_tid : Z;  k_captured : option I }.
#[global] Arguments Packet : clear implicits.

(** The helper with [decodedUopCache], [dvrInstructionFetchPending], the packets that the port
    accepted and [dvrInstructionRetryPkt]. *)
Record Front {Lane I : Type} := mkFront {
  thread : Helper.Thread Lane;  cache : gmap Z (option I);  pending : gset Z;
  flying : list (Packet I);  retryPkt : option (Packet I)
}.
#[global] Arguments Front : clear implicits.
#[export] Instance eta_Front {Lane I} : Eta (Front Lane I) := λ r,
  mkFront _ _ (thread r) (cache r) (pending r) (flying r) (retryPkt r).

Section fetch.
Context {Lane I : Type} (program : nat → list Uop) (captured : Uop → option I).
Implicit Type f : Front Lane I.
Implicit Type e : Env I.

(** The helper as constructed. *)
Definition front_init : Front Lane I := mkFront _ _ Helper.reset ∅ ∅ [] None.

(** [requestDVRInstructionFetch] *)
Definition requestDVRInstructionFetch e (tid pc : Z) (inst : option I) f : Front Lane I * bool :=
  if negb (connected e) then (f, false)
  else if bool_decide (pc ∈ pending f) then (f, true)
  else if bool_decide (is_Some (retryPkt f)) then (f, true)
  else if negb (context e tid) then (f, false)
  else if negb (translates e pc) then (f <| cache ::= <[pc := inst]> |>, false)
  else
    let pkt := mkPacket _ pc tid inst in
    let f := f <| pending ::= λ s, {[pc]} ∪ s |> in
    (if accepts e pc then f <| flying ::= λ l, l ++ [pkt] |> else f <| retryPkt := Some pkt |>, true).

(** [completeDVRInstructionFetch] for the [k]-th packet in flight; [decoded] is what the decoder
    makes of its data. *)
Definition completeDVRInstructionFetch (k : nat) (decoded : option I) (now : Z) f : Front Lane I :=
  match flying f !! k with
  | None => f
  | Some p =>
      let f := f <| flying ::= λ l, delete k l |> in
      let f := match decoded with
               | Some i => f <| cache ::= <[k_pc p := Some i]> |>
                             <| thread ::= Helper.frontendDecoded (k_pc p) false now |>
               | None => f <| cache ::= <[k_pc p := k_captured p]> |>
                           <| thread ::= Helper.frontendDecoded (k_pc p) true now |>
               end in
      f <| pending ::= λ s, s ∖ {[k_pc p]} |>
  end.

(** [retryDVRInstructionFetch] *)
Definition retryDVRInstructionFetch (sent : bool) f : Front Lane I :=
  match retryPkt f with
  | Some p => if sent then f <| flying ::= λ l, l ++ [p] |> <| retryPkt := None |> else f
  | None => f
  end.

(** What [fetchDecodeDVRUop] returns: the instruction, [fetch_fault] and [cache_hit]. *)
Record Fetched := mkFetched { inst : option I;  fault : bool;  hit : bool }.

(** [fetchDecodeDVRUop] *)
Definition fetchDecodeDVRUop e (tid pc : Z) (saved : option I) f : Front Lane I * Fetched :=
  match cache f !! pc with
  | Some i => (f, mkFetched i false true)
  | None =>
      if negb (context e tid) then (f, mkFetched saved true false)
      else if connected e then
        let '(f, waiting) := requestDVRInstructionFetch e tid pc saved f in
        if waiting then (f, mkFetched None false false)
        else (f, mkFetched (default saved (cache f !! pc)) false false)
      else
        match bytes e pc with
        | ReadFault => (f, mkFetched saved true false)
        | Undecoded => (f, mkFetched saved false false)
        | Decodes i => (f <| cache ::= <[pc := Some i]> |>, mkFetched (Some i) false false)
        end
  end.

(** The body of the frontend loop of [CPU::tick] on a non-empty program. *)
Definition fetch_uop e (now : Z) (uops : list Uop) f : Front Lane I :=
  let index := Helper.frontendUopIndex (thread f) in
  let index := if (length uops <=? index)%nat then 0%nat else index in
  let u := uops !!! index in
  let f := f <| thread ::= λ h,
                  Helper.frontendFetched (Uop.pc u) now (h <| Helper.frontendUopIndex := S index |>) |> in
  let '(f, r) :=
    fetchDecodeDVRUop e (Helper.frontendTid (thread f)) (Uop.pc u) (captured u) f in
  let f := if bool_decide (is_Some (inst r))
           then f <| thread ::= Helper.frontendDecoded (Uop.pc u) (fault r) now |> else f in
  f <| thread ::= λ h, h <| Helper.helperPC := Uop.pc u |> |>.

(** The loop over the uops fetched in this cycle. *)
Fixpoint fetch_uops e (now : Z) (n : nat) f : Front Lane I :=
  match n with
  | O => f
  | S n =>
      match Helper.frontendReplay (thread f) with
      | None => f
      | Some r => match program r with
                  | [] => f
                  | uops => fetch_uops e now n (fetch_uop e now uops f)
                  end
      end
  end.

(** The frontend part of [CPU::tick]; the main thread claims width first. *)
Definition tickFrontend e (fetch_width decode_width main_issues : nat) (now : Z) f
    : Front Lane I * nat :=
  let fetch := (fetch_width - Nat.min fetch_width main_issues)%nat in
  let decode := (decode_width - Nat.min decode_width main_issues)%nat in
  let '(h, work) := Helper.advanceFrontend fetch decode (thread f) in
  (fetch_uops e now (Helper.lastFetched h) (f <| thread := h |>), work).

(** The calls of [DVRHelperThread] that restart the helper, which empties [decodedUopCache]. *)
Definition restarts (o : @Helper.Op) (h : Helper.Thread Lane) : bool :=
  match o with
  | OBegin _ _ _ _ _ _ _ _ _ => true
  | OExtend _ _ _ _ _ _ => bool_decide (state h = Idle)
  | _ => false
  end.

(** Any other call on the helper; [None] is a failed assertion. *)
Definition helper_call (o : @Helper.Op) f : option (Front Lane I) :=
  h ← Helper.step o (thread f);
  Some (f <| thread := h |> <| cache := if restarts o (thread f) then ∅ else cache f |>).

(** What can happen to the front end. *)
Inductive Event :=
  | ETick (e : Env I) (fetch_width decode_width main_issues : nat) (now : Z)
  | EFetch (e : Env I) (tid pc : Z) (saved : I)
  | EResponse (k : nat) (decoded : option I) (now : Z)
  | ERetry (sent : bool)
  | EHelper (o : @Helper.Op).

Definition handle (ev : Event) f : option (Front Lane I) :=
  match ev with
  | ETick e fw dw mi now => Some (tickFrontend e fw dw mi now f).1
  | EFetch e tid pc saved => Some (fetchDecodeDVRUop e tid pc (Some saved) f).1
  | EResponse k decoded now => Some (completeDVRInstructionFetch k decoded now f)
  | ERetry sent => Some (retryDVRInstructionFetch sent f)
  | EHelper o => helper_call o f
  end.

Definition run (evs : list Event) : option (Front Lane I) :=
  foldl (λ m ev, f ← m; handle ev f) (Some front_init) evs.

(** ** The invariant *)

(** The packets that exist: in flight, or waiting for a retry. *)
Definition packets f : list (Packet I) := flying f ++ option_list (retryPkt f).

(** There is one packet for each pending PC and no other, and no null instruction is kept. *)
Record fetch_ok f : Prop := mkFetchOk {
  ok_helper : Helper.helper_ok (thread f);
  ok_once : NoDup (k_pc <$> packets f);
  ok_pending : ∀ pc, pc ∈ pending f ↔ pc ∈ k_pc <$> packets f;
  ok_saved : ∀ p, p ∈ packets f → is_Some (k_captured p);
  ok_cache : ∀ pc i, cache f !! pc = Some i → is_Some i
}.

(** Changes of the helper and of the cache that keep it. *)
Lemma fetch_ok_frame f f' :
  fetch_ok f → Helper.helper_ok (thread f') → packets f' = packets f → pending f' = pending f →
  (∀ pc i, cache f' !! pc = Some i → cache f !! pc = Some i ∨ is_Some i) → fetch_ok f'.
Proof.
  intros [? H1 H2 H3 H4] Hh Hp Hpend Hc. split; rewrite ?Hp, ?Hpend; try done.
  intros pc i Hl. destruct (Hc pc i Hl); [by eapply H4|done].
Qed.

Lemma front_init_ok : fetch_ok front_init.
Proof.
  split; simpl.
  - apply Helper.reset_ok.
  - constructor.
  - intros pc. rewrite elem_of_nil. set_solver.
  - intros p Hp. by apply elem_of_nil in Hp.
  - intros pc i. by rewrite lookup_empty.
Qed.

(** A new packet for a PC that has none. *)
Lemma new_packet_ok p f f' :
  fetch_ok f → k_pc p ∉ pending f → is_Some (k_captured p) →
  thread f' = thread f → cache f' = cache f → pending f' = {[k_pc p]} ∪ pending f →
  packets f' ≡ₚ p :: packets f → fetch_ok f'.
Proof.
  intros [? H1 H2 H3 H4] Hn Hs Ht Hc Hpend Hp. split; rewrite ?Ht, ?Hc, ?Hpend; try done.
  - rewrite Hp. rewrite fmap_cons. constructor; [by rewrite <- H2|done].
  - intros pc. rewrite Hp, fmap_cons, elem_of_cons, elem_of_union, elem_of_singleton.
    by rewrite H2.
  - intros q. rewrite Hp, elem_of_cons. intros [->|?]; [done|by apply H3].
Qed.

Lemma request_ok e tid pc i f :
  fetch_ok f → fetch_ok (requestDVRInstructionFetch e tid pc (Some i) f).1.
Proof.
  intros Hok. unfold requestDVRInstructionFetch.
  destruct (negb (connected e)); [done|]. case_bool_decide as Hp; [done|].
  case_bool_decide as Hr; [done|]. destruct (negb (context e tid)); [done|].
  destruct (negb (translates e pc)); simpl.
  - apply (fetch_ok_frame f); try done; [apply Hok|]. simpl. intros pc' i' Hl.
    apply lookup_insert_Some in Hl as [[_ <-]|[_ ?]]; [by right|by left].
  - apply eq_None_not_Some in Hr.
    apply (new_packet_ok (mkPacket _ pc tid (Some i)) f); try done; destruct (accepts e pc); try done;
      unfold packets; simpl; rewrite Hr; simpl; rewrite ?app_nil_r; by rewrite Permutation_app_comm.
Qed.

Lemma fetchDecode_ok e tid pc i f :
  fetch_ok f → fetch_ok (fetchDecodeDVRUop e tid pc (Some i) f).1.
Proof.
  intros Hok. unfold fetchDecodeDVRUop. destruct (cache f !! pc); [done|].
  destruct (negb (context e tid)); [done|]. destruct (connected e) eqn:Hc.
  - pose proof (request_ok e tid pc i f Hok) as H1.
    destruct (requestDVRInstructionFetch e tid pc (Some i) f) as [f1 []]; done.
  - destruct (bytes e pc); try done. simpl.
    apply (fetch_ok_frame f); try done; [apply Hok|]. simpl. intros pc' i' Hl.
    apply lookup_insert_Some in Hl as [[_ <-]|[_ ?]]; [by right|by left].
Qed.

(** A response removes one packet and its PC. *)
Lemma answer_ok k decoded now f :
  fetch_ok f → fetch_ok (completeDVRInstructionFetch k decoded now f).
Proof.
  intros Hok. unfold completeDVRInstructionFetch. destruct (flying f !! k) as [p|] eqn:Hk; [|done].
  assert (Hp : packets f ≡ₚ p :: delete k (flying f) ++ option_list (retryPkt f)).
  { unfold packets. rewrite (delete_Permutation (flying f) k p Hk) at 1. done. }
  destruct Hok as [Hh H1 H2 H3 H4]. rewrite Hp, fmap_cons in H1. apply NoDup_cons in H1 as [Hn H1].
  assert (Hs : is_Some (k_captured p)) by (apply H3; rewrite Hp; left).
  destruct decoded as [i|]; (split; simpl;
    [ by apply Helper.frontendDecoded_ok
    | exact H1
    | intros pc; rewrite elem_of_difference, H2, Hp, fmap_cons, elem_of_cons, elem_of_singleton;
      unfold packets; simpl; split; [tauto|intros Hin; split; [tauto|by intros ->]]
    | intros q Hq; apply H3; rewrite Hp; by right
    | intros pc i' Hl; apply lookup_insert_Some in Hl as [[_ <-]|[_ ?]]; [done|by eapply H4] ]).
Qed.

Lemma retry_ok sent f : fetch_ok f → fetch_ok (retryDVRInstructionFetch sent f).
Proof.
  intros Hok. unfold retryDVRInstructionFetch. destruct (retryPkt f) eqn:E; [|done].
  destruct sent; [|done]. apply (fetch_ok_frame f); try done; [apply Hok| |by left].
  unfold packets; simpl. rewrite E. simpl. by rewrite app_nil_r.
Qed.
(** The helper's counters in a frontend step. *)
Lemma set_thread_ok h f : fetch_ok f → Helper.helper_ok h → fetch_ok (f <| thread := h |>).
Proof. intros Hok Hh. apply (fetch_ok_frame f); try done. by left. Qed.

(** [helper_ok] reads neither the program counter nor the fetch cursor. *)
Lemma cursor_ok index (h : Helper.Thread Lane) : Helper.helper_ok h → Helper.helper_ok (h <| frontendUopIndex := index |>).
Proof. intros []. by split. Qed.
Lemma helperPC_ok pc (h : Helper.Thread Lane) : Helper.helper_ok h → Helper.helper_ok (h <| helperPC := pc |>).
Proof. intros []. by split. Qed.

Lemma helper_call_ok o f f' : fetch_ok f → helper_call o f = Some f' → fetch_ok f'.
Proof.
  intros Hok. unfold helper_call. destruct (Helper.step o (thread f)) as [h|] eqn:E; [|done].
  simpl. intros [= <-]. apply (fetch_ok_frame f); try done; simpl.
  - eapply Helper.helper_step_ok; [apply Hok|done].
  - destruct (restarts o (thread f)); [by intros ??; rewrite lookup_empty|by left].
Qed.

Section saved.
Context (captured_saved : ∀ u, is_Some (captured u)).

Lemma fetch_uop_ok e now uops f : fetch_ok f → fetch_ok (fetch_uop e now uops f).
Proof.
  intros Hok. unfold fetch_uop.
  set (index := if (length uops <=? _)%nat then 0%nat else _). set (u := uops !!! index).
  destruct (captured_saved u) as [i ->].
  match goal with |- context [fetchDecodeDVRUop e ?t ?pc (Some i) ?f1] =>
    assert (H1 : fetch_ok f1) by
      (apply set_thread_ok; [done|]; apply Helper.frontendFetched_ok, cursor_ok, Hok);
    pose proof (fetchDecode_ok e t pc i f1 H1) as H2;
    destruct (fetchDecodeDVRUop e t pc (Some i) f1) as [f2 r]
  end.
  cbn [fst] in H2. destruct (bool_decide (is_Some (inst r))); apply set_thread_ok; try apply set_thread_ok;
    try done; simpl; try apply helperPC_ok; try apply Helper.frontendDecoded_ok; apply H2.
Qed.

Lemma fetch_uops_ok e now n f : fetch_ok f → fetch_ok (fetch_uops e now n f).
Proof.
  revert f. induction n as [|n IH]; intros f Hok; [done|]. cbn [fetch_uops].
  destruct (frontendReplay (thread f)); [|done]. destruct (program _); [done|].
  by apply IH, fetch_uop_ok.
Qed.

Lemma tick_ok e fw dw mi now f : fetch_ok f → fetch_ok (tickFrontend e fw dw mi now f).1.
Proof.
  intros Hok. unfold tickFrontend.
  destruct (Helper.advanceFrontend _ _ (thread f)) as [h work] eqn:E.
  apply fetch_uops_ok, set_thread_ok; [done|].
  change h with (h, work).1. rewrite <- E. apply Helper.advanceFrontend_ok, Hok.
Qed.

Lemma front_handle_ok ev f f' : fetch_ok f → handle ev f = Some f' → fetch_ok f'.
Proof.
  intros Hok. destruct ev; cbn [handle]; try intros [= <-].
  - by apply tick_ok.
  - by apply fetchDecode_ok.
  - by apply answer_ok.
  - by apply retry_ok.
  - by apply helper_call_ok.
Qed.

Lemma front_run_ok evs f : run evs = Some f → fetch_ok f.
Proof.
  revert f. induction evs as [|ev evs IH] using rev_ind; intros f; unfold run.
  - intros [= <-]. apply front_init_ok.
  - rewrite foldl_app. cbn [foldl]. fold (run evs). destruct (run evs) as [f1|]; [|done].
    simpl. apply front_handle_ok, IH. done.
Qed.
End saved.

(** ** Waiting ends *)

(** A response that is used puts its PC in the cache. *)
Lemma complete_head decoded now f p l :
  flying f = p :: l →
  let f' := completeDVRInstructionFetch 0 decoded now f in
  flying f' = l ∧ retryPkt f' = retryPkt f ∧ pending f' = pending f ∖ {[k_pc p]}
  ∧ is_Some (cache f' !! k_pc p) ∧ (∀ pc, is_Some (cache f !! pc) → is_Some (cache f' !! pc)).
Proof.
  intros E. unfold completeDVRInstructionFetch. rewrite E. simpl.
  destruct decoded; simpl; rewrite ?E; repeat split; try done;
    try (rewrite lookup_insert_eq; by eexists);
    intros pc [j Hj]; destruct (decide (pc = k_pc p)) as [->|?];
      rewrite ?lookup_insert_eq, ?lookup_insert_ne by done; by eexists.
Qed.

(** Every packet is answered, the oldest first. *)
Definition answer_all (answers : list (option I)) (now : Z) f : Front Lane I :=
  foldl (λ f decoded, completeDVRInstructionFetch 0 decoded now f) f answers.

Lemma answer_all_spec answers now f :
  length answers = length (flying f) →
  let f' := answer_all answers now f in
  flying f' = [] ∧ retryPkt f' = retryPkt f
  ∧ (∀ pc, pc ∈ pending f' ↔ pc ∈ pending f ∧ pc ∉ k_pc <$> flying f)
  ∧ (∀ pc, pc ∈ k_pc <$> flying f ∨ is_Some (cache f !! pc) → is_Some (cache f' !! pc)).
Proof.
  revert f. induction answers as [|a answers IH]; intros f Hl; simpl in *.
  - symmetry in Hl. apply length_zero_iff_nil in Hl. rewrite Hl. simpl. repeat split; try done.
    + by apply not_elem_of_nil.
    + tauto.
    + intros pc [H|H]; [by apply elem_of_nil in H|done].
  - destruct (flying f) as [|p l] eqn:E; [done|].
    destruct (complete_head a now f p l E) as (E1 & E2 & E3 & E4 & E5).
    destruct (IH (completeDVRInstructionFetch 0 a now f)) as (F1 & F2 & F3 & F4).
    { rewrite E1. simpl in Hl. lia. }
    simpl in *. split; [done|]. split; [congruence|]. split.
    + intros pc. rewrite F3, E1, E3, elem_of_difference, elem_of_singleton, elem_of_cons.
      tauto.
    + intros pc [H|H]; apply F4; rewrite E1; [|by right; apply E5].
      rewrite elem_of_cons in H. destruct H as [->|H]; [by right|by left].
Qed.
Lemma answer_all_ok answers now f : fetch_ok f → fetch_ok (answer_all answers now f).
Proof.
  revert f. induction answers as [|a answers IH]; intros f Hok; [done|]. by apply IH, answer_ok.
Qed.

(** A call that returns no instruction has left a packet behind, for its PC or in the retry slot. *)
Lemma fetchDecode_waits e tid pc i f f1 r :
  fetch_ok f → fetchDecodeDVRUop e tid pc (Some i) f = (f1, r) → inst r = None →
  pc ∈ pending f1 ∨ is_Some (retryPkt f1) ∧ f1 = f.
Proof.
  intros Hok. unfold fetchDecodeDVRUop. destruct (cache f !! pc) as [j|] eqn:Hc.
  { intros [= <- <-] Hn. apply (ok_cache _ Hok) in Hc as [? ->]. done. }
  destruct (negb (context e tid)) eqn:Hcx; [by intros [= <- <-]|]. destruct (connected e) eqn:He.
  - unfold requestDVRInstructionFetch. rewrite He, Hcx. simpl.
    case_bool_decide as Hp; [intros [= <- <-] _; by left|].
    case_bool_decide as Hr; [intros [= <- <-] _; by right|].
    destruct (negb (translates e pc)); simpl.
    + intros [= <- <-]. simpl. by rewrite lookup_insert_eq.
    + intros [= <- <-] _. left. destruct (accepts e pc); simpl; set_solver.
  - destruct (bytes e pc); by intros [= <- <-].
Qed.

(** Whatever the order of helper calls, fetches by lanes, cycles of the frontend, responses
    and retries, there is exactly one packet for each PC that is marked pending and none for any
    other, so no instruction is requested twice at a time and none stays pending without a packet;
    the decode cache holds no null instruction and the helper keeps its own invariant. *)
Theorem instruction_fetches_ok (captured_saved : ∀ u, is_Some (captured u)) (evs : list Event)
    (f : Front Lane I) (H : run evs = Some f) :
  NoDup (k_pc <$> packets f) ∧ (∀ pc, pc ∈ pending f ↔ pc ∈ k_pc <$> packets f)
  ∧ (∀ pc i, cache f !! pc = Some i → is_Some i) ∧ Helper.helper_ok (thread f).
Proof. destruct (front_run_ok captured_saved evs f H). done. Qed.

(** C29: A fetch that makes its caller wait never waits in vain: a packet is outstanding, and
    once the port has accepted the retry and answered every packet, whatever the answers, none is
    pending and the caller's next attempt gets an instruction, unless the attempt had no packet
    of its own because another one was blocked at the port. *)
Theorem waiting_resolves (captured_saved : ∀ u, is_Some (captured u)) (evs : list Event)
    (f f1 : Front Lane I) (e : Env I) (tid pc now : Z) (i : I) (r : Fetched)
    (answers : list (option I)) (H : run evs = Some f)
    (Hf : fetchDecodeDVRUop e tid pc (Some i) f = (f1, r)) (Hw : inst r = None)
    (Ha : length answers = length (packets f1)) :
  let f2 := answer_all answers now (retryDVRInstructionFetch true f1) in
  packets f1 ≠ [] ∧ packets f2 = [] ∧ pending f2 = ∅
  ∧ (pc ∈ pending f1 → ∀ e', is_Some (inst (fetchDecodeDVRUop e' tid pc (Some i) f2).2))
  ∧ (pc ∉ pending f1 → is_Some (retryPkt f)).
Proof.
  pose proof (front_run_ok captured_saved evs f H) as Hok.
  assert (Hok1 : fetch_ok f1) by (pose proof (fetchDecode_ok e tid pc i f Hok) as H1; by rewrite Hf in H1).
  assert (Hr : let g := retryDVRInstructionFetch true f1 in
               flying g = packets f1 ∧ retryPkt g = None ∧ pending g = pending f1).
  { unfold retryDVRInstructionFetch, packets. destruct (retryPkt f1) eqn:E; simpl; [done|].
    by rewrite app_nil_r. }
  destruct Hr as (R1 & R2 & R3).
  destruct (answer_all_spec answers now (retryDVRInstructionFetch true f1)) as (A1 & A2 & A3 & A4).
  { by rewrite R1. }
  cbv zeta. set (f2 := answer_all answers now (retryDVRInstructionFetch true f1)) in *. split.
  { intros E. destruct (fetchDecode_waits e tid pc i f f1 r Hok Hf Hw) as [Hp|[[p Hp] _]].
    - apply (ok_pending _ Hok1) in Hp. rewrite E in Hp. by apply elem_of_nil in Hp.
    - unfold packets in E. rewrite Hp in E. by apply app_eq_nil in E as [_ E]. }
  assert (Hok2 : fetch_ok f2) by (apply answer_all_ok, retry_ok, Hok1).
  split. { unfold packets. by rewrite A1, A2, R2. } split.
  { apply set_eq. intros x. rewrite A3, R1, R3, (ok_pending _ Hok1), elem_of_empty. tauto. }
  split.
  - intros Hp e'. destruct (A4 pc) as [j Hj]; [left; rewrite R1; by apply (ok_pending _ Hok1)|].
    unfold fetchDecodeDVRUop. rewrite Hj. simpl. by apply (ok_cache _ Hok2 pc).
  - intros Hn. destruct (fetchDecode_waits e tid pc i f f1 r Hok Hf Hw) as [Hp|[Hp ->]]; done.
Qed.

(** ** The window follows the program *)

(** The PCs of [n] uops of a program, round and round from an index. *)
Definition program_order (uops : list Uop) (index n : nat) : list Z :=
  (λ k, Uop.pc (uops !!! ((index + k) mod length uops)%nat)) <$> seq 0 n.

Definition window (h : Helper.Thread Lane) : list Z := f_pc <$> frontendBuffer h.

Lemma window_fetched pc now (h : Helper.Thread Lane) :
  (length (frontendBuffer h) < FrontEndBufferCapacity)%nat →
  window (frontendFetched pc now h) = window h ++ [pc].
Proof.
  intros Hl. unfold frontendFetched, window.
  rewrite (proj2 (Nat.leb_gt _ _) Hl). simpl. by rewrite fmap_app.
Qed.

Lemma window_decoded pc flt now (h : Helper.Thread Lane) : window (frontendDecoded pc flt now h) = window h.
Proof.
  unfold frontendDecoded, window. destruct (list_find _ _) as [[k e]|] eqn:E; [|done].
  apply list_find_Some in E as (Hk & _ & _). simpl. rewrite list_fmap_insert. simpl.
  apply list_insert_id. by rewrite list_lookup_fmap, Hk.
Qed.

(** Decoding leaves the counters alone. *)
Lemma decoded_frame pc flt now (h : Helper.Thread Lane) :
  frontendReplay (frontendDecoded pc flt now h) = frontendReplay h
  ∧ frontendUopIndex (frontendDecoded pc flt now h) = frontendUopIndex h
  ∧ fetchRemaining (frontendDecoded pc flt now h) = fetchRemaining h.
Proof. unfold frontendDecoded. by destruct (list_find _ _) as [[??]|]. Qed.

Lemma fetchDecode_thread e tid pc saved f : thread (fetchDecodeDVRUop e tid pc saved f).1 = thread f.
Proof.
  unfold fetchDecodeDVRUop, requestDVRInstructionFetch.
  destruct (cache f !! pc); [done|]. destruct (negb (context e tid)); [done|].
  destruct (connected e); simpl; [|by destruct (bytes e pc)].
  case_bool_decide; [done|]. case_bool_decide; [done|].
  by destruct (translates e pc), (accepts e pc).
Qed.
(** One uop enters the window and the cursor moves on. *)
Lemma fetch_uop_window e now uops f :
  uops ≠ [] → (frontendUopIndex (thread f) ≤ length uops)%nat →
  (length (window (thread f)) < FrontEndBufferCapacity)%nat →
  let f' := fetch_uop e now uops f in
  let next := (frontendUopIndex (thread f) mod length uops)%nat in
  window (thread f') = window (thread f) ++ [Uop.pc (uops !!! next)]
  ∧ frontendUopIndex (thread f') = S next
  ∧ frontendReplay (thread f') = frontendReplay (thread f)
  ∧ fetchRemaining (thread f') = fetchRemaining (thread f).
Proof.
  intros Hne Hi Hl. cbv zeta. unfold fetch_uop.
  assert (Hlen : (0 < length uops)%nat) by (destruct uops; [done|simpl; lia]).
  replace (if (length uops <=? frontendUopIndex (thread f))%nat then 0%nat
           else frontendUopIndex (thread f)) with (frontendUopIndex (thread f) mod length uops)%nat.
  2: { destruct (Nat.leb_spec (length uops) (frontendUopIndex (thread f))) as [H|H].
       - replace (frontendUopIndex (thread f)) with (length uops) by lia. apply Nat.Div0.mod_same.
       - by apply Nat.mod_small. }
  set (u := uops !!! _).
  set (f1 := f <| thread ::= _ |>).
  pose proof (fetchDecode_thread e (frontendTid (thread f1)) (Uop.pc u) (captured u) f1) as Ht.
  destruct (fetchDecodeDVRUop e (frontendTid (thread f1)) (Uop.pc u) (captured u) f1) as [f2 r].
  cbn [fst] in Ht.
  assert (H1 : window (thread f1) = window (thread f) ++ [Uop.pc u]).
  { subst f1. simpl. rewrite window_fetched; [done|]. unfold window in Hl. by rewrite length_fmap in Hl. }
  assert (H2 : frontendUopIndex (thread f1) = S (frontendUopIndex (thread f) mod length uops)
               ∧ frontendReplay (thread f1) = frontendReplay (thread f)
               ∧ fetchRemaining (thread f1) = fetchRemaining (thread f)).
  { subst f1. simpl. unfold frontendFetched. by destruct (FrontEndBufferCapacity <=? _)%nat. }
  rewrite <- H1, <- (proj1 H2), <- (proj1 (proj2 H2)), <- (proj2 (proj2 H2)), <- Ht. clear H1 H2 Ht.
  destruct (decoded_frame (Uop.pc u) (fault r) now (thread f2)) as (D1 & D2 & D3).
  pose proof (window_decoded (Uop.pc u) (fault r) now (thread f2)) as D4.
  destruct (bool_decide (is_Some (inst r))); simpl; done.
Qed.

Lemma program_order_S uops index n :
  uops ≠ [] →
  program_order uops index (S n)
  = Uop.pc (uops !!! (index mod length uops)%nat)
    :: program_order uops (S (index mod length uops)) n.
Proof.
  intros Hne. assert (Hlen : length uops ≠ 0%nat) by (by destruct uops).
  unfold program_order. rewrite <- cons_seq, fmap_cons, Nat.add_0_r. f_equal.
  rewrite <- fmap_S_seq, <- list_fmap_compose. apply list_fmap_ext. intros k x _. unfold compose.
  replace (index + S x)%nat with (S index + x)%nat by lia.
  replace (S (index mod length uops) + x)%nat with (index mod length uops + S x)%nat by lia.
  rewrite Nat.Div0.add_mod_idemp_l. do 3 f_equal. lia.
Qed.

Lemma fetch_uops_window e now n r f :
  frontendReplay (thread f) = Some r → program r ≠ [] →
  (frontendUopIndex (thread f) ≤ length (program r))%nat →
  (length (window (thread f)) + n ≤ FrontEndBufferCapacity)%nat →
  let f' := fetch_uops e now n f in
  window (thread f')
  = window (thread f) ++ program_order (program r) (frontendUopIndex (thread f)) n
  ∧ (frontendUopIndex (thread f') ≤ length (program r))%nat
  ∧ fetchRemaining (thread f') = fetchRemaining (thread f).
Proof.
  revert f. induction n as [|n IH]; intros f Hr Hne Hi Hl; cbv zeta.
  { unfold program_order. simpl. by rewrite app_nil_r. }
  assert (Hs : fetch_uops e now (S n) f = fetch_uops e now n (fetch_uop e now (program r) f)).
  { cbn [fetch_uops]. rewrite Hr. by destruct (program r). }
  rewrite Hs.
  destruct (fetch_uop_window e now (program r) f) as (W1 & W2 & W3 & W4); [done|done|lia|].
  assert (Hlen : (frontendUopIndex (thread f) mod length (program r) < length (program r))%nat).
  { apply Nat.mod_upper_bound. by destruct (program r). }
  destruct (IH (fetch_uop e now (program r) f)) as (E1 & E2 & E3).
  - by rewrite W3.
  - done.
  - rewrite W2. lia.
  - rewrite W1, length_app. simpl. lia.
  - rewrite E1, E3, W1, W2, W4, program_order_S, <- app_assoc by done. done.
Qed.

Lemma advanceFrontend_fetches fw dw (h : Helper.Thread Lane) :
  let h' := (advanceFrontend fw dw h).1 in
  frontendBuffer h' = frontendBuffer h ∧ frontendReplay h' = frontendReplay h
  ∧ frontendUopIndex h' = frontendUopIndex h
  ∧ (fetchRemaining h' + lastFetched h' = fetchRemaining h)%nat
  ∧ (lastFetched h' ≤ FrontEndBufferCapacity - length (frontendBuffer h))%nat
  ∧ (lastFetched h' ≤ fw)%nat.
Proof.
  unfold advanceFrontend. destruct (state h) eqn:Es; cbn -[Nat.min Nat.eqb FrontEndBufferCapacity];
    rewrite ?Es; cbn -[Nat.min Nat.eqb FrontEndBufferCapacity]; repeat split; lia.
Qed.

(** The cycle of the helper's frontend puts in its window exactly the uops it counts as
    fetched, in program order and round the program from where it stopped, whether or not their
    instructions have arrived; none is dropped for want of room. *)
Theorem frontend_window_order (e : Env I) (fw dw mi r : nat) (now : Z) (f : Front Lane I)
    (Hok : Helper.helper_ok (thread f)) (Hr : frontendReplay (thread f) = Some r)
    (Hne : program r ≠ []) (Hi : (frontendUopIndex (thread f) ≤ length (program r))%nat) :
  let f' := (tickFrontend e fw dw mi now f).1 in
  let fetched := (fetchRemaining (thread f) - fetchRemaining (thread f'))%nat in
  window (thread f')
  = window (thread f) ++ program_order (program r) (frontendUopIndex (thread f)) fetched
  ∧ (fetchRemaining (thread f') + fetched = fetchRemaining (thread f))%nat
  ∧ (frontendUopIndex (thread f') ≤ length (program r))%nat
  ∧ (fetched ≤ fw - mi)%nat.
Proof.
  cbv zeta. unfold tickFrontend.
  pose proof (advanceFrontend_fetches (fw - Nat.min fw mi) (dw - Nat.min dw mi) (thread f)) as Ha.
  destruct (advanceFrontend _ _ (thread f)) as [h work]. cbv zeta in Ha. cbn [fst] in *.
  destruct Ha as (A1 & A2 & A3 & A4 & A5 & A6).
  destruct (fetch_uops_window e now (lastFetched h) r (f <| thread := h |>)) as (E1 & E2 & E3); simpl.
  - by rewrite A2.
  - done.
  - by rewrite A3.
  - unfold window. rewrite length_fmap, A1. pose proof (Helper.ok_buffer _ Hok). lia.
  - simpl in *. rewrite E3. replace (fetchRemaining (thread f) - fetchRemaining h)%nat with (lastFetched h) by lia.
    rewrite A3 in E1. unfold window in *. rewrite A1 in E1. repeat split; [done|lia|done|lia].
Qed.
End fetch.

(** ** Witnesses *)

(** A program of a trigger load at 100 and an addition at 104. *)
Definition trigger : Uop := Uop_init <| Uop.pc := 100 |> <| load := true |>.
Definition addition : Uop := Uop_init <| Uop.pc := 104 |>.
Definition sample_program (r : nat) : list Uop := [trigger; addition].
Definition sample_captured (u : Uop) : option Z := Some (Uop.pc u + 1).

(** A connected port that accepts every request, and one that accepts none. *)
Definition port (accepting : bool) : Env Z :=
  mkEnv _ true (λ _, true) (λ _, true) (λ _, accepting) (λ _, Undecoded).

Definition start : @Helper.Op :=
  OBegin 1 100 2 16 64 (Recorder.mkResources 0 0 0 0) true (Some 0%nat) 0.

(** The helper starts, fetches two uops of which only the first has its request accepted, and the
    response arrives. *)
Definition sample_events : list (@Event Z) :=
  [EHelper start; ETick (port true) 1 1 0 10; ETick (port false) 1 1 0 20; EResponse 0 None 30].

Definition sample_run : option (Front unit Z) := run sample_program sample_captured sample_events.

Lemma sample_captured_saved u : is_Some (sample_captured u).
Proof. by eexists. Qed.

Lemma sample_run_facts :
  ∃ f, sample_run = Some f ∧ elements (pending f) = [104] ∧ window (thread f) = [100; 104]
       ∧ k_pc <$> packets f = [104].
Proof. eexists. vm_compute. done. Qed.

Lemma instruction_fetches_ok_witness :
  ∃ f, sample_run = Some f ∧ k_pc <$> packets f = [104] ∧ NoDup (k_pc <$> packets f).
Proof.
  destruct sample_run_facts as (f & H & _ & _ & H2). exists f.
  exact (conj H (conj H2 (proj1 (instruction_fetches_ok _ _ sample_captured_saved sample_events f H)))).
Defined.

(** A lane asks for the addition while its packet waits for a retry. *)
Definition attempt (m : option (Front unit Z)) : option (Front unit Z * Fetched * Front unit Z) :=
  f ← m; let '(f1, r) := fetchDecodeDVRUop (port true) 0 104 (Some 5) f in Some (f1, r, f).

Lemma attempt_inv m f f1 r :
  attempt m = Some (f1, r, f) → m = Some f ∧ fetchDecodeDVRUop (port true) 0 104 (Some 5) f = (f1, r).
Proof.
  unfold attempt. destruct m as [g|]; [|done]. cbn [mbind option_bind].
  destruct (fetchDecodeDVRUop (port true) 0 104 (Some 5) g) as [g1 r1] eqn:E.
  by intros [= <- <- <-].
Qed.

Lemma sample_attempt_facts :
  ∃ f1 r f, attempt sample_run = Some (f1, r, f) ∧ inst r = None ∧ length (packets f1) = 1%nat
            ∧ bool_decide (104 ∈ pending f1) = true.
Proof. eexists _, _, _. vm_compute. done. Qed.

Lemma sample_waits :
  ∃ f f1 r, sample_run = Some f ∧ fetchDecodeDVRUop (port true) 0 104 (Some 5) f = (f1, r)
            ∧ inst r = None ∧ length (packets f1) = 1%nat ∧ 104 ∈ pending f1.
Proof.
  destruct sample_attempt_facts as (f1 & r & f & H & H1 & H2 & H3). exists f, f1, r.
  apply attempt_inv in H as [H H']. by apply bool_decide_eq_true in H3.
Qed.

Lemma waiting_resolves_witness :
  ∃ f1 : Front unit Z, let f2 := answer_all [None] 50 (retryDVRInstructionFetch true f1) in
        packets f1 ≠ [] ∧ is_Some (inst (fetchDecodeDVRUop (port true) 0 104 (Some 5) f2).2).
Proof.
  destruct sample_waits as (f & f1 & r & H & Hf & Hw & Hl & Hp). exists f1.
  destruct (waiting_resolves sample_program sample_captured sample_captured_saved sample_events f f1
              (port true) 0 104 50 5 r [None] H Hf Hw (eq_sym Hl)) as (H1 & _ & _ & H2 & _).
  refine (conj H1 (H2 Hp _)).
Defined.

(** The third uop is the trigger again. *)
Definition after_tick (f : Front unit Z) : Front unit Z :=
  (tickFrontend sample_program sample_captured (port true) 1 1 0 40 f).1.

Lemma sample_front :
  ∃ f, sample_run = Some f ∧ frontendReplay (thread f) = Some 0%nat
       ∧ frontendUopIndex (thread f) = 2%nat ∧ fetchRemaining (thread f) = 30%nat.
Proof. eexists. vm_compute. done. Qed.

Lemma sample_after_tick : (λ f, fetchRemaining (thread (after_tick f))) <$> sample_run = Some 29%nat.
Proof. vm_compute. done. Qed.

Lemma frontend_window_order_witness :
  ∃ f, sample_run = Some f
       ∧ window (thread (tickFrontend sample_program sample_captured (port true) 1 1 0 40 f).1)
         = window (thread f) ++ [100].
Proof.
  destruct sample_front as (f & H & Hr & Hi & H1). exists f. split; [exact H|].
  pose proof sample_after_tick as H2. rewrite H in H2. apply (inj Some) in H2.
  assert (Hle : (frontendUopIndex (thread f) ≤ length (sample_program 0))%nat) by (rewrite Hi; simpl; lia).
  pose proof (frontend_window_order sample_program sample_captured (port true) 1 1 0 0 40 f
                (ok_helper _ (front_run_ok _ _ sample_captured_saved sample_events f H)) Hr
                ltac:(discriminate) Hle) as [H3 _].
  unfold after_tick in H2. rewrite H1, H2, Hi in H3. exact H3.
Defined.

(** ** The trigger fills the window

    The lanes of a replay start at the second uop of their program, so
    [retireFrontend] is never called for the trigger, which the frontend fetches once per unit.
    After eight units its entries fill the window and the frontend stops, here with 17 of the 32
    uops of the generation unfetched although the addition of every unit is retired at once. *)

(** A cycle in which the trigger or the addition is fetched and every decoded addition issues. *)
Definition cycle (now : Z) (f : Front unit Z) : Front unit Z :=
  let f := (tickFrontend sample_program sample_captured (port true) 2 2 0 now f).1 in
  let f := answer_all (replicate (length (flying f)) None) now f in
  f <| thread ::= λ h, Nat.iter 8 (retireFrontend 104) h |>.

Definition cycles (n : nat) : Front unit Z :=
  foldl (λ f now, cycle now f) (default front_init (helper_call start front_init)) (Z.of_nat <$> seq 1 n).

Lemma trigger_fills_window :
  window (thread (cycles 8)) = replicate 8 100
  ∧ fetchRemaining (thread (cycles 8)) = 17%nat
  ∧ fetchRemaining (thread (cycles 50)) = 17%nat.
Proof. vm_compute. done. Qed.
End HelperFetch.
