(* ===== verification/RegAlloc.v ===== *)
(** * Physical registers: identifiers, free lists and rename maps

    Model of [PhysRegId] (src/cpu/reg_class.hh), [PhysRegFile]'s identifiers (regfile.cc),
    [SimpleFreeList], [UnifiedFreeList] (free_list.hh), [SimpleRenameMap] and
    [UnifiedRenameMap] (rename_map.hh, rename_map.cc) of one thread, and [Scoreboard]
    (scoreboard.hh).  A [PhysRegIdPtr] is the class and index of the object it points to; the
    mutable members of the objects are a store of their own, so that two pointers to one
    register see the same members.  An assertion that fails, or an access outside an array, is
    [None]. *)

From S2P Require Import Prelude Inst.

Module RegAlloc.

(** ** [PhysRegId] *)

(** The members of a [PhysRegId] that change. *)
Record PhysInfo := mkPhysInfo {
  flatIdx : nat;  numPinnedWrites : Z;  numPinnedWritesToComplete : Z;  pinned : bool;
  srcAddr : Z;  usableForPRE : bool;  numRef : Z;  overwritten : bool
}.

#[export] Instance eta_PhysInfo : Eta PhysInfo := λ r,
  mkPhysInfo (flatIdx r) (numPinnedWrites r) (numPinnedWritesToComplete r) (pinned r)
    (srcAddr r) (usableForPRE r) (numRef r) (overwritten r).

(** The static [invalidPhysRegId], whose storage is zero-initialised. *)
Definition PhysInfo_init : PhysInfo := mkPhysInfo (2 ^ 16 - 1) 0 0 false 0 false 0 false.

(** [PhysRegId(cls, idx, flat)]: the members named last keep what the storage held. *)
Definition PhysRegId (garbage : PhysInfo) (flat : nat) : PhysInfo :=
  garbage <| flatIdx := flat |> <| numPinnedWrites := 0 |>
    <| numPinnedWritesToComplete := 0 |> <| pinned := false |>.

(** [setNumPinnedWrites] *)
Definition setNumPinnedWrites (n : Z) (i : PhysInfo) : PhysInfo :=
  i <| pinned := negb (n =? 0) |> <| numPinnedWrites := n |>.

(** ** The registers of a core *)

(** [freeLists] and [renameMaps] are arrays indexed by the renameable classes. *)
Record Regs := mkRegs {
  physInfo : gmap RegId PhysInfo;  freeLists : list (list RegId);
  renameMaps : list (list RegId)
}.

#[export] Instance eta_Regs : Eta Regs := λ r,
  mkRegs (physInfo r) (freeLists r) (renameMaps r).

(** The members behind a pointer. *)
Definition info (s : Regs) (r : RegId) : PhysInfo := default PhysInfo_init (physInfo s !! r).

Definition upd (r : RegId) (f : PhysInfo → PhysInfo) (s : Regs) : Regs :=
  s <| physInfo ::= λ m, <[r := f (info s r)]> m |>.

(** [RegClassType(0)] to [CCRegClass] *)
Definition renameable_classes : list RegClassType :=
  [IntRegClass; FloatRegClass; VecRegClass; VecElemClass; VecPredRegClass; CCRegClass].

(** *** Construction *)

(** The number of vector-element registers follows from the vector registers. *)
Definition num_vec_elems (vec_regs arch_elems arch_vecs : nat) : nat :=
  vec_regs * (arch_elems / arch_vecs).

Definition class_regs (sizes : RegClassType → nat) (c : RegClassType) : list RegId :=
  mkRegId c <$> seq 0 (sizes c).

(** The registers in the order of the constructor's batches; the position in that order is
    the flat index. *)
Definition all_regs (sizes : RegClassType → nat) : list RegId :=
  renameable_classes ≫= class_regs sizes.

(** [PhysRegFile::PhysRegFile] *)
Definition PhysRegFile (garbage : RegId → PhysInfo) (sizes : RegClassType → nat)
  : gmap RegId PhysInfo :=
  list_to_map (imap (λ k r, (r, PhysRegId (garbage r) k)) (all_regs sizes)
               ++ ((λ r, (r, PhysRegId (garbage r) 0)) <$> class_regs sizes MiscRegClass)).

(** *** Free lists *)

(** [SimpleFreeList::getReg] of the list of class [c] *)
Definition getReg (c : RegClassType) (s : Regs) : option (RegId * Regs) :=
  match freeLists s !! class_index c with
  | Some (r :: l) => Some (r, s <| freeLists ::= <[class_index c := l]> |>)
  | _ => None
  end.

(** [UnifiedFreeList::addReg] *)
Definition addReg (r : RegId) (s : Regs) : option Regs :=
  match freeLists s !! class_index (classValue r) with
  | Some l => Some (s <| freeLists ::= <[class_index (classValue r) := l ++ [r]]> |>)
  | None => None
  end.

(** [UnifiedFreeList::addRegs] *)
Fixpoint addRegs (rs : list RegId) (s : Regs) : option Regs :=
  match rs with
  | [] => Some s
  | r :: rs => s ← addReg r s; addRegs rs s
  end.

Definition numFreeRegs (c : RegClassType) (s : Regs) : nat :=
  length (freeLists s !!! class_index c).

(** [PhysRegFile::initFreeList] *)
Definition initFreeList (sizes : RegClassType → nat) (s : Regs) : option Regs :=
  addRegs (all_regs sizes) s.

(** *** Rename maps *)

(** [map[arch_reg.index()]] of the map of the register's class *)
Definition map_at (arch : RegId) (s : Regs) : option RegId :=
  renameMaps s !! class_index (classValue arch) ≫= λ m, m !! index arch.

Definition map_put (arch phys : RegId) (s : Regs) : Regs :=
  s <| renameMaps ::= alter (λ m, <[index arch := phys]> m) (class_index (classValue arch)) |>.

(** [SimpleRenameMap::rename]; [pins] is the number of pinned writes of [arch]. *)
Definition rename_simple (arch : RegId) (pins : Z) (s : Regs) : option (RegId * RegId * Regs) :=
  prev ← map_at arch s;
  if 0 <? numPinnedWrites (info s prev) then
    if pins =? 0
    then Some (prev, prev, upd prev (λ i, i <| numPinnedWrites ::= λ n, n - 1 |>) s)
    else None
  else
    '(new, s) ← getReg (classValue arch) s;
    let s := map_put arch new s in
    let s := upd new (setNumPinnedWrites pins) s in
    let s := upd new (λ i, i <| numPinnedWritesToComplete := pins + 1 |>) s in
    Some (new, prev, s).

(** [UnifiedRenameMap::lookup] *)
Definition lookup (arch : RegId) (s : Regs) : option RegId :=
  if bool_decide (classValue arch = InvalidRegClass) then Some RegId_default
  else if bool_decide (classValue arch = MiscRegClass)
       then Some (mkRegId MiscRegClass (index arch))
       else map_at arch s.

(** [UnifiedRenameMap::rename] *)
Definition rename (arch : RegId) (pins : Z) (s : Regs) : option (RegId * RegId * Regs) :=
  if negb (isRenameable arch) then r ← lookup arch s; Some (r, r, s)
  else rename_simple arch pins s.

(** [UnifiedRenameMap::setEntry] *)
Definition setEntry (arch phys : RegId) (s : Regs) : option Regs :=
  if negb (bool_decide (classValue phys = classValue arch)) then None
  else if negb (isRenameable arch) then
    r ← lookup arch s; if bool_decide (r = phys) then Some s else None
  else _ ← map_at arch s; Some (map_put arch phys s).

(** [UnifiedRenameMap::numFreeEntries]: the least over the classes with registers *)
Definition numFreeEntries (s : Regs) : Z :=
  foldl (λ m c, if (length (renameMaps s !!! class_index c) =? 0)%nat then m
                else Z.min m (Z.of_nat (numFreeRegs c s)))
    (2 ^ 32 - 1) renameable_classes.

(** [UnifiedRenameMap::canRename]; [dests c] is the instruction's [numDestRegs(c)]. *)
Definition canRename (dests : RegClassType → nat) (s : Regs) : bool :=
  forallb (λ c, dests c <=? numFreeRegs c s)%nat renameable_classes.

(** The loops of [CPU::CPU] that map every architectural register of the thread. *)
Fixpoint init_class (c : RegClassType) (idxs : list nat) (s : Regs) : option Regs :=
  match idxs with
  | [] => Some s
  | k :: idxs =>
      '(r, s) ← getReg c s;
      s ← setEntry (mkRegId c k) r s;
      init_class c idxs s
  end.

Fixpoint init_maps (arch : RegClassType → nat) (cs : list RegClassType) (s : Regs)
  : option Regs :=
  match cs with
  | [] => Some s
  | c :: cs => s ← init_class c (seq 0 (arch c)) s; init_maps arch cs s
  end.

(** The maps after [init], with their null pointers, and empty free lists. *)
Definition blank (garbage : RegId → PhysInfo) (sizes arch : RegClassType → nat) : Regs :=
  mkRegs (PhysRegFile garbage sizes) (replicate 6 [])
    ((λ c, replicate (arch c) RegId_default) <$> renameable_classes).

Definition create (garbage : RegId → PhysInfo) (sizes arch : RegClassType → nat)
  : option Regs :=
  s ← initFreeList sizes (blank garbage sizes arch);
  init_maps arch renameable_classes s.

(** ** [Scoreboard] *)

Definition sb_create (n : nat) : list bool := replicate n true.

Definition sb_getReg (s : Regs) (b : list bool) (r : RegId) : option bool :=
  if negb (isRenameable r) then Some true else b !! flatIdx (info s r).

Definition sb_write (v : bool) (s : Regs) (b : list bool) (r : RegId) : option (list bool) :=
  if negb (isRenameable r) then Some b
  else if (flatIdx (info s r) <? length b)%nat then Some (<[flatIdx (info s r) := v]> b)
       else None.

Definition sb_setReg : Regs → list bool → RegId → option (list bool) := sb_write true.
Definition sb_unsetReg : Regs → list bool → RegId → option (list bool) := sb_write false.

(** ** Contents and well-formedness *)

Definition free (s : Regs) : list RegId := concat (freeLists s).
Definition mapped (s : Regs) : list RegId := concat (renameMaps s).

(** Rename maps as such, for the log of replaced mappings. *)
Definition maps_at (ms : list (list RegId)) (arch : RegId) : option RegId :=
  ms !! class_index (classValue arch) ≫= λ m, m !! index arch.

Definition maps_put (ms : list (list RegId)) (arch phys : RegId) : list (list RegId) :=
  alter (λ m, <[index arch := phys]> m) (class_index (classValue arch)) ms.

(** Every list of an array indexed by class only holds registers of its class. *)
Definition classed (ls : list (list RegId)) : Prop :=
  length ls = 6%nat ∧
  ∀ k l r, ls !! k = Some l → r ∈ l → class_index (classValue r) = k.

(** The flat indexes number the registers of the file, and the scoreboard has a bit for each. *)
Definition flat_ok (sizes : RegClassType → nat) (b : list bool) (s : Regs) : Prop :=
  length b = length (all_regs sizes) ∧
  ∀ k r, all_regs sizes !! k = Some r → flatIdx (info s r) = k.

Definition unpinned (s : Regs) : Prop := ∀ r, numPinnedWrites (info s r) = 0.

(** The maps hold exactly the architectural registers. *)
Definition shaped (arch : RegClassType → nat) (ms : list (list RegId)) : Prop :=
  ∀ a, isRenameable a = true → is_Some (maps_at ms a) ↔ (index a < arch (classValue a))%nat.

(** [s'] is [s] with [arch] renamed to a register [new] taken from the free list. *)
Record remapped (s : Regs) (arch new prev : RegId) (s' : Regs) : Prop := {
  rm_maps : renameMaps s' = maps_put (renameMaps s) arch new;
  rm_prev : maps_at (renameMaps s) arch = Some prev;
  rm_class : classValue new = classValue arch;
  rm_free : ∀ x, occ x (free s) = (one x new + occ x (free s'))%nat;
  rm_classed : classed (freeLists s');
  rm_count : ∀ c, numFreeRegs c s =
               (numFreeRegs c s' + if decide (c = classValue arch) then 1 else 0)%nat
}.

(** [s'] differs from [s] only in the source addresses and the reference counts. *)
Record quiet (s s' : Regs) : Prop := {
  q_free : freeLists s' = freeLists s;
  q_maps : renameMaps s' = renameMaps s;
  q_flat : ∀ x, flatIdx (info s' x) = flatIdx (info s x);
  q_pins : ∀ x, numPinnedWrites (info s' x) = numPinnedWrites (info s x);
  q_usable : ∀ x, usableForPRE (info s' x) = usableForPRE (info s x)
}.

(** ** Lemmas *)

Lemma alter_as_insert {A} (f : A → A) i x (l : list A) :
  l !! i = Some x → alter f i l = <[i := f x]> l.
Proof. revert i. induction l as [|y l IH]; intros [|i] H; simplify_eq/=; [done|]. f_equal. auto. Qed.

Lemma occ_mapped_put x s arch prev new :
  map_at arch s = Some prev →
  (occ x (mapped (map_put arch new s)) + one x prev = occ x (mapped s) + one x new)%nat.
Proof.
  unfold map_at, mapped, map_put. intros H.
  destruct (renameMaps s !! class_index (classValue arch)) as [m|] eqn:E; [|done].
  cbn in H |- *. rewrite (alter_as_insert _ _ m) by done.
  pose proof (occ_concat_insert x _ _ m (<[index arch := new]> m) E).
  pose proof (occ_insert x m (index arch) prev new H). lia.
Qed.

Lemma maps_at_put ms arch phys a :
  maps_at (maps_put ms arch phys) a =
    if decide (a = arch) then (λ _, phys) <$> maps_at ms arch else maps_at ms a.
Proof.
  unfold maps_at, maps_put.
  destruct (decide (class_index (classValue a) = class_index (classValue arch))) as [Hc|Hc].
  - rewrite Hc, list_lookup_alter_eq. apply class_index_inj in Hc.
    destruct (ms !! class_index (classValue arch)) as [m|] eqn:E; cbn;
      [|by destruct (decide (a = arch))].
    destruct (decide (index a = index arch)) as [Hi|Hi].
    + assert (a = arch) as -> by (destruct a, arch; simpl in *; congruence).
      rewrite decide_True by done. destruct (m !! index arch) eqn:Em; cbn.
      * apply list_lookup_insert_eq. by apply lookup_lt_Some in Em.
      * apply lookup_ge_None. rewrite length_insert. by apply lookup_ge_None.
    + rewrite list_lookup_insert_ne by congruence.
      rewrite decide_False; [done|]. intros ->. done.
  - rewrite list_lookup_alter_ne by congruence. rewrite decide_False; [done|].
    intros ->. done.
Qed.

Lemma map_at_maps arch s : map_at arch s = maps_at (renameMaps s) arch.
Proof. done. Qed.

Lemma map_put_maps arch phys s : renameMaps (map_put arch phys s) = maps_put (renameMaps s) arch phys.
Proof. done. Qed.

(** Writing a mapping and then the one it replaced restores the maps. *)
Lemma maps_put_undo ms arch prev new :
  maps_at ms arch = Some prev → maps_put (maps_put ms arch new) arch prev = ms.
Proof.
  unfold maps_at, maps_put. intros H.
  destruct (ms !! class_index (classValue arch)) as [m|] eqn:E; [|done]. cbn in H.
  rewrite (alter_as_insert _ _ m ms) by done.
  rewrite (alter_as_insert _ _ (<[index arch := new]> m)).
  - rewrite !list_insert_insert_eq, (list_insert_id m) by done. by apply list_insert_id.
  - apply list_lookup_insert_eq. by apply lookup_lt_Some in E.
Qed.

Lemma classed_insert ls k l r :
  classed ls → (∀ r', r' ∈ l → class_index (classValue r') = k) → r = <[k := l]> ls →
  classed r.
Proof.
  intros [Hl Hc] H ->. split; [by rewrite length_insert|]. intros j m r' Hj Hr.
  apply list_lookup_insert_Some in Hj as [(<- & <- & _)|[_ Hj]]; [by apply H|by eapply Hc].
Qed.

Lemma classed_put ms arch phys :
  classed ms → classValue phys = classValue arch → classed (maps_put ms arch phys).
Proof.
  intros Hms Hp. unfold maps_put.
  destruct (ms !! class_index (classValue arch)) as [m|] eqn:E.
  - rewrite (alter_as_insert _ _ m) by done.
    eapply classed_insert; [done| |done]. intros r Hr.
    apply list_elem_of_lookup in Hr as [j Hj].
    apply list_lookup_insert_Some in Hj as [(_ & <- & _)|[_ Hj]]; [by rewrite Hp|].
    apply list_elem_of_lookup_2 in Hj. by eapply (proj2 Hms).
  - assert (alter (λ m, <[index arch := phys]> m) (class_index (classValue arch)) ms = ms)
      as ->; [|done].
    apply list_eq. intros j. destruct (decide (j = class_index (classValue arch))) as [->|].
    + by rewrite list_lookup_alter_eq, E.
    + by rewrite list_lookup_alter_ne by congruence.
Qed.

Lemma classed_at ms arch phys :
  classed ms → maps_at ms arch = Some phys → classValue phys = classValue arch.
Proof.
  intros [_ H] Ha. unfold maps_at in Ha.
  destruct (ms !! class_index (classValue arch)) as [m|] eqn:E; [|done]. cbn in Ha.
  apply class_index_inj. eapply H; [done|]. by apply list_elem_of_lookup_2 in Ha.
Qed.

Lemma maps_at_mapped s arch phys : map_at arch s = Some phys → phys ∈ mapped s.
Proof.
  unfold map_at, mapped. intros H.
  destruct (renameMaps s !! class_index (classValue arch)) as [m|] eqn:E; [|done].
  cbn in H. apply list_elem_of_lookup_2 in H, E. apply list_elem_of_In, in_concat.
  exists m. by rewrite <- !list_elem_of_In.
Qed.

Lemma info_upd s r f x : info (upd r f s) x = if decide (x = r) then f (info s r) else info s x.
Proof.
  unfold info at 1, upd. cbn. destruct (decide (x = r)) as [->|].
  - by rewrite lookup_insert_eq.
  - by rewrite lookup_insert_ne.
Qed.

Lemma upd_upd s r f g : upd r g (upd r f s) = upd r (λ i, g (f i)) s.
Proof.
  unfold upd at 1. rewrite info_upd, decide_True by done. unfold upd. cbn.
  by rewrite insert_insert_eq.
Qed.

Lemma isRenameable_index r : isRenameable r = true ↔ (class_index (classValue r) < 6)%nat.
Proof. unfold isRenameable. destruct (classValue r); cbn; split; intros; done || lia. Qed.

(** *** Free lists *)

Lemma getReg_Some c s r s' :
  getReg c s = Some (r, s') →
  ∃ l, freeLists s !! class_index c = Some (r :: l) ∧
       s' = s <| freeLists ::= <[class_index c := l]> |>.
Proof. unfold getReg. repeat case_match; intros; simplify_eq. eauto. Qed.

Lemma getReg_occ c s r s' x :
  getReg c s = Some (r, s') → occ x (free s) = (one x r + occ x (free s'))%nat.
Proof.
  intros (l & E & ->)%getReg_Some. unfold free. cbn.
  pose proof (occ_concat_insert x _ _ _ l E) as H. rewrite occ_cons in H. lia.
Qed.

Lemma getReg_class c s r s' :
  classed (freeLists s) → getReg c s = Some (r, s') →
  classValue r = c ∧ classed (freeLists s').
Proof.
  intros Hc (l & E & ->)%getReg_Some. split.
  - apply class_index_inj. eapply (proj2 Hc); [done|]. by left.
  - eapply classed_insert; [done| |done]. intros r' Hr. eapply (proj2 Hc); [done|]. by right.
Qed.

Lemma addReg_Some r s s' :
  addReg r s = Some s' →
  ∃ l, freeLists s !! class_index (classValue r) = Some l ∧
       s' = s <| freeLists ::= <[class_index (classValue r) := l ++ [r]]> |>.
Proof. unfold addReg. case_match; intros; simplify_eq. eauto. Qed.

Lemma addReg_total r s :
  classed (freeLists s) → isRenameable r = true → is_Some (addReg r s).
Proof.
  intros [Hl _] Hr%isRenameable_index. unfold addReg.
  destruct (lookup_lt_is_Some_2 (freeLists s) (class_index (classValue r))) as [l ->]; [lia|].
  eauto.
Qed.

Lemma addReg_occ r s s' x :
  addReg r s = Some s' → occ x (free s') = (occ x (free s) + one x r)%nat.
Proof.
  intros (l & E & ->)%addReg_Some. unfold free. cbn.
  pose proof (occ_concat_insert x _ _ _ (l ++ [r]) E) as H.
  rewrite occ_app, occ_cons, occ_nil in H. lia.
Qed.

Lemma addReg_class r s s' :
  classed (freeLists s) → addReg r s = Some s' → classed (freeLists s').
Proof.
  intros Hc (l & E & ->)%addReg_Some. eapply classed_insert; [done| |done].
  intros r' [Hr| ->%list_elem_of_singleton]%elem_of_app; [by eapply (proj2 Hc)|done].
Qed.

(** *** Updates of members *)

#[export] Instance quiet_preorder : PreOrder quiet.
Proof.
  split; [by intros s|]. intros s1 s2 s3 H12 H23.
  by split; intros; [rewrite (q_free _ _ H23), (q_free _ _ H12)
    | rewrite (q_maps _ _ H23), (q_maps _ _ H12) | rewrite (q_flat _ _ H23), (q_flat _ _ H12)
    | rewrite (q_pins _ _ H23), (q_pins _ _ H12)
    | rewrite (q_usable _ _ H23), (q_usable _ _ H12)].
Qed.

Lemma upd_quiet r f s :
  flatIdx (f (info s r)) = flatIdx (info s r) →
  numPinnedWrites (f (info s r)) = numPinnedWrites (info s r) →
  usableForPRE (f (info s r)) = usableForPRE (info s r) → quiet s (upd r f s).
Proof.
  intros Hf Hp Hu. split; [done|done|..]; intros x; rewrite info_upd;
    by destruct (decide (x = r)) as [->|].
Qed.

(** *** Renaming *)

Lemma numFreeRegs_take c r l s c' :
  freeLists s !! class_index c = Some (r :: l) →
  numFreeRegs c' s =
    (numFreeRegs c' (s <| freeLists ::= <[class_index c := l]> |>)
     + if decide (c' = c) then 1 else 0)%nat.
Proof.
  intros E. unfold numFreeRegs. cbn. rewrite !list_lookup_total_alt.
  destruct (decide (c' = c)) as [->|Hne].
  - rewrite E, list_lookup_insert_eq by (by apply lookup_lt_Some in E). cbn. lia.
  - rewrite list_lookup_insert_ne; [lia|]. intros Heq%class_index_inj. done.
Qed.

Lemma rename_fresh arch prev s :
  classed (freeLists s) → unpinned s → isRenameable arch = true →
  maps_at (renameMaps s) arch = Some prev → (0 < numFreeRegs (classValue arch) s)%nat →
  ∃ new s', rename arch 0 s = Some (new, prev, s') ∧ remapped s arch new prev s' ∧
    ∀ x, info s' x = if decide (x = new)
                     then (info s new) <| pinned := false |> <| numPinnedWrites := 0 |>
                            <| numPinnedWritesToComplete := 1 |>
                     else info s x.
Proof.
  intros Hc Hu Hr Hp Hn. unfold rename. rewrite Hr. cbn. unfold rename_simple.
  rewrite map_at_maps, Hp. cbn. rewrite Hu. cbn. unfold getReg.
  unfold numFreeRegs in Hn. rewrite list_lookup_total_alt in Hn.
  destruct (freeLists s !! class_index (classValue arch)) as [[|new l]|] eqn:E;
    [cbn in Hn; lia| |cbn in Hn; lia]. cbn.
  assert (Hg : getReg (classValue arch) s =
    Some (new, s <| freeLists ::= <[class_index (classValue arch) := l]> |>))
    by (unfold getReg; by rewrite E).
  eexists new, _. split; [done|]. split; [split|].
  - done.
  - done.
  - by apply (getReg_class _ _ _ _ Hc Hg).
  - intros x. by rewrite (getReg_occ _ _ _ _ x Hg).
  - by apply (getReg_class _ _ _ _ Hc Hg).
  - intros c. exact (numFreeRegs_take _ _ _ _ c E).
  - intros x. rewrite !info_upd. rewrite (decide_True (P := new = new)) by done.
    by destruct (decide (x = new)) as [->|].
Qed.

Lemma rename_fixed arch s :
  isRenameable arch = false → ∃ r, rename arch 0 s = Some (r, r, s) ∧ isRenameable r = false.
Proof.
  intros Hr. unfold rename. rewrite Hr. cbn. unfold lookup.
  unfold isRenameable in Hr. destruct (classValue arch) eqn:E; cbn in Hr |- *; try done; eauto.
Qed.

Lemma shaped_put arch ms a phys : shaped arch ms → shaped arch (maps_put ms a phys).
Proof.
  intros H b Hb. rewrite maps_at_put. destruct (decide (b = a)) as [->|]; [|by apply H].
  rewrite fmap_is_Some. by apply H.
Qed.

Lemma all_regs_renameable sizes r : r ∈ all_regs sizes → isRenameable r = true.
Proof.
  unfold all_regs. intros (c & Hr & Hc)%list_elem_of_bind.
  apply list_elem_of_fmap in Hr as (n & -> & _).
  rewrite isRenameable_index. cbn.
  repeat (apply elem_of_cons in Hc as [->|Hc]; [cbn; lia|]). by apply elem_of_nil in Hc.
Qed.

Lemma all_regs_NoDup sizes : NoDup (all_regs sizes).
Proof.
  apply NoDup_bind.
  - intros c1 c2 r _ _ H1 H2. apply list_elem_of_fmap in H1 as (? & -> & _), H2 as (? & H2 & _).
    by simplify_eq.
  - intros c _. apply NoDup_fmap_2; [by intros ?? [=]|apply NoDup_seq].
  - by apply (bool_decide_unpack _); vm_compute.
Qed.

(** *** Construction *)

Lemma imap_lookup_map `{Countable K} {A} (f : nat → K → A) (l : list K) (m : gmap K A) k x :
  NoDup l → l !! k = Some x →
  (list_to_map (imap (λ k x, (x, f k x)) l) ∪ m : gmap K A) !! x = Some (f k x).
Proof.
  intros Hl Hk. apply lookup_union_Some_l. apply elem_of_list_to_map_1.
  - replace ((imap (λ k x, (x, f k x)) l).*1) with l; [done|].
    rewrite fmap_imap. symmetry. apply list_eq. intros i. rewrite list_lookup_imap.
    by destruct (l !! i).
  - apply list_elem_of_lookup. exists k. by rewrite list_lookup_imap, Hk.
Qed.

(** What the constructor stores of a register of the file: its position is its flat index. *)
Lemma PhysRegFile_info garbage sizes s k r :
  physInfo s = PhysRegFile garbage sizes → all_regs sizes !! k = Some r →
  info s r = PhysRegId (garbage r) k.
Proof.
  intros Hs Hk. unfold info. rewrite Hs.
  unfold PhysRegFile. rewrite list_to_map_app.
  rewrite (imap_lookup_map (λ k r, PhysRegId (garbage r) k) _ _ k r); [|apply all_regs_NoDup|done].
  done.
Qed.

(** The index of a register in the scoreboard. *)
Lemma flat_lt sizes b s r :
  flat_ok sizes b s → r ∈ all_regs sizes → (flatIdx (info s r) < length b)%nat.
Proof.
  intros [Hl Hf] [k Hk]%list_elem_of_lookup. rewrite (Hf _ _ Hk), Hl. by apply lookup_lt_Some in Hk.
Qed.

Lemma flat_inj sizes b s r r' :
  flat_ok sizes b s → r ∈ all_regs sizes → r' ∈ all_regs sizes →
  flatIdx (info s r) = flatIdx (info s r') → r = r'.
Proof.
  intros [_ Hf] [k Hk]%list_elem_of_lookup [k' Hk']%list_elem_of_lookup.
  rewrite (Hf _ _ Hk), (Hf _ _ Hk'). intros ->. by simplify_eq.
Qed.

Lemma PhysRegFile_unpinned garbage sizes s :
  physInfo s = PhysRegFile garbage sizes → unpinned s.
Proof.
  intros Hs r. unfold info. rewrite Hs. destruct (PhysRegFile garbage sizes !! r) as [i|] eqn:E;
    [|done]. unfold PhysRegFile in E. apply elem_of_list_to_map_2 in E.
  apply elem_of_app in E as [E|E].
  - apply list_elem_of_lookup in E as [k Hk]. rewrite list_lookup_imap in Hk.
    destruct (all_regs sizes !! k); by simplify_eq/=.
  - apply list_elem_of_fmap in E as (x & [= -> ->] & _). done.
Qed.

(** A register without a renameable class holds what its storage held. *)
Lemma PhysRegFile_fixed garbage sizes :
  (∀ x, classValue x = MiscRegClass → usableForPRE (garbage x) = false) →
  ∀ x, isRenameable x = false →
    usableForPRE (default PhysInfo_init (PhysRegFile garbage sizes !! x)) = false.
Proof.
  intros Hg x Hx. destruct (PhysRegFile garbage sizes !! x) as [i|] eqn:E; [|done].
  unfold PhysRegFile in E. apply elem_of_list_to_map_2, elem_of_app in E as [E|E].
  - apply list_elem_of_lookup in E as [k Hk]. rewrite list_lookup_imap in Hk.
    destruct (all_regs sizes !! k) eqn:Hr; simplify_eq/=.
    apply list_elem_of_lookup_2, all_regs_renameable in Hr. congruence.
  - apply list_elem_of_fmap in E as (y & [= -> ->] & Hy). apply Hg.
    unfold class_regs in Hy. by apply list_elem_of_fmap in Hy as (? & -> & _).
Qed.

Lemma addRegs_class c rs l s :
  freeLists s !! class_index c = Some l → Forall (λ r, classValue r = c) rs →
  addRegs rs s = Some (s <| freeLists ::= <[class_index c := l ++ rs]> |>).
Proof.
  revert l s. induction rs as [|r rs IH]; intros l s Hl Hr; cbn.
  - f_equal. rewrite app_nil_r, list_insert_id by done. by destruct s.
  - apply Forall_cons in Hr as [Hr Hrs]. unfold addReg. rewrite Hr, Hl. cbn.
    rewrite (IH (l ++ [r])); [|by apply list_lookup_insert_eq; apply lookup_lt_Some in Hl|done].
    cbn. by rewrite list_insert_insert_eq, <- app_assoc.
Qed.

Lemma class_regs_class sizes c : Forall (λ r, classValue r = c) (class_regs sizes c).
Proof. apply Forall_forall. by intros r (n & -> & _)%list_elem_of_fmap. Qed.

Lemma addRegs_app rs rs' s : addRegs (rs ++ rs') s = addRegs rs s ≫= addRegs rs'.
Proof.
  revert s. induction rs as [|r rs IH]; intros s; cbn; [done|].
  destruct (addReg r s); cbn; [apply IH|done].
Qed.

Ltac add_class c Hs :=
  rewrite ?addRegs_app;
  rewrite (addRegs_class c _ []) by (cbn; by rewrite ?Hs || apply class_regs_class);
  cbn [mbind option_bind].

Lemma initFreeList_spec sizes s :
  freeLists s = replicate 6 [] →
  initFreeList sizes s = Some (s <| freeLists := class_regs sizes <$> renameable_classes |>).
Proof.
  intros Hs. unfold initFreeList, all_regs, renameable_classes. cbn [mbind list_bind].
  rewrite app_nil_r. add_class IntRegClass Hs. add_class FloatRegClass Hs. add_class VecRegClass Hs.
  add_class VecElemClass Hs. add_class VecPredRegClass Hs. add_class CCRegClass Hs. cbn. by rewrite Hs.
Qed.

(** Mapping the registers [j], ... of a class moves the head of its free list to its map. *)
Lemma init_class_spec c j (regs l : list RegId) m s :
  isRenameable (mkRegId c 0) = true → Forall (λ r, classValue r = c) regs →
  freeLists s !! class_index c = Some (regs ++ l) →
  renameMaps s !! class_index c = Some m → (j + length regs = length m)%nat →
  init_class c (seq j (length regs)) s =
    Some (s <| freeLists ::= <[class_index c := l]> |>
            <| renameMaps ::= <[class_index c := take j m ++ regs]> |>).
Proof.
  intros Hc. revert j m s. induction regs as [|r regs IH]; intros j m s Hr Hf Hm Hl; cbn.
  - cbn in Hl. rewrite app_nil_r, take_ge, !list_insert_id by (done || lia). by destruct s.
  - apply Forall_cons in Hr as [Hr Hrs]. unfold getReg. rewrite Hf. cbn. unfold setEntry. cbn.
    rewrite Hr, bool_decide_eq_true_2 by done. cbn.
    assert (isRenameable (mkRegId c j) = true) as -> by done. cbn. unfold map_at. cbn.
    rewrite Hm. cbn. destruct (lookup_lt_is_Some_2 m j) as [x Hx]; [cbn in Hl; lia|].
    rewrite Hx. cbn. unfold map_put. cbn. rewrite (alter_as_insert _ _ m) by done.
    rewrite (IH (S j) (<[j:=r]> m)); cbn.
    + rewrite !list_insert_insert_eq. do 2 f_equal.
      rewrite (take_S_r _ _ r) by (apply list_lookup_insert_eq; by apply lookup_lt_Some in Hx).
      by rewrite take_insert_ge, <- app_assoc by lia.
    + done.
    + apply list_lookup_insert_eq. by apply lookup_lt_Some in Hf.
    + apply list_lookup_insert_eq. by apply lookup_lt_Some in Hm.
    + rewrite length_insert. cbn in Hl. lia.
Qed.

Definition split_free (sizes arch : RegClassType → nat) (c : RegClassType) : list RegId :=
  drop (arch c) (class_regs sizes c).
Definition split_map (sizes arch : RegClassType → nat) (c : RegClassType) : list RegId :=
  take (arch c) (class_regs sizes c).

Lemma create_spec garbage sizes arch :
  (∀ c, (arch c <= sizes c)%nat) →
  create garbage sizes arch =
    Some (mkRegs (PhysRegFile garbage sizes) (split_free sizes arch <$> renameable_classes)
            (split_map sizes arch <$> renameable_classes)).
Proof.
  intros Ha. unfold create. rewrite initFreeList_spec by done. cbn [mbind option_bind].
  assert (Hinit : ∀ c s m, isRenameable (mkRegId c 0) = true →
    freeLists s !! class_index c = Some (class_regs sizes c) →
    renameMaps s !! class_index c = Some m → length m = arch c →
    init_class c (seq 0 (arch c)) s =
      Some (s <| freeLists ::= <[class_index c := split_free sizes arch c]> |>
              <| renameMaps ::= <[class_index c := split_map sizes arch c]> |>)).
  { intros c s m Hc Hf Hm Hl.
    assert (Hlen : length (split_map sizes arch c) = arch c).
    { unfold split_map, class_regs. rewrite length_take, length_fmap, length_seq.
      specialize (Ha c). lia. }
    rewrite <- Hlen. rewrite (init_class_spec c 0 _ (split_free sizes arch c) m s Hc); [done|..].
    - apply Forall_take, class_regs_class.
    - rewrite Hf. f_equal. symmetry. apply take_drop.
    - done.
    - cbn. by rewrite Hlen. }
  unfold renameable_classes. cbn [init_maps].
  repeat (erewrite Hinit; [|done|cbn; reflexivity|cbn; reflexivity|apply length_replicate];
          cbn [mbind option_bind init_maps]).
  done.
Qed.

End RegAlloc.
