(* ===== verification/RenameStage.v ===== *)
(** * The rename stage's register bookkeeping, with precise runahead

    Model of [Rename::renameSrcRegs], [renameDestRegs], [doSquash], [removeFromHistory], the
    PRDQ part of [Rename::tick] (src/cpu/o3/rename.cc) and of [CPU::enterPRE] and
    [CPU::exitPRE] (cpu.cc), for the one thread that precise runahead (PRE) supports.  Renaming
    allocates a physical register per destination and logs the mapping it replaces; commit
    frees the logged registers, a squash undoes the log.  In PRE the rename map and the free
    list are checkpointed, nothing is logged, and registers are recycled by the PRDQ or, with
    early recycling, by reference counts. *)

From S2P Require Import Prelude Inst Sst RegAlloc.
Import RegAlloc.

Module RenameStage.

(** ** State *)

(** [struct RenameHistory] *)
Record RenameHistory := mkHistory {
  instSeqNum : Z;  archReg : RegId;  newPhysReg : RegId;  prevPhysReg : RegId
}.

(** What renaming reads and writes of a [DynInst].  [r_dests] pairs a destination with its
    number of pinned writes; [r_numDestRegs] is [numDestRegs(cls)]; [r_renamedSrc] pairs a
    renamed source with its ready bit. *)
Record RInst := mkRInst {
  r_seqNum : Z;  r_pc : Z;  r_srcs : list RegId;  r_dests : list (RegId * Z);
  r_numDestRegs : RegClassType → nat;  r_isInSST : bool;  r_isPRE : bool;  r_canCommit : bool;
  r_renamedSrc : list (RegId * bool);  r_flatDest : list RegId;
  r_renamedDest : list RegId;  r_prevDest : list RegId
}.

#[export] Instance eta_RInst : Eta RInst := λ r,
  mkRInst (r_seqNum r) (r_pc r) (r_srcs r) (r_dests r) (r_numDestRegs r) (r_isInSST r)
    (r_isPRE r) (r_canCommit r) (r_renamedSrc r) (r_flatDest r) (r_renamedDest r)
    (r_prevDest r).

(** The parts of [CPU] and [Rename] that renaming changes. *)
Record Stage := mkStage {
  regs : Regs;  scoreboard : list bool;  sst : Sst.SST;
  historyBuffer : list RenameHistory;  prdq : list RInst;
  earlyRecycle : bool;  inPRE : bool;
  checkpointRenameMap : list (list RegId);  checkpointFreeList : list (list RegId)
}.

#[export] Instance eta_Stage : Eta Stage := λ r,
  mkStage (regs r) (scoreboard r) (sst r) (historyBuffer r) (prdq r) (earlyRecycle r)
    (inPRE r) (checkpointRenameMap r) (checkpointFreeList r).

(** The stage at power-on. *)
Definition create (garbage : RegId → PhysInfo) (sizes arch : RegClassType → nat)
    (sst_entries : nat) (early : bool) : option Stage :=
  s ← RegAlloc.create garbage sizes arch;
  Some (mkStage s (sb_create (length (all_regs sizes))) (Sst.create sst_entries) [] [] early
          false (replicate 6 []) (replicate 6 [])).

(** ** Renaming *)

(** [flattenRegId] of the RISC-V ISA *)
Definition flattenRegId (r : RegId) : RegId := r.

(** One iteration of [renameSrcRegs]. *)
Definition rename_src (i : RInst) (src : RegId) (s : Stage) : option (RegId * bool * Stage) :=
  r ← lookup (flattenRegId src) (regs s);
  let s := if r_isInSST i then s <| sst ::= Sst.addInst (srcAddr (info (regs s) r)) |> else s in
  let s := if earlyRecycle s
           then s <| regs ::= upd r (λ p, p <| numRef ::= λ n, n + 1 |>) |> else s in
  ready ← sb_getReg (regs s) (scoreboard s) r;
  Some (r, ready, s).

Fixpoint rename_srcs (i : RInst) (srcs : list RegId) (s : Stage)
  : option (list (RegId * bool) * Stage) :=
  match srcs with
  | [] => Some ([], s)
  | src :: srcs =>
      '(r, ready, s) ← rename_src i src s;
      '(rs, s) ← rename_srcs i srcs s;
      Some ((r, ready) :: rs, s)
  end.

(** [Rename::renameSrcRegs] *)
Definition renameSrcRegs (i : RInst) (s : Stage) : option (RInst * Stage) :=
  '(rs, s) ← rename_srcs i (r_srcs i) s;
  Some (i <| r_renamedSrc := rs |>, s).

(** The early recycling of [renameDestRegs]: the new register has one reference, its own
    instruction; the previous one is freed when nobody refers to it any more. *)
Definition recycle_prev (new prev : RegId) (s : Regs) : option Regs :=
  let s := upd new (λ p, p <| numRef := 1 |> <| overwritten := false |>) s in
  if usableForPRE (info s prev) then
    let s := upd prev (λ p, p <| overwritten := true |>) s in
    if numRef (info s prev) =? 0 then addReg prev s else Some s
  else Some s.

(** One iteration of [renameDestRegs]. *)
Definition rename_dest (i : RInst) (dest : RegId) (pins : Z) (s : Stage)
  : option (RegId * RegId * Stage) :=
  let flat := flattenRegId dest in
  '(new, prev, r) ← rename flat pins (regs s);
  let r := upd new (λ p, p <| srcAddr := r_pc i |>) r in
  r ← (if inPRE s && earlyRecycle s then recycle_prev new prev r else Some r);
  b ← sb_unsetReg r (scoreboard s) new;
  let s := s <| regs := r |> <| scoreboard := b |> in
  let s := if inPRE s then s
           else s <| historyBuffer ::= λ h, mkHistory (r_seqNum i) flat new prev :: h |> in
  Some (new, prev, s).

Fixpoint rename_dests (i : RInst) (dests : list (RegId * Z)) (s : Stage)
  : option (list (RegId * RegId) * Stage) :=
  match dests with
  | [] => Some ([], s)
  | (dest, pins) :: dests =>
      '(new, prev, s) ← rename_dest i dest pins s;
      '(rs, s) ← rename_dests i dests s;
      Some ((new, prev) :: rs, s)
  end.

(** [Rename::renameDestRegs] *)
Definition renameDestRegs (i : RInst) (s : Stage) : option (RInst * Stage) :=
  '(rs, s) ← rename_dests i (r_dests i) s;
  Some (i <| r_flatDest := (λ d, flattenRegId d.1) <$> r_dests i |>
          <| r_renamedDest := rs.*1 |> <| r_prevDest := rs.*2 |>, s).

(** The renaming of one instruction in [Rename::renameInsts]: blocked without enough free
    registers, otherwise renamed and, in PRE, put on the PRDQ. *)
Inductive Renaming := Blocked | Renamed (i : RInst) | Failed.

Definition rename_body (i : RInst) (s : Stage) : Renaming * Stage :=
  match ('(i, s) ← renameSrcRegs i s; renameDestRegs i s) with
  | None => (Failed, s)
  | Some (i, s) =>
      if inPRE s
      then let i := i <| r_isPRE := true |> in
           (Renamed i, s <| prdq ::= λ q, q ++ [i] |>)
      else (Renamed i, s)
  end.

Definition rename_inst (i : RInst) (s : Stage) : Renaming * Stage :=
  if negb (canRename (r_numDestRegs i) (regs s)) then (Blocked, s) else rename_body i s.

(** ** Squash and commit *)

(** The history loop of [Rename::doSquash]. *)
Fixpoint undo (squashed : Z) (h : list RenameHistory) (s : Regs)
  : option (list RenameHistory * Regs) :=
  match h with
  | [] => Some ([], s)
  | e :: h' =>
      if squashed <? instSeqNum e then
        s ← (if negb (bool_decide (newPhysReg e = prevPhysReg e))
             then s ← setEntry (archReg e) (prevPhysReg e) s; addReg (newPhysReg e) s
             else Some s);
        undo squashed h' s
      else Some (h, s)
  end.

(** The PRDQ loop of [doSquash], on the queue read from its back. *)
Fixpoint pop_younger (squashed : Z) (q : list RInst) : list RInst :=
  match q with
  | i :: q' => if squashed <? r_seqNum i then pop_younger squashed q' else q
  | [] => []
  end.

(** [Rename::doSquash] *)
Definition doSquash (squashed : Z) (s : Stage) : option Stage :=
  '(h, r) ← undo squashed (historyBuffer s) (regs s);
  Some (s <| regs := r |> <| historyBuffer := h |>
          <| prdq ::= λ q, rev (pop_younger squashed (rev q)) |>).

(** The loop of [Rename::removeFromHistory], on the history read from its back. *)
Fixpoint retire (done : Z) (h : list RenameHistory) (s : Regs)
  : option (list RenameHistory * Regs) :=
  match h with
  | [] => Some ([], s)
  | e :: h' =>
      if instSeqNum e <=? done then
        s ← (if negb (bool_decide (newPhysReg e = prevPhysReg e))
             then addReg (prevPhysReg e) s else Some s);
        retire done h' s
      else Some (h, s)
  end.

(** [Rename::removeFromHistory] *)
Definition removeFromHistory (done : Z) (s : Stage) : option Stage :=
  '(h, r) ← retire done (rev (historyBuffer s)) (regs s);
  Some (s <| regs := r |> <| historyBuffer := rev h |>).

(** ** Precise runahead *)

(** The two loops of [CPU::enterPRE] for one class. *)
Fixpoint checkpoint_map (c : RegClassType) (idxs : list nat) (s : Stage) : option Stage :=
  match idxs with
  | [] => Some s
  | k :: idxs =>
      r ← lookup (mkRegId c k) (regs s);
      checkpoint_map c idxs
        (s <| regs ::= upd r (λ p, p <| usableForPRE := false |>) |>
           <| checkpointRenameMap ::= alter (λ l, l ++ [r]) (class_index c) |>)
  end.

Fixpoint checkpoint_free (c : RegClassType) (num : nat) (s : Stage) : option Stage :=
  match num with
  | O => Some s
  | S num =>
      '(r, g) ← getReg c (regs s);
      g ← addReg r g;
      checkpoint_free c num
        (s <| regs := upd r (λ p, p <| usableForPRE := true |>) g |>
           <| checkpointFreeList ::= alter (λ l, l ++ [r]) (class_index c) |>)
  end.

Definition num_arch (c : RegClassType) (s : Stage) : nat :=
  length (renameMaps (regs s) !!! class_index c).

Fixpoint enter_classes (cs : list RegClassType) (s : Stage) : option Stage :=
  match cs with
  | [] => Some s
  | c :: cs =>
      s ← checkpoint_map c (seq 0 (num_arch c s)) s;
      s ← checkpoint_free c (numFreeRegs c (regs s)) s;
      enter_classes cs s
  end.

(** [CPU::enterPRE] *)
Definition enterPRE (s : Stage) : option Stage :=
  s ← enter_classes renameable_classes s; Some (s <| inPRE := true |>).

(** The loops of [CPU::exitPRE] for one class. *)
Fixpoint restore_map (c : RegClassType) (idxs : list nat) (s : Stage) : option Stage :=
  match idxs with
  | [] => Some s
  | k :: idxs =>
      r ← ((checkpointRenameMap s !!! class_index c) !! k);
      g ← setEntry (mkRegId c k) r (regs s);
      restore_map c idxs (s <| regs := g |>)
  end.

Fixpoint drain_free (c : RegClassType) (num : nat) (s : Regs) : option Regs :=
  match num with
  | O => Some s
  | S num => '(_, s) ← getReg c s; drain_free c num s
  end.

Fixpoint exit_classes (cs : list RegClassType) (s : Stage) : option Stage :=
  match cs with
  | [] => Some s
  | c :: cs =>
      s ← restore_map c (seq 0 (num_arch c s)) s;
      g ← drain_free c (numFreeRegs c (regs s)) (regs s);
      g ← addRegs (checkpointFreeList s !!! class_index c) g;
      exit_classes cs
        (s <| regs := g |> <| checkpointRenameMap ::= <[class_index c := []]> |>
           <| checkpointFreeList ::= <[class_index c := []]> |>)
  end.

(** [CPU::exitPRE] *)
Definition exitPRE (s : Stage) : option Stage :=
  s ← exit_classes renameable_classes s; Some (s <| inPRE := false |>).

(** The deallocation loop of [Rename::tick]; [num] is [renameWidth]. *)
Fixpoint free_prev (prevs : list RegId) (early : bool) (s : Regs) : option Regs :=
  match prevs with
  | [] => Some s
  | r :: prevs =>
      s ← (if usableForPRE (info s r) && negb early then addReg r s else Some s);
      free_prev prevs early s
  end.

Fixpoint dealloc_loop (num : nat) (s : Stage) : option Stage :=
  match num, prdq s with
  | S num, i :: q =>
      if negb (r_canCommit i) then Some s
      else
        g ← free_prev (r_prevDest i) (earlyRecycle s) (regs s);
        dealloc_loop num (s <| regs := g |> <| prdq := q |>)
  | _, _ => Some s
  end.

Definition dealloc (num : nat) (s : Stage) : option Stage :=
  if inPRE s then dealloc_loop num s else Some s.

(** The completion loop of [Rename::tick] for one register of a completed instruction: the
    assertion is [None]. *)
Fixpoint drop_refs (rs : list RegId) (s : Regs) : option Regs :=
  match rs with
  | [] => Some s
  | r :: rs =>
      s ← (if usableForPRE (info s r) then
             let s := upd r (λ p, p <| numRef ::= λ n, n - 1 |>) s in
             if numRef (info s r) <? 0 then None
             else if (numRef (info s r) =? 0) && overwritten (info s r) then addReg r s
             else Some s
           else Some s);
      drop_refs rs s
  end.

(** [setCanCommit] of the instruction, which the PRDQ shares. *)
Definition set_can_commit (i : RInst) (q : list RInst) : list RInst :=
  (λ j, if r_seqNum j =? r_seqNum i then j <| r_canCommit := true |> else j) <$> q.

Definition complete (i : RInst) (s : Stage) : option Stage :=
  if negb (inPRE s) || negb (r_isPRE i) then Some s
  else
    let s := s <| prdq ::= set_can_commit i |> in
    if negb (earlyRecycle s) then Some s
    else
      g ← drop_refs (r_renamedSrc i).*1 (regs s);
      g ← drop_refs (r_renamedDest i) g;
      Some (s <| regs := g |>).

(** ** The log of replaced mappings *)

(** The registers the history holds back: the replaced ones, where there was a change. *)
Definition logged (h : list RenameHistory) : list RegId :=
  prevPhysReg <$> filter (λ e, newPhysReg e ≠ prevPhysReg e) h.

#[global] Arguments logged : simpl never.

(** What undoing an entry does to the maps. *)
Definition undo_entry (ms : list (list RegId)) (e : RenameHistory) : list (list RegId) :=
  if decide (newPhysReg e = prevPhysReg e) then ms
  else maps_put ms (archReg e) (prevPhysReg e).

Definition undo_maps (ms : list (list RegId)) (h : list RenameHistory) : list (list RegId) :=
  foldl undo_entry ms h.

(** A log can be undone: an entry that changed a mapping finds the mapping it made. *)
Fixpoint log_ok (ms : list (list RegId)) (h : list RenameHistory) : Prop :=
  match h with
  | [] => True
  | e :: h =>
      (newPhysReg e ≠ prevPhysReg e →
         isRenameable (archReg e) = true ∧ classValue (prevPhysReg e) = classValue (archReg e) ∧
         classValue (newPhysReg e) = classValue (archReg e) ∧
         maps_at ms (archReg e) = Some (newPhysReg e)) ∧
      log_ok (undo_entry ms e) h
  end.

(** ** The invariant outside PRE *)

Section Invariant.
Context (sizes arch : RegClassType → nat) (fixed : RegId → bool) (lent : list RegId).

(** [fixed] is what the PRE flag of the registers with a fixed mapping holds: nothing
    writes it. *)
Record shape_ok (r : Regs) (b : list bool) : Prop := {
  s_free : classed (freeLists r);
  s_maps : classed (renameMaps r);
  s_shape : shaped arch (renameMaps r);
  s_flat : flat_ok sizes b r;
  s_unpinned : unpinned r;
  s_fixed : ∀ x, isRenameable x = false → usableForPRE (info r x) = fixed x
}.

(** Every physical register is free, mapped or logged, or one of those [lent] to another unit,
    and only once. *)
Definition partition (r : Regs) (log : list RegId) : Prop :=
  ∀ x, (occ x (free r) + occ x (mapped r) + occ x log + occ x lent)%nat = occ x (all_regs sizes).

Record stage_ok (s : Stage) : Prop := {
  ok_shape : shape_ok (regs s) (scoreboard s);
  ok_part : partition (regs s) (logged (historyBuffer s));
  ok_log : log_ok (renameMaps (regs s)) (historyBuffer s);
  ok_mode : inPRE s = false
}.

(** An instruction the decoder can produce: its operands name existing registers, none is
    pinned, and [numDestRegs] counts at least its destinations. *)
Record inst_ok (i : RInst) : Prop := {
  i_srcs : ∀ r, r ∈ r_srcs i → isRenameable r = true → (index r < arch (classValue r))%nat;
  i_dests : ∀ r p, (r, p) ∈ r_dests i →
    p = 0 ∧ (isRenameable r = true → (index r < arch (classValue r))%nat);
  i_count : ∀ c, (class_index c < 6)%nat →
    (length (filter (λ d, classValue d.1 = c) (r_dests i)) <= r_numDestRegs i c)%nat
}.
End Invariant.

(** Operations outside PRE. *)
Inductive Op := Rename (i : RInst) | Squash (n : Z) | Commit (n : Z).

Definition step (op : Op) (s : Stage) : option Stage :=
  match op with
  | Rename i => match rename_inst i s with (Failed, _) => None | (_, s) => Some s end
  | Squash n => doSquash n s
  | Commit n => removeFromHistory n s
  end.

Fixpoint run (ops : list Op) (s : Stage) : option Stage :=
  match ops with
  | [] => Some s
  | op :: ops => s ← step op s; run ops s
  end.

Definition op_ok (arch : RegClassType → nat) (op : Op) : Prop :=
  match op with Rename i => inst_ok arch i | _ => True end.

(** ** Lemmas *)

Lemma logged_cons e h :
  logged (e :: h) =
    if decide (newPhysReg e = prevPhysReg e) then logged h else prevPhysReg e :: logged h.
Proof.
  unfold logged. rewrite filter_cons.
  destruct (decide (newPhysReg e = prevPhysReg e)), (decide (newPhysReg e ≠ prevPhysReg e));
    done.
Qed.

Lemma logged_app h k : logged (h ++ k) = logged h ++ logged k.
Proof. unfold logged. by rewrite filter_app, fmap_app. Qed.

Lemma log_ok_app ms h k : log_ok ms (h ++ k) ↔ log_ok ms h ∧ log_ok (undo_maps ms h) k.
Proof.
  revert ms. induction h as [|e h IH]; intros ms; cbn; [tauto|]. rewrite IH. tauto.
Qed.

Section Lemmas.
Context (sizes arch : RegClassType → nat) (fixed : RegId → bool) (lent : list RegId).
Implicit Types (s : Stage) (r : Regs).

Lemma occ_all_le x : (occ x (all_regs sizes) <= 1)%nat.
Proof. apply occ_NoDup, all_regs_NoDup. Qed.

Lemma quiet_shape r r' b : quiet r r' → shape_ok sizes arch fixed r b → shape_ok sizes arch fixed r' b.
Proof.
  intros [Hf Hm Hl Hp Hus] [? ? ? [Hlen Hfl] Hu Hx].
  split; rewrite ?Hf, ?Hm; try done.
  - split; [done|]. intros k x Hk. rewrite Hl. by apply Hfl.
  - intros x. by rewrite Hp.
  - intros x. rewrite Hus. apply Hx.
Qed.

Lemma quiet_occ r r' : quiet r r' → free r' = free r ∧ mapped r' = mapped r.
Proof. intros [Hf Hm _ _ _]. unfold free, mapped. by rewrite Hf, Hm. Qed.

Lemma lookup_total_reg r b a :
  shape_ok sizes arch fixed r b → (isRenameable a = true → (index a < arch (classValue a))%nat) →
  ∃ p, lookup a r = Some p ∧ isRenameable p = isRenameable a ∧
       (isRenameable a = true → maps_at (renameMaps r) a = Some p ∧ p ∈ mapped r).
Proof.
  intros [_ Hm Hs _ _ _] Ha. destruct (isRenameable a) eqn:E.
  - destruct (proj2 (Hs a E) (Ha eq_refl)) as [p Hp]. exists p.
    assert (lookup a r = Some p) as Hl.
    { unfold lookup, isRenameable in *. destruct (classValue a); done. }
    split; [done|]. split.
    + unfold isRenameable in *. by rewrite (classed_at _ _ _ Hm Hp).
    + intros _. split; [done|]. by eapply maps_at_mapped.
  - unfold lookup, isRenameable in *. destruct (classValue a); cbn in E |- *; try done;
      (eexists; split_and!; [done|done|done]).
Qed.

(** A mapped register has its scoreboard bit. *)
Lemma scoreboard_reg r b log p :
  shape_ok sizes arch fixed r b → partition sizes lent r log → p ∈ mapped r → isRenameable p = true →
  is_Some (sb_getReg r b p).
Proof.
  intros Hs Hp Hm Hr. unfold sb_getReg. rewrite Hr. cbn. apply lookup_lt_is_Some_2.
  eapply flat_lt; [apply Hs|]. apply occ_elem. specialize (Hp p). apply occ_elem in Hm. lia.
Qed.

(** *** Sources *)

(** Renaming sources changes reference counts only. *)
Record src_frame s s' : Prop := {
  sf_quiet : quiet (regs s) (regs s');
  sf_board : scoreboard s' = scoreboard s;
  sf_hist : historyBuffer s' = historyBuffer s;
  sf_prdq : prdq s' = prdq s;
  sf_early : earlyRecycle s' = earlyRecycle s;
  sf_mode : inPRE s' = inPRE s;
  sf_cmap : checkpointRenameMap s' = checkpointRenameMap s;
  sf_cfree : checkpointFreeList s' = checkpointFreeList s
}.

#[export] Instance src_frame_preorder : PreOrder src_frame.
Proof.
  split; [by intros s|]. intros s1 s2 s3 [] []. split; try congruence. by etrans.
Qed.

Lemma rename_src_ok i a s log :
  shape_ok sizes arch fixed (regs s) (scoreboard s) → partition sizes lent (regs s) log →
  (isRenameable a = true → (index a < arch (classValue a))%nat) →
  ∃ p ready s', rename_src i a s = Some (p, ready, s') ∧ src_frame s s' ∧
    lookup a (regs s) = Some p.
Proof.
  intros Hs Hp Ha. destruct (lookup_total_reg _ _ _ Hs Ha) as (p & Hl & Hr & Hm).
  unfold rename_src, flattenRegId. rewrite Hl. cbn [mbind option_bind].
  set (s1 := if r_isInSST i then _ else s). set (s2 := if earlyRecycle s1 then _ else s1).
  assert (F : src_frame s s2).
  { subst s1 s2. destruct (r_isInSST i), (earlyRecycle s) eqn:?; cbn; rewrite ?Heqb; split;
      try done; by apply upd_quiet. }
  assert (is_Some (sb_getReg (regs s2) (scoreboard s2) p)) as [ready Hready].
  { rewrite (sf_board _ _ F). unfold sb_getReg. rewrite (q_flat _ _ (sf_quiet _ _ F)).
    destruct (isRenameable p) eqn:E; cbn; [|eauto].
    pose proof (scoreboard_reg _ _ _ p Hs Hp) as H. unfold sb_getReg in H. rewrite E in H.
    apply H; [|done]. apply Hm. congruence. }
  rewrite Hready. cbn. by exists p, ready, s2.
Qed.

Lemma src_frame_keeps s s' log :
  src_frame s s' → shape_ok sizes arch fixed (regs s) (scoreboard s) → partition sizes lent (regs s) log →
  shape_ok sizes arch fixed (regs s') (scoreboard s') ∧ partition sizes lent (regs s') log.
Proof.
  intros F Hs Hp. rewrite (sf_board _ _ F). split; [by eapply quiet_shape; [apply F|]|].
  destruct (quiet_occ _ _ (sf_quiet _ _ F)) as [Ef Em]. intros x. rewrite Ef, Em. apply Hp.
Qed.

Lemma rename_srcs_ok i srcs s log :
  shape_ok sizes arch fixed (regs s) (scoreboard s) → partition sizes lent (regs s) log →
  (∀ a, a ∈ srcs → isRenameable a = true → (index a < arch (classValue a))%nat) →
  ∃ rs s', rename_srcs i srcs s = Some (rs, s') ∧ src_frame s s'.
Proof.
  revert s. induction srcs as [|a srcs IH]; intros s Hs Hp Ha; [by eexists _, s|].
  destruct (rename_src_ok i a s log) as (p & rd & s1 & E1 & F1 & _); [done|done|by apply Ha; left|].
  destruct (src_frame_keeps _ _ _ F1 Hs Hp) as [Hs1 Hp1].
  destruct (IH s1) as (rs & s2 & E2 & F2); [done|done|by intros; apply Ha; [right|]|].
  cbn. rewrite E1. cbn. rewrite E2. cbn. eexists _, s2. split; [done|]. by etrans.
Qed.

(** *** Destinations *)

(** [r'] is [r] with some members of [new] set, its pins at zero. *)
Definition fresh_info r r' : Prop :=
  (∀ x, flatIdx (info r' x) = flatIdx (info r x)) ∧
  (∀ x, usableForPRE (info r' x) = usableForPRE (info r x)) ∧
  (unpinned r → unpinned r').

Lemma remapped_shape r r' a new prev b :
  shape_ok sizes arch fixed r b → remapped r a new prev r' → fresh_info r r' →
  shape_ok sizes arch fixed r' b.
Proof.
  intros [Hf Hm Hs [Hlen Hfl] Hu Hx] R (Hi & Hus & Hp). split.
  - apply R.
  - rewrite (rm_maps _ _ _ _ _ R). apply classed_put; [done|]. apply R.
  - rewrite (rm_maps _ _ _ _ _ R). by apply shaped_put.
  - split; [done|]. intros k x Hk. rewrite Hi. by apply Hfl.
  - auto.
  - intros x. rewrite Hus. apply Hx.
Qed.

Lemma remapped_mapped r r' a new prev x :
  remapped r a new prev r' →
  (occ x (mapped r') + one x prev = occ x (mapped r) + one x new)%nat.
Proof.
  intros R. unfold mapped. rewrite (rm_maps _ _ _ _ _ R).
  exact (occ_mapped_put x r a prev new (rm_prev _ _ _ _ _ R)).
Qed.

Lemma remapped_partition r r' a new prev log :
  partition sizes lent r log → remapped r a new prev r' →
  partition sizes lent r' (prev :: log) ∧ new ≠ prev ∧ new ∈ all_regs sizes.
Proof.
  intros Hp R. split_and!.
  - intros x. specialize (Hp x). rewrite occ_cons.
    pose proof (rm_free _ _ _ _ _ R x). pose proof (remapped_mapped _ _ _ _ _ x R). lia.
  - intros ->. specialize (Hp prev). pose proof (rm_free _ _ _ _ _ R prev) as H.
    rewrite one_self in H. pose proof (occ_all_le prev).
    assert (0 < occ prev (mapped r))%nat; [|lia].
    apply occ_elem. eapply maps_at_mapped, R.
  - apply occ_elem. specialize (Hp new). pose proof (rm_free _ _ _ _ _ R new) as H.
    rewrite one_self in H. lia.
Qed.

Lemma unset_total r b p :
  flat_ok sizes b r → p ∈ all_regs sizes →
  ∃ b', sb_unsetReg r b p = Some b' ∧ length b' = length b.
Proof.
  intros Hf Hp. unfold sb_unsetReg, sb_write.
  rewrite (all_regs_renameable sizes) by done. cbn.
  pose proof (flat_lt _ _ _ _ Hf Hp) as Hlt. apply Nat.ltb_lt in Hlt as ->.
  eexists. split; [done|]. apply length_insert.
Qed.

Lemma shape_board r b b' :
  length b' = length b → shape_ok sizes arch fixed r b → shape_ok sizes arch fixed r b'.
Proof. intros Hl [? ? ? [Hf ?] ? ?]. split; try done. split; [congruence|done]. Qed.

(** Renaming a destination logs one entry, whose undoing restores the maps. *)
Record dest_step (i : RInst) (c : RegClassType) s s' : Prop := {
  ds_ok : stage_ok sizes arch fixed lent s';
  ds_log : ∃ e, historyBuffer s' = e :: historyBuffer s ∧ instSeqNum e = r_seqNum i ∧
                undo_entry (renameMaps (regs s')) e = renameMaps (regs s);
  ds_count : ∀ c', (class_index c' < 6)%nat →
    (numFreeRegs c' (regs s) <= numFreeRegs c' (regs s') + if decide (c = c') then 1 else 0)%nat
}.

Lemma rename_dest_fresh i a s :
  stage_ok sizes arch fixed lent s → isRenameable a = true → (index a < arch (classValue a))%nat →
  (0 < numFreeRegs (classValue a) (regs s))%nat →
  ∃ new prev s', rename_dest i a 0 s = Some (new, prev, s') ∧ dest_step i (classValue a) s s'.
Proof.
  intros [Hs Hp Hl Hm] Hr Ha Hn.
  destruct (proj2 (s_shape _ _ _ _ _ Hs a Hr) Ha) as [prev Hprev].
  destruct (rename_fresh a prev (regs s)) as (new & r1 & E & R & Hi); [apply Hs|apply Hs|done..|].
  destruct (remapped_partition _ _ _ _ _ _ Hp R) as (Hp1 & Hne & Hin).
  unfold rename_dest, flattenRegId. rewrite E. cbn [mbind option_bind]. rewrite Hm. cbn.
  set (r2 := upd new _ r1).
  assert (Hfresh : fresh_info (regs s) r2).
  { split.
    - intros x. unfold r2. rewrite info_upd, !Hi.
      destruct (decide (x = new)) as [->|]; [by rewrite decide_True|done].
    - split.
      { intros x. unfold r2. rewrite info_upd, !Hi.
        destruct (decide (x = new)) as [->|]; [by rewrite decide_True|done]. }
      intros Hu x. unfold r2. rewrite info_upd, !Hi.
      destruct (decide (x = new)) as [->|]; [by rewrite decide_True|apply Hu]. }
  assert (R2 : remapped (regs s) a new prev r2) by (destruct R; by split).
  pose proof (remapped_shape _ _ _ _ _ _ Hs R2 Hfresh) as Hs2.
  destruct (unset_total r2 (scoreboard s) new) as (b & Hb & Hlen); [apply Hs2|done|].
  rewrite Hb. cbn. rewrite Hm. cbn. eexists new, prev, _. split; [done|].
  pose proof (rm_prev _ _ _ _ _ R) as Hat.
  assert (Hundo : undo_entry (maps_put (renameMaps (regs s)) a new)
                    (mkHistory (r_seqNum i) a new prev) = renameMaps (regs s)).
  { unfold undo_entry. cbn. rewrite decide_False by done. by apply maps_put_undo. }
  split; cbn.
  - split; cbn; [by apply (shape_board _ (scoreboard s))| | |done].
    + rewrite logged_cons, decide_False by done. exact Hp1.
    + rewrite (rm_maps _ _ _ _ _ R), Hundo. split; [|done]. intros _. split_and!; [done|..].
      * exact (classed_at _ _ _ (s_maps _ _ _ _ _ Hs) Hat).
      * apply R.
      * rewrite maps_at_put, decide_True by done. by rewrite Hat.
  - eexists. split_and!; [done|done|]. by rewrite (rm_maps _ _ _ _ _ R).
  - intros c' Hc. rewrite (rm_count _ _ _ _ _ R c').
    change (numFreeRegs c' r2) with (numFreeRegs c' r1).
    destruct (decide (c' = classValue a)) as [->|]; [rewrite decide_True by done|]; lia.
Qed.
Lemma rename_dest_fixed i a s :
  stage_ok sizes arch fixed lent s → isRenameable a = false →
  ∃ new prev s', rename_dest i a 0 s = Some (new, prev, s') ∧ dest_step i (classValue a) s s'.
Proof.
  intros [Hs Hp Hl Hm] Hr. destruct (rename_fixed a (regs s) Hr) as (p & E & Hpr).
  unfold rename_dest, flattenRegId. rewrite E. cbn [mbind option_bind]. rewrite Hm. cbn.
  set (r2 := upd p _ (regs s)). unfold sb_unsetReg, sb_write. rewrite Hpr. cbn. rewrite Hm. cbn.
  eexists p, p, _. split; [done|].
  assert (Q : quiet (regs s) r2) by by apply upd_quiet.
  split; cbn.
  - split; cbn; [by eapply quiet_shape| | |done].
    + rewrite logged_cons, decide_True by done. exact Hp.
    + unfold undo_entry. cbn. by rewrite decide_True.
  - eexists. split_and!; [done|done|]. unfold undo_entry. cbn. by rewrite decide_True.
  - intros c' _. change (numFreeRegs c' r2) with (numFreeRegs c' (regs s)). lia.
Qed.

Lemma rename_dest_ok i a s :
  stage_ok sizes arch fixed lent s → (isRenameable a = true → (index a < arch (classValue a))%nat) →
  (isRenameable a = true → 0 < numFreeRegs (classValue a) (regs s))%nat →
  ∃ new prev s', rename_dest i a 0 s = Some (new, prev, s') ∧ dest_step i (classValue a) s s'.
Proof.
  intros. destruct (isRenameable a) eqn:E; [apply rename_dest_fresh|apply rename_dest_fixed];
    auto.
Qed.

(** The log grew by entries of [i] whose undoing restores the maps. *)
Definition logs (i : RInst) s s' : Prop :=
  ∃ es, historyBuffer s' = es ++ historyBuffer s ∧
    Forall (λ e, instSeqNum e = r_seqNum i) es ∧
    undo_maps (renameMaps (regs s')) es = renameMaps (regs s).

Lemma rename_dests_ok i dests s :
  stage_ok sizes arch fixed lent s →
  (∀ d p, (d, p) ∈ dests →
     p = 0 ∧ (isRenameable d = true → (index d < arch (classValue d))%nat)) →
  (∀ c, (class_index c < 6)%nat →
     (length (filter (λ d : RegId * Z, classValue d.1 = c) dests)
      <= numFreeRegs c (regs s))%nat) →
  ∃ rs s', rename_dests i dests s = Some (rs, s') ∧ stage_ok sizes arch fixed lent s' ∧ logs i s s'.
Proof.
  revert s. induction dests as [|[a p] dests IH]; intros s Hok Hd Hc.
  { eexists _, s. split_and!; [done|done|]. by exists []. }
  destruct (Hd a p) as [-> Ha]; [by left|].
  destruct (rename_dest_ok i a s Hok Ha) as (new & prev & s1 & E1 & D1).
  { intros Hr%isRenameable_index. specialize (Hc _ Hr). rewrite filter_cons in Hc.
    cbn in Hc. rewrite decide_True in Hc by done. cbn in Hc. lia. }
  destruct (IH s1) as (rs & s2 & E2 & Hok2 & es & Hh & Hseq & Hundo).
  - apply D1.
  - intros. by apply Hd; right.
  - intros c Hi. specialize (Hc c Hi). pose proof (ds_count _ _ _ _ D1 c Hi) as Hn.
    rewrite filter_cons in Hc. cbn in Hc. destruct (decide (classValue a = c)); cbn in Hc; lia.
  - cbn. rewrite E1. cbn. rewrite E2. cbn. eexists _, s2. split_and!; [done|done|].
    destruct (ds_log _ _ _ _ D1) as (e & He & Hes & Hue). exists (es ++ [e]). split_and!.
    + by rewrite Hh, He, <- app_assoc.
    + apply Forall_app. split; [done|by constructor].
    + unfold undo_maps. rewrite foldl_app. fold (undo_maps (renameMaps (regs s2)) es).
      by rewrite Hundo.
Qed.

Lemma canRename_count f s c :
  canRename f (regs s) = true → (class_index c < 6)%nat → (f c <= numFreeRegs c (regs s))%nat.
Proof.
  unfold canRename. rewrite forallb_forall. intros H Hc. apply Nat.leb_le, H.
  apply list_elem_of_In. destruct c; cbn in Hc; try lia; set_solver.
Qed.

Lemma src_frame_stage s s' : src_frame s s' → stage_ok sizes arch fixed lent s → stage_ok sizes arch fixed lent s'.
Proof.
  intros F [Hs Hp Hl Hm]. destruct (src_frame_keeps _ _ _ F Hs Hp) as [Hs' Hp'].
  split; rewrite ?(sf_hist _ _ F), ?(sf_mode _ _ F); try done.
  by rewrite (q_maps _ _ (sf_quiet _ _ F)).
Qed.

Lemma rename_inst_ok i s :
  stage_ok sizes arch fixed lent s → inst_ok arch i →
  ∃ out s', rename_inst i s = (out, s') ∧ out ≠ Failed ∧ stage_ok sizes arch fixed lent s' ∧ logs i s s'.
Proof.
  intros Hok [Hsrc Hdst Hcnt]. unfold rename_inst.
  destruct (canRename (r_numDestRegs i) (regs s)) eqn:Hcan; cbn; [|].
  2:{ eexists _, s. split_and!; [done|done|done|]. by exists []. }
  destruct (rename_srcs_ok i (r_srcs i) s (logged (historyBuffer s))) as (rs & s1 & E1 & F1);
    [apply Hok|apply Hok|done|].
  unfold rename_body, renameSrcRegs. rewrite E1. cbn [mbind option_bind]. unfold renameDestRegs.
  set (i1 := i <| r_renamedSrc := rs |>).
  destruct (rename_dests_ok i1 (r_dests i) s1) as (ds & s2 & E2 & Hok2 & es & Hh & Hseq & Hu).
  - by eapply src_frame_stage.
  - done.
  - intros c Hc. etrans; [by apply Hcnt|]. unfold numFreeRegs.
    rewrite (q_free _ _ (sf_quiet _ _ F1)). by apply canRename_count.
  - change (r_dests i1) with (r_dests i). rewrite E2. cbn. rewrite (ok_mode _ _ _ _ _ Hok2).
    eexists _, s2. split_and!; [done|done|done|]. exists es. split_and!; [|done|].
    + by rewrite Hh, (sf_hist _ _ F1).
    + by rewrite Hu, (q_maps _ _ (sf_quiet _ _ F1)).
Qed.

Lemma addReg_shape p r r' b :
  shape_ok sizes arch fixed r b → addReg p r = Some r' →
  shape_ok sizes arch fixed r' b ∧ renameMaps r' = renameMaps r ∧
  mapped r' = mapped r ∧ ∀ x, info r' x = info r x.
Proof.
  intros Hs E. pose proof (addReg_class _ _ _ (s_free _ _ _ _ _ Hs) E) as Hc.
  destruct (addReg_Some _ _ _ E) as (l & _ & ->). destruct Hs. split; [by split|done].
Qed.

(** *** Squash *)

Lemma undo_one e h r b :
  shape_ok sizes arch fixed r b → partition sizes lent r (logged (e :: h)) → log_ok (renameMaps r) (e :: h) →
  ∃ r', (if negb (bool_decide (newPhysReg e = prevPhysReg e))
         then s ← setEntry (archReg e) (prevPhysReg e) r; addReg (newPhysReg e) s
         else Some r) = Some r' ∧
    shape_ok sizes arch fixed r' b ∧ partition sizes lent r' (logged h) ∧
    renameMaps r' = undo_entry (renameMaps r) e.
Proof.
  intros Hs Hp [He _]. rewrite logged_cons in Hp. unfold undo_entry.
  destruct (decide (newPhysReg e = prevPhysReg e)) as [Heq|Hne].
  { rewrite bool_decide_eq_true_2 by done. by exists r. }
  rewrite bool_decide_eq_false_2 by done. cbn. destruct (He Hne) as (Hr & Hcp & Hcn & Hat).
  unfold setEntry. rewrite bool_decide_eq_true_2 by done. cbn. rewrite Hr. cbn.
  rewrite map_at_maps, Hat. cbn. set (r1 := map_put _ _ r).
  destruct (addReg_total (newPhysReg e) r1) as [r2 E]; [apply Hs| |].
  { unfold isRenameable in *. by rewrite Hcn. }
  assert (Hs1 : shape_ok sizes arch fixed r1 b).
  { destruct Hs as [Hf Hm Hsh Hfl Hu Hx].
    split; [exact Hf|by apply classed_put|by apply shaped_put|exact Hfl|exact Hu|exact Hx]. }
  destruct (addReg_shape _ _ _ _ Hs1 E) as (Hs2 & Hm2 & Hmp2 & _).
  rewrite E. exists r2. split_and!; [done|done| |by rewrite Hm2].
  intros x. specialize (Hp x). rewrite occ_cons in Hp.
  pose proof (addReg_occ _ _ _ x E) as Hx. change (free r1) with (free r) in Hx.
  pose proof (occ_mapped_put x r (archReg e) (newPhysReg e) (prevPhysReg e) Hat) as Hm.
  fold r1 in Hm. rewrite <- Hmp2 in Hm. lia.
Qed.

Lemma undo_total n h r b :
  shape_ok sizes arch fixed r b → partition sizes lent r (logged h) → log_ok (renameMaps r) h →
  ∃ hp h' r', h = hp ++ h' ∧ undo n h r = Some (h', r') ∧
    shape_ok sizes arch fixed r' b ∧ partition sizes lent r' (logged h') ∧ log_ok (renameMaps r') h' ∧
    renameMaps r' = undo_maps (renameMaps r) hp ∧
    Forall (λ e, n < instSeqNum e) hp ∧
    (∀ e h2, h' = e :: h2 → instSeqNum e <= n).
Proof.
  revert r. induction h as [|e h IH]; intros r Hs Hp Hl.
  { exists [], [], r. split_and!; try done. }
  cbn [undo]. destruct (Z.ltb_spec n (instSeqNum e)) as [Hlt|Hge].
  - destruct (undo_one e h r b Hs Hp Hl) as (r1 & E1 & Hs1 & Hp1 & Hm1). rewrite E1. cbn.
    destruct (IH r1 Hs1 Hp1) as (hp & h' & r2 & -> & E2 & Hs2 & Hp2 & Hl2 & Hm2 & Hf & Hh).
    { rewrite Hm1. apply Hl. }
    exists (e :: hp), h', r2. split_and!; try done; [|by constructor].
    rewrite Hm2, Hm1. done.
  - exists [], (e :: h), r. split_and!; try done. intros ? ? [= -> ->]. done.
Qed.

(** *** Commit *)

Lemma log_ok_elem ms h e :
  log_ok ms h → e ∈ h → newPhysReg e ≠ prevPhysReg e → isRenameable (prevPhysReg e) = true.
Proof.
  revert ms. induction h as [|e' h IH]; intros ms Hl Hin Hne; [by apply elem_of_nil in Hin|].
  destruct Hl as [He Hl]. apply elem_of_cons in Hin as [->|Hin]; [|by eapply IH].
  destruct (He Hne) as (Hr & Hc & _). unfold isRenameable in *. by rewrite Hc.
Qed.

Lemma occ_logged_rev x h : occ x (logged (rev h)) = occ x (logged h).
Proof.
  induction h as [|e h IH]; [done|]. cbn [rev]. rewrite logged_app, occ_app, IH, !logged_cons.
  change (logged []) with (@nil RegId). destruct (decide _); rewrite ?occ_cons, ?occ_nil; lia.
Qed.

Lemma retire_total n k r b :
  shape_ok sizes arch fixed r b → partition sizes lent r (logged k) →
  (∀ e, e ∈ k → newPhysReg e ≠ prevPhysReg e → isRenameable (prevPhysReg e) = true) →
  ∃ kp k' r', k = kp ++ k' ∧ retire n k r = Some (k', r') ∧
    shape_ok sizes arch fixed r' b ∧ partition sizes lent r' (logged k') ∧
    renameMaps r' = renameMaps r.
Proof.
  revert r. induction k as [|e k IH]; intros r Hs Hp Hk.
  { by exists [], [], r. }
  cbn [retire]. destruct (Z.leb_spec (instSeqNum e) n) as [Hle|Hgt]; [|by exists [], (e :: k), r].
  assert (∃ r1, (if negb (bool_decide (newPhysReg e = prevPhysReg e))
                 then addReg (prevPhysReg e) r else Some r) = Some r1 ∧
            shape_ok sizes arch fixed r1 b ∧ partition sizes lent r1 (logged k) ∧
            renameMaps r1 = renameMaps r) as (r1 & E1 & Hs1 & Hp1 & Hm1).
  { rewrite logged_cons in Hp. destruct (decide (newPhysReg e = prevPhysReg e)) as [Heq|Hne].
    { rewrite bool_decide_eq_true_2 by done. by exists r. }
    rewrite bool_decide_eq_false_2 by done. cbn.
    destruct (addReg_total (prevPhysReg e) r) as [r1 E]; [apply Hs|apply Hk; [by left|done]|].
    destruct (addReg_shape _ _ _ _ Hs E) as (Hs1 & Hm1 & Hmp1 & _).
    exists r1. split_and!; [done|done| |done]. intros x. specialize (Hp x).
    rewrite occ_cons in Hp. pose proof (addReg_occ _ _ _ x E). rewrite Hmp1. lia. }
  rewrite E1. cbn.
  destruct (IH r1 Hs1 Hp1) as (kp & k' & r2 & -> & E2 & Hs2 & Hp2 & Hm2); [by intros; apply Hk; [right|]|].
  exists (e :: kp), k', r2. split_and!; try done. by rewrite Hm2.
Qed.

(** *** Sequences of operations *)

Lemma squash_ok n s :
  stage_ok sizes arch fixed lent s →
  ∃ hp s', doSquash n s = Some s' ∧ stage_ok sizes arch fixed lent s' ∧
    historyBuffer s = hp ++ historyBuffer s' ∧
    renameMaps (regs s') = undo_maps (renameMaps (regs s)) hp ∧
    Forall (λ e, n < instSeqNum e) hp ∧
    ∀ e h, historyBuffer s' = e :: h → instSeqNum e <= n.
Proof.
  intros [Hs Hp Hl Hm].
  destruct (undo_total n _ _ _ Hs Hp Hl) as (hp & h' & r' & Hh & E & Hs' & Hp' & Hl' & Hm' & Hf & Hx).
  unfold doSquash. rewrite E. cbn. eexists hp, _. split; [done|]. by split_and!.
Qed.

Lemma commit_ok n s :
  stage_ok sizes arch fixed lent s → ∃ s', removeFromHistory n s = Some s' ∧ stage_ok sizes arch fixed lent s'.
Proof.
  intros [Hs Hp Hl Hm]. unfold removeFromHistory.
  destruct (retire_total n (rev (historyBuffer s)) (regs s) (scoreboard s))
    as (kp & k' & r' & Hk & E & Hs' & Hp' & Hm'); [done| | |].
  - intros x. rewrite occ_logged_rev. apply Hp.
  - intros e He%list_elem_of_In%in_rev%list_elem_of_In. by eapply log_ok_elem.
  - rewrite E. cbn. eexists. split; [done|]. split; cbn; [done| | |done].
    + intros x. rewrite occ_logged_rev. apply Hp'.
    + rewrite Hm'. apply (log_ok_app _ _ (rev kp)). rewrite <- rev_app_distr, <- Hk.
      by rewrite rev_involutive.
Qed.

Lemma stage_step_ok op s :
  stage_ok sizes arch fixed lent s → op_ok arch op → ∃ s', step op s = Some s' ∧ stage_ok sizes arch fixed lent s'.
Proof.
  intros Hs Ho. destruct op as [i|n|n]; cbn.
  - destruct (rename_inst_ok i s Hs Ho) as (out & s' & -> & Hout & Hs' & _).
    exists s'. by destruct out.
  - destruct (squash_ok n s Hs) as (_ & s' & -> & Hs' & _). eauto.
  - by apply commit_ok.
Qed.

Lemma run_ok ops s :
  stage_ok sizes arch fixed lent s → Forall (op_ok arch) ops →
  ∃ s', run ops s = Some s' ∧ stage_ok sizes arch fixed lent s'.
Proof.
  revert s. induction ops as [|op ops IH]; intros s Hs Ho; [by exists s|].
  apply Forall_cons in Ho as [Ho Hos]. destruct (stage_step_ok op s Hs Ho) as (s1 & E & Hs1).
  cbn. rewrite E. cbn. by apply IH.
Qed.

Lemma split_classed (f : RegClassType → list RegId) :
  (∀ c, Forall (λ x, classValue x = c) (f c)) → classed (f <$> renameable_classes).
Proof.
  intros Hf. split; [done|]. intros k l x Hk Hr.
  apply list_lookup_fmap_Some in Hk as (c & -> & Hc).
  pose proof (proj1 (Forall_forall _ _) (Hf c) x Hr) as ->.
  do 6 (destruct k as [|k]; [by simplify_eq/=|]). done.
Qed.

Lemma stage_create_ok garbage n early :
  (∀ c, (arch c <= sizes c)%nat) →
  (∀ x, isRenameable x = false →
     usableForPRE (default PhysInfo_init (PhysRegFile garbage sizes !! x)) = fixed x) →
  ∃ s, create garbage sizes arch n early = Some s ∧ stage_ok sizes arch fixed [] s ∧
       historyBuffer s = [] ∧ prdq s = [] ∧ earlyRecycle s = early ∧
       checkpointRenameMap s = replicate 6 [] ∧ checkpointFreeList s = replicate 6 [].
Proof.
  intros Ha Hfix. unfold create. rewrite create_spec by done. cbn [mbind option_bind].
  set (r := mkRegs _ _ _). eexists. split; [done|]. split; [|done]. split; cbn; [|  |done|done].
  - split.
    + apply split_classed. intros c. apply Forall_drop, class_regs_class.
    + apply split_classed. intros c. apply Forall_take, class_regs_class.
    + intros [c k] Hc. unfold maps_at. cbn [classValue index].
      assert (Hlk : (split_map sizes arch <$> renameable_classes) !! class_index c
                    = Some (split_map sizes arch c)) by by destruct c.
      unfold r. cbn [renameMaps]. rewrite Hlk. cbn [mbind option_bind].
      rewrite lookup_lt_is_Some.
      unfold split_map, class_regs. rewrite length_take, length_fmap, length_seq.
      specialize (Ha c). lia.
    + split; [apply length_replicate|]. intros k x Hk.
      by rewrite (PhysRegFile_info garbage sizes _ k).
    + by eapply PhysRegFile_unpinned.
    + exact Hfix.
  - intros x. unfold free, mapped, r, all_regs, renameable_classes, split_free, split_map.
    cbn [freeLists renameMaps fmap list_fmap concat mbind list_bind].
    rewrite !occ_app, !occ_nil. change (logged []) with (@nil RegId). rewrite !occ_nil.
    assert (Hc : ∀ c, (occ x (drop (arch c) (class_regs sizes c))
      + occ x (take (arch c) (class_regs sizes c)))%nat = occ x (class_regs sizes c)).
    { intros c. rewrite Nat.add_comm, <- occ_app, take_drop. done. }
    rewrite <- !Hc. lia.
Qed.

(** *** Runs of renames *)

Lemma undo_logs i n s s' :
  logs i s s' → n < r_seqNum i →
  ∃ es, historyBuffer s' = es ++ historyBuffer s ∧ Forall (λ e, n < instSeqNum e) es ∧
        undo_maps (renameMaps (regs s')) es = renameMaps (regs s).
Proof.
  intros (es & Hh & Hf & Hu) Hn. exists es. split_and!; [done| |done].
  eapply Forall_impl; [done|]. cbn. intros. lia.
Qed.

Lemma renames_ok n xs s :
  stage_ok sizes arch fixed lent s → Forall (inst_ok arch) xs → Forall (λ i, n < r_seqNum i) xs →
  ∃ s' es, run (Rename <$> xs) s = Some s' ∧ stage_ok sizes arch fixed lent s' ∧
    historyBuffer s' = es ++ historyBuffer s ∧ Forall (λ e, n < instSeqNum e) es ∧
    undo_maps (renameMaps (regs s')) es = renameMaps (regs s).
Proof.
  revert s. induction xs as [|i xs IH]; intros s Hs Hi Hn.
  { exists s, []. by split_and!. }
  apply Forall_cons in Hi as [Hi His], Hn as [Hn Hns].
  destruct (rename_inst_ok i s Hs Hi) as (out & s1 & E & Hout & Hs1 & Hlog).
  destruct (undo_logs _ _ _ _ Hlog Hn) as (e1 & Hh1 & Hf1 & Hu1).
  destruct (IH s1 Hs1 His Hns) as (s2 & e2 & E2 & Hs2 & Hh2 & Hf2 & Hu2).
  exists s2, (e2 ++ e1). split_and!.
  - cbn. rewrite E. by destruct out.
  - done.
  - by rewrite Hh2, Hh1, app_assoc.
  - by apply Forall_app.
  - unfold undo_maps. rewrite foldl_app. fold (undo_maps (renameMaps (regs s2)) e2).
    by rewrite Hu2.
Qed.

(** A squash pops exactly the entries younger than it. *)
Lemma squash_point n (es h hp h' : list RenameHistory) :
  es ++ h = hp ++ h' → Forall (λ e, n < instSeqNum e) es → Forall (λ e, instSeqNum e <= n) h →
  Forall (λ e, n < instSeqNum e) hp → (∀ e k, h' = e :: k → instSeqNum e <= n) →
  es = hp ∧ h = h'.
Proof.
  revert hp. induction es as [|e es IH]; intros [|e' hp] Heq He Hh Hp Hx; cbn in Heq.
  - done.
  - subst h. apply Forall_cons in Hh as [? _], Hp as [? _]. lia.
  - subst h'. apply Forall_cons in He as [? _]. specialize (Hx _ _ eq_refl). lia.
  - simplify_eq. apply Forall_cons in He as [_ He], Hp as [_ Hp].
    destruct (IH hp) as [-> ->]; auto.
Qed.
End Lemmas.

(** ** Properties *)

(** C11: no register is lost or shared.  From power-on, whatever instructions are renamed,
    squashed and committed, no assertion of the free lists, rename maps and scoreboard fails,
    and every physical register is in exactly one place: free, mapped, or logged as the
    previous mapping of an instruction in flight. *)
Theorem registers_partitioned garbage sizes arch n early ops :
  (∀ c, (arch c <= sizes c)%nat) → Forall (op_ok arch) ops →
  ∃ s, (s0 ← create garbage sizes arch n early; run ops s0) = Some s ∧
    free (regs s) ++ mapped (regs s) ++ logged (historyBuffer s) ≡ₚ all_regs sizes ∧
    NoDup (free (regs s) ++ mapped (regs s) ++ logged (historyBuffer s)).
Proof.
  intros Ha Ho.
  destruct (stage_create_ok sizes arch _ garbage n early Ha (λ _ _, eq_refl)) as (s0 & E0 & Hs0 & _).
  rewrite E0. cbn. destruct (run_ok _ _ _ _ ops s0 Hs0 Ho) as (s & E & Hs). exists s.
  assert (free (regs s) ++ mapped (regs s) ++ logged (historyBuffer s) ≡ₚ all_regs sizes) as Hp.
  { apply occ_Permutation. intros x. rewrite !occ_app, <- (ok_part _ _ _ _ _ Hs x), occ_nil. lia. }
  split_and!; [done|done|]. rewrite Hp. apply all_regs_NoDup.
Qed.

(** C13: a squash undoes renaming exactly.  After renaming any instructions younger than
    [k], squashing to [k] restores the rename map and the history; the free lists hold the
    same registers as before, in another order. *)
Theorem squash_restores garbage sizes arch n early ops k xs s :
  (∀ c, (arch c <= sizes c)%nat) → Forall (op_ok arch) ops →
  (s0 ← create garbage sizes arch n early; run ops s0) = Some s →
  Forall (λ e, instSeqNum e <= k) (historyBuffer s) →
  Forall (inst_ok arch) xs → Forall (λ i, k < r_seqNum i) xs →
  ∃ s1 s2, run (Rename <$> xs) s = Some s1 ∧ doSquash k s1 = Some s2 ∧
    renameMaps (regs s2) = renameMaps (regs s) ∧ historyBuffer s2 = historyBuffer s ∧
    free (regs s2) ≡ₚ free (regs s).
Proof.
  intros Ha Ho Hrun Hold Hi Hk.
  destruct (stage_create_ok sizes arch _ garbage n early Ha (λ _ _, eq_refl)) as (s0 & E0 & Hs0 & _).
  rewrite E0 in Hrun. cbn in Hrun. destruct (run_ok _ _ _ _ ops s0 Hs0 Ho) as (s' & E & Hs).
  rewrite E in Hrun. simplify_eq.
  destruct (renames_ok sizes arch _ _ k xs s Hs Hi Hk) as (s1 & es & E1 & Hs1 & Hh1 & Hf1 & Hu1).
  destruct (squash_ok sizes arch _ _ k s1 Hs1) as (hp & s2 & E2 & Hs2 & Hh2 & Hu2 & Hf2 & Hx2).
  rewrite Hh1 in Hh2. destruct (squash_point _ _ _ _ _ Hh2 Hf1 Hold Hf2 Hx2) as [<- Hh].
  exists s1, s2. assert (renameMaps (regs s2) = renameMaps (regs s)) as Hm by congruence.
  split_and!; [done|done|done|done|]. apply occ_Permutation. intros x.
  pose proof (ok_part _ _ _ _ _ Hs x) as P1. pose proof (ok_part _ _ _ _ _ Hs2 x) as P2.
  rewrite <- Hh in P2. unfold mapped in *. rewrite Hm in P2. lia.
Qed.

(** ** Witnesses *)

(** Four integer registers, two of them architectural; a [mv] from [x1] to [x0]. *)
Definition few (n : nat) (c : RegClassType) : nat :=
  match c with IntRegClass => n | _ => 0 end.
Definition mv (seq : Z) : RInst :=
  mkRInst seq 64 [mkRegId IntRegClass 1] [(mkRegId IntRegClass 0, 0)] (few 1) true false false
    [] [] [] [].

(** Proves [Forall P l] of a literal list element by element. *)
Ltac each t := repeat first [apply List.Forall_nil|apply List.Forall_cons; [t|]].

Lemma few_le m n c : (m <= n)%nat → (few m c <= few n c)%nat.
Proof. destruct c; cbn; lia. Qed.

Lemma mv_ok seq : inst_ok (few 2) (mv seq).
Proof.
  split; cbn.
  - intros r ->%list_elem_of_singleton. cbn. lia.
  - intros r p [= -> ->]%list_elem_of_singleton. cbn. split; [done|lia].
  - intros [] _; vm_compute; lia.
Qed.

Lemma registers_partitioned_witness :
  ∃ s, (s0 ← create (λ _, PhysInfo_init) (few 4) (few 2) 2 false;
        run [Rename (mv 1); Rename (mv 2); Rename (mv 3); Commit 1; Squash 1] s0) = Some s ∧
    free (regs s) = [mkRegId IntRegClass 0; mkRegId IntRegClass 3] ∧
    free (regs s) ++ mapped (regs s) ++ logged (historyBuffer s) ≡ₚ all_regs (few 4).
Proof.
  destruct (registers_partitioned (λ _, PhysInfo_init) (few 4) (few 2) 2 false
    [Rename (mv 1); Rename (mv 2); Rename (mv 3); Commit 1; Squash 1]
    (λ c, few_le 2 4 c ltac:(lia))
    ltac:(each ltac:(first [apply mv_ok|exact I])))
    as (s & E & Hp & _).
  exists s. split_and!; [done| |done]. vm_compute in E. by injection E as <-.
Defined.

Lemma squash_restores_witness :
  ∃ s s1 s2, (s0 ← create (λ _, PhysInfo_init) (few 4) (few 2) 2 false;
              run [Rename (mv 1)] s0) = Some s ∧
    run (Rename <$> [mv 2; mv 3]) s = Some s1 ∧ doSquash 1 s1 = Some s2 ∧
    renameMaps (regs s2) = renameMaps (regs s) ∧ historyBuffer s2 = historyBuffer s ∧
    free (regs s2) ≡ₚ free (regs s).
Proof.
  destruct (s0 ← create (λ _, PhysInfo_init) (few 4) (few 2) 2 false; run [Rename (mv 1)] s0)
    as [s|] eqn:E; [|by vm_compute in E].
  exists s. edestruct (squash_restores (λ _, PhysInfo_init) (few 4) (few 2) 2 false
    [Rename (mv 1)] 1 [mv 2; mv 3] s (λ c, few_le 2 4 c ltac:(lia))) as (s1 & s2 & H).
  - each ltac:(first [apply mv_ok|exact I]).
  - exact E.
  - vm_compute in E. injection E as <-. repeat constructor; cbn; lia.
  - each ltac:(first [apply mv_ok|exact I]).
  - each ltac:(cbn; lia).
  - by exists s1, s2.
Defined.

End RenameStage.
