(* ===== verification/Runahead.v ===== *)
(** * Precise runahead is precise

    The theorems on the PRE mode of RenameStage.v: entering PRE, renaming, completing,
    deallocating and squashing any instructions there, and leaving it changes neither the
    rename map, nor the free list, nor the history, nor the readiness of a register in use; and
    inside PRE no register is allocated twice, with the PRDQ or with early recycling. *)

From S2P Require Import Prelude Inst Sst RegAlloc RenameStage.
Import RegAlloc RenameStage.

Module Runahead.

(** ** Events of a PRE session *)

(** [PComplete k]: the [k]-th instruction renamed in PRE and not yet completed completes. *)
Inductive Event := PRename (i : RInst) | PDealloc (width : nat) | PComplete (k : nat)
                 | PSquash (n : Z).

(** The stage with the PRE instructions in flight, youngest first. *)
Definition pre_step (ev : Event) (x : Stage * list RInst) : option (Stage * list RInst) :=
  let '(s, flight) := x in
  match ev with
  | PRename i =>
      match rename_inst i s with
      | (Failed, _) => None
      | (Blocked, s) => Some (s, flight)
      | (Renamed i, s) => Some (s, i :: flight)
      end
  | PDealloc width => s ← dealloc width s; Some (s, flight)
  | PComplete k =>
      match flight !! k with
      | Some i => s ← complete i s; Some (s, delete k flight)
      | None => Some (s, flight)
      end
  | PSquash n => s ← doSquash n s; Some (s, flight)
  end.

Fixpoint pre_run (evs : list Event) (x : Stage * list RInst) : option (Stage * list RInst) :=
  match evs with
  | [] => Some x
  | ev :: evs => x ← pre_step ev x; pre_run evs x
  end.

(** The references the instructions in flight hold. *)
Definition inst_refs (i : RInst) : list RegId := (r_renamedSrc i).*1 ++ r_renamedDest i.
Definition refs (flight : list RInst) : list RegId := flight ≫= inst_refs.

(** The registers the PRDQ will free. *)
Definition pending (q : list RInst) : list RegId := q ≫= r_prevDest.

(** ** Entering PRE *)

(** The members of [x] after marking the registers of [l] with [v]. *)
Definition mark (v : bool) (l : list RegId) (r : Regs) (x : RegId) : PhysInfo :=
  if decide (x ∈ l) then (info r x) <| usableForPRE := v |> else info r x.

Lemma mark_cons v a l r r' x :
  (∀ y, info r' y = mark v [a] r y) → mark v l r' x = mark v (a :: l) r x.
Proof.
  intros H. unfold mark. rewrite H. unfold mark.
  destruct (decide (x ∈ l)) as [Hl|Hl], (decide (x ∈ [a])) as [Ha|Ha],
    (decide (x ∈ a :: l)) as [Hal|Hal]; rewrite ?list_elem_of_singleton, ?elem_of_cons in *;
    done || tauto.
Qed.

Lemma mark_upd v a r y : info (upd a (λ p, p <| usableForPRE := v |>) r) y = mark v [a] r y.
Proof.
  rewrite info_upd. unfold mark.
  destruct (decide (y = a)) as [Ha|Ha], (decide (y ∈ [a])) as [Hs|Hs];
    rewrite list_elem_of_singleton in Hs; [by rewrite Ha|done|done|done].
Qed.

Lemma alter_append {A} (f g : list A → list A) k (ls : list (list A)) :
  alter g k (alter f k ls) = alter (λ l, g (f l)) k ls.
Proof. rewrite list_alter_alter_eq. by apply list_alter_ext. Qed.

Lemma checkpoint_map_spec c j n s m :
  isRenameable (mkRegId c 0) = true → renameMaps (regs s) !! class_index c = Some m →
  (j + n = length m)%nat →
  ∃ g, checkpoint_map c (seq j n) s =
         Some (s <| regs := g |>
                 <| checkpointRenameMap ::= alter (λ l, l ++ drop j m) (class_index c) |>) ∧
    freeLists g = freeLists (regs s) ∧ renameMaps g = renameMaps (regs s) ∧
    ∀ x, info g x = mark false (drop j m) (regs s) x.
Proof.
  intros Hc. revert j s. induction n as [|n IH]; intros j s Hm Hl; cbn.
  - exists (regs s). rewrite drop_ge by lia. split_and!; try done.
    f_equal. destruct s; cbn. f_equal. symmetry. apply list_alter_id. intros. apply app_nil_r.
  - destruct (lookup_lt_is_Some_2 m j) as [r Hr]; [lia|].
    assert (lookup (mkRegId c j) (regs s) = Some r) as ->.
    { unfold lookup. unfold isRenameable in Hc. cbn in Hc |- *.
      destruct c; try done; cbn; unfold map_at; cbn; cbn in Hm; rewrite Hm; done. }
    cbn. destruct (IH (S j) (s <| regs ::= upd r (λ p, p <| usableForPRE := false |>) |>
      <| checkpointRenameMap ::= alter (λ l, l ++ [r]) (class_index c) |>))
      as (g & E & Hf & Hmm & Hi); [done|lia|].
    cbn in E. exists g. rewrite E. split_and!; [|done|done|].
    + cbn. rewrite alter_append. do 2 f_equal. apply list_alter_ext; [|done]. intros l _.
      by rewrite <- app_assoc, (drop_S m r j).
    + intros x. rewrite Hi. cbn. rewrite (drop_S m r j) by done. apply mark_cons.
      intros y. apply mark_upd.
Qed.

Lemma checkpoint_free_spec c l1 l2 s :
  freeLists (regs s) !! class_index c = Some (l1 ++ l2) → Forall (λ r, classValue r = c) l1 →
  ∃ g, checkpoint_free c (length l1) s =
         Some (s <| regs := g |>
                 <| checkpointFreeList ::= alter (λ l, l ++ l1) (class_index c) |>) ∧
    freeLists g = <[class_index c := l2 ++ l1]> (freeLists (regs s)) ∧
    renameMaps g = renameMaps (regs s) ∧ ∀ x, info g x = mark true l1 (regs s) x.
Proof.
  revert l2 s. induction l1 as [|r l1 IH]; intros l2 s Hf Hc; cbn.
  - exists (regs s). rewrite app_nil_r, list_insert_id by done. split_and!; try done.
    f_equal. destruct s; cbn. f_equal. symmetry. apply list_alter_id. intros. apply app_nil_r.
  - apply Forall_cons in Hc as [Hr Hc]. unfold getReg. rewrite Hf. cbn. unfold addReg. cbn.
    rewrite Hr, list_lookup_insert_eq by (by apply lookup_lt_Some in Hf). cbn.
    rewrite list_insert_insert_eq.
    set (g0 := mkRegs _ _ _). set (s1 := mkStage _ _ _ _ _ _ _ _ _).
    destruct (IH (l2 ++ [r]) s1) as (g & E & Hf' & Hm & Hi); [|done|].
    + cbn. rewrite list_lookup_insert_eq by (by apply lookup_lt_Some in Hf).
      by rewrite <- app_assoc.
    + rewrite E. exists g. split_and!.
      * cbn. rewrite alter_append. do 2 f_equal. apply list_alter_ext; [|done]. intros l _.
        by rewrite <- app_assoc.
      * rewrite Hf'. cbn. by rewrite list_insert_insert_eq, <- app_assoc.
      * by rewrite Hm.
      * intros x. rewrite Hi. apply mark_cons. intros y. cbn.
        change (info (upd r (λ p, p <| usableForPRE := true |>) g0) y = mark true [r] (regs s) y).
        exact (mark_upd true r g0 y).
Qed.

(** What marking the classes [cs] does to the members of [x]. *)
Record marked (cs : list RegClassType) (r g : Regs) (x : RegId) : Prop := {
  mk_flat : flatIdx (info g x) = flatIdx (info r x);
  mk_pins : numPinnedWrites (info g x) = numPinnedWrites (info r x);
  mk_free : classValue x ∈ cs → x ∈ free r → usableForPRE (info g x) = true;
  mk_mapped : classValue x ∈ cs → x ∉ free r → x ∈ mapped r → usableForPRE (info g x) = false;
  mk_other : classValue x ∉ cs → usableForPRE (info g x) = usableForPRE (info r x)
}.

Lemma elem_of_classed ls x l :
  classed ls → ls !! class_index (classValue x) = Some l → x ∈ concat ls ↔ x ∈ l.
Proof.
  intros [_ Hc] Hl. split.
  - intros (m & Hm%list_elem_of_In & Hx%list_elem_of_In)%list_elem_of_In%in_concat.
    apply list_elem_of_lookup in Hm as [k Hk]. rewrite <- (Hc _ _ _ Hk Hx) in Hk. by simplify_eq.
  - intros Hx. apply list_elem_of_In, in_concat. exists l.
    rewrite <- !list_elem_of_In. split; [|done]. by apply list_elem_of_lookup_2 in Hl.
Qed.

Lemma class_slot (ls : list (list RegId)) c :
  length ls = 6%nat → isRenameable (mkRegId c 0) = true → is_Some (ls !! class_index c).
Proof. intros Hl Hc%isRenameable_index. apply lookup_lt_is_Some_2. rewrite Hl. exact Hc. Qed.

Lemma classed_slot ls c l :
  classed ls → ls !! class_index c = Some l → Forall (λ r, classValue r = c) l.
Proof.
  intros [_ Hc] Hl. apply Forall_forall. intros r Hr. apply class_index_inj. by eapply Hc.
Qed.

(** The checkpoints of the classes [cs], their slots having been empty. *)
Definition taken (cs : list RegClassType) (ls ck ck' : list (list RegId)) : Prop :=
  length ck' = length ck ∧
  (∀ c, c ∈ cs → ck' !! class_index c = ls !! class_index c) ∧
  (∀ k, (∀ c, c ∈ cs → class_index c ≠ k) → ck' !! k = ck !! k).

Lemma taken_nil ls ck : taken [] ls ck ck.
Proof. split; [done|]. split; [by intros c ?%elem_of_nil|done]. Qed.

Lemma taken_cons c cs ls ck ck' l :
  ck !! class_index c = Some [] → ls !! class_index c = Some l → c ∉ cs →
  taken cs ls (alter (λ l', l' ++ l) (class_index c) ck) ck' → taken (c :: cs) ls ck ck'.
Proof.
  intros He Hl Hc (Hlen & Hin & Hout). split_and!.
  - by rewrite Hlen, length_alter.
  - intros d [->|Hd]%elem_of_cons; [|by apply Hin].
    rewrite Hout by (intros d Hd ->%class_index_inj; done).
    by rewrite list_lookup_alter_eq, He, Hl.
  - intros k Hk. rewrite Hout by (intros d Hd; apply Hk; by right).
    apply list_lookup_alter_ne. apply Hk. by left.
Qed.

Lemma taken_insert c cs ls ck ck' l :
  is_Some (ck !! class_index c) → ls !! class_index c = Some l → c ∉ cs →
  taken cs ls (<[class_index c := l]> ck) ck' → taken (c :: cs) ls ck ck'.
Proof.
  intros He Hl Hc (Hlen & Hin & Hout). split_and!.
  - by rewrite Hlen, length_insert.
  - intros d [->|Hd]%elem_of_cons; [|by apply Hin].
    rewrite Hout by (intros d Hd ->%class_index_inj; done).
    rewrite Hl. apply list_lookup_insert_eq. by apply lookup_lt_is_Some.
  - intros k Hk. rewrite Hout by (intros d Hd; apply Hk; by right).
    apply list_lookup_insert_ne. apply Hk. by left.
Qed.

(** Marking one more class: its free registers [fl] and its mapped ones [ml]. *)
Lemma marked_cons c cs r g2 g fl ml x :
  c ∉ cs → classed (freeLists r) → classed (renameMaps r) →
  freeLists r !! class_index c = Some fl → renameMaps r !! class_index c = Some ml →
  freeLists g2 = freeLists r → renameMaps g2 = renameMaps r →
  info g2 x = (if decide (x ∈ fl) then (mark false ml r x) <| usableForPRE := true |>
               else mark false ml r x) →
  marked cs g2 g x → marked (c :: cs) r g x.
Proof.
  intros Hc Hf Hm Hfl Hml Hf2 Hm2 Hg2 [X1 X2 X3 X4 X5]. unfold free, mapped in X3, X4.
  rewrite Hf2, Hm2 in *. unfold mark in Hg2.
  assert (Hcl : classValue x = c → x ∈ free r ↔ x ∈ fl)
    by (intros <-; by apply elem_of_classed).
  assert (Hcm : classValue x = c → x ∈ mapped r ↔ x ∈ ml)
    by (intros <-; by apply elem_of_classed).
  assert (Hfc : x ∈ fl → classValue x = c)
    by (intros; by apply (proj1 (Forall_forall _ _) (classed_slot _ _ _ Hf Hfl))).
  assert (Hmc : x ∈ ml → classValue x = c)
    by (intros; by apply (proj1 (Forall_forall _ _) (classed_slot _ _ _ Hm Hml))).
  split.
  - rewrite X1, Hg2. by destruct (decide (x ∈ fl)), (decide (x ∈ ml)).
  - rewrite X2, Hg2. by destruct (decide (x ∈ fl)), (decide (x ∈ ml)).
  - intros [Hxc|Hxc]%elem_of_cons Hxf; [|by apply X3].
    rewrite X5 by (by rewrite Hxc). rewrite Hg2, decide_True by (by apply Hcl). done.
  - intros [Hxc|Hxc]%elem_of_cons Hxf Hxm; [|by apply X4].
    rewrite X5 by (by rewrite Hxc). rewrite Hg2, decide_False by (by intros ?; apply Hxf, Hcl).
    rewrite decide_True by (by apply Hcm). done.
  - intros [Hxc Hxn]%not_elem_of_cons. rewrite X5 by done.
    rewrite Hg2, !decide_False by tauto. done.
Qed.

Lemma enter_classes_spec cs s :
  classed (freeLists (regs s)) → classed (renameMaps (regs s)) → NoDup cs →
  Forall (λ c, isRenameable (mkRegId c 0) = true) cs →
  Forall (λ c, checkpointRenameMap s !! class_index c = Some [] ∧
               checkpointFreeList s !! class_index c = Some []) cs →
  ∃ g cm cf, enter_classes cs s =
      Some (s <| regs := g |> <| checkpointRenameMap := cm |> <| checkpointFreeList := cf |>) ∧
    freeLists g = freeLists (regs s) ∧ renameMaps g = renameMaps (regs s) ∧
    taken cs (renameMaps (regs s)) (checkpointRenameMap s) cm ∧
    taken cs (freeLists (regs s)) (checkpointFreeList s) cf ∧
    ∀ x, marked cs (regs s) g x.
Proof.
  revert s. induction cs as [|c cs IH]; intros s Hf Hm Hnd Hr He.
  { exists (regs s), (checkpointRenameMap s), (checkpointFreeList s).
    split; [by destruct s|]. split; [done|]. split; [done|]. split; [apply taken_nil|].
    split; [apply taken_nil|]. intros x. by split; [..|intros ?%elem_of_nil|intros ?%elem_of_nil|]. }
  apply NoDup_cons in Hnd as [Hc Hnd]. apply Forall_cons in Hr as [Hr Hrs].
  apply Forall_cons in He as [[He1 He2] Hes].
  destruct (class_slot _ c (proj1 Hf) Hr) as [fl Hfl].
  destruct (class_slot _ c (proj1 Hm) Hr) as [ml Hml].
  cbn [enter_classes]. unfold num_arch. rewrite list_lookup_total_alt, Hml. cbn [default].
  destruct (checkpoint_map_spec c 0 (length ml) s ml Hr Hml) as (g1 & E1 & Hf1 & Hm1 & Hi1); [done|].
  change (drop 0 ml) with ml in E1, Hi1. change (id ml) with ml. rewrite E1. cbn [mbind option_bind].
  set (s1 := s <| regs := g1 |> <| checkpointRenameMap ::= _ |>).
  unfold numFreeRegs. change (freeLists (regs s1)) with (freeLists g1).
  rewrite Hf1, list_lookup_total_alt, Hfl. cbn [default]. change (id fl) with fl.
  destruct (checkpoint_free_spec c fl [] s1) as (g2 & E2 & Hf2 & Hm2 & Hi2).
  { change (freeLists (regs s1)) with (freeLists g1). by rewrite Hf1, app_nil_r. }
  { exact (classed_slot _ _ _ Hf Hfl). }
  rewrite E2. cbn [mbind option_bind].
  change (freeLists (regs s1)) with (freeLists g1) in Hf2.
  change (renameMaps (regs s1)) with (renameMaps g1) in Hm2.
  rewrite Hf1 in Hf2. cbn in Hf2. rewrite list_insert_id in Hf2 by done. rewrite Hm1 in Hm2.
  set (s2 := s1 <| regs := g2 |> <| checkpointFreeList ::= _ |>).
  destruct (IH s2) as (g & cm & cf & E & Hfg & Hmg & Htm & Htf & Hx).
  - change (regs s2) with g2. by rewrite Hf2.
  - change (regs s2) with g2. by rewrite Hm2.
  - done.
  - done.
  - apply Forall_forall. intros d Hd.
    pose proof (proj1 (Forall_forall _ _) Hes d Hd) as [Hd1 Hd2]. subst s2 s1. cbn.
    assert (class_index c ≠ class_index d) by (intros ->%class_index_inj; done).
    by rewrite !list_lookup_alter_ne.
  - exists g, cm, cf. change (regs s2) with g2 in *. rewrite E. split_and!.
    + done.
    + by rewrite Hfg, Hf2.
    + by rewrite Hmg, Hm2.
    + eapply (taken_cons c cs _ _ _ ml); [done|done|done|]. rewrite Hm2 in Htm. exact Htm.
    + eapply (taken_cons c cs _ _ _ fl); [done|done|done|]. rewrite Hf2 in Htf. exact Htf.
    + intros x. apply (marked_cons c cs (regs s) g2 g fl ml x); [done..| |apply Hx].
      change (info (regs s1)) with (info g1) in Hi2. rewrite Hi2. unfold mark. by rewrite Hi1.
Qed.

(** ** Leaving PRE *)

Lemma restore_map_spec c j n s m mc :
  isRenameable (mkRegId c 0) = true → renameMaps (regs s) !! class_index c = Some m →
  checkpointRenameMap s !! class_index c = Some mc → Forall (λ r, classValue r = c) mc →
  length mc = length m → (j + n = length m)%nat →
  restore_map c (seq j n) s =
    Some (s <| regs ::= λ r, r <| renameMaps ::= <[class_index c := take j m ++ drop j mc]> |> |>).
Proof.
  intros Hc. revert j m s. induction n as [|n IH]; intros j m s Hm Hk Hcl Hlen Hl; cbn.
  - rewrite take_ge, drop_ge, app_nil_r, list_insert_id by (done || lia).
    by destruct s as [[]].
  - rewrite list_lookup_total_alt, Hk. cbn.
    destruct (lookup_lt_is_Some_2 mc j) as [r Hr]; [lia|]. rewrite Hr. cbn.
    destruct (lookup_lt_is_Some_2 m j) as [y Hy]; [lia|].
    assert (setEntry (mkRegId c j) r (regs s) = Some (map_put (mkRegId c j) r (regs s))) as ->.
    { unfold setEntry. rewrite bool_decide_eq_true_2; cbn.
      - assert (isRenameable (mkRegId c j) = true) as -> by done. unfold map_at. cbn.
        by rewrite Hm; cbn; rewrite Hy.
      - apply list_elem_of_lookup_2 in Hr. exact (proj1 (Forall_forall _ _) Hcl r Hr). }
    cbn. rewrite (IH (S j) (<[j := r]> m)).
    + cbn. unfold map_put. cbn. rewrite (alter_as_insert _ _ m) by done.
      rewrite list_insert_insert_eq. do 4 f_equal.
      rewrite (take_S_r _ _ r) by (apply list_lookup_insert_eq; by apply lookup_lt_Some in Hy).
      rewrite take_insert_ge by lia. rewrite <- app_assoc. by rewrite (drop_S mc r j).
    + cbn. rewrite (alter_as_insert _ _ m) by done.
      apply list_lookup_insert_eq. by apply lookup_lt_Some in Hm.
    + done.
    + done.
    + by rewrite length_insert.
    + rewrite length_insert. lia.
Qed.

Lemma drain_free_spec c l r :
  freeLists r !! class_index c = Some l →
  drain_free c (length l) r = Some (r <| freeLists ::= <[class_index c := []]> |>).
Proof.
  revert r. induction l as [|x l IH]; intros r Hl; cbn.
  - f_equal. destruct r. cbn. f_equal. symmetry. by apply list_insert_id.
  - unfold getReg. rewrite Hl. cbn. rewrite IH; cbn.
    + by rewrite list_insert_insert_eq.
    + apply list_lookup_insert_eq. by apply lookup_lt_Some in Hl.
Qed.

(** Leaving PRE class by class: the maps and lists of [cs] are those of the checkpoint, the
    others and every member of the registers are kept. *)
Lemma exit_classes_spec cs s M F :
  length (freeLists (regs s)) = 6%nat → length (renameMaps (regs s)) = 6%nat → NoDup cs →
  classed M → classed F →
  Forall (λ c, isRenameable (mkRegId c 0) = true) cs →
  Forall (λ c, checkpointRenameMap s !! class_index c = M !! class_index c ∧
               checkpointFreeList s !! class_index c = F !! class_index c ∧
               (length <$> (renameMaps (regs s) !! class_index c)) =
               (length <$> (M !! class_index c))) cs →
  ∃ fl ml cm cf, exit_classes cs s =
      Some (s <| regs ::= λ r, r <| freeLists := fl |> <| renameMaps := ml |> |>
              <| checkpointRenameMap := cm |> <| checkpointFreeList := cf |>) ∧
    taken cs M (renameMaps (regs s)) ml ∧ taken cs F (freeLists (regs s)) fl ∧
    taken cs (replicate 6 []) (checkpointRenameMap s) cm ∧
    taken cs (replicate 6 []) (checkpointFreeList s) cf.
Proof.
  revert s. induction cs as [|c cs IH]; intros s Hlf Hlm Hnd HM HF Hr He.
  { exists (freeLists (regs s)), (renameMaps (regs s)), (checkpointRenameMap s),
      (checkpointFreeList s). split; [by destruct s as [[]]|]. split_and!; apply taken_nil. }
  apply NoDup_cons in Hnd as [Hc Hnd]. apply Forall_cons in Hr as [Hr Hrs].
  apply Forall_cons in He as [(He1 & He2 & He3) Hes].
  destruct (class_slot _ c Hlf Hr) as [fl Hfl]. destruct (class_slot _ c Hlm Hr) as [ml Hml].
  destruct (class_slot _ c (proj1 HM) Hr) as [mc Hmc].
  destruct (class_slot _ c (proj1 HF) Hr) as [fc Hfc].
  rewrite Hml, Hmc in He3. rewrite Hmc in He1. rewrite Hfc in He2. injection He3 as He3.
  cbn [exit_classes]. unfold num_arch. rewrite list_lookup_total_alt, Hml. cbn [default].
  change (id ml) with ml.
  rewrite (restore_map_spec c 0 (length ml) s ml mc)
    by (done || exact (classed_slot _ _ _ HM Hmc)). cbn [take drop app mbind option_bind].
  set (s1 := s <| regs ::= _ |>). unfold numFreeRegs.
  change (freeLists (regs s1)) with (freeLists (regs s)).
  rewrite (list_lookup_total_alt (freeLists (regs s))), Hfl. cbn [default].
  change (id fl) with fl. rewrite (drain_free_spec c fl (regs s1)) by done. cbn [mbind option_bind].
  change (checkpointFreeList s1) with (checkpointFreeList s).
  rewrite list_lookup_total_alt, He2. cbn [default]. change (id fc) with fc.
  rewrite (addRegs_class c fc []).
  2:{ cbn. apply list_lookup_insert_eq. by apply lookup_lt_Some in Hfl. }
  2:{ exact (classed_slot _ _ _ HF Hfc). }
  cbn [mbind option_bind app]. set (s2 := s1 <| regs := _ |> <| checkpointRenameMap ::= _ |>
    <| checkpointFreeList ::= _ |>).
  assert (Hne : ∀ d, d ∈ cs → class_index c ≠ class_index d)
    by (intros d Hd ->%class_index_inj; done).
  destruct (IH s2) as (fl' & ml' & cm & cf & E & Tm & Tf & Tcm & Tcf).
  - cbn. by rewrite !length_insert.
  - cbn. by rewrite length_insert.
  - done.
  - done.
  - done.
  - done.
  - apply Forall_forall. intros d Hd. pose proof (proj1 (Forall_forall _ _) Hes d Hd) as H.
    cbn in H |- *. by rewrite !list_lookup_insert_ne by by apply Hne.
  - rewrite E. eexists fl', ml', cm, cf. split; [done|]. cbn in Tm, Tf, Tcm, Tcf.
    rewrite list_insert_insert_eq in Tf.
    assert (replicate 6 [] !! class_index c = Some (@nil RegId)) as Hnil
      by (apply lookup_replicate_2; exact (proj1 (isRenameable_index _) Hr)).
    split_and!; eapply taken_insert; try eassumption; eauto.
Qed.

(** All the classes together: the checkpoint is the array itself. *)
Lemma taken_all ls ck ck' :
  taken renameable_classes ls ck ck' → length ls = 6%nat → length ck = 6%nat → ck' = ls.
Proof.
  intros (Hlen & Hin & _) Hls Hck. apply list_eq. intros k.
  destruct (decide (k < 6)%nat) as [Hk|Hk].
  - destruct (lookup_lt_is_Some_2 renameable_classes k) as [c Hc]; [done|].
    assert (class_index c = k) as <-.
    { do 6 (destruct k as [|k]; [by injection Hc as <-|]). lia. }
    apply Hin. by apply list_elem_of_lookup_2 in Hc.
  - rewrite !lookup_ge_None_2 by lia. done.
Qed.

Lemma renameable_all r : isRenameable r = true → classValue r ∈ renameable_classes.
Proof. unfold isRenameable, renameable_classes. destruct (classValue r); cbn; intros; set_solver. Qed.

Lemma renameable_NoDup : NoDup renameable_classes.
Proof. by apply (bool_decide_unpack _); vm_compute. Qed.

Lemma shaped_length arch ms c m :
  shaped arch ms → isRenameable (mkRegId c 0) = true → ms !! class_index c = Some m →
  length m = arch c.
Proof.
  intros Hs Hc Hm.
  assert (H : ∀ k, is_Some (m !! k) ↔ (k < arch c)%nat).
  { intros k. rewrite <- (Hs (mkRegId c k)) by done. unfold maps_at. cbn. by rewrite Hm. }
  apply Nat.le_antisymm; apply Nat.nlt_ge; intros Hlt.
  - apply (Nat.lt_irrefl (arch c)), H, lookup_lt_is_Some_2. done.
  - apply (Nat.lt_irrefl (length m)), lookup_lt_is_Some, H. done.
Qed.

(** ** The invariant of a session *)

Section Session.
Context (sizes arch : RegClassType → nat) (fixed : RegId → bool) (lent : list RegId) (s0 : Stage).
Context (Hs0 : stage_ok sizes arch fixed lent s0).
Context (Hfixed : ∀ x, isRenameable x = false → fixed x = false).

(** The registers that were free, and those that were mapped, when PRE was entered. *)
Definition F0 : list RegId := free (regs s0).
Definition M0 : list RegId := mapped (regs s0).

(** A register lent to PRE is in one place.  With the PRDQ it is free, mapped or waiting to
    be freed; with early recycling its reference count is exact, and it is free if and only
    if it is neither mapped nor referred to. *)
Definition once (early : bool) (r : Regs) (pend rf : list RegId) (x : RegId) : Prop :=
  if early then
    (occ x (free r) <= 1)%nat ∧
    (occ x (free r) = 1 → occ x (mapped r) = 0 ∧ occ x rf = 0)%nat ∧
    (occ x (free r) = 0%nat →
       numRef (info r x) = Z.of_nat (occ x rf) ∧
       (occ x (mapped r) + Nat.b2n (overwritten (info r x)) = 1)%nat ∧
       (overwritten (info r x) = true → (0 < occ x rf)%nat))
  else (occ x (free r) + occ x (mapped r) + occ x pend <= 1)%nat.

Record pre_regs (early : bool) (r : Regs) (b : list bool) (pend rf : list RegId) : Prop := {
  pr_shape : shape_ok sizes arch fixed r b;
  pr_lent : ∀ x, x ∈ F0 → usableForPRE (info r x) = true;
  pr_kept : ∀ x, x ∈ M0 → usableForPRE (info r x) = false;
  pr_free : ∀ x, x ∈ free r → x ∈ F0;
  pr_map : ∀ x, x ∈ mapped r → x ∈ F0 ∨ x ∈ M0;
  pr_pend : ∀ x, x ∈ pend → x ∈ F0 ∨ usableForPRE (info r x) = false;
  pr_refs : ∀ x, x ∈ rf → x ∈ F0 ∨ usableForPRE (info r x) = false;
  pr_once : ∀ x, x ∈ F0 → once early r pend rf x;
  pr_board : ∀ x, x ∈ all_regs sizes → x ∉ F0 →
    b !! flatIdx (info r x) = scoreboard s0 !! flatIdx (info (regs s0) x)
}.

Lemma F0_regs x : x ∈ F0 → x ∈ all_regs sizes ∧ isRenameable x = true.
Proof.
  intros Hx%occ_elem. assert (x ∈ all_regs sizes) as Hin.
  { apply occ_elem. rewrite <- (ok_part _ _ _ _ _ Hs0 x). unfold F0 in Hx. lia. }
  split; [done|]. by eapply all_regs_renameable.
Qed.

Lemma M0_regs x : x ∈ M0 → x ∈ all_regs sizes ∧ x ∉ F0.
Proof.
  intros Hx%occ_elem. pose proof (ok_part _ _ _ _ _ Hs0 x) as H.
  pose proof (occ_all_le sizes x). unfold M0, F0 in *. split.
  - apply occ_elem. lia.
  - rewrite <- occ_elem. lia.
Qed.

Lemma pre_regs_perm early r b pend pend' rf rf' :
  pend ≡ₚ pend' → rf ≡ₚ rf' → pre_regs early r b pend rf → pre_regs early r b pend' rf'.
Proof.
  intros Hp Hr [? ? ? ? ? Hpe Hre Ho ?]. split; try done.
  - intros x. rewrite <- Hp. apply Hpe.
  - intros x. rewrite <- Hr. apply Hre.
  - intros x Hx. specialize (Ho x Hx). unfold once in *.
    by rewrite <- (occ_proper x _ _ Hp), <- (occ_proper x _ _ Hr).
Qed.

Lemma pre_mapped early r b pend rf x :
  pre_regs early r b pend rf → x ∈ mapped r →
  x ∈ all_regs sizes ∧ (x ∈ F0 ∨ usableForPRE (info r x) = false).
Proof.
  intros H Hx. destruct (pr_map _ _ _ _ _ H x Hx) as [Hf|Hm].
  - split; [by apply F0_regs|by left].
  - split; [by apply M0_regs|right]. by apply (pr_kept _ _ _ _ _ H).
Qed.

(** *** Sources *)

(** A register renamed as a source gets a reference. *)
Definition add_ref (early : bool) (p : RegId) (r : Regs) : Regs :=
  if early then upd p (λ i, i <| numRef ::= λ n, n + 1 |>) r else r.

Lemma add_ref_quiet early p r : quiet r (add_ref early p r).
Proof. unfold add_ref. destruct early; [by apply upd_quiet|done]. Qed.

Lemma pre_add_ref early r b pend rf p :
  pre_regs early r b pend rf → (p ∈ mapped r ∨ isRenameable p = false) →
  pre_regs early (add_ref early p r) b pend (p :: rf).
Proof.
  intros H Hp. pose proof (add_ref_quiet early p r) as Q.
  destruct (quiet_occ _ _ Q) as [Ef Em].
  assert (Hpu : p ∈ F0 ∨ usableForPRE (info r p) = false).
  { destruct Hp as [Hp|Hp]; [exact (proj2 (pre_mapped _ _ _ _ _ _ H Hp))|].
    right. rewrite (s_fixed _ _ _ _ _ (pr_shape _ _ _ _ _ H)) by done. by apply Hfixed. }
  destruct H as [Hs Hl Hk Hf Hm Hpe Hre Ho Hb].
  split; try setoid_rewrite (q_usable _ _ Q); rewrite ?Ef, ?Em; try done.
  - by eapply quiet_shape.
  - intros x [->|Hx]%elem_of_cons; [done|by apply Hre].
  - intros x Hx. specialize (Ho x Hx). unfold once, add_ref in *. destruct early; [|done].
    change (free (upd p _ r)) with (free r). change (mapped (upd p _ r)) with (mapped r).
    rewrite info_upd, occ_cons. destruct (decide (x = p)) as [->|Hne].
    + rewrite one_self. destruct Hp as [Hp%occ_elem|Hp]; [|by destruct (F0_regs p Hx); congruence].
      destruct Ho as (Ho1 & Ho2 & Ho3). split_and!; [done|lia|].
      intros H0. destruct (Ho3 H0) as (Hn & Hom & How). cbn. split_and!; [lia|done|lia].
    + rewrite one_other by congruence. done.
  - intros x Hx. rewrite (q_flat _ _ Q). by apply Hb.
Qed.

Lemma pre_rename_src early i a s pend rf :
  earlyRecycle s = early → pre_regs early (regs s) (scoreboard s) pend rf →
  (isRenameable a = true → (index a < arch (classValue a))%nat) →
  ∃ p ready s', rename_src i a s = Some (p, ready, s') ∧ src_frame s s' ∧
    pre_regs early (regs s') (scoreboard s') pend (p :: rf).
Proof.
  intros <- H Ha. destruct (lookup_total_reg sizes arch fixed _ _ a (pr_shape _ _ _ _ _ H) Ha)
    as (p & Hl & Hr & Hm).
  assert (Hp : p ∈ mapped (regs s) ∨ isRenameable p = false).
  { destruct (isRenameable a); [left; by apply Hm|by right]. }
  pose proof (pre_add_ref _ _ _ _ _ p H Hp) as H'.
  unfold rename_src, flattenRegId. rewrite Hl. cbn [mbind option_bind].
  set (s1 := if r_isInSST i then _ else s). set (s2 := if earlyRecycle s1 then _ else s1).
  assert (regs s2 = add_ref (earlyRecycle s) p (regs s)) as Hreg.
  { subst s1 s2. unfold add_ref. by destruct (r_isInSST i), (earlyRecycle s) eqn:E; cbn; rewrite ?E. }
  assert (F : src_frame s s2).
  { split; [rewrite Hreg; apply add_ref_quiet|..]; subst s1 s2;
      by destruct (r_isInSST i), (earlyRecycle s) eqn:E; cbn; rewrite ?E. }
  rewrite <- Hreg in H'. rewrite <- (sf_board _ _ F) in H' at 1.
  assert (is_Some (sb_getReg (regs s2) (scoreboard s2) p)) as [ready Hready].
  { unfold sb_getReg. destruct (isRenameable p) eqn:E; cbn; [|eauto].
    apply lookup_lt_is_Some_2. eapply flat_lt; [apply H'|].
    destruct Hp as [Hp|Hp]; [exact (proj1 (pre_mapped _ _ _ _ _ _ H Hp))|congruence]. }
  rewrite Hready. cbn. by exists p, ready, s2.
Qed.

Lemma pre_rename_srcs early i srcs s pend rf :
  earlyRecycle s = early → pre_regs early (regs s) (scoreboard s) pend rf →
  (∀ a, a ∈ srcs → isRenameable a = true → (index a < arch (classValue a))%nat) →
  ∃ rs s', rename_srcs i srcs s = Some (rs, s') ∧ src_frame s s' ∧
    pre_regs early (regs s') (scoreboard s') pend (rs.*1 ++ rf).
Proof.
  revert s rf. induction srcs as [|a srcs IH]; intros s rf He H Ha; [by exists [], s|].
  destruct (pre_rename_src early i a s pend rf) as (p & rd & s1 & E1 & F1 & H1);
    [done|done|by apply Ha; left|].
  destruct (IH s1 (p :: rf)) as (rs & s2 & E2 & F2 & H2);
    [by rewrite (sf_early _ _ F1)|done|by intros; apply Ha; [right|]|].
  cbn. rewrite E1. cbn. rewrite E2. cbn. eexists _, s2. split_and!; [done|by etrans|].
  eapply pre_regs_perm; [done| |exact H2]. cbn. by rewrite Permutation_middle.
Qed.
(** *** Destinations *)

(** [r'] differs from [r] in the lists and in the pins and source address of [new]. *)
Record same_refs (r r' : Regs) : Prop := {
  sr_fresh : fresh_info r r';
  sr_num : ∀ x, numRef (info r' x) = numRef (info r x);
  sr_over : ∀ x, overwritten (info r' x) = overwritten (info r x)
}.

(** After renaming [a] from [prev] to [new], before the early recycling: [new] has lost its
    place in the free list. *)
Lemma renamed_frame early r b pend rf a new prev r' :
  pre_regs early r b pend rf → remapped r a new prev r' → same_refs r r' →
  new ∈ F0 ∧ (new ∉ mapped r) ∧ new ≠ prev ∧ prev ∈ mapped r ∧
  shape_ok sizes arch fixed r' b ∧
  (∀ x, x ∈ free r' → x ∈ F0) ∧ (∀ x, x ∈ mapped r' → x ∈ F0 ∨ x ∈ M0).
Proof.
  intros H R S. pose proof (rm_free _ _ _ _ _ R) as Hfree.
  assert (Hnew : (0 < occ new (free r))%nat) by (rewrite Hfree, one_self; lia).
  assert (Hin : new ∈ F0) by by apply (pr_free _ _ _ _ _ H), occ_elem.
  assert (Hun : new ∉ mapped r).
  { intros Hm%occ_elem. pose proof (pr_once _ _ _ _ _ H new Hin) as Ho. unfold once in Ho.
    destruct early; lia. }
  assert (Hprev : prev ∈ mapped r) by (eapply maps_at_mapped, R).
  split_and!; [done|done|congruence|done|..].
  - eapply remapped_shape; [apply H|done|apply S].
  - intros x Hx%occ_elem. apply (pr_free _ _ _ _ _ H), occ_elem. rewrite Hfree. lia.
  - intros x Hx%occ_elem. pose proof (remapped_mapped _ _ _ _ _ x R) as Hm.
    destruct (decide (new = x)) as [<-|Hne]; [by left|].
    apply (pr_map _ _ _ _ _ H), occ_elem. rewrite (one_other x new) in Hm by done. lia.
Qed.

(** With the PRDQ: the previous register waits there. *)
Lemma pre_remapped_prdq r b pend rf a new prev r' :
  pre_regs false r b pend rf → remapped r a new prev r' → same_refs r r' →
  pre_regs false r' b (prev :: pend) (new :: rf).
Proof.
  intros H R S. destruct (renamed_frame _ _ _ _ _ _ _ _ _ H R S)
    as (Hin & Hun & Hne & Hprev & Hs & Hfr & Hmp).
  destruct (sr_fresh _ _ S) as (Hfl & Hus & _).
  split; try setoid_rewrite Hus; try done; try apply H.
  - intros x [->|Hx]%elem_of_cons; [exact (proj2 (pre_mapped _ _ _ _ _ _ H Hprev))|].
    by apply (pr_pend _ _ _ _ _ H).
  - intros x [->|Hx]%elem_of_cons; [by left|by apply (pr_refs _ _ _ _ _ H)].
  - intros x Hx. pose proof (pr_once _ _ _ _ _ H x Hx) as Ho. unfold once in *.
    pose proof (remapped_mapped _ _ _ _ _ x R). pose proof (rm_free _ _ _ _ _ R x).
    rewrite occ_cons. lia.
  - intros x Hx Hxf. rewrite Hfl. by apply (pr_board _ _ _ _ _ H).
Qed.

(** With early recycling: the previous register is freed at once when nobody refers to it. *)
Lemma recycle_quiet new prev r2 r3 :
  (∀ x, info r3 x = info (upd prev (λ p, p <| overwritten := true |>)
           (upd new (λ p, p <| numRef := 1 |> <| overwritten := false |>) r2)) x) →
  ∀ x, flatIdx (info r3 x) = flatIdx (info r2 x) ∧
       usableForPRE (info r3 x) = usableForPRE (info r2 x) ∧
       numRef (info r3 x) = (if decide (x = new) then 1 else numRef (info r2 x)) ∧
       overwritten (info r3 x) = (if decide (x = prev) then true
                                  else if decide (x = new) then false
                                  else overwritten (info r2 x)).
Proof.
  intros H x. rewrite H, !info_upd.
  destruct (decide (x = prev)) as [->|]; [destruct (decide (prev = new)) as [->|]|
    destruct (decide (x = new)) as [->|]]; done.
Qed.

(** [r3] is [r] with [new] allocated, [prev] overwritten, and freed if nobody refers to it. *)
Record recycled (r : Regs) (rf : list RegId) (new prev : RegId) (r3 : Regs) : Prop := {
  rc_flat : ∀ x, flatIdx (info r3 x) = flatIdx (info r x);
  rc_usable : ∀ x, usableForPRE (info r3 x) = usableForPRE (info r x);
  rc_mapped : ∀ x, (occ x (mapped r3) + one x prev = occ x (mapped r) + one x new)%nat;
  rc_free : ∀ x, x ∈ F0 → (occ x (free r3) + one x new =
    occ x (free r) + if decide (occ prev rf = 0) then one x prev else 0)%nat;
  rc_num : ∀ x, x ∈ F0 → numRef (info r3 x) = if decide (x = new) then 1 else numRef (info r x);
  rc_over : ∀ x, x ∈ F0 → overwritten (info r3 x) =
    if decide (x = prev) then true else if decide (x = new) then false else overwritten (info r x);
  rc_lent : ∀ x, x ∈ free r3 → x ∈ F0
}.

Lemma once_recycled r rf new prev r3 pend pend' x :
  recycled r rf new prev r3 → once true r pend rf x → x ∈ F0 → new ≠ prev →
  (new ∉ mapped r) → prev ∈ mapped r → (occ new (free r) = 1)%nat →
  once true r3 pend' (new :: rf) x.
Proof.
  intros R (Hx1 & Hx2 & Hx3) Hx Hne Hun%occ_zero Hprev%occ_elem Hn.
  unfold once. rewrite (rc_num _ _ _ _ _ R), (rc_over _ _ _ _ _ R), occ_cons by done.
  pose proof (rc_mapped _ _ _ _ _ R x) as Hm. pose proof (rc_free _ _ _ _ _ R x Hx) as Hf.
  destruct (decide (x = prev)) as [->|Hxp].
  - rewrite one_self, (one_other prev new) in * by done.
    rewrite (decide_False (P := prev = new)) by congruence.
    destruct (decide (occ prev rf = 0%nat)); cbn [Nat.b2n]; split_and!; try lia;
      intros; split_and!; lia || intros; lia.
  - rewrite (one_other x prev) in * by done.
    assert (occ x (mapped r3) = occ x (mapped r) + one x new)%nat as -> by lia.
    assert (occ x (free r3) + one x new = occ x (free r))%nat as Hf' by (destruct (decide _); lia).
    destruct (decide (x = new)) as [->|Hxn].
    + rewrite one_self in *. cbn [Nat.b2n]. rewrite Hn in Hx2. destruct Hx2 as [_ Hr]; [done|].
      split_and!; [lia|lia|intros; split_and!; [lia|lia|done]].
    + rewrite (one_other x new) in * by done. rewrite !Nat.add_0_r in *. rewrite Hf'. done.
Qed.

Lemma pre_recycled r b pend rf a new prev r' r3 :
  pre_regs true r b pend rf → remapped r a new prev r' → same_refs r r' →
  shape_ok sizes arch fixed r3 b → recycled r rf new prev r3 →
  pre_regs true r3 b (prev :: pend) (new :: rf).
Proof.
  intros H R S Hs3 C.
  destruct (renamed_frame _ _ _ _ _ _ _ _ _ H R S) as (Hin & Hun & Hne & Hprev & _ & _ & Hmp).
  pose proof (rm_free _ _ _ _ _ R new) as Hn. rewrite one_self in Hn.
  pose proof (pr_once _ _ _ _ _ H new Hin) as (Hn1 & _).
  split; try setoid_rewrite (rc_usable _ _ _ _ _ C); try done; try apply H.
  - apply (rc_lent _ _ _ _ _ C).
  - intros x Hx. apply Hmp, occ_elem. apply occ_elem in Hx.
    pose proof (rc_mapped _ _ _ _ _ C x). pose proof (remapped_mapped _ _ _ _ _ x R). lia.
  - intros x [->|Hx]%elem_of_cons; [exact (proj2 (pre_mapped _ _ _ _ _ _ H Hprev))|].
    by apply (pr_pend _ _ _ _ _ H).
  - intros x [->|Hx]%elem_of_cons; [by left|by apply (pr_refs _ _ _ _ _ H)].
  - intros x Hx. eapply once_recycled; [done|by apply (pr_once _ _ _ _ _ H)|done..|lia].
  - intros x Hx Hxf. rewrite (rc_flat _ _ _ _ _ C). by apply (pr_board _ _ _ _ _ H).
Qed.

(** Freeing a register or not. *)
Lemma free_if (cond : bool) p r b :
  shape_ok sizes arch fixed r b → isRenameable p = true →
  ∃ r', (if cond then addReg p r else Some r) = Some r' ∧ shape_ok sizes arch fixed r' b ∧
    mapped r' = mapped r ∧ (∀ x, info r' x = info r x) ∧
    (∀ x, occ x (free r') = (occ x (free r) + if cond then one x p else 0)%nat) ∧
    ∀ c, (numFreeRegs c r <= numFreeRegs c r')%nat.
Proof.
  intros Hs Hp. destruct cond; [|exists r; split_and!; done || (intros; lia)].
  destruct (addReg_total p r) as [r' E]; [apply Hs|done|].
  destruct (addReg_shape _ _ _ _ _ _ _ Hs E) as (Hs' & _ & Hm & Hi).
  exists r'. split_and!; [done|done|done|done|intros x; by rewrite (addReg_occ _ _ _ x E)|].
  intros c. destruct (addReg_Some _ _ _ E) as (l & Hl & ->). unfold numFreeRegs. cbn.
  rewrite !list_lookup_total_alt.
  destruct (decide (class_index c = class_index (classValue p))) as [->|Hc].
  - rewrite list_lookup_insert_eq by (by apply lookup_lt_Some in Hl).
    cbn in Hl. rewrite Hl. cbn. rewrite length_app. lia.
  - rewrite list_lookup_insert_ne by congruence. done.
Qed.

Lemma pre_remapped_early r b pend rf a new prev r' :
  pre_regs true r b pend rf → remapped r a new prev r' → same_refs r r' →
  ∃ r3, recycle_prev new prev r' = Some r3 ∧
    pre_regs true r3 b (prev :: pend) (new :: rf) ∧
    (∀ c, numFreeRegs c r' <= numFreeRegs c r3)%nat.
Proof.
  intros H R S. destruct (renamed_frame _ _ _ _ _ _ _ _ _ H R S)
    as (Hin & Hun & Hne & Hprev & Hs & Hfr & Hmp).
  destruct (sr_fresh _ _ S) as (Hfl & Hus & _).
  destruct (pre_mapped _ _ _ _ _ _ H Hprev) as [Hpreg Hpf].
  unfold recycle_prev. set (r1 := upd new _ r').
  assert (Q1 : quiet r' r1) by by apply upd_quiet.
  rewrite (q_usable _ _ Q1), Hus. destruct (usableForPRE (info r prev)) eqn:Hup.
  - destruct Hpf as [Hpf|]; [|done]. set (r2 := upd prev _ r1).
    pose proof (recycle_quiet new prev r' r2 (λ _, eq_refl)) as HQ.
    assert (Q2 : quiet r' r2) by (etrans; [exact Q1|by apply upd_quiet]).
    pose proof (pr_once _ _ _ _ _ H prev Hpf) as (Ho1 & Ho2 & Ho3).
    assert (Hpm : (0 < occ prev (mapped r))%nat) by by apply occ_elem.
    destruct Ho3 as (Hn & _); [lia|].
    destruct (HQ prev) as (_ & _ & -> & _). rewrite decide_False, (sr_num _ _ S), Hn by congruence.
    destruct (free_if (Z.of_nat (occ prev rf) =? 0) prev r2 b) as (r3 & E & Hs3 & Hm3 & Hi3 & Hf3 & Hc3);
      [by eapply quiet_shape|by apply F0_regs|].
    exists r3. split_and!; [done| |exact Hc3]. eapply pre_recycled; [done..|].
    change (mapped r2) with (mapped r') in Hm3. change (free r2) with (free r') in Hf3.
    pose proof (rm_free _ _ _ _ _ R) as Hff.
    split; intros x; rewrite ?Hi3; destruct (HQ x) as (Q4 & Q5 & Q6 & Q7).
    + by rewrite Q4.
    + by rewrite Q5.
    + rewrite Hm3. apply (remapped_mapped _ _ _ _ _ x R).
    + intros _. rewrite Hf3, Hff. destruct (Z.eqb_spec (Z.of_nat (occ prev rf)) 0), (decide (occ prev rf = 0%nat)); lia.
    + intros _. by rewrite Q6, (sr_num _ _ S).
    + intros _. by rewrite Q7, (sr_over _ _ S).
    + intros Hx%occ_elem. rewrite Hf3 in Hx. destruct (decide (prev = x)) as [<-|]; [done|].
      apply Hfr, occ_elem. rewrite one_other in Hx by done. destruct (_ =? _); lia.
  - exists r1. split_and!; [done| |done]. eapply pre_recycled; [done..|by eapply quiet_shape|].
    assert (Hx : ∀ x, x ∈ F0 → x ≠ prev).
    { intros x Hx ->. pose proof (pr_lent _ _ _ _ _ H prev Hx). congruence. }
    split; intros x; try (intros HF; specialize (Hx x HF)); unfold r1; rewrite ?info_upd,
      <- ?(sr_num _ _ S x), <- ?(sr_over _ _ S x), <- ?Hus, <- ?Hfl;
      try (by destruct (decide (x = new)) as [->|]).
    + apply (remapped_mapped _ _ _ _ _ x R).
    + pose proof (rm_free _ _ _ _ _ R x). change (free (upd _ _ r')) with (free r').
      rewrite (one_other x prev) by done. destruct (decide (occ prev rf = _)); lia.
    + rewrite (decide_False (P := x = prev)) by done. by destruct (decide (x = new)).
    + exact (Hfr x).
Qed.
(** A register with a fixed mapping is not affected. *)
Lemma pre_fixed early r b pend rf p f :
  pre_regs early r b pend rf → isRenameable p = false → quiet r (upd p f r) →
  pre_regs early (upd p f r) b (p :: pend) (p :: rf).
Proof.
  intros H Hp Q.
  assert (Hu : usableForPRE (info r p) = false).
  { rewrite (s_fixed _ _ _ _ _ (pr_shape _ _ _ _ _ H)) by done. by apply Hfixed. }
  assert (Hne : ∀ x, x ∈ F0 → x ≠ p) by (intros x Hx ->; destruct (F0_regs p Hx); congruence).
  split; try setoid_rewrite (q_usable _ _ Q); try apply H.
  - eapply quiet_shape; [done|apply H].
  - intros x [->|Hx]%elem_of_cons; [by right|by apply (pr_pend _ _ _ _ _ H)].
  - intros x [->|Hx]%elem_of_cons; [by right|by apply (pr_refs _ _ _ _ _ H)].
  - intros x Hx. pose proof (pr_once _ _ _ _ _ H x Hx) as Ho. unfold once in *.
    change (free (upd p f r)) with (free r). change (mapped (upd p f r)) with (mapped r).
    specialize (Hne x Hx). rewrite !occ_cons, one_other by congruence.
    by rewrite info_upd, decide_False.
  - intros x Hx Hxf. rewrite (q_flat _ _ Q). by apply (pr_board _ _ _ _ _ H).
Qed.

(** Marking a lent register busy does not touch the others' bits. *)
Lemma pre_board_write early r b pend rf p v :
  pre_regs early r b pend rf → p ∈ F0 →
  pre_regs early r (<[flatIdx (info r p) := v]> b) pend rf.
Proof.
  intros H Hp. split; try apply H.
  - eapply shape_board; [apply length_insert|apply H].
  - intros x Hx Hxf. rewrite list_lookup_insert_ne; [by apply (pr_board _ _ _ _ _ H)|].
    intros Heq. apply Hxf. rewrite <- (flat_inj sizes b r p x); [done|apply H| |done|done].
    by apply F0_regs.
Qed.

(** What renaming one destination does in PRE. *)
Record pre_dest (early : bool) (a : RegId) (pend rf : list RegId) (new prev : RegId)
    (s s' : Stage) : Prop := {
  pd_regs : pre_regs early (regs s') (scoreboard s') (prev :: pend) (new :: rf);
  pd_count : ∀ c, (class_index c < 6)%nat →
    (numFreeRegs c (regs s)
     <= numFreeRegs c (regs s') + if decide (classValue a = c) then 1 else 0)%nat;
  pd_rest : s' = s <| regs := regs s' |> <| scoreboard := scoreboard s' |>
}.

Lemma pre_rename_dest_fresh early i a s pend rf :
  inPRE s = true → earlyRecycle s = early →
  pre_regs early (regs s) (scoreboard s) pend rf → isRenameable a = true →
  (index a < arch (classValue a))%nat → (0 < numFreeRegs (classValue a) (regs s))%nat →
  ∃ new prev s', rename_dest i a 0 s = Some (new, prev, s') ∧
    pre_dest early a pend rf new prev s s'.
Proof.
  intros Hm He H Hr Ha Hn.
  destruct (proj2 (s_shape _ _ _ _ _ (pr_shape _ _ _ _ _ H) a Hr) Ha) as [prev Hprev].
  destruct (rename_fresh a prev (regs s)) as (new & r1 & E & R & Hi); [apply H|apply H|done..|].
  unfold rename_dest, flattenRegId. rewrite E. cbn [mbind option_bind]. rewrite Hm, He.
  cbn [andb]. set (r2 := upd new _ r1).
  assert (S : same_refs (regs s) r2).
  { assert (HI : ∀ x, flatIdx (info r2 x) = flatIdx (info (regs s) x) ∧
      usableForPRE (info r2 x) = usableForPRE (info (regs s) x) ∧
      numRef (info r2 x) = numRef (info (regs s) x) ∧
      overwritten (info r2 x) = overwritten (info (regs s) x) ∧
      (numPinnedWrites (info (regs s) x) = 0 → numPinnedWrites (info r2 x) = 0)).
    { intros x. unfold r2. rewrite info_upd, !Hi, (decide_True (P := new = new)) by done.
      by destruct (decide (x = new)) as [->|]. }
    split; [split_and!|..]; intros x; try apply HI. intros y. by apply HI. }
  assert (R2 : remapped (regs s) a new prev r2) by (destruct R; by split).
  destruct (renamed_frame _ _ _ _ _ _ _ _ _ H R2 S) as (Hin & _).
  assert (∃ r3, (if early then recycle_prev new prev r2 else Some r2) = Some r3 ∧
    pre_regs early r3 (scoreboard s) (prev :: pend) (new :: rf) ∧
    ∀ c, (numFreeRegs c r2 <= numFreeRegs c r3)%nat) as (r3 & E3 & H3 & Hc3).
  { destruct early; [by eapply pre_remapped_early|].
    exists r2. split_and!; [done| |done]. by eapply pre_remapped_prdq. }
  rewrite E3. cbn. destruct (unset_total sizes r3 (scoreboard s) new) as (b & Hb & Hlen);
    [apply H3|by apply F0_regs|].
  assert (b = <[flatIdx (info r3 new) := false]> (scoreboard s)) as Hbe.
  { unfold sb_unsetReg, sb_write in Hb. rewrite (proj2 (F0_regs new Hin)) in Hb.
    cbn in Hb. case_match; by simplify_eq. }
  rewrite Hb. cbn. rewrite Hm. eexists new, prev, _. split; [done|]. split; cbn.
  - rewrite Hbe. by apply pre_board_write.
  - intros c _. rewrite (rm_count _ _ _ _ _ R2 c). specialize (Hc3 c).
    destruct (decide (c = classValue a)) as [->|]; [rewrite decide_True by done|]; lia.
  - by rewrite Hm.
Qed.

Lemma pre_rename_dest_fixed early i a s pend rf :
  inPRE s = true → earlyRecycle s = early →
  pre_regs early (regs s) (scoreboard s) pend rf → isRenameable a = false →
  ∃ new prev s', rename_dest i a 0 s = Some (new, prev, s') ∧
    pre_dest early a pend rf new prev s s'.
Proof.
  intros Hm He H Hr. destruct (rename_fixed a (regs s) Hr) as (p & E & Hp).
  unfold rename_dest, flattenRegId. rewrite E. cbn [mbind option_bind]. rewrite Hm, He.
  cbn [andb]. set (r1 := upd p _ (regs s)).
  assert (Q1 : quiet (regs s) r1) by by apply upd_quiet.
  assert (∃ f, (if early then recycle_prev p p r1 else Some r1) = Some (upd p f (regs s)) ∧
    quiet (regs s) (upd p f (regs s))) as (f & E2 & Q2).
  { assert (Hu : usableForPRE (info (regs s) p) = false).
    { rewrite (s_fixed _ _ _ _ _ (pr_shape _ _ _ _ _ H)) by done. by apply Hfixed. }
    destruct early; [|by eexists]. unfold recycle_prev. rewrite info_upd, decide_True by done.
    cbn. rewrite (q_usable _ _ Q1), Hu. unfold r1. rewrite upd_upd. eexists.
    split; [done|]. by apply upd_quiet. }
  rewrite E2. cbn. unfold sb_unsetReg, sb_write. rewrite Hp. cbn. rewrite Hm.
  eexists p, p, _. split; [done|]. split; cbn; [by apply pre_fixed| |by rewrite Hm].
  intros c _. change (numFreeRegs c (upd p f (regs s))) with (numFreeRegs c (regs s)). lia.
Qed.

Lemma pre_rename_dest early i a s pend rf :
  inPRE s = true → earlyRecycle s = early →
  pre_regs early (regs s) (scoreboard s) pend rf →
  (isRenameable a = true → (index a < arch (classValue a))%nat) →
  (isRenameable a = true → (0 < numFreeRegs (classValue a) (regs s))%nat) →
  ∃ new prev s', rename_dest i a 0 s = Some (new, prev, s') ∧
    pre_dest early a pend rf new prev s s'.
Proof.
  intros. destruct (isRenameable a) eqn:E;
    [apply pre_rename_dest_fresh|apply pre_rename_dest_fixed]; auto.
Qed.

Lemma pre_rename_dests early i dests s pend rf :
  inPRE s = true → earlyRecycle s = early →
  pre_regs early (regs s) (scoreboard s) pend rf →
  (∀ d p, (d, p) ∈ dests →
     p = 0 ∧ (isRenameable d = true → (index d < arch (classValue d))%nat)) →
  (∀ c, (class_index c < 6)%nat →
     (length (filter (λ d : RegId * Z, classValue d.1 = c) dests)
      <= numFreeRegs c (regs s))%nat) →
  ∃ rs s', rename_dests i dests s = Some (rs, s') ∧
    pre_regs early (regs s') (scoreboard s') (rs.*2 ++ pend) (rs.*1 ++ rf) ∧
    s' = s <| regs := regs s' |> <| scoreboard := scoreboard s' |>.
Proof.
  revert s pend rf. induction dests as [|[a p] dests IH]; intros s pend rf Hm He H Hd Hc.
  { exists [], s. split_and!; [done|done|by destruct s]. }
  destruct (Hd a p) as [-> Ha]; [by left|].
  destruct (pre_rename_dest early i a s pend rf Hm He H Ha) as (new & prev & s1 & E1 & D).
  { intros Hr%isRenameable_index. specialize (Hc _ Hr). rewrite filter_cons in Hc.
    cbn in Hc. rewrite decide_True in Hc by done. cbn in Hc. lia. }
  destruct (IH s1 (prev :: pend) (new :: rf)) as (rs & s2 & E2 & H2 & Hs2).
  - by rewrite (pd_rest _ _ _ _ _ _ _ _ D).
  - by rewrite (pd_rest _ _ _ _ _ _ _ _ D).
  - apply D.
  - intros. by apply Hd; right.
  - intros c Hi. specialize (Hc c Hi). pose proof (pd_count _ _ _ _ _ _ _ _ D c Hi) as Hn.
    rewrite filter_cons in Hc. cbn in Hc. destruct (decide (classValue a = c)); cbn in Hc; lia.
  - cbn. rewrite E1. cbn. rewrite E2. cbn. eexists _, s2. split_and!; [done| |].
    + eapply pre_regs_perm; [| |exact H2]; cbn; by rewrite Permutation_middle.
    + rewrite Hs2, (pd_rest _ _ _ _ _ _ _ _ D). done.
Qed.
(** *** Deallocation and completion *)

(** Forgetting registers that wait, or references with the PRDQ, keeps the invariant. *)
Lemma pre_fewer_pend early r b pend pend' rf :
  pre_regs early r b (pend ++ pend') rf → pre_regs early r b pend rf.
Proof.
  intros [? ? ? ? ? Hpe ? Ho ?]. split; try done.
  - intros x Hx. apply Hpe, elem_of_app. by left.
  - intros x Hx. specialize (Ho x Hx). unfold once in *. rewrite occ_app in Ho.
    destruct early; [done|lia].
Qed.

Lemma pre_fewer_refs r b pend rs rf :
  pre_regs false r b pend (rs ++ rf) → pre_regs false r b pend rf.
Proof.
  intros [? ? ? ? ? ? Hre ? ?]. split; try done.
  intros x Hx. apply Hre, elem_of_app. by right.
Qed.

(** Freeing a lent register that waits. *)
Lemma pre_free_one r b pend rf p :
  pre_regs false r b (p :: pend) rf → usableForPRE (info r p) = true →
  ∃ r', addReg p r = Some r' ∧ pre_regs false r' b pend rf.
Proof.
  intros H Hu. assert (p ∈ F0) as Hp.
  { destruct (pr_pend _ _ _ _ _ H p) as [|]; [by left|done|congruence]. }
  destruct (addReg_total p r) as [r' E]; [apply (pr_shape _ _ _ _ _ H)|by apply F0_regs|].
  destruct (addReg_shape _ _ _ _ _ _ _ (pr_shape _ _ _ _ _ H) E) as (Hs & _ & Hm & Hi).
  exists r'. split; [done|]. split; try setoid_rewrite Hi; rewrite ?Hm; try done; try apply H.
  - intros x Hx%occ_elem. rewrite (addReg_occ _ _ _ x E) in Hx.
    destruct (decide (p = x)) as [<-|Hne]; [done|].
    apply (pr_free _ _ _ _ _ H), occ_elem. rewrite one_other in Hx by done. lia.
  - intros x Hx. apply (pr_pend _ _ _ _ _ H). by right.
  - intros x Hx. pose proof (pr_once _ _ _ _ _ H x Hx) as Ho. unfold once in *.
    rewrite occ_cons in Ho. rewrite (addReg_occ _ _ _ x E), Hm. lia.
Qed.

Lemma pre_free_prev early prevs r b pend rf :
  pre_regs early r b (prevs ++ pend) rf →
  ∃ r', free_prev prevs early r = Some r' ∧ pre_regs early r' b pend rf.
Proof.
  revert r. induction prevs as [|p prevs IH]; intros r H; [by exists r|]. cbn in H |- *.
  destruct (usableForPRE (info r p) && negb early) eqn:E.
  - apply andb_prop in E as [Hu He]. apply negb_true_iff in He as ->.
    destruct (pre_free_one _ _ _ _ _ H Hu) as (r' & -> & H'). cbn. by apply IH.
  - cbn. apply IH. by eapply (pre_fewer_pend _ _ _ _ [p]), pre_regs_perm;
      [apply (Permutation_app_comm [p])| |].
Qed.

(** Dropping one reference of an instruction that completes, with early recycling. *)
Lemma pre_drop_one r b pend p rf :
  pre_regs true r b pend (p :: rf) → usableForPRE (info r p) = true →
  let r1 := upd p (λ i, i <| numRef ::= λ n, n - 1 |>) r in
  0 <= numRef (info r1 p) ∧
  ∃ r', (if (numRef (info r1 p) =? 0) && overwritten (info r1 p) then addReg p r1
         else Some r1) = Some r' ∧ pre_regs true r' b pend rf.
Proof.
  intros H Hu r1. assert (p ∈ F0) as Hp.
  { destruct (pr_refs _ _ _ _ _ H p) as [|]; [by left|done|congruence]. }
  pose proof (pr_once _ _ _ _ _ H p Hp) as (Ho1 & Ho2 & Ho3).
  rewrite occ_cons, one_self in Ho2, Ho3.
  assert (occ p (free r) = 0%nat) as Hfree by lia. destruct (Ho3 Hfree) as (Hn & Hov & _).
  assert (Q : quiet r r1) by by apply upd_quiet.
  assert (Hnum : ∀ x, numRef (info r1 x) =
      if decide (x = p) then Z.of_nat (occ p rf) else numRef (info r x)).
  { intros x. unfold r1. rewrite info_upd. destruct (decide (x = p)) as [->|]; cbn; [lia|done]. }
  assert (Hover : ∀ x, overwritten (info r1 x) = overwritten (info r x)).
  { intros x. unfold r1. rewrite info_upd. by destruct (decide (x = p)) as [->|]. }
  rewrite Hnum, Hover, decide_True by done. split; [lia|].
  destruct (quiet_occ _ _ Q) as [Ef Em].
  pose proof (quiet_shape _ _ _ _ _ _ Q (pr_shape _ _ _ _ _ H)) as Hs1.
  set (freed := (Z.of_nat (occ p rf) =? 0) && overwritten (info r p)).
  destruct (free_if freed p r1 b Hs1) as (r' & E & Hs' & Hm' & Hi' & Hf' & _);
    [by apply F0_regs|]. rewrite Em in Hm'. rewrite Ef in Hf'.
  exists r'. split; [done|].
  split; try setoid_rewrite Hi'; try setoid_rewrite (q_usable _ _ Q); rewrite ?Hm'; try done;
    try apply H.
  - intros x Hx%occ_elem. rewrite Hf' in Hx. destruct (decide (p = x)) as [<-|Hne]; [done|].
    apply (pr_free _ _ _ _ _ H), occ_elem. rewrite one_other in Hx by done.
    destruct freed; lia.
  - intros x Hx. apply (pr_refs _ _ _ _ _ H). by right.
  - intros x Hx. pose proof (pr_once _ _ _ _ _ H x Hx) as (Hx1 & Hx2 & Hx3).
    unfold once. rewrite Hi', Hnum, Hover, Hf', Hm'. rewrite occ_cons in Hx2, Hx3.
    destruct (decide (x = p)) as [->|Hxp].
    + rewrite one_self in *. unfold freed.
      destruct (Z.eqb_spec (Z.of_nat (occ p rf)) 0), (overwritten (info r p)) eqn:Eo; cbn in *;
        (split_and!; [lia|lia|]); intros; try lia; (split_and!; [done|lia|intros; lia || done]).
    + rewrite one_other in * by congruence. destruct freed; rewrite ?Nat.add_0_r in *; done.
  - intros x Hx Hxf. rewrite (q_flat _ _ Q). by apply (pr_board _ _ _ _ _ H).
Qed.

Lemma pre_drop_refs rs r b pend rf :
  pre_regs true r b pend (rs ++ rf) →
  ∃ r', drop_refs rs r = Some r' ∧ pre_regs true r' b pend rf.
Proof.
  revert r. induction rs as [|p rs IH]; intros r H; [by exists r|]. cbn [drop_refs] in *.
  destruct (usableForPRE (info r p)) eqn:Hu.
  - destruct (pre_drop_one _ _ _ _ _ H Hu) as (Hn & r' & E & H').
    apply Z.ltb_ge in Hn. rewrite Hn, E. cbn. by apply IH.
  - cbn. apply IH. destruct H as [? Hl ? ? ? ? Hre Ho ?]. split; try done.
    + intros x Hx. apply Hre. by right.
    + intros x Hx. specialize (Ho x Hx). unfold once in *. cbn [app] in Ho.
      rewrite occ_cons, one_other in Ho; [done|]. intros ->. by rewrite Hl in Hu.
Qed.

(** *** The stage *)

(** In PRE: the registers are in order, and nothing else has changed since PRE was entered.
    [n] is older than every instruction renamed in PRE. *)
Record pre_ok (n : Z) (s : Stage) (flight : list RInst) : Prop := {
  po_regs : pre_regs (earlyRecycle s0) (regs s) (scoreboard s) (pending (prdq s)) (refs flight);
  po_mode : inPRE s = true;
  po_early : earlyRecycle s = earlyRecycle s0;
  po_hist : historyBuffer s = historyBuffer s0;
  po_cmap : checkpointRenameMap s = renameMaps (regs s0);
  po_cfree : checkpointFreeList s = freeLists (regs s0);
  po_pre : ∀ i, i ∈ flight → r_isPRE i = true;
  po_young : Forall (λ i, n < r_seqNum i) (prdq s)
}.

Definition event_ok (n : Z) (ev : Event) : Prop :=
  match ev with
  | PRename i => inst_ok arch i ∧ n < r_seqNum i
  | PSquash k => n <= k
  | _ => True
  end.

Lemma pending_app q q' : pending (q ++ q') = pending q ++ pending q'.
Proof. apply bind_app. Qed.

Lemma pre_rename n i s flight :
  pre_ok n s flight → inst_ok arch i → n < r_seqNum i →
  ∃ s' flight', pre_step (PRename i) (s, flight) = Some (s', flight') ∧ pre_ok n s' flight'.
Proof.
  intros P [Hsrc Hdst Hcnt] Hn. cbn. unfold rename_inst.
  destruct (canRename (r_numDestRegs i) (regs s)) eqn:Hcan; cbn; [|by exists s, flight].
  destruct (pre_rename_srcs (earlyRecycle s0) i (r_srcs i) s _ _ (po_early _ _ _ P)
    (po_regs _ _ _ P) Hsrc) as (rs & s1 & E1 & F1 & H1).
  unfold rename_body, renameSrcRegs. rewrite E1. cbn [mbind option_bind]. unfold renameDestRegs.
  set (i1 := i <| r_renamedSrc := rs |>). change (r_dests i1) with (r_dests i).
  destruct (pre_rename_dests (earlyRecycle s0) i1 (r_dests i) s1 (pending (prdq s))
    (rs.*1 ++ refs flight)) as (ds & s2 & E2 & H2 & Hs2).
  - by rewrite (sf_mode _ _ F1), (po_mode _ _ _ P).
  - by rewrite (sf_early _ _ F1), (po_early _ _ _ P).
  - done.
  - done.
  - intros c Hc. etrans; [by apply Hcnt|]. unfold numFreeRegs.
    rewrite (q_free _ _ (sf_quiet _ _ F1)). by apply canRename_count.
  - rewrite E2. cbn [mbind option_bind].
    assert (inPRE s2 = true) as Hm2 by (rewrite Hs2; cbn; by rewrite (sf_mode _ _ F1), (po_mode _ _ _ P)).
    rewrite Hm2. eexists _, _. split; [done|].
    assert (prdq s2 = prdq s) as Hq by (rewrite Hs2; cbn; apply (sf_prdq _ _ F1)).
    split; cbn.
    + cbn. rewrite Hq, pending_app. eapply pre_regs_perm; [| |exact H2]; cbn.
      * rewrite app_nil_r. apply Permutation_app_comm.
      * unfold inst_refs. cbn. rewrite app_assoc. apply Permutation_app; [|done].
        apply Permutation_app_comm.
    + done.
    + cbn. rewrite Hs2. cbn. by rewrite (sf_early _ _ F1), (po_early _ _ _ P).
    + cbn. rewrite Hs2. cbn. by rewrite (sf_hist _ _ F1), (po_hist _ _ _ P).
    + cbn. rewrite Hs2. cbn. by rewrite (sf_cmap _ _ F1), (po_cmap _ _ _ P).
    + cbn. rewrite Hs2. cbn. by rewrite (sf_cfree _ _ F1), (po_cfree _ _ _ P).
    + intros j [->|Hj]%elem_of_cons; [done|by apply (po_pre _ _ _ P)].
    + cbn. rewrite Hq. apply Forall_app. split; [apply P|]. by constructor.
Qed.

Lemma pre_dealloc n num s flight :
  pre_ok n s flight →
  ∃ s', dealloc num s = Some s' ∧ pre_ok n s' flight.
Proof.
  intros P. unfold dealloc. rewrite (po_mode _ _ _ P). revert s P.
  induction num as [|num IH]; intros s P; [by exists s|]. cbn.
  destruct (prdq s) as [|i q] eqn:Hq; [by exists s|].
  destruct (r_canCommit i); cbn; [|by exists s].
  pose proof (po_regs _ _ _ P) as H. rewrite Hq in H.
  destruct (pre_free_prev (earlyRecycle s0) (r_prevDest i) _ _ (pending q) _ H) as (r' & E & H').
  rewrite (po_early _ _ _ P), E. cbn. apply IH. destruct P as [? ? ? ? ? ? ? Hy].
  rewrite Hq in Hy. apply Forall_cons in Hy as [_ Hy]. by split.
Qed.

Lemma pending_can_commit i q : pending (set_can_commit i q) = pending q.
Proof.
  induction q as [|j q IH]; [done|]. cbn. f_equal; [|exact IH]. by case_match.
Qed.

Lemma pre_complete n k s flight :
  pre_ok n s flight →
  ∃ s' flight', pre_step (PComplete k) (s, flight) = Some (s', flight') ∧ pre_ok n s' flight'.
Proof.
  intros P. cbn. destruct (flight !! k) as [i|] eqn:Hk; [|by exists s, flight].
  assert (refs flight ≡ₚ inst_refs i ++ refs (delete k flight)) as Hperm.
  { change (refs flight ≡ₚ refs (i :: delete k flight)). unfold refs.
    apply bind_Permutation. by apply delete_Permutation. }
  pose proof (pre_regs_perm _ _ _ _ _ _ _ (reflexivity _) Hperm (po_regs _ _ _ P)) as H.
  unfold complete. rewrite (po_mode _ _ _ P), (po_pre _ _ _ P i)
    by (by apply list_elem_of_lookup_2 in Hk).
  cbn [negb orb]. cbn. rewrite (po_early _ _ _ P).
  assert (Hy : Forall (λ i, n < r_seqNum i) (set_can_commit i (prdq s))).
  { apply Forall_fmap. eapply Forall_impl; [apply P|]. cbn. intros j Hj. by case_match. }
  assert (Hd : ∀ j, j ∈ delete k flight → r_isPRE j = true).
  { intros j Hj. apply (po_pre _ _ _ P). rewrite (delete_Permutation _ k i Hk).
    by right. }
  destruct (earlyRecycle s0) eqn:He; cbn.
  - unfold inst_refs in H. rewrite <- app_assoc in H.
    destruct (pre_drop_refs _ _ _ _ _ H) as (r1 & E1 & H1). rewrite E1. cbn.
    destruct (pre_drop_refs _ _ _ _ _ H1) as (r2 & E2 & H2). rewrite E2. cbn.
    eexists _, _. split; [done|]. destruct P.
    split; cbn; rewrite ?pending_can_commit, ?He; done.
  - apply pre_fewer_refs in H. eexists _, _. split; [done|]. destruct P.
    split; cbn; rewrite ?pending_can_commit, ?He; done.
Qed.

Lemma pop_younger_suffix k q : ∃ p, q = p ++ pop_younger k q.
Proof.
  induction q as [|i q [p IH]]; [by exists []|]. cbn.
  destruct (k <? r_seqNum i); [exists (i :: p); cbn; by f_equal|by exists []].
Qed.

Lemma undo_old k h r : Forall (λ e, instSeqNum e <= k) h → undo k h r = Some (h, r).
Proof.
  intros Hf. destruct Hf as [|e h He _]; [done|]. cbn.
  destruct (Z.ltb_spec k (instSeqNum e)); [lia|done].
Qed.

Lemma pre_squash n k s flight :
  pre_ok n s flight → Forall (λ e, instSeqNum e <= n) (historyBuffer s0) → n <= k →
  ∃ s', doSquash k s = Some s' ∧ pre_ok n s' flight.
Proof.
  intros P Hh Hk. unfold doSquash. rewrite undo_old.
  2:{ rewrite (po_hist _ _ _ P). eapply Forall_impl; [done|]. cbn. intros. lia. }
  cbn. eexists. split; [done|].
  destruct (pop_younger_suffix k (rev (prdq s))) as [p Hp].
  apply (f_equal (@rev RInst)) in Hp. rewrite rev_involutive, rev_app_distr in Hp.
  destruct P as [H ? ? ? ? ? ? Hy]. split; try done; cbn.
  - rewrite Hp, pending_app in H. by eapply pre_fewer_pend.
  - rewrite Hp in Hy. by apply Forall_app in Hy as [Hy _].
Qed.

Lemma pre_run_ok n evs s flight :
  pre_ok n s flight → Forall (λ e, instSeqNum e <= n) (historyBuffer s0) →
  Forall (event_ok n) evs →
  ∃ s' flight', pre_run evs (s, flight) = Some (s', flight') ∧ pre_ok n s' flight'.
Proof.
  intros P Hh. revert s flight P. induction evs as [|ev evs IH]; intros s flight P Hev.
  { by exists s, flight. }
  apply Forall_cons in Hev as [Hev Hevs].
  assert (∃ s' flight', pre_step ev (s, flight) = Some (s', flight') ∧ pre_ok n s' flight')
    as (s1 & f1 & E1 & P1).
  { destruct ev as [i|w|k|k].
    - destruct Hev. by apply pre_rename.
    - destruct (pre_dealloc n w s flight P) as (s1 & E1 & P1). exists s1, flight.
      cbn. by rewrite E1.
    - by apply pre_complete.
    - destruct (pre_squash n k s flight P Hh Hev) as (s1 & E1 & P1). exists s1, flight.
      cbn. by rewrite E1. }
  cbn [pre_run]. rewrite E1. cbn. by apply IH.
Qed.
End Session.

(** ** Whole sessions *)

(** No session under way and nothing left of the last one. *)
Record idle (s : Stage) : Prop := {
  id_prdq : prdq s = [];
  id_cmap : checkpointRenameMap s = replicate 6 [];
  id_cfree : checkpointFreeList s = replicate 6 []
}.

(** The states of a core from power-on: normal operation, interrupted by PRE sessions that
    end with a squash of every instruction renamed in them. *)
Inductive life (garbage : RegId → PhysInfo) (sizes arch : RegClassType → nat)
    (entries : nat) (early : bool) : Stage → Prop :=
| life_create s : create garbage sizes arch entries early = Some s →
    life garbage sizes arch entries early s
| life_op s op s' : life garbage sizes arch entries early s → op_ok arch op →
    step op s = Some s' → life garbage sizes arch entries early s'
| life_session s n evs s1 s2 flight s3 s4 : life garbage sizes arch entries early s →
    Forall (λ e, instSeqNum e <= n) (historyBuffer s) → Forall (event_ok arch n) evs →
    enterPRE s = Some s1 → pre_run evs (s1, []) = Some (s2, flight) →
    exitPRE s2 = Some s3 → doSquash n s3 = Some s4 →
    life garbage sizes arch entries early s4.

Section Whole.
Context (sizes arch : RegClassType → nat) (fixed : RegId → bool) (lent : list RegId) (s0 : Stage).
Context (Hs0 : stage_ok sizes arch fixed lent s0).
Context (Hfixed : ∀ x, isRenameable x = false → fixed x = false).
Context (Hidle : idle s0).

Lemma other_class x : isRenameable x = false → classValue x ∉ renameable_classes.
Proof.
  unfold isRenameable. intros Hx. apply (bool_decide_unpack _).
  by destruct (classValue x).
Qed.

Lemma enter_regs g :
  freeLists g = freeLists (regs s0) → renameMaps g = renameMaps (regs s0) →
  (∀ x, marked renameable_classes (regs s0) g x) →
  pre_regs sizes arch fixed s0 (earlyRecycle s0) g (scoreboard s0) [] [].
Proof.
  intros Hf Hm Hx. pose proof (ok_shape _ _ _ _ _ Hs0) as [S1 S2 S3 [S4 S5] S6 S7].
  split.
  - split; rewrite ?Hf, ?Hm; try done.
    + split; [done|]. intros k x Hk. rewrite (mk_flat _ _ _ _ (Hx x)). by apply S5.
    + intros x. rewrite (mk_pins _ _ _ _ (Hx x)). apply S6.
    + intros x Hr. rewrite (mk_other _ _ _ _ (Hx x)) by by apply other_class. by apply S7.
  - intros x Hin. apply (mk_free _ _ _ _ (Hx x)); [|done].
    apply renameable_all. by eapply F0_regs.
  - intros x Hin. destruct (M0_regs _ _ _ _ _ Hs0 x Hin) as [Hall Hnf].
    apply (mk_mapped _ _ _ _ (Hx x)); [|done|done].
    apply renameable_all. by eapply all_regs_renameable.
  - intros x. unfold free. by rewrite Hf.
  - intros x. unfold mapped. rewrite Hm. by right.
  - by intros x ?%elem_of_nil.
  - by intros x ?%elem_of_nil.
  - intros x Hin%occ_elem. pose proof (ok_part _ _ _ _ _ Hs0 x) as Hp.
    pose proof (occ_all_le sizes x). unfold F0 in Hin.
    assert (free g = free (regs s0)) as Hfree by (unfold free; by rewrite Hf).
    assert (mapped g = mapped (regs s0)) as Hmapped by (unfold mapped; by rewrite Hm).
    unfold once. rewrite Hfree, Hmapped, occ_nil. destruct (earlyRecycle s0); [|lia].
    split_and!; [lia|lia|intros; lia].
  - intros x Hall Hnf. by rewrite (mk_flat _ _ _ _ (Hx x)).
Qed.

Lemma enter_ok n :
  ∃ s, enterPRE s0 = Some s ∧ pre_ok sizes arch fixed s0 n s [].
Proof.
  pose proof (ok_shape _ _ _ _ _ Hs0) as Hs. unfold enterPRE.
  destruct (enter_classes_spec renameable_classes s0) as (g & cm & cf & E & Hf & Hm & Tm & Tf & Hx).
  - apply Hs.
  - apply Hs.
  - apply renameable_NoDup.
  - by repeat constructor.
  - rewrite (id_cmap _ Hidle), (id_cfree _ Hidle). by repeat constructor.
  - rewrite E. cbn. eexists. split; [done|].
    apply taken_all in Tm; [|apply (s_maps _ _ _ _ _ Hs)|by rewrite (id_cmap _ Hidle)].
    apply taken_all in Tf; [|apply (s_free _ _ _ _ _ Hs)|by rewrite (id_cfree _ Hidle)].
    split; cbn; try done; rewrite ?(id_prdq _ Hidle).
    + by apply enter_regs.
    + by intros i ?%elem_of_nil.
    + constructor.
Qed.

(** What leaving PRE establishes. *)
Record left_pre (s s' : Stage) : Prop := {
  lp_ok : stage_ok sizes arch fixed lent s';
  lp_free : freeLists (regs s') = freeLists (regs s0);
  lp_maps : renameMaps (regs s') = renameMaps (regs s0);
  lp_hist : historyBuffer s' = historyBuffer s0;
  lp_early : earlyRecycle s' = earlyRecycle s0;
  lp_ready : ∀ x, x ∈ all_regs sizes → (x ∉ free (regs s0)) →
    sb_getReg (regs s') (scoreboard s') x = sb_getReg (regs s0) (scoreboard s0) x;
  lp_prdq : prdq s' = prdq s;
  lp_cmap : checkpointRenameMap s' = replicate 6 [];
  lp_cfree : checkpointFreeList s' = replicate 6 []
}.

Lemma exit_ok n s flight :
  pre_ok sizes arch fixed s0 n s flight → ∃ s', exitPRE s = Some s' ∧ left_pre s s'.
Proof.
  intros P. pose proof (ok_shape _ _ _ _ _ Hs0) as Z.
  pose proof (po_regs _ _ _ _ _ _ _ P) as R. pose proof (pr_shape _ _ _ _ _ _ _ _ _ R) as S.
  unfold exitPRE.
  destruct (exit_classes_spec renameable_classes s (renameMaps (regs s0)) (freeLists (regs s0)))
    as (fl & ml & cm & cf & E & Tm & Tf & Tcm & Tcf).
  - apply (s_free _ _ _ _ _ S).
  - apply (s_maps _ _ _ _ _ S).
  - apply renameable_NoDup.
  - apply Z.
  - apply Z.
  - by repeat constructor.
  - rewrite (po_cmap _ _ _ _ _ _ _ P), (po_cfree _ _ _ _ _ _ _ P).
    apply Forall_forall. intros c Hc. split_and!; [done|done|].
    assert (Hr : isRenameable (mkRegId c 0) = true).
    { clear -Hc. unfold renameable_classes in Hc.
      repeat (apply elem_of_cons in Hc as [->|Hc]; [done|]). by apply elem_of_nil in Hc. }
    destruct (class_slot _ c (proj1 (s_maps _ _ _ _ _ S)) Hr) as [m Hm].
    destruct (class_slot _ c (proj1 (s_maps _ _ _ _ _ Z)) Hr) as [m0 Hm0].
    rewrite Hm, Hm0. cbn. f_equal.
    by rewrite (shaped_length arch _ c m (s_shape _ _ _ _ _ S)),
      (shaped_length arch _ c m0 (s_shape _ _ _ _ _ Z)).
  - rewrite E. cbn. eexists. split; [done|].
    apply taken_all in Tm as ->; [|apply (s_maps _ _ _ _ _ Z)|apply (s_maps _ _ _ _ _ S)].
    apply taken_all in Tf as ->; [|apply (s_free _ _ _ _ _ Z)|apply (s_free _ _ _ _ _ S)].
    apply taken_all in Tcm as ->; [|done|rewrite (po_cmap _ _ _ _ _ _ _ P); apply (s_maps _ _ _ _ _ Z)].
    apply taken_all in Tcf as ->; [|done|rewrite (po_cfree _ _ _ _ _ _ _ P); apply (s_free _ _ _ _ _ Z)].
    pose proof (po_hist _ _ _ _ _ _ _ P) as Hh.
    split; cbn; try done; [|by rewrite (po_early _ _ _ _ _ _ _ P)|].
    + destruct Z as [Z1 Z2 Z3 Z4 Z5 Z6], S as [S1 S2 S3 S4 S5 S6].
      split; cbn; [by split| | |done]; rewrite Hh; [exact (ok_part _ _ _ _ _ Hs0)|].
      exact (ok_log _ _ _ _ _ Hs0).
    + intros x Hall Hnf. unfold sb_getReg. rewrite (all_regs_renameable sizes) by done. cbn.
      exact (pr_board _ _ _ _ _ _ _ _ _ R x Hall Hnf).
Qed.

(** A whole session. *)
Lemma session_ok n evs :
  Forall (λ e, instSeqNum e <= n) (historyBuffer s0) → Forall (event_ok arch n) evs →
  ∃ s1 s2 flight s3 s4, enterPRE s0 = Some s1 ∧ pre_run evs (s1, []) = Some (s2, flight) ∧
    pre_ok sizes arch fixed s0 n s2 flight ∧ exitPRE s2 = Some s3 ∧ left_pre s2 s3 ∧
    doSquash n s3 = Some s4 ∧ s4 = s3 <| prdq := [] |>.
Proof.
  intros Hh Hev. destruct (enter_ok n) as (s1 & E1 & P1).
  destruct (pre_run_ok _ _ _ _ _ Hs0 Hfixed n evs s1 [] P1 Hh Hev) as (s2 & flight & E2 & P2).
  destruct (exit_ok n s2 flight P2) as (s3 & E3 & L). exists s1, s2, flight, s3.
  unfold doSquash. rewrite undo_old by (by rewrite (lp_hist _ _ L)). cbn. eexists.
  do 6 (split; [done|]).
  assert (rev (pop_younger n (rev (prdq s3))) = []) as ->; [|by destruct s3].
  rewrite (lp_prdq _ _ L). pose proof (po_young _ _ _ _ _ _ _ P2) as Hy. apply Forall_rev in Hy.
  induction Hy as [|i q Hi _ IH]; [done|]. cbn. apply Z.ltb_lt in Hi as ->. exact IH.
Qed.
End Whole.

(** *** Between the sessions *)

(** Normal operation leaves the PRE state alone. *)
Record still (s s' : Stage) : Prop := {
  st_mode : inPRE s' = inPRE s;
  st_early : earlyRecycle s' = earlyRecycle s;
  st_prdq : prdq s' = prdq s;
  st_cmap : checkpointRenameMap s' = checkpointRenameMap s;
  st_cfree : checkpointFreeList s' = checkpointFreeList s
}.

#[export] Instance still_preorder : PreOrder still.
Proof. split; [by intros s|]. intros s1 s2 s3 [] []. split; congruence. Qed.

Lemma rename_src_still i a s p rd s' : rename_src i a s = Some (p, rd, s') → still s s'.
Proof.
  unfold rename_src. destruct (lookup _ _); cbn [mbind option_bind]; [|done].
  destruct (sb_getReg _ _ _); cbn [mbind option_bind]; [|done]. intros [= _ _ <-].
  destruct (r_isInSST i), (earlyRecycle s) eqn:E; split; cbn; by rewrite ?E.
Qed.

Lemma rename_srcs_still i srcs s rs s' : rename_srcs i srcs s = Some (rs, s') → still s s'.
Proof.
  revert s rs. induction srcs as [|a srcs IH]; intros s rs H; cbn in H; [by simplify_eq|].
  destruct (rename_src i a s) as [[[p rd] s1]|] eqn:E1; [|done]. cbn in H.
  destruct (rename_srcs i srcs s1) as [[rs1 s2]|] eqn:E2; [|done]. simplify_eq/=.
  etrans; [by eapply rename_src_still|by eapply IH].
Qed.

Lemma rename_dest_still i a p s new prev s' :
  rename_dest i a p s = Some (new, prev, s') → still s s'.
Proof.
  unfold rename_dest. intros H.
  repeat match type of H with
  | mbind (M := option) _ ?e = Some _ => destruct e as [[[? ?] ?]|]; [|done]; cbn in H
  | mbind (M := option) _ ?e = Some _ => destruct e as [?|]; [|done]; cbn in H
  end.
  simplify_eq. by destruct (inPRE s) eqn:E; split; cbn; rewrite ?E.
Qed.

Lemma rename_dests_still i dests s rs s' : rename_dests i dests s = Some (rs, s') → still s s'.
Proof.
  revert s rs. induction dests as [|[a p] dests IH]; intros s rs H; cbn in H; [by simplify_eq|].
  destruct (rename_dest i a p s) as [[[new prev] s1]|] eqn:E1; [|done]. cbn in H.
  destruct (rename_dests i dests s1) as [[rs1 s2]|] eqn:E2; [|done]. simplify_eq/=.
  etrans; [by eapply rename_dest_still|by eapply IH].
Qed.

Lemma rename_inst_still i s out s' : inPRE s = false → rename_inst i s = (out, s') → still s s'.
Proof.
  unfold rename_inst, rename_body, renameSrcRegs, renameDestRegs. intros Hm H.
  destruct (canRename _ _); cbn in H; [|by simplify_eq].
  destruct (rename_srcs i (r_srcs i) s) as [[rs s1]|] eqn:E1; cbn in H; [|by simplify_eq].
  match type of H with context [rename_dests ?j ?l s1] =>
    destruct (rename_dests j l s1) as [[ds s2]|] eqn:E2 end; cbn in H;
    [|by simplify_eq].
  assert (still s s2) as S
    by (etrans; [by eapply rename_srcs_still|by eapply rename_dests_still]).
  rewrite (st_mode _ _ S), Hm in H. by simplify_eq.
Qed.

Lemma still_idle s s' : still s s' → idle s → idle s'.
Proof. intros [] []. split; congruence. Qed.

Lemma step_idle op s s' :
  inPRE s = false → idle s → step op s = Some s' → idle s' ∧ earlyRecycle s' = earlyRecycle s.
Proof.
  intros Hm Hi. destruct op as [i|n|n]; cbn.
  - destruct (rename_inst i s) as [out s1] eqn:E. pose proof (rename_inst_still _ _ _ _ Hm E) as S.
    destruct out; intros; simplify_eq; (split; [by eapply still_idle|apply S]).
  - unfold doSquash. destruct (undo _ _ _) as [[h r]|]; [|done]. intros [= <-].
    split; [|done]. destruct Hi as [Hq ? ?]. by split; cbn; rewrite ?Hq.
  - unfold removeFromHistory. destruct (retire _ _ _) as [[h r]|]; [|done]. intros [= <-].
    split; [|done]. by destruct Hi.
Qed.

Section Life.
Context (garbage : RegId → PhysInfo) (sizes arch : RegClassType → nat) (entries : nat).
Context (early : bool).
Context (Harch : ∀ c, (arch c <= sizes c)%nat).
(** The members that [PhysRegId]'s constructor leaves out hold [false] in the registers of
    no renameable class. *)
Context (Hgarbage : ∀ x, isRenameable x = false →
  usableForPRE (default PhysInfo_init (PhysRegFile garbage sizes !! x)) = false).

Lemma life_ok s :
  life garbage sizes arch entries early s →
  stage_ok sizes arch (λ _, false) [] s ∧ idle s ∧ earlyRecycle s = early.
Proof.
  induction 1 as [s E|s op s' _ (Hs & Hi & He) Ho E
                 |s n evs s1 s2 flight s3 s4 _ (Hs & Hi & He) Hh Hev E1 E2 E3 E4].
  - destruct (stage_create_ok sizes arch (λ _, false) garbage entries early Harch Hgarbage)
      as (s1 & E1 & Hs1 & _ & Hq & He & Hcm & Hcf).
    rewrite E in E1. simplify_eq. by split_and!.
  - destruct (stage_step_ok _ _ _ _ op s Hs Ho) as (s1 & E1 & Hs1). rewrite E in E1. simplify_eq.
    destruct (step_idle op s s1 (ok_mode _ _ _ _ _ Hs) Hi E) as [Hi1 He1].
    split_and!; [done|done|congruence].
  - destruct (session_ok sizes arch _ _ s Hs (λ _ _, eq_refl) Hi n evs Hh Hev)
      as (t1 & t2 & fl & t3 & t4 & F1 & F2 & P & F3 & L & F4 & ->).
    simplify_eq.
    destruct L as [[? ? ? ?] ? ? ? ? ? ? ? ?]. by split_and!.
Qed.
End Life.

(** ** Properties *)

Section Properties.
  Context (garbage : RegId → PhysInfo) (sizes arch : RegClassType → nat) (entries : nat).
  Context (early : bool) (Harch : ∀ c, (arch c <= sizes c)%nat).
  Context (Hgarbage : ∀ x, classValue x = MiscRegClass → usableForPRE (garbage x) = false).
  Context (s : Stage) (Hlife : life garbage sizes arch entries early s).
  Context (n : Z) (Hold : Forall (λ e, instSeqNum e <= n) (historyBuffer s)).
  Context (evs : list Event) (Hevs : Forall (event_ok arch n) evs).

(** C9: Precise runahead is precise.  Assume that no class has more architectural than physical registers
    and that the usableForPRE flag of miscellaneous registers, which the code never initialises,
    happens to read as false (where it reads as true, an assertion can fail).  From any state a core
    then reaches, earlier sessions included, entering PRE, then renaming, completing, deallocating and
    squashing any instructions younger than those in flight (on registers that exist), in any order, leaving PRE and squashing
    what it renamed meets no failing assertion, and gives back the rename map, the free lists in their
    order, the history and the readiness of every register that is in use. *)
Theorem pre_transparent :
  ∃ s1 s2 flight s3 s4, enterPRE s = Some s1 ∧ pre_run evs (s1, []) = Some (s2, flight) ∧
    exitPRE s2 = Some s3 ∧ doSquash n s3 = Some s4 ∧
    renameMaps (regs s4) = renameMaps (regs s) ∧ freeLists (regs s4) = freeLists (regs s) ∧
    historyBuffer s4 = historyBuffer s ∧ prdq s4 = [] ∧
    ∀ x, x ∈ all_regs sizes → (x ∉ free (regs s)) →
      sb_getReg (regs s4) (scoreboard s4) x = sb_getReg (regs s) (scoreboard s) x.
Proof.
  destruct (life_ok _ _ _ _ _ Harch (PhysRegFile_fixed _ _ Hgarbage) s Hlife) as (Hs & Hi & _).
  destruct (session_ok sizes arch _ _ s Hs (λ _ _, eq_refl) Hi n evs Hold Hevs)
    as (s1 & s2 & fl & s3 & s4 & E1 & E2 & _ & E3 & L & E4 & ->).
  exists s1, s2, fl, s3, (s3 <| prdq := [] |>). destruct L. by split_and!.
Qed.

(** C10: PRE never shares a register.  At any point of a session, the free list holds no
    register twice and only registers that were free at its start; a free register is neither
    mapped nor logged by an instruction of normal mode, nor waiting in the PRDQ when registers
    are recycled there, nor, with early recycling, the source or destination of a PRE
    instruction that has not completed. *)
Theorem pre_never_aliases s1 s2 flight :
  enterPRE s = Some s1 → pre_run evs (s1, []) = Some (s2, flight) →
  NoDup (free (regs s2)) ∧
  ∀ x, x ∈ free (regs s2) →
    x ∈ free (regs s) ∧ (x ∉ mapped (regs s2)) ∧ (x ∉ mapped (regs s)) ∧
    (x ∉ logged (historyBuffer s)) ∧
    (early = false → x ∉ pending (prdq s2)) ∧ (early = true → x ∉ refs flight).
Proof.
  intros E1 E2.
  destruct (life_ok _ _ _ _ _ Harch (PhysRegFile_fixed _ _ Hgarbage) s Hlife) as (Hs & Hi & He).
  destruct (session_ok sizes arch _ _ s Hs (λ _ _, eq_refl) Hi n evs Hold Hevs)
    as (t1 & t2 & fl & t3 & t4 & F1 & F2 & P & _). simplify_eq.
  pose proof (po_regs _ _ _ _ _ _ _ P) as R. split.
  - apply occ_NoDup. intros x. destruct (decide (x ∈ free (regs s2))) as [Hx|Hx%occ_zero]; [|lia].
    pose proof (pr_once _ _ _ _ _ _ _ _ _ R x (pr_free _ _ _ _ _ _ _ _ _ R x Hx)) as Ho.
    unfold once in Ho. destruct (earlyRecycle s); lia.
  - intros x Hx. pose proof (pr_free _ _ _ _ _ _ _ _ _ R x Hx) as Hf. split; [done|].
    pose proof (pr_once _ _ _ _ _ _ _ _ _ R x Hf) as Ho. unfold once in Ho.
    apply occ_elem in Hx, Hf. unfold F0 in Hf.
    pose proof (ok_part _ _ _ _ _ Hs x) as Hp. pose proof (occ_all_le sizes x).
    destruct (earlyRecycle s); split_and!; intros; try done; apply occ_zero; lia.
Qed.

End Properties.

(** ** Witnesses *)

Lemma mv_event n seq : n < seq → event_ok (few 2) n (PRename (mv seq)).
Proof. intros H. split; [apply mv_ok|done]. Qed.

Lemma pre_transparent_witness :
  ∃ s s1 s2 flight s3 s4,
    create (λ _, PhysInfo_init) (few 4) (few 2) 2 true = Some s ∧
    enterPRE s = Some s1 ∧
    pre_run [PRename (mv 7); PRename (mv 8); PComplete 0; PDealloc 4; PSquash 7; PComplete 0]
      (s1, []) = Some (s2, flight) ∧
    exitPRE s2 = Some s3 ∧ doSquash 5 s3 = Some s4 ∧
    renameMaps (regs s4) = renameMaps (regs s) ∧ freeLists (regs s4) = freeLists (regs s).
Proof.
  destruct (create (λ _, PhysInfo_init) (few 4) (few 2) 2 true) as [s|] eqn:E;
    [|by vm_compute in E].
  destruct (pre_transparent (λ _, PhysInfo_init) (few 4) (few 2) 2 true
    (λ c, few_le 2 4 c ltac:(lia)) (λ _ _, eq_refl) s (life_create _ _ _ _ _ _ E) 5
    ltac:(vm_compute in E; injection E as <-; constructor)
    [PRename (mv 7); PRename (mv 8); PComplete 0; PDealloc 4; PSquash 7; PComplete 0]
    ltac:(each ltac:(first [apply mv_event; lia|cbn; lia|exact I])))
    as (s1 & s2 & fl & s3 & s4 & H1 & H2 & H3 & H4 & H5 & H6 & _).
  by exists s, s1, s2, fl, s3, s4.
Defined.

Lemma pre_never_aliases_witness :
  ∃ s s1 s2 flight,
    create (λ _, PhysInfo_init) (few 4) (few 2) 2 true = Some s ∧
    enterPRE s = Some s1 ∧
    pre_run [PRename (mv 7); PRename (mv 8); PComplete 1] (s1, []) = Some (s2, flight) ∧
    free (regs s2) = [mkRegId IntRegClass 2] ∧ NoDup (free (regs s2)).
Proof.
  destruct (create (λ _, PhysInfo_init) (few 4) (few 2) 2 true) as [s|] eqn:E;
    [|by vm_compute in E].
  destruct (enterPRE s) as [s1|] eqn:E1;
    [|by vm_compute in E; injection E as <-; vm_compute in E1].
  destruct (pre_run [PRename (mv 7); PRename (mv 8); PComplete 1] (s1, [])) as [[s2 fl]|] eqn:E2;
    [|by vm_compute in E; injection E as <-; vm_compute in E1; injection E1 as <-;
        vm_compute in E2].
  exists s, s1, s2, fl. split_and!; [done|done|done| |].
  - vm_compute in E. injection E as <-. vm_compute in E1. injection E1 as <-.
    vm_compute in E2. by injection E2 as <- _.
  - refine (proj1 (pre_never_aliases (λ _, PhysInfo_init) (few 4) (few 2) 2 true
      (λ c, few_le 2 4 c ltac:(lia)) (λ _ _, eq_refl) s (life_create _ _ _ _ _ _ E) 5 _ _ _
      s1 s2 fl E1 E2)).
    + vm_compute in E. injection E as <-. constructor.
    + each ltac:(first [apply mv_event; lia|cbn; lia|exact I]).
Defined.

End Runahead.
