(* ===== verification/HelperRegs.v ===== *)
(** * The helper's vector register file

    Model of [DVRHelperVectorRegisterFile] (src/cpu/o3/cpu.hh): the register file of one DVR
    helper program, with 32 architectural registers of 128 lanes mapped lane by lane (VRAT)
    onto 256 scalar and 128 vector physical registers, reference-counted by the vector copies
    in flight.  In shared mode a physical register also borrows registers of the main core's
    file through its free list, which is RegAlloc.v's.  An [int16_t] name is [Some p], -1 is
    [None]. *)

From S2P Require Import Prelude Inst RegAlloc.

Module HelperRegs.

Definition MaxLanes : nat := 128.
Definition LanesPerVectorCopy : nat := 8.
Definition VectorCopies : nat := 16.
Definition NumArchitecturalRegs : nat := 32.
Definition NumScalarPhysicalRegs : nat := 256.
Definition NumVectorPhysicalRegs : nat := 128.
Definition NumPhysicalRegs : nat := 384.
#[global] Arguments MaxLanes : simpl never.
#[global] Arguments LanesPerVectorCopy : simpl never.
#[global] Arguments VectorCopies : simpl never.
#[global] Arguments NumArchitecturalRegs : simpl never.
#[global] Arguments NumScalarPhysicalRegs : simpl never.
#[global] Arguments NumVectorPhysicalRegs : simpl never.
#[global] Arguments NumPhysicalRegs : simpl never.

(** ** State *)

(** [struct PhysicalRegister]; [isVector] is its member [vector], [inUse] its [allocated]. *)
Record PhysicalRegister := mkPhysical {
  values : list Z;  ready : list Z;  valid : LaneMask;
  sharedId : option RegId;  sharedIds : list (option RegId);
  users : nat;  pendingRelease : bool;  deferredToTemplateEnd : bool;
  isVector : bool;  inUse : bool
}.

#[export] Instance eta_PhysicalRegister : Eta PhysicalRegister := λ r,
  mkPhysical (values r) (ready r) (valid r) (sharedId r) (sharedIds r) (users r)
    (pendingRelease r) (deferredToTemplateEnd r) (isVector r) (inUse r).

Definition PhysicalRegister_init : PhysicalRegister :=
  mkPhysical (replicate MaxLanes 0) (replicate MaxLanes 0) mask_empty None
    (replicate LanesPerVectorCopy None) 0 false false false false.

#[export] Instance PhysicalRegister_inhabited : Inhabited PhysicalRegister :=
  populate PhysicalRegister_init.

(** [struct Mapping]; [bundle] is its member [vector]. *)
Record Mapping := mkMapping {
  scalar : option nat;  bundle : list (option nat);  vectorized : bool;
  lanePhysical : list (option nat);  laneElement : list nat;  laneVectorized : list bool
}.

#[export] Instance eta_Mapping : Eta Mapping := λ r,
  mkMapping (scalar r) (bundle r) (vectorized r) (lanePhysical r) (laneElement r)
    (laneVectorized r).

Definition Mapping_init : Mapping :=
  mkMapping None (replicate VectorCopies None) false (replicate MaxLanes None)
    (replicate MaxLanes 0%nat) (replicate MaxLanes false).

#[export] Instance Mapping_inhabited : Inhabited Mapping := populate Mapping_init.

(** [usesShared] is [usesSharedPhysicalBank]; [frees] and [o3file] are the objects of the
    main core that the two pointers reach: its free list and the values of its registers. *)
Record Bank := mkBank {
  vrat : list Mapping;  physical : list PhysicalRegister;  allocated : list bool;
  usesShared : bool;  frees : RegAlloc.Regs;  o3file : gmap RegId Z
}.

#[export] Instance eta_Bank : Eta Bank := λ r,
  mkBank (vrat r) (physical r) (allocated r) (usesShared r) (frees r) (o3file r).

(** A new object, after [configureSharedPhysicalBank] where [shared]. *)
Definition create (shared : bool) (core : RegAlloc.Regs) (file : gmap RegId Z) : Bank :=
  mkBank (replicate NumArchitecturalRegs Mapping_init)
    (replicate NumPhysicalRegs PhysicalRegister_init) (replicate NumPhysicalRegs false)
    shared core file.

Definition lane_vectorized (lane : nat) (m : Mapping) : bool := laneVectorized m !!! lane.
Definition is_allocated (p : nat) (s : Bank) : bool := allocated s !!! p.
Definition entry (p : nat) (s : Bank) : PhysicalRegister := physical s !!! p.
Definition set_entry (p : nat) (f : PhysicalRegister → PhysicalRegister) (s : Bank) : Bank :=
  s <| physical ::= λ l, <[p := f (l !!! p)]> l |>.
Definition mapping (a : nat) (s : Bank) : Mapping := vrat s !!! a.
Definition set_mapping (a : nat) (f : Mapping → Mapping) (s : Bank) : Bank :=
  s <| vrat ::= λ l, <[a := f (l !!! a)]> l |>.

(** ** Returning physical names *)

(** [if (shared_id) sharedFreeList->addReg(shared_id)], and over an array *)
Definition give (id : option RegId) (s : Bank) : option Bank :=
  match id with
  | Some r => g ← RegAlloc.addReg r (frees s); Some (s <| frees := g |>)
  | None => Some s
  end.

Fixpoint give_all (ids : list (option RegId)) (s : Bank) : option Bank :=
  match ids with
  | [] => Some s
  | id :: ids => s ← give id s; give_all ids s
  end.

(** [allocated[phys] = false; entry = PhysicalRegister()] after the shared names are back. *)
Definition free_entry (p : nat) (s : Bank) : option Bank :=
  s ← (if usesShared s then give_all (sharedId (entry p s) :: sharedIds (entry p s)) s
       else Some s);
  Some ((set_entry p (λ _, PhysicalRegister_init) s) <| allocated ::= <[p := false]> |>).

Fixpoint release_all (ps : list nat) (s : Bank) : option Bank :=
  match ps with
  | [] => Some s
  | p :: ps =>
      s ← (if is_allocated p s then free_entry p s else Some s);
      release_all ps s
  end.

(** [releaseAll] *)
Definition releaseAll (s : Bank) : option Bank := release_all (seq 0 NumPhysicalRegs) s.

(** ** Lane values *)

(** A name in range that is allocated. *)
Definition live (phys : option nat) (s : Bank) : option nat :=
  match phys with
  | Some p => if (p <? NumPhysicalRegs)%nat && is_allocated p s then Some p else None
  | None => None
  end.

(** The register of the main core that holds a lane of an entry. *)
Definition shared_slot (e : PhysicalRegister) (lane : nat) (s : Bank) : option RegId :=
  if usesShared s && isVector e then sharedIds e !!! (lane mod LanesPerVectorCopy)%nat else None.

(** [readPhysical] *)
Definition readPhysical (phys : option nat) (lane : nat) (s : Bank) : Z :=
  match live phys s with
  | Some p =>
      if (MaxLanes <=? lane)%nat then 0
      else match shared_slot (entry p s) lane s with
           | Some r => default 0 (o3file s !! r)
           | None => values (entry p s) !!! lane
           end
  | None => 0
  end.

(** [writePhysical] *)
Definition writePhysical (phys : option nat) (lane : nat) (value : Z) (s : Bank) : Bank :=
  match live phys s with
  | Some p =>
      if (MaxLanes <=? lane)%nat then s
      else
        let s := match shared_slot (entry p s) lane s with
                 | Some r => s <| o3file ::= <[r := value]> |>
                 | None => s
                 end in
        set_entry p (λ e, e <| values ::= <[lane := value]> |>) s
  | None => s
  end.

(** ** Allocation *)

(** [allocateScalar] *)
Definition allocateScalar (s : Bank) : option (option nat * Bank) :=
  match find_from 0 NumScalarPhysicalRegs (λ p, negb (is_allocated p s)) with
  | None => Some (None, s)
  | Some p =>
      '(id, s) ← (if usesShared s && (0 <? RegAlloc.numFreeRegs IntRegClass (frees s))%nat
                  then '(r, g) ← RegAlloc.getReg IntRegClass (frees s);
                       Some (Some r, s <| frees := g |>)
                  else Some (None, s));
      Some (Some p, (set_entry p (λ e, e <| inUse := true |> <| isVector := false |>
                                         <| sharedId := id |>) s)
                      <| allocated ::= <[p := true]> |>)
  end.

(** The element loop of [allocateVectorBundle]: it stops when the list is empty. *)
Fixpoint take_elements (n : nat) (s : Bank) : option (bool * list (option RegId) * Bank) :=
  match n with
  | O => Some (true, [], s)
  | S n =>
      if (RegAlloc.numFreeRegs VecElemClass (frees s) =? 0)%nat
      then Some (false, replicate (S n) None, s)
      else
        '(r, g) ← RegAlloc.getReg VecElemClass (frees s);
        '(enough, ids, s) ← take_elements n (s <| frees := g |>);
        Some (enough, Some r :: ids, s)
  end.

Definition element_ids (s : Bank) : option (list (option RegId) * Bank) :=
  if usesShared s then
    '(enough, ids, s) ← take_elements LanesPerVectorCopy s;
    if (enough : bool) then Some (ids, s)
    else s ← give_all ids s; Some (replicate LanesPerVectorCopy None, s)
  else Some (replicate LanesPerVectorCopy None, s).

Definition claim_vector (p : nat) (ids : list (option RegId)) (s : Bank) : Bank :=
  (set_entry p (λ e, e <| inUse := true |> <| isVector := true |> <| sharedIds := ids |>) s)
    <| allocated ::= <[p := true]> |>.

Fixpoint bundle_loop (ps found : list nat) (s : Bank) : option (list nat * Bank) :=
  match ps with
  | [] => Some (found, s)
  | p :: ps =>
      if (VectorCopies <=? length found)%nat then Some (found, s)
      else if is_allocated p s then bundle_loop ps found s
      else '(ids, s) ← element_ids s; bundle_loop ps (found ++ [p]) (claim_vector p ids s)
  end.

(** Giving up an incomplete bundle. *)
Fixpoint rollback (found : list nat) (s : Bank) : option Bank :=
  match found with
  | [] => Some s
  | p :: found =>
      s ← (if usesShared s then give_all (sharedIds (entry p s)) s else Some s);
      rollback found
        ((set_entry p (λ _, PhysicalRegister_init) s) <| allocated ::= <[p := false]> |>)
  end.

(** [allocateVectorBundle]; an array filled with -1 is [None]. *)
Definition allocateVectorBundle (s : Bank) : option (option (list nat) * Bank) :=
  '(found, s) ← bundle_loop (seq NumScalarPhysicalRegs NumVectorPhysicalRegs) [] s;
  if (length found =? VectorCopies)%nat then Some (Some found, s)
  else s ← rollback found s; Some (None, s).

(** ** References of the vector copies in flight *)

(** [markDead], [release] *)
Definition markDead (p : nat) (s : Bank) : option Bank :=
  if (NumPhysicalRegs <=? p)%nat then Some s
  else if negb (users (entry p s) =? 0)%nat
       then Some (set_entry p (λ e, e <| pendingRelease := true |>) s)
       else free_entry p s.

(** [retainPhysical] *)
Definition retainPhysical (phys : option nat) (s : Bank) : Bank :=
  match live phys s with
  | Some p => set_entry p (λ e, e <| users ::= S |>) s
  | None => s
  end.

(** [releasePhysical] *)
Definition releasePhysical (phys : option nat) (s : Bank) : option Bank :=
  match live phys s with
  | Some p =>
      let s := set_entry p (λ e, e <| users ::= Nat.pred |>) s in
      if (users (entry p s) =? 0)%nat && pendingRelease (entry p s)
      then free_entry p s else Some s
  | None => Some s
  end.

(** ** The VRAT *)

(** [vectorMapping] *)
Definition vectorMapping (a : nat) (s : Bank) : list (option nat) :=
  if (a <? NumArchitecturalRegs)%nat && vectorized (mapping a s) then bundle (mapping a s)
  else replicate VectorCopies None.

Definition add_name (acc : list nat) (n : option nat) : list nat :=
  match n with
  | Some p => if bool_decide (p ∈ acc) then acc else acc ++ [p]
  | None => acc
  end.

(** [physicalMappings] *)
Definition physicalMappings (a : nat) (s : Bank) : list nat :=
  if (NumArchitecturalRegs <=? a)%nat then []
  else
    let m := mapping a s in
    match foldl add_name [] (lanePhysical m) with
    | [] => if vectorized m then foldl add_name [] (bundle m) else option_list (scalar m)
    | names => names
    end.

(** [scalarMapping] *)
Definition scalarMapping (a : nat) (s : Bank) : option nat :=
  if (NumArchitecturalRegs <=? a)%nat || vectorized (mapping a s) then None
  else scalar (mapping a s).

(** [physicalIndex] *)
Definition physicalIndex (a lane : nat) (s : Bank) : option nat :=
  if (NumArchitecturalRegs <=? a)%nat || (MaxLanes <=? lane)%nat then None
  else
    let m := mapping a s in
    match lanePhysical m !!! lane with
    | Some p => Some p
    | None => if vectorized m then bundle m !!! (lane / LanesPerVectorCopy)%nat else scalar m
    end.

(** [physicalLane] *)
Definition physicalLane (a lane : nat) (s : Bank) : nat :=
  if (NumArchitecturalRegs <=? a)%nat || (MaxLanes <=? lane)%nat then lane
  else
    let m := mapping a s in
    match lanePhysical m !!! lane with
    | Some _ => if lane_vectorized lane m then laneElement m !!! lane else lane
    | None => if vectorized m then (lane mod LanesPerVectorCopy)%nat else lane
    end.

(** [isVectorized] of a register and of a lane of it *)
Definition isVectorized (a : nat) (s : Bank) : bool :=
  if (NumArchitecturalRegs <=? a)%nat then false
  else existsb id (laneVectorized (mapping a s)) || vectorized (mapping a s).

Definition isVectorizedLane (a lane : nat) (s : Bank) : bool :=
  (a <? NumArchitecturalRegs)%nat && (lane <? MaxLanes)%nat &&
  (lane_vectorized lane (mapping a s)
   || (bool_decide (lanePhysical (mapping a s) !!! lane = None) && vectorized (mapping a s))).

(** [read], [readyAt], [write] *)
Definition read (a lane : nat) (s : Bank) : Z :=
  if (NumArchitecturalRegs <=? a)%nat || (MaxLanes <=? lane)%nat then 0
  else match physicalIndex a lane s with
       | Some p => readPhysical (Some p) (physicalLane a lane s) s
       | None => 0
       end.

Definition readyAt (a lane : nat) (s : Bank) : Z :=
  if (NumArchitecturalRegs <=? a)%nat || (MaxLanes <=? lane)%nat then 0
  else match physicalIndex a lane s with
       | Some p => ready (entry p s) !!! physicalLane a lane s
       | None => 0
       end.

(** [entry.ready[lane] = t] and the lane's bit of [entry.valid] *)
Definition set_ready (p lane : nat) (t : Z) (s : Bank) : Bank :=
  set_entry p (λ e, e <| ready ::= <[lane := t]> |> <| valid ::= λ m, mask_set m lane |>) s.

Definition write (a lane : nat) (value t : Z) (s : Bank) : Bank :=
  if (NumArchitecturalRegs <=? a)%nat || (MaxLanes <=? lane)%nat then s
  else match physicalIndex a lane s with
       | Some p =>
           let k := physicalLane a lane s in
           set_ready p k t (writePhysical (Some p) k value s)
       | None => s
       end.

(** ** Initialisation *)

(** [reset] *)
Definition reset (s : Bank) : option Bank :=
  s ← releaseAll s;
  Some (s <| vrat := replicate NumArchitecturalRegs Mapping_init |>
          <| physical := replicate NumPhysicalRegs PhysicalRegister_init |>).

(** One register of [initialize]. *)
Definition init_lane (p : nat) (value : Z) (lane : nat) (s : Bank) : Bank :=
  set_entry p (λ e, e <| valid ::= λ m, mask_set m lane |>) (writePhysical (Some p) lane value s).

Definition init_reg (a p : nat) (value : Z) (s : Bank) : Bank :=
  let s := set_mapping a (λ m, m <| scalar := Some p |>
             <| lanePhysical := replicate MaxLanes (Some p) |>
             <| laneElement := replicate MaxLanes 0%nat |>
             <| laneVectorized := replicate MaxLanes false |>) s in
  for_range 0 MaxLanes (init_lane p value) s.

Fixpoint init_loop (archs : list nat) (regs : list Z) (s : Bank) : option Bank :=
  match archs with
  | [] => Some s
  | a :: archs =>
      '(phys, s) ← allocateScalar s;
      match phys with
      | Some p => init_loop archs regs (init_reg a p (regs !!! a) s)
      | None => Some s
      end
  end.

(** [initialize] *)
Definition initialize (regs : list Z) (s : Bank) : option Bank :=
  s ← reset s; init_loop (seq 0 NumArchitecturalRegs) regs s.

(** ** Renaming *)

(** [vrat[arch].lanePhysical[lane] = p] with its element and kind *)
Definition map_lane (a lane p element : nat) (vec : bool) (s : Bank) : Bank :=
  set_mapping a (λ m, m <| lanePhysical ::= <[lane := Some p]> |>
    <| laneElement ::= <[lane := element]> |> <| laneVectorized ::= <[lane := vec]> |>) s.

(** The element loop of [vectorize]. *)
Definition vectorize_lane (names : list nat) (old : option nat) (lane : nat) (s : Bank) : Bank :=
  let copy := (lane / LanesPerVectorCopy)%nat in
  let element := (lane mod LanesPerVectorCopy)%nat in
  let p := names !!! copy in
  let value := match old with Some o => readPhysical (Some o) lane s | None => 0 end in
  let t := match old with Some o => ready (entry o s) !!! lane | None => 0 end in
  set_ready p element t (writePhysical (Some p) element value s).

(** [vectorize] *)
Definition vectorize (a : nat) (s : Bank) : option (bool * Bank) :=
  if (NumArchitecturalRegs <=? a)%nat || vectorized (mapping a s)
  then Some ((a <? NumArchitecturalRegs)%nat, s)
  else
    '(fresh, s) ← allocateVectorBundle s;
    match fresh with
    | None => Some (false, s)
    | Some names =>
        let old := scalar (mapping a s) in
        let s := set_mapping a (λ m, m <| bundle := Some <$> names |>) s in
        let s := for_range 0 MaxLanes (vectorize_lane names old) s in
        let s := set_mapping a (λ m, m <| vectorized := true |> <| scalar := None |>) s in
        let s := for_range 0 MaxLanes (λ lane, map_lane a lane
                   (names !!! (lane / LanesPerVectorCopy)%nat)
                   (lane mod LanesPerVectorCopy)%nat true) s in
        s ← match old with Some o => markDead o s | None => Some s end;
        Some (true, s)
    end.

(** The release of the old names that no lane uses any more. *)
Fixpoint release_stale (olds current : list nat) (s : Bank) : option Bank :=
  match olds with
  | [] => Some s
  | o :: olds =>
      s ← (if bool_decide (o ∈ current) then Some s else markDead o s);
      release_stale olds current s
  end.

(** The lane loop of [renameVectorMasked]: every lane is copied, the active ones are mapped. *)
Definition rename_vector_lane (a : nat) (names : list nat) (active : LaneMask) (lane : nat)
    (s : Bank) : Bank :=
  let p := names !!! (lane / LanesPerVectorCopy)%nat in
  let element := (lane mod LanesPerVectorCopy)%nat in
  let value := read a lane s in
  let t := readyAt a lane s in
  let s := set_ready p element t (writePhysical (Some p) element value s) in
  if mask_test active lane then map_lane a lane p element true s else s.

(** [renameVectorMasked] *)
Definition renameVectorMasked (a : nat) (active : LaneMask) (s : Bank) : option (bool * Bank) :=
  if (NumArchitecturalRegs <=? a)%nat then Some (false, s)
  else
    let olds := physicalMappings a s in
    '(fresh, s) ← allocateVectorBundle s;
    match fresh with
    | None => Some (false, s)
    | Some names =>
        let s := for_range 0 MaxLanes (rename_vector_lane a names active) s in
        let s := set_mapping a (λ m, m <| bundle := Some <$> names |> <| scalar := None |>
                   <| vectorized := forallb (λ lane, lane_vectorized lane m)
                                      (seq 0 MaxLanes) |>) s in
        s ← release_stale olds (physicalMappings a s) s;
        Some (true, s)
    end.

(** [renameVector] *)
Definition all_lanes : LaneMask := (2 ^ 64 - 1, 2 ^ 64 - 1).
Definition renameVector (a : nat) : Bank → option (bool * Bank) := renameVectorMasked a all_lanes.

(** The lane loop of [renameScalarMasked]. *)
Definition rename_scalar_lane (a p : nat) (active : LaneMask) (lane : nat) (s : Bank) : Bank :=
  if negb (mask_test active lane) then s
  else
    let s := writePhysical (Some p) lane (read a lane s) s in
    let s := set_ready p lane (readyAt a lane s) s in
    map_lane a lane p 0 false s.

(** The name all lanes share, if they share a scalar one. *)
Fixpoint summarise (lanes : list nat) (m : Mapping) (summary : option nat) : option nat :=
  match lanes with
  | [] => summary
  | lane :: lanes =>
      if lane_vectorized lane m then None
      else match summary with
           | None => summarise lanes m (lanePhysical m !!! lane)
           | Some p => if bool_decide (lanePhysical m !!! lane = Some p)
                       then summarise lanes m summary else None
           end
  end.

(** [renameScalarMasked] *)
Definition renameScalarMasked (a : nat) (active : LaneMask) (s : Bank)
  : option (option nat * Bank) :=
  if (NumArchitecturalRegs <=? a)%nat then Some (None, s)
  else
    let olds := physicalMappings a s in
    '(fresh, s) ← allocateScalar s;
    match fresh with
    | None => Some (None, s)
    | Some p =>
        let s := for_range 0 MaxLanes (rename_scalar_lane a p active) s in
        let s := set_mapping a (λ m, m <| bundle := replicate VectorCopies None |>
                   <| vectorized := false |> <| scalar := summarise (seq 0 MaxLanes) m None |>) s in
        s ← release_stale olds (physicalMappings a s) s;
        Some (Some p, s)
    end.

(** [rename] *)
Definition rename (a : nat) : Bank → option (option nat * Bank) := renameScalarMasked a all_lanes.

(** ** [conservationValid] *)

Definition entry_valid (s : Bank) (p : nat) : bool :=
  Bool.eqb (is_allocated p s) (inUse (entry p s))
  && (is_allocated p s || ((users (entry p s) =? 0)%nat && negb (pendingRelease (entry p s)))).

Definition name_valid (s : Bank) (n : option nat) : bool :=
  match n with Some p => is_allocated p s | None => true end.

Definition mapping_valid (s : Bank) (m : Mapping) : bool :=
  forallb (name_valid s) (lanePhysical m)
  && (if vectorized m then forallb (name_valid s) (bundle m) else name_valid s (scalar m)).

Definition conservationValid (s : Bank) : bool :=
  forallb (entry_valid s) (seq 0 NumPhysicalRegs) && forallb (mapping_valid s) (vrat s).

(** ** Programs

    What happens to a bank after [initialize]: the DVR engine vectorizes, renames, writes,
    retains and releases; the main core allocates, frees and writes registers of its own. *)
Inductive Op :=
  | OpRenameVector (a : nat) (active : LaneMask)
  | OpRenameScalar (a : nat) (active : LaneMask)
  | OpWrite (a l : nat) (v t : Z)
  | OpRetain (phys : option nat)
  | OpRelease (phys : option nat)
  | OpCore (g : RegAlloc.Regs) (file : gmap RegId Z).

Definition run_op (o : Op) (s : Bank) : option Bank :=
  match o with
  | OpRenameVector a active => snd <$> renameVectorMasked a active s
  | OpRenameScalar a active => snd <$> renameScalarMasked a active s
  | OpWrite a l v t => Some (write a l v t s)
  | OpRetain phys => Some (retainPhysical phys s)
  | OpRelease phys => releasePhysical phys s
  | OpCore g file => Some ((s <| frees := g |>) <| o3file := file |>)
  end.

Fixpoint run (ops : list Op) (s : Bank) : option Bank :=
  match ops with
  | [] => Some s
  | o :: ops => s ← run_op o s; run ops s
  end.

(** ** Well-formedness *)

(** The registers borrowed from the main core. *)
Definition entry_ids (e : PhysicalRegister) : list RegId :=
  (sharedId e :: sharedIds e) ≫= option_list.
Definition held (s : Bank) : list RegId := concat (entry_ids <$> physical s).

Record entry_ok (p : nat) (used : bool) (e : PhysicalRegister) : Prop := {
  e_values : length (values e) = MaxLanes;
  e_ready : length (ready e) = MaxLanes;
  e_ids : length (sharedIds e) = LanesPerVectorCopy;
  e_used : used = true → inUse e = true ∧ isVector e = (NumScalarPhysicalRegs <=? p)%nat ∧
             (pendingRelease e = true → users e ≠ 0%nat);
  e_unused : used = false → e = PhysicalRegister_init
}.

(** The bank by itself: the two allocation flags agree, an unused entry is blank, and no
    register of the main core is borrowed twice, or borrowed and free. *)
Record bank_ok (s : Bank) : Prop := {
  b_vrat : length (vrat s) = NumArchitecturalRegs;
  b_phys : length (physical s) = NumPhysicalRegs;
  b_alloc : length (allocated s) = NumPhysicalRegs;
  b_entry : ∀ p, (p < NumPhysicalRegs)%nat → entry_ok p (is_allocated p s) (entry p s);
  b_lists : RegAlloc.classed (RegAlloc.freeLists (frees s));
  b_ids : ∀ r, r ∈ held s → isRenameable r = true;
  b_once : ∀ r, (occ r (held s) + occ r (RegAlloc.free (frees s)) <= 1)%nat;
  b_private : usesShared s = false → held s = [];
  b_map : ∀ a, (a < NumArchitecturalRegs)%nat → length (lanePhysical (mapping a s)) = MaxLanes ∧
            length (laneElement (mapping a s)) = MaxLanes ∧
            length (laneVectorized (mapping a s)) = MaxLanes
}.

(** Borrowing and returning: nothing is lost. *)
Definition conserves (s s' : Bank) : Prop :=
  ∀ r, (occ r (held s') + occ r (RegAlloc.free (frees s')))%nat =
       (occ r (held s) + occ r (RegAlloc.free (frees s)))%nat.

(** Of the main core's file only registers that were borrowed or free are written. *)
Definition outside (s s' : Bank) : Prop :=
  ∀ r, r ∉ held s → r ∉ RegAlloc.free (frees s) → o3file s' !! r = o3file s !! r.

(** The value and the ready tick in a slot of a physical register. *)
Definition content (p k : nat) (s : Bank) : Z * Z :=
  (readPhysical (Some p) k s, ready (entry p s) !!! k).
Definition width (p : nat) : nat :=
  if (NumScalarPhysicalRegs <=? p)%nat then LanesPerVectorCopy else MaxLanes.
(** The slot of lane [l] in a register that maps it. *)
Definition stored (p l : nat) : nat :=
  if (NumScalarPhysicalRegs <=? p)%nat then (l mod LanesPerVectorCopy)%nat else l.

(** What a lane of an architectural register holds. *)
Definition cell (a l : nat) (s : Bank) : Z * Z := (read a l s, readyAt a l s).

Definition name (a l : nat) (s : Bank) : option nat := lanePhysical (mapping a s) !!! l.

(** The lanes of the first [n] architectural registers: each is mapped to an allocated name of
    its kind, no two registers share a name, and a vector name serves one copy of lanes. *)
Record lanes_ok (n : nat) (s : Bank) : Prop := {
  l_name : ∀ a l, (a < n)%nat → (l < MaxLanes)%nat → ∃ p, name a l s = Some p ∧
    (p < NumPhysicalRegs)%nat ∧ is_allocated p s = true ∧ pendingRelease (entry p s) = false ∧
    lane_vectorized l (mapping a s) = (NumScalarPhysicalRegs <=? p)%nat ∧
    ((NumScalarPhysicalRegs <= p)%nat →
       laneElement (mapping a s) !!! l = (l mod LanesPerVectorCopy)%nat);
  l_own : ∀ a l a' l' p, (a < n)%nat → (l < MaxLanes)%nat → (a' < n)%nat → (l' < MaxLanes)%nat →
    name a l s = Some p → name a' l' s = Some p →
    a = a' ∧ ((NumScalarPhysicalRegs <= p)%nat →
                (l / LanesPerVectorCopy)%nat = (l' / LanesPerVectorCopy)%nat)
}.

(** The summaries of a mapping agree with its lanes. *)
Record summary_ok (n : nat) (s : Bank) : Prop := {
  s_bundle : ∀ a p, (a < n)%nat → Some p ∈ bundle (mapping a s) →
    (p < NumPhysicalRegs)%nat ∧ is_allocated p s = true ∧ pendingRelease (entry p s) = false ∧
    ∀ a' l', (a' < n)%nat → (l' < MaxLanes)%nat → name a' l' s = Some p → a' = a;
  s_scalar : ∀ a p, (a < n)%nat → scalar (mapping a s) = Some p →
    ∀ l, (l < MaxLanes)%nat → name a l s = Some p
}.

(** [s'] is [s] with the names [ps] newly allocated. *)
Record claimed (ps : list nat) (s s' : Bank) : Prop := {
  c_ok : bank_ok s';
  c_vrat : vrat s' = vrat s;
  c_file : o3file s' = o3file s;
  c_shared : usesShared s' = usesShared s;
  c_free : ∀ p, p ∈ ps → (p < NumPhysicalRegs)%nat ∧ is_allocated p s = false;
  c_alloc : ∀ p, is_allocated p s' = is_allocated p s || bool_decide (p ∈ ps);
  c_entry : ∀ p, p ∉ ps → entry p s' = entry p s;
  c_new : ∀ p, p ∈ ps → pendingRelease (entry p s') = false;
  c_ready : ∀ p, p ∈ ps → ready (entry p s') = replicate MaxLanes 0;
  c_keeps : conserves s s'
}.

(** The main core frees andhands out what it owns, and leaves the borrowed registers alone. *)
Definition core_allowed (g : RegAlloc.Regs) (file : gmap RegId Z) (s : Bank) : Prop :=
  RegAlloc.classed (RegAlloc.freeLists g) ∧
  (∀ r, (occ r (held s) + occ r (RegAlloc.free g) <= 1)%nat) ∧
  ∀ r, r ∈ held s → file !! r = o3file s !! r.

Definition allowed (o : Op) (s : Bank) : Prop :=
  match o with OpCore g file => core_allowed g file s | _ => True end.

Fixpoint admissible (ops : list Op) (s : Bank) : Prop :=
  match ops with
  | [] => True
  | o :: ops => allowed o s ∧ ∀ s', run_op o s = Some s' → admissible ops s'
  end.

(** The program sees an array of registers by lanes: a rename of either kind, a reference or
    the main core changes nothing, a write changes one lane. *)
Definition array := nat → nat → Z * Z.

Definition array_op (o : Op) (m : array) : array :=
  match o with
  | OpWrite a l v t => λ b k, if decide (b = a ∧ k = l) then (v, t) else m b k
  | _ => m
  end.

Definition array_run (ops : list Op) (m : array) : array := foldl (λ m o, array_op o m) m ops.

(** A launch of a helper program: every lane of a register gets its value, and the register the
    trigger writes becomes a vector. *)
Definition launch (regs : list Z) (trigger : nat) (s : Bank) : option (bool * Bank) :=
  s ← initialize regs s; vectorize trigger s.

(** ** Lemmas *)

Lemma entry_set p f s q :
  length (physical s) = NumPhysicalRegs → (p < NumPhysicalRegs)%nat →
  entry q (set_entry p f s) = if decide (q = p) then f (entry p s) else entry q s.
Proof.
  intros Hl Hp. unfold entry, set_entry. cbn. rewrite lookup_total_insert_case by lia.
  case_bool_decide; [subst; by rewrite decide_True|by rewrite decide_False].
Qed.

Lemma mapping_set a f s b :
  length (vrat s) = NumArchitecturalRegs → (a < NumArchitecturalRegs)%nat →
  mapping b (set_mapping a f s) = if decide (b = a) then f (mapping a s) else mapping b s.
Proof.
  intros Hl Ha. unfold mapping, set_mapping. cbn. rewrite lookup_total_insert_case by lia.
  case_bool_decide; [subst; by rewrite decide_True|by rewrite decide_False].
Qed.

Lemma allocated_set p v s q :
  length (allocated s) = NumPhysicalRegs → (p < NumPhysicalRegs)%nat →
  is_allocated q (s <| allocated ::= <[p := v]> |>) = if decide (q = p) then v else is_allocated q s.
Proof.
  intros Hl Hp. unfold is_allocated. cbn. rewrite lookup_total_insert_case by lia.
  case_bool_decide; [subst; by rewrite decide_True|by rewrite decide_False].
Qed.

Lemma held_set x p f s :
  length (physical s) = NumPhysicalRegs → (p < NumPhysicalRegs)%nat →
  (occ x (held (set_entry p f s)) + occ x (entry_ids (entry p s)))%nat =
  (occ x (held s) + occ x (entry_ids (f (entry p s))))%nat.
Proof.
  intros Hl Hp. unfold held, set_entry. cbn. rewrite list_fmap_insert.
  unfold entry. apply occ_concat_insert. rewrite list_lookup_fmap.
  destruct (lookup_lt_is_Some_2 (physical s) p) as [e He]; [lia|].
  by rewrite (list_lookup_total_correct _ _ _ He), He.
Qed.

Lemma occ_entry_le x p s :
  (p < length (physical s))%nat → (occ x (entry_ids (entry p s)) <= occ x (held s))%nat.
Proof.
  intros Hp. destruct (lookup_lt_is_Some_2 (physical s) p Hp) as [e He].
  pose proof (occ_concat_insert x (entry_ids <$> physical s) p (entry_ids e) []) as H.
  rewrite list_lookup_fmap, He in H. specialize (H eq_refl). rewrite occ_nil in H.
  unfold held, entry. rewrite (list_lookup_total_correct _ _ _ He). lia.
Qed.

Lemma held_entry r p s :
  (p < length (physical s))%nat → r ∈ entry_ids (entry p s) → r ∈ held s.
Proof. rewrite <- !occ_elem. intros Hp. pose proof (occ_entry_le r p s Hp). lia. Qed.

(** *** Distinct slots *)

Lemma occ_option_list (r : RegId) ids i j :
  ids !! i = Some (Some r) → ids !! j = Some (Some r) → i ≠ j →
  (2 <= occ r (ids ≫= option_list))%nat.
Proof.
  revert i j. induction ids as [|id ids IH]; intros [|i] [|j] Hi Hj Hne; simplify_eq/=;
    rewrite ?occ_cons, ?one_self, ?occ_app; try done.
  - assert (0 < occ r (ids ≫= option_list))%nat; [|lia].
    apply occ_elem, list_elem_of_bind. exists (Some r). split; [by left|].
    by eapply list_elem_of_lookup_2.
  - assert (0 < occ r (ids ≫= option_list))%nat; [|lia].
    apply occ_elem, list_elem_of_bind. exists (Some r). split; [by left|].
    by eapply list_elem_of_lookup_2.
  - specialize (IH i j Hi Hj). lia.
Qed.

Lemma slot_id s p k r :
  bank_ok s → (p < NumPhysicalRegs)%nat → shared_slot (entry p s) k s = Some r →
  usesShared s = true ∧ is_allocated p s = true ∧ (NumScalarPhysicalRegs <= p)%nat ∧
  sharedIds (entry p s) !! (k mod LanesPerVectorCopy)%nat = Some (Some r).
Proof.
  intros B Hp. unfold shared_slot. destruct (usesShared s); [|done]. cbn.
  pose proof (b_entry _ B p Hp) as E. destruct (isVector (entry p s)) eqn:Hv; [|done].
  intros H. assert (is_allocated p s = true) as Ha.
  { destruct (is_allocated p s) eqn:Ha; [done|]. pose proof (e_unused _ _ _ E eq_refl) as He.
    by rewrite He in Hv. }
  split_and!; [done|done| |].
  - destruct (e_used _ _ _ E Ha) as (_ & Hv' & _). rewrite Hv in Hv'. symmetry in Hv'.
    by apply Nat.leb_le in Hv'.
  - destruct (lookup_lt_is_Some_2 (sharedIds (entry p s)) (k mod LanesPerVectorCopy)%nat) as [x Hx].
    { rewrite (e_ids _ _ _ E). apply Nat.mod_upper_bound. done. }
    rewrite (list_lookup_total_correct _ _ _ Hx) in H. congruence.
Qed.

(** No register of the main core serves two slots. *)
Lemma slot_inj s p q j k r :
  bank_ok s → (p < NumPhysicalRegs)%nat → (q < NumPhysicalRegs)%nat →
  shared_slot (entry p s) j s = Some r → shared_slot (entry q s) k s = Some r →
  p = q ∧ (j mod LanesPerVectorCopy)%nat = (k mod LanesPerVectorCopy)%nat.
Proof.
  intros B Hp Hq Hj Hk. destruct (slot_id _ _ _ _ B Hp Hj) as (_ & _ & _ & Hj').
  destruct (slot_id _ _ _ _ B Hq Hk) as (_ & _ & _ & Hk').
  pose proof (b_once _ B r) as Honce.
  assert (Hin : ∀ p' i, sharedIds (entry p' s) !! i = Some (Some r) →
    (0 < occ r (entry_ids (entry p' s)))%nat).
  { intros p' i Hi. apply occ_elem, list_elem_of_bind. exists (Some r). split; [by left|].
    right. by eapply list_elem_of_lookup_2. }
  destruct (decide (p = q)) as [<-|Hne].
  - split; [done|]. destruct (decide ((j mod LanesPerVectorCopy)%nat = (k mod LanesPerVectorCopy)%nat))
      as [|Hne]; [done|]. pose proof (occ_option_list _ _ _ _ Hj' Hk' Hne) as H2.
    assert (2 <= occ r (entry_ids (entry p s)))%nat.
    { unfold entry_ids. cbn [mbind list_bind]. rewrite occ_app. lia. }
    pose proof (occ_entry_le r p s). rewrite (b_phys _ B) in *. lia.
  - exfalso. pose proof (held_set r p (λ _, PhysicalRegister_init) s (b_phys _ B) Hp) as H1.
    set (s1 := set_entry p (λ _, PhysicalRegister_init) s) in *.
    assert (length (physical s1) = NumPhysicalRegs) as Hl.
    { unfold s1, set_entry. cbn. rewrite length_insert. apply B. }
    pose proof (occ_entry_le r q s1) as H2. rewrite Hl in H2. specialize (H2 Hq).
    assert (entry q s1 = entry q s) as Eq.
    { unfold s1. rewrite entry_set by (apply B || done). by rewrite decide_False by congruence. }
    rewrite Eq in H2.
    specialize (Hin p _ Hj') as Hi1. specialize (Hin q _ Hk') as Hi2.
    cbn beta in H1. change (entry_ids PhysicalRegister_init) with (@nil RegId) in H1.
    rewrite occ_nil in H1. lia.
Qed.

Lemma slot_held p k r s :
  bank_ok s → (p < NumPhysicalRegs)%nat → shared_slot (entry p s) k s = Some r → r ∈ held s.
Proof.
  intros B Hp Hr. destruct (slot_id _ _ _ _ B Hp Hr) as (_ & _ & _ & Hid).
  apply (held_entry r p); [by rewrite (b_phys _ B)|]. unfold entry_ids.
  apply list_elem_of_bind. exists (Some r). split; [by left|].
  right. by eapply list_elem_of_lookup_2.
Qed.

(** *** Writing a slot *)

Definition poke (p k : nat) (v t : Z) (s : Bank) : Bank :=
  set_ready p k t (writePhysical (Some p) k v s).

(** Everything but the mappings and the lane values is the same. *)
Record same_but_lanes (s s' : Bank) : Prop := {
  sl_ok : bank_ok s';
  sl_alloc : ∀ p, is_allocated p s' = is_allocated p s;
  sl_shared : usesShared s' = usesShared s;
  sl_frees : frees s' = frees s;
  sl_pending : ∀ p, (p < NumPhysicalRegs)%nat →
    pendingRelease (entry p s') = pendingRelease (entry p s);
  sl_held : ∀ r, occ r (held s') = occ r (held s);
  sl_file : ∀ r, r ∉ held s → o3file s' !! r = o3file s !! r
}.

#[export] Instance same_but_lanes_trans : Transitive same_but_lanes.
Proof.
  intros s1 s2 s3 H1 H2. split; [apply H2|..].
  - intros p. by rewrite (sl_alloc _ _ H2), (sl_alloc _ _ H1).
  - by rewrite (sl_shared _ _ H2), (sl_shared _ _ H1).
  - by rewrite (sl_frees _ _ H2), (sl_frees _ _ H1).
  - intros p Hp. by rewrite (sl_pending _ _ H2), (sl_pending _ _ H1).
  - intros r. by rewrite (sl_held _ _ H2), (sl_held _ _ H1).
  - intros r Hr. rewrite (sl_file _ _ H2); [by apply (sl_file _ _ H1)|].
    apply occ_zero. rewrite (sl_held _ _ H1). by apply occ_zero.
Qed.

Lemma live_Some p s :
  (p < NumPhysicalRegs)%nat → is_allocated p s = true → live (Some p) s = Some p.
Proof. intros Hp Ha. unfold live. rewrite Ha. apply Nat.ltb_lt in Hp as ->. done. Qed.

Lemma width_le p k : (k < width p)%nat → (k < MaxLanes)%nat.
Proof. unfold width, MaxLanes, LanesPerVectorCopy. case_match; lia. Qed.

(** [writePhysical] is a write to the entry and, for a borrowed slot, to the main core's file. *)
Lemma writePhysical_live p k v s :
  (p < NumPhysicalRegs)%nat → is_allocated p s = true → (k < MaxLanes)%nat →
  writePhysical (Some p) k v s =
    set_entry p (λ e, e <| values ::= <[k := v]> |>)
      (s <| o3file ::= match shared_slot (entry p s) k s with
                       | Some r => <[r := v]> | None => id end |>).
Proof.
  intros Hp Ha Hk. unfold writePhysical. rewrite live_Some by done.
  destruct (Nat.leb_spec MaxLanes k); [lia|].
  by destruct (shared_slot (entry p s) k s); [|destruct s].
Qed.

(** The entries after a write to the slot. *)
Lemma poke_entry p k v t s q :
  bank_ok s → (p < NumPhysicalRegs)%nat → is_allocated p s = true → (k < MaxLanes)%nat →
  entry q (poke p k v t s) =
    if decide (q = p)
    then (entry p s) <| values ::= <[k := v]> |> <| ready ::= <[k := t]> |>
           <| valid ::= λ m, mask_set m k |>
    else entry q s.
Proof.
  intros B Hp Ha Hk. unfold poke, set_ready. rewrite writePhysical_live by done.
  assert (Hl : ∀ s', physical s' = physical s → ∀ f, length (physical (set_entry p f s')) = NumPhysicalRegs).
  { intros s' E f. unfold set_entry. cbn. rewrite length_insert, E. apply B. }
  rewrite !entry_set by (done || apply B || by apply Hl).
  by destruct (decide (q = p)); [rewrite decide_True by done|].
Qed.

Lemma poke_frame p k v t s :
  (p < NumPhysicalRegs)%nat → is_allocated p s = true → (k < MaxLanes)%nat →
  let s' := poke p k v t s in
  vrat s' = vrat s ∧ allocated s' = allocated s ∧ usesShared s' = usesShared s ∧
  frees s' = frees s ∧
  o3file s' = match shared_slot (entry p s) k s with
              | Some r => <[r := v]> | None => id end (o3file s) ∧
  length (physical s') = length (physical s).
Proof.
  intros Hp Ha Hk s'. unfold s', poke, set_ready. rewrite writePhysical_live by done.
  split_and!; try done. unfold set_entry. cbn. by rewrite !length_insert.
Qed.

(** Entries that only differ in lane values. *)
Lemma held_same s s' :
  length (physical s') = length (physical s) →
  (∀ p, entry_ids (entry p s') = entry_ids (entry p s)) → held s' = held s.
Proof.
  intros Hl H. unfold held. f_equal. apply list_eq. intros i. rewrite !list_lookup_fmap.
  specialize (H i). unfold entry in H.
  destruct (physical s' !! i) as [e|] eqn:E'.
  - destruct (lookup_lt_is_Some_2 (physical s) i) as [e0 E].
    { apply lookup_lt_Some in E'. lia. }
    rewrite E. cbn. rewrite (list_lookup_total_correct _ _ _ E), (list_lookup_total_correct _ _ _ E') in H.
    by f_equal.
  - apply lookup_ge_None in E'. rewrite lookup_ge_None_2 by lia. done.
Qed.

Lemma poke_same p k v t s :
  bank_ok s → (p < NumPhysicalRegs)%nat → is_allocated p s = true → (k < MaxLanes)%nat →
  same_but_lanes s (poke p k v t s).
Proof.
  intros B Hp Ha Hk. pose proof (poke_frame p k v t s Hp Ha Hk) as (F1 & F2 & F3 & F4 & F5 & F6).
  pose proof (poke_entry p k v t s) as FE.
  assert (Hheld : held (poke p k v t s) = held s).
  { apply held_same; [done|]. intros q. rewrite FE by done. by destruct (decide (q = p)) as [->|]. }
  assert (Hal : ∀ q, is_allocated q (poke p k v t s) = is_allocated q s).
  { intros q. unfold is_allocated. by rewrite F2. }
  assert (Hm : ∀ a, mapping a (poke p k v t s) = mapping a s).
  { intros a. unfold mapping. by rewrite F1. }
  split; rewrite ?Hheld; try done.
  - split; rewrite ?F1, ?F2, ?F3, ?F4, ?Hheld; try apply B.
    + by rewrite F6, (b_phys _ B).
    + intros q Hq. rewrite Hal, FE by done. pose proof (b_entry _ B q Hq) as E.
      destruct (decide (q = p)) as [->|]; [|done]. destruct E as [E1 E2 E3 E4 E5].
      split; cbn; [by rewrite length_insert|by rewrite length_insert|done|done|congruence].
    + intros a Ha'. rewrite Hm. by apply (b_map _ B).
  - intros q Hq. rewrite FE by done. by destruct (decide (q = p)) as [->|].
  - intros r Hr. rewrite F5. destruct (shared_slot (entry p s) k s) as [r'|] eqn:Hr'; [|done].
    rewrite lookup_insert_ne; [done|]. intros ->. by apply Hr, (slot_held p k).
Qed.

(** A write changes the slot written and no other. *)
Lemma poke_content p k v t s q j :
  bank_ok s → (p < NumPhysicalRegs)%nat → is_allocated p s = true → (k < width p)%nat →
  (q < NumPhysicalRegs)%nat → is_allocated q s = true → (j < width q)%nat →
  content q j (poke p k v t s) = if decide (q = p ∧ j = k) then (v, t) else content q j s.
Proof.
  intros B Hp Ha Hk Hq Haq Hj. pose proof (width_le _ _ Hk) as Hk'. pose proof (width_le _ _ Hj) as Hj'.
  pose proof (poke_frame p k v t s Hp Ha Hk') as (F1 & F2 & F3 & F4 & F5 & F6).
  pose proof (poke_entry p k v t s q B Hp Ha Hk') as FE.
  assert (Hls : shared_slot (entry q (poke p k v t s)) j (poke p k v t s) = shared_slot (entry q s) j s).
  { unfold shared_slot. rewrite F3, FE. by destruct (decide (q = p)) as [->|]. }
  unfold content, readPhysical.
  rewrite !live_Some by (done || by unfold is_allocated in *; rewrite F2).
  destruct (Nat.leb_spec MaxLanes j); [lia|]. rewrite Hls, F5, FE.
  pose proof (b_entry _ B p Hp) as E.
  destruct (decide (q = p ∧ j = k)) as [[-> ->]|Hne].
  - rewrite decide_True by done. cbn. rewrite !list_lookup_total_alt.
    rewrite !list_lookup_insert_eq by (rewrite ?(e_values _ _ _ E), ?(e_ready _ _ _ E); done).
    destruct (shared_slot (entry p s) k s); [by rewrite lookup_insert_eq|done].
  - f_equal.
    + destruct (shared_slot (entry q s) j s) as [r|] eqn:Hr.
      * destruct (shared_slot (entry p s) k s) as [r'|] eqn:Hr'; [|done].
        rewrite lookup_insert_ne; [done|]. intros ->. apply Hne.
        destruct (slot_inj _ _ _ _ _ _ B Hq Hp Hr Hr') as [-> Hmod]. split; [done|].
        destruct (slot_id _ _ _ _ B Hp Hr') as (_ & _ & Hv & _).
        unfold width in *. apply Nat.leb_le in Hv. rewrite Hv in *.
        by rewrite !Nat.mod_small in Hmod.
      * destruct (decide (q = p)) as [->|]; [|done]. cbn.
        rewrite !list_lookup_total_alt, list_lookup_insert_ne by (intros ->; by apply Hne).
        done.
    + destruct (decide (q = p)) as [->|]; [|done]. cbn.
      rewrite !list_lookup_total_alt, list_lookup_insert_ne by (intros ->; by apply Hne). done.
Qed.

(** *** Lanes *)

Lemma stored_width p l : (l < MaxLanes)%nat → (stored p l < width p)%nat.
Proof.
  intros Hl. unfold stored, width. case_match; [|done]. by apply Nat.mod_upper_bound.
Qed.

Lemma lane_split_eq l l' :
  (l / LanesPerVectorCopy)%nat = (l' / LanesPerVectorCopy)%nat →
  (l mod LanesPerVectorCopy)%nat = (l' mod LanesPerVectorCopy)%nat → l = l'.
Proof.
  intros Hd Hm. rewrite (Nat.div_mod l LanesPerVectorCopy), (Nat.div_mod l' LanesPerVectorCopy) by done.
  congruence.
Qed.

Lemma copy_bound l : (l < MaxLanes)%nat → (l / LanesPerVectorCopy < VectorCopies)%nat.
Proof. intros. apply Nat.Div0.div_lt_upper_bound. exact H. Qed.

Lemma below a n : (a < n)%nat → (n <= a)%nat → False.
Proof. lia. Qed.

(** What a mapped lane holds is the content of its slot. *)
Lemma cell_named a l p s :
  (a < NumArchitecturalRegs)%nat → (l < MaxLanes)%nat → name a l s = Some p →
  lane_vectorized l (mapping a s) = (NumScalarPhysicalRegs <=? p)%nat →
  ((NumScalarPhysicalRegs <= p)%nat →
     laneElement (mapping a s) !!! l = (l mod LanesPerVectorCopy)%nat) →
  cell a l s = content p (stored p l) s.
Proof.
  intros Ha Hl Hp Hv He. unfold name in Hp.
  unfold cell, content, read, readyAt, physicalIndex, physicalLane.
  destruct (Nat.leb_spec NumArchitecturalRegs a); [lia|].
  destruct (Nat.leb_spec MaxLanes l); [lia|]. cbn [orb]. rewrite !Hp, Hv. unfold stored.
  destruct (Nat.leb_spec NumScalarPhysicalRegs p) as [Hle|]; [|done]. by rewrite (He Hle).
Qed.

Lemma cell_content n a l p s :
  lanes_ok n s → (n <= NumArchitecturalRegs)%nat → (a < n)%nat → (l < MaxLanes)%nat →
  name a l s = Some p → cell a l s = content p (stored p l) s.
Proof.
  intros L Hn Ha Hl Hp. destruct (l_name _ _ L a l Ha Hl) as (p' & Hp' & Hb & Hal & Hpe & Hv & He).
  rewrite Hp in Hp'. injection Hp' as <-. by apply cell_named; [lia|..].
Qed.

(** Two lanes never share a slot. *)
Lemma lane_inj n a l a' l' p s :
  lanes_ok n s → (a < n)%nat → (l < MaxLanes)%nat → (a' < n)%nat → (l' < MaxLanes)%nat →
  name a l s = Some p → name a' l' s = Some p → stored p l = stored p l' → a = a' ∧ l = l'.
Proof.
  intros L Ha Hl Ha' Hl' H1 H2 Hs.
  destruct (l_own _ _ L a l a' l' p Ha Hl Ha' Hl' H1 H2) as [-> Hc]. split; [done|].
  unfold stored in Hs. destruct (Nat.leb_spec NumScalarPhysicalRegs p) as [Hle|]; [|done].
  by apply lane_split_eq; [apply Hc|].
Qed.

(** Lanes whose names and whose slots' contents are the same hold the same. *)
Lemma cells_frame n s s' :
  lanes_ok n s → lanes_ok n s' → (n <= NumArchitecturalRegs)%nat →
  (∀ a l, (a < n)%nat → (l < MaxLanes)%nat → name a l s' = name a l s) →
  (∀ p k, (p < NumPhysicalRegs)%nat → is_allocated p s = true → (k < width p)%nat →
     (∃ a l, (a < n)%nat ∧ (l < MaxLanes)%nat ∧ name a l s = Some p) →
     content p k s' = content p k s) →
  ∀ a l, (a < n)%nat → (l < MaxLanes)%nat → cell a l s' = cell a l s.
Proof.
  intros L L' Hn Hname Hc a l Ha Hl.
  destruct (l_name _ _ L a l Ha Hl) as (p & Hp & Hb & Hal & _).
  rewrite (cell_content n a l p s), (cell_content n a l p s') by (done || by rewrite Hname).
  apply Hc; [done|done|by apply stored_width|eauto].
Qed.

(** The same entry and the same main file hold the same. *)
Lemma content_frame p k s s' :
  entry p s' = entry p s → o3file s' = o3file s → usesShared s' = usesShared s →
  is_allocated p s' = is_allocated p s → content p k s' = content p k s.
Proof.
  intros He Hf Hs Ha. unfold content, readPhysical, live, shared_slot. rewrite He, Hf, Hs, Ha.
  destruct (_ && is_allocated p s); [|done]. by rewrite He.
Qed.

(** The mapping part of the invariants only reads the mappings and two flags. *)
Lemma lanes_frame n s s' :
  (∀ a, (a < n)%nat → mapping a s' = mapping a s) →
  (∀ p a l, (a < n)%nat → (l < MaxLanes)%nat → name a l s = Some p →
     (p < NumPhysicalRegs)%nat → is_allocated p s = true → pendingRelease (entry p s) = false →
     is_allocated p s' = true ∧ pendingRelease (entry p s') = false) →
  lanes_ok n s → lanes_ok n s'.
Proof.
  intros Hm Hf L.
  assert (Hname : ∀ a l, (a < n)%nat → name a l s' = name a l s)
    by (intros a l Ha; unfold name; by rewrite Hm).
  split.
  - intros a l Ha Hl. destruct (l_name _ _ L a l Ha Hl) as (p & Hp & Hb & Hal & Hpe & Hv & He).
    destruct (Hf p a l Ha Hl Hp Hb Hal Hpe). exists p. rewrite Hname, !Hm by done. by split_and!.
  - intros a l a' l' p Ha Hl Ha' Hl'. rewrite !Hname by done. by apply (l_own _ _ L).
Qed.

Lemma summary_frame n s s' :
  (∀ a, (a < n)%nat → mapping a s' = mapping a s) →
  (∀ p a, (a < n)%nat → Some p ∈ bundle (mapping a s) → (p < NumPhysicalRegs)%nat →
     is_allocated p s = true → pendingRelease (entry p s) = false →
     is_allocated p s' = true ∧ pendingRelease (entry p s') = false) →
  summary_ok n s → summary_ok n s'.
Proof.
  intros Hm Hf S.
  assert (Hname : ∀ a l, (a < n)%nat → name a l s' = name a l s)
    by (intros a l Ha; unfold name; by rewrite Hm).
  split.
  - intros a p Ha. rewrite Hm by done. intros Hin.
    destruct (s_bundle _ _ S a p Ha Hin) as (Hb & Hal & Hpe & Ho).
    destruct (Hf p a Ha Hin Hb Hal Hpe). split_and!; try done.
    intros a' l' Ha' Hl'. rewrite Hname by done. by apply Ho.
  - intros a p Ha. rewrite Hm by done. intros Hsc l Hl. rewrite Hname by done.
    by apply (s_scalar _ _ S).
Qed.

(** *** Returning names *)

Lemma give_all_spec ids s :
  RegAlloc.classed (RegAlloc.freeLists (frees s)) →
  (∀ r, r ∈ ids ≫= option_list → isRenameable r = true) →
  ∃ g, give_all ids s = Some (s <| frees := g |>) ∧ RegAlloc.classed (RegAlloc.freeLists g) ∧
    ∀ x, occ x (RegAlloc.free g) =
         (occ x (RegAlloc.free (frees s)) + occ x (ids ≫= option_list))%nat.
Proof.
  revert s. induction ids as [|[r|] ids IH]; intros s Hc Hr; cbn.
  - exists (frees s). split_and!; [by destruct s|done|]. intros x. rewrite occ_nil. lia.
  - destruct (RegAlloc.addReg_total r (frees s)) as [g E]; [done|by apply Hr; left|].
    rewrite E. cbn. destruct (IH (s <| frees := g |>)) as (g' & E' & Hc' & Ho').
    + cbn. by eapply RegAlloc.addReg_class.
    + intros x Hx. apply Hr. by right.
    + exists g'. split_and!; [exact E'|done|]. intros x. rewrite Ho'. cbn.
      rewrite (RegAlloc.addReg_occ _ _ _ x E), occ_cons. lia.
  - apply IH; [done|]. intros r Hx. by apply Hr.
Qed.

(** Freeing an entry: [s'] is [s] with [p] blank and its borrowed registers returned. *)
Record freed (p : nat) (s s' : Bank) : Prop := {
  fr_ok : bank_ok s';
  fr_vrat : vrat s' = vrat s;
  fr_file : o3file s' = o3file s;
  fr_shared : usesShared s' = usesShared s;
  fr_alloc : ∀ q, is_allocated q s' = is_allocated q s && bool_decide (q ≠ p);
  fr_entry : ∀ q, q ≠ p → entry q s' = entry q s;
  fr_blank : entry p s' = PhysicalRegister_init;
  fr_keeps : conserves s s'
}.

Lemma entry_ids_option e : entry_ids e = (sharedId e :: sharedIds e) ≫= option_list.
Proof. done. Qed.

(** Blanking an entry, the main core's free list now being [g]. *)
Lemma blank_spec p g s :
  bank_ok s → (p < NumPhysicalRegs)%nat → RegAlloc.classed (RegAlloc.freeLists g) →
  (∀ x, occ x (RegAlloc.free g) =
        (occ x (RegAlloc.free (frees s)) + occ x (entry_ids (entry p s)))%nat) →
  freed p s ((set_entry p (λ _, PhysicalRegister_init) (s <| frees := g |>))
               <| allocated ::= <[p := false]> |>).
Proof.
  intros B Hp Hg Hocc. set (s1 := set_entry _ _ _). set (s2 := s1 <| allocated ::= _ |>).
  assert (Hl : length (physical s1) = NumPhysicalRegs)
    by (unfold s1, set_entry; cbn; rewrite length_insert; apply B).
  assert (He : ∀ q, entry q s2 = if decide (q = p) then PhysicalRegister_init else entry q s).
  { intros q. change (entry q s2) with (entry q s1). unfold s1.
    by rewrite entry_set by (done || apply B). }
  assert (Ha : ∀ q, is_allocated q s2 = is_allocated q s && bool_decide (q ≠ p)).
  { intros q. unfold s2. rewrite allocated_set by (done || apply B).
    destruct (decide (q = p)) as [->|Hq].
    - by rewrite bool_decide_eq_false_2, andb_false_r by tauto.
    - by rewrite bool_decide_eq_true_2, andb_true_r by done. }
  assert (Hh : ∀ x, (occ x (held s2) + occ x (entry_ids (entry p s)))%nat = occ x (held s)).
  { intros x. pose proof (held_set x p (λ _, PhysicalRegister_init) (s <| frees := g |>)
      (b_phys _ B) Hp) as H. cbn beta in H.
    change (entry_ids PhysicalRegister_init) with (@nil RegId) in H. rewrite occ_nil in H.
    change (entry p (s <| frees := g |>)) with (entry p s) in H.
    change (held (s <| frees := g |>)) with (held s) in H. change (held s2) with (held s1).
    rewrite Nat.add_0_r in H. exact H. }
  assert (Hc : conserves s s2).
  { intros x. change (frees s2) with g. specialize (Hh x). rewrite Hocc. lia. }
  split; try done.
  - split; try apply B; try done.
    + cbn. rewrite length_insert. apply B.
    + intros q Hq. rewrite Ha, He. destruct (decide (q = p)) as [->|Hne].
      * rewrite bool_decide_eq_false_2, andb_false_r by tauto. split; done.
      * rewrite bool_decide_eq_true_2, andb_true_r by done. by apply (b_entry _ B).
    + intros r Hr. apply (b_ids _ B). rewrite <- occ_elem in *. specialize (Hh r). lia.
    + intros r. specialize (Hc r). pose proof (b_once _ B r). lia.
    + intros Hsh. pose proof (b_private _ B Hsh) as Hnil. destruct (held s2) as [|r l] eqn:E; [done|].
      specialize (Hh r). rewrite Hnil, occ_cons, one_self, occ_nil in Hh. lia.
  - intros q Hq. by rewrite He, decide_False.
  - by rewrite He, decide_True.
Qed.

Lemma private_ids p s :
  bank_ok s → (p < NumPhysicalRegs)%nat → usesShared s = false → entry_ids (entry p s) = [].
Proof.
  intros B Hp Hs. destruct (entry_ids (entry p s)) as [|r l] eqn:E; [done|].
  pose proof (held_entry r p s) as H. rewrite E, (b_private _ B Hs), (b_phys _ B) in H.
  specialize (H Hp (list_elem_of_here _ _)). by apply elem_of_nil in H.
Qed.

Lemma set_entry_id p s :
  length (physical s) = NumPhysicalRegs → (p < NumPhysicalRegs)%nat → set_entry p id s = s.
Proof.
  intros Hl Hp. unfold set_entry. destruct s as [v ph al us fr o]. cbn in *. f_equal.
  unfold id. apply list_insert_id. by apply list_lookup_lookup_total_lt; lia.
Qed.

(** The entry may have had its reference count changed before it is freed. *)
Lemma free_entry_flags p f s :
  bank_ok s → (p < NumPhysicalRegs)%nat → sharedId (f (entry p s)) = sharedId (entry p s) →
  sharedIds (f (entry p s)) = sharedIds (entry p s) →
  ∃ s', free_entry p (set_entry p f s) = Some s' ∧ freed p s s'.
Proof.
  intros B Hp Hi His. unfold free_entry. change (usesShared (set_entry p f s)) with (usesShared s).
  rewrite entry_set, decide_True, Hi, His by (done || apply B).
  assert (Hset : ∀ g, set_entry p (λ _, PhysicalRegister_init) ((set_entry p f s) <| frees := g |>)
                  = set_entry p (λ _, PhysicalRegister_init) (s <| frees := g |>)).
  { intros g. unfold set_entry. cbn. by rewrite list_insert_insert_eq. }
  assert (s = s <| frees := frees s |>) as Es by by destruct s.
  destruct (usesShared s) eqn:Hs.
  - destruct (give_all_spec (sharedId (entry p s) :: sharedIds (entry p s)) (set_entry p f s))
      as (g & -> & Hg & Ho).
    + apply B.
    + intros r Hr. apply (b_ids _ B). apply (held_entry r p); [by rewrite (b_phys _ B)|exact Hr].
    + cbn [mbind option_bind]. rewrite Hset. eexists. split; [done|]. by apply blank_spec.
  - cbn [mbind option_bind]. pose proof (blank_spec p (frees s) s B Hp (b_lists _ B)) as H.
    rewrite <- Es in H. pose proof (Hset (frees s)) as Hset'.
    change ((set_entry p f s) <| frees := frees s |>) with (set_entry p f s) in Hset'.
    rewrite <- Es in Hset'. rewrite Hset'. eexists. split; [done|]. apply H.
    intros x. rewrite private_ids, occ_nil by done. lia.
Qed.

Lemma free_entry_spec p s :
  bank_ok s → (p < NumPhysicalRegs)%nat → ∃ s', free_entry p s = Some s' ∧ freed p s s'.
Proof.
  intros B Hp. pose proof (free_entry_flags p id s B Hp eq_refl eq_refl) as H.
  by rewrite set_entry_id in H by (done || apply B).
Qed.

(** Freeing a name that no lane and no bundle uses disturbs nothing. *)
Lemma freed_lanes n p s s' :
  freed p s s' → (∀ a l, (a < n)%nat → (l < MaxLanes)%nat → name a l s ≠ Some p) →
  lanes_ok n s → lanes_ok n s'.
Proof.
  intros F Hp. apply lanes_frame; [intros; unfold mapping; by rewrite (fr_vrat _ _ _ F)|].
  intros q a l Ha Hl Hq _ Hal Hpe. assert (q ≠ p) as Hne by (intros ->; by eapply Hp).
  by rewrite (fr_alloc _ _ _ F), (fr_entry _ _ _ F), Hal, bool_decide_eq_true_2 by done.
Qed.

Lemma freed_summary n p s s' :
  freed p s s' → (∀ a, (a < n)%nat → Some p ∉ bundle (mapping a s)) →
  summary_ok n s → summary_ok n s'.
Proof.
  intros F Hp. apply summary_frame; [intros; unfold mapping; by rewrite (fr_vrat _ _ _ F)|].
  intros q a Ha Hin _ Hal Hpe. assert (q ≠ p) as Hne by (intros ->; by apply (Hp a Ha)).
  by rewrite (fr_alloc _ _ _ F), (fr_entry _ _ _ F), Hal, bool_decide_eq_true_2 by done.
Qed.

Lemma freed_cells n p s s' :
  freed p s s' → (n <= NumArchitecturalRegs)%nat → lanes_ok n s →
  (∀ a l, (a < n)%nat → (l < MaxLanes)%nat → name a l s ≠ Some p) →
  ∀ a l, (a < n)%nat → (l < MaxLanes)%nat → cell a l s' = cell a l s.
Proof.
  intros F Hn L Hp. apply cells_frame; [done|by eapply freed_lanes|done|..].
  - intros a l _ _. unfold name, mapping. by rewrite (fr_vrat _ _ _ F).
  - intros q k Hq Ha Hk (a & l & Ha' & Hl & Hname).
    assert (q ≠ p) as Hne by (intros ->; by eapply Hp).
    apply content_frame; [by apply (fr_entry _ _ _ F)|apply F|apply F|].
    by rewrite (fr_alloc _ _ _ F), bool_decide_eq_true_2, andb_true_r.
Qed.

(** *** [markDead] of an unused name *)

(** Nothing a lane can see has changed. *)
Record undisturbed (n : nat) (s s' : Bank) : Prop := {
  u_ok : bank_ok s';
  u_lanes : lanes_ok n s';
  u_summary : summary_ok n s';
  u_cells : ∀ a l, (a < n)%nat → (l < MaxLanes)%nat → cell a l s' = cell a l s;
  u_keeps : conserves s s';
  u_outside : outside s s';
  u_vrat : vrat s' = vrat s;
  u_shared : usesShared s' = usesShared s
}.

Lemma outside_trans s1 s2 s3 :
  conserves s1 s2 → outside s1 s2 → outside s2 s3 → outside s1 s3.
Proof.
  intros K O1 O2 r Hh Hf. rewrite O2; [by apply O1|..]; apply occ_zero;
    apply occ_zero in Hh, Hf; specialize (K r); lia.
Qed.

#[export] Instance undisturbed_trans n : Transitive (undisturbed n).
Proof.
  intros s1 s2 s3 U1 U2. split; try apply U2.
  - intros a l Ha Hl. by rewrite (u_cells _ _ _ U2), (u_cells _ _ _ U1).
  - intros r. by rewrite (u_keeps _ _ _ U2), (u_keeps _ _ _ U1).
  - by apply (outside_trans _ s2); [apply U1..|apply U2].
  - by rewrite (u_vrat _ _ _ U2), (u_vrat _ _ _ U1).
  - by rewrite (u_shared _ _ _ U2), (u_shared _ _ _ U1).
Qed.

Lemma undisturbed_refl n s :
  bank_ok s → lanes_ok n s → summary_ok n s → undisturbed n s s.
Proof. intros. by split. Qed.

(** A change of [users] and [pendingRelease] of an entry that keeps it consistent. *)
Lemma flags_spec n p f s :
  bank_ok s → lanes_ok n s → summary_ok n s → (n <= NumArchitecturalRegs)%nat →
  (p < NumPhysicalRegs)%nat → is_allocated p s = true →
  let e := entry p s in
  values (f e) = values e → ready (f e) = ready e → sharedId (f e) = sharedId e →
  sharedIds (f e) = sharedIds e → isVector (f e) = isVector e → inUse (f e) = inUse e →
  (pendingRelease (f e) = true → users (f e) ≠ 0%nat) →
  (pendingRelease (f e) = true → pendingRelease e = true ∨
     (∀ a l, (a < n)%nat → (l < MaxLanes)%nat → name a l s ≠ Some p) ∧
     ∀ a, (a < n)%nat → Some p ∉ bundle (mapping a s)) →
  undisturbed n s (set_entry p f s).
Proof.
  intros B L S Hn Hp Ha e Hv Hr Hi His Hvec Hu Hpu Hpend. set (s' := set_entry p f s).
  assert (He : ∀ q, entry q s' = if decide (q = p) then f e else entry q s)
    by (intros q; unfold s'; by rewrite entry_set by (apply B || done)).
  assert (Hh : held s' = held s).
  { apply held_same; [unfold s', set_entry; cbn; by rewrite length_insert|].
    intros q. rewrite He. destruct (decide (q = p)) as [->|]; [|done].
    by rewrite !entry_ids_option, Hi, His. }
  assert (Hf : ∀ q, (q = p → (∃ a l, (a < n)%nat ∧ (l < MaxLanes)%nat ∧ name a l s = Some p) ∨
                       ∃ a, (a < n)%nat ∧ Some p ∈ bundle (mapping a s)) →
     pendingRelease (entry q s) = false → pendingRelease (entry q s') = false).
  { intros q Hq Hpe. rewrite He. destruct (decide (q = p)) as [->|]; [|done].
    destruct (pendingRelease (f e)) eqn:E; [|done].
    destruct (Hpend eq_refl) as [H|[H1 H2]]; [unfold e in H; congruence|].
    destruct (Hq eq_refl) as [(a & l & Ha' & Hl & H)|(a & Ha' & H)];
      [by destruct (H1 a l Ha' Hl)|by destruct (H2 a Ha')]. }
  assert (L' : lanes_ok n s').
  { revert L. apply lanes_frame; [done|]. intros q a l Ha' Hl Hname _ Hal Hpe.
    split; [done|]. apply Hf; [|done]. intros ->. left. eauto. }
  split; try done.
  - split; rewrite ?Hh; try apply B.
    + unfold s', set_entry. cbn. rewrite length_insert. apply B.
    + intros q Hq. change (is_allocated q s') with (is_allocated q s). rewrite He.
      pose proof (b_entry _ B q Hq) as E. destruct (decide (q = p)) as [->|]; [|done].
      destruct E as [E1 E2 E3 E4 E5]. split; rewrite ?Hv, ?Hr, ?His; try done; [|congruence].
      intros _. destruct (E4 Ha) as (E6 & E7 & _). rewrite Hu, Hvec. by split_and!.
  - revert S. apply summary_frame; [done|]. intros q a Ha' Hin _ Hal Hpe.
    split; [done|]. apply Hf; [|done]. intros ->. right. eauto.
  - apply cells_frame; [done..|]. intros q k Hq Hal Hk _.
    unfold content, readPhysical, live, shared_slot.
    change (is_allocated q s') with (is_allocated q s). change (usesShared s') with (usesShared s).
    change (o3file s') with (o3file s).
    destruct (_ && is_allocated q s); rewrite He; destruct (decide (q = p)) as [->|]; try done;
      by rewrite ?Hv, ?Hr, ?His, ?Hvec.
  - intros r. by rewrite Hh.
Qed.

Lemma markDead_spec n p s :
  bank_ok s → lanes_ok n s → summary_ok n s → (n <= NumArchitecturalRegs)%nat →
  (∀ a l, (a < n)%nat → (l < MaxLanes)%nat → name a l s ≠ Some p) →
  (∀ a, (a < n)%nat → Some p ∉ bundle (mapping a s)) →
  ∃ s', markDead p s = Some s' ∧ undisturbed n s s'.
Proof.
  intros B L S Hn H1 H2. unfold markDead.
  destruct (Nat.leb_spec NumPhysicalRegs p) as [|Hp]; [exists s; split; [done|by apply undisturbed_refl]|].
  destruct (Nat.eqb_spec (users (entry p s)) 0) as [Hu|Hu]; cbn [negb].
  - destruct (free_entry_spec p s B Hp) as (s' & E & F). exists s'. split; [done|].
    split; try apply F; [by eapply freed_lanes|by eapply freed_summary|by eapply freed_cells|].
    intros r _ _. by rewrite (fr_file _ _ _ F).
  - eexists. split; [done|]. destruct (is_allocated p s) eqn:Ha.
    + apply flags_spec; try done. intros _. right. by split.
    + pose proof (e_unused _ _ _ (b_entry _ B p Hp) Ha) as He. by rewrite He in Hu.
Qed.

(** *** References *)

Lemma live_cases phys s :
  live phys s = None ∨
  ∃ p, live phys s = Some p ∧ (p < NumPhysicalRegs)%nat ∧ is_allocated p s = true.
Proof.
  unfold live. destruct phys as [p|]; [|by left].
  destruct (Nat.ltb_spec p NumPhysicalRegs); [|by left].
  destruct (is_allocated p s) eqn:E; [right; eauto|by left].
Qed.

Lemma retain_spec n phys s :
  bank_ok s → lanes_ok n s → summary_ok n s → (n <= NumArchitecturalRegs)%nat →
  undisturbed n s (retainPhysical phys s).
Proof.
  intros B L S Hn. unfold retainPhysical.
  destruct (live_cases phys s) as [->|(p & -> & Hp & Ha)]; [by apply undisturbed_refl|].
  apply flags_spec; try done. intros H. by left.
Qed.

Lemma release_spec n phys s :
  bank_ok s → lanes_ok n s → summary_ok n s → (n <= NumArchitecturalRegs)%nat →
  ∃ s', releasePhysical phys s = Some s' ∧ undisturbed n s s'.
Proof.
  intros B L S Hn. unfold releasePhysical.
  destruct (live_cases phys s) as [->|(p & -> & Hp & Ha)];
    [exists s; split; [done|by apply undisturbed_refl]|].
  rewrite entry_set, decide_True by (done || apply B). cbn.
  destruct (Nat.eqb_spec (Nat.pred (users (entry p s))) 0) as [Hu|Hu]; cbn [andb].
  - destruct (pendingRelease (entry p s)) eqn:Hpe.
    + destruct (free_entry_flags p (λ e, e <| users ::= Nat.pred |>) s) as (s' & E & F); [done..|].
      exists s'. split; [exact E|].
      assert (H1 : ∀ a l, (a < n)%nat → (l < MaxLanes)%nat → name a l s ≠ Some p).
      { intros a l Ha' Hl Hname. destruct (l_name _ _ L a l Ha' Hl) as (q & Hq & _ & _ & Hpq & _).
        rewrite Hname in Hq. simplify_eq. congruence. }
      assert (H2 : ∀ a, (a < n)%nat → Some p ∉ bundle (mapping a s)).
      { intros a Ha' Hin. destruct (s_bundle _ _ S a p Ha' Hin) as (_ & _ & Hpq & _). congruence. }
      split; try apply F; [by eapply freed_lanes|by eapply freed_summary|by eapply freed_cells|].
      intros r _ _. by rewrite (fr_file _ _ _ F).
    + eexists. split; [done|]. apply flags_spec; try done; cbn; congruence.
  - eexists. split; [done|]. apply flags_spec; try done. intros H. by left.
Qed.

(** *** The names of a register *)

Lemma add_name_elem p l acc :
  p ∈ foldl add_name acc l ↔ p ∈ acc ∨ Some p ∈ l.
Proof.
  revert acc. induction l as [|x l IH]; intros acc; cbn.
  - rewrite elem_of_nil. tauto.
  - rewrite IH, elem_of_cons. destruct x as [q|]; cbn.
    + rewrite (inj_iff Some). case_bool_decide as Hq.
      * split; [tauto|]. intros [H|[->|H]]; [by left|by left|by right].
      * rewrite elem_of_app, list_elem_of_singleton. tauto.
    + split; [tauto|]. intros [H|[H|H]]; [by left|done|by right].
Qed.

Lemma name_elem a p s :
  length (lanePhysical (mapping a s)) = MaxLanes →
  Some p ∈ lanePhysical (mapping a s) ↔ ∃ l, (l < MaxLanes)%nat ∧ name a l s = Some p.
Proof.
  unfold name. generalize (lanePhysical (mapping a s)) as ls. intros ls Hls.
  rewrite list_elem_of_lookup. split.
  - intros [l Hl]. exists l. rewrite (list_lookup_total_correct _ _ _ Hl).
    apply lookup_lt_Some in Hl. by rewrite Hls in Hl.
  - intros (l & Hl & H). exists l. rewrite <- H. apply list_lookup_lookup_total_lt. lia.
Qed.

Lemma mappings_elem n a p s :
  bank_ok s → lanes_ok n s → (n <= NumArchitecturalRegs)%nat → (a < n)%nat →
  p ∈ physicalMappings a s ↔ ∃ l, (l < MaxLanes)%nat ∧ name a l s = Some p.
Proof.
  intros B L Hn Ha. unfold physicalMappings.
  destruct (Nat.leb_spec NumArchitecturalRegs a); [lia|].
  destruct (b_map _ B a) as (Hlen & _); [lia|]. rewrite <- name_elem by done.
  assert (Hfold : ∀ q, q ∈ foldl add_name [] (lanePhysical (mapping a s)) ↔
                       Some q ∈ lanePhysical (mapping a s)).
  { intros q. rewrite add_name_elem, elem_of_nil. tauto. }
  destruct (l_name _ _ L a 0 Ha) as (q & Hq & _); [unfold MaxLanes; lia|].
  assert (q ∈ foldl add_name [] (lanePhysical (mapping a s))) as Hin.
  { apply Hfold, name_elem; [done|]. exists 0%nat. split; [unfold MaxLanes; lia|done]. }
  rewrite <- Hfold. destruct (foldl add_name [] _); [by apply elem_of_nil in Hin|done].
Qed.

(** Releasing the names no lane uses any more disturbs nothing. *)
Lemma release_stale_spec n olds current s :
  bank_ok s → lanes_ok n s → summary_ok n s → (n <= NumArchitecturalRegs)%nat →
  (∀ p, p ∈ olds → p ∉ current →
     (∀ a l, (a < n)%nat → (l < MaxLanes)%nat → name a l s ≠ Some p) ∧
     ∀ a, (a < n)%nat → Some p ∉ bundle (mapping a s)) →
  ∃ s', release_stale olds current s = Some s' ∧ undisturbed n s s'.
Proof.
  intros B L S Hn. revert s B L S. induction olds as [|o olds IH]; intros s B L S Ho; cbn.
  { exists s. split; [done|by apply undisturbed_refl]. }
  assert (∃ s1, (if bool_decide (o ∈ current) then Some s else markDead o s) = Some s1 ∧
                undisturbed n s s1) as (s1 & -> & U1).
  { case_bool_decide; [exists s; split; [done|by apply undisturbed_refl]|].
    destruct (Ho o) as [H1 H2]; [by left|done|]. by apply markDead_spec. }
  cbn. destruct (IH s1) as (s2 & -> & U2); try apply U1.
  - intros p Hp Hc. unfold name, mapping. rewrite (u_vrat _ _ _ U1). apply Ho; [by right|done].
  - exists s2. split; [done|]. by etrans.
Qed.


(** *** Borrowing registers of the main core *)

(** The main core's free list is [g] now; nothing is lost or gained. *)
Lemma frees_claimed g s :
  bank_ok s → RegAlloc.classed (RegAlloc.freeLists g) →
  (∀ x, occ x (RegAlloc.free g) = occ x (RegAlloc.free (frees s))) →
  claimed [] s (s <| frees := g |>).
Proof.
  intros B Hg Ho. split; try done.
  - split; try apply B; [done|]. intros x. cbn [frees]. change (held (s <| frees := g |>)) with (held s).
    change (frees (s <| frees := g |>)) with g. rewrite Ho. apply (b_once _ B).
  - intros p Hp. by apply elem_of_nil in Hp.
  - intros p. change (is_allocated p (s <| frees := g |>)) with (is_allocated p s).
    by rewrite bool_decide_eq_false_2, orb_false_r by apply not_elem_of_nil.
  - intros p Hp. by apply elem_of_nil in Hp.
  - intros p Hp. by apply elem_of_nil in Hp.
  - intros x. change (frees (s <| frees := g |>)) with g.
    change (held (s <| frees := g |>)) with (held s). by rewrite Ho.
Qed.

Lemma claimed_refl s : bank_ok s → claimed [] s s.
Proof.
  intros B. pose proof (frees_claimed (frees s) s B (b_lists _ B)) as H.
  replace (s <| frees := frees s |>) with s in H by (by destruct s). by apply H.
Qed.

Lemma claimed_trans ps qs s1 s2 s3 :
  claimed ps s1 s2 → claimed qs s2 s3 → claimed (ps ++ qs) s1 s3.
Proof.
  intros C D. split; try apply D.
  - by rewrite (c_vrat _ _ _ D), (c_vrat _ _ _ C).
  - by rewrite (c_file _ _ _ D), (c_file _ _ _ C).
  - by rewrite (c_shared _ _ _ D), (c_shared _ _ _ C).
  - intros p [Hp|Hp]%elem_of_app; [by apply (c_free _ _ _ C)|].
    destruct (c_free _ _ _ D p Hp) as [? H]. split; [done|].
    rewrite (c_alloc _ _ _ C) in H. by apply orb_false_elim in H as [].
  - intros p. rewrite (c_alloc _ _ _ D), (c_alloc _ _ _ C), <- orb_assoc. f_equal.
    apply Bool.eq_iff_eq_true. rewrite orb_true_iff, !bool_decide_eq_true, elem_of_app. done.
  - intros p Hp. rewrite elem_of_app in Hp.
    rewrite (c_entry _ _ _ D), (c_entry _ _ _ C) by tauto. done.
  - intros p Hp. destruct (decide (p ∈ qs)) as [|Hq]; [by apply (c_new _ _ _ D)|].
    rewrite (c_entry _ _ _ D) by done. apply (c_new _ _ _ C). by apply elem_of_app in Hp as [].
  - intros p Hp. destruct (decide (p ∈ qs)) as [|Hq]; [by apply (c_ready _ _ _ D)|].
    rewrite (c_entry _ _ _ D) by done. apply (c_ready _ _ _ C). by apply elem_of_app in Hp as [].
  - intros x. by rewrite (c_keeps _ _ _ D), (c_keeps _ _ _ C).
Qed.

Lemma claimed_apart ps qs s1 s2 s3 p : claimed ps s1 s2 → claimed qs s2 s3 → p ∈ ps → p ∉ qs.
Proof.
  intros C D Hp Hq. destruct (c_free _ _ _ D p Hq) as [_ H].
  rewrite (c_alloc _ _ _ C), bool_decide_eq_true_2, orb_true_r in H by done. done.
Qed.

(** Taking an unused entry into use. *)
Lemma claim_one p f g s :
  bank_ok s → (p < NumPhysicalRegs)%nat → is_allocated p s = false →
  let e := f PhysicalRegister_init in
  length (values e) = MaxLanes → ready e = replicate MaxLanes 0 →
  length (sharedIds e) = LanesPerVectorCopy → inUse e = true →
  isVector e = (NumScalarPhysicalRegs <=? p)%nat → pendingRelease e = false →
  RegAlloc.classed (RegAlloc.freeLists g) →
  (∀ x, occ x (RegAlloc.free (frees s)) = (occ x (RegAlloc.free g) + occ x (entry_ids e))%nat) →
  (∀ x, x ∈ entry_ids e → isRenameable x = true) →
  (usesShared s = false → entry_ids e = []) →
  claimed [p] s ((set_entry p f (s <| frees := g |>)) <| allocated ::= <[p := true]> |>).
Proof.
  intros B Hp Ha e Hv Hr Hi Hin Hvec Hpe Hg Ho Hren Hpriv.
  set (s1 := set_entry p f (s <| frees := g |>)). set (s2 := s1 <| allocated ::= _ |>).
  pose proof (e_unused _ _ _ (b_entry _ B p Hp) Ha) as He0.
  assert (Hl : length (physical s1) = NumPhysicalRegs)
    by (unfold s1, set_entry; cbn; rewrite length_insert; apply B).
  assert (He : ∀ q, entry q s2 = if decide (q = p) then e else entry q s).
  { intros q. change (entry q s2) with (entry q s1). unfold s1.
    rewrite entry_set by (done || apply B). change (entry p (s <| frees := g |>)) with (entry p s).
    by rewrite He0. }
  assert (Hal : ∀ q, is_allocated q s2 = is_allocated q s || bool_decide (q ∈ [p])).
  { intros q. unfold s2. rewrite allocated_set by (done || apply B).
    destruct (decide (q = p)) as [->|Hq].
    - by rewrite bool_decide_eq_true_2, orb_true_r by by left.
    - by rewrite bool_decide_eq_false_2, orb_false_r by by rewrite list_elem_of_singleton. }
  assert (Hh : ∀ x, occ x (held s2) = (occ x (held s) + occ x (entry_ids e))%nat).
  { intros x. pose proof (held_set x p f (s <| frees := g |>) (b_phys _ B) Hp) as H.
    change (entry p (s <| frees := g |>)) with (entry p s) in H. rewrite He0 in H.
    change (entry_ids PhysicalRegister_init) with (@nil RegId) in H. rewrite occ_nil in H.
    change (held (s <| frees := g |>)) with (held s) in H. change (held s2) with (held s1).
    rewrite Nat.add_0_r in H. exact H. }
  assert (Hc : conserves s s2).
  { intros x. change (frees s2) with g. specialize (Hh x). rewrite Ho. lia. }
  split; try done.
  - split; try apply B; try done.
    + cbn. rewrite length_insert. apply B.
    + intros q Hq. rewrite Hal, He. destruct (decide (q = p)) as [->|Hne].
      * rewrite bool_decide_eq_true_2, orb_true_r by by left.
        split; try done; [by rewrite Hr, length_replicate|]. intros _. by rewrite Hpe.
      * rewrite bool_decide_eq_false_2, orb_false_r by by rewrite list_elem_of_singleton.
        by apply (b_entry _ B).
    + intros r Hr'. rewrite <- occ_elem, Hh in Hr'.
      destruct (decide (r ∈ entry_ids e)) as [|Hn]; [by apply Hren|].
      apply (b_ids _ B). rewrite <- occ_elem. apply occ_zero in Hn. lia.
    + intros r. specialize (Hc r). pose proof (b_once _ B r). lia.
    + intros Hsh. pose proof (b_private _ B Hsh) as Hnil. specialize (Hpriv Hsh).
      destruct (held s2) as [|r l] eqn:E; [done|].
      specialize (Hh r). rewrite Hnil, Hpriv, occ_cons, one_self, occ_nil in Hh. lia.
  - intros q ->%list_elem_of_singleton. done.
  - intros q Hq. rewrite He, decide_False; [done|]. intros ->. apply Hq. by left.
  - intros q ->%list_elem_of_singleton. by rewrite He, decide_True.
  - intros q ->%list_elem_of_singleton. by rewrite He, decide_True.
Qed.

Lemma class_renameable c r : (class_index c < 6)%nat → classValue r = c → isRenameable r = true.
Proof. intros H <-. by apply RegAlloc.isRenameable_index. Qed.

Lemma getReg_nonempty c s :
  (RegAlloc.numFreeRegs c s ≠ 0)%nat → is_Some (RegAlloc.getReg c s).
Proof.
  unfold RegAlloc.numFreeRegs, RegAlloc.getReg. rewrite list_lookup_total_alt.
  destruct (RegAlloc.freeLists s !! class_index c) as [[|r l]|]; cbn; eauto; done.
Qed.

(** *** [allocateScalar] *)

Lemma allocateScalar_spec s :
  bank_ok s → ∃ o s', allocateScalar s = Some (o, s') ∧
    match o with
    | None => s' = s ∧ ∀ p, (p < NumScalarPhysicalRegs)%nat → is_allocated p s = true
    | Some p => (p < NumScalarPhysicalRegs)%nat ∧ claimed [p] s s' ∧
                ∀ q, (q < p)%nat → is_allocated q s = true
    end.
Proof.
  intros B. unfold allocateScalar.
  destruct (find_from 0 NumScalarPhysicalRegs _) as [p|] eqn:E.
  2: { exists None, s. split_and!; [done|done|]. intros p Hp. rewrite find_from_None in E.
       specialize (E p). apply negb_false_iff, E. lia. }
  apply find_from_Some in E as (Hp & Ha & Hlow). apply negb_true_iff in Ha.
  assert (Hp' : (p < NumPhysicalRegs)%nat)
    by (unfold NumPhysicalRegs, NumScalarPhysicalRegs in *; lia).
  assert (Hvec : false = (NumScalarPhysicalRegs <=? p)%nat)
    by (symmetry; apply Nat.leb_gt; lia).
  assert (Hq : ∀ q, (q < p)%nat → is_allocated q s = true).
  { intros q Hq. apply negb_false_iff, Hlow. lia. }
  destruct (usesShared s && _) eqn:Hsh; cbn [mbind option_bind].
  - apply andb_true_iff in Hsh as [Hs Hn]. apply Nat.ltb_lt in Hn.
    destruct (getReg_nonempty IntRegClass (frees s)) as [[r g] G]; [lia|]. rewrite G.
    cbn [mbind option_bind]. do 2 eexists. split; [done|]. split; [lia|]. split; [|done].
    destruct (RegAlloc.getReg_class _ _ _ _ (b_lists _ B) G) as [Hr Hg].
    apply claim_one; try done.
    + intros x. rewrite (RegAlloc.getReg_occ _ _ _ _ x G).
      change (entry_ids _) with [r]. rewrite occ_cons, occ_nil. lia.
    + intros x. change (entry_ids _) with [r]. intros ->%list_elem_of_singleton.
      by apply (class_renameable IntRegClass); [cbn; lia|].
    + congruence.
  - do 2 eexists. split; [done|]. split; [lia|]. split; [|done].
    pose proof (claim_one p (λ e, e <| inUse := true |> <| isVector := false |>
      <| sharedId := None |>) (frees s) s B Hp' Ha) as H.
    replace (s <| frees := frees s |>) with s in H by (by destruct s).
    apply H; try done.
    + apply B.
    + intros x Hx. change (entry_ids _) with (@nil RegId) in Hx. by apply elem_of_nil in Hx.
Qed.

(** *** [allocateVectorBundle] *)

Lemma take_elements_spec n s :
  RegAlloc.classed (RegAlloc.freeLists (frees s)) →
  ∃ enough ids g, take_elements n s = Some (enough, ids, s <| frees := g |>) ∧
    RegAlloc.classed (RegAlloc.freeLists g) ∧ length ids = n ∧
    (∀ r, r ∈ ids ≫= option_list → isRenameable r = true) ∧
    ∀ x, occ x (RegAlloc.free (frees s)) =
         (occ x (RegAlloc.free g) + occ x (ids ≫= option_list))%nat.
Proof.
  revert s. induction n as [|n IH]; intros s Hc; cbn [take_elements].
  { exists true, [], (frees s). split_and!; try done; [by destruct s|].
    intros r Hr. by apply elem_of_nil in Hr. }
  destruct (Nat.eqb_spec (RegAlloc.numFreeRegs VecElemClass (frees s)) 0) as [Hz|Hnz].
  { assert (Hnil : replicate (S n) (@None RegId) ≫= option_list = []).
    { clear. induction n; [done|exact IHn]. }
    exists false, (replicate (S n) None), (frees s). split_and!; [by destruct s|done|..].
    - by rewrite length_replicate.
    - rewrite Hnil. intros r Hr. by apply elem_of_nil in Hr.
    - intros x. by rewrite Hnil, occ_nil, Nat.add_0_r. }
  destruct (getReg_nonempty VecElemClass (frees s) Hnz) as [[r g] G]. rewrite G.
  cbn [mbind option_bind]. destruct (RegAlloc.getReg_class _ _ _ _ Hc G) as [Hr Hg].
  destruct (IH (s <| frees := g |>)) as (en & ids & g' & -> & Hg' & Hl & Hren & Ho); [done|].
  cbn [mbind option_bind]. exists en, (Some r :: ids), g'. split_and!; try done.
  - cbn. by rewrite Hl.
  - intros x [->|Hx]%elem_of_cons; [|by apply Hren].
    by apply (class_renameable VecElemClass); [cbn; lia|].
  - intros x. rewrite (RegAlloc.getReg_occ _ _ _ _ x G).
    change (RegAlloc.free g) with (RegAlloc.free (frees (s <| frees := g |>))).
    rewrite Ho.
    change ((Some r :: ids) ≫= option_list) with (r :: (ids ≫= option_list)). rewrite occ_cons. lia.
Qed.

Lemma element_ids_spec s :
  bank_ok s →
  ∃ ids g, element_ids s = Some (ids, s <| frees := g |>) ∧
    RegAlloc.classed (RegAlloc.freeLists g) ∧ length ids = LanesPerVectorCopy ∧
    (∀ r, r ∈ ids ≫= option_list → isRenameable r = true) ∧
    (∀ x, occ x (RegAlloc.free (frees s)) =
          (occ x (RegAlloc.free g) + occ x (ids ≫= option_list))%nat) ∧
    (usesShared s = false → ids ≫= option_list = []).
Proof.
  intros B. unfold element_ids. set (none := replicate LanesPerVectorCopy None).
  assert (Hnil : none ≫= option_list = []) by done.
  assert (Hnone : ∀ g, RegAlloc.classed (RegAlloc.freeLists g) →
    (∀ x, occ x (RegAlloc.free (frees s)) = occ x (RegAlloc.free g)) →
    RegAlloc.classed (RegAlloc.freeLists g) ∧ length none = LanesPerVectorCopy ∧
    (∀ r, r ∈ none ≫= option_list → isRenameable r = true) ∧
    (∀ x, occ x (RegAlloc.free (frees s)) =
          (occ x (RegAlloc.free g) + occ x (none ≫= option_list))%nat) ∧
    (usesShared s = false → none ≫= option_list = [])).
  { intros g Hg Ho. rewrite Hnil. split_and!; try done.
    - intros r Hr. by apply elem_of_nil in Hr.
    - intros x. by rewrite Ho, occ_nil, Nat.add_0_r. }
  destruct (usesShared s) eqn:Hs.
  2: { exists none, (frees s). split; [by destruct s|]. apply Hnone; [apply B|done]. }
  destruct (take_elements_spec LanesPerVectorCopy s (b_lists _ B))
    as (en & ids & g & -> & Hg & Hl & Hren & Ho).
  cbn [mbind option_bind]. destruct en; [by exists ids, g|].
  destruct (give_all_spec ids (s <| frees := g |>)) as (g' & -> & Hg' & Ho'); [done..|].
  cbn [mbind option_bind]. exists none, g'. split; [done|]. apply Hnone; [done|].
  intros x. rewrite Ho', Ho. done.
Qed.

(** A vector name taken into use with the elements borrowed for it. *)
Lemma claim_vector_spec p s :
  bank_ok s → (NumScalarPhysicalRegs <= p)%nat → (p < NumPhysicalRegs)%nat →
  is_allocated p s = false →
  ∃ ids s1, element_ids s = Some (ids, s1) ∧ claimed [p] s (claim_vector p ids s1) ∧
            sharedId (entry p (claim_vector p ids s1)) = None.
Proof.
  intros B Hv Hp Ha. destruct (element_ids_spec s B) as (ids & g & -> & Hg & Hl & Hren & Ho & Hpr).
  do 2 eexists. split; [done|].
  apply Nat.leb_le in Hv.
  split; [by apply claim_one|].
  unfold claim_vector. change (entry p (?x <| allocated ::= ?f |>)) with (entry p x).
  rewrite entry_set, decide_True by (done || apply B).
  change (entry p (s <| frees := g |>)) with (entry p s).
  by rewrite (e_unused _ _ _ (b_entry _ B p Hp) Ha).
Qed.

(** The loop has taken the names [found]. *)
Record bundling (s0 : Bank) (found : list nat) (s : Bank) : Prop := {
  bd_claimed : claimed found s0 s;
  bd_nodup : NoDup found;
  bd_length : (length found <= VectorCopies)%nat;
  bd_kind : ∀ p, p ∈ found → (NumScalarPhysicalRegs <= p)%nat ∧ sharedId (entry p s) = None
}.

Lemma bundling_snoc s0 found p ids s s1 :
  bundling s0 found s → (NumScalarPhysicalRegs <= p)%nat → (length found < VectorCopies)%nat →
  claimed [p] s (claim_vector p ids s1) → sharedId (entry p (claim_vector p ids s1)) = None →
  bundling s0 (found ++ [p]) (claim_vector p ids s1).
Proof.
  intros [C N L K] Hp Hl C1 Hid.
  assert (Hnew : p ∉ found).
  { intros H. apply (claimed_apart _ _ _ _ _ p C C1 H). by left. }
  split.
  - by eapply claimed_trans.
  - apply NoDup_app. split_and!; [done| |apply NoDup_singleton].
    intros q Hq ->%list_elem_of_singleton. done.
  - rewrite length_app. cbn. lia.
  - intros q [Hq| ->%list_elem_of_singleton]%elem_of_app; [|done].
    destruct (K q Hq). split; [done|]. rewrite (c_entry _ _ _ C1); [done|].
    rewrite list_elem_of_singleton. by intros ->.
Qed.

Lemma bundle_loop_spec s0 ps : ∀ found s,
  bundling s0 found s →
  (∀ p, p ∈ ps → (NumScalarPhysicalRegs <= p)%nat ∧ (p < NumPhysicalRegs)%nat) →
  ∃ found' s', bundle_loop ps found s = Some (found', s') ∧ bundling s0 found' s' ∧
    (∀ p, is_allocated p s = true → is_allocated p s' = true) ∧
    (length found' = VectorCopies ∨ ∀ p, p ∈ ps → is_allocated p s' = true).
Proof.
  induction ps as [|p ps IH]; intros found s D Hps; cbn.
  { exists found, s. split_and!; [done..|]. right. intros p Hp. by apply elem_of_nil in Hp. }
  destruct (Nat.leb_spec VectorCopies (length found)) as [Hfull|Hroom].
  { exists found, s. split_and!; [done..|]. left. pose proof (bd_length _ _ _ D). lia. }
  destruct (is_allocated p s) eqn:Ha.
  - destruct (IH found s) as (found' & s' & -> & D' & Hmon & Hdone); [done|..].
    { intros q Hq. apply Hps. by right. }
    exists found', s'. split_and!; [done..|]. destruct Hdone as [|Hdone]; [by left|right].
    intros q [->|Hq]%elem_of_cons; [by apply Hmon|by apply Hdone].
  - destruct (Hps p) as [Hv Hp]; [by left|].
    destruct (claim_vector_spec p s) as (ids & s1 & -> & C & Hid);
      [apply (c_ok _ _ _ (bd_claimed _ _ _ D))|done..|].
    cbn [mbind option_bind].
    destruct (IH (found ++ [p]) (claim_vector p ids s1)) as (found' & s' & -> & D' & Hmon & Hdone).
    { by apply (bundling_snoc _ _ _ _ s). }
    { intros q Hq. apply Hps. by right. }
    exists found', s'. split_and!; [done..| |].
    + intros q Hq. apply Hmon. by rewrite (c_alloc _ _ _ C), Hq.
    + destruct Hdone as [|Hdone]; [by left|right].
      intros q [->|Hq]%elem_of_cons; [|by apply Hdone].
      apply Hmon. rewrite (c_alloc _ _ _ C), bool_decide_eq_true_2, orb_true_r by by left. done.
Qed.

(** Giving one name of the bundle back. *)
Lemma claimed_freed p found s0 s s' :
  bank_ok s0 → p ∉ found → claimed (p :: found) s0 s → freed p s s' → claimed found s0 s'.
Proof.
  intros B0 Hp C F. split.
  - apply F.
  - by rewrite (fr_vrat _ _ _ F), (c_vrat _ _ _ C).
  - by rewrite (fr_file _ _ _ F), (c_file _ _ _ C).
  - by rewrite (fr_shared _ _ _ F), (c_shared _ _ _ C).
  - intros q Hq. apply (c_free _ _ _ C). by right.
  - intros q. rewrite (fr_alloc _ _ _ F), (c_alloc _ _ _ C).
    destruct (decide (q = p)) as [->|Hq].
    + destruct (c_free _ _ _ C p) as [_ ->]; [by left|].
      rewrite (bool_decide_eq_false_2 (p ∈ found)) by done.
      by rewrite (bool_decide_eq_false_2 (p ≠ p)), andb_false_r by tauto.
    + rewrite (bool_decide_eq_true_2 (q ≠ p)), andb_true_r by done. f_equal.
      apply bool_decide_ext. rewrite elem_of_cons. tauto.
  - intros q Hq. destruct (decide (q = p)) as [->|Hne].
    + rewrite (fr_blank _ _ _ F). symmetry. destruct (c_free _ _ _ C p) as [Hb Ha]; [by left|].
      by apply (e_unused _ _ _ (b_entry _ B0 p Hb)).
    + rewrite (fr_entry _ _ _ F), (c_entry _ _ _ C); [done| |done].
      rewrite elem_of_cons. tauto.
  - intros q Hq. rewrite (fr_entry _ _ _ F); [|by intros ->]. apply (c_new _ _ _ C). by right.
  - intros q Hq. rewrite (fr_entry _ _ _ F); [|by intros ->]. apply (c_ready _ _ _ C). by right.
  - intros x. by rewrite (fr_keeps _ _ _ F), (c_keeps _ _ _ C).
Qed.

Lemma rollback_free_entry p found s :
  sharedId (entry p s) = None → rollback (p :: found) s = (free_entry p s ≫= rollback found).
Proof.
  intros H. unfold free_entry. rewrite H. cbn.
  destruct (usesShared s); [|done]. by destruct (give_all (sharedIds (entry p s)) s).
Qed.

Lemma rollback_spec s0 found s :
  bank_ok s0 → bundling s0 found s → ∃ s', rollback found s = Some s' ∧ claimed [] s0 s'.
Proof.
  intros B0. revert s. induction found as [|p found IH]; intros s [C N L K].
  { by exists s. }
  apply NoDup_cons in N as [Hp N]. destruct (K p) as [_ Hid]; [by left|].
  rewrite rollback_free_entry by done.
  destruct (c_free _ _ _ C p) as [Hb _]; [by left|].
  destruct (free_entry_spec p s (c_ok _ _ _ C) Hb) as (s1 & -> & F). cbn [mbind option_bind].
  apply IH. split.
  - by eapply claimed_freed.
  - done.
  - cbn in L. lia.
  - intros q Hq. rewrite (fr_entry _ _ _ F); [|by intros ->]. apply K. by right.
Qed.

(** It fails exactly when fewer than sixteen vector names are unused, and then takes nothing. *)
Lemma allocateVectorBundle_spec s :
  bank_ok s → ∃ o s', allocateVectorBundle s = Some (o, s') ∧
    match o with
    | None => claimed [] s s' ∧
        ∃ rest, (length rest < VectorCopies)%nat ∧
          ∀ p, (NumScalarPhysicalRegs <= p < NumPhysicalRegs)%nat → is_allocated p s = false →
               p ∈ rest
    | Some names => claimed names s s' ∧ NoDup names ∧ length names = VectorCopies ∧
        ∀ p, p ∈ names → (NumScalarPhysicalRegs <= p)%nat
    end.
Proof.
  intros B. unfold allocateVectorBundle.
  destruct (bundle_loop_spec s (seq NumScalarPhysicalRegs NumVectorPhysicalRegs) [] s)
    as (found & s1 & -> & D & _ & Hdone).
  { split; [by apply claimed_refl|apply NoDup_nil_2|cbn; lia|].
    intros p Hp. by apply elem_of_nil in Hp. }
  { intros p. rewrite elem_of_seq. done. }
  cbn [mbind option_bind]. destruct (Nat.eqb_spec (length found) VectorCopies) as [Hl|Hl].
  { exists (Some found), s1. split_and!; try done; [apply D|apply D|].
    intros p Hp. by apply (bd_kind _ _ _ D). }
  destruct (rollback_spec s found s1 B D) as (s2 & -> & C). cbn [mbind option_bind].
  exists None, s2. split_and!; [done..|]. exists found. split.
  { pose proof (bd_length _ _ _ D). lia. }
  intros p Hp Ha. destruct Hdone as [|Hdone]; [done|].
  specialize (Hdone p). rewrite (c_alloc _ _ _ (bd_claimed _ _ _ D)), Ha in Hdone.
  cbn [orb] in Hdone. eapply bool_decide_eq_true_1, Hdone. apply elem_of_seq. exact Hp.
Qed.

End HelperRegs.
