(* ===== verification/HelperBank.v ===== *)
(** * The helper's vector register file: what its operations do

    The lane loops of HelperRegs.v's renames, [vectorize] and [initialize], then whole helper
    programs.  A bank behaves as an array of registers by lanes whatever masked renames,
    references and main-core activity intervene, every borrowed register comes back, and a
    register with references is never freed. *)

From S2P Require Import Prelude Inst RegAlloc HelperRegs.

Module HelperBank.
Import HelperRegs.

(** ** The lane loops of the renames *)

(** Taking names into use disturbs nothing. *)
Lemma claimed_undisturbed n ps s s' :
  claimed ps s s' → lanes_ok n s → summary_ok n s → (n <= NumArchitecturalRegs)%nat →
  undisturbed n s s'.
Proof.
  intros C L S Hn.
  assert (Hm : ∀ b, mapping b s' = mapping b s)
    by (intros b; unfold mapping; by rewrite (c_vrat _ _ _ C)).
  assert (Hk : ∀ p, is_allocated p s = true → p ∉ ps).
  { intros p Ha Hp. destruct (c_free _ _ _ C p Hp). congruence. }
  assert (Hf : ∀ p, is_allocated p s = true → pendingRelease (entry p s) = false →
    is_allocated p s' = true ∧ pendingRelease (entry p s') = false).
  { intros p Ha Hpe. rewrite (c_alloc _ _ _ C), (c_entry _ _ _ C), Ha by auto. done. }
  assert (L' : lanes_ok n s') by (revert L; apply lanes_frame; auto).
  split; try apply C; try done.
  - revert S. apply summary_frame; auto.
  - apply cells_frame; try done; [intros b l _ _; unfold name; by rewrite Hm|].
    intros p k Hp Ha Hk' _.
    apply content_frame; [apply (c_entry _ _ _ C); auto|apply C|apply C|].
    by rewrite (c_alloc _ _ _ C), Ha.
  - intros r _ _. by rewrite (c_file _ _ _ C).
Qed.

(** Nothing names a register just taken into use. *)
Lemma claimed_fresh n ps s s' p :
  claimed ps s s' → lanes_ok n s → summary_ok n s → p ∈ ps →
  (∀ b l, (b < n)%nat → (l < MaxLanes)%nat → name b l s' ≠ Some p) ∧
  (∀ b, (b < n)%nat → Some p ∉ bundle (mapping b s')).
Proof.
  intros C L S Hp. destruct (c_free _ _ _ C p Hp) as [_ Ha].
  unfold name, mapping. rewrite (c_vrat _ _ _ C). split.
  - intros b l Hb Hl Hq. destruct (l_name _ _ L b l Hb Hl) as (q & Hq' & _ & Haq & _).
    unfold name, mapping in Hq'. congruence.
  - intros b Hb Hin. destruct (s_bundle _ _ S b p Hb Hin) as (_ & Haq & _). congruence.
Qed.

(** What a mapping says of a lane. *)
Definition view (l : nat) (m : Mapping) : option nat * nat * bool :=
  (lanePhysical m !!! l, laneElement m !!! l, lane_vectorized l m).

(** Setting a mapping whose lane lists keep their length. *)
Lemma set_mapping_same a f s :
  bank_ok s → (a < NumArchitecturalRegs)%nat →
  (let m := f (mapping a s) in
   length (lanePhysical m) = MaxLanes ∧ length (laneElement m) = MaxLanes ∧
   length (laneVectorized m) = MaxLanes) →
  same_but_lanes s (set_mapping a f s).
Proof.
  intros B Ha Hf. split; try done. split; try apply B.
  - unfold set_mapping. cbn. rewrite length_insert. apply B.
  - intros b Hb. rewrite mapping_set by (done || apply B).
    destruct (decide (b = a)) as [->|]; [exact Hf|by apply (b_map _ B)].
Qed.

Lemma map_lane_view a i p e v s l :
  bank_ok s → (a < NumArchitecturalRegs)%nat → (i < MaxLanes)%nat →
  view l (mapping a (map_lane a i p e v s)) =
    if decide (l = i) then (Some p, e, v) else view l (mapping a s).
Proof.
  intros B Ha Hi. destruct (b_map _ B a Ha) as (H1 & H2 & H3).
  unfold map_lane. rewrite mapping_set, decide_True by (done || apply B).
  unfold view, lane_vectorized. cbn. rewrite !lookup_total_insert_case by lia.
  case_bool_decide; [subst; by rewrite decide_True|by rewrite decide_False].
Qed.

Lemma map_lane_same a i p e v s :
  bank_ok s → (a < NumArchitecturalRegs)%nat → same_but_lanes s (map_lane a i p e v s).
Proof.
  intros B Ha. apply set_mapping_same; [done..|]. cbn. rewrite !length_insert.
  by apply (b_map _ B).
Qed.

Section Remap.

(** Lane [l] of register [a] may move to slot [stored (new l) l] of the name [new l], one of
    the names [ps] that nothing else uses; [act l] says whether it does. *)
Context (n a : nat) (ps : list nat) (new el : nat → nat) (act : nat → bool) (s1 : Bank).
Hypotheses (B1 : bank_ok s1) (L1 : lanes_ok n s1).
Hypotheses (Hn : (n <= NumArchitecturalRegs)%nat) (Ha : (a < n)%nat).
Hypothesis Hps : ∀ p, p ∈ ps → (p < NumPhysicalRegs)%nat ∧ is_allocated p s1 = true ∧
  pendingRelease (entry p s1) = false ∧
  ∀ b l, (b < n)%nat → (l < MaxLanes)%nat → name b l s1 ≠ Some p.
Hypothesis Hnew : ∀ l, (l < MaxLanes)%nat → new l ∈ ps.
Hypothesis Hcopy : ∀ l l', (l < MaxLanes)%nat → (l' < MaxLanes)%nat → new l = new l' →
  (NumScalarPhysicalRegs <= new l)%nat →
  (l / LanesPerVectorCopy)%nat = (l' / LanesPerVectorCopy)%nat.
Hypothesis Hel : ∀ l, (NumScalarPhysicalRegs <= new l)%nat → el l = (l mod LanesPerVectorCopy)%nat.

(** The lanes below [i] are done. *)
Record remapping (i : nat) (s : Bank) : Prop := {
  rm_same : same_but_lanes s1 s;
  rm_other : ∀ b, b ≠ a → mapping b s = mapping b s1;
  rm_view : ∀ l, (l < MaxLanes)%nat → view l (mapping a s) =
    if (l <? i)%nat && act l then (Some (new l), el l, (NumScalarPhysicalRegs <=? new l)%nat)
    else view l (mapping a s1);
  rm_old : ∀ q k, q ∉ ps → (q < NumPhysicalRegs)%nat → is_allocated q s1 = true →
    (k < width q)%nat → content q k s = content q k s1;
  rm_new : ∀ l, (l < i)%nat → (l < MaxLanes)%nat → act l = true →
    content (new l) (stored (new l) l) s = cell a l s1
}.

Lemma remapping_start : remapping 0 s1.
Proof. split; try done. intros l Hl. lia. Qed.

Lemma new_inj l l' :
  (l < MaxLanes)%nat → (l' < MaxLanes)%nat → new l = new l' →
  stored (new l) l = stored (new l') l' → l = l'.
Proof.
  intros Hl Hl' E Hs. rewrite <- E in Hs. unfold stored in Hs.
  destruct (Nat.leb_spec NumScalarPhysicalRegs (new l)) as [Hv|]; [|done].
  apply lane_split_eq; [by apply Hcopy|done].
Qed.

(** A lane not done yet still holds what it held. *)
Lemma remapping_cell i s : remapping i s → (i < MaxLanes)%nat → cell a i s = cell a i s1.
Proof.
  intros R Hi. destruct (l_name _ _ L1 a i Ha Hi) as (p & Hp & Hb & Hal & _ & Hv & He).
  pose proof (rm_view _ _ R i Hi) as Hview. rewrite Nat.ltb_irrefl in Hview. cbn [andb] in Hview.
  unfold view in Hview. injection Hview as E1 E2 E3.
  rewrite (cell_content n a i p s1) by done.
  rewrite (cell_named a i p s); [|lia|done|by rewrite <- Hp|by rewrite <- Hv|].
  - apply (rm_old _ _ R); [|done|done|by apply stored_width].
    intros Hin. destruct (Hps p Hin) as (_ & _ & _ & H). by apply (H a i).
  - intros Hle. rewrite E2. by apply He.
Qed.

(** Writing the slot lane [i] moves to. *)
Lemma remapping_poke j i v t s :
  remapping j s → (j <= i)%nat → (i < MaxLanes)%nat →
  let s' := poke (new i) (stored (new i) i) v t s in
  remapping j s' ∧ vrat s' = vrat s ∧
  ∀ l, (l < MaxLanes)%nat →
    content (new l) (stored (new l) l) s' =
      if decide (l = i) then (v, t) else content (new l) (stored (new l) l) s.
Proof.
  intros R Hj Hi s'. pose proof (rm_same _ _ R) as SL. pose proof (sl_ok _ _ SL) as B.
  assert (Hal' : ∀ l, (l < MaxLanes)%nat → (new l < NumPhysicalRegs)%nat ∧ is_allocated (new l) s = true).
  { intros l Hl. rewrite (sl_alloc _ _ SL). by destruct (Hps (new l) (Hnew l Hl)) as (? & ? & _). }
  destruct (Hal' i Hi) as [Hb Hal].
  pose proof (stored_width (new i) i Hi) as Hw. pose proof (width_le _ _ Hw) as Hw'.
  destruct (poke_frame (new i) (stored (new i) i) v t s Hb Hal Hw') as (Hvr & _).
  assert (Hm : ∀ b, mapping b s' = mapping b s) by (intros b; unfold mapping, s'; by rewrite Hvr).
  assert (Hc : ∀ l, (l < MaxLanes)%nat → content (new l) (stored (new l) l) s' =
    if decide (l = i) then (v, t) else content (new l) (stored (new l) l) s).
  { intros l Hl. destruct (Hal' l Hl). unfold s'. rewrite poke_content by (done || by apply stored_width).
    destruct (decide (l = i)) as [->|Hne]; [by rewrite decide_True|].
    rewrite decide_False; [done|]. intros [E1 E2]. by apply Hne, new_inj. }
  split_and!; [|done|done]. split.
  - etrans; [done|]. by apply poke_same.
  - intros b Hb'. rewrite Hm. by apply (rm_other _ _ R).
  - intros l Hl. rewrite Hm. by apply (rm_view _ _ R).
  - intros q k Hq Hqb Hqa Hk. unfold s'. rewrite poke_content; try done.
    + rewrite decide_False; [by apply (rm_old _ _ R)|]. intros [-> _]. by apply Hq, Hnew.
    + by rewrite (sl_alloc _ _ SL).
  - intros l Hlj Hl Hact. rewrite Hc by done. rewrite decide_False by lia. by apply (rm_new _ _ R).
Qed.

(** Setting the summaries of the register. *)
Lemma remapping_set i f s :
  remapping i s →
  (∀ m, lanePhysical (f m) = lanePhysical m ∧ laneElement (f m) = laneElement m ∧
        laneVectorized (f m) = laneVectorized m) →
  remapping i (set_mapping a f s).
Proof.
  intros R Hf. pose proof (rm_same _ _ R) as SL. pose proof (sl_ok _ _ SL) as B.
  assert (Ha' : (a < NumArchitecturalRegs)%nat) by lia.
  destruct (Hf (mapping a s)) as (F1 & F2 & F3).
  split; [| | |apply R|apply R].
  - etrans; [done|]. apply set_mapping_same; [done..|]. cbn. rewrite F1, F2, F3. by apply (b_map _ B).
  - intros b Hb. rewrite mapping_set, decide_False by (done || apply B). by apply (rm_other _ _ R).
  - intros l Hl. rewrite mapping_set, decide_True by (done || apply B).
    unfold view, lane_vectorized in *. rewrite F1, F2, F3. by apply (rm_view _ _ R).
Qed.

(** Mapping lane [i], or leaving it. *)
Lemma remapping_next i s :
  remapping i s → (i < MaxLanes)%nat →
  (act i = true → content (new i) (stored (new i) i) s = cell a i s1) →
  remapping (S i) (if act i then map_lane a i (new i) (el i) (NumScalarPhysicalRegs <=? new i)%nat s
                   else s).
Proof.
  intros R Hi Hc. pose proof (rm_same _ _ R) as SL. pose proof (sl_ok _ _ SL) as B.
  assert (Ha' : (a < NumArchitecturalRegs)%nat) by lia.
  assert (Hlt : ∀ l, l ≠ i → (l <? S i)%nat = (l <? i)%nat).
  { intros l Hl. destruct (Nat.ltb_spec l (S i)), (Nat.ltb_spec l i); (done || lia). }
  set (s' := map_lane _ _ _ _ _ _).
  assert (Hnewc : ∀ l, (l < S i)%nat → (l < MaxLanes)%nat → act l = true →
    content (new l) (stored (new l) l) s = cell a l s1).
  { intros l Hli Hl Hact. destruct (decide (l = i)) as [->|]; [by apply Hc|].
    apply (rm_new _ _ R); [lia|done|done]. }
  destruct (act i) eqn:Hact.
  - split.
    + etrans; [done|]. by apply map_lane_same.
    + intros b Hb. unfold s', map_lane. rewrite mapping_set, decide_False by (done || apply B).
      by apply (rm_other _ _ R).
    + intros l Hl. unfold s'. rewrite map_lane_view by done.
      destruct (decide (l = i)) as [->|Hne].
      * destruct (Nat.ltb_spec i (S i)); [|lia]. by rewrite Hact.
      * rewrite Hlt by done. by apply (rm_view _ _ R).
    + intros q k. apply (rm_old _ _ R).
    + exact Hnewc.
  - split; try apply R; [|exact Hnewc].
    intros l Hl. destruct (decide (l = i)) as [->|Hne].
    + rewrite (rm_view _ _ R) by done. by rewrite Hact, !andb_false_r.
    + rewrite Hlt by done. by apply (rm_view _ _ R).
Qed.

(** ** After the loop *)

Context (s : Bank) (R : remapping MaxLanes s).

Lemma remapped_view l :
  (l < MaxLanes)%nat → view l (mapping a s) =
    if act l then (Some (new l), el l, (NumScalarPhysicalRegs <=? new l)%nat)
    else view l (mapping a s1).
Proof. intros Hl. rewrite (rm_view _ _ R) by done. apply Nat.ltb_lt in Hl as ->. done. Qed.

Lemma remapped_name b l :
  (l < MaxLanes)%nat →
  name b l s = if decide (b = a ∧ act l = true) then Some (new l) else name b l s1.
Proof.
  intros Hl. unfold name. destruct (decide (b = a)) as [->|Hb].
  - pose proof (remapped_view l Hl) as H. unfold view in H.
    destruct (act l); injection H as H _ _;
      [by rewrite decide_True|rewrite decide_False by (intros []; done); exact H].
  - rewrite decide_False by tauto. by rewrite (rm_other _ _ R).
Qed.

Lemma remapped_lanes : lanes_ok n s.
Proof.
  pose proof (rm_same _ _ R) as SL. split.
  - intros b l Hb Hl. rewrite remapped_name by done.
    destruct (decide (b = a ∧ act l = true)) as [[-> Hact]|Hne].
    + destruct (Hps (new l) (Hnew l Hl)) as (Hbl & Hall & Hpe & _). exists (new l).
      pose proof (remapped_view l Hl) as H. rewrite Hact in H. unfold view in H.
      injection H as E1 E2 E3. rewrite (sl_alloc _ _ SL), (sl_pending _ _ SL), E2 by done.
      split_and!; try done. apply Hel.
    + destruct (l_name _ _ L1 b l Hb Hl) as (p & Hp & Hbp & Hal & Hpe & Hv & He). exists p.
      rewrite (sl_alloc _ _ SL), (sl_pending _ _ SL) by done.
      assert (view l (mapping b s) = view l (mapping b s1)) as Hvw.
      { destruct (decide (b = a)) as [->|Hba]; [|by rewrite (rm_other _ _ R)].
        rewrite remapped_view by done. destruct (act l); [|done]. by destruct Hne. }
      unfold view in Hvw. injection Hvw as E1 E2 E3. rewrite E2, E3. by split_and!.
  - intros b l b' l' p Hb Hl Hb' Hl'. rewrite !remapped_name by done.
    assert (Hno : ∀ l0 b0 l1, (l0 < MaxLanes)%nat → (b0 < n)%nat → (l1 < MaxLanes)%nat →
      name b0 l1 s1 ≠ Some (new l0)).
    { intros l0 b0 l1 H0 H1 H2. destruct (Hps (new l0) (Hnew l0 H0)) as (_ & _ & _ & H).
      by apply H. }
    destruct (decide (b = a ∧ act l = true)) as [[-> Hact]|_],
      (decide (b' = a ∧ act l' = true)) as [[-> Hact']|_]; intros E1 E2.
    + injection E1 as <-. injection E2 as E2. split; [done|]. intros Hv. by apply Hcopy.
    + injection E1 as <-. by apply Hno in E2.
    + injection E2 as <-. by apply Hno in E1.
    + by apply (l_own _ _ L1 b l b' l' p).
Qed.

(** A rename moves values and changes none. *)
Lemma remapped_cells b l : (b < n)%nat → (l < MaxLanes)%nat → cell b l s = cell b l s1.
Proof.
  intros Hb Hl. pose proof (remapped_name b l Hl) as Hname.
  destruct (decide (b = a ∧ act l = true)) as [[-> Hact]|Hne].
  - rewrite (cell_content n a l (new l)) by (done || apply remapped_lanes).
    by apply (rm_new _ _ R).
  - destruct (l_name _ _ L1 b l Hb Hl) as (p & Hp & Hbp & Hal & _). rewrite Hp in Hname.
    rewrite (cell_content n b l p s), (cell_content n b l p s1) by (done || apply remapped_lanes).
    apply (rm_old _ _ R); [|done|done|by apply stored_width].
    intros Hin. destruct (Hps p Hin) as (_ & _ & _ & H). by apply (H b l).
Qed.

Lemma remapped_keeps : conserves s1 s.
Proof.
  intros x. rewrite (sl_held _ _ (rm_same _ _ R)). by rewrite (sl_frees _ _ (rm_same _ _ R)).
Qed.

End Remap.

(** *** The renames *)

(** A rename, an allocation, a reference: no lane sees a change. *)
Record steady (n : nat) (s s' : Bank) : Prop := {
  st_ok : bank_ok s';
  st_lanes : lanes_ok n s';
  st_summary : summary_ok n s';
  st_cells : ∀ a l, (a < n)%nat → (l < MaxLanes)%nat → cell a l s' = cell a l s;
  st_keeps : conserves s s';
  st_outside : outside s s';
  st_shared : usesShared s' = usesShared s
}.

Lemma undisturbed_steady n s s' : undisturbed n s s' → steady n s s'.
Proof. intros U. split; apply U. Qed.

#[export] Instance steady_trans n : Transitive (steady n).
Proof.
  intros s1 s2 s3 U1 U2. split; try apply U2.
  - intros a l Ha Hl. by rewrite (st_cells _ _ _ U2), (st_cells _ _ _ U1).
  - intros r. by rewrite (st_keeps _ _ _ U2), (st_keeps _ _ _ U1).
  - by apply (outside_trans _ s2); [apply U1..|apply U2].
  - by rewrite (st_shared _ _ _ U2), (st_shared _ _ _ U1).
Qed.

(** Setting the summaries of a mapping moves no lane. *)
Lemma summaries_set n a f s :
  bank_ok s → lanes_ok n s → (n <= NumArchitecturalRegs)%nat → (a < n)%nat →
  (∀ m, lanePhysical (f m) = lanePhysical m ∧ laneElement (f m) = laneElement m ∧
        laneVectorized (f m) = laneVectorized m) →
  let s' := set_mapping a f s in
  same_but_lanes s s' ∧ lanes_ok n s' ∧ (∀ b l, name b l s' = name b l s) ∧
  ∀ b l, (b < n)%nat → (l < MaxLanes)%nat → cell b l s' = cell b l s.
Proof.
  intros B L Hn Ha Hf s'. assert (Ha' : (a < NumArchitecturalRegs)%nat) by lia.
  assert (Hm : ∀ b, mapping b s' = if decide (b = a) then f (mapping a s) else mapping b s)
    by (intros b; unfold s'; by rewrite mapping_set by (done || apply B)).
  destruct (Hf (mapping a s)) as (F1 & F2 & F3).
  assert (Hname : ∀ b l, name b l s' = name b l s).
  { intros b l. unfold name. rewrite Hm. destruct (decide (b = a)) as [->|]; [|done]. by rewrite F1. }
  assert (L' : lanes_ok n s').
  { split.
    - intros b l Hb Hl. destruct (l_name _ _ L b l Hb Hl) as (p & Hp & Hbp & Hal & Hpe & Hv & He).
      exists p. rewrite Hname, Hm. unfold lane_vectorized in *.
      destruct (decide (b = a)) as [->|]; rewrite ?F2, ?F3; by split_and!.
    - intros b l b' l' p. rewrite !Hname. apply (l_own _ _ L). }
  split_and!; try done.
  - apply set_mapping_same; [done..|]. cbn. rewrite F1, F2, F3. by apply (b_map _ B).
  - apply cells_frame; done.
Qed.

Section FinishRename.

Context (n a : nat) (ps : list nat) (new el : nat → nat) (act : nat → bool) (s0 s1 s2 : Bank).
Hypotheses (L0 : lanes_ok n s0) (S0 : summary_ok n s0) (Hn : (n <= NumArchitecturalRegs)%nat).
Hypotheses (Ha : (a < n)%nat) (C : claimed ps s0 s1).
Hypothesis Hnew : ∀ l, (l < MaxLanes)%nat → new l ∈ ps.
Hypothesis Hcopy : ∀ l l', (l < MaxLanes)%nat → (l' < MaxLanes)%nat → new l = new l' →
  (NumScalarPhysicalRegs <= new l)%nat →
  (l / LanesPerVectorCopy)%nat = (l' / LanesPerVectorCopy)%nat.
Hypothesis Hel : ∀ l, (NumScalarPhysicalRegs <= new l)%nat → el l = (l mod LanesPerVectorCopy)%nat.
Hypothesis R : remapping a ps new el act s1 MaxLanes s2.

Lemma claimed_usable p : p ∈ ps → (p < NumPhysicalRegs)%nat ∧ is_allocated p s1 = true ∧
  pendingRelease (entry p s1) = false ∧
  ∀ b l, (b < n)%nat → (l < MaxLanes)%nat → name b l s1 ≠ Some p.
Proof.
  intros Hp. destruct (claimed_fresh n ps s0 s1 p C L0 S0 Hp) as [H1 H2].
  split_and!; [by apply (c_free _ _ _ C)| |by apply (c_new _ _ _ C)|done].
  rewrite (c_alloc _ _ _ C), bool_decide_eq_true_2, orb_true_r by done. done.
Qed.

Context (f : Mapping → Mapping).
Hypothesis Hf : ∀ m, lanePhysical (f m) = lanePhysical m ∧ laneElement (f m) = laneElement m ∧
        laneVectorized (f m) = laneVectorized m.
Hypothesis Hbundle : ∀ p, Some p ∈ bundle (f (mapping a s2)) → p ∈ ps.
Hypothesis Hscalar : ∀ p, scalar (f (mapping a s2)) = Some p →
  ∀ l, (l < MaxLanes)%nat → name a l s2 = Some p.

Let s3 := set_mapping a f s2.

(** The names after the loop are those of the start and new ones. *)
Lemma finish_name b l : (l < MaxLanes)%nat →
  name b l s3 = if decide (b = a ∧ act l = true) then Some (new l) else name b l s0.
Proof.
  intros Hl. pose proof (claimed_undisturbed n ps s0 s1 C L0 S0 Hn) as U.
  assert (lanes_ok n s2) as L2.
  { apply (remapped_lanes n a ps new el act s1); try done; [apply U|apply claimed_usable]. }
  destruct (summaries_set n a f s2) as (_ & _ & H & _); [apply (rm_same _ _ _ _ _ _ _ _ R)|done..|].
  unfold s3. rewrite H, (remapped_name a ps new el act s1) by done.
  unfold name, mapping. by rewrite (c_vrat _ _ _ C).
Qed.

Lemma finish_steady : steady n s0 s3.
Proof.
  pose proof (claimed_undisturbed n ps s0 s1 C L0 S0 Hn) as U.
  pose proof (rm_same _ _ _ _ _ _ _ _ R) as SL.
  assert (L2 : lanes_ok n s2).
  { apply (remapped_lanes n a ps new el act s1); try done; [apply U|apply claimed_usable]. }
  destruct (summaries_set n a f s2) as (SL' & L3 & _ & Hc); [apply SL|done..|].
  split; [apply SL'|done| | | | |].
  - split.
    + intros b p Hb. unfold s3. rewrite mapping_set by (lia || apply SL).
      intros Hin.
      assert ((p < NumPhysicalRegs)%nat ∧ is_allocated p s1 = true ∧
                pendingRelease (entry p s1) = false) as (Hp & Hal & Hpe).
      { destruct (decide (b = a)) as [->|Hba].
        - destruct (claimed_usable p (Hbundle p Hin)) as (? & ? & ? & _). done.
        - rewrite (rm_other _ _ _ _ _ _ _ _ R) in Hin by done.
          destruct (s_bundle _ _ (u_summary _ _ _ U) b p Hb Hin) as (? & ? & ? & _). done. }
      change (is_allocated p (set_mapping a f s2)) with (is_allocated p s2).
      change (entry p (set_mapping a f s2)) with (entry p s2).
      rewrite (sl_alloc _ _ SL), (sl_pending _ _ SL) by done. split_and!; [done..|].
      intros a' l' Ha' Hl'. change (set_mapping a f s2) with s3. rewrite finish_name by done.
      destruct (decide (b = a)) as [->|Hba].
      * destruct (decide (a' = a ∧ act l' = true)) as [[-> _]|_]; [done|]. intros Hq.
        destruct (c_free _ _ _ C p (Hbundle p Hin)) as [_ Hfr].
        destruct (l_name _ _ L0 a' l' Ha' Hl') as (q & Hq' & _ & Haq & _). congruence.
      * rewrite (rm_other _ _ _ _ _ _ _ _ R) in Hin by done.
        unfold mapping in Hin. rewrite (c_vrat _ _ _ C) in Hin.
        destruct (s_bundle _ _ S0 b p Hb Hin) as (_ & Hal0 & _ & Hown).
        destruct (decide (a' = a ∧ act l' = true)) as [_|_]; [|by apply Hown].
        intros [= E]. destruct (c_free _ _ _ C p) as [_ Hfr]; [|congruence].
        rewrite <- E. by apply Hnew.
    + intros b p Hb. unfold s3. rewrite mapping_set by (lia || apply SL).
      destruct (summaries_set n a f s2) as (_ & _ & Hnm & _); [apply SL|done..|].
      destruct (decide (b = a)) as [->|Hba]; intros Hs l Hl; rewrite Hnm; [by apply Hscalar|].
      rewrite (rm_other _ _ _ _ _ _ _ _ R) in Hs by done.
      unfold name. rewrite (rm_other _ _ _ _ _ _ _ _ R) by done.
      by apply (s_scalar _ _ (u_summary _ _ _ U) b p).
  - intros b l Hb Hl. unfold s3. rewrite Hc by done.
    rewrite (remapped_cells n a ps new el act s1);
      [by apply (u_cells _ _ _ U)|first [done|by apply claimed_usable|apply U]..].
  - intros x. unfold s3. rewrite (sl_held _ _ SL'), (sl_frees _ _ SL').
    rewrite (remapped_keeps _ _ _ _ _ _ _ R). apply (u_keeps _ _ _ U).
  - apply (outside_trans _ s1); [apply U|apply U|].
    intros x Hh _. unfold s3. rewrite (sl_file _ _ SL'); [by apply (sl_file _ _ SL)|].
    apply occ_zero. rewrite (sl_held _ _ SL). by apply occ_zero.
  - unfold s3. by rewrite (sl_shared _ _ SL'), (sl_shared _ _ SL), (u_shared _ _ _ U).
Qed.

(** The old names no lane uses any more are released. *)
Lemma finish_rename : bank_ok s0 → ∃ s4,
  release_stale (physicalMappings a s0) (physicalMappings a s3) s3 = Some s4 ∧ steady n s0 s4 ∧
  ∀ b l, (l < MaxLanes)%nat →
    name b l s4 = if decide (b = a ∧ act l = true) then Some (new l) else name b l s0.
Proof.
  intros B0. pose proof finish_steady as St.
  destruct (release_stale_spec n (physicalMappings a s0) (physicalMappings a s3) s3)
    as (s4 & E & U4); try apply St; try done.
  - intros p Hp Hcur. rewrite (mappings_elem n) in Hp by (done || lia).
    destruct Hp as (l0 & Hl0 & Hp).
    destruct (l_name _ _ L0 a l0 Ha Hl0) as (q & Hq & _ & Haq & _).
    rewrite Hp in Hq. injection Hq as <-. split.
    + intros b l Hb Hl Hnm. destruct (decide (b = a)) as [->|Hba].
      * apply Hcur. apply (mappings_elem n); try apply St; try done. eauto.
      * rewrite finish_name in Hnm by done. rewrite decide_False in Hnm by tauto.
        destruct (l_own _ _ L0 a l0 b l p) as [-> _]; done.
    + intros b Hb Hin. unfold s3 in Hin.
      rewrite mapping_set in Hin by (lia || apply (rm_same _ _ _ _ _ _ _ _ R)).
      destruct (decide (b = a)) as [->|Hba].
      * destruct (c_free _ _ _ C p (Hbundle p Hin)). congruence.
      * rewrite (rm_other _ _ _ _ _ _ _ _ R) in Hin by done.
        unfold mapping in Hin. rewrite (c_vrat _ _ _ C) in Hin.
        destruct (s_bundle _ _ S0 b p Hb Hin) as (_ & _ & _ & Hown).
        destruct Hba. symmetry. by apply (Hown a l0).
  - exists s4. split_and!; [done|etrans; [done|by apply undisturbed_steady]|].
    intros b l Hl. unfold name, mapping. rewrite (u_vrat _ _ _ U4). by apply finish_name.
Qed.

End FinishRename.

Lemma names_lookup (names : list nat) l :
  length names = VectorCopies → (l < MaxLanes)%nat →
  names !! (l / LanesPerVectorCopy)%nat = Some (names !!! (l / LanesPerVectorCopy)%nat).
Proof.
  intros Hlen Hl. apply list_lookup_lookup_total_lt. rewrite Hlen. by apply copy_bound.
Qed.

(** One name for each copy of lanes. *)
Lemma names_copy (names : list nat) l l' :
  NoDup names → length names = VectorCopies → (l < MaxLanes)%nat → (l' < MaxLanes)%nat →
  names !!! (l / LanesPerVectorCopy)%nat = names !!! (l' / LanesPerVectorCopy)%nat →
  (l / LanesPerVectorCopy)%nat = (l' / LanesPerVectorCopy)%nat.
Proof.
  intros Hnd Hlen Hl Hl' E. eapply NoDup_lookup; [done|by apply names_lookup|].
  rewrite E. by apply names_lookup.
Qed.

(** Where a rename puts the lanes it maps. *)
Definition moved (n a : nat) (act : nat → bool) (new : nat → nat) (s s' : Bank) : Prop :=
  ∀ b l, (b < n)%nat → (l < MaxLanes)%nat →
    name b l s' = if decide (b = a ∧ act l = true) then Some (new l) else name b l s.

(** [renameVectorMasked]: it fails when no bundle is left; else the active lanes have new
    vector names.  Either way every lane still holds what it held. *)
Lemma renameVectorMasked_spec n a active s :
  bank_ok s → lanes_ok n s → summary_ok n s → (n <= NumArchitecturalRegs)%nat → (a < n)%nat →
  ∃ ok s', renameVectorMasked a active s = Some (ok, s') ∧ steady n s s' ∧
    (ok = true → ∃ new, moved n a (mask_test active) new s s' ∧
       ∀ l, (l < MaxLanes)%nat → (NumScalarPhysicalRegs <= new l)%nat ∧
            is_allocated (new l) s = false).
Proof.
  intros B L S Hn Ha. unfold renameVectorMasked. destruct (Nat.leb_spec NumArchitecturalRegs a); [lia|].
  destruct (allocateVectorBundle_spec s B) as (o & s1 & -> & Ho). cbn [mbind option_bind].
  destruct o as [names|].
  2: { exists false, s1. split_and!; [done| |done]. destruct Ho as [C _].
       by eapply undisturbed_steady, claimed_undisturbed. }
  destruct Ho as (C & Hnd & Hlen & Hvec).
  set (new := λ l, names !!! (l / LanesPerVectorCopy)%nat).
  set (el := λ l, (l mod LanesPerVectorCopy)%nat).
  assert (Hnew : ∀ l, (l < MaxLanes)%nat → new l ∈ names).
  { intros l Hl. by eapply list_elem_of_lookup_2, names_lookup. }
  assert (Hcopy : ∀ l l', (l < MaxLanes)%nat → (l' < MaxLanes)%nat → new l = new l' →
    (NumScalarPhysicalRegs <= new l)%nat →
    (l / LanesPerVectorCopy)%nat = (l' / LanesPerVectorCopy)%nat).
  { intros l l' Hl Hl' E _. by apply (names_copy names). }
  pose proof (claimed_undisturbed n names s s1 C L S Hn) as U.
  pose proof (claimed_usable n names s s1 L S C) as Hps.
  set (s2 := for_range 0 MaxLanes (rename_vector_lane a names active) s1).
  assert (R : remapping a names new el (mask_test active) s1 MaxLanes s2).
  { apply (for_range_rule (remapping a names new el (mask_test active) s1) 0 MaxLanes).
    { apply (remapping_start n); first [done|apply U]. }
    intros i s' Hi Rm. assert (Hi' : (i < MaxLanes)%nat) by lia.
    pose proof (proj2 (Nat.leb_le _ _) (Hvec _ (Hnew i Hi'))) as Hv.
    destruct (remapping_poke n a names new el (mask_test active) s1 Hn Ha Hps Hnew Hcopy i i
      (read a i s') (readyAt a i s') s' Rm (Nat.le_refl i) Hi') as (Rm' & _ & Hcont).
    specialize (Hcont i Hi'). rewrite decide_True in Hcont by done.
    pose proof (remapping_cell n a names new el (mask_test active) s1 (u_lanes _ _ _ U) Hn Ha Hps
      i s' Rm Hi') as Hcell. unfold cell in Hcell at 1. rewrite Hcell in Hcont.
    pose proof (remapping_next n a names new el (mask_test active) s1 Hn Ha i _ Rm' Hi'
      (λ _, Hcont)) as Rn.
    unfold rename_vector_lane. rewrite Hv in Rn. unfold stored in Rn. rewrite Hv in Rn. exact Rn. }
  set (f := λ m, m <| bundle := Some <$> names |> <| scalar := None |>
                   <| vectorized := forallb (λ lane, lane_vectorized lane m) (seq 0 MaxLanes) |>).
  destruct (finish_rename n a names new el (mask_test active) s s1 s2 L S Hn Ha C Hnew Hcopy)
    with (f := f) as (s4 & E & St & Hname); try done.
  { intros p Hp. cbn in Hp. apply list_elem_of_fmap in Hp as (q & [= ->] & Hq). done. }
  fold f. rewrite E. cbn [mbind option_bind]. exists true, s4. split_and!; [done..|].
  intros _. exists new. split; [by intros b l _; apply Hname|].
  intros l Hl. split; [by apply Hvec, Hnew|]. by apply (c_free _ _ _ C), Hnew.
Qed.

Lemma MaxLanes_pos : (0 < MaxLanes)%nat.
Proof. unfold MaxLanes. lia. Qed.

Lemma summarise_Some lanes m q p :
  summarise lanes m (Some q) = Some p → p = q ∧ ∀ l, l ∈ lanes → lanePhysical m !!! l = Some p.
Proof.
  induction lanes as [|l lanes IH]; cbn.
  - intros [= ->]. split; [done|]. intros l Hl. by apply elem_of_nil in Hl.
  - destruct (lane_vectorized l m); [done|]. case_bool_decide as Hq; [|done].
    intros H. destruct (IH H) as [-> Hall]. split; [done|].
    intros l' [->|Hl']%elem_of_cons; [done|by apply Hall].
Qed.

Lemma summarise_first l lanes m p :
  is_Some (lanePhysical m !!! l) → summarise (l :: lanes) m None = Some p →
  ∀ l', l' ∈ l :: lanes → lanePhysical m !!! l' = Some p.
Proof.
  intros [q Hq]. cbn [summarise]. destruct (lane_vectorized l m); [done|]. rewrite Hq. intros H.
  destruct (summarise_Some _ _ _ _ H) as [-> Hall]. intros l' [->|Hl]%elem_of_cons; [done|].
  by apply Hall.
Qed.

Lemma summarise_spec n m p :
  is_Some (lanePhysical m !!! 0%nat) → (0 < n)%nat → summarise (seq 0 n) m None = Some p →
  ∀ l, (l < n)%nat → lanePhysical m !!! l = Some p.
Proof.
  intros H0 Hn Hs l Hl. destruct n as [|n]; [lia|]. cbn [seq] in Hs.
  apply (summarise_first _ _ _ _ H0 Hs). apply (elem_of_seq 0 (S n) l). lia.
Qed.

(** [readyAt] does not see a value written. *)
Lemma readyAt_written a l p k v s :
  bank_ok s → (p < NumPhysicalRegs)%nat → is_allocated p s = true → (k < MaxLanes)%nat →
  readyAt a l (writePhysical (Some p) k v s) = readyAt a l s.
Proof.
  intros B Hp Ha Hk. rewrite writePhysical_live by done. set (s0 := s <| o3file ::= _ |>).
  unfold readyAt. destruct (_ || _); [done|].
  change (physicalIndex a l (set_entry p ?f s0)) with (physicalIndex a l s).
  change (physicalLane a l (set_entry p ?f s0)) with (physicalLane a l s).
  destruct (physicalIndex a l s) as [q|]; [|done]. rewrite entry_set by (done || apply B).
  change (entry ?x s0) with (entry x s). by destruct (decide (q = p)) as [->|].
Qed.

Lemma scalar_set m x y z :
  scalar (m <| bundle := x |> <| vectorized := y |> <| scalar := z |>) = z.
Proof. done. Qed.

#[local] Opaque summarise for_range.

(** [renameScalarMasked]: it fails when no scalar name is left; else the active lanes share a
    new scalar name. *)
Lemma renameScalarMasked_spec n a active s :
  bank_ok s → lanes_ok n s → summary_ok n s → (n <= NumArchitecturalRegs)%nat → (a < n)%nat →
  ∃ o s', renameScalarMasked a active s = Some (o, s') ∧ steady n s s' ∧
    match o with
    | None => ∀ p, (p < NumScalarPhysicalRegs)%nat → is_allocated p s = true
    | Some p => moved n a (mask_test active) (λ _, p) s s' ∧
                (p < NumScalarPhysicalRegs)%nat ∧ is_allocated p s = false
    end.
Proof.
  intros B L S Hn Ha. unfold renameScalarMasked. destruct (Nat.leb_spec NumArchitecturalRegs a); [lia|].
  destruct (allocateScalar_spec s B) as (o & s1 & -> & Ho). cbn [mbind option_bind].
  destruct o as [p|].
  2: { destruct Ho as [-> Hfull]. exists None, s. split_and!; [done| |done].
       by apply undisturbed_steady, undisturbed_refl. }
  destruct Ho as (Hp & C & _).
  assert (Hv : (NumScalarPhysicalRegs <=? p)%nat = false) by (apply Nat.leb_gt; lia).
  set (new := λ _ : nat, p). set (el := λ _ : nat, 0%nat).
  assert (Hnew : ∀ l, (l < MaxLanes)%nat → new l ∈ [p]) by by left.
  assert (Hcopy : ∀ l l', (l < MaxLanes)%nat → (l' < MaxLanes)%nat → new l = new l' →
    (NumScalarPhysicalRegs <= new l)%nat →
    (l / LanesPerVectorCopy)%nat = (l' / LanesPerVectorCopy)%nat).
  { intros l l' _ _ _ Hle. unfold new in Hle. lia. }
  assert (Hel : ∀ l, (NumScalarPhysicalRegs <= new l)%nat → el l = (l mod LanesPerVectorCopy)%nat).
  { intros l Hle. unfold new in Hle. lia. }
  pose proof (claimed_undisturbed n [p] s s1 C L S Hn) as U.
  pose proof (claimed_usable n [p] s s1 L S C) as Hps.
  set (s2 := for_range 0 MaxLanes (rename_scalar_lane a p active) s1).
  assert (R : remapping a [p] new el (mask_test active) s1 MaxLanes s2).
  { apply (for_range_rule (remapping a [p] new el (mask_test active) s1) 0 MaxLanes).
    { apply (remapping_start n); first [done|apply U]. }
    intros i s' Hi Rm. assert (Hi' : (i < MaxLanes)%nat) by lia.
    destruct (Hps p) as (Hb & Hal & _); [by left|].
    pose proof (rm_same _ _ _ _ _ _ _ _ Rm) as SL.
    destruct (remapping_poke n a [p] new el (mask_test active) s1 Hn Ha Hps Hnew Hcopy i i
      (read a i s') (readyAt a i s') s' Rm (Nat.le_refl i) Hi') as (Rm' & _ & Hcont).
    specialize (Hcont i Hi'). rewrite decide_True in Hcont by done.
    pose proof (remapping_cell n a [p] new el (mask_test active) s1 (u_lanes _ _ _ U) Hn Ha Hps
      i s' Rm Hi') as Hcell. unfold cell in Hcell at 1. rewrite Hcell in Hcont.
    unfold rename_scalar_lane. destruct (mask_test active i) eqn:Hact; cbn [negb].
    - rewrite readyAt_written by (done || apply SL || by rewrite (sl_alloc _ _ SL)).
      pose proof (remapping_next n a [p] new el (mask_test active) s1 Hn Ha i _ Rm' Hi'
        (λ _, Hcont)) as Rn. rewrite Hact in Rn.
      unfold stored in Rn. change (new i) with p in Rn. rewrite Hv in Rn. exact Rn.
    - pose proof (remapping_next n a [p] new el (mask_test active) s1 Hn Ha i s' Rm Hi') as Rn.
      rewrite Hact in Rn. by apply Rn. }
  clearbody s2.
  set (f := λ m, m <| bundle := replicate VectorCopies None |>
               <| vectorized := false |> <| scalar := summarise (seq 0 MaxLanes) m None |>).
  assert (L2 : lanes_ok n s2).
  { apply (remapped_lanes n a [p] new el (mask_test active) s1); first [done|apply U|apply Hps]. }
  destruct (finish_rename n a [p] new el (mask_test active) s s1 s2 L S Hn Ha C Hnew Hcopy Hel)
    with (f := f) as (s4 & E & St & Hname); try done.
  { intros q Hin. change (bundle (f (mapping a s2))) with (replicate VectorCopies (@None nat)) in Hin.
    by apply elem_of_replicate_inv in Hin. }
  { intros q Hsum. unfold f in Hsum. rewrite scalar_set in Hsum.
    apply (summarise_spec MaxLanes (mapping a s2)); [|exact MaxLanes_pos|exact Hsum].
    destruct (l_name _ _ L2 a 0 Ha MaxLanes_pos) as (q' & Hq' & _). exists q'. exact Hq'. }
  fold f. rewrite E. cbn [mbind option_bind]. exists (Some p), s4. split_and!; [done|exact St| |exact Hp|].
  - intros b l _. apply Hname.
  - apply (c_free _ _ _ C). by left.
Qed.

Lemma set_mapping_id a s :
  length (vrat s) = NumArchitecturalRegs → (a < NumArchitecturalRegs)%nat → set_mapping a id s = s.
Proof.
  intros Hl Ha. unfold set_mapping. destruct s as [v ph al us fr o]. cbn in *. f_equal.
  unfold id. apply list_insert_id. by apply list_lookup_lookup_total_lt; lia.
Qed.

(** A register all of whose lanes share a name has a scalar one. *)
Lemma scalar_kind n a o s :
  lanes_ok n s → summary_ok n s → (a < n)%nat → scalar (mapping a s) = Some o →
  (o < NumScalarPhysicalRegs)%nat.
Proof.
  intros L S Ha Ho. destruct (Nat.lt_ge_cases o NumScalarPhysicalRegs) as [|Hge]; [done|].
  destruct (l_own _ _ L a 0 a LanesPerVectorCopy o) as [_ H];
    try done; try (by apply (s_scalar _ _ S)); try (unfold MaxLanes, LanesPerVectorCopy; lia).
  - apply (s_scalar _ _ S); try done. unfold MaxLanes, LanesPerVectorCopy; lia.
  - apply (s_scalar _ _ S); try done. unfold MaxLanes, LanesPerVectorCopy; lia.
  - by specialize (H Hge).
Qed.

(** The two loops of [vectorize]. *)
Section VectorizeLoops.

Context (n a o : nat) (names : list nat) (s1 : Bank).
Hypotheses (B1 : bank_ok s1) (L1 : lanes_ok n s1) (S1 : summary_ok n s1).
Hypotheses (Hn : (n <= NumArchitecturalRegs)%nat) (Ha : (a < n)%nat).
Hypothesis Ho : scalar (mapping a s1) = Some o.
Hypothesis Hps : ∀ p, p ∈ names → (p < NumPhysicalRegs)%nat ∧ is_allocated p s1 = true ∧
  pendingRelease (entry p s1) = false ∧
  ∀ b l, (b < n)%nat → (l < MaxLanes)%nat → name b l s1 ≠ Some p.
Hypothesis Hlen : length names = VectorCopies.
Hypothesis Hnd : NoDup names.
Hypothesis Hvec : ∀ p, p ∈ names → (NumScalarPhysicalRegs <= p)%nat.

Let new l := names !!! (l / LanesPerVectorCopy)%nat.
Let el l := (l mod LanesPerVectorCopy)%nat.
Let rest s := bundle (mapping a s) = Some <$> names ∧ scalar (mapping a s) = None.

Lemma bundle_new l : (l < MaxLanes)%nat → new l ∈ names.
Proof. intros Hl. by eapply list_elem_of_lookup_2, names_lookup. Qed.

Lemma bundle_copy l l' : (l < MaxLanes)%nat → (l' < MaxLanes)%nat → new l = new l' →
  (NumScalarPhysicalRegs <= new l)%nat →
  (l / LanesPerVectorCopy)%nat = (l' / LanesPerVectorCopy)%nat.
Proof. intros Hl Hl' E _. by apply (names_copy names). Qed.

Lemma vectorize_copies s2 :
  remapping a names new el (λ _, true) s1 0 s2 →
  let s3 := for_range 0 MaxLanes (vectorize_lane names (Some o)) s2 in
  remapping a names new el (λ _, true) s1 0 s3 ∧ vrat s3 = vrat s2 ∧
  ∀ l, (l < MaxLanes)%nat → content (new l) (stored (new l) l) s3 = cell a l s1.
Proof.
  intros R2 s3.
  pose proof (scalar_kind n a o s1 L1 S1 Ha Ho) as Hok.
  assert (Honame : ∀ l, (l < MaxLanes)%nat → name a l s1 = Some o) by by apply (s_scalar _ _ S1).
  destruct (l_name _ _ L1 a 0 Ha MaxLanes_pos) as (o' & Ho' & Hob & Hoa & _).
  rewrite Honame in Ho' by exact MaxLanes_pos. injection Ho' as <-.
  assert (Hon : o ∉ names) by (intros H%Hvec; lia).
  assert (Hs : ∀ l, stored o l = l).
  { intros l. unfold stored. destruct (Nat.leb_spec NumScalarPhysicalRegs o); [lia|done]. }
  enough (H : remapping a names new el (λ _, true) s1 0 s3 ∧ vrat s3 = vrat s2 ∧
    ∀ l, (l < MaxLanes)%nat → (l < MaxLanes)%nat →
      content (new l) (stored (new l) l) s3 = cell a l s1).
  { destruct H as (H1 & H2 & H3). split_and!; [done|done|auto]. }
  apply (for_range_rule (λ i s, remapping a names new el (λ _, true) s1 0 s ∧ vrat s = vrat s2 ∧
    ∀ l, (l < i)%nat → (l < MaxLanes)%nat →
      content (new l) (stored (new l) l) s = cell a l s1) 0 MaxLanes).
  { split_and!; [done|done|]. intros l Hl. lia. }
  intros i s Hi (R & Hvr & Hc). assert (Hi' : (i < MaxLanes)%nat) by lia.
  pose proof (proj2 (Nat.leb_le _ _) (Hvec _ (bundle_new i Hi'))) as Hv.
  destruct (remapping_poke n a names new el (λ _, true) s1 Hn Ha Hps bundle_new bundle_copy 0 i
    (readPhysical (Some o) i s) (ready (entry o s) !!! i) s R (Nat.le_0_l i) Hi') as (R' & Hvr' & Hc').
  assert (Hcell : content o i s = cell a i s1).
  { rewrite (cell_content n a i o s1) by (done || by apply Honame). rewrite Hs.
    apply (rm_old _ _ _ _ _ _ _ _ R); try done. rewrite <- (Hs i). by apply stored_width. }
  unfold content in Hcell. rewrite Hcell in Hc'.
  assert (Hst : stored (new i) i = (i mod LanesPerVectorCopy)%nat) by (unfold stored; by rewrite Hv).
  change (vectorize_lane names (Some o) i s) with (poke (new i) (i mod LanesPerVectorCopy)
    (readPhysical (Some o) i s) (ready (entry o s) !!! i) s). rewrite <- Hst.
  split_and!; [exact R'|by etrans|]. intros l Hl Hlm.
  etrans; [by apply Hc'|]. destruct (decide (l = i)) as [->|]; [done|]. apply Hc; [lia|done].
Qed.

Lemma vectorize_maps s2 :
  remapping a names new el (λ _, true) s1 0 s2 → rest s2 →
  (∀ l, (l < MaxLanes)%nat → content (new l) (stored (new l) l) s2 = cell a l s1) →
  let s3 := for_range 0 MaxLanes (λ lane, map_lane a lane
              (names !!! (lane / LanesPerVectorCopy)%nat) (lane mod LanesPerVectorCopy)%nat true) s2 in
  remapping a names new el (λ _, true) s1 MaxLanes s3 ∧ rest s3.
Proof.
  intros R2 Hr2 Hc2.
  enough (H : let s3 := for_range 0 MaxLanes (λ lane, map_lane a lane
      (names !!! (lane / LanesPerVectorCopy)%nat) (lane mod LanesPerVectorCopy)%nat true) s2 in
    remapping a names new el (λ _, true) s1 MaxLanes s3 ∧ rest s3 ∧
    ∀ l, (l < MaxLanes)%nat → content (new l) (stored (new l) l) s3 = cell a l s1).
  { destruct H as (H1 & H2 & _). done. }
  apply (for_range_rule (λ i s, remapping a names new el (λ _, true) s1 i s ∧ rest s ∧
    ∀ l, (l < MaxLanes)%nat → content (new l) (stored (new l) l) s = cell a l s1) 0 MaxLanes).
  { done. }
  intros i s Hi (R & Hr & Hc). assert (Hi' : (i < MaxLanes)%nat) by lia.
  pose proof (proj2 (Nat.leb_le _ _) (Hvec _ (bundle_new i Hi'))) as Hv.
  pose proof (remapping_next n a names new el (λ _, true) s1 Hn Ha i s R Hi' (λ _, Hc i Hi')) as Rn.
  cbn in Rn. rewrite Hv in Rn. split_and!; [exact Rn| |exact Hc].
  assert (Ha' : (a < NumArchitecturalRegs)%nat) by lia.
  unfold rest, map_lane. rewrite mapping_set, decide_True; [exact Hr|done| |done].
  apply (sl_ok _ _ (rm_same _ _ _ _ _ _ _ _ R)).
Qed.

(** The states of [vectorize] up to the release of the old name. *)
Lemma vectorize_moves s2 s3 s4 s5 :
  s2 = set_mapping a (λ m, m <| bundle := Some <$> names |>) s1 →
  s3 = for_range 0 MaxLanes (vectorize_lane names (Some o)) s2 →
  s4 = set_mapping a (λ m, m <| vectorized := true |> <| scalar := None |>) s3 →
  s5 = for_range 0 MaxLanes (λ lane, map_lane a lane (names !!! (lane / LanesPerVectorCopy)%nat)
         (lane mod LanesPerVectorCopy)%nat true) s4 →
  remapping a names new el (λ _, true) s1 MaxLanes s5 ∧ rest s5.
Proof.
  intros E2 E3 E4 E5. assert (Ha' : (a < NumArchitecturalRegs)%nat) by lia.
  assert (R2 : remapping a names new el (λ _, true) s1 0 s2).
  { rewrite E2. apply (remapping_set n); try done. by apply (remapping_start n). }
  assert (Bo : bundle (mapping a s2) = Some <$> names).
  { rewrite E2. by rewrite mapping_set, decide_True by (done || apply B1). }
  destruct (vectorize_copies _ R2) as (R3 & Hvr & Hc). rewrite <- E3 in R3, Hvr, Hc.
  assert (R4 : remapping a names new el (λ _, true) s1 0 s4)
    by (rewrite E4; by apply (remapping_set n)).
  rewrite E5. apply vectorize_maps; [done| |rewrite E4; exact Hc].
  unfold rest. rewrite E4, mapping_set, decide_True by (done || apply (rm_same _ _ _ _ _ _ _ _ R3)).
  split; [|done]. unfold mapping. cbn. rewrite Hvr. exact Bo.
Qed.

End VectorizeLoops.

(** [vectorize] of a register with a scalar name. *)
Lemma vectorize_spec n a o s :
  bank_ok s → lanes_ok n s → summary_ok n s → (n <= NumArchitecturalRegs)%nat → (a < n)%nat →
  vectorized (mapping a s) = false → scalar (mapping a s) = Some o →
  ∃ ok s', vectorize a s = Some (ok, s') ∧ steady n s s' ∧
    (ok = true → ∃ new, moved n a (λ _, true) new s s' ∧
       ∀ l, (l < MaxLanes)%nat → (NumScalarPhysicalRegs <= new l)%nat ∧
            is_allocated (new l) s = false).
Proof.
  intros B L S Hn Ha Hvz Ho. unfold vectorize.
  assert (Ha' : (a < NumArchitecturalRegs)%nat) by lia.
  destruct (Nat.leb_spec NumArchitecturalRegs a); [lia|]. rewrite Hvz. cbn [orb].
  destruct (allocateVectorBundle_spec s B) as (r & s1 & -> & Hr). cbn [mbind option_bind].
  destruct r as [names|].
  2: { exists false, s1. split_and!; [done| |done]. destruct Hr as [C _].
       by eapply undisturbed_steady, claimed_undisturbed. }
  destruct Hr as (C & Hnd & Hlen & Hvec).
  pose proof (claimed_undisturbed n names s s1 C L S Hn) as U.
  pose proof (claimed_usable n names s s1 L S C) as Hps.
  assert (Hm1 : mapping a s1 = mapping a s) by (unfold mapping; by rewrite (c_vrat _ _ _ C)).
  rewrite Hm1, Ho.
  set (new := λ l, names !!! (l / LanesPerVectorCopy)%nat).
  set (el := λ l, (l mod LanesPerVectorCopy)%nat).
  rewrite <- Hm1 in Ho.
  set (s2 := set_mapping _ _ s1). set (s3 := for_range _ _ _ s2). set (s4' := set_mapping _ _ s3).
  set (s4 := for_range _ _ _ s4').
  destruct (vectorize_moves n a o names s1 (u_ok _ _ _ U) (u_lanes _ _ _ U) (u_summary _ _ _ U)
    Hn Ha Ho Hps Hlen Hnd Hvec s2 s3 s4' s4) as (R4 & Hb4 & Hs4); [done..|].
  clearbody s4. clear s2 s3 s4'.
  assert (Hid : set_mapping a id s4 = s4)
    by (apply set_mapping_id; [apply (sl_ok _ _ (rm_same _ _ _ _ _ _ _ _ R4))|done]).
  assert (Hnew : ∀ l, (l < MaxLanes)%nat → new l ∈ names).
  { intros l Hl. by eapply list_elem_of_lookup_2, names_lookup. }
  assert (Hcopy : ∀ l l', (l < MaxLanes)%nat → (l' < MaxLanes)%nat → new l = new l' →
    (NumScalarPhysicalRegs <= new l)%nat →
    (l / LanesPerVectorCopy)%nat = (l' / LanesPerVectorCopy)%nat).
  { intros l l' Hl Hl' E _. by apply (names_copy names). }
  assert (Hbun : ∀ p, Some p ∈ bundle (mapping a s4) → p ∈ names).
  { intros p. rewrite Hb4. intros (q & [= ->] & Hq)%list_elem_of_fmap. done. }
  assert (St : steady n s s4).
  { rewrite <- Hid. apply (finish_steady n a names new el (λ _, true) s s1); try done.
    intros p. cbn. by rewrite Hs4. }
  assert (Hname : ∀ b l, (l < MaxLanes)%nat →
    name b l s4 = if decide (b = a ∧ true = true) then Some (new l) else name b l s).
  { intros b l Hl. rewrite <- Hid.
    apply (finish_name n a names new el (λ _, true) s s1); try done. }
  assert (Hold : ∀ l, (l < MaxLanes)%nat → name a l s = Some o)
    by (intros l Hl; apply (s_scalar _ _ S); [done|congruence|done]).
  destruct (l_name _ _ L a 0 Ha MaxLanes_pos) as (q & Hq & _ & Hoa & _).
  rewrite Hold in Hq by exact MaxLanes_pos. injection Hq as <-.
  assert (Hon : o ∉ names) by (intros H'; destruct (c_free _ _ _ C o H'); congruence).
  destruct (markDead_spec n o s4) as (s5 & -> & U5); try apply St; try done.
  { intros b l Hb Hl. rewrite Hname by done.
    destruct (decide (b = a ∧ true = true)) as [_|Hne].
    - intros [= E]. apply Hon. rewrite <- E. by apply Hnew.
    - intros E. destruct (l_own _ _ L b l a 0 o Hb Hl Ha MaxLanes_pos E (Hold 0%nat MaxLanes_pos))
        as [-> _]. by apply Hne. }
  { intros b Hb Hin. destruct (decide (b = a)) as [->|Hba]; [by apply Hon, Hbun|].
    rewrite (rm_other _ _ _ _ _ _ _ _ R4) in Hin by done.
    destruct (s_bundle _ _ (u_summary _ _ _ U) b o Hb Hin) as (_ & _ & _ & Hown).
    apply Hba. symmetry. apply (Hown a 0%nat); [done|exact MaxLanes_pos|].
    unfold name. rewrite Hm1. apply Hold, MaxLanes_pos. }
  cbn [mbind option_bind]. exists true, s5. split_and!; [done|etrans; [done|]; by apply undisturbed_steady|].
  intros _. exists new. split.
  - intros b l Hb Hl. unfold name, mapping. rewrite (u_vrat _ _ _ U5). by apply Hname.
  - intros l Hl. split; [by apply Hvec, Hnew|]. by apply (c_free _ _ _ C), Hnew.
Qed.

(** *** [releaseAll] *)

(** [s'] is [s] with some names freed. *)
Record cleared (s s' : Bank) : Prop := {
  cl_ok : bank_ok s';
  cl_vrat : vrat s' = vrat s;
  cl_file : o3file s' = o3file s;
  cl_shared : usesShared s' = usesShared s;
  cl_alloc : ∀ p, is_allocated p s' = true → is_allocated p s = true;
  cl_keeps : conserves s s'
}.

Lemma release_all_spec ps s :
  bank_ok s → (∀ p, p ∈ ps → (p < NumPhysicalRegs)%nat) →
  ∃ s', release_all ps s = Some s' ∧ cleared s s' ∧ ∀ p, p ∈ ps → is_allocated p s' = false.
Proof.
  revert s. induction ps as [|p ps IH]; intros s B Hps; cbn [release_all].
  { exists s. split_and!; [done|by split|]. intros p Hp. by apply elem_of_nil in Hp. }
  assert (∃ s1, (if is_allocated p s then free_entry p s else Some s) = Some s1 ∧ cleared s s1 ∧
                is_allocated p s1 = false) as (s1 & -> & C1 & Hp1).
  { destruct (is_allocated p s) eqn:Ha; [|exists s; split_and!; [done|by split|done]].
    destruct (free_entry_spec p s B) as (s1 & E & F); [apply Hps; by left|]. exists s1.
    split_and!; [done| |].
    - split; try apply F. intros q. rewrite (fr_alloc _ _ _ F). by intros [? _]%andb_true_iff.
    - rewrite (fr_alloc _ _ _ F), (bool_decide_eq_false_2 (p ≠ p)), andb_false_r by tauto. done. }
  cbn [mbind option_bind]. destruct (IH s1) as (s2 & -> & C2 & Hp2);
    [apply C1|intros q Hq; apply Hps; by right|].
  exists s2. split_and!; [done| |].
  - split; [apply C2| | | | |].
    + by rewrite (cl_vrat _ _ C2), (cl_vrat _ _ C1).
    + by rewrite (cl_file _ _ C2), (cl_file _ _ C1).
    + by rewrite (cl_shared _ _ C2), (cl_shared _ _ C1).
    + intros q Hq. by apply (cl_alloc _ _ C1), (cl_alloc _ _ C2).
    + intros x. by rewrite (cl_keeps _ _ C2), (cl_keeps _ _ C1).
  - intros q [->|Hq]%elem_of_cons; [|by apply Hp2].
    destruct (is_allocated p s2) eqn:Ha; [|done]. apply (cl_alloc _ _ C2) in Ha. congruence.
Qed.

(** Nothing is held when no name is in use. *)
Lemma held_unused s :
  bank_ok s → (∀ p, (p < NumPhysicalRegs)%nat → is_allocated p s = false) →
  physical s = replicate NumPhysicalRegs PhysicalRegister_init ∧ held s = [].
Proof.
  intros B Ha.
  assert (E : physical s = replicate NumPhysicalRegs PhysicalRegister_init).
  { apply list_eq_same_length with (n := NumPhysicalRegs);
      [by rewrite length_replicate|apply B|].
    intros p e e' Hp He He'. apply lookup_replicate in He' as [-> _].
    pose proof (e_unused _ _ _ (b_entry _ B p Hp) (Ha p Hp)) as H.
    unfold entry in H. by rewrite (list_lookup_total_correct _ _ _ He) in H. }
  split; [done|]. unfold held. rewrite E. clear. induction NumPhysicalRegs; [done|exact IHn].
Qed.

(** Every register borrowed from the main core is free there again. *)
Lemma releaseAll_spec s :
  bank_ok s → ∃ s', releaseAll s = Some s' ∧ cleared s s' ∧
    (∀ p, (p < NumPhysicalRegs)%nat → is_allocated p s' = false) ∧ held s' = [].
Proof.
  intros B. destruct (release_all_spec (seq 0 NumPhysicalRegs) s B) as (s' & E & C & Ha).
  { intros p Hp%elem_of_seq. lia. }
  assert (Hall : ∀ p, (p < NumPhysicalRegs)%nat → is_allocated p s' = false).
  { intros p Hp. apply Ha, elem_of_seq. lia. }
  exists s'. split_and!; [done..|]. apply held_unused; [apply C|auto].
Qed.

(** [reset] *)
Lemma reset_spec s :
  bank_ok s → ∃ s', reset s = Some s' ∧ bank_ok s' ∧ (∀ p, (p < NumPhysicalRegs)%nat → is_allocated p s' = false) ∧
    conserves s s' ∧ outside s s' ∧ held s' = [] ∧ usesShared s' = usesShared s ∧
    vrat s' = replicate NumArchitecturalRegs Mapping_init.
Proof.
  intros B. unfold reset. destruct (releaseAll_spec s B) as (s1 & -> & C & Ha & Hh).
  cbn [mbind option_bind]. eexists. split; [done|].
  destruct (held_unused s1 (cl_ok _ _ C)) as [Hp _]; [auto|].
  set (s2 := (s1 <| vrat := _ |>) <| physical := _ |>).
  assert (Hh2 : held s2 = held s1) by (unfold held, s2; cbn; by rewrite Hp).
  pose proof (cl_ok _ _ C) as B1. split_and!.
  - split; rewrite ?Hh2; try apply B1; try done.
    + intros p Hp'. pose proof (b_entry _ B1 p Hp') as E. unfold entry in *. rewrite Hp in E. exact E.
    + intros a Ha'. unfold mapping, s2. cbn.
      by rewrite (list_lookup_total_correct _ _ _ (proj2 (lookup_replicate _ _ _ _) (conj eq_refl Ha'))).
  - exact Ha.
  - intros x. rewrite Hh2. apply (cl_keeps _ _ C).
  - intros r _ _. change (o3file s2) with (o3file s1). by rewrite (cl_file _ _ C).
  - by rewrite Hh2.
  - apply C.
  - done.
Qed.

(** *** [initialize] *)

Lemma set_entry_ext p f g s :
  f (entry p s) = g (entry p s) → set_entry p f s = set_entry p g s.
Proof. unfold set_entry, entry. destruct s as [v ph al us fr o]. cbn. by intros ->. Qed.

(** Initialising a lane leaves its ready tick. *)
Lemma init_lane_poke p v l s :
  bank_ok s → (p < NumPhysicalRegs)%nat → is_allocated p s = true → (l < MaxLanes)%nat →
  init_lane p v l s = poke p l v (ready (entry p s) !!! l) s.
Proof.
  intros B Hp Ha Hl. unfold init_lane, poke, set_ready. apply set_entry_ext.
  rewrite writePhysical_live by done. set (s0 := s <| o3file ::= _ |>).
  rewrite entry_set, decide_True by (done || apply B). change (entry p s0) with (entry p s). clear s0.
  pose proof (e_ready _ _ _ (b_entry _ B p Hp)) as Hr. destruct (entry p s) as [? rd ? ? ? ? ? ? ? ?].
  cbn in *. rewrite (list_insert_id rd) by (apply list_lookup_lookup_total_lt; lia). done.
Qed.

(** The first [n] registers are initialised. *)
Record initialised (regs : list Z) (n : nat) (s : Bank) : Prop := {
  in_ok : bank_ok s;
  in_lanes : lanes_ok n s;
  in_summary : summary_ok n s;
  in_alloc : ∀ p, (p < NumPhysicalRegs)%nat → is_allocated p s = (p <? n)%nat;
  in_cells : ∀ a l, (a < n)%nat → (l < MaxLanes)%nat → cell a l s = (regs !!! a, 0);
  in_scalar : ∀ a, (a < n)%nat → scalar (mapping a s) = Some a ∧ vectorized (mapping a s) = false;
  in_fresh : ∀ a, (n <= a)%nat → (a < NumArchitecturalRegs)%nat → mapping a s = Mapping_init
}.

(** The lanes of the fresh name [p], all written. *)
Lemma init_lanes p v s :
  bank_ok s → (p < NumScalarPhysicalRegs)%nat → is_allocated p s = true →
  ready (entry p s) = replicate MaxLanes 0 →
  let s' := for_range 0 MaxLanes (init_lane p v) s in
  same_but_lanes s s' ∧ vrat s' = vrat s ∧
  (∀ q k, q ≠ p → (q < NumPhysicalRegs)%nat → is_allocated q s = true → (k < width q)%nat →
     content q k s' = content q k s) ∧
  ∀ l, (l < MaxLanes)%nat → content p l s' = (v, 0).
Proof.
  intros B Hp Ha Hr s'.
  assert (Hpn : (p < NumPhysicalRegs)%nat) by (unfold NumPhysicalRegs, NumScalarPhysicalRegs in *; lia).
  assert (Hw : width p = MaxLanes).
  { unfold width. destruct (Nat.leb_spec NumScalarPhysicalRegs p); [lia|done]. }
  enough (H : same_but_lanes s s' ∧ vrat s' = vrat s ∧
    (∀ q k, q ≠ p → (q < NumPhysicalRegs)%nat → is_allocated q s = true → (k < width q)%nat →
       content q k s' = content q k s) ∧
    ∀ l, (l < MaxLanes)%nat → (content p l s').2 = 0 ∧ ((l < MaxLanes)%nat → (content p l s').1 = v)).
  { destruct H as (H1 & H2 & H3 & H4). split_and!; [done..|]. intros l Hl.
    destruct (H4 l Hl) as [E2 E1]. specialize (E1 Hl). destruct (content p l s'). cbn in *. congruence. }
  apply (for_range_rule (λ i s', same_but_lanes s s' ∧ vrat s' = vrat s ∧
    (∀ q k, q ≠ p → (q < NumPhysicalRegs)%nat → is_allocated q s = true → (k < width q)%nat →
       content q k s' = content q k s) ∧
    ∀ l, (l < MaxLanes)%nat → (content p l s').2 = 0 ∧ ((l < i)%nat → (content p l s').1 = v)) 0 MaxLanes).
  { split_and!; [by split|done|done|]. intros l Hl. split; [|lia]. unfold content. cbn [snd].
    rewrite Hr. by apply lookup_total_replicate_2. }
  intros i t Hi (SL & Hvr & Ho & Hc). assert (Hi' : (i < MaxLanes)%nat) by lia.
  pose proof (sl_ok _ _ SL) as Bt.
  assert (Hat : is_allocated p t = true) by by rewrite (sl_alloc _ _ SL).
  rewrite init_lane_poke by done. destruct (Hc i Hi') as [Hri _]. unfold content in Hri. cbn [snd] in Hri.
  rewrite Hri. destruct (poke_frame p i v 0 t Hpn Hat Hi') as (Hvr' & _). split_and!.
  - etrans; [done|]. by apply poke_same.
  - by rewrite Hvr'.
  - intros q k Hq Hqb Hqa Hk. rewrite poke_content; try done.
    + rewrite decide_False by tauto. by apply Ho.
    + by rewrite Hw.
    + by rewrite (sl_alloc _ _ SL).
  - intros l Hl. rewrite poke_content by (done || by rewrite Hw).
    destruct (decide (p = p ∧ l = i)) as [[_ ->]|Hne]; [done|].
    destruct (Hc l Hl) as [H1 H2]. split; [done|]. intros Hlt. apply H2.
    assert (l ≠ i) by tauto. lia.
Qed.

(** One register of [initialize]: the names are handed out in order. *)
Section InitReg.

Context (regs : list Z) (i : nat) (s s1 : Bank).
Hypotheses (I : initialised regs i s) (Hi : (i < NumArchitecturalRegs)%nat) (C : claimed [i] s s1).

Let v := regs !!! i.
Let s' := init_reg i i v s1.

Lemma small_scalar : (i < NumScalarPhysicalRegs)%nat.
Proof. unfold NumArchitecturalRegs, NumScalarPhysicalRegs in *. lia. Qed.

Lemma init_reg_spec :
  same_but_lanes s1 s' ∧
  (∀ b, (b < NumArchitecturalRegs)%nat → b ≠ i → mapping b s' = mapping b s) ∧
  (∀ l, (l < MaxLanes)%nat → view l (mapping i s') = (Some i, 0%nat, false)) ∧
  bundle (mapping i s') = replicate VectorCopies None ∧
  scalar (mapping i s') = Some i ∧ vectorized (mapping i s') = false ∧
  (∀ q k, q ≠ i → (q < NumPhysicalRegs)%nat → is_allocated q s1 = true → (k < width q)%nat →
     content q k s' = content q k s1) ∧
  ∀ l, (l < MaxLanes)%nat → content i l s' = (v, 0).
Proof.
  pose proof small_scalar as Hsc. pose proof (c_ok _ _ _ C) as B1.
  set (f := λ m : Mapping, (m <| scalar := Some i |> <| lanePhysical := replicate MaxLanes (Some i) |>
             <| laneElement := replicate MaxLanes 0%nat |>
             <| laneVectorized := replicate MaxLanes false |>)).
  assert (Hm1 : ∀ b, mapping b s1 = mapping b s) by (intros b; unfold mapping; by rewrite (c_vrat _ _ _ C)).
  set (s2 := set_mapping i f s1).
  assert (SL : same_but_lanes s1 s2).
  { apply set_mapping_same; [done..|]. cbn. by rewrite !length_replicate. }
  assert (Hm2 : ∀ b, mapping b s2 = if decide (b = i) then f (mapping i s) else mapping b s).
  { intros b. unfold s2. rewrite mapping_set by (done || apply B1). by rewrite !Hm1. }
  destruct (init_lanes i v s2) as (SL' & Hvr & Hold & Hnew).
  { apply SL. }
  { done. }
  { rewrite (sl_alloc _ _ SL), (c_alloc _ _ _ C), bool_decide_eq_true_2, orb_true_r by by left. done. }
  { change (entry i s2) with (entry i s1). apply (c_ready _ _ _ C). by left. }
  change (for_range 0 MaxLanes (init_lane i v) s2) with s' in *.
  assert (Hm : ∀ b, mapping b s' = mapping b s2) by (intros b; unfold mapping; by rewrite Hvr).
  split_and!.
  - by etrans.
  - intros b Hb Hne. by rewrite Hm, Hm2, decide_False.
  - intros l Hl. rewrite Hm, Hm2, decide_True by done. unfold view, lane_vectorized. cbn.
    by rewrite !lookup_total_replicate_2.
  - rewrite Hm, Hm2, decide_True by done. cbn. by rewrite (in_fresh _ _ _ I).
  - by rewrite Hm, Hm2, decide_True.
  - rewrite Hm, Hm2, decide_True by done. cbn. by rewrite (in_fresh _ _ _ I).
  - intros q k Hq Hqb Hqa Hk. rewrite Hold; [done|done|done| |done]. by rewrite (sl_alloc _ _ SL).
  - done.
Qed.

Lemma init_reg_lanes : lanes_ok (S i) s' ∧ summary_ok (S i) s'.
Proof.
  pose proof small_scalar as Hsc. assert (Hle : (i <= NumArchitecturalRegs)%nat) by lia.
  pose proof (claimed_undisturbed i [i] s s1 C (in_lanes _ _ _ I) (in_summary _ _ _ I) Hle) as U.
  destruct (claimed_fresh i [i] s s1 i C (in_lanes _ _ _ I) (in_summary _ _ _ I)) as [F1 F2]; [by left|].
  destruct init_reg_spec as (SL & Hoth & Hview & Hbun & Hsca & _ & _ & _).
  assert (Hm : ∀ b, (b < i)%nat → mapping b s' = mapping b s1).
  { intros b Hb. rewrite Hoth by lia. unfold mapping. by rewrite (c_vrat _ _ _ C). }
  assert (Hname : ∀ b l, (b < S i)%nat → (l < MaxLanes)%nat →
    name b l s' = if decide (b = i) then Some i else name b l s1).
  { intros b l Hb Hl. unfold name. destruct (decide (b = i)) as [->|Hne]; [|by rewrite Hm by lia].
    pose proof (Hview l Hl) as H. unfold view in H. by injection H. }
  assert (Hip : (i < NumPhysicalRegs)%nat) by apply (c_free _ _ _ C i (list_elem_of_here _ _)).
  split; split.
  - intros b l Hb Hl. rewrite Hname by done. destruct (decide (b = i)) as [->|Hne].
    + exists i. rewrite (sl_alloc _ _ SL), (sl_pending _ _ SL) by done.
      pose proof (Hview l Hl) as H. unfold view in H. injection H as _ _ ->.
      split_and!; [done|done| |apply (c_new _ _ _ C); by left| |lia].
      * rewrite (c_alloc _ _ _ C), bool_decide_eq_true_2, orb_true_r by by left. done.
      * symmetry. apply Nat.leb_gt. lia.
    + destruct (l_name _ _ (u_lanes _ _ _ U) b l) as (p & Hp & Hbp & Hal & Hpe & Hv & He); [lia|done|].
      exists p. rewrite (sl_alloc _ _ SL), (sl_pending _ _ SL), Hm by (done || lia). by split_and!.
  - intros b l b' l' p Hb Hl Hb' Hl'. rewrite !Hname by done.
    destruct (decide (b = i)) as [->|Hne], (decide (b' = i)) as [->|Hne']; intros E1 E2.
    + injection E1 as <-. split; [done|lia].
    + injection E1 as <-. destruct (F1 b' l'); [lia|done|done].
    + injection E2 as <-. destruct (F1 b l); [lia|done|done].
    + apply (l_own _ _ (u_lanes _ _ _ U) b l b' l' p); (done || lia).
  - intros b p Hb Hin. destruct (decide (b = i)) as [->|Hne].
    { rewrite Hbun in Hin. by apply elem_of_replicate_inv in Hin. }
    rewrite Hm in Hin by lia.
    destruct (s_bundle _ _ (u_summary _ _ _ U) b p) as (Hp & Hal & Hpe & Hown); [lia|done|].
    rewrite (sl_alloc _ _ SL), (sl_pending _ _ SL) by done. split_and!; try done.
    intros a' l' Ha' Hl'. rewrite Hname by done. destruct (decide (a' = i)) as [->|].
    + intros [= <-]. destruct (F2 b); [lia|done].
    + apply Hown; [lia|done].
  - intros b p Hb Hs l Hl. rewrite Hname by done. destruct (decide (b = i)) as [->|Hne]; [congruence|].
    rewrite Hm in Hs by lia. apply (s_scalar _ _ (u_summary _ _ _ U) b p); (done || lia).
Qed.

Lemma init_reg_initialised :
  initialised regs (S i) s' ∧ conserves s s' ∧ outside s s' ∧ usesShared s' = usesShared s.
Proof.
  pose proof small_scalar as Hsc. assert (Hle : (i <= NumArchitecturalRegs)%nat) by lia.
  pose proof (claimed_undisturbed i [i] s s1 C (in_lanes _ _ _ I) (in_summary _ _ _ I) Hle) as U.
  destruct init_reg_lanes as [L' S'].
  destruct init_reg_spec as (SL & Hoth & Hview & Hbun & Hsca & Hvz & Hold & Hnew).
  assert (Hle' : (S i <= NumArchitecturalRegs)%nat) by lia.
  assert (Hm : ∀ b, (b < i)%nat → mapping b s' = mapping b s1).
  { intros b Hb. rewrite Hoth by lia. unfold mapping. by rewrite (c_vrat _ _ _ C). }
  split_and!.
  - split; [apply SL|done|done| | | |].
    + intros p Hp. rewrite (sl_alloc _ _ SL), (c_alloc _ _ _ C), (in_alloc _ _ _ I) by done.
      apply Bool.eq_iff_eq_true. rewrite orb_true_iff, bool_decide_eq_true, list_elem_of_singleton.
      rewrite !Nat.ltb_lt. lia.
    + intros b l Hb Hl. destruct (decide (b = i)) as [->|Hne].
      * rewrite (cell_content (S i) i l i) by
          (done || pose proof (Hview l Hl) as H; unfold view in H; by injection H).
        unfold stored. destruct (Nat.leb_spec NumScalarPhysicalRegs i); [lia|]. by apply Hnew.
      * assert (Hbi : (b < i)%nat) by lia.
        destruct (l_name _ _ (u_lanes _ _ _ U) b l Hbi Hl) as (p & Hp & Hbp & Hal & _).
        rewrite (cell_content (S i) b l p) by (done || unfold name; by rewrite Hm).
        rewrite Hold; [|intros ->|done|done|by apply stored_width].
        -- rewrite <- (cell_content i b l p) by (done || apply U).
           rewrite (u_cells _ _ _ U) by done. by apply (in_cells _ _ _ I).
        -- destruct (claimed_fresh i [i] s s1 i C (in_lanes _ _ _ I) (in_summary _ _ _ I)) as [F1 _];
             [by left|]. by apply (F1 b l).
    + intros b Hb. destruct (decide (b = i)) as [->|Hne]; [done|].
      rewrite Hoth by lia. apply (in_scalar _ _ _ I). lia.
    + intros b Hb Hb'. rewrite Hoth by lia. apply (in_fresh _ _ _ I); lia.
  - intros x. rewrite (sl_held _ _ SL), (sl_frees _ _ SL). apply (c_keeps _ _ _ C).
  - apply (outside_trans _ s1); [apply U|apply U|]. intros x Hh _. by apply (sl_file _ _ SL).
  - by rewrite (sl_shared _ _ SL), (c_shared _ _ _ C).
Qed.

End InitReg.

Lemma init_loop_spec regs k i s :
  initialised regs i s → (i + k = NumArchitecturalRegs)%nat →
  ∃ s', init_loop (seq i k) regs s = Some s' ∧ initialised regs NumArchitecturalRegs s' ∧
    conserves s s' ∧ outside s s' ∧ usesShared s' = usesShared s.
Proof.
  revert i s. induction k as [|k IH]; intros i s I Hk.
  { rewrite Nat.add_0_r in Hk. subst i. by exists s. }
  assert (Hi : (i < NumArchitecturalRegs)%nat) by lia.
  assert (Hip : (i < NumPhysicalRegs)%nat ∧ (i < NumScalarPhysicalRegs)%nat)
    by (unfold NumPhysicalRegs, NumArchitecturalRegs, NumScalarPhysicalRegs in *; lia).
  cbn [seq init_loop]. destruct (allocateScalar_spec s (in_ok _ _ _ I)) as (o & s1 & -> & Ho).
  cbn [mbind option_bind].
  assert (Hfree : is_allocated i s = false).
  { rewrite (in_alloc _ _ _ I) by apply Hip. apply Nat.ltb_ge. lia. }
  destruct o as [p|]; [|destruct Ho as [_ Ho]; rewrite Ho in Hfree by apply Hip; done].
  destruct Ho as (Hp & C & Hlow).
  assert (p = i) as ->.
  { destruct (c_free _ _ _ C p) as [Hpb Hpa]; [by left|]. rewrite (in_alloc _ _ _ I) in Hpa by done.
    apply Nat.ltb_ge in Hpa. destruct (decide (i < p)%nat) as [Hlt|]; [|lia].
    rewrite (Hlow i Hlt) in Hfree. done. }
  destruct (init_reg_initialised regs i s s1 I Hi C) as (I' & K & O & U).
  destruct (IH (S i) _ I') as (s' & E & I'' & K' & O' & U'); [lia|].
  exists s'. split_and!; [done|done| |by eapply outside_trans|by rewrite U'].
  intros x. by rewrite (K' x).
Qed.

(** [initialize] gives register [a] the value [regs[a]] in every lane. *)
Lemma initialize_spec regs s :
  bank_ok s → ∃ s', initialize regs s = Some s' ∧ initialised regs NumArchitecturalRegs s' ∧
    conserves s s' ∧ outside s s' ∧ usesShared s' = usesShared s.
Proof.
  intros B. unfold initialize. destruct (reset_spec s B) as (s0 & -> & B0 & Ha & K & O & Hh & Us & Hv).
  cbn [mbind option_bind].
  destruct (init_loop_spec regs NumArchitecturalRegs 0 s0) as (s' & E & I & K' & O' & U'); [|done|].
  - split; try done; try (split; intros; lia); try (intros; lia).
    intros a _ Ha'. unfold mapping. rewrite Hv. by apply lookup_total_replicate_2.
  - exists s'. split_and!; [done|done| |by eapply outside_trans|by rewrite U'].
    intros x. by rewrite (K' x).
Qed.

(** *** [write] *)

(** A write to a lane is seen by that lane alone. *)
Lemma write_spec n a l v t s :
  bank_ok s → lanes_ok n s → summary_ok n s → (n <= NumArchitecturalRegs)%nat → (a < n)%nat →
  (l < MaxLanes)%nat →
  let s' := write a l v t s in
  bank_ok s' ∧ lanes_ok n s' ∧ summary_ok n s' ∧ conserves s s' ∧ outside s s' ∧
  usesShared s' = usesShared s ∧
  vrat s' = vrat s ∧
  ∀ b m, (b < n)%nat → (m < MaxLanes)%nat →
    cell b m s' = if decide (b = a ∧ m = l) then (v, t) else cell b m s.
Proof.
  intros B L S Hn Ha Hl s'.
  destruct (l_name _ _ L a l Ha Hl) as (p & Hp & Hb & Hal & Hpe & Hv & He).
  assert (E : s' = poke p (stored p l) v t s).
  { unfold s', write, physicalIndex, physicalLane. unfold name in Hp.
    destruct (Nat.leb_spec NumArchitecturalRegs a); [lia|].
    destruct (Nat.leb_spec MaxLanes l); [lia|]. cbn [orb]. rewrite Hp, Hv. unfold stored.
    destruct (Nat.leb_spec NumScalarPhysicalRegs p) as [Hle|]; [|done]. by rewrite (He Hle). }
  clearbody s'. subst s'. pose proof (stored_width p l Hl) as Hw. pose proof (width_le _ _ Hw) as Hw'.
  pose proof (poke_same p (stored p l) v t s B Hb Hal Hw') as SL.
  destruct (poke_frame p (stored p l) v t s Hb Hal Hw') as (Hvr & _).
  assert (Hm : ∀ b, mapping b (poke p (stored p l) v t s) = mapping b s)
    by (intros b; unfold mapping; by rewrite Hvr).
  assert (L' : lanes_ok n (poke p (stored p l) v t s)).
  { revert L. apply lanes_frame; [done|]. intros q b m _ _ _ Hq Hqa Hqp.
    by rewrite (sl_alloc _ _ SL), (sl_pending _ _ SL). }
  split_and!; [apply SL|done| | |intros r Hr _; by apply (sl_file _ _ SL)|apply SL|done|].
  - revert S. apply summary_frame; [done|]. intros q b _ _ Hq Hqa Hqp.
    by rewrite (sl_alloc _ _ SL), (sl_pending _ _ SL).
  - intros x. by rewrite (sl_held _ _ SL), (sl_frees _ _ SL).
  - intros b m Hb' Hm'. destruct (l_name _ _ L b m Hb' Hm') as (q & Hq & Hqb & Hqa & _).
    rewrite (cell_content n b m q) by (done || unfold name; by rewrite Hm).
    rewrite (cell_content n b m q) by done.
    rewrite poke_content by (done || by apply stored_width).
    destruct (decide (b = a ∧ m = l)) as [[-> ->]|Hne].
    + rewrite Hp in Hq. injection Hq as <-. by rewrite decide_True.
    + rewrite decide_False; [done|]. intros [-> Hs]. apply Hne.
      by apply (lane_inj n b m a l p s).
Qed.

(** *** [conservationValid] *)

Lemma valid_state s :
  bank_ok s → lanes_ok NumArchitecturalRegs s → summary_ok NumArchitecturalRegs s →
  conservationValid s = true.
Proof.
  intros B L S. unfold conservationValid. apply andb_true_iff. split.
  - apply forallb_forall. intros p Hp%in_seq. unfold entry_valid.
    destruct (b_entry _ B p) as [_ _ _ Hu Hn]; [lia|]. destruct (is_allocated p s).
    + by destruct (Hu eq_refl) as (-> & _).
    + by rewrite (Hn eq_refl).
  - apply forallb_forall. intros m Hm%list_elem_of_In.
    apply list_elem_of_lookup in Hm as [a Hm].
    assert (Ha : (a < NumArchitecturalRegs)%nat)
      by (apply lookup_lt_Some in Hm; by rewrite (b_vrat _ B) in Hm).
    assert (mapping a s = m) as <- by (unfold mapping; by apply list_lookup_total_correct).
    assert (Hname : ∀ p, Some p ∈ lanePhysical (mapping a s) → is_allocated p s = true).
    { intros p Hp%name_elem; [|by apply (b_map _ B)]. destruct Hp as (l & Hl & Hp).
      destruct (l_name _ _ L a l Ha Hl) as (q & Hq & _ & Hal & _). congruence. }
    unfold mapping_valid. apply andb_true_iff. split.
    + apply forallb_forall. intros [p|] Hp%list_elem_of_In; [by apply Hname|done].
    + destruct (vectorized (mapping a s)).
      * apply forallb_forall. intros [p|] Hp%list_elem_of_In; [|done].
        by destruct (s_bundle _ _ S a p Ha Hp) as (_ & Hal & _).
      * destruct (scalar (mapping a s)) as [p|] eqn:Hp; [|done]. cbn.
        pose proof (s_scalar _ _ S a p Ha Hp 0 MaxLanes_pos) as Hq.
        destruct (l_name _ _ L a 0 Ha MaxLanes_pos) as (q & Hq' & _ & Hal & _). congruence.
Qed.

(** ** Programs *)

Definition good (s : Bank) : Prop :=
  bank_ok s ∧ lanes_ok NumArchitecturalRegs s ∧ summary_ok NumArchitecturalRegs s.

Lemma steady_good s s' : steady NumArchitecturalRegs s s' → good s'.
Proof. intros St. split_and!; apply St. Qed.

Lemma good_steady s : good s → steady NumArchitecturalRegs s s.
Proof. intros (B & L & S). by split. Qed.

(** The main core's own work. *)
Lemma core_steady g file s :
  good s → core_allowed g file s →
  let s' := (s <| frees := g |>) <| o3file := file |> in
  good s' ∧ ∀ a l, (a < NumArchitecturalRegs)%nat → (l < MaxLanes)%nat → cell a l s' = cell a l s.
Proof.
  intros (B & L & S) (Hg & Honce & Hfile) s'.
  assert (L' : lanes_ok NumArchitecturalRegs s').
  { revert L. apply lanes_frame; [done|]. intros p a l _ _ _ _ Ha Hp. done. }
  split; [split_and!; [|done|]|].
  - split; try apply B; done.
  - revert S. apply summary_frame; [done|]. intros p a _ _ _ Ha Hp. done.
  - apply cells_frame; try done. intros p k Hp Ha Hk _. unfold content. f_equal.
    unfold readPhysical. rewrite !live_Some by done.
    destruct (MaxLanes <=? k)%nat; [done|].
    change (shared_slot (entry p s') k s') with (shared_slot (entry p s) k s).
    destruct (shared_slot (entry p s) k s) as [r|] eqn:Hr; [|done].
    change (o3file s') with file. rewrite Hfile; [done|]. by apply (slot_held p k).
Qed.

(** A helper operation fails on no branch and does what the array does. *)
Lemma op_spec o s :
  good s → allowed o s → ∃ s', run_op o s = Some s' ∧ good s' ∧
    (∀ a l, (a < NumArchitecturalRegs)%nat → (l < MaxLanes)%nat →
       cell a l s' = array_op o (λ a l, cell a l s) a l) ∧
    (match o with OpCore _ _ => True | _ => conserves s s' ∧ outside s s' end) ∧
    usesShared s' = usesShared s.
Proof.
  intros G Hal. pose proof G as (B & L & S). pose proof (Nat.le_refl NumArchitecturalRegs) as Hn.
  assert (Hst : ∀ s', steady NumArchitecturalRegs s s' → good s' ∧
    (∀ a l, (a < NumArchitecturalRegs)%nat → (l < MaxLanes)%nat → cell a l s' = cell a l s) ∧
    (conserves s s' ∧ outside s s') ∧ usesShared s' = usesShared s).
  { intros s' St. split_and!; [by apply (steady_good s)|apply St..]. }
  destruct o as [a active|a active|a l v t|phys|phys|g file]; cbn [run_op array_op].
  - destruct (Nat.lt_ge_cases a NumArchitecturalRegs) as [Ha|Ha].
    + destruct (renameVectorMasked_spec _ a active s B L S Hn Ha) as (ok & s' & -> & St & _).
      exists s'. destruct (Hst s' St) as (? & ? & [? ?] & ?). by split_and!.
    + unfold renameVectorMasked. apply Nat.leb_le in Ha. rewrite Ha.
      exists s. by destruct (Hst s (good_steady s G)) as (? & ? & [? ?] & ?).
  - destruct (Nat.lt_ge_cases a NumArchitecturalRegs) as [Ha|Ha].
    + destruct (renameScalarMasked_spec _ a active s B L S Hn Ha) as (ok & s' & -> & St & _).
      exists s'. destruct (Hst s' St) as (? & ? & [? ?] & ?). by split_and!.
    + unfold renameScalarMasked. apply Nat.leb_le in Ha. rewrite Ha.
      exists s. by destruct (Hst s (good_steady s G)) as (? & ? & [? ?] & ?).
  - destruct (decide (a < NumArchitecturalRegs ∧ l < MaxLanes)%nat) as [[Ha Hl]|Hout].
    + destruct (write_spec _ a l v t s B L S Hn Ha Hl) as (B' & L' & S' & K & O & U & _ & Hc).
      eexists. split; [done|]. by split_and!.
    + eexists. split; [done|]. unfold write.
      assert ((NumArchitecturalRegs <=? a)%nat || (MaxLanes <=? l)%nat = true) as ->.
      { apply orb_true_iff. rewrite !Nat.leb_le. lia. }
      split_and!; try done. intros b m Hb Hm. rewrite decide_False; [done|]. intros [-> ->]. tauto.
  - eexists. split; [done|].
    pose proof (Hst _ (undisturbed_steady _ _ _ (retain_spec _ phys s B L S Hn))) as (? & ? & [? ?] & ?).
    by split_and!.
  - destruct (release_spec _ phys s B L S Hn) as (s' & -> & U). exists s'.
    destruct (Hst s' (undisturbed_steady _ _ _ U)) as (? & ? & [? ?] & ?). by split_and!.
  - eexists. split; [done|]. destruct (core_steady g file s G Hal). by split_and!.
Qed.

Lemma array_run_ext ops m m' :
  (∀ a l, (a < NumArchitecturalRegs)%nat → (l < MaxLanes)%nat → m a l = m' a l) →
  ∀ a l, (a < NumArchitecturalRegs)%nat → (l < MaxLanes)%nat →
    array_run ops m a l = array_run ops m' a l.
Proof.
  revert m m'. induction ops as [|o ops IH]; intros m m' H; [done|].
  apply IH. intros a l Ha Hl. destruct o; cbn; try by apply H.
  destruct (decide _); [done|by apply H].
Qed.

Lemma run_spec ops s :
  good s → admissible ops s → ∃ s', run ops s = Some s' ∧ good s' ∧
    ∀ a l, (a < NumArchitecturalRegs)%nat → (l < MaxLanes)%nat →
      cell a l s' = array_run ops (λ a l, cell a l s) a l.
Proof.
  revert s. induction ops as [|o ops IH]; intros s G H; [by exists s|].
  destruct H as [Hal H]. destruct (op_spec o s G Hal) as (s1 & E & G1 & C1 & _).
  cbn [run]. rewrite E. cbn [mbind option_bind].
  destruct (IH s1 G1 (H s1 E)) as (s2 & -> & G2 & C2). exists s2. split_and!; [done..|].
  intros a l Ha Hl. rewrite C2 by done. cbn. by apply array_run_ext.
Qed.

(** A bank as it is created. *)
Lemma created_ok shared core file :
  RegAlloc.classed (RegAlloc.freeLists core) →
  (∀ r, (occ r (RegAlloc.free core) <= 1)%nat) →
  bank_ok (create shared core file) ∧ held (create shared core file) = [].
Proof.
  intros Hc Ho.
  assert (Hh : held (create shared core file) = []).
  { unfold held, create. cbn [physical]. clear. induction NumPhysicalRegs; [done|exact IHn]. }
  split; [|done]. split; rewrite ?Hh; try done; try (by apply length_replicate).
  - intros p Hp. unfold is_allocated, entry, create. cbn [allocated physical].
    rewrite !lookup_total_replicate_2 by done. by split.
  - intros r Hr. by apply elem_of_nil in Hr.
  - intros a Ha. unfold mapping, create. cbn [vrat]. by rewrite lookup_total_replicate_2.
Qed.

Lemma launch_spec regs trigger s :
  bank_ok s → ∃ ok s', launch regs trigger s = Some (ok, s') ∧ good s' ∧ conserves s s' ∧
    outside s s' ∧ usesShared s' = usesShared s ∧
    ∀ a l, (a < NumArchitecturalRegs)%nat → (l < MaxLanes)%nat → cell a l s' = (regs !!! a, 0).
Proof.
  intros B. pose proof (Nat.le_refl NumArchitecturalRegs) as Hn.
  unfold launch. destruct (initialize_spec regs s B) as (s1 & -> & I & K & O & U). cbn [mbind option_bind].
  destruct (Nat.lt_ge_cases trigger NumArchitecturalRegs) as [Ht|Ht].
  - destruct (in_scalar _ _ _ I trigger Ht) as [Hs Hv].
    destruct (vectorize_spec _ trigger trigger s1 (in_ok _ _ _ I) (in_lanes _ _ _ I)
      (in_summary _ _ _ I) Hn Ht Hv Hs) as (ok & s2 & -> & St & _).
    exists ok, s2. split_and!; [done|by eapply steady_good| | | |].
    + intros x. by rewrite (st_keeps _ _ _ St x).
    + by eapply outside_trans, St.
    + by rewrite (st_shared _ _ _ St).
    + intros a l Ha Hl. rewrite (st_cells _ _ _ St) by done. by apply (in_cells _ _ _ I).
  - unfold vectorize. apply Nat.leb_le in Ht. rewrite Ht. cbn [orb]. exists (trigger <? NumArchitecturalRegs)%nat, s1.
    split_and!; [done|split_and!; apply I|done|done|done|apply (in_cells _ _ _ I)].
Qed.

(** ** References *)

(** A name with references stays in use, with the same references. *)
Definition kept (s s' : Bank) : Prop :=
  ∀ p, is_allocated p s = true → users (entry p s) ≠ 0%nat →
       is_allocated p s' = true ∧ users (entry p s') = users (entry p s).

#[export] Instance kept_preorder : PreOrder kept.
Proof.
  split; [by intros s p|]. intros s1 s2 s3 H1 H2 p Ha Hu. destruct (H1 p Ha Hu) as [Ha' Hu'].
  rewrite <- Hu'. apply H2; congruence.
Qed.

Lemma kept_same s s' : physical s' = physical s → allocated s' = allocated s → kept s s'.
Proof. intros H1 H2 p Ha Hu. unfold is_allocated, entry in *. by rewrite H1, H2. Qed.

Lemma kept_set_entry p f s : (∀ e, users (f e) = users e) → kept s (set_entry p f s).
Proof.
  intros Hf q Ha Hu. split; [done|]. unfold entry, set_entry. cbn.
  destruct (Nat.lt_ge_cases p (length (physical s))).
  - rewrite lookup_total_insert_case by done. case_bool_decide; [subst; apply Hf|done].
  - by rewrite list_insert_ge.
Qed.

Lemma kept_writePhysical phys k v s : kept s (writePhysical phys k v s).
Proof.
  unfold writePhysical. destruct (live phys s) as [p|]; [|done]. destruct (MaxLanes <=? k)%nat; [done|].
  set (s0 := match shared_slot _ _ _ with Some _ => _ | None => _ end).
  trans s0; [|by apply kept_set_entry]. unfold s0. destruct (shared_slot _ _ _); by apply kept_same.
Qed.

Lemma kept_poke p k v t s : kept s (poke p k v t s).
Proof. etrans; [apply (kept_writePhysical (Some p) k v)|]. by apply kept_set_entry. Qed.

Lemma kept_claimed ps s s' : claimed ps s s' → kept s s'.
Proof.
  intros C p Ha _. assert (p ∉ ps) as Hp.
  { intros Hp. destruct (c_free _ _ _ C p Hp). congruence. }
  by rewrite (c_alloc _ _ _ C), (c_entry _ _ _ C), Ha.
Qed.

Lemma give_all_same ids s s' :
  give_all ids s = Some s' → physical s' = physical s ∧ allocated s' = allocated s.
Proof.
  revert s. induction ids as [|[r|] ids IH]; intros s; cbn; [by intros [= <-]| |apply IH].
  destruct (RegAlloc.addReg r (frees s)); cbn; [|done]. intros H%IH. exact H.
Qed.

Lemma kept_free_entry p s s' : users (entry p s) = 0%nat → free_entry p s = Some s' → kept s s'.
Proof.
  intros Hp. unfold free_entry.
  assert (H : ∀ s1, physical s1 = physical s ∧ allocated s1 = allocated s →
    kept s ((set_entry p (λ _, PhysicalRegister_init) s1) <| allocated ::= <[p := false]> |>)).
  { intros s1 [H1 H2] q Ha Hu. assert (p ≠ q) by (intros ->; done).
    unfold is_allocated, entry, set_entry in *. cbn. by rewrite H1, H2, !lookup_total_insert_ne. }
  destruct (usesShared s); [|intros [= <-]; by apply H].
  destruct (give_all _ s) as [s1|] eqn:E; cbn [mbind option_bind]; [|done].
  intros [= <-]. apply H. by eapply give_all_same.
Qed.

Lemma kept_markDead p s s' : markDead p s = Some s' → kept s s'.
Proof.
  unfold markDead. destruct (NumPhysicalRegs <=? p)%nat; [by intros [= <-]|].
  destruct (Nat.eqb_spec (users (entry p s)) 0) as [Hu|Hu]; cbn [negb].
  - by apply kept_free_entry.
  - intros [= <-]. by apply kept_set_entry.
Qed.

Lemma kept_release_stale olds current s s' : release_stale olds current s = Some s' → kept s s'.
Proof.
  revert s. induction olds as [|o olds IH]; intros s; cbn [release_stale]; [by intros [= <-]|].
  case_bool_decide; cbn [mbind option_bind]; [by apply IH|].
  destruct (markDead o s) as [s1|] eqn:E; [|done]. cbn [mbind option_bind]. intros E'.
  etrans; [by eapply kept_markDead|by apply IH].
Qed.

Lemma kept_set_mapping a f s : kept s (set_mapping a f s).
Proof. by apply kept_same. Qed.

Lemma kept_renameVector a active s o :
  bank_ok s → renameVectorMasked a active s = Some o → kept s o.2.
Proof.
  intros B. unfold renameVectorMasked.
  destruct (NumArchitecturalRegs <=? a)%nat; [by intros [= <-]|].
  destruct (allocateVectorBundle_spec s B) as (r & s1 & -> & Hr). cbn [mbind option_bind].
  destruct r as [names|]; [|intros [= <-]; by eapply kept_claimed, Hr].
  destruct Hr as (C & _). set (s2 := for_range _ _ _ s1).
  assert (K : kept s1 s2).
  { apply for_range_rel; [apply _|]. intros i t _. unfold rename_vector_lane.
    etrans; [apply (kept_poke (names !!! (i / LanesPerVectorCopy)%nat) (i mod LanesPerVectorCopy)
      (read a i t) (readyAt a i t))|].
    destruct (mask_test active i); [apply kept_set_mapping|done]. }
  destruct (release_stale _ _ _) as [s4|] eqn:E; cbn [mbind option_bind]; [|done].
  intros [= <-]. cbn [snd]. etrans; [by eapply kept_claimed|]. etrans; [exact K|].
  etrans; [apply kept_set_mapping|]. by eapply kept_release_stale.
Qed.

Lemma kept_renameScalar a active s o :
  bank_ok s → renameScalarMasked a active s = Some o → kept s o.2.
Proof.
  intros B. unfold renameScalarMasked.
  destruct (NumArchitecturalRegs <=? a)%nat; [by intros [= <-]|].
  destruct (allocateScalar_spec s B) as (r & s1 & -> & Hr). cbn [mbind option_bind].
  destruct r as [p|]; [|intros [= <-]; by destruct Hr as [-> _]].
  destruct Hr as (_ & C & _). set (s2 := for_range _ _ _ s1).
  assert (K : kept s1 s2).
  { apply for_range_rel; [apply _|]. intros i t _. unfold rename_scalar_lane.
    destruct (mask_test active i); cbn [negb]; [|done].
    etrans; [apply (kept_writePhysical (Some p) i (read a i t))|].
    etrans; [|apply kept_set_mapping]. by apply kept_set_entry. }
  destruct (release_stale _ _ _) as [s4|] eqn:E; cbn [mbind option_bind]; [|done].
  intros [= <-]. cbn [snd]. etrans; [by eapply kept_claimed|]. etrans; [exact K|].
  etrans; [apply kept_set_mapping|]. by eapply kept_release_stale.
Qed.

Lemma kept_write a l v t s : kept s (write a l v t s).
Proof.
  unfold write. destruct (_ || _); [done|]. destruct (physicalIndex a l s) as [p|]; [|done].
  apply kept_poke.
Qed.

(** The references to [p] after the operations, while there are any. *)
Fixpoint outstanding (p n : nat) (ops : list Op) : option nat :=
  match n, ops with
  | O, _ => None
  | _, [] => Some n
  | _, OpRetain (Some q) :: ops => outstanding p (if decide (q = p) then S n else n) ops
  | _, OpRelease (Some q) :: ops => outstanding p (if decide (q = p) then Nat.pred n else n) ops
  | _, _ :: ops => outstanding p n ops
  end.

Lemma live_name phys p s : live phys s = Some p → phys = Some p.
Proof. unfold live. destruct phys; [|done]. case_match; [done|]. done. Qed.

Lemma refs_step p o s s' :
  good s → is_allocated p s = true → users (entry p s) ≠ 0%nat → run_op o s = Some s' →
  let n := match o with
           | OpRetain (Some q) => if decide (q = p) then S (users (entry p s)) else users (entry p s)
           | OpRelease (Some q) =>
               if decide (q = p) then Nat.pred (users (entry p s)) else users (entry p s)
           | _ => users (entry p s)
           end in
  n ≠ 0%nat → is_allocated p s' = true ∧ users (entry p s') = n.
Proof.
  intros G Ha Hu. pose proof G as (B & _ & _).
  assert (Hp : (p < NumPhysicalRegs)%nat).
  { destruct (Nat.lt_ge_cases p NumPhysicalRegs) as [|Hge]; [done|]. destruct Hu.
    unfold entry. rewrite list_lookup_total_alt, lookup_ge_None_2; [done|]. by rewrite (b_phys _ B). }
  destruct o as [a active|a active|a l v t|phys|phys|g file]; cbn [run_op].
  - destruct (renameVectorMasked a active s) as [x|] eqn:E; [|done]. intros E' Hn.
    injection E' as <-. by apply (kept_renameVector _ _ _ _ B E).
  - destruct (renameScalarMasked a active s) as [x|] eqn:E; [|done]. intros E' Hn.
    injection E' as <-. by apply (kept_renameScalar _ _ _ _ B E).
  - intros [= <-] Hn. by apply kept_write.
  - intros [= <-] Hn. unfold retainPhysical.
    destruct phys as [q|]; [|done]. destruct (decide (q = p)) as [->|Hq].
    + rewrite live_Some by done. rewrite entry_set, decide_True by (done || apply B). done.
    + destruct (live_cases (Some q) s) as [->|(q' & E & Hq' & Haq)]; [done|]. rewrite E.
      apply live_name in E as H'. injection H' as <-.
      by rewrite entry_set, decide_False by (done || apply B || congruence).
  - intros E Hn. unfold releasePhysical in E.
    destruct phys as [q|]; [|by injection E as <-]. destruct (decide (q = p)) as [->|Hq].
    + rewrite live_Some in E by done. rewrite !entry_set, !decide_True in E by (done || apply B).
      cbn in E. destruct (Nat.eqb_spec (Nat.pred (users (entry p s))) 0) as [Hz|_]; [done|].
      cbn [andb] in E. injection E as <-. rewrite entry_set, decide_True by (done || apply B). done.
    + destruct (live_cases (Some q) s) as [E'|(q' & E' & Hq' & Haq)]; rewrite E' in E;
        [by injection E as <-|].
      apply live_name in E' as H'. injection H' as <-.
      set (s1 := set_entry q _ s) in E.
      assert (E1 : entry p s1 = entry p s).
      { unfold s1. by rewrite entry_set, decide_False by (done || apply B || congruence). }
      assert (Ha1 : is_allocated p s1 = true) by done.
      destruct (Nat.eqb_spec (users (entry q s1)) 0) as [Hz|_].
      2: { cbn [andb] in E. injection E as <-. by rewrite E1. }
      destruct (pendingRelease (entry q s1)); cbn [andb] in E; [|injection E as <-; by rewrite E1].
      rewrite <- E1. apply (kept_free_entry q s1); [done|done|done|by rewrite E1].
  - intros [= <-] Hn. done.
Qed.

(** ** What a bank does to the main core's registers

    Only the free lists change hands: the register records and the rename maps stay. *)
Definition lists_only (s s' : Bank) : Prop :=
  RegAlloc.physInfo (frees s') = RegAlloc.physInfo (frees s) ∧
  RegAlloc.renameMaps (frees s') = RegAlloc.renameMaps (frees s).

#[export] Instance lists_only_preorder : PreOrder lists_only.
Proof. split; [by split|]. intros s1 s2 s3 [H1 H2] [H3 H4]. split; congruence. Qed.

Lemma lists_same s s' : frees s' = frees s → lists_only s s'.
Proof. intros H. unfold lists_only. by rewrite H. Qed.

Lemma lists_give_all ids s s' : give_all ids s = Some s' → lists_only s s'.
Proof.
  revert s. induction ids as [|[r|] ids IH]; intros s; cbn; [by intros [= <-]| |apply IH].
  destruct (RegAlloc.addReg r (frees s)) as [g|] eqn:E; cbn; [|done]. intros Hn%IH.
  destruct (RegAlloc.addReg_Some _ _ _ E) as (l & _ & ->). exact Hn.
Qed.

Lemma lists_take n s enough ids s' : take_elements n s = Some (enough, ids, s') → lists_only s s'.
Proof.
  revert s enough ids. induction n as [|n IH]; intros s enough ids; cbn; [by intros [= _ _ <-]|].
  case_match; [by intros [= _ _ <-]|].
  destruct (RegAlloc.getReg VecElemClass (frees s)) as [[r g]|] eqn:E; cbn; [|done].
  destruct (take_elements n _) as [[[e i] t]|] eqn:E'; cbn; [|done]. intros [= <- <- <-].
  destruct (RegAlloc.getReg_Some _ _ _ _ E) as (l & _ & ->). by apply IH in E'.
Qed.

Lemma lists_element_ids s ids s' : element_ids s = Some (ids, s') → lists_only s s'.
Proof.
  unfold element_ids. destruct (usesShared s); [|by intros [= _ <-]].
  destruct (take_elements _ s) as [[[e i] t]|] eqn:E; cbn; [|done]. apply lists_take in E.
  destruct e; [by intros [= _ <-]|]. destruct (give_all i t) as [u|] eqn:E'; cbn; [|done].
  intros [= _ <-]. etrans; [done|by eapply lists_give_all].
Qed.

Lemma lists_allocateScalar s o s' : allocateScalar s = Some (o, s') → lists_only s s'.
Proof.
  unfold allocateScalar. destruct (find_from _ _ _) as [p|]; [|by intros [= _ <-]].
  destruct (usesShared s && _); cbn; [|by intros [= _ <-]].
  destruct (RegAlloc.getReg IntRegClass (frees s)) as [[r g]|] eqn:E; cbn; [|done].
  intros [= _ <-]. destruct (RegAlloc.getReg_Some _ _ _ _ E) as (l & _ & ->). done.
Qed.

Lemma lists_bundle_loop ps found s found' s' :
  bundle_loop ps found s = Some (found', s') → lists_only s s'.
Proof.
  revert found s. induction ps as [|p ps IH]; intros found s; cbn; [by intros [= _ <-]|].
  case_match; [by intros [= _ <-]|]. case_match; [apply IH|].
  destruct (element_ids s) as [[ids t]|] eqn:E; cbn; [|done]. intros Hn%IH.
  etrans; [by eapply lists_element_ids|exact Hn].
Qed.

Lemma lists_free_entry p s s' : free_entry p s = Some s' → lists_only s s'.
Proof.
  unfold free_entry. destruct (usesShared s); [|by intros [= <-]].
  destruct (give_all _ s) as [t|] eqn:E; cbn [mbind option_bind]; [|done]. intros [= <-].
  by apply lists_give_all in E.
Qed.

Lemma lists_rollback found s s' : rollback found s = Some s' → lists_only s s'.
Proof.
  revert s. induction found as [|p found IH]; intros s; cbn; [by intros [= <-]|].
  destruct (usesShared s); cbn; [|apply IH].
  destruct (give_all _ s) as [t|] eqn:E; cbn; [|done]. intros Hn%IH.
  etrans; [by eapply lists_give_all|exact Hn].
Qed.

Lemma lists_allocateVectorBundle s o s' : allocateVectorBundle s = Some (o, s') → lists_only s s'.
Proof.
  unfold allocateVectorBundle. destruct (bundle_loop _ _ s) as [[found t]|] eqn:E; cbn; [|done].
  apply lists_bundle_loop in E. case_match; [by intros [= _ <-]|].
  destruct (rollback found t) as [u|] eqn:E'; cbn; [|done]. intros [= _ <-].
  etrans; [done|by eapply lists_rollback].
Qed.

Lemma lists_markDead p s s' : markDead p s = Some s' → lists_only s s'.
Proof.
  unfold markDead. case_match; [by intros [= <-]|]. case_match; [by intros [= <-]|].
  apply lists_free_entry.
Qed.

Lemma lists_release_stale olds current s s' :
  release_stale olds current s = Some s' → lists_only s s'.
Proof.
  revert s. induction olds as [|o olds IH]; intros s; cbn; [by intros [= <-]|].
  case_bool_decide; cbn; [apply IH|]. destruct (markDead o s) as [t|] eqn:E; cbn; [|done].
  intros H'%IH. etrans; [by eapply lists_markDead|exact H'].
Qed.

Lemma lists_write phys k v s : frees (writePhysical phys k v s) = frees s.
Proof.
  unfold writePhysical. destruct (live phys s); [|done]. case_match; [done|].
  by destruct (shared_slot _ _ _).
Qed.

(** A loop whose body leaves the free lists alone. *)
Lemma lists_loop n (body : nat → Bank → Bank) s :
  (∀ i s, frees (body i s) = frees s) → frees (for_range 0 n body s) = frees s.
Proof. intros H. apply (for_range_inv (λ t, frees t = frees s)); [done|]. intros i t _ <-. apply H. Qed.

Lemma frees_mapping a f s : frees (set_mapping a f s) = frees s.
Proof. done. Qed.

Lemma lists_renameVector a active s o :
  renameVectorMasked a active s = Some o → lists_only s o.2.
Proof.
  unfold renameVectorMasked. case_match; [by intros [= <-]|].
  destruct (allocateVectorBundle s) as [[fresh t]|] eqn:E; cbn [mbind option_bind]; [|done].
  apply lists_allocateVectorBundle in E. destruct fresh as [names|]; [|by intros [= <-]].
  set (u := for_range _ _ _ t).
  assert (Hq : frees u = frees t).
  { apply lists_loop. intros i v. unfold rename_vector_lane.
    destruct (mask_test active i); cbn; apply (lists_write (Some _)). }
  destruct (release_stale _ _ _) as [v|] eqn:E'; cbn [mbind option_bind]; [|done].
  intros [= <-]. apply lists_release_stale in E'. cbn [snd].
  etrans; [exact E|]. etrans; [|exact E']. apply lists_same. rewrite ?frees_mapping. exact Hq.
Qed.

Lemma lists_renameScalar a active s o :
  renameScalarMasked a active s = Some o → lists_only s o.2.
Proof.
  unfold renameScalarMasked. case_match; [by intros [= <-]|].
  destruct (allocateScalar s) as [[fresh t]|] eqn:E; cbn [mbind option_bind]; [|done].
  apply lists_allocateScalar in E. destruct fresh as [p|]; [|by intros [= <-]].
  set (u := for_range _ _ _ t).
  assert (Hq : frees u = frees t).
  { apply lists_loop. intros i v. unfold rename_scalar_lane.
    destruct (mask_test active i); cbn; [apply (lists_write (Some _))|done]. }
  destruct (release_stale _ _ _) as [v|] eqn:E'; cbn [mbind option_bind]; [|done].
  intros [= <-]. apply lists_release_stale in E'. cbn [snd].
  etrans; [exact E|]. etrans; [|exact E']. apply lists_same. rewrite ?frees_mapping. exact Hq.
Qed.

Lemma lists_vectorize a s o : vectorize a s = Some o → lists_only s o.2.
Proof.
  unfold vectorize. case_match; [by intros [= <-]|].
  destruct (allocateVectorBundle s) as [[fresh t]|] eqn:E; cbn [mbind option_bind]; [|done].
  apply lists_allocateVectorBundle in E. destruct fresh as [names|]; [|by intros [= <-]].
  set (u := for_range 0 MaxLanes (vectorize_lane _ _) _). set (v := for_range 0 MaxLanes _ _).
  assert (Hq : frees v = frees t).
  { unfold v. rewrite lists_loop by done. rewrite frees_mapping. unfold u.
    rewrite lists_loop; [by rewrite frees_mapping|]. intros i w. apply (lists_write (Some _)). }
  clearbody v. destruct (scalar (mapping a t)) as [o'|]; cbn [mbind option_bind].
  - destruct (markDead o' v) as [w|] eqn:E'; cbn [mbind option_bind]; [|done]. intros [= <-].
    apply lists_markDead in E'. cbn [snd]. etrans; [exact E|]. etrans; [|exact E']. apply lists_same. rewrite ?frees_mapping. exact Hq.
  - intros [= <-]. etrans; [exact E|]. apply lists_same. rewrite ?frees_mapping. exact Hq.
Qed.

Lemma lists_releaseAll s s' : releaseAll s = Some s' → lists_only s s'.
Proof.
  unfold releaseAll. generalize (seq 0 NumPhysicalRegs) as ps. intros ps. revert s.
  induction ps as [|p ps IH]; intros s; cbn [release_all]; [by intros [= <-]|].
  destruct (is_allocated p s); cbn [mbind option_bind]; [|apply IH].
  destruct (free_entry p s) as [t|] eqn:E; cbn [mbind option_bind]; [|done].
  intros Hn%IH. etrans; [by eapply lists_free_entry|exact Hn].
Qed.

Lemma lists_initialize regs s s' : initialize regs s = Some s' → lists_only s s'.
Proof.
  unfold initialize, reset. destruct (releaseAll s) as [t|] eqn:E; cbn [mbind option_bind]; [|done].
  apply lists_releaseAll in E. set (u := (t <| vrat := _ |>) <| physical := _ |>).
  assert (Hu : lists_only s u) by exact E. clearbody u. clear E t. revert u Hu.
  generalize (seq 0 NumArchitecturalRegs) as archs. intros archs.
  induction archs as [|a archs IH]; intros u Hu; cbn [init_loop]; [by intros [= <-]|].
  destruct (allocateScalar u) as [[o t]|] eqn:E; cbn [mbind option_bind]; [|done].
  apply lists_allocateScalar in E. destruct o as [p|]; [|intros [= <-]; by etrans].
  apply IH. etrans; [exact Hu|]. etrans; [exact E|]. apply lists_same. unfold init_reg.
  rewrite lists_loop; [done|]. intros i w. apply (lists_write (Some _)).
Qed.

Lemma lists_launch regs trigger s o : launch regs trigger s = Some o → lists_only s o.2.
Proof.
  unfold launch. destruct (initialize regs s) as [t|] eqn:E; cbn [mbind option_bind]; [|done].
  intros H. etrans; [by eapply lists_initialize|by eapply lists_vectorize].
Qed.

Lemma lists_op o s s' :
  match o with OpCore _ _ => False | _ => True end → run_op o s = Some s' → lists_only s s'.
Proof.
  destruct o as [a active|a active|a l v t|phys|phys|g file]; intros Ho; cbn [run_op].
  - destruct (renameVectorMasked a active s) as [x|] eqn:E; [|done]. intros [= <-].
    by apply (lists_renameVector _ _ _ _ E).
  - destruct (renameScalarMasked a active s) as [x|] eqn:E; [|done]. intros [= <-].
    by apply (lists_renameScalar _ _ _ _ E).
  - intros [= <-]. apply lists_same. unfold write. case_match; [done|]. case_match; [|done].
    apply (lists_write (Some _)).
  - intros [= <-]. apply lists_same. unfold retainPhysical. by destruct (live phys s).
  - unfold releasePhysical. destruct (live phys s); [|by intros [= <-]].
    case_match; [|by intros [= <-]]. intros Hn%lists_free_entry. exact Hn.
  - done.
Qed.

(** ** Properties *)

(** C8: a helper program sees its register bank as an array of 32 registers by 128 lanes.
    After a launch every lane of a register holds the launch value; from then on, whatever
    masked renames, references and activity of the main core (which owns the registers it did
    not lend) intervene, no operation fails, a lane reads as the last write to it, and
    [conservationValid], which the engine asserts, holds. *)
Theorem bank_is_lane_array shared core file regs trigger ops :
  RegAlloc.classed (RegAlloc.freeLists core) →
  (∀ r, (occ r (RegAlloc.free core) <= 1)%nat) →
  ∃ ok s0, launch regs trigger (create shared core file) = Some (ok, s0) ∧
    conservationValid s0 = true ∧
    (admissible ops s0 →
     ∃ s, run ops s0 = Some s ∧ conservationValid s = true ∧
       ∀ a l, (a < NumArchitecturalRegs)%nat → (l < MaxLanes)%nat →
         (read a l s, readyAt a l s) = array_run ops (λ b _, (regs !!! b, 0)) a l).
Proof.
  intros Hc Ho. destruct (created_ok shared core file Hc Ho) as [B _].
  destruct (launch_spec regs trigger _ B) as (ok & s0 & E & G & _ & _ & _ & Hcell).
  exists ok, s0. split_and!; [done|by apply valid_state; apply G|].
  intros Hadm. destruct (run_spec ops s0 G Hadm) as (s & Er & G' & Hcell').
  exists s. split_and!; [done|by apply valid_state; apply G'|].
  intros a l Ha Hl. change (read a l s, readyAt a l s) with (cell a l s).
  rewrite Hcell' by done. by apply array_run_ext.
Qed.

(** How often the main core's own steps have put a register on the free list, less how often they have
    taken it off. *)
Fixpoint core_balance (ops : list Op) (s : Bank) (x : RegId) : Z :=
  match ops with
  | [] => 0
  | o :: ops =>
      match run_op o s with
      | Some s' =>
          (match o with
           | OpCore g _ => Z.of_nat (occ x (RegAlloc.free g)) - Z.of_nat (occ x (RegAlloc.free (frees s)))
           | _ => 0
           end) + core_balance ops s' x
      | None => 0
      end
  end.

Definition has_core (ops : list Op) : bool := existsb (λ o, match o with OpCore _ _ => true | _ => false end) ops.

Lemma core_balance_none ops s x : has_core ops = false → core_balance ops s x = 0.
Proof.
  revert s. induction ops as [|o ops IH]; intros s; [done|]. cbn [has_core existsb]. intros [Ho H]%orb_false_iff.
  cbn [core_balance]. destruct (run_op o s); [|done]. rewrite (IH _ H). by destruct o.
Qed.

(** Along a program the registers held and free change only by what the main core does. *)
Lemma run_balance ops s :
  good s → admissible ops s → ∃ s', run ops s = Some s' ∧ good s' ∧
    ∀ x, Z.of_nat (occ x (held s') + occ x (RegAlloc.free (frees s')))
         = Z.of_nat (occ x (held s) + occ x (RegAlloc.free (frees s))) + core_balance ops s x.
Proof.
  revert s. induction ops as [|o ops IH]; intros s G H.
  { exists s. split_and!; [done..|]. intros x. cbn [core_balance]. lia. }
  destruct H as [Hal H]. destruct (op_spec o s G Hal) as (s1 & E & G1 & _ & K & _).
  destruct (IH s1 G1 (H s1 E)) as (s2 & Er & G2 & K2). exists s2. cbn [run core_balance]. rewrite E.
  split_and!; [done..|]. intros x. rewrite K2.
  destruct o as [| | | | |g file]; [destruct K as [K _]; specialize (K x); lia..|].
  assert (Eh : held s1 = held s ∧ frees s1 = g) by by injection E as <-.
  destruct Eh as [-> ->]. lia.
Qed.

(** C40: Registers are borrowed, not lost.  A helper program is launched on free lists without
    duplicates, each of registers of its class; then it renames, writes, retains and releases, on failing allocations too, while
    the main core takes and frees registers of its own between these operations (never one that is
    borrowed; leaving a runahead session restores an older free list and is not such a
    step: Interplay.v shows what becomes of registers borrowed or returned inside a session).  When
    the bank is released it holds nothing, the free list holds every register it had borrowed and
    those that were free, each once, and each register is on it as often as before the launch, up to what the
    main core's own steps took and freed; without such steps it is the free list of before the launch,
    up to order. *)
Theorem borrowed_registers_return shared core file regs trigger ops :
  RegAlloc.classed (RegAlloc.freeLists core) →
  (∀ r, (occ r (RegAlloc.free core) <= 1)%nat) →
  ∃ ok s0, launch regs trigger (create shared core file) = Some (ok, s0) ∧
    (admissible ops s0 →
     ∃ s1 s2, run ops s0 = Some s1 ∧ releaseAll s1 = Some s2 ∧ held s2 = [] ∧
       RegAlloc.free (frees s2) ≡ₚ held s1 ++ RegAlloc.free (frees s1) ∧
       NoDup (RegAlloc.free (frees s2)) ∧
       (∀ x, Z.of_nat (occ x (RegAlloc.free (frees s2)))
             = Z.of_nat (occ x (RegAlloc.free core)) + core_balance ops s0 x) ∧
       (has_core ops = false → RegAlloc.free (frees s2) ≡ₚ RegAlloc.free core)).
Proof.
  intros Hc Ho. destruct (created_ok shared core file Hc Ho) as [B Hh].
  destruct (launch_spec regs trigger _ B) as (ok & s0 & E & G & K & _). exists ok, s0. split; [done|]. intros Hadm.
  destruct (run_balance ops s0 G Hadm) as (s1 & Er & G1 & K1).
  destruct (releaseAll_spec s1) as (s2 & E2 & C2 & _ & Hh2); [apply G1|]. exists s1, s2.
  assert (H2 : ∀ x, occ x (RegAlloc.free (frees s2)) = (occ x (held s1) + occ x (RegAlloc.free (frees s1)))%nat).
  { intros x. pose proof (cl_keeps _ _ C2 x) as H. rewrite Hh2, occ_nil in H. exact H. }
  assert (H0 : ∀ x, (occ x (held s0) + occ x (RegAlloc.free (frees s0)))%nat = occ x (RegAlloc.free core))
    by (intros x; by rewrite (K x), Hh).
  assert (Hb : ∀ x, Z.of_nat (occ x (RegAlloc.free (frees s2)))
                    = Z.of_nat (occ x (RegAlloc.free core)) + core_balance ops s0 x)
    by (intros x; by rewrite H2, K1, H0).
  split_and!; [done..| | |done|].
  - apply occ_Permutation. intros x. by rewrite occ_app.
  - apply occ_NoDup. intros x. rewrite H2. apply (b_once _ (proj1 G1)).
  - intros Hn. apply occ_Permutation. intros x. specialize (Hb x). rewrite core_balance_none in Hb by done. lia.
Qed.

(** The masked renames.  A masked rename to a vector or to a scalar changes the value of
    no lane; when it succeeds the active lanes have names that were unused before, vector names
    or one scalar name, and every inactive lane, which a parked path may still read, keeps its
    mapping; when it fails nothing is mapped differently, and a scalar rename fails only when
    all scalar names are in use. *)
Theorem masked_renames a active s :
  good s → (a < NumArchitecturalRegs)%nat →
  (∃ ok s', renameVectorMasked a active s = Some (ok, s') ∧ good s' ∧
     (∀ b l, (b < NumArchitecturalRegs)%nat → (l < MaxLanes)%nat → read b l s' = read b l s) ∧
     (ok = true → ∀ b l, (b < NumArchitecturalRegs)%nat → (l < MaxLanes)%nat →
        if decide (b = a ∧ mask_test active l = true)
        then ∃ p, physicalIndex b l s' = Some p ∧ (NumScalarPhysicalRegs <= p)%nat ∧
                  is_allocated p s = false ∧ isVectorizedLane b l s' = true
        else physicalIndex b l s' = physicalIndex b l s)) ∧
  (∃ o s', renameScalarMasked a active s = Some (o, s') ∧ good s' ∧
     (∀ b l, (b < NumArchitecturalRegs)%nat → (l < MaxLanes)%nat → read b l s' = read b l s) ∧
     match o with
     | Some p => (p < NumScalarPhysicalRegs)%nat ∧ is_allocated p s = false ∧
         ∀ b l, (b < NumArchitecturalRegs)%nat → (l < MaxLanes)%nat →
           physicalIndex b l s' = if decide (b = a ∧ mask_test active l = true) then Some p
                                  else physicalIndex b l s
     | None => ∀ p, (p < NumScalarPhysicalRegs)%nat → is_allocated p s = true
     end).
Proof.
  intros (B & L & S) Ha. pose proof (Nat.le_refl NumArchitecturalRegs) as Hn.
  assert (Hread : ∀ s' b l, steady NumArchitecturalRegs s s' → (b < NumArchitecturalRegs)%nat →
    (l < MaxLanes)%nat → read b l s' = read b l s).
  { intros s' b l St Hb Hl. pose proof (st_cells _ _ _ St b l Hb Hl) as H. by injection H. }
  assert (Hname : ∀ t b l, lanes_ok NumArchitecturalRegs t → (b < NumArchitecturalRegs)%nat →
    (l < MaxLanes)%nat → physicalIndex b l t = name b l t).
  { intros t b l Lt Hb Hl. destruct (l_name _ _ Lt b l Hb Hl) as (p & Hp & _). rewrite Hp.
    unfold physicalIndex. unfold name in Hp.
    destruct (Nat.leb_spec NumArchitecturalRegs b), (Nat.leb_spec MaxLanes l); try lia.
    cbn [orb]. by rewrite Hp. }
  split.
  - destruct (renameVectorMasked_spec _ a active s B L S Hn Ha) as (ok & s' & E & St & Hm).
    exists ok, s'. split_and!; [done|by eapply steady_good|by intros; apply Hread|].
    intros Hok b l Hb Hl. destruct (Hm Hok) as (new & Hmv & Hnew).
    rewrite !Hname by (done || apply St). rewrite Hmv by done.
    destruct (decide _) as [[-> Hact]|]; [|done]. destruct (Hnew l Hl) as [Hv Hf].
    exists (new l). split_and!; try done.
    specialize (Hmv a l Hb Hl). rewrite decide_True in Hmv by done.
    destruct (l_name _ _ (st_lanes _ _ _ St) a l Hb Hl) as (p & Hp & _ & _ & _ & Hvec & _).
    rewrite Hmv in Hp. injection Hp as <-. unfold isVectorizedLane. rewrite Hvec.
    apply Nat.leb_le in Hv as ->. apply Nat.ltb_lt in Hb as ->, Hl as ->. done.
  - destruct (renameScalarMasked_spec _ a active s B L S Hn Ha) as (o & s' & E & St & Hm).
    exists o, s'. split_and!; [done|by eapply steady_good|by intros; apply Hread|].
    destruct o as [p|]; [|done]. destruct Hm as (Hmv & Hp & Hf). split_and!; [done..|].
    intros b l Hb Hl. rewrite !Hname by (done || apply St). by apply Hmv.
Qed.

(** The vector copies in flight hold their registers.  While a physical register has
    references, no rename, write, release of another register or activity of the main core
    frees it; [users] counts exactly the references outstanding. *)
Theorem references_held p ops s s' n :
  good s → admissible ops s → is_allocated p s = true →
  outstanding p (users (entry p s)) ops = Some n → run ops s = Some s' →
  is_allocated p s' = true ∧ users (entry p s') = n.
Proof.
  revert s. induction ops as [|o ops IH]; intros s G Hadm Ha Hout Hrun.
  { injection Hrun as <-. cbn in Hout. destruct (users (entry p s)); [done|]. by injection Hout. }
  destruct Hadm as [Hal Hadm]. cbn [run] in Hrun.
  destruct (run_op o s) as [t|] eqn:E; [|done]. cbn [mbind option_bind] in Hrun.
  destruct (op_spec o s G Hal) as (t' & E' & Gt & _). rewrite E in E'. injection E' as <-.
  destruct (users (entry p s)) as [|u] eqn:Hu; [done|].
  pose proof (refs_step p o s t G Ha) as Hstep. rewrite Hu in Hstep.
  specialize (Hstep ltac:(done) E).
  assert (Hnz : ∀ m, outstanding p m ops = Some n → m ≠ 0%nat)
    by (intros m Hm ->; by destruct ops as [|[] ?]).
  assert (Hgo : ∀ m, outstanding p m ops = Some n → (m ≠ 0%nat → is_allocated p t = true ∧ users (entry p t) = m) →
    is_allocated p s' = true ∧ users (entry p s') = n).
  { intros m Hm H. destruct (H (Hnz m Hm)) as [Hat Hut].
    apply (IH t Gt (Hadm t eq_refl) Hat); [by rewrite Hut|done]. }
  cbn [outstanding] in Hout. destruct o as [| | |[q|]|[q|]|]; by apply (Hgo _ Hout).
Qed.

(** ** Witnesses *)

(** A core with two integer registers and twelve vector elements to spare. *)
Definition spare_sizes (c : RegClassType) : nat :=
  match c with IntRegClass => 2 | VecElemClass => 12 | _ => 0 end.
Definition spare : RegAlloc.Regs :=
  RegAlloc.mkRegs ∅ (RegAlloc.class_regs spare_sizes <$> RegAlloc.renameable_classes) [].
Definition launched : option (bool * Bank) :=
  launch (replicate NumArchitecturalRegs 9) 5 (create true spare ∅).

Lemma spare_classed : RegAlloc.classed (RegAlloc.freeLists spare).
Proof.
  split; [done|]. intros k l r Hk Hr. unfold spare in Hk. cbn [RegAlloc.freeLists] in Hk.
  apply list_lookup_fmap_Some in Hk as (c & -> & Hc).
  unfold RegAlloc.class_regs in Hr. apply list_elem_of_fmap in Hr as (i & -> & _). cbn.
  by do 6 (destruct k as [|k]; [by injection Hc as <-|]).
Qed.

Lemma spare_once r : (occ r (RegAlloc.free spare) <= 1)%nat.
Proof. apply occ_NoDup, (RegAlloc.all_regs_NoDup spare_sizes). Qed.

Lemma launched_ok : (fst <$> launched) = Some true.
Proof. by vm_compute. Qed.

Lemma launched_good : ∃ s, launched = Some (true, s) ∧ good s.
Proof.
  destruct (created_ok true spare ∅ spare_classed spare_once) as [B _].
  destruct (launch_spec (replicate NumArchitecturalRegs 9) 5 _ B) as (ok & s & E & G & _).
  exists s. split; [|done]. unfold launched. rewrite E. do 2 f_equal.
  pose proof launched_ok as H. unfold launched in H. rewrite E in H. by injection H.
Qed.

Lemma bank_is_lane_array_witness :
  ∃ s, (launched ≫= λ x, run [OpRenameVector 5 (1, 0); OpWrite 5 0 7 3; OpRenameScalar 5 (3, 0)] x.2)
       = Some s ∧ conservationValid s = true ∧ read 5 0 s = 7 ∧ read 5 1 s = 9 ∧ read 6 0 s = 9.
Proof.
  destruct (bank_is_lane_array true spare ∅ (replicate NumArchitecturalRegs 9) 5
    [OpRenameVector 5 (1, 0); OpWrite 5 0 7 3; OpRenameScalar 5 (3, 0)] spare_classed spare_once)
    as (ok & s0 & E & _ & H).
  destruct H as (s & Er & Hv & Hr); [cbn; tauto|]. exists s. unfold launched. rewrite E.
  assert (H5 : (5 < NumArchitecturalRegs)%nat) by (unfold NumArchitecturalRegs; lia).
  assert (H6 : (6 < NumArchitecturalRegs)%nat) by (unfold NumArchitecturalRegs; lia).
  assert (H1 : (1 < MaxLanes)%nat) by (unfold MaxLanes; lia).
  assert (R1 : (read 5 0 s, readyAt 5 0 s) = (7, 3)) by (rewrite (Hr 5%nat 0%nat H5 MaxLanes_pos); by vm_compute).
  assert (R2 : (read 5 1 s, readyAt 5 1 s) = (9, 0)) by (rewrite (Hr 5%nat 1%nat H5 H1); by vm_compute).
  assert (R3 : (read 6 0 s, readyAt 6 0 s) = (9, 0)) by (rewrite (Hr 6%nat 0%nat H6 MaxLanes_pos); by vm_compute).
  cbn [mbind option_bind]. change ((ok, s0).2) with s0.
  split_and!; [exact Er|exact Hv|by injection R1|by injection R2|by injection R3].
Defined.

(** What the launched program computes. *)
Lemma launched_held :
  (launched ≫= λ x, (λ s, length (held s)) <$> run [OpRenameVector 5 (1, 0)] x.2) = Some 10%nat.
Proof. by vm_compute. Qed.
Lemma launched_renames : (launched ≫= λ x, fst <$> renameVectorMasked 5 (1, 0) x.2) = Some true.
Proof. by vm_compute. Qed.
Lemma launched_names :
  (launched ≫= λ x, Some (physicalIndex 5 0 x.2, is_allocated 256 x.2)) = Some (Some 256%nat, true).
Proof. by vm_compute. Qed.
Lemma launched_users :
  (launched ≫= λ x, run_op (OpRetain (Some 256%nat)) x.2 ≫= λ s,
    Some (is_allocated 256 s, users (entry 256 s))) = Some (true, 1%nat).
Proof. by vm_compute. Qed.

Lemma bind_Some_eq {A B} (o : option A) (f : A → option B) x : o = Some x → (o ≫= f) = f x.
Proof. by intros ->. Qed.

Lemma borrowed_registers_return_witness :
  ∃ s1 s2, (launched ≫= λ x, run [OpRenameVector 5 (1, 0)] x.2) = Some s1 ∧
    length (held s1) = 10%nat ∧ releaseAll s1 = Some s2 ∧
    RegAlloc.free (frees s2) ≡ₚ RegAlloc.free spare.
Proof.
  destruct (borrowed_registers_return true spare ∅ (replicate NumArchitecturalRegs 9) 5
    [OpRenameVector 5 (1, 0)] spare_classed spare_once) as (ok & s0 & E & H).
  destruct H as (s1 & s2 & Er & E2 & _ & _ & _ & _ & P2); [split; [exact I|intros ? _; exact I]|]. specialize (P2 eq_refl).
  change (launched = Some (ok, s0)) in E. pose proof launched_held as H.
  rewrite (bind_Some_eq _ _ _ E) in H. cbn [snd] in H. rewrite Er in H.
  exists s1, s2. rewrite (bind_Some_eq _ _ _ E). split_and!; [exact Er| |exact E2|exact P2].
  by injection H.
Defined.

Lemma masked_renames_witness :
  ∃ s s', launched = Some (true, s) ∧ renameVectorMasked 5 (1, 0) s = Some (true, s') ∧
    physicalIndex 5 1 s' = physicalIndex 5 1 s ∧ physicalIndex 5 0 s' ≠ physicalIndex 5 0 s ∧
    read 5 0 s' = read 5 0 s.
Proof.
  destruct launched_good as (s & E & G).
  assert (H5 : (5 < NumArchitecturalRegs)%nat) by (unfold NumArchitecturalRegs; lia).
  assert (H0 : (1 < MaxLanes)%nat) by (unfold MaxLanes; lia).
  destruct (masked_renames 5 (1, 0) s G H5) as [(ok & s' & E' & _ & Hr & Hm) _].
  pose proof launched_renames as H. rewrite (bind_Some_eq _ _ _ E) in H. cbn [snd] in H.
  rewrite E' in H. injection H as ->. specialize (Hm eq_refl).
  pose proof launched_names as Hi. rewrite (bind_Some_eq _ _ _ E) in Hi. cbn [snd] in Hi.
  injection Hi as Hi Ha.
  exists s, s'. split_and!; [done|done|exact (Hm 5%nat 1%nat H5 H0)| |by apply Hr; [|exact MaxLanes_pos]].
  destruct (Hm 5%nat 0%nat H5 MaxLanes_pos) as (p & -> & _ & Hp & _). rewrite Hi. congruence.
Defined.

Lemma references_held_witness :
  ∃ s s', (launched ≫= λ x, run_op (OpRetain (Some 256%nat)) x.2) = Some s ∧
    run [OpRenameVector 5 all_lanes; OpRetain (Some 256%nat); OpRelease (Some 256%nat)] s = Some s' ∧
    (5 < NumArchitecturalRegs)%nat ∧ is_allocated 256 s' = true ∧ users (entry 256 s') = 1%nat.
Proof.
  destruct launched_good as (s0 & E & G).
  destruct (op_spec (OpRetain (Some 256%nat)) s0 G) as (s & E1 & G1 & _); [done|].
  assert (Hadm : ∀ t, admissible [OpRenameVector 5 all_lanes; OpRetain (Some 256%nat);
    OpRelease (Some 256%nat)] t) by (cbn; tauto).
  destruct (run_spec [OpRenameVector 5 all_lanes; OpRetain (Some 256%nat); OpRelease (Some 256%nat)] s G1)
    as (s' & Er & _); [apply Hadm|].
  pose proof launched_users as H. rewrite (bind_Some_eq _ _ _ E) in H. cbn [snd] in H.
  rewrite (bind_Some_eq _ _ _ E1) in H. injection H as Ha Hu.
  exists s, s'. rewrite (bind_Some_eq _ _ _ E). split_and!; [exact E1|exact Er|unfold NumArchitecturalRegs; lia|..];
    apply (references_held 256 _ s s' 1 G1 (Hadm s) Ha); (rewrite Hu; reflexivity) || exact Er.
Defined.

(** ** Names lost by masked renames *)

(** The vector names in use, and those some lane is mapped to. *)
Definition vector_names (s : Bank) : list nat :=
  filter (λ p, is_allocated p s = true) (seq NumScalarPhysicalRegs NumVectorPhysicalRegs).
Definition mapped_names (s : Bank) : list nat :=
  filter (λ p, existsb (λ m, existsb (λ n, bool_decide (n = Some p)) (lanePhysical m)) (vrat s) = true)
    (seq NumScalarPhysicalRegs NumVectorPhysicalRegs).

(** A masked rename takes a bundle of sixteen names, and those of copies without an active lane
    are in no lane's mapping: no later rename releases them.  Seven renames of one lane leave
     122 of the 128 names in use, 17 of them mapped, and the eighth fails. *)
Lemma masked_rename_leak :
  (x ← launched; s ← run (replicate 7 (OpRenameVector 5 (1, 0))) x.2;
   o ← renameVectorMasked 5 (1, 0) s;
   Some (length (vector_names s), length (mapped_names s), o.1)) = Some (122%nat, 17%nat, false).
Proof. by vm_compute. Qed.

End HelperBank.
