(* ===== verification/Lanes.v ===== *)
(** * The replay lanes of the helper thread

    Model of [DVRHelperThread::enqueueReplayLane] and [resumeDependentLane] (src/cpu/o3/cpu.hh):
    a source response adds a lane context to the helper, a dependent response resumes the lane
    that waits for it.  A lane's register values live in its context and in its program's
    register bank; a bank enters through the interface [LaneBank], which [HelperBank] implements.
    Interplay.v shows that banks behave as separate arrays also where they share the physical
    registers of the main core, so a store of banks by program stands for them here. *)

From stdpp Require Import gmap.
From S2P Require Import Prelude Inst Uop Recorder Relation Replay Helper HelperRegs HelperBank.

(** ** What a lane asks of a register bank *)

Class LaneBank (B : Type) := mkLaneBank {
  bank_read : nat → nat → B → Z;
  bank_write : nat → nat → Z → Z → B → B;
  bank_good : B → Prop;
  bank_write_good : ∀ a l v t b,
    bank_good b → (a < 32)%nat → (l < 128)%nat → bank_good (bank_write a l v t b);
  bank_read_write : ∀ a l v t b a' l',
    bank_good b → (a < 32)%nat → (l < 128)%nat → (a' < 32)%nat → (l' < 128)%nat →
    bank_read a' l' (bank_write a l v t b)
    = if decide (a' = a ∧ l' = l) then v else bank_read a' l' b
}.

(** The bank of the code meets it. *)
Lemma bank_write_keeps a l v t (b : HelperRegs.Bank) :
  HelperBank.good b → (a < 32)%nat → (l < 128)%nat → HelperBank.good (HelperRegs.write a l v t b).
Proof.
  intros (B & L & S) Ha Hl.
  destruct (HelperBank.write_spec HelperRegs.NumArchitecturalRegs a l v t b B L S)
    as (B' & L' & S' & _); [done|done|done|]. by split_and!.
Qed.

Lemma bank_reads_written a l v t (b : HelperRegs.Bank) a' l' :
  HelperBank.good b → (a < 32)%nat → (l < 128)%nat → (a' < 32)%nat → (l' < 128)%nat →
  HelperRegs.read a' l' (HelperRegs.write a l v t b)
  = if decide (a' = a ∧ l' = l) then v else HelperRegs.read a' l' b.
Proof.
  intros (B & L & S) Ha Hl Ha' Hl'.
  destruct (HelperBank.write_spec HelperRegs.NumArchitecturalRegs a l v t b B L S)
    as (_ & _ & _ & _ & _ & _ & _ & Hc); [done|done|done|].
  specialize (Hc a' l' Ha' Hl'). apply (f_equal fst) in Hc. unfold HelperRegs.cell in Hc.
  cbn [fst] in Hc. rewrite Hc. by destruct (decide (a' = a ∧ l' = l)).
Qed.

#[export] Instance HelperRegs_LaneBank : LaneBank HelperRegs.Bank :=
  mkLaneBank _ HelperRegs.read HelperRegs.write HelperBank.good bank_write_keeps bank_reads_written.

Module Lanes.
Import Uop.

(** [DVRPrefetchAddress], and the [DVRPrefetchSenderState] that carries the same fields with the
    packet; templates, banks and generations are named by numbers. *)
Record Request := mkRequest {
  address : Z;  req_pc : Z;  req_tid : Z;  readyTick : Z;  source : bool;  oracle : bool;
  nested : bool;  paths : Relation.Paths;  replay : option nat;  bank : option nat;
  predicate : option nat;  lane : nat
}.
#[export] Instance eta_Request : Eta Request := λ r,
  mkRequest (address r) (req_pc r) (req_tid r) (readyTick r) (source r) (oracle r) (nested r)
    (paths r) (replay r) (bank r) (predicate r) (lane r).

(** [TerminationReason] *)
Inductive Termination := Live | FLR | StridePC | Timeout | External.
#[export] Instance Termination_eq_dec : EqDecision Termination.
Proof. solve_decision. Defined.

(** [ReplayLaneContext]; its reconvergence state is the one of its bank. *)
Record Lane := mkLane {
  l_program : nat;  l_bank : nat;  l_regs : list Z;  l_ready : list Z;
  l_predicate : option nat;  l_paths : Relation.Paths;  l_lane : nat;  l_tid : Z;
  l_triggerPC : Z;  l_stridePC : Z;  l_loopControlPC : Z;  l_finalLoadPC : Z;
  l_continuePastFLR : bool;  l_uopIndex : nat;  l_pc : Z;  l_blocked : bool;  l_simtPath : Z;
  l_simtDivergent : bool;  l_termination : Termination;  l_helperUops : nat;  l_nested : bool;
  l_active : bool
}.
#[export] Instance eta_Lane : Eta Lane := λ r,
  mkLane (l_program r) (l_bank r) (l_regs r) (l_ready r) (l_predicate r) (l_paths r) (l_lane r)
    (l_tid r) (l_triggerPC r) (l_stridePC r) (l_loopControlPC r) (l_finalLoadPC r)
    (l_continuePastFLR r) (l_uopIndex r) (l_pc r) (l_blocked r) (l_simtPath r) (l_simtDivergent r)
    (l_termination r) (l_helperUops r) (l_nested r) (l_active r).

(** [ReplayReconvergenceState::Frame]: a deferred path. *)
Record Frame := mkFrame {
  f_currentPC : Z;  f_currentMask : LaneMask;  f_reconvergencePC : Z;  f_pc : Z;
  f_mask : LaneMask;  f_alternatePath : bool;  f_takenPath : bool
}.

(** [ReplayReconvergenceState]; [stack] holds the frames below [depth], the top first. *)
Record Group := mkGroup {
  renamedDestinations : gset Z;  stack : list Frame;
  currentPC : Z;  currentMask : LaneMask;  currentValid : bool
}.
#[export] Instance eta_Group : Eta Group := λ r,
  mkGroup (renamedDestinations r) (stack r) (currentPC r) (currentMask r) (currentValid r).
Definition Group_init : Group := mkGroup ∅ [] 0 mask_empty false.

(** The helper with its lanes, the groups and the banks by program. *)
Record Engine {B : Type} := mkEngine {
  thread : Helper.Thread Lane;  groups : gmap nat Group;  banks : gmap nat B
}.
#[global] Arguments Engine : clear implicits.
#[export] Instance eta_Engine {B} : Eta (Engine B) := λ r,
  mkEngine _ (thread r) (groups r) (banks r).

Import Helper.

Section lanes.
Context {B : Type} `{LaneBank B} (templates : nat → Replay.Template).
Implicit Type e : Engine B.

Definition tracked (r : Z) : bool := (0 <=? r) && (r <? Replay.MaxRegs).

(** The context of a new lane. *)
Definition new_lane (rid bid : nat) (s : Request) (value : Z) : Lane :=
  let t := templates rid in
  mkLane rid bid
    (<[Z.to_nat (Replay.triggerDestination t) := value]> (<[0%nat := 0]> (Replay.initialRegs t)))
    (replicate 32 0) (predicate s) (paths s) (lane s) (req_tid s) (Replay.triggerPC t)
    (if negb (Replay.stridePC t =? 0) then Replay.stridePC t else Replay.triggerPC t)
    (Replay.loopControlPC t) (Replay.finalLoadPC t) (Replay.continuePastFLR t) 1
    (if (1 <? Replay.count t)%nat then Uop.pc (Replay.uop_at t 1) else 0)
    false 0 false Live 0 (nested s) true.

(** The lane joins the group its PC is the current one of. *)
Definition join (pc : Z) (lane : nat) (g : Group) : Group :=
  if pc =? 0 then g
  else
    let g := if currentValid g then g
             else (g <| currentPC := pc |> <| currentMask := mask_empty |>) <| currentValid := true |> in
    if currentPC g =? pc then g <| currentMask ::= λ m, mask_set m lane |> else g.

(** A ready lane gets an issue credit. *)
Definition credit e : Engine B * nat :=
  let '(h, n) := Helper.lane_credit (thread e) in (e <| thread := h |>, n).

(** [enqueueReplayLane]: the result and [became_ready]. *)
Definition enqueueReplayLane (s : Request) (value : Z) e : Engine B * bool * nat :=
  match replay s, bank s with
  | Some rid, Some bid =>
      let t := templates rid in
      if (Replay.count t <=? 1)%nat || negb (tracked (Replay.triggerDestination t))
      then (e, false, 0%nat)
      else
        let l := new_lane rid bid s value in
        let e := e <| groups ::= λ gs,
                        <[bid := join (l_pc l) (lane s) (default Group_init (gs !! bid))]> gs |> in
        let e := e <| banks ::=
                        alter (bank_write (Z.to_nat (Replay.triggerDestination t)) (lane s) value 0) bid |> in
        let '(e, ready) := credit (e <| thread ::= λ h, h <| replayLanes ::= λ ls, ls ++ [l] |> |>) in
        (e, true, ready)
  | _, _ => (e, false, 0%nat)
  end.

(** The lane that waits for a load at [load_pc]. *)
Definition parked (s : Request) (load_pc : Z) (l : Lane) : bool :=
  let t := templates (l_program l) in
  l_active l && bool_decide (bank s = Some (l_bank l)) && bool_decide (replay s = Some (l_program l))
  && (l_lane l =? lane s)%nat && (l_pc l =? 0) && (l_uopIndex l <? Replay.count t)%nat
  && (Uop.pc (Replay.uop_at t (l_uopIndex l)) =? load_pc).

(** The lane after its load: the value in its destination and the next uop. *)
Definition resumed (value : Z) (l : Lane) : Lane :=
  let t := templates (l_program l) in
  let d := destination (Replay.uop_at t (l_uopIndex l)) in
  let l := if tracked d
           then (l <| l_regs ::= <[Z.to_nat d := value]> |>) <| l_ready ::= <[Z.to_nat d := 0]> |>
           else l in
  let next := S (l_uopIndex l) in
  let inside := (next <? Replay.count t)%nat in
  let l := l <| l_helperUops ::= S |>
             <| l_pc := if inside then Uop.pc (Replay.uop_at t next) else 0 |>
             <| l_uopIndex := if inside then next else Replay.count t |> in
  if l_pc l =? 0 then l <| l_active := false |> <| l_termination := External |> else l.

(** [resumeDependentLane]: the result and [became_ready]. *)
Definition resumeDependentLane (s : Request) (load_pc value : Z) e : Engine B * bool * nat :=
  if bool_decide (replay s = None) || bool_decide (bank s = None) || (load_pc =? 0)
  then (e, false, 0%nat)
  else
    match list_find (λ l, parked s load_pc l = true) (replayLanes (thread e)) with
    | None => (e, false, 0%nat)
    | Some (k, l) =>
        let d := destination (Replay.uop_at (templates (l_program l)) (l_uopIndex l)) in
        let e := e <| thread ::= λ h, h <| replayLanes ::= <[k := resumed value l]> |> |> in
        let e := if tracked d
                 then e <| banks ::= alter (bank_write (Z.to_nat d) (l_lane l) value 0) (l_bank l) |>
                 else e in
        let '(e, ready) := credit e in (e, true, ready)
    end.

(** ** The values a lane sees *)

(** A context is well formed: its registers are 32 and its PC, unless it is parked or ended, is
    that of the uop it stands at. *)
Record lane_ok (l : Lane) : Prop := {
  ok_regs : length (l_regs l) = 32%nat;
  ok_lane : (l_lane l < 128)%nat;
  ok_pc : l_pc l ≠ 0 → (l_uopIndex l < Replay.count (templates (l_program l)))%nat
          ∧ Uop.pc (Replay.uop_at (templates (l_program l)) (l_uopIndex l)) = l_pc l
}.

(** The bank and the context agree on the lane's registers. *)
Definition mirror (b : B) (l : Lane) : Prop :=
  ∀ r, (r < 32)%nat → bank_read r (l_lane l) b = l_regs l !!! r.

(** Every lane is well formed and mirrored by its bank, and no two share a lane of a bank. *)
Record engine_ok e : Prop := {
  ok_lanes : ∀ l, l ∈ replayLanes (thread e) →
             lane_ok l ∧ ∃ b, banks e !! l_bank l = Some b ∧ mirror b l;
  ok_distinct : NoDup ((λ l, (l_bank l, l_lane l)) <$> replayLanes (thread e));
  ok_banks : ∀ i b, banks e !! i = Some b → bank_good b
}.

Lemma tracked_range r : tracked r = true ↔ 0 <= r < 32.
Proof. unfold tracked, Replay.MaxRegs. rewrite andb_true_iff, Z.leb_le, Z.ltb_lt. done. Qed.

(** A credit touches neither lanes nor banks. *)
Lemma credit_frame e :
  replayLanes (thread (credit e).1) = replayLanes (thread e) ∧ banks (credit e).1 = banks e
  ∧ groups (credit e).1 = groups e.
Proof. unfold credit, lane_credit. by destruct (readyUops (thread e) =? 0)%nat. Qed.

Lemma credit_ok e : engine_ok e → engine_ok (credit e).1.
Proof.
  intros [H1 H2 H3]. destruct (credit_frame e) as (E1 & E2 & _). split; rewrite ?E1, ?E2; done.
Qed.

(** A write to one lane of a bank and to its context. *)
Lemma mirror_write b l r v :
  bank_good b → lane_ok l → (r < 32)%nat → mirror b l →
  mirror (bank_write r (l_lane l) v 0 b) (l <| l_regs ::= <[r := v]> |>).
Proof.
  intros Hg Hl Hr Hm k Hk. simpl. rewrite bank_read_write by (done || apply Hl).
  destruct (decide (k = r)) as [->|Hne].
  - rewrite decide_True by done. rewrite list_lookup_total_insert_eq; [done|]. by rewrite (ok_regs _ Hl).
  - rewrite decide_False by (by intros []). rewrite list_lookup_total_insert_ne by done. by apply Hm.
Qed.

(** Another lane of the bank sees nothing of it. *)
Lemma mirror_other b l r v lane :
  bank_good b → lane_ok l → (r < 32)%nat → (lane < 128)%nat → lane ≠ l_lane l → mirror b l →
  mirror (bank_write r lane v 0 b) l.
Proof.
  intros Hg Hl Hr Hlane Hne Hm k Hk. rewrite bank_read_write by (done || apply Hl).
  rewrite decide_False by (intros [_ ?]; congruence). by apply Hm.
Qed.

(** Two lanes of the list that are different entries. *)
Lemma distinct_lanes (ls : list Lane) i j l l' :
  NoDup ((λ l, (l_bank l, l_lane l)) <$> ls) → ls !! i = Some l → ls !! j = Some l' → i ≠ j →
  l_bank l = l_bank l' → l_lane l ≠ l_lane l'.
Proof.
  intros Hnd Hi Hj Hne Hb Hl. apply Hne.
  apply (NoDup_lookup _ i j (l_bank l, l_lane l) Hnd); rewrite list_lookup_fmap.
  - by rewrite Hi.
  - rewrite Hj. simpl. by rewrite Hb, Hl.
Qed.

(** The lane moves to the next uop without changing place. *)
Lemma resumed_frame value l :
  l_bank (resumed value l) = l_bank l ∧ l_lane (resumed value l) = l_lane l
  ∧ l_program (resumed value l) = l_program l
  ∧ l_regs (resumed value l)
    = (let d := destination (Replay.uop_at (templates (l_program l)) (l_uopIndex l)) in
       if tracked d then <[Z.to_nat d := value]> (l_regs l) else l_regs l).
Proof.
  unfold resumed. cbv zeta. destruct (tracked _); simpl; case_match; done.
Qed.

Lemma resumed_ok value l : lane_ok l → lane_ok (resumed value l).
Proof.
  intros Hl. destruct (resumed_frame value l) as (E1 & E2 & E3 & E4).
  split; rewrite ?E2, ?E3, ?E4.
  - cbv zeta. destruct (tracked _); rewrite ?length_insert; apply Hl.
  - apply Hl.
  - unfold resumed. cbv zeta. destruct (tracked _); simpl;
      (destruct (Nat.ltb_spec (S (l_uopIndex l)) (Replay.count (templates (l_program l)))); simpl;
       [case_match; simpl; done|done]).
Qed.

Lemma resumed_mirror value l b :
  bank_good b → lane_ok l → mirror b l →
  let d := destination (Replay.uop_at (templates (l_program l)) (l_uopIndex l)) in
  mirror (if tracked d then bank_write (Z.to_nat d) (l_lane l) value 0 b else b)
         (resumed value l).
Proof.
  intros Hg Hl Hm. cbv zeta. destruct (resumed_frame value l) as (E1 & E2 & E3 & E4). cbv zeta in E4.
  destruct (tracked _) eqn:Ht.
  - intros r Hr. rewrite E2, E4.
    apply tracked_range in Ht. by apply (mirror_write b l); [done|done|lia|done|].
  - intros r Hr. rewrite E2, E4. by apply Hm.
Qed.

(** What [resumeDependentLane] finds and does. *)
Lemma resume_found s load_pc value e k l :
  bank s ≠ None → replay s ≠ None → load_pc ≠ 0 →
  list_find (λ l, parked s load_pc l = true) (replayLanes (thread e)) = Some (k, l) →
  let d := destination (Replay.uop_at (templates (l_program l)) (l_uopIndex l)) in
  let e' := (resumeDependentLane s load_pc value e).1.1 in
  (resumeDependentLane s load_pc value e).1.2 = true
  ∧ replayLanes (thread e') = <[k := resumed value l]> (replayLanes (thread e))
  ∧ banks e' = (if tracked d then alter (bank_write (Z.to_nat d) (l_lane l) value 0) (l_bank l) (banks e)
                else banks e)
  ∧ groups e' = groups e ∧ readyUops (thread e') ≠ 0%nat.
Proof.
  intros Hb Hr Hpc Hf. cbv zeta. unfold resumeDependentLane.
  rewrite !bool_decide_false by done. rewrite (proj2 (Z.eqb_neq _ 0) Hpc), Hf. cbn [orb].
  unfold credit, lane_credit.
  destruct (tracked _); simpl; (destruct (Nat.eqb_spec (readyUops (thread e)) 0); simpl; by repeat split).
Qed.

Lemma parked_inv s load_pc l :
  parked s load_pc l = true →
  l_active l = true ∧ bank s = Some (l_bank l) ∧ replay s = Some (l_program l)
  ∧ l_lane l = lane s ∧ l_pc l = 0 ∧ (l_uopIndex l < Replay.count (templates (l_program l)))%nat
  ∧ Uop.pc (Replay.uop_at (templates (l_program l)) (l_uopIndex l)) = load_pc.
Proof.
  unfold parked. rewrite !andb_true_iff, !bool_decide_eq_true, Nat.eqb_eq, !Z.eqb_eq, Nat.ltb_lt.
  tauto.
Qed.

(** A resumption keeps the engine in order. *)
Lemma resume_ok s load_pc value e : engine_ok e → engine_ok (resumeDependentLane s load_pc value e).1.1.
Proof.
  intros Hok. destruct (decide (bank s = None ∨ replay s = None ∨ load_pc = 0)) as [Hno|Hyes].
  { unfold resumeDependentLane. rewrite (proj2 (orb_true_iff _ _)); [done|].
    rewrite orb_true_iff, !bool_decide_eq_true, Z.eqb_eq. tauto. }
  destruct (list_find (λ l, parked s load_pc l = true) (replayLanes (thread e))) as [[k l]|] eqn:Hf.
  2: { unfold resumeDependentLane. rewrite Hf. by destruct (_ || _). }
  destruct (resume_found s load_pc value e k l) as (_ & E1 & E2 & _ & _); try tauto.
  apply list_find_Some in Hf as (Hk & Hp & _).
  destruct Hok as [H1 H2 H3]. destruct (H1 l) as (Hl & b & Hb & Hm); [by eapply list_elem_of_lookup_2|].
  destruct (resumed_frame value l) as (F1 & F2 & _ & _). cbv zeta in E2.
  set (d := destination (Replay.uop_at (templates (l_program l)) (l_uopIndex l))) in *.
  assert (Hd : tracked d = true → (Z.to_nat d < 32)%nat) by (intros Ht; apply tracked_range in Ht; lia).
  split; rewrite ?E1, ?E2.
  - intros l' Hl'. apply list_elem_of_lookup in Hl' as [j Hj].
    destruct (decide (k = j)) as [<-|Hne].
    + rewrite list_lookup_insert_eq in Hj by (by eapply lookup_lt_Some). injection Hj as <-.
      split; [by apply resumed_ok|]. rewrite F1.
      exists (if tracked d then bank_write (Z.to_nat d) (l_lane l) value 0 b else b).
      split; [|by apply resumed_mirror; [eapply H3| |]].
      destruct (tracked d); [by rewrite lookup_alter_eq, Hb|done].
    + rewrite list_lookup_insert_ne in Hj by done.
      destruct (H1 l') as (Hl' & b' & Hb' & Hm'); [by eapply list_elem_of_lookup_2|].
      split; [done|]. destruct (tracked d) eqn:Ht; [|by exists b'].
      destruct (decide (l_bank l = l_bank l')) as [Heq|Hneq].
      * rewrite <- Heq, lookup_alter_eq, Hb. eexists. split; [done|].
        rewrite <- Heq, Hb in Hb'. injection Hb' as <-.
        apply mirror_other; [by eapply H3|done|by apply Hd|apply Hl| |done].
        by apply (distinct_lanes (replayLanes (thread e)) k j).
      * rewrite lookup_alter_ne by done. by exists b'.
  - rewrite list_fmap_insert, F1, F2. rewrite list_insert_id; [done|].
    by rewrite list_lookup_fmap, Hk.
  - intros i bi Hi. destruct (tracked d) eqn:Ht; [|by eapply H3].
    apply lookup_alter_Some in Hi as [(<- & x & Hx & ->)|[_ Hi]]; [|by eapply H3].
    apply bank_write_good; [by eapply H3|by apply Hd|apply Hl].
Qed.

(** ** Theorems *)

(** C22: The response to a dependent load resumes exactly the lane that waits for it: the value
    is in the load's destination, in the lane's context and in its register bank alike, the lane
    stands at the next captured uop, and no register of any other lane changes in context or bank;
    the helper is left with an issue credit. *)
Theorem dependent_response_resumes (s : Request) (k : nat) (l : Lane) (value : Z) (e : Engine B)
    (Hok : engine_ok e) (Hk : replayLanes (thread e) !! k = Some l)
    (Hp : parked s (Uop.pc (Replay.uop_at (templates (l_program l)) (l_uopIndex l))) l = true)
    (Hpc : Uop.pc (Replay.uop_at (templates (l_program l)) (l_uopIndex l)) ≠ 0) :
  let t := templates (l_program l) in
  let u := Replay.uop_at t (l_uopIndex l) in
  let '(e', found, _) := resumeDependentLane s (Uop.pc u) value e in
  found = true ∧ engine_ok e' ∧ readyUops (thread e') ≠ 0%nat
  ∧ (∃ l', replayLanes (thread e') = <[k := l']> (replayLanes (thread e))
       ∧ l_regs l' = (if tracked (destination u) then <[Z.to_nat (destination u) := value]> (l_regs l)
                      else l_regs l)
       ∧ ((S (l_uopIndex l) < Replay.count t)%nat →
          l_uopIndex l' = S (l_uopIndex l) ∧ l_pc l' = Uop.pc (Replay.uop_at t (S (l_uopIndex l)))))
  ∧ ∀ i b' r n, banks e' !! i = Some b' → (r < 32)%nat → (n < 128)%nat →
      (i, n, Z.of_nat r) ≠ (l_bank l, l_lane l, destination u) →
      ∃ b, banks e !! i = Some b ∧ bank_read r n b' = bank_read r n b.
Proof.
  cbv zeta. set (u := Replay.uop_at (templates (l_program l)) (l_uopIndex l)) in *.
  destruct (parked_inv s _ l Hp) as (Hact & Hb & Hr & Hlane & Hpc0 & Hi & Hu).
  assert (Hf : list_find (λ l, parked s (Uop.pc u) l = true) (replayLanes (thread e)) = Some (k, l)).
  { apply list_find_Some. split; [done|]. split; [done|]. intros j l' Hj Hlt Hp'.
    destruct (parked_inv s _ l' Hp') as (_ & Hb' & _ & Hlane' & _).
    apply (distinct_lanes (replayLanes (thread e)) j k l' l (ok_distinct _ Hok) Hj Hk); [lia| |];
      congruence. }
  pose proof (resume_ok s (Uop.pc u) value e Hok) as Hok'.
  destruct (resume_found s (Uop.pc u) value e k l) as (E0 & E1 & E2 & _ & E4); try congruence.
  destruct (resumeDependentLane s (Uop.pc u) value e) as [[e' found] n]. cbn [fst snd] in *.
  split; [done|]. split; [done|]. split; [done|]. split.
  - exists (resumed value l). split; [done|].
    split; [exact (proj2 (proj2 (proj2 (resumed_frame value l))))|].
    intros Hn. apply Nat.ltb_lt in Hn. unfold resumed. cbv zeta.
    destruct (tracked _); cbn -[Nat.ltb]; rewrite Hn; by case_match.
  - intros i b' r m Hi' Hr' Hm Hne. rewrite E2 in Hi'. fold u in Hi'.
    destruct (tracked (destination u)) eqn:Ht; [|by exists b'].
    apply lookup_alter_Some in Hi' as [(<- & b & Hbk & ->)|[_ Hbk]]; [|by exists b'].
    exists b. split; [done|]. apply tracked_range in Ht.
    destruct (ok_lanes _ Hok l) as (Hl & _); [by eapply list_elem_of_lookup_2|].
    rewrite bank_read_write; [|by eapply (ok_banks _ Hok)|lia|apply Hl|done|done].
    rewrite decide_False; [done|]. intros [-> ->]. apply Hne. rewrite Z2Nat.id by lia. done.
Qed.

(** C23: The response to a source load adds one lane.  In a well-formed engine, let the request have a
    lane number below 128 and carry a template of more than one uop with 32 initial registers and an integer trigger destination, and a live bank that holds the template's
    image, with x0 as 0, in the request's lane, up to that destination; and let no
    replay lane of this lane number and bank be there yet.  Then the request is queued, and one lane is
    appended, the other lanes staying in order: active, of this template and bank and of the
    request's lane number, at the uop after the trigger, its registers the image with the
    response's value in the trigger's destination.  The bank then reads these registers in this
    lane, and in the other lanes what it read before; the other banks are untouched. *)
Theorem source_response_enters (s : Request) (rid bid : nat) (value : Z) (b : B) (e : Engine B)
    (Hok : engine_ok e) (Hr : replay s = Some rid) (Hbk : bank s = Some bid)
    (Hb : banks e !! bid = Some b) (Hlane : (lane s < 128)%nat)
    (Hnew : ∀ l, l ∈ replayLanes (thread e) → (l_bank l, l_lane l) ≠ (bid, lane s))
    (Hcount : (1 < Replay.count (templates rid))%nat)
    (Hdest : tracked (Replay.triggerDestination (templates rid)) = true)
    (Hlen : length (Replay.initialRegs (templates rid)) = 32%nat)
    (Himage : ∀ r, (r < 32)%nat → Z.of_nat r ≠ Replay.triggerDestination (templates rid) →
       bank_read r (lane s) b = <[0%nat := 0]> (Replay.initialRegs (templates rid)) !!! r) :
  let '(e', queued, _) := enqueueReplayLane s value e in
  queued = true ∧ engine_ok e' ∧ readyUops (thread e') ≠ 0%nat
  ∧ ∃ l b', replayLanes (thread e') = replayLanes (thread e) ++ [l]
         ∧ l_program l = rid ∧ l_bank l = bid ∧ l_lane l = lane s ∧ l_active l = true
         ∧ l_uopIndex l = 1%nat ∧ l_pc l = Uop.pc (Replay.uop_at (templates rid) 1)
         ∧ l_regs l = <[Z.to_nat (Replay.triggerDestination (templates rid)) := value]>
                        (<[0%nat := 0]> (Replay.initialRegs (templates rid)))
         ∧ banks e' = <[bid := b']> (banks e)
         ∧ (∀ r, (r < 32)%nat → bank_read r (lane s) b' = l_regs l !!! r)
         ∧ (∀ r k, (r < 32)%nat → (k < 128)%nat → k ≠ lane s → bank_read r k b' = bank_read r k b).
Proof.
  set (t := templates rid) in *. set (d := Replay.triggerDestination t) in *.
  unfold enqueueReplayLane. rewrite Hr, Hbk. fold t. fold d.
  rewrite (proj2 (Nat.leb_gt _ _) Hcount), Hdest. cbn [orb negb].
  set (l := new_lane rid bid s value).
  match goal with |- context [credit ?e1] =>
    destruct (credit_frame e1) as (E1 & E2 & _);
    assert (E3 : readyUops (thread (credit e1).1) ≠ 0%nat)
      by (unfold credit, lane_credit; destruct (Nat.eqb_spec (readyUops (thread e1)) 0); done);
    destruct (credit e1) as [e' n]
  end.
  cbn [fst] in *. simpl in E1, E2. apply tracked_range in Hdest as Hd.
  destruct Hok as [H1 H2 H3].
  assert (Hl : lane_ok l).
  { split; simpl.
    - by rewrite !length_insert.
    - done.
    - intros Hpc. fold t in Hpc |- *. rewrite (proj2 (Nat.ltb_lt _ _) Hcount) in *. done. }
  set (bw := bank_write (Z.to_nat d) (lane s) value 0 b).
  assert (Hm' : mirror bw l).
  { intros r Hrr. change (l_lane l) with (lane s). unfold bw. rewrite bank_read_write by (by eapply H3 || lia).
    change (l_regs l) with (<[Z.to_nat d := value]> (<[0%nat := 0]> (Replay.initialRegs t))).
    destruct (decide (r = Z.to_nat d)) as [->|Hne].
    - rewrite decide_True by done. rewrite list_lookup_total_insert_eq; [done|].
      rewrite length_insert. lia.
    - rewrite decide_False by (by intros []). rewrite list_lookup_total_insert_ne by done.
      apply Himage; [done|]. fold t d. lia. }
  split; [done|]. split; [|split; [done|]].
  - split; rewrite ?E1, ?E2.
    + intros l' Hl'. apply elem_of_app in Hl' as [Hl'|Hl'%list_elem_of_singleton].
      * destruct (H1 l' Hl') as (Hlo & b' & Hb' & Hm). split; [done|].
        destruct (decide (bid = l_bank l')) as [Heq|Hne].
        -- rewrite <- Heq, lookup_alter_eq, Hb. eexists. split; [done|].
           rewrite <- Heq, Hb in Hb'. injection Hb' as <-.
           apply mirror_other; [by eapply H3|done|lia|done| |done].
           intros Hc. apply (Hnew l' Hl'). by rewrite Hc, Heq.
        -- rewrite lookup_alter_ne by done. by exists b'.
      * subst l'. split; [done|]. change (l_bank l) with bid. rewrite lookup_alter_eq, Hb. by exists bw.
    + rewrite fmap_app. apply NoDup_app. split; [done|]. split; [|apply NoDup_singleton].
      intros x Hx Hx'. apply list_elem_of_singleton in Hx' as ->.
      apply list_elem_of_fmap in Hx as (l' & Hx & Hl'). by apply (Hnew l' Hl').
    + intros i bi Hi. apply lookup_alter_Some in Hi as [(<- & x & Hx & ->)|[_ Hi]]; [|by eapply H3].
      apply bank_write_good; [by eapply H3|lia|done].
  - exists l, bw. rewrite E1, E2. split_and!; try done.
    + simpl. fold t. by rewrite (proj2 (Nat.ltb_lt _ _) Hcount).
    + apply map_eq. intros i. destruct (decide (i = bid)) as [->|Hne].
      * by rewrite lookup_alter_eq, lookup_insert_eq, Hb.
      * by rewrite lookup_alter_ne, lookup_insert_ne.
    + intros r k Hrr Hk Hne. unfold bw. rewrite bank_read_write by (by eapply H3 || lia).
      rewrite decide_False; [done|]. by intros [].
Qed.
End lanes.

(** ** Witnesses *)

(** The abstract bank: one value per register and lane. *)
Definition Array : Type := nat → nat → Z.
Definition array_write (a l : nat) (v t : Z) (b : Array) : Array :=
  λ a' l', if decide (a' = a ∧ l' = l) then v else b a' l'.

Lemma array_reads a l v t (b : Array) a' l' :
  True → (a < 32)%nat → (l < 128)%nat → (a' < 32)%nat → (l' < 128)%nat →
  array_write a l v t b a' l' = if decide (a' = a ∧ l' = l) then v else b a' l'.
Proof. done. Qed.

#[export] Instance Array_LaneBank : LaneBank Array :=
  mkLaneBank Array (λ a l b, b a l) array_write (λ _, True) (λ _ _ _ _ _ _ _ _, I) array_reads.

(** The template of Replay.v, run on past its final load. *)
Definition sample_template (n : nat) : Replay.Template := Replay.chain Add.

Definition sample_request (k : nat) : Request :=
  mkRequest 4096 112 0 0 true false false Relation.Paths_init (Some 0%nat) (Some 7%nat) None k.

Definition image : Array := λ a _, <[0%nat := 0]> (Replay.initialRegs (Replay.chain Add)) !!! a.

Definition sample_engine : Engine Array := mkEngine _ Helper.reset ∅ {[7%nat := image]}.

Lemma sample_engine_ok : engine_ok sample_template sample_engine.
Proof.
  split; simpl.
  - intros l Hl. by apply elem_of_nil in Hl.
  - constructor.
  - done.
Qed.

Lemma source_response_enters_witness :
  ∃ l, replayLanes (thread (enqueueReplayLane sample_template (sample_request 3) 5 sample_engine).1.1) = [l]
       ∧ l_pc l = 104 ∧ l_regs l !!! 5%nat = 5.
Proof.
  pose proof (source_response_enters sample_template (sample_request 3) 0 7 5 image sample_engine
                sample_engine_ok eq_refl eq_refl (lookup_singleton_eq 7%nat image)) as H.
  destruct (enqueueReplayLane sample_template (sample_request 3) 5 sample_engine) as [[e' q] n].
  destruct H as (_ & _ & _ & l & b' & H1 & _ & _ & _ & _ & _ & H2 & H3 & _).
  - simpl. lia.
  - intros l Hl. apply elem_of_nil in Hl. destruct Hl.
  - vm_compute. lia.
  - vm_compute. reflexivity.
  - reflexivity.
  - intros r Hr _. reflexivity.
  - exists l. split; [exact H1|]. split; [exact H2|]. rewrite H3. vm_compute. reflexivity.
Defined.

(** Lane 3 waits for the load at 112 into x10. *)
Definition waiting_lane : Lane :=
  (new_lane sample_template 0 7 (sample_request 3) 5) <| l_uopIndex := 3%nat |> <| l_pc := 0 |>.

Definition waiting_engine : Engine Array :=
  mkEngine _ (Helper.reset <| replayLanes := [waiting_lane] |>) ∅
    {[7%nat := (λ a _, l_regs waiting_lane !!! a) : Array]}.

Lemma waiting_engine_ok : engine_ok sample_template waiting_engine.
Proof.
  split; simpl.
  - intros l Hl. apply list_elem_of_singleton in Hl as ->. split.
    + split; [done|simpl; lia|done].
    + eexists. split; [apply lookup_singleton_eq|]. intros r Hr. reflexivity.
  - apply NoDup_singleton.
  - done.
Qed.

Lemma waiting_parked : parked sample_template (sample_request 3) 112 waiting_lane = true.
Proof. vm_compute. done. Qed.

Lemma dependent_response_resumes_witness :
  let e' := (resumeDependentLane sample_template (sample_request 3) 112 77 waiting_engine).1.1 in
  (λ l, l_regs l !!! 10%nat) <$> replayLanes (thread e') = [77]
  ∧ readyUops (thread e') ≠ 0%nat.
Proof.
  pose proof (dependent_response_resumes sample_template (sample_request 3) 0 waiting_lane 77
                waiting_engine waiting_engine_ok eq_refl waiting_parked ltac:(discriminate)) as H.
  cbv zeta in H. change (Uop.pc (Replay.uop_at (sample_template (l_program waiting_lane))
                            (l_uopIndex waiting_lane))) with 112 in H.
  cbv zeta.
  destruct (resumeDependentLane sample_template (sample_request 3) 112 77 waiting_engine) as [[e' f] n].
  destruct H as (_ & _ & H1 & (l' & H2 & H3 & _) & _). split; [|exact H1].
  cbn [fst]. rewrite H2. simpl. rewrite H3. reflexivity.
Defined.

(** ** A load into x0

    [resumeDependentLane] accepts destination 0, unlike [issueDVRReplayLanes], which clears
    register 0 after each uop: after such a load the lane's x0 and its bank's x0 hold the value
    until the lane issues, and the bank's keeps it. *)
Definition x0_template (n : nat) : Replay.Template :=
  Replay.make_template true 100 0 0 0 (replicate 32 0)
    (Recorder.mkRecorder
       [Replay.trigger_uop; Replay.load_uop <| destination := 0 |>; Replay.shift_uop] 3 false).

Lemma resume_writes_x0 :
  let l := (new_lane x0_template 0 7 (sample_request 3) 5) <| l_pc := 0 |> in
  let e := mkEngine Array (Helper.reset <| replayLanes := [l] |>) ∅ {[7%nat := λ _ _, 0]} in
  let e' := (resumeDependentLane x0_template (sample_request 3) 112 77 e).1.1 in
  (λ l, l_regs l !!! 0%nat) <$> replayLanes (thread e') = [77]
  ∧ bank_read 0 3 <$> banks e' !! 7%nat = Some 77.
Proof. vm_compute. done. Qed.
End Lanes.
