(* ===== verification/PrefetchQueue.v ===== *)
(** * The prefetch queue and the helper's load queue

    Model of the bookkeeping of the helper's memory requests (src/cpu/o3/cpu.cc): the queue of
    [DVRPrefetchAddress]es, the sets that deduplicate it, the counters of the lines that are
    outstanding, the helper load entries and their occupancy.  [serviceDVRPrefetchRequest] and
    [completeDVRPrefetch], which drive it, are in Prefetch.v. *)

From stdpp Require Import gmap.
From S2P Require Import Prelude Lanes.

Module PrefetchQueue.
Import Lanes.

Definition DvrMaxQueuedPrefetches : nat := 256.
Definition DvrHelperLoadQueueCapacity : nat := 16.
#[global] Arguments DvrMaxQueuedPrefetches : simpl never.
#[global] Arguments DvrHelperLoadQueueCapacity : simpl never.

(** [DVRHelperLoadState] and [DVRHelperLoadEntry] *)
Inductive LoadState :=
  | Allocated | TranslationFault | Retry | WaitingResponse | Writeback | Completed | Dropped.
#[export] Instance LoadState_eq_dec : EqDecision LoadState.
Proof. solve_decision. Defined.

Record LoadEntry := mkLoadEntry {
  virtualAddress : Z;  physicalAddress : Z;  e_pc : Z;  e_lane : nat;  e_tid : Z;
  e_source : bool;  e_nested : bool;  e_state : LoadState;  allocatedTick : Z;  issueTick : Z;
  responseTick : Z
}.
#[export] Instance eta_LoadEntry : Eta LoadEntry := λ r,
  mkLoadEntry (virtualAddress r) (physicalAddress r) (e_pc r) (e_lane r) (e_tid r) (e_source r)
    (e_nested r) (e_state r) (allocatedTick r) (issueTick r) (responseTick r).

(** A packet in the memory system, with what its sender state adds to the request. *)
Record Packet := mkPacket { p_req : Request;  helperLoadId : nat;  valueResponse : bool }.

(** The members of the CPU, and the packets that have been sent and not answered. *)
Record Mem := mkMem {
  queue : list Request;  queuedAddresses : gset Z;  outstandingAddresses : gset Z;
  queuedDependentLines : gset Z;  outstandingLines : gmap Z Z;  completedLines : gmap Z Z;
  dependentOutstandingLines : gmap Z Z;  dependentCompletedLines : gset Z;
  oracleCompletedLines : gset Z;  loadEntries : gmap nat LoadEntry;  nextHelperLoadId : nat;
  occupancy : nat;  flight : list Packet
}.
#[export] Instance eta_Mem : Eta Mem := λ r,
  mkMem (queue r) (queuedAddresses r) (outstandingAddresses r) (queuedDependentLines r)
    (outstandingLines r) (completedLines r) (dependentOutstandingLines r)
    (dependentCompletedLines r) (oracleCompletedLines r) (loadEntries r) (nextHelperLoadId r)
    (occupancy r) (flight r).

Definition Mem_init : Mem := mkMem [] ∅ ∅ ∅ ∅ ∅ ∅ ∅ ∅ ∅ 1 0 [].

Section queue.
Context (line_size : Z).

(** [dvrPrefetchLine] *)
Definition line (address : Z) : Z := Z.land address (Z.lnot (line_size - 1)).

(** A request that is not for a source, and one whose lines the dependent tables follow. *)
Definition dependent (r : Request) : bool := negb (source r) && negb (oracle r).

(** ** Filling the queue *)

Definition full (m : Mem) : bool := (DvrMaxQueuedPrefetches <=? length (queue m))%nat.

(** [count(address)] in the queued or outstanding addresses. *)
Definition address_known (a : Z) (m : Mem) : bool :=
  bool_decide (a ∈ queuedAddresses m) || bool_decide (a ∈ outstandingAddresses m).

(** [count(line)] in one of the three tables of dependent lines. *)
Definition line_known (l : Z) (m : Mem) : bool :=
  bool_decide (l ∈ queuedDependentLines m) || bool_decide (is_Some (dependentOutstandingLines m !! l))
  || bool_decide (l ∈ dependentCompletedLines m).

(** A source lane or an oracle address goes to the back. *)
Definition push_back (r : Request) (m : Mem) : Mem :=
  m <| queue ::= λ q, q ++ [r] |> <| queuedAddresses ::= λ s, {[address r]} ∪ s |>.

(** A dependent request goes to the front. *)
Definition push_dependent (r : Request) (m : Mem) : Mem :=
  m <| queue ::= λ q, r :: q |> <| queuedAddresses ::= λ s, {[address r]} ∪ s |>
    <| queuedDependentLines ::= λ s, {[line (address r)]} ∪ s |>.

(** The front is taken out. *)
Definition pop (m : Mem) : option (Request * Mem) :=
  match queue m with
  | [] => None
  | r :: q =>
      let m := m <| queue := q |> <| queuedAddresses ::= λ s, s ∖ {[address r]} |> in
      Some (r, if source r then m
               else m <| queuedDependentLines ::= λ s, s ∖ {[line (address r)]} |>)
  end.

(** A request that the port did not take goes back to the front. *)
Definition requeue (r : Request) (m : Mem) : Mem :=
  let m := m <| queue ::= λ q, r :: q |> <| queuedAddresses ::= λ s, {[address r]} ∪ s |> in
  if dependent r then m <| queuedDependentLines ::= λ s, {[line (address r)]} ∪ s |> else m.

(** [launchDVRVectorRunahead] empties the queue. *)
Definition clear_queue (m : Mem) : Mem :=
  m <| queue := [] |> <| queuedAddresses := ∅ |> <| queuedDependentLines := ∅ |>.

(** ** Load entries *)

(** A helper load is given an entry. *)
Definition allocate_entry (r : Request) (now : Z) (m : Mem) : nat * Mem :=
  let id := nextHelperLoadId m in
  (id, m <| nextHelperLoadId ::= S |>
         <| loadEntries ::= <[id := mkLoadEntry (address r) 0 (req_pc r) (lane r) (req_tid r)
                                      (source r) (nested r) Allocated now 0 0]> |>).

(** [finish_helper_entry]; the final state is that of an entry erased at once. *)
Definition finish_entry (id : nat) (m : Mem) : Mem := m <| loadEntries ::= delete id |>.

(** ** Counters of lines *)

Definition incr (k : Z) (c : gmap Z Z) : gmap Z Z := <[k := u32 (default 0 (c !! k) + 1)]> c.

(** [if (it != end && --it->second == 0) erase(it)] *)
Definition decr (k : Z) (c : gmap Z Z) : gmap Z Z :=
  match c !! k with
  | Some n => if u32 (n - 1) =? 0 then delete k c else <[k := u32 (n - 1)]> c
  | None => c
  end.

(** ** Sending and landing *)

(** The end of [serviceDVRPrefetchRequest], for a packet the port has taken. *)
Definition send (r : Request) (id : nat) (value : bool) (paddr now : Z) (m : Mem) : Mem :=
  let m := m <| loadEntries ::= alter (λ e : LoadEntry,
                  e <| physicalAddress := paddr |> <| issueTick := now |>
                    <| e_state := WaitingResponse |>) id |>
             <| occupancy ::= S |>
             <| outstandingLines ::= incr (line (address r)) |>
             <| outstandingAddresses ::= λ s, {[address r]} ∪ s |>
             <| flight ::= λ l, l ++ [mkPacket r id value] |> in
  if dependent r then m <| dependentOutstandingLines ::= incr (line (address r)) |> else m.

(** [dependent_outstanding->second] reaches zero. *)
Definition land_dependent (l : Z) (m : Mem) : Mem :=
  match dependentOutstandingLines m !! l with
  | Some n =>
      let m := m <| dependentOutstandingLines ::= decr l |> in
      if u32 (n - 1) =? 0 then m <| dependentCompletedLines ::= λ s, {[l]} ∪ s |> else m
  | None => m
  end.

(** The bookkeeping of [completeDVRPrefetch] for the [k]-th packet in flight; [None] is the
    failure of its assertion. *)
Definition land (k : nat) (now : Z) (m : Mem) : option (Packet * Mem) :=
  match flight m !! k with
  | None => None
  | Some p =>
      if (occupancy m =? 0)%nat then None
      else
        let r := p_req p in
        let l := line (address r) in
        let m := m <| flight ::= λ ps, delete k ps |> <| occupancy ::= Nat.pred |> in
        let m := if oracle r then m <| oracleCompletedLines ::= λ s, {[l]} ∪ s |> else m in
        let m := m <| outstandingAddresses ::= λ s, s ∖ {[address r]} |>
                   <| outstandingLines ::= decr l |> in
        let m := if dependent r then land_dependent l m else m in
        Some (p, finish_entry (helperLoadId p) (m <| completedLines ::= <[l := now]> |>))
  end.

(** ** Demand accesses *)

(** [accountDVRDemand]: whether the line had been completed. *)
Definition accountDVRDemand (a : Z) (m : Mem) : Mem :=
  match completedLines m !! line a with
  | Some _ => m <| completedLines ::= delete (line a) |>
  | None => m
  end.

(** [observeDVRLoad] on the dependent lines. *)
Definition demand_dependent (a : Z) (m : Mem) : Mem :=
  m <| dependentCompletedLines ::= λ s, s ∖ {[line a]} |>.

(** The end of [oracleOnCommittedLoad]. *)
Definition demand_oracle (a : Z) (m : Mem) : Mem :=
  m <| oracleCompletedLines ::= λ s, s ∖ {[line a]} |>.

(** ** The invariant *)

(** [c] counts the keys in [xs]. *)
Definition counts (c : gmap Z Z) (xs : list Z) : Prop :=
  ∀ k, c !! k = if (occ k xs =? 0)%nat then None else Some (Z.of_nat (occ k xs)).

Definition line_of (p : Packet) : Z := line (address (p_req p)).

(** The packets of dependent requests. *)
Definition dependents (ps : list Packet) : list Packet :=
  filter (λ p, dependent (p_req p) = true) ps.

(** The queue, the load queue and their tables. *)
Record mem_ok (m : Mem) : Prop := {
  ok_queue : (length (queue m) ≤ DvrMaxQueuedPrefetches)%nat;
  ok_occupancy : occupancy m = length (flight m);
  ok_capacity : (occupancy m ≤ DvrHelperLoadQueueCapacity)%nat;
  ok_lines : counts (outstandingLines m) (line_of <$> flight m);
  ok_dependents : counts (dependentOutstandingLines m) (line_of <$> dependents (flight m));
  ok_ids : NoDup (helperLoadId <$> flight m);
  ok_entries : ∀ i, i ∈ helperLoadId <$> flight m ↔ is_Some (loadEntries m !! i);
  ok_waiting : ∀ i x, loadEntries m !! i = Some x → e_state x = WaitingResponse;
  ok_fresh : ∀ i, is_Some (loadEntries m !! i) → (i < nextHelperLoadId m)%nat;
  ok_queued : ∀ a, a ∈ queuedAddresses m → a ∈ address <$> queue m;
  ok_queued_lines : ∀ l, l ∈ queuedDependentLines m →
                    ∃ r, r ∈ queue m ∧ source r = false ∧ line (address r) = l;
  ok_outstanding : ∀ a, a ∈ outstandingAddresses m → a ∈ (λ p, address (p_req p)) <$> flight m
}.

Lemma Mem_init_ok : mem_ok Mem_init.
Proof.
  split; simpl; try done; try lia; try (intros k; by rewrite lookup_empty);
    try (intros; set_solver).
  - constructor.
  - intros i. rewrite elem_of_nil, lookup_empty. split; [done|]. by intros [].
Qed.

Lemma occ_le_length (k : Z) xs : (occ k xs ≤ length xs)%nat.
Proof. unfold occ. apply length_filter. Qed.

Lemma counts_incr c xs k :
  (length xs < 1000)%nat → counts c xs → counts (incr k c) (xs ++ [k]).
Proof.
  intros Hlen H k'. unfold incr. rewrite occ_app, occ_cons, occ_nil. pose proof (occ_le_length k xs).
  destruct (decide (k' = k)) as [->|Hne].
  - rewrite lookup_insert_eq, one_self, (H k).
    destruct (Nat.eqb_spec (occ k xs) 0) as [E|E]; simpl.
    + rewrite E. done.
    + rewrite (proj2 (Nat.eqb_neq _ 0)) by lia. f_equal. unfold u32. rewrite Z.mod_small; lia.
  - rewrite lookup_insert_ne, one_other by done. replace (occ k' xs + (0 + 0))%nat with (occ k' xs) by lia.
    apply H.
Qed.

Lemma counts_decr c xs ys k :
  (length xs < 1000)%nat → xs ≡ₚ k :: ys → counts c xs → counts (decr k c) ys.
Proof.
  intros Hlen Hp H k'. pose proof (occ_le_length k xs) as Hle. pose proof (H k) as Hk.
  assert (Ho : ∀ j, occ j xs = (one j k + occ j ys)%nat) by (intros j; by rewrite Hp, occ_cons).
  unfold decr. rewrite Hk. rewrite (Ho k), one_self in *. cbn [Nat.eqb Nat.add].
  replace (u32 (Z.of_nat (S (occ k ys)) - 1)) with (Z.of_nat (occ k ys))
    by (unfold u32; rewrite Z.mod_small; lia).
  destruct (decide (k' = k)) as [->|Hne].
  - destruct (Z.eqb_spec (Z.of_nat (occ k ys)) 0) as [E|E].
    + rewrite lookup_delete_eq, (proj2 (Nat.eqb_eq _ 0)) by lia. done.
    + rewrite lookup_insert_eq, (proj2 (Nat.eqb_neq _ 0)) by lia. done.
  - assert (E : (if Z.of_nat (occ k ys) =? 0 then delete k c
                 else <[k := Z.of_nat (occ k ys)]> c) !! k' = c !! k').
    { destruct (_ =? 0); [by rewrite lookup_delete_ne|by rewrite lookup_insert_ne]. }
    rewrite E, (H k'), (Ho k'), one_other by done. done.
Qed.

Lemma address_line r r' : address r = address r' → line (address r) = line (address r').
Proof. by intros ->. Qed.

(** ** The operations keep it *)

Lemma push_back_ok r m : mem_ok m → full m = false → mem_ok (push_back r m).
Proof.
  intros Hok Hf. unfold full in Hf. apply Nat.leb_gt in Hf. destruct Hok.
  split; simpl; try done.
  - rewrite length_app; simpl. lia.
  - intros a. rewrite elem_of_union, elem_of_singleton, fmap_app, elem_of_app.
    intros [->|Ha]; [right; simpl; by left|left; by apply ok_queued0].
  - intros l Hl. destruct (ok_queued_lines0 l Hl) as (r' & Hr & ?). exists r'.
    rewrite elem_of_app. by split; [left|].
Qed.

Lemma push_dependent_ok r m :
  mem_ok m → full m = false → source r = false → mem_ok (push_dependent r m).
Proof.
  intros Hok Hf Hs. unfold full in Hf. apply Nat.leb_gt in Hf. destruct Hok.
  split; simpl; try done; try lia.
  - intros a. rewrite elem_of_union, elem_of_singleton, elem_of_cons.
    intros [->|Ha]; [by left|right; by apply ok_queued0].
  - intros l. rewrite elem_of_union, elem_of_singleton. intros [->|Hl].
    + exists r. split; [left|done].
    + destruct (ok_queued_lines0 l Hl) as (r' & Hr & ?). exists r'. by split; [right|].
Qed.

(** The front leaves, and room is left for it. *)
Lemma pop_ok r m m' :
  mem_ok m → pop m = Some (r, m') →
  mem_ok m' ∧ (length (queue m') < DvrMaxQueuedPrefetches)%nat ∧ queue m = r :: queue m'
  ∧ flight m' = flight m ∧ occupancy m' = occupancy m.
Proof.
  intros Hok. unfold pop. destruct (queue m) as [|r0 q] eqn:Eq; [done|].
  assert (Hlen : (S (length q) ≤ DvrMaxQueuedPrefetches)%nat)
    by (pose proof (ok_queue _ Hok) as Hl; rewrite Eq in Hl; done).
  destruct Hok. rewrite Eq in *. intros [= -> <-].
  assert (Ha : ∀ a, a ∈ queuedAddresses m ∖ {[address r]} → a ∈ address <$> q).
  { intros a. rewrite elem_of_difference, elem_of_singleton. intros [Hin Hne].
    apply ok_queued0 in Hin. rewrite fmap_cons, elem_of_cons in Hin. by destruct Hin. }
  destruct (source r) eqn:Es; split_and!; simpl; try done; try lia; split; simpl; try done; try lia.
  - intros l Hl. destruct (ok_queued_lines0 l Hl) as (r' & Hr & Hs & ?). exists r'.
    apply elem_of_cons in Hr as [->|Hr]; [congruence|done].
  - intros l. rewrite elem_of_difference, elem_of_singleton. intros [Hl Hne].
    destruct (ok_queued_lines0 l Hl) as (r' & Hr & Hs & Hll). exists r'.
    apply elem_of_cons in Hr as [->|Hr]; [congruence|done].
Qed.

Lemma pop_none m : pop m = None → queue m = [].
Proof. unfold pop. by destruct (queue m). Qed.

Lemma requeue_ok r m :
  mem_ok m → (length (queue m) < DvrMaxQueuedPrefetches)%nat → mem_ok (requeue r m).
Proof.
  intros Hok Hf. destruct Hok. unfold requeue, dependent.
  assert (Ha : ∀ a, a ∈ {[address r]} ∪ queuedAddresses m → a ∈ address <$> r :: queue m).
  { intros a. rewrite elem_of_union, elem_of_singleton, fmap_cons, elem_of_cons.
    intros [->|Ha]; [by left|right; by apply ok_queued0]. }
  destruct (source r) eqn:Es, (oracle r) eqn:Eo; cbn [negb andb]; split; simpl; try done; try lia;
    try (intros l Hl; destruct (ok_queued_lines0 l Hl) as (r' & Hr & ?); exists r'; by split; [right|]).
  intros l. rewrite elem_of_union, elem_of_singleton. intros [->|Hl].
  - exists r. split; [left|done].
  - destruct (ok_queued_lines0 l Hl) as (r' & Hr & ?). exists r'. by split; [right|].
Qed.

Lemma requeue_flight r m :
  queue (requeue r m) = r :: queue m ∧ flight (requeue r m) = flight m
  ∧ queuedAddresses (requeue r m) = {[address r]} ∪ queuedAddresses m.
Proof. unfold requeue. by destruct (dependent r). Qed.

Lemma clear_ok m : mem_ok m → mem_ok (clear_queue m).
Proof. intros []. split; simpl; try done; try lia; intros; set_solver. Qed.

(** ** Entries, sending and landing *)

Lemma fresh_entry m : mem_ok m → loadEntries m !! nextHelperLoadId m = None.
Proof.
  intros Hok. apply eq_None_not_Some. intros H. apply (ok_fresh _ Hok) in H. lia.
Qed.

(** An entry that is given up at once leaves no trace but its number. *)
Lemma dropped_ok r now m :
  mem_ok m →
  let '(id, m') := allocate_entry r now m in
  mem_ok (finish_entry id m') ∧ queue (finish_entry id m') = queue m
  ∧ flight (finish_entry id m') = flight m.
Proof.
  intros Hok. unfold allocate_entry, finish_entry. simpl. split; [|done].
  rewrite delete_insert_id by (by apply fresh_entry). destruct Hok. split; simpl; try done.
  intros i Hi. apply ok_fresh0 in Hi. lia.
Qed.

Lemma dependents_app ps p :
  dependents (ps ++ [p]) = dependents ps ++ (if dependent (p_req p) then [p] else []).
Proof.
  unfold dependents. rewrite filter_app. f_equal. rewrite filter_cons, filter_nil.
  destruct (dependent (p_req p)); by case_decide.
Qed.

Lemma dependents_length ps : (length (dependents ps) ≤ length ps)%nat.
Proof. apply length_filter. Qed.

(** What [send] leaves in each table. *)
Lemma send_fields r id value paddr now m :
  let m' := send r id value paddr now m in
  queue m' = queue m ∧ queuedAddresses m' = queuedAddresses m
  ∧ queuedDependentLines m' = queuedDependentLines m
  ∧ flight m' = flight m ++ [mkPacket r id value] ∧ occupancy m' = S (occupancy m)
  ∧ outstandingAddresses m' = {[address r]} ∪ outstandingAddresses m
  ∧ outstandingLines m' = incr (line (address r)) (outstandingLines m)
  ∧ dependentOutstandingLines m'
    = (if dependent r then incr (line (address r)) (dependentOutstandingLines m)
       else dependentOutstandingLines m)
  ∧ loadEntries m' = alter (λ e : LoadEntry, e <| physicalAddress := paddr |> <| issueTick := now |>
                              <| e_state := WaitingResponse |>) id (loadEntries m)
  ∧ nextHelperLoadId m' = nextHelperLoadId m.
Proof. unfold send. by destruct (dependent r). Qed.

(** A packet that is sent owns a new entry. *)
Lemma send_ok r now value paddr m :
  mem_ok m → (occupancy m < DvrHelperLoadQueueCapacity)%nat →
  let '(id, m1) := allocate_entry r now m in
  let m' := send r id value paddr now m1 in
  mem_ok m' ∧ queue m' = queue m ∧ flight m' = flight m ++ [mkPacket r id value].
Proof.
  intros Hok Hc. pose proof (fresh_entry m Hok) as Hfresh. unfold allocate_entry. cbv zeta.
  set (id := nextHelperLoadId m) in *. set (m1 := (m <| nextHelperLoadId ::= S |>) <| loadEntries ::= _ |>).
  destruct (send_fields r id value paddr now m1) as (Q1 & Q2 & Q3 & F & O & A & L & D & En & Nx).
  split; [|by rewrite Q1, F].
  assert (Hnew : id ∉ helperLoadId <$> flight m).
  { intros Hin. apply (ok_entries _ Hok) in Hin. rewrite Hfresh in Hin. by destruct Hin. }
  assert (Hlen : (length (flight m) < 16)%nat) by (rewrite <- (ok_occupancy _ Hok); exact Hc).
  pose proof (dependents_length (flight m)) as Hdl.
  destruct Hok. split; rewrite ?Q1, ?Q2, ?Q3, ?F, ?O, ?A, ?L, ?D, ?En, ?Nx; try done; simpl.
  - rewrite length_app. simpl. lia.
  - rewrite fmap_app. apply (counts_incr _ _ (line (address r))); [rewrite length_fmap; lia|done].
  - rewrite dependents_app. cbn [p_req]. destruct (dependent r); [|by rewrite app_nil_r].
    rewrite fmap_app. apply (counts_incr _ _ (line (address r))); [rewrite length_fmap; lia|done].
  - rewrite fmap_app. apply NoDup_app. split; [done|]. split; [|apply NoDup_singleton].
    intros x Hx Hx'. by apply list_elem_of_singleton in Hx' as ->.
  - intros i. rewrite fmap_app, elem_of_app, ok_entries0. simpl. rewrite list_elem_of_singleton.
    destruct (decide (i = id)) as [->|Hne].
    + rewrite lookup_alter_eq, lookup_insert_eq. simpl. split; [by eexists|by right].
    + rewrite lookup_alter_ne, lookup_insert_ne by done. split; [by intros [?|?]|by left].
  - intros i x Hx. apply lookup_alter_Some in Hx as [(<- & y & _ & ->)|[Hne Hx]]; [done|].
    rewrite lookup_insert_ne in Hx by done. by eapply ok_waiting0.
  - intros i. destruct (decide (i = id)) as [->|Hne]; [unfold id; lia|].
    rewrite lookup_alter_ne, lookup_insert_ne by done. intros Hi. apply ok_fresh0 in Hi. lia.
  - intros a. rewrite elem_of_union, elem_of_singleton, fmap_app, elem_of_app.
    intros [->|Ha]; [right; simpl; by left|left; by apply ok_outstanding0].
Qed.

Lemma decr_none k c : c !! k = None → decr k c = c.
Proof. unfold decr. by intros ->. Qed.

(** What [land] leaves in each table. *)
Lemma land_fields k now p m :
  flight m !! k = Some p → occupancy m ≠ 0%nat →
  ∃ m', land k now m = Some (p, m')
  ∧ queue m' = queue m ∧ queuedAddresses m' = queuedAddresses m
  ∧ queuedDependentLines m' = queuedDependentLines m
  ∧ flight m' = delete k (flight m) ∧ occupancy m' = pred (occupancy m)
  ∧ outstandingAddresses m' = outstandingAddresses m ∖ {[address (p_req p)]}
  ∧ outstandingLines m' = decr (line_of p) (outstandingLines m)
  ∧ dependentOutstandingLines m'
    = (if dependent (p_req p) then decr (line_of p) (dependentOutstandingLines m)
       else dependentOutstandingLines m)
  ∧ loadEntries m' = delete (helperLoadId p) (loadEntries m)
  ∧ nextHelperLoadId m' = nextHelperLoadId m
  ∧ completedLines m' = <[line_of p := now]> (completedLines m).
Proof.
  intros Hk Ho. unfold land, line_of. rewrite Hk, (proj2 (Nat.eqb_neq _ 0) Ho).
  eexists. split; [done|].
  destruct (oracle (p_req p)), (dependent (p_req p)) eqn:Ed; simpl; try done.
  all: unfold land_dependent; simpl.
  all: destruct (dependentOutstandingLines m !! line (address (p_req p))) as [n|] eqn:El;
    [destruct (u32 (n - 1) =? 0); simpl; done|].
  all: by rewrite (decr_none _ _ El).
Qed.

Lemma dependents_perm ps qs : ps ≡ₚ qs → dependents ps ≡ₚ dependents qs.
Proof. intros H. unfold dependents. by rewrite H. Qed.

Lemma dependents_cons p ps :
  dependents (p :: ps) = (if dependent (p_req p) then [p] else []) ++ dependents ps.
Proof.
  unfold dependents. rewrite filter_cons. destruct (dependent (p_req p)); by case_decide.
Qed.

(** A landed packet leaves every table as if it had not been. *)
Lemma land_ok k now p m :
  mem_ok m → flight m !! k = Some p →
  ∃ m', land k now m = Some (p, m') ∧ mem_ok m' ∧ queue m' = queue m
        ∧ flight m' = delete k (flight m) ∧ occupancy m' = pred (occupancy m).
Proof.
  intros Hok Hk. pose proof (delete_Permutation _ _ _ Hk) as Hp.
  assert (Hlen : (0 < length (flight m))%nat) by (apply lookup_lt_Some in Hk; lia).
  assert (Ho : occupancy m ≠ 0%nat) by (rewrite (ok_occupancy _ Hok); lia).
  assert (H16 : (length (flight m) ≤ 16)%nat)
    by (pose proof (ok_capacity _ Hok) as Hc; rewrite (ok_occupancy _ Hok) in Hc; exact Hc).
  pose proof (dependents_length (flight m)) as Hdl.
  destruct (land_fields k now p m Hk Ho) as (m' & E & Q1 & Q2 & Q3 & F & O & A & L & D & En & Nx & _).
  exists m'. split; [done|]. split; [|done].
  destruct Hok. split; rewrite ?Q1, ?Q2, ?Q3, ?F, ?O, ?A, ?L, ?D, ?En, ?Nx; try done;
    clear E F; set (ps := delete k (flight m)) in *; clearbody ps.
  - rewrite ok_occupancy0. apply Permutation_length in Hp. simpl in Hp. lia.
  - lia.
  - eapply (counts_decr _ (line_of <$> flight m)); [rewrite length_fmap; lia| |done].
    by rewrite Hp.
  - pose proof (dependents_perm _ _ Hp) as Hd. rewrite dependents_cons in Hd.
    destruct (dependent (p_req p)).
    + eapply (counts_decr _ (line_of <$> dependents (flight m))); [rewrite length_fmap; lia| |done].
      by rewrite Hd.
    + intros j. rewrite (ok_dependents0 j).
      assert (Hj : occ j (line_of <$> dependents (flight m)) = occ j (line_of <$> dependents ps))
        by (by rewrite Hd).
      by rewrite Hj.
  - rewrite Hp in ok_ids0. by apply NoDup_cons in ok_ids0 as [_ ?].
  - rewrite Hp, fmap_cons in ok_ids0. apply NoDup_cons in ok_ids0 as [Hn _].
    intros i. destruct (decide (i = helperLoadId p)) as [->|Hne].
    + rewrite lookup_delete_eq. split; [done|]. by intros [].
    + rewrite lookup_delete_ne, <- ok_entries0 by done. rewrite Hp.
      rewrite fmap_cons, elem_of_cons. split; [by right|]. by intros [?|?].
  - intros i x Hx. apply lookup_delete_Some in Hx as [_ Hx]. by eapply ok_waiting0.
  - intros i [x Hx]. apply lookup_delete_Some in Hx as [_ Hx]. apply ok_fresh0. by eexists.
  - intros a. rewrite elem_of_difference, elem_of_singleton. intros [Ha Hne].
    apply ok_outstanding0 in Ha. rewrite Hp, fmap_cons, elem_of_cons in Ha. by destruct Ha.
Qed.

(** A source's packet leaves the queue and the dependent lines as they are. *)
Lemma land_source k now p m :
  mem_ok m → flight m !! k = Some p → source (p_req p) = true →
  ∃ m', land k now m = Some (p, m') ∧ queue m' = queue m ∧ ∀ l, line_known l m' = line_known l m.
Proof.
  intros Hok Hk Hs. unfold land. rewrite Hk.
  assert (Hd : dependent (p_req p) = false) by (unfold dependent; by rewrite Hs).
  rewrite (proj2 (Nat.eqb_neq _ 0)), Hd.
  - eexists. split; [done|]. by destruct (oracle (p_req p)).
  - rewrite (ok_occupancy _ Hok). apply lookup_lt_Some in Hk. lia.
Qed.

(** The demand side changes none of the tables of the invariant. *)
Lemma demand_ok a m :
  mem_ok m → mem_ok (accountDVRDemand a m) ∧ mem_ok (demand_dependent a m) ∧ mem_ok (demand_oracle a m).
Proof.
  intros []. split_and!; try (split; simpl; done).
  unfold accountDVRDemand. destruct (completedLines m !! line a); split; simpl; done.
Qed.
End queue.
End PrefetchQueue.
