(* ===== verification/Prefetch.v ===== *)
(** * The helper's memory requests

    Model of the path a prefetch takes through src/cpu/o3/cpu.cc: the launches that queue source
    lanes ([launchDVRStridePrefetches], [launchDVRVectorRunahead], [oracleOnCommittedLoad]), the
    issue of the front request in a cycle ([serviceDVRPrefetchQueue],
    [serviceDVRPrefetchRequest]) and the response ([completeDVRPrefetch], [replayDVRSource]),
    over the helper thread, its lanes, the queue and the predicate generations.  Translation, the
    data port and the room in the load queue are arguments, as are the templates, and the bank a
    launch gets from HelperRegs.v. *)

From stdpp Require Import gmap.
From S2P Require Import Prelude Inst Uop Recorder Predicate Generation Relation Replay.
From S2P Require Import Helper Lanes PrefetchQueue.

Module Prefetch.
Import Uop Helper Lanes PrefetchQueue.
#[local] Existing Instance Generation.eta_Gen.

Definition DvrHelperIssueWidth : nat := 4.
Definition MaxLanes : nat := 128.
#[global] Arguments DvrHelperIssueWidth : simpl never.
#[global] Arguments MaxLanes : simpl never.

(** Parameters of the CPU. *)
Record Config := mkConfig {
  line_size : Z;  vector_chunks : bool;  element_bits : nat;  budget : nat;
  dependent_prefetch : bool;  decoupled : bool;  issue_width : nat;  lsu_width : nat;
  max_lanes : nat
}.

(** The rest of the machine while a request is serviced: room in the load queue, translation,
    the port's [tryTiming] and its [sendTimingReq]. *)
Record World := mkWorld {
  free_entry : Z → bool;  translate : Z → option Z;  try_timing : bool;  send_timing : bool
}.

(** The issue slots of a cycle. *)
Record Slots := mkSlots {
  helper_issues : nat;  helper_lsu : nat;  helper_compute : nat;
  main_issues : nat;  main_alu : nat;  main_lsu : nat
}.
#[export] Instance eta_Slots : Eta Slots := λ r,
  mkSlots (helper_issues r) (helper_lsu r) (helper_compute r) (main_issues r) (main_alu r) (main_lsu r).

(** The members of the CPU a prefetch meets. *)
Record Sys {B : Type} := mkSys {
  engine : Engine B;  mem : Mem;  gens : gmap nat Generation.Gen;  tabs : Relation.Tables;
  alternateLines : gset Z;  nextHelperId : Z;  slots : Slots
}.
#[global] Arguments Sys : clear implicits.
#[export] Instance eta_Sys {B} : Eta (Sys B) := λ r,
  mkSys _ (engine r) (mem r) (gens r) (tabs r) (alternateLines r) (nextHelperId r) (slots r).

(** ** Loads *)

(** The bytes of a response, the first one lowest. *)
Definition little_endian (bytes : list Z) : Z :=
  foldr (λ b acc, u8 b + 256 * acc) 0 (take 8 bytes).

(** A narrow value seen as a signed one. *)
Definition sign_extend (bits value : Z) : Z :=
  let low := value mod 2 ^ bits in
  u64 (if low <? 2 ^ (bits - 1) then low else low - 2 ^ bits).

(** The switch on the load's semantics. *)
Definition load_value (s : Semantic) (raw : Z) : Z :=
  match s with
  | LoadByteSigned => sign_extend 8 raw
  | LoadHalfSigned => sign_extend 16 raw
  | LoadWordSigned => sign_extend 32 raw
  | LoadWordUnsigned => u32 raw
  | LoadByteUnsigned => u8 raw
  | LoadHalfUnsigned => u16 raw
  | _ => raw
  end.

Section prefetch.
Context {B : Type} `{LaneBank B} (cfg : Config) (templates : nat → Replay.Template).
Implicit Type s : Sys B.

Definition line (a : Z) : Z := PrefetchQueue.line (line_size cfg) a.

(** [dvrPrefetchBytes] *)
Definition prefetch_bytes (r : Request) : Z :=
  match replay r with
  | None => 1
  | Some rid =>
      let t := templates rid in
      if (Replay.count t =? 0)%nat then 1
      else
        let load_uop :=
          if source r then Some (Replay.uop_at t 0)
          else Replay.uop_at t <$> find_from 0 (Replay.count t)
                 (λ k, (Uop.pc (Replay.uop_at t k) =? req_pc r) && load (Replay.uop_at t k)) in
        match load_uop with
        | Some u => if loadBytes u =? 0 then 1 else Z.min (loadBytes u) 8
        | None => 1
        end
  end.

Definition on_thread (f : Helper.Thread Lane → Helper.Thread Lane) s : Sys B :=
  s <| engine ::= λ e, e <| thread ::= f |> |>.
Definition on_mem (f : Mem → Mem) s : Sys B := s <| mem ::= f |>.

(** [retireDVRPredicateLane] on a generation that may be null. *)
Definition retire_lane (g : option nat) (lane : nat) (value : option Z) s : Sys B :=
  match g with
  | Some g => s <| gens ::= alter (Generation.retire lane value) g |>
  | None => s
  end.

(** [startDVRHelper]: a helper that begins forgets its lanes and groups. *)
Definition start_helper (pc : Z) (uops lanes : nat) (resources : Recorder.ResourceCounts)
    (rid : option nat) (tid : Z) s : Sys B :=
  let h := thread (engine s) in
  let begins := negb ((uops =? 0)%nat || (lanes =? 0)%nat) && negb (active h) in
  let s := on_thread (startDVRHelper (vector_chunks cfg) (element_bits cfg) (budget cfg)
                        (nextHelperId s) pc uops lanes resources rid tid) s in
  if begins
  then s <| nextHelperId ::= Z.succ |> <| engine ::= λ e, e <| groups := ∅ |> |>
  else s.

(** ** Launches *)

(** One source lane of [launchDVRStridePrefetches]. *)
Definition push_source (r : Request) s : Sys B :=
  if address_known (address r) (mem s) then retire_lane (predicate r) (lane r) None s
  else on_mem (push_back r) s.

(** The lane's address, [current_address + stride * lane]. *)
Definition source_address (current stride : Z) (lane : nat) : Z := u64 (current + stride * Z.of_nat lane).

(** What a launch is given: the names of its template, bank and generation, the bank itself
    ([None] when its trigger could not be vectorised), the resources and the thread. *)
Record Launch := mkLaunch {
  rid : nat;  bid : nat;  gid : nat;  fresh_bank : option B;
  resources : Recorder.ResourceCounts;  tid : Z;  tracker0 : Predicate.Tracker
}.

(** [launchDVRStridePrefetches] *)
Definition launchDVRStridePrefetches (l : Launch) (current pc stride : Z) (wanted : nat) s : Sys B :=
  let lanes := Nat.min wanted MaxLanes in
  let available := (DvrMaxQueuedPrefetches - Nat.min (length (queue (mem s))) DvrMaxQueuedPrefetches)%nat in
  if (lanes =? 0)%nat || (available =? 0)%nat then s
  else
    let lanes := Nat.min lanes available in
    let paths := Relation.launch_paths (tabs s) pc in
    let tracker := Relation.launch_tracker (tabs s) pc lanes (tracker0 l) in
    let gen := match tracker with Some _ => Some (gid l) | None => None end in
    let s := match tracker with
             | Some t => s <| gens ::= <[gid l := Generation.fresh (Z.of_nat (gid l)) lanes t]> |>
             | None => s
             end in
    match fresh_bank l with
    | None => s
    | Some b =>
        let s := s <| engine ::= λ e, e <| banks ::= <[bid l := b]> |> |> in
        let s := start_helper pc (Nat.max 1 (Replay.count (templates (rid l)))) lanes (resources l)
                   (Some (rid l)) (tid l) s in
        foldl (λ s k, push_source
                 (mkRequest (source_address current stride (S k)) pc (tid l) 0 true false false
                    paths (Some (rid l)) (Some (bid l)) gen k) s) s (seq 0 lanes)
    end.

(** [launchDVRVectorRunahead] *)
Definition launchDVRVectorRunahead (thread_id current pc stride : Z) s : Sys B :=
  let lanes := Nat.min (max_lanes cfg) MaxLanes in
  let s := on_mem clear_queue s in
  let s := start_helper pc 1 lanes (Recorder.mkResources 0 0 0 1) None thread_id s in
  foldl (λ s k, on_mem (push_back
           (mkRequest (source_address current stride (S k)) pc thread_id 0 true false false
              Relation.Paths_init None None None k)) s) s (seq 0 lanes).

(** The loop of [oracleOnCommittedLoad] over the coming addresses of the trace. *)
Fixpoint push_oracle (futures : list Z) (thread_id : Z) s : Sys B :=
  match futures with
  | [] => s
  | a :: futures =>
      if (a =? 0) || address_known a (mem s) then push_oracle futures thread_id s
      else if full (mem s) then s
      else push_oracle futures thread_id
             (on_mem (push_back (mkRequest a 0 thread_id 0 false true false Relation.Paths_init
                                   None None None 0)) s)
  end.

Definition oracleOnCommittedLoad (futures : list Z) (a thread_id : Z) s : Sys B :=
  on_mem (demand_oracle (line_size cfg) a) (push_oracle futures thread_id s).

(** [observeDVRLoad] on the tables of prefetched lines. *)
Definition observe_demand (pc a : Z) s : Sys B :=
  let s := on_mem (accountDVRDemand (line_size cfg) a) s in
  if bool_decide (pc ∈ Relation.dependentLoads (tabs s))
  then (on_mem (demand_dependent (line_size cfg) a) s) <| alternateLines ::= λ ls, ls ∖ {[line a]} |>
  else s.

(** ** Issue *)

(** The checks on the cycle's issue slots. *)
Definition slots_room (c : Slots) : bool :=
  (helper_issues c <? DvrHelperIssueWidth)%nat
  && (decoupled cfg
      || ((main_issues c + helper_issues c + helper_compute c <? issue_width cfg)%nat
          && (main_alu c <? issue_width cfg)%nat))
  && (main_lsu c + helper_lsu c <? lsu_width cfg)%nat.

Definition slots_free s : bool := slots_room (slots s).

(** A source lane ends without a value. *)
Definition retire_source (r : Request) s : Sys B :=
  if source r then retire_lane (predicate r) (lane r) None s else s.

(** The generation of a source that faulted. *)
Definition faulted (r : Request) s : bool :=
  source r && match predicate r with
              | Some g => match gens s !! g with
                          | Some g => Generation.sourceTranslationFaulted g
                          | None => false
                          end
              | None => false
              end.

Definition mark_fault (r : Request) s : Sys B :=
  match predicate r with
  | Some g =>
      if source r
      then s <| gens ::= alter (λ g : Generation.Gen, g <| Generation.sourceTranslationFaulted := true |>) g |>
      else s
  | None => s
  end.

(** [value_response] *)
Definition value_response (r : Request) : bool :=
  negb (source r) && match replay r with
                     | Some rid => Replay.continuePastFLR (templates rid)
                     | None => false
                     end.

(** The front request once it is out of the queue; [None] is a failed assertion. *)
Definition service_front (w : World) (now : Z) (r : Request) s : option (Sys B) :=
  if faulted r s then Some (retire_lane (predicate r) (lane r) None s)
  else
    let '(id, m) := allocate_entry r now (mem s) in
    let s := s <| mem := m |> in
    if line_size cfg <? Z.land (address r) (line_size cfg - 1) + prefetch_bytes r
    then Some (retire_source r (on_mem (finish_entry id) s))
    else
      match translate w (address r) with
      | None => Some (retire_source r (on_mem (finish_entry id) (mark_fault r s)))
      | Some paddr =>
          if negb (try_timing w && send_timing w)
          then Some (on_mem (λ m, requeue (line_size cfg) r (finish_entry id m)) s)
          else
            h ← Helper.issue (thread (engine s));
            Some (on_mem (send (line_size cfg) r id (value_response r) paddr now)
                    (on_thread (λ _, h) s)
                  <| slots ::= λ c, c <| helper_issues ::= S |> <| helper_lsu ::= S |> |>)
      end.

(** [serviceDVRPrefetchRequest] *)
Definition serviceDVRPrefetchRequest (w : World) (now : Z) s : option (Sys B) :=
  match queue (mem s) with
  | [] => Some s
  | r :: _ =>
      if now <? readyTick r then Some s
      else
        let s := on_thread (λ h, (wakeForMemoryRequest h).1) s in
        if negb (canIssue true (thread (engine s))) then Some s
        else if negb (slots_free s) then Some s
        else if (DvrHelperLoadQueueCapacity <=? occupancy (mem s))%nat then Some s
        else if negb (free_entry w (req_tid r)) then Some s
        else match pop (line_size cfg) (mem s) with
             | None => Some s
             | Some (r, m) => service_front w now r (s <| mem := m |>)
             end
  end.

(** [serviceDVRPrefetchQueue]; the machine may answer each attempt differently. *)
Fixpoint service_loop (ws : list World) (now : Z) s : option (Sys B) :=
  match ws with
  | [] => Some s
  | w :: ws =>
      match queue (mem s) with
      | [] => Some s
      | _ =>
          if (DvrHelperIssueWidth <=? helper_issues (slots s))%nat then Some s
          else
            s' ← serviceDVRPrefetchRequest w now s;
            if (helper_issues (slots s') =? helper_issues (slots s))%nat then Some s'
            else service_loop ws now s'
      end
  end.

Definition serviceDVRPrefetchQueue (ws : list World) (now : Z) s : option (Sys B) :=
  service_loop (take DvrHelperIssueWidth ws) now s.

(** ** Responses *)

(** [replayDVRSource]: the replayed address is queued unless its line is known or the queue is
    full; the result is whether the value led to an address. *)
Definition replayDVRSource (r : Request) (value : Z) s : Sys B * bool :=
  match replay r with
  | None => (s, false)
  | Some rid =>
      match Replay.replay_target (tabs s) (templates rid) value with
      | Replay.Hit k a alternate =>
          if line_known (line a) (mem s) || full (mem s) then (s, true)
          else
            let d := mkRequest a (Uop.pc (Replay.uop_at (templates rid) k)) (req_tid r) 0 false false
                       (nested r) Relation.Paths_init (Some rid) None (predicate r) (lane r) in
            let s := on_mem (push_dependent (line_size cfg) d) s in
            (if alternate then s <| alternateLines ::= λ ls, {[line a]} ∪ ls |> else s, true)
      | _ => (s, false)
      end
  end.

(** The affine fallback of [completeDVRPrefetch], over the relations from index [k] on. *)
Fixpoint affine_fallback (n k : nat) (r : Request) (value : Z) s : Sys B :=
  match n with
  | O => s
  | S n =>
      let p := paths r in
      if (1 <? Relation.relationCount p)%nat
         && negb (Z.land value (Relation.masks p !!! k) =? Relation.patterns p !!! k)
      then affine_fallback n (S k) r value s
      else
        let a := u64 (Relation.scales p !!! k * s64 value + Relation.offsets p !!! k) in
        if negb (Replay.queueable a) then affine_fallback n (S k) r value s
        else if line_known (line a) (mem s) then s
        else if full (mem s) then affine_fallback n (S k) r value s
        else on_mem (push_dependent (line_size cfg)
               (mkRequest a (req_pc r) (req_tid r) 0 false false (nested r) Relation.Paths_init
                  None None None 0)) s
  end.

(** The value of a source: by the semantics of its template's trigger. *)
Definition source_value (r : Request) (bytes : list Z) : Z :=
  let raw := little_endian bytes in
  match replay r with
  | Some rid => if (Replay.count (templates rid) =? 0)%nat then raw
                else load_value (semantic (Replay.uop_at (templates rid) 0)) raw
  | None => raw
  end.

(** The value of a dependent load: by the first uop after the trigger with its PC. *)
Definition dependent_value (r : Request) (bytes : list Z) : Z :=
  let raw := little_endian bytes in
  match replay r with
  | Some rid => match Replay.find_uop (templates rid) (req_pc r) with
                | Some k => load_value (semantic (Replay.uop_at (templates rid) k)) raw
                | None => raw
                end
  | None => raw
  end.

Definition has_program (r : Request) : bool :=
  match replay r with Some rid => (1 <? Replay.count (templates rid))%nat | None => false end.

(** A source's data: its lane enters the helper, or its address is replayed at once. *)
Definition source_response (r : Request) (bytes : list Z) s : Sys B :=
  let value := source_value r bytes in
  let s := retire_lane (predicate r) (lane r) (Some value) s in
  let '(s, queued) :=
    if vector_chunks cfg && has_program r
    then let '(e, ok, _) := enqueueReplayLane templates r value (engine s) in (s <| engine := e |>, ok)
    else (s, false) in
  let '(s, matched) :=
    if queued then (s, true)
    else if dependent_prefetch cfg then replayDVRSource r value s else (s, false) in
  if dependent_prefetch cfg && negb matched && bool_decide (replay r = None)
  then affine_fallback (Relation.relationCount (paths r)) 0 r value s
  else s.

(** [completeDVRPrefetch] for the [k]-th packet in flight; [data] is what [hasData] guards. *)
Definition completeDVRPrefetch (k : nat) (data : option (list Z)) (now : Z) s : option (Sys B) :=
  '(p, m) ← land (line_size cfg) k now (mem s);
  let r := p_req p in
  let s := s <| mem := m |> in
  let s :=
    match data with
    | Some bytes =>
        if negb (source r) && valueResponse p
        then s <| engine ::= λ e, (resumeDependentLane templates r (req_pc r) (dependent_value r bytes) e).1.1 |>
        else s
    | None => s
    end in
  let s :=
    if source r then
      match data with
      | Some bytes => source_response r bytes s
      | None => retire_lane (predicate r) (lane r) None s
      end
    else s in
  let s := on_thread Helper.complete s in
  Some (if negb (active (thread (engine s))) && negb (bool_decide (queue (mem s) = []))
        then start_helper (req_pc r) 1 1 (Recorder.mkResources 0 0 0 0) None (req_tid r) s
        else s).

(** The request that [issueDVRReplayLanes] queues for a lane that reaches a dependent load. *)
Definition push_lane_target (l : Lane) (pc a ready_tick : Z) s : Sys B :=
  if (l_continuePastFLR l || negb (line_known (line a) (mem s))) && negb (full (mem s))
  then on_mem (push_dependent (line_size cfg)
         (mkRequest a pc (l_tid l) ready_tick false false (l_nested l) (l_paths l)
            (Some (l_program l)) (Some (l_bank l)) (l_predicate l) (l_lane l))) s
  else s.

(** ** Runs *)

Inductive Event :=
  | ELaunch (l : Launch) (current pc stride : Z) (wanted : nat)
  | EVector (thread_id current pc stride : Z)
  | EOracle (futures : list Z) (a thread_id : Z)
  | EDemand (pc a : Z)
  | ECycle (c : Slots) (ws : list World) (now : Z)
  | EResponse (k : nat) (data : option (list Z)) (now : Z)
  | ETarget (l : Lane) (pc a ready_tick : Z)
  | ETrain (t : Relation.Tables)
  | EHelper (o : @Helper.Op).

(** A cycle starts with the slots the main pipeline left; an answer to no packet is no event,
    nor is a call on the helper that its caller's checks forbid.  Programs are started by the
    launches, and only the requests of this file use the helper's memory operations. *)
Definition handle (ev : Event) s : option (Sys B) :=
  match ev with
  | ELaunch l current pc stride wanted => Some (launchDVRStridePrefetches l current pc stride wanted s)
  | EVector thread_id current pc stride => Some (launchDVRVectorRunahead thread_id current pc stride s)
  | EOracle futures a thread_id => Some (oracleOnCommittedLoad futures a thread_id s)
  | EDemand pc a => Some (observe_demand pc a s)
  | ECycle c ws now => serviceDVRPrefetchQueue ws now (s <| slots := c |>)
  | EResponse k data now =>
      if (k <? length (flight (mem s)))%nat then completeDVRPrefetch k data now s else Some s
  | ETarget l pc a ready_tick => Some (push_lane_target l pc a ready_tick s)
  | ETrain t => Some (s <| tabs := t |>)
  | EHelper o =>
      if Helper.quiet o
      then match Helper.step o (thread (engine s)) with
           | Some h => Some (on_thread (λ _, h) s)
           | None => Some s
           end
      else Some s
  end.

Definition Sys_init : Sys B :=
  mkSys _ (mkEngine _ Helper.reset ∅ ∅) Mem_init ∅ Relation.Tables_init ∅ 1 (mkSlots 0 0 0 0 0 0).

Definition run (evs : list Event) : option (Sys B) :=
  foldl (λ m ev, s ← m; handle ev s) (Some Sys_init) evs.

(** ** The invariant *)

(** Besides the two components' invariants: the helper waits for the packets in flight, and for
    those that have just been answered. *)
Section kept.
Context (answered : nat).

Record sys_ok s : Prop := mkSysOk {
  ok_mem : mem_ok (line_size cfg) (mem s);
  ok_thread : Helper.helper_ok (thread (engine s));
  ok_shared : Helper.outstanding (thread (engine s)) = (answered + length (flight (mem s)))%nat
}.

(** What a change of the helper must not disturb. *)
Definition keeps (h h' : Helper.Thread Lane) : Prop :=
  Helper.helper_ok h → Helper.helper_ok h' ∧ Helper.outstanding h' = Helper.outstanding h.

Lemma lanes_keep f (h : Helper.Thread Lane) : keeps h (h <| replayLanes ::= f |>).
Proof. intros []. by split. Qed.

Lemma quiet_keep o (h h' : Helper.Thread Lane) :
  Helper.quiet o = true → Helper.step o h = Some h' → keeps h h'.
Proof.
  intros Hq Hs Hok. split; [by eapply Helper.helper_step_ok|by eapply Helper.step_outstanding].
Qed.

Lemma credit_keep (e : Engine B) : keeps (thread e) (thread (credit e).1).
Proof.
  unfold credit. pose proof (quiet_keep Helper.OLane (thread e) _ eq_refl eq_refl) as H1.
  by destruct (lane_credit (thread e)).
Qed.

Lemma wake_keep (h : Helper.Thread Lane) : keeps h (wakeForMemoryRequest h).1.
Proof. by apply (quiet_keep Helper.OWake). Qed.

Lemma keeps_trans h1 h2 h3 : keeps h1 h2 → keeps h2 h3 → keeps h1 h3.
Proof. intros H1 H2 Hok. destruct (H1 Hok) as [Hok2 <-]. by apply H2. Qed.

Lemma enqueue_keep r v (e : Engine B) : keeps (thread e) (thread (enqueueReplayLane templates r v e).1.1).
Proof.
  unfold enqueueReplayLane. destruct (replay r), (bank r); try by intros ?.
  destruct (_ || _); [by intros ?|].
  match goal with |- context [credit ?e1] =>
    pose proof (credit_keep e1) as Hc; destruct (credit e1)
  end.
  eapply keeps_trans; [|exact Hc]. apply lanes_keep.
Qed.

Lemma resume_keep r pc v (e : Engine B) :
  keeps (thread e) (thread (resumeDependentLane templates r pc v e).1.1).
Proof.
  unfold resumeDependentLane. destruct (_ || _); [by intros ?|].
  destruct (list_find _ _) as [[k l]|]; [|by intros ?].
  match goal with |- context [credit ?e1] =>
    pose proof (credit_keep e1) as Hc; destruct (credit e1)
  end.
  eapply keeps_trans; [|exact Hc]. destruct (tracked _); apply lanes_keep.
Qed.

(** An idle helper waits for nothing, so that a new program forgets nothing. *)
Lemma startDVRHelper_keep vm eb bud id pc uops lanes res rid tid (h : Helper.Thread Lane) :
  keeps h (startDVRHelper vm eb bud id pc uops lanes res rid tid h).
Proof.
  intros H1. unfold startDVRHelper. destruct (_ || _); [done|].
  destruct (active h) eqn:Ea.
  - split; [by apply Helper.extend_ok|]. unfold Helper.extend.
    unfold active in Ea. apply negb_true_iff in Ea. rewrite Ea.
    by destruct (_ && vm); simpl; destruct (Helper.state h).
  - split; [apply Helper.begin_ok|]. unfold active in Ea. apply negb_false_iff, bool_decide_eq_true in Ea.
    by rewrite (Helper.ok_idle _ H1 Ea).
Qed.

(** Changes that touch the memory side, or the helper, only. *)
Lemma on_mem_ok f s :
  sys_ok s → mem_ok (line_size cfg) (f (mem s)) → flight (f (mem s)) = flight (mem s) →
  sys_ok (on_mem f s).
Proof. intros [H1 H2 H3] Hm Hf. split; [done|done|]. simpl. by rewrite Hf. Qed.

Lemma on_engine_ok (f : Engine B → Engine B) s :
  sys_ok s → keeps (thread (engine s)) (thread (f (engine s))) → sys_ok (s <| engine ::= f |>).
Proof. intros [H1 H2 H3] Hk. destruct (Hk H2) as [? E]. split; [done|done|]. simpl. by rewrite E. Qed.

Lemma frame_ok s s' : sys_ok s → mem s' = mem s → engine s' = engine s → sys_ok s'.
Proof. intros [H1 H2 H3] Em Ee. split; by rewrite ?Em, ?Ee. Qed.

Lemma retire_lane_frame g l v s :
  mem (retire_lane g l v s) = mem s ∧ engine (retire_lane g l v s) = engine s
  ∧ slots (retire_lane g l v s) = slots s.
Proof. by destruct g. Qed.

Lemma retire_lane_ok g l v s : sys_ok s → sys_ok (retire_lane g l v s).
Proof. intros Hs. destruct (retire_lane_frame g l v s) as (? & ? & _). by apply (frame_ok s). Qed.

Lemma retire_source_frame r s :
  mem (retire_source r s) = mem s ∧ engine (retire_source r s) = engine s
  ∧ slots (retire_source r s) = slots s.
Proof. unfold retire_source. destruct (source r); [apply retire_lane_frame|done]. Qed.

Lemma start_helper_mem pc uops lanes res rid tid s : mem (start_helper pc uops lanes res rid tid s) = mem s.
Proof. unfold start_helper. by destruct (_ && _). Qed.

Lemma start_helper_ok pc uops lanes res rid tid s : sys_ok s → sys_ok (start_helper pc uops lanes res rid tid s).
Proof.
  intros Hs. unfold start_helper.
  match goal with |- sys_ok (if _ then ?s1 <| nextHelperId ::= _ |> <| engine ::= _ |> else _) =>
    assert (H1 : sys_ok s1) by (apply on_engine_ok; [done|]; apply startDVRHelper_keep)
  end.
  destruct (_ && _); [|done]. destruct H1. by split.
Qed.

(** ** The launches keep it *)

Lemma push_back_sys_ok r s :
  sys_ok s → full (mem s) = false → sys_ok (on_mem (push_back r) s)
  ∧ (length (queue (mem (on_mem (push_back r) s))) ≤ S (length (queue (mem s))))%nat.
Proof.
  intros Hs Hf. split; [apply on_mem_ok; [done|by apply push_back_ok; [apply Hs|]|done]|].
  simpl. rewrite length_app. simpl. lia.
Qed.

Lemma push_source_ok r s :
  sys_ok s → full (mem s) = false → sys_ok (push_source r s)
  ∧ (length (queue (mem (push_source r s))) ≤ S (length (queue (mem s))))%nat.
Proof.
  intros Hs Hf. unfold push_source. destruct (address_known _ _); [|by apply push_back_sys_ok].
  split; [by apply retire_lane_ok|]. destruct (retire_lane_frame (predicate r) (lane r) None s) as (-> & _). lia.
Qed.

(** A run of pushes that fits. *)
Lemma push_all_ok (push : Sys B → nat → Sys B) ks s :
  (∀ s k, sys_ok s → full (mem s) = false →
     sys_ok (push s k) ∧ (length (queue (mem (push s k))) ≤ S (length (queue (mem s))))%nat) →
  sys_ok s → (length (queue (mem s)) + length ks ≤ DvrMaxQueuedPrefetches)%nat →
  sys_ok (foldl push s ks).
Proof.
  intros Hpush. revert s. induction ks as [|k ks IH]; intros s Hs Hl; [done|]. simpl in *.
  destruct (Hpush s k Hs) as [H1 H2]; [unfold full; apply Nat.leb_gt; lia|].
  apply IH; [done|]. lia.
Qed.

Lemma launch_ok l current pc stride wanted s :
  sys_ok s → sys_ok (launchDVRStridePrefetches l current pc stride wanted s).
Proof.
  intros Hs. unfold launchDVRStridePrefetches. cbv zeta. destruct (_ || _) eqn:Ez; [done|].
  assert (Hl : (length (queue (mem s)) ≤ DvrMaxQueuedPrefetches)%nat) by apply Hs.
  set (t := Relation.launch_tracker (tabs s) pc _ _).
  set (s1 := match t with Some _ => _ | None => s end).
  assert (H1 : sys_ok s1 ∧ mem s1 = mem s).
  { subst s1. destruct t; split; try done. by apply (frame_ok s). }
  destruct H1 as [H1 Em]. destruct (fresh_bank l) as [b|]; [|done].
  apply push_all_ok.
  - intros s' k Hs' Hf. by apply push_source_ok.
  - apply start_helper_ok. destruct H1. by split.
  - rewrite start_helper_mem, length_seq. simpl. rewrite Em. lia.
Qed.

Lemma vector_ok thread_id current pc stride s :
  sys_ok s → sys_ok (launchDVRVectorRunahead thread_id current pc stride s).
Proof.
  intros Hs. unfold launchDVRVectorRunahead. apply push_all_ok.
  - intros s' k Hs' Hf. by apply push_back_sys_ok.
  - apply start_helper_ok, on_mem_ok; [done| |done]. apply clear_ok, Hs.
  - rewrite start_helper_mem, length_seq. simpl. unfold MaxLanes, DvrMaxQueuedPrefetches. lia.
Qed.

Lemma accountDVRDemand_frame a m : flight (accountDVRDemand (line_size cfg) a m) = flight m.
Proof. unfold accountDVRDemand. by case_match. Qed.

Lemma oracle_ok futures a thread_id s :
  sys_ok s → sys_ok (oracleOnCommittedLoad futures a thread_id s).
Proof.
  intros Hs. unfold oracleOnCommittedLoad.
  assert (H1 : sys_ok (push_oracle futures thread_id s)).
  { revert s Hs. induction futures as [|x xs IH]; intros s Hs; [done|]. cbn [push_oracle].
    destruct (_ || _); [by apply IH|]. destruct (full (mem s)) eqn:Hf; [done|].
    by apply IH, push_back_sys_ok. }
  apply on_mem_ok; [done| |done]. apply demand_ok, H1.
Qed.

Lemma demand_sys_ok pc a s : sys_ok s → sys_ok (observe_demand pc a s).
Proof.
  intros Hs. unfold observe_demand.
  assert (H1 : sys_ok (on_mem (accountDVRDemand (line_size cfg) a) s))
    by (apply on_mem_ok; [done|apply demand_ok, Hs|apply accountDVRDemand_frame]).
  case_bool_decide; [|done].
  apply (frame_ok (on_mem (demand_dependent (line_size cfg) a) (on_mem (accountDVRDemand (line_size cfg) a) s)));
    [|done|done].
  apply on_mem_ok; [done| |done]. apply demand_ok, H1.
Qed.

(** ** The front request *)

(** What keeps the front request where it is, and what drops it. *)
Definition blocked (w : World) (now : Z) (r : Request) s : bool :=
  (now <? readyTick r) || negb (canIssue true (wakeForMemoryRequest (thread (engine s))).1)
  || negb (slots_free s) || (DvrHelperLoadQueueCapacity <=? occupancy (mem s))%nat
  || negb (free_entry w (req_tid r)).

Definition crosses (r : Request) : bool :=
  line_size cfg <? Z.land (address r) (line_size cfg - 1) + prefetch_bytes r.

Definition unusable (w : World) (r : Request) s : bool :=
  faulted r s || crosses r || bool_decide (translate w (address r) = None).

(** Whether the attempt found the page unmapped. *)
Definition unmapped (w : World) (r : Request) s : bool :=
  negb (faulted r s) && negb (crosses r) && bool_decide (translate w (address r) = None).

Lemma canIssue_issues (h : Helper.Thread Lane) :
  Helper.helper_ok h → canIssue true h = true →
  ∃ h', Helper.issue h = Some h' ∧ Helper.helper_ok h'
        ∧ Helper.outstanding h' = S (Helper.outstanding h).
Proof.
  intros Hok Hc. destruct (Helper.issue h) as [h'|] eqn:E.
  - exists h'. split_and!; [done|by eapply Helper.issue_ok|]. revert E. unfold Helper.issue. simpl.
    case_match; [done|]. intros [= <-]. by case_match.
  - exfalso. revert E. unfold canIssue in Hc. unfold Helper.issue. simpl.
    destruct (Helper.readyUops h =? 0)%nat; [|done]. simpl in Hc.
    by rewrite andb_false_r in Hc.
Qed.

Lemma mark_fault_frame r s :
  mem (mark_fault r s) = mem s ∧ engine (mark_fault r s) = engine s ∧ slots (mark_fault r s) = slots s.
Proof. unfold mark_fault. destruct (predicate r); [by destruct (source r)|done]. Qed.

(** The tables are as [m], and the generations as those of [s'], once a request is dropped. *)
Lemma dropped_sys_ok r m s s' :
  mem_ok (line_size cfg) m → flight m = flight (mem s) → sys_ok s →
  mem s' = m → engine s' = engine s → sys_ok (retire_source r s').
Proof.
  intros Hm Hf [H1 H2 H3] Em Ee. destruct (retire_source_frame r s') as (E1 & E2 & _).
  split; rewrite ?E1, ?E2, ?Em, ?Ee; [done|done|]. by rewrite Hf.
Qed.

(** A request that has left the queue for good, with its lane's end. *)
Definition dropped (w : World) (r : Request) (q : list Request) s s' : Prop :=
  queue (mem s') = q ∧ flight (mem s') = flight (mem s) ∧ slots s' = slots s
  ∧ gens s' = gens (retire_source r (if unmapped w r s then mark_fault r s else s)).

(** A request the port refused. *)
Definition retried (r : Request) (q : list Request) s s' : Prop :=
  queue (mem s') = r :: q ∧ flight (mem s') = flight (mem s) ∧ slots s' = slots s ∧ gens s' = gens s
  ∧ address r ∈ queuedAddresses (mem s').

(** A request that was sent. *)
Definition sent (r : Request) (q : list Request) s s' : Prop :=
  queue (mem s') = q ∧ gens s' = gens s
  ∧ (∃ id, flight (mem s') = flight (mem s) ++ [mkPacket r id (value_response r)])
  ∧ helper_issues (slots s') = S (helper_issues (slots s))
  ∧ helper_lsu (slots s') = S (helper_lsu (slots s)).

(** The request that is out of the queue [q]. *)
Lemma service_front_spec w now r s :
  sys_ok s → (length (queue (mem s)) < DvrMaxQueuedPrefetches)%nat →
  (occupancy (mem s) < DvrHelperLoadQueueCapacity)%nat → canIssue true (thread (engine s)) = true →
  ∃ s', service_front w now r s = Some s' ∧ sys_ok s'
  ∧ (if unusable w r s then dropped w r (queue (mem s)) s s'
     else if negb (try_timing w && send_timing w) then retried r (queue (mem s)) s s'
     else sent r (queue (mem s)) s s').
Proof.
  intros Hs Hq Ho Hc. unfold service_front, unusable, unmapped. destruct (faulted r s) eqn:Ef; cbn [negb andb orb].
  { assert (Hr : retire_lane (predicate r) (lane r) None s = retire_source r s).
    { unfold faulted in Ef. unfold retire_source. by destruct (source r). }
    rewrite Hr. destruct (retire_source_frame r s) as (E1 & E2 & E3).
    eexists. split; [done|]. split; [by apply (frame_ok s)|]. unfold dropped, unmapped.
    rewrite Ef. cbn [negb andb]. by rewrite E1, E3. }
  pose proof (dropped_ok (line_size cfg) r now (mem s) (ok_mem _ Hs)) as Hd.
  pose proof (send_ok (line_size cfg) r now (value_response r)) as Hsend.
  specialize (Hsend (default 0 (translate w (address r))) (mem s) (ok_mem _ Hs) Ho). cbv zeta in Hsend.
  destruct (allocate_entry r now (mem s)) as [id m] eqn:Ea. destruct Hd as (D1 & D2 & D3).
  set (s1 := s <| mem := m |>).
  fold (crosses r). destruct (crosses r) eqn:Ec; cbn [negb andb orb].
  { eexists. split; [done|]. destruct (retire_source_frame r (on_mem (finish_entry id) s1)) as (E1 & E2 & E3).
    split; [by eapply (dropped_sys_ok r _ s)|]. unfold dropped, unmapped. rewrite E1, E3, Ef, Ec. simpl.
    split_and!; try done. unfold retire_source, retire_lane. by destruct (source r), (predicate r). }
  destruct (translate w (address r)) as [paddr|] eqn:Et; cycle 1.
  { rewrite bool_decide_true by done. eexists. split; [done|].
    destruct (mark_fault_frame r s1) as (M1 & M2 & M3).
    destruct (retire_source_frame r (on_mem (finish_entry id) (mark_fault r s1))) as (E1 & E2 & E3).
    split; [eapply (dropped_sys_ok r (finish_entry id m) s); try done; simpl; by rewrite M1|].
    unfold dropped, unmapped. rewrite E1, E3, Ef, Ec, bool_decide_true by done. simpl. rewrite M1, M3.
    split_and!; try done. unfold retire_source, retire_lane, mark_fault.
    by destruct (source r), (predicate r). }
  rewrite bool_decide_false by done. change (default 0 (Some paddr)) with paddr in Hsend.
  destruct (try_timing w && send_timing w); cbn [negb].
  - destruct Hsend as (S1 & S2 & S3). change (engine s1) with (engine s).
    destruct (canIssue_issues _ (ok_thread _ Hs) Hc) as (h & -> & Hh & Hn). eexists. split; [done|].
    split.
    + split; [done|done|]. cbn -[send]. rewrite Hn, (ok_shared _ Hs), S3, length_app. simpl. lia.
    + split_and!; try done. by exists id.
  - eexists. split; [done|]. destruct (requeue_flight (line_size cfg) r (finish_entry id m)) as (R1 & R2 & R3).
    split; [apply (on_mem_ok (λ _, requeue (line_size cfg) r (finish_entry id m)) s); [done| |by rewrite R2]|].
    + apply requeue_ok; [done|]. by rewrite D2.
    + split_and!; simpl; rewrite ?R1, ?R2, ?R3, ?D2; try done.
      apply elem_of_union_l. by apply elem_of_singleton.
Qed.

Lemma wake_sys_ok s : sys_ok s → sys_ok (on_thread (λ h, (wakeForMemoryRequest h).1) s).
Proof. intros Hs. apply on_engine_ok; [done|]. apply wake_keep. Qed.

(** Only the generations tell what a dropped request does. *)
Lemma gens_frame w r s s1 :
  gens s1 = gens s →
  unusable w r s1 = unusable w r s
  ∧ gens (retire_source r (if unmapped w r s1 then mark_fault r s1 else s1))
    = gens (retire_source r (if unmapped w r s then mark_fault r s else s)).
Proof.
  intros E. unfold unusable, unmapped, faulted. rewrite E. split; [done|].
  match goal with |- gens (retire_source r (if ?b then _ else _)) = _ => destruct b end;
    unfold retire_source, retire_lane, mark_fault; destruct (source r), (predicate r); simpl; by rewrite ?E.
Qed.

(** One attempt to issue: the front request waits, is dropped, is put back or is sent. *)
Lemma service_request_spec w now s r q :
  sys_ok s → queue (mem s) = r :: q →
  ∃ s', serviceDVRPrefetchRequest w now s = Some s' ∧ sys_ok s'
  ∧ (if blocked w now r s
     then mem s' = mem s ∧ gens s' = gens s ∧ slots s' = slots s
          ∧ (readyTick r ≤ now → thread (engine s') = (wakeForMemoryRequest (thread (engine s))).1)
     else if unusable w r s then dropped w r q s s'
     else if negb (try_timing w && send_timing w) then retried r q s s'
     else sent r q s s').
Proof.
  intros Hs Eq. unfold serviceDVRPrefetchRequest, blocked. rewrite Eq.
  destruct (Z.ltb_spec now (readyTick r)); cbn [orb].
  { exists s. split_and!; try done. lia. }
  pose proof (wake_sys_ok s Hs) as H1.
  set (s1 := on_thread (λ h, (wakeForMemoryRequest h).1) s) in *.
  change ((wakeForMemoryRequest (thread (engine s))).1) with (thread (engine s1)).
  change (slots_free s) with (slots_free s1). change (mem s) with (mem s1) in *.
  destruct (canIssue true (thread (engine s1))) eqn:Ec; cbn [negb orb]; [|by exists s1].
  destruct (slots_free s1); cbn [negb orb]; [|by exists s1].
  destruct (Nat.leb_spec DvrHelperLoadQueueCapacity (occupancy (mem s1))) as [|Ho]; cbn [negb orb];
    [by exists s1|].
  destruct (free_entry w (req_tid r)); cbn [negb orb]; [|by exists s1].
  destruct (pop (line_size cfg) (mem s1)) as [[r0 m]|] eqn:Ep; [|by rewrite (pop_none _ _ Ep) in Eq].
  destruct (pop_ok _ _ _ _ (ok_mem _ H1) Ep) as (P1 & P2 & P3 & P4 & P5).
  rewrite Eq in P3. injection P3 as <- ->.
  destruct (service_front_spec w now r (s1 <| mem := m |>)) as (s' & E & Hok & Hout).
  - destruct H1. split; [done|done|]. cbn -[s1]. by rewrite P4.
  - exact P2.
  - cbn -[s1]. by rewrite P5.
  - exact Ec.
  - exists s'. split; [exact E|]. split; [exact Hok|].
    match type of E with service_front _ _ _ ?s2 = _ =>
      destruct (gens_frame w r s s2 eq_refl) as [U1 U2];
      change (mem s2) with m in Hout
    end.
    rewrite <- U1. revert Hout. destruct (unusable w r _).
    + intros (D1 & D2 & D3 & D4). split_and!; [done|exact (eq_trans D2 P4)|done|].
      exact (eq_trans D4 U2).
    + unfold retried, sent. change (flight (mem s)) with (flight (mem s1)). by rewrite <- P4.
Qed.

Lemma service_request_ok w now s :
  sys_ok s → ∃ s', serviceDVRPrefetchRequest w now s = Some s' ∧ sys_ok s'.
Proof.
  intros Hs. destruct (queue (mem s)) as [|r q] eqn:Eq.
  - exists s. unfold serviceDVRPrefetchRequest. by rewrite Eq.
  - destruct (service_request_spec w now s r q Hs Eq) as (s' & ? & ? & _). by exists s'.
Qed.

Lemma service_queue_ok ws now s :
  sys_ok s → ∃ s', serviceDVRPrefetchQueue ws now s = Some s' ∧ sys_ok s'.
Proof.
  unfold serviceDVRPrefetchQueue. generalize (take DvrHelperIssueWidth ws). clear ws. intros ws.
  revert s. induction ws as [|w ws IH]; intros s Hs; cbn [service_loop]; [by exists s|].
  destruct (queue (mem s)); [by exists s|]. destruct (_ <=? _)%nat; [by exists s|].
  destruct (service_request_ok w now s Hs) as (s1 & -> & H1). simpl.
  destruct (_ =? _)%nat; [by exists s1|]. by apply IH.
Qed.

(** ** Responses *)

Lemma push_dependent_sys_ok r s :
  sys_ok s → full (mem s) = false → source r = false → sys_ok (on_mem (push_dependent (line_size cfg) r) s).
Proof. intros Hs Hf Hr. apply on_mem_ok; [done| |done]. by apply push_dependent_ok; [apply Hs|..]. Qed.

Lemma replay_ok r value s : sys_ok s → sys_ok (replayDVRSource r value s).1.
Proof.
  intros Hs. unfold replayDVRSource. destruct (replay r) as [rid|]; [|done].
  destruct (Replay.replay_target _ _ _) as [| |k a alt]; [done|done|].
  destruct (line_known _ _); [done|]. destruct (full (mem s)) eqn:Hf; [done|]. cbn [orb].
  pose proof (push_dependent_sys_ok (mkRequest a (Uop.pc (Replay.uop_at (templates rid) k)) (req_tid r) 0
    false false (nested r) Relation.Paths_init (Some rid) None (predicate r) (lane r)) s Hs Hf eq_refl) as H1.
  destruct alt; [|done]. by eapply frame_ok.
Qed.

Lemma affine_ok n k r value s : sys_ok s → sys_ok (affine_fallback n k r value s).
Proof.
  intros Hs. revert k. induction n as [|n IH]; intros k; cbn [affine_fallback]; [done|].
  destruct (_ && _); [done|]. destruct (negb _); [done|]. destruct (line_known _ _); [done|].
  destruct (full (mem s)) eqn:Hf; [done|]. by apply push_dependent_sys_ok.
Qed.

Lemma source_response_ok r bytes s : sys_ok s → sys_ok (source_response r bytes s).
Proof.
  intros Hs. unfold source_response. cbv zeta.
  pose proof (retire_lane_ok (predicate r) (lane r) (Some (source_value r bytes)) s Hs) as H1.
  set (s1 := retire_lane _ _ _ s) in *.
  set (p := if vector_chunks cfg && has_program r then _ else (s1, false)).
  assert (H2 : sys_ok p.1).
  { subst p. destruct (_ && _); [|done].
    pose proof (enqueue_keep r (source_value r bytes) (engine s1)) as Hk.
    destruct (enqueueReplayLane _ _ _ _) as [[e ok] n]. simpl in *.
    by apply (on_engine_ok (λ _, e) s1). }
  destruct p as [s2 queued]. simpl in H2.
  set (p := if queued then (s2, true) else _).
  assert (H3 : sys_ok p.1).
  { subst p. destruct queued; [done|]. destruct (dependent_prefetch cfg); [|done]. by apply replay_ok. }
  destruct p as [s3 matched]. simpl in H3. destruct (_ && _); [|done]. by apply affine_ok.
Qed.

(** A response adds no packet, and without data it adds no request. *)
Lemma replay_flight r value s : flight (mem (replayDVRSource r value s).1) = flight (mem s).
Proof.
  unfold replayDVRSource. destruct (replay r); [|done]. destruct (Replay.replay_target _ _ _); [done|done|].
  destruct (_ || _); [done|]. by destruct alternate.
Qed.

Lemma affine_flight n k r value s : flight (mem (affine_fallback n k r value s)) = flight (mem s).
Proof.
  revert k. induction n as [|n IH]; intros k; cbn [affine_fallback]; [done|]. by repeat (case_match; try done).
Qed.

Lemma source_response_flight r bytes s : flight (mem (source_response r bytes s)) = flight (mem s).
Proof.
  unfold source_response. cbv zeta. set (s1 := retire_lane _ _ _ s).
  assert (H1 : flight (mem s1) = flight (mem s)) by (by subst s1; destruct (predicate r)).
  set (p := if vector_chunks cfg && has_program r then _ else (s1, false)).
  assert (H2 : flight (mem p.1) = flight (mem s)).
  { subst p. destruct (_ && _); [|done]. by destruct (enqueueReplayLane _ _ _ _) as [[e ok] n]. }
  destruct p as [s2 queued]. simpl in H2. set (p := if queued then (s2, true) else _).
  assert (H3 : flight (mem p.1) = flight (mem s)).
  { subst p. destruct queued; [done|]. destruct (dependent_prefetch cfg); [|done]. by rewrite replay_flight. }
  destruct p as [s3 matched]. simpl in H3. destruct (_ && _); [|done]. by rewrite affine_flight.
Qed.
End kept.

(** What a response does before the helper is told. *)
Definition respond (p : Packet) (data : option (list Z)) s : Sys B :=
  let r := p_req p in
  let s :=
    match data with
    | Some bytes =>
        if negb (source r) && valueResponse p
        then s <| engine ::= λ e, (resumeDependentLane templates r (req_pc r) (dependent_value r bytes) e).1.1 |>
        else s
    | None => s
    end in
  if source r then
    match data with
    | Some bytes => source_response r bytes s
    | None => retire_lane (predicate r) (lane r) None s
    end
  else s.

Lemma respond_ok n p data s :
  sys_ok n s → sys_ok n (respond p data s) ∧ flight (mem (respond p data s)) = flight (mem s)
  ∧ (data = None → mem (respond p data s) = mem s).
Proof.
  intros Hs. unfold respond. destruct data as [bytes|]; cbv zeta.
  - set (s1 := if negb _ && _ then _ else s).
    assert (H1 : sys_ok n s1 ∧ mem s1 = mem s).
    { subst s1. destruct (_ && _); [|done]. split; [|done]. apply on_engine_ok; [done|]. apply resume_keep. }
    destruct H1 as [H1 Em]. rewrite <- Em. destruct (source _); [|done].
    split_and!; [by apply source_response_ok|apply source_response_flight|done].
  - destruct (source _); [|done]. destruct (retire_lane_frame (predicate (p_req p)) (lane (p_req p)) None s) as (E & _).
    rewrite E. by split; [apply retire_lane_ok|].
Qed.

(** The helper hears of the response; an idle helper is woken for the queue. *)
Definition conclude (r : Request) s : Sys B :=
  let s := on_thread Helper.complete s in
  if negb (active (thread (engine s))) && negb (bool_decide (queue (mem s) = []))
  then start_helper (req_pc r) 1 1 (Recorder.mkResources 0 0 0 0) None (req_tid r) s
  else s.

Lemma conclude_ok r s : sys_ok 1 s → sys_ok 0 (conclude r s) ∧ mem (conclude r s) = mem s.
Proof.
  intros [H1 H2 H3]. unfold conclude.
  assert (H4 : sys_ok 0 (on_thread Helper.complete s)).
  { split; [done|by apply Helper.complete_ok|]. simpl. unfold Helper.complete. rewrite H3.
    destruct (_ && _); simpl; by rewrite H3. }
  destruct (_ && _); [|done]. split; [by apply start_helper_ok|by rewrite start_helper_mem].
Qed.

Lemma complete_parts k data now s :
  completeDVRPrefetch k data now s
  = ('(p, m) ← land (line_size cfg) k now (mem s);
     Some (conclude (p_req p) (respond p data (s <| mem := m |>)))).
Proof. done. Qed.

(** A packet that is answered. *)
Lemma complete_spec k data now s :
  sys_ok 0 s → (k < length (flight (mem s)))%nat →
  ∃ s', completeDVRPrefetch k data now s = Some s' ∧ sys_ok 0 s'
  ∧ flight (mem s') = delete k (flight (mem s))
  ∧ (data = None → queue (mem s') = queue (mem s)).
Proof.
  intros Hs Hk. destruct (lookup_lt_is_Some_2 _ _ Hk) as [p Hp]. rewrite complete_parts.
  destruct (land_ok (line_size cfg) k now p (mem s) (ok_mem _ _ Hs) Hp) as (m & -> & L1 & L2 & L3 & L4).
  cbn [mbind option_bind].
  assert (H1 : sys_ok 1 (s <| mem := m |>)).
  { destruct Hs as [_ H2 H3]. split; [done|done|]. cbn -[delete]. rewrite H3, L3, length_delete by (by eexists).
    lia. }
  destruct (respond_ok 1 p data _ H1) as (R1 & R2 & R3).
  destruct (conclude_ok (p_req p) _ R1) as [C1 C2].
  eexists. split; [done|]. split; [exact C1|]. rewrite C2, R2. split; [exact L3|].
  intros Hd. by rewrite (R3 Hd).
Qed.

(** ** Every event keeps it *)

Lemma target_ok l pc a t s : sys_ok 0 s → sys_ok 0 (push_lane_target l pc a t s).
Proof.
  intros Hs. unfold push_lane_target. destruct (full (mem s)) eqn:Hf; [by rewrite andb_false_r|].
  destruct (_ && _); [|done]. by apply push_dependent_sys_ok.
Qed.

Lemma handle_ok ev s : sys_ok 0 s → ∃ s', handle ev s = Some s' ∧ sys_ok 0 s'.
Proof.
  intros Hs. destruct ev; cbn [handle].
  - eexists. split; [done|]. by apply launch_ok.
  - eexists. split; [done|]. by apply vector_ok.
  - eexists. split; [done|]. by apply oracle_ok.
  - eexists. split; [done|]. by apply demand_sys_ok.
  - apply service_queue_ok. by apply (frame_ok 0 s).
  - destruct (Nat.ltb_spec k (length (flight (mem s)))); [|by exists s].
    destruct (complete_spec k data now s) as (s' & ? & ? & _); [done|done|]. by exists s'.
  - eexists. split; [done|]. by apply target_ok.
  - eexists. split; [done|]. by apply (frame_ok 0 s).
  - destruct (Helper.quiet o) eqn:Eq; [|by exists s]. destruct (Helper.step o _) as [h|] eqn:Eo; [|by exists s].
    eexists. split; [done|]. apply on_engine_ok; [done|]. by eapply quiet_keep.
Qed.

Lemma run_from evs s :
  sys_ok 0 s → ∃ s', foldl (λ m ev, s ← m; handle ev s) (Some s) evs = Some s' ∧ sys_ok 0 s'.
Proof.
  revert s. induction evs as [|ev evs IH]; intros s Hs; [by exists s|]. cbn [foldl mbind option_bind].
  destruct (handle_ok ev s Hs) as (s1 & -> & H1). by apply IH.
Qed.

Lemma Sys_init_ok : sys_ok 0 Sys_init.
Proof. split; [apply Mem_init_ok|apply Helper.reset_ok|done]. Qed.

Lemma run_inv evs s : run evs = Some s → sys_ok 0 s.
Proof.
  intros H1. destruct (run_from evs Sys_init Sys_init_ok) as (s' & E & Hok). unfold run in H1. congruence.
Qed.

(** ** Progress *)

(** A machine that takes whatever it is given. *)
Definition willing (w : World) : Prop :=
  (∀ t, free_entry w t = true) ∧ try_timing w = true ∧ send_timing w = true.

(** Two cycles with a frontend step between them, and the answers to what they sent, with any data or
    none. *)
Definition round (c : Slots) (w : World) (now : Z) (fw dw : nat) (data : option (list Z) * option (list Z))
  : list Event :=
  [ECycle c [w] now; EHelper (Helper.OFrontend fw dw); ECycle c [w] now;
   EResponse 0 data.1 now; EResponse 0 data.2 now].

(** ** What a response may queue

    Besides its own service, a request for a source can cost one more, of the address its value leads
    to; a packet in flight has had its own service. *)
Definition cost (r : Request) : nat := if source r then 2 else 1.

Definition owed s : nat :=
  sum_list (cost <$> queue (mem s)) + sum_list ((λ p, pred (cost (p_req p))) <$> flight (mem s)).

(** Nothing, or one ready request that is not for a source. *)
Definition grows s s' : Prop :=
  queue (mem s') = queue (mem s)
  ∨ ∃ d, queue (mem s') = d :: queue (mem s) ∧ source d = false ∧ readyTick d = 0.

Lemma replay_grows r value s :
  grows s (replayDVRSource r value s).1
  ∧ ((replayDVRSource r value s).2 = false → queue (mem (replayDVRSource r value s).1) = queue (mem s)).
Proof.
  unfold replayDVRSource. destruct (replay r) as [rid|]; [|by split; [left|]].
  destruct (Replay.replay_target _ _ _) as [| |k a alt]; [by split; [left|]..|].
  destruct (_ || _); [by split; [left|]|]. split; [right|by destruct alt].
  eexists. by destruct alt.
Qed.

Lemma affine_grows n k r value s : grows s (affine_fallback n k r value s).
Proof.
  revert k. induction n as [|n IH]; intros k; cbn [affine_fallback]; [by left|].
  destruct (_ && _); [done|]. destruct (negb _); [done|]. destruct (line_known _ _); [by left|].
  destruct (full (mem s)); [done|]. right. by eexists.
Qed.

Lemma source_response_grows r bytes s : grows s (source_response r bytes s).
Proof.
  unfold source_response. cbv zeta. set (s1 := retire_lane _ _ _ s).
  assert (E1 : queue (mem s1) = queue (mem s)) by (unfold s1; by rewrite (proj1 (retire_lane_frame _ _ _ _))).
  set (p := if vector_chunks cfg && has_program r then _ else (s1, false)).
  assert (E2 : queue (mem p.1) = queue (mem s)).
  { subst p. destruct (_ && _); [|done]. by destruct (enqueueReplayLane _ _ _ _) as [[e ok] n]. }
  destruct p as [s2 queued]. cbn [fst] in E2. unfold grows. rewrite <- E2.
  destruct queued; [rewrite andb_false_r; by left|].
  destruct (dependent_prefetch cfg); [|by left]. destruct (replay_grows r (source_value r bytes) s2) as [G N].
  destruct (replayDVRSource r (source_value r bytes) s2) as [s3 matched]. cbn [fst snd] in G, N.
  destruct matched; [exact G|]. rewrite <- (N eq_refl). destruct (_ && _); [apply affine_grows|by left].
Qed.

Lemma respond_grows p data s :
  (source (p_req p) = true → grows s (respond p data s))
  ∧ (source (p_req p) = false → queue (mem (respond p data s)) = queue (mem s)).
Proof.
  unfold respond. split; intros Hs; rewrite Hs; cbn [negb andb].
  - destruct data as [bytes|]; [apply source_response_grows|]. left.
    by rewrite (proj1 (retire_lane_frame _ _ _ _)).
  - destruct data; [|done]. by destruct (valueResponse p).
Qed.

Lemma service_single w now s :
  (helper_issues (slots s) < DvrHelperIssueWidth)%nat →
  serviceDVRPrefetchQueue [w] now s = serviceDVRPrefetchRequest w now s.
Proof.
  intros Hc. unfold serviceDVRPrefetchQueue. change (take DvrHelperIssueWidth [w]) with [w]. cbn [service_loop].
  destruct (queue (mem s)) eqn:Eq; [by unfold serviceDVRPrefetchRequest; rewrite Eq|].
  rewrite (proj2 (Nat.leb_gt _ _) Hc). destruct (serviceDVRPrefetchRequest w now s); [|done]. simpl.
  by case_match.
Qed.

(** A helper that can issue is awake. *)
Lemma canIssue_awake (h : Helper.Thread Lane) : canIssue true h = true → (wakeForMemoryRequest h).1 = h.
Proof.
  unfold canIssue, wakeForMemoryRequest. intros Hc. rewrite andb_true_r in Hc.
  apply andb_prop in Hc as [[Hs Hr]%andb_prop Hi]. apply bool_decide_eq_true in Hs.
  apply negb_true_iff in Hr. apply Nat.ltb_lt in Hi. rewrite Hs, Hr. cbn -[Nat.leb].
  by rewrite (proj2 (Nat.leb_gt _ _) Hi).
Qed.

(** One frontend step after a wake is enough. *)
Lemma frontend_wakes (fw dw : nat) (h : Helper.Thread Lane) :
  canIssue true (Helper.advanceFrontend fw dw (wakeForMemoryRequest h).1).1 = true.
Proof.
  destruct (Helper.wake_spec h) as (H1 & H2 & H3 & H4).
  destruct (Helper.advanceFrontend_running fw dw _ H1 H2 H3) as (E1 & E2 & E3 & E4).
  unfold canIssue. rewrite E1, E3, E4, (proj2 (Nat.eqb_neq _ 0) E2). simpl.
  by rewrite (proj2 (Nat.ltb_lt _ _) H4).
Qed.

(** A cycle of a willing machine takes the front request, or only wakes the helper. *)
Lemma cycle_step c w now s :
  sys_ok 0 s → willing w → slots_room c = true → Forall (λ r, readyTick r ≤ now) (queue (mem s)) →
  (length (flight (mem s)) ≤ 1)%nat →
  ∃ s', handle (ECycle c [w] now) s = Some s' ∧ sys_ok 0 s'
  ∧ (length (flight (mem s')) ≤ S (length (flight (mem s))))%nat
  ∧ Forall (λ r, readyTick r ≤ now) (queue (mem s'))
  ∧ ((owed s' < owed s)%nat
     ∨ mem s' = mem s
       ∧ (queue (mem s) = []
          ∨ thread (engine s') = (wakeForMemoryRequest (thread (engine s))).1
            ∧ canIssue true (wakeForMemoryRequest (thread (engine s))).1 = false)).
Proof.
  intros Hs (W1 & W2 & W3) Hc Hready Hlen. cbn [handle].
  assert (H1 : sys_ok 0 (s <| slots := c |>)) by (by apply (frame_ok 0 s)).
  assert (Hi : (helper_issues c < DvrHelperIssueWidth)%nat).
  { unfold slots_room in Hc. rewrite !andb_true_iff in Hc. apply Nat.ltb_lt, Hc. }
  rewrite service_single by done.
  destruct (queue (mem s)) as [|r q] eqn:Eq.
  { eexists. split; [unfold serviceDVRPrefetchRequest; simpl; by rewrite Eq|].
    split; [done|]. split; [simpl; lia|]. split; [simpl; by rewrite Eq|]. right. by split; [|left]. }
  destruct (service_request_spec 0 w now _ r q H1 Eq) as (s' & -> & Hok & Hout).
  exists s'. unfold blocked in Hout. change (slots_free (s <| slots := c |>)) with (slots_room c) in Hout.
  change (mem (s <| slots := c |>)) with (mem s) in Hout.
  change (thread (engine (s <| slots := c |>))) with (thread (engine s)) in Hout.
  pose proof Hready as [Hr Hq]%Forall_cons_1.
  rewrite Hc, W1, W2, W3, (proj2 (Z.ltb_ge _ _) Hr) in Hout. cbn [negb andb orb] in Hout.
  rewrite (ok_occupancy _ _ (ok_mem _ _ Hs)) in Hout.
  rewrite (proj2 (Nat.leb_gt DvrHelperLoadQueueCapacity _)), !orb_false_r in Hout
    by (unfold DvrHelperLoadQueueCapacity; lia).
  split; [done|]. split; [done|]. unfold owed. rewrite Eq. cbn [fmap list_fmap sum_list_with sum_list].
  destruct (canIssue true _) eqn:Ei; cbn [negb] in Hout.
  - destruct (unusable w r _).
    + destruct Hout as (Q & F & _). rewrite Q, F. split_and!; [simpl; lia|done|]. left. simpl. unfold cost. case_match; lia.
    + destruct Hout as (Q & _ & (i & F) & _). rewrite Q, F, length_app, fmap_app, sum_list_with_app.
      split_and!; [simpl; lia|done|]. left. simpl. unfold cost. case_match; lia.
  - destruct Hout as (M & _ & _ & T). rewrite M, Eq. split_and!; try done; [lia|].
    right. split; [done|]. right. split; [by apply T|done].
Qed.

(** An answer, with data or without. *)
Lemma response_step data now s :
  sys_ok 0 s → 0 ≤ now → Forall (λ r, readyTick r ≤ now) (queue (mem s)) →
  ∃ s', handle (EResponse 0 data now) s = Some s' ∧ sys_ok 0 s'
  ∧ length (flight (mem s')) = pred (length (flight (mem s))) ∧ (owed s' ≤ owed s)%nat
  ∧ Forall (λ r, readyTick r ≤ now) (queue (mem s')).
Proof.
  intros Hs Hnow Hready. cbn [handle]. destruct (flight (mem s)) as [|p fl] eqn:Hfl.
  { exists s. rewrite Hfl. by split_and!. }
  cbn [length Nat.ltb Nat.leb pred]. rewrite complete_parts.
  assert (Hp : flight (mem s) !! 0%nat = Some p) by by rewrite Hfl.
  destruct (land_ok (line_size cfg) 0 now p (mem s) (ok_mem _ _ Hs) Hp) as (m & -> & L1 & L2 & L3 & L4).
  rewrite Hfl in L3. cbn [delete list_delete] in L3. cbn [mbind option_bind].
  assert (H1 : sys_ok 1 (s <| mem := m |>)).
  { destruct Hs as [_ H2 H3]. split; [done|done|]. cbn -[delete]. by rewrite H3, L3, Hfl. }
  destruct (respond_ok 1 p data _ H1) as (R1 & R2 & _).
  destruct (conclude_ok (p_req p) _ R1) as [C1 C2].
  eexists. split; [done|]. split; [exact C1|]. unfold owed. rewrite C2, R2, Hfl.
  change (flight (mem (s <| mem := m |>))) with (flight m). rewrite L3. split; [done|].
  destruct (respond_grows p data (s <| mem := m |>)) as [G1 G2]. unfold grows in G1.
  change (queue (mem (s <| mem := m |>))) with (queue m) in G1, G2. rewrite L2 in G1, G2.
  cbn [fmap list_fmap sum_list_with]. unfold cost at 4. destruct (source (p_req p)) eqn:Es.
  - destruct (G1 eq_refl) as [-> | (d & -> & Ed & Er)]; [split; [lia|done]|]. split.
    + cbn [fmap list_fmap sum_list_with]. unfold cost at 1. rewrite Ed. simpl. lia.
    + constructor; [lia|done].
  - rewrite (G2 eq_refl). split; [lia|done].
Qed.

Lemma owed_nothing s : flight (mem s) = [] → owed s = 0%nat → queue (mem s) = [].
Proof.
  unfold owed. intros -> Ho. destruct (queue (mem s)) as [|r q]; [done|]. cbn [fmap list_fmap sum_list_with] in Ho.
  unfold cost in Ho. destruct (source r); simpl in Ho; lia.
Qed.

Lemma owed_bound s : flight (mem s) = [] → (owed s ≤ 2 * length (queue (mem s)))%nat.
Proof.
  unfold owed. intros ->. cbn [fmap list_fmap sum_list_with]. induction (queue (mem s)) as [|r q IH]; [simpl; lia|].
  cbn [fmap list_fmap sum_list_with length]. unfold cost at 1. destruct (source r); simpl in *; lia.
Qed.

Lemma round_step c w now fw dw data s :
  sys_ok 0 s → willing w → slots_room c = true → 0 ≤ now → Forall (λ r, readyTick r ≤ now) (queue (mem s)) →
  flight (mem s) = [] →
  ∃ s', foldl (λ m ev, s ← m; handle ev s) (Some s) (round c w now fw dw data) = Some s' ∧ sys_ok 0 s'
  ∧ flight (mem s') = [] ∧ Forall (λ r, readyTick r ≤ now) (queue (mem s')) ∧ (owed s' ≤ pred (owed s))%nat.
Proof.
  intros Hs Hw Hc Hnow Hr Hf. unfold round. cbn [foldl mbind option_bind].
  destruct (cycle_step c w now s Hs Hw Hc Hr) as (s1 & -> & H1 & F1 & Q1 & C1); [rewrite Hf; simpl; lia|].
  rewrite Hf in F1. cbn [length] in F1. cbn [mbind option_bind].
  set (h2 := (Helper.advanceFrontend fw dw (thread (engine s1))).1).
  set (s2 := on_thread (λ _, h2) s1). change (handle (EHelper (Helper.OFrontend fw dw)) s1) with (Some s2).
  assert (H2 : sys_ok 0 s2)
    by (apply on_engine_ok; [done|]; by apply (quiet_keep (Helper.OFrontend fw dw))).
  cbn [mbind option_bind]. change (owed s1) with (owed s2) in C1.
  destruct (cycle_step c w now s2 H2 Hw Hc Q1 F1) as (s3 & -> & H3 & F3 & Q3 & C3).
  change (mem s2) with (mem s1) in *. cbn [mbind option_bind].
  destruct (response_step data.1 now s3 H3 Hnow Q3) as (s4 & -> & H4 & F4 & O4 & Q4). cbn [mbind option_bind].
  destruct (response_step data.2 now s4 H4 Hnow Q4) as (s5 & -> & H5 & F5 & O5 & Q5).
  exists s5. split_and!; [done|done|apply nil_length_inv; lia|done|].
  assert (Hle : ∀ t t' : Sys B, mem t' = mem t → owed t' = owed t) by (intros t t' E; unfold owed; by rewrite E).
  destruct C3 as [C3|(M3 & C3)].
  { destruct C1 as [C1|(M1 & _)]; [lia|]. rewrite (Hle s s2) in C3 by done. lia. }
  pose proof (Hle s2 s3 M3) as E3. destruct C1 as [C1|(M1 & C1)]; [lia|].
  pose proof (Hle s s2 M1) as E1. change (mem s2) with (mem s1) in M1. destruct C1 as [C1|(T & _)].
  { assert (owed s = 0%nat) by (unfold owed; by rewrite C1, Hf). lia. }
  destruct C3 as [C3|(_ & C3)].
  { rewrite M1 in C3. assert (owed s = 0%nat) by (unfold owed; by rewrite C3, Hf). lia. }
  exfalso. change (thread (engine s2)) with h2 in C3. subst h2. rewrite T in C3.
  rewrite canIssue_awake, frontend_wakes in C3 by apply frontend_wakes. done.
Qed.

Lemma rounds_drain c w now fw dw ds s :
  sys_ok 0 s → willing w → slots_room c = true → 0 ≤ now → Forall (λ r, readyTick r ≤ now) (queue (mem s)) →
  flight (mem s) = [] → (owed s ≤ length ds)%nat →
  ∃ s', foldl (λ m ev, s ← m; handle ev s) (Some s) (concat (round c w now fw dw <$> ds)) = Some s'
  ∧ sys_ok 0 s' ∧ flight (mem s') = [] ∧ queue (mem s') = [].
Proof.
  revert s. induction ds as [|d ds IH]; intros s Hs Hw Hc Hnow Hr Hf Hn.
  - exists s. split_and!; try done. apply owed_nothing; [done|]. simpl in Hn. lia.
  - cbn [fmap list_fmap concat]. rewrite foldl_app.
    destruct (round_step c w now fw dw d s Hs Hw Hc Hnow Hr Hf) as (s1 & -> & H1 & F1 & Q1 & O1).
    apply IH; try done. simpl in Hn. lia.
Qed.

(** A run never fails. *)
Lemma run_total evs : run evs = Some (default Sys_init (run evs)).
Proof. destruct (run_from evs Sys_init Sys_init_ok) as (s & E & _). unfold run. by rewrite E. Qed.

Lemma counts_empty c : counts c [] → c = ∅.
Proof. intros Hc. apply map_eq. intros k. by rewrite (Hc k), lookup_empty. Qed.

(** What a replayed value queues. *)
Definition target_of (r : Request) (rid j : nat) (a : Z) : Request :=
  mkRequest a (Uop.pc (Replay.uop_at (templates rid) j)) (req_tid r) 0 false false (nested r)
    Relation.Paths_init (Some rid) None (predicate r) (lane r).

Lemma replay_hit r rid v j a alt s :
  replay r = Some rid → Replay.replay_target (tabs s) (templates rid) v = Replay.Hit j a alt →
  line_known (line a) (mem s) = false → full (mem s) = false →
  (replayDVRSource r v s).2 = true
  ∧ mem (replayDVRSource r v s).1 = push_dependent (line_size cfg) (target_of r rid j a) (mem s)
  ∧ gens (replayDVRSource r v s).1 = gens s.
Proof.
  intros Hr Ht Hl Hf. unfold replayDVRSource. rewrite Hr, Ht, Hl, Hf. by destruct alt.
Qed.

Lemma conclude_frame r s : mem (conclude r s) = mem s ∧ gens (conclude r s) = gens s.
Proof.
  unfold conclude. destruct (_ && _); [|done]. rewrite start_helper_mem. split; [done|].
  unfold start_helper. by destruct (_ && _).
Qed.

(** ** Theorems *)

(** C17: Prefetch requests are accounted for.  Whatever launches, demand loads, cycles, responses and
    helper steps a run consists of (a helper step that its caller's checks forbid is not taken, and only
    a packet in flight is answered), none of the assertions on the way fails, and at its end: the queue
    holds at most 256 requests, the helper's load queue at most 16; the packets in flight are as many as
    its occupancy and as the responses the helper waits for, each with a load entry of its own
    that waits for the response; the counters of a line are the numbers of packets, and of dependent
    packets, in flight to it; the tables of queued addresses and queued dependent lines hold only what
    is in the queue, and the table of outstanding addresses only what is in flight (the tables of completed
    lines remember lines that are neither).  With no packet in flight all tables of outstanding
    requests are empty. *)
Theorem requests_accounted (evs : list Event) :
  ∃ s, run evs = Some s ∧
  let m := mem s in
  (length (queue m) ≤ 256 ∧ occupancy m ≤ 16)%nat
  ∧ length (flight m) = occupancy m ∧ Helper.outstanding (thread (engine s)) = occupancy m
  ∧ (∀ i, i ∈ helperLoadId <$> flight m ↔ e_state <$> loadEntries m !! i = Some WaitingResponse)
  ∧ NoDup (helperLoadId <$> flight m)
  ∧ (∀ l, default 0 (outstandingLines m !! l) = Z.of_nat (occ l (line_of (line_size cfg) <$> flight m)))
  ∧ (∀ l, default 0 (dependentOutstandingLines m !! l)
          = Z.of_nat (occ l (line_of (line_size cfg) <$> dependents (flight m))))
  ∧ (∀ a, a ∈ queuedAddresses m → a ∈ address <$> queue m)
  ∧ (∀ l, l ∈ queuedDependentLines m → ∃ r, r ∈ queue m ∧ source r = false ∧ line (address r) = l)
  ∧ (∀ a, a ∈ outstandingAddresses m → a ∈ (λ p, address (p_req p)) <$> flight m)
  ∧ (flight m = [] → outstandingLines m = ∅ ∧ dependentOutstandingLines m = ∅
                     ∧ outstandingAddresses m = ∅ ∧ loadEntries m = ∅).
Proof.
  destruct (run_from evs Sys_init Sys_init_ok) as (s & E & [Hm Hh Hsh]). exists s. split; [exact E|].
  cbv zeta. split_and!.
  - apply Hm.
  - apply Hm.
  - symmetry. apply Hm.
  - rewrite Hsh. symmetry. apply Hm.
  - intros i. rewrite (ok_entries _ _ Hm). split.
    + intros [x Hx]. rewrite Hx. simpl. f_equal. by apply (ok_waiting _ _ Hm i).
    + intros Hx. destruct (loadEntries (mem s) !! i); [by eexists|done].
  - apply Hm.
  - intros l. rewrite (ok_lines _ _ Hm l). by destruct (occ _ _).
  - intros l. rewrite (ok_dependents _ _ Hm l). by destruct (occ _ _).
  - apply Hm.
  - apply Hm.
  - apply Hm.
  - intros Hf. destruct Hm. rewrite Hf in *. split_and!; try (by apply counts_empty).
    + apply set_eq. intros a. split; [|set_solver]. intros Ha. apply ok_outstanding0 in Ha.
      by apply elem_of_nil in Ha.
    + apply map_eq. intros i. rewrite lookup_empty. apply eq_None_not_Some. intros Hi.
      by apply ok_entries0, elem_of_nil in Hi.
Qed.

(** C19: An attempt to issue the front request of the queue does one of four things, as the
    request, the helper and the machine decide.  It changes neither the queue nor a table nor a
    generation when the request is not ready, the helper cannot issue even after it has been
    woken, or slots, load queue or entries are taken.  It drops the request only if its source
    stream has already met an unmapped page, if it crosses a cache line or if its own page is
    unmapped, and then the lane of a source ends in its generation.  It puts the request back at
    the front when the port refuses it; and otherwise the request is in flight, last. *)
Theorem service_outcomes (evs : list Event) s w now r q (H1 : run evs = Some s)
    (H2 : queue (mem s) = r :: q) :
  ∃ s', serviceDVRPrefetchRequest w now s = Some s'
  ∧ (if blocked w now r s then mem s' = mem s ∧ gens s' = gens s ∧ slots s' = slots s
     else if unusable w r s then dropped w r q s s'
     else if negb (try_timing w && send_timing w) then retried r q s s'
     else sent r q s s').
Proof.
  destruct (service_request_spec 0 w now s r q (run_inv _ _ H1) H2) as (s' & E & _ & Hout).
  exists s'. split; [exact E|]. destruct (blocked w now r s); [|exact Hout].
  by destruct Hout as (? & ? & ? & _).
Qed.

(** C18: A machine that takes what it is given and answers it empties the queue.  Take any state a run
    reaches in which no packet is in flight and every queued request is ready, and a port, a load
    queue and slots that take every request.  A round is two cycles with one frontend step of the
    helper between them, and the answers to what they sent, each with any data or without.  A response
    for a source can put one more request, of the address its value leads to, in front of
    the queue, so the queue may grow in a round; but as no more is launched meanwhile
    (and no replay lane is executed), after two rounds per request of the start the queue is empty and
    nothing is in flight, whatever the helper was doing and whatever the data lead to. *)
Theorem queue_drains (evs : list Event) s (c : Slots) (w : World) (now : Z) (fw dw : nat)
    (ds : list (option (list Z) * option (list Z)))
    (H1 : run evs = Some s) (Hf : flight (mem s) = []) (Hnow : 0 ≤ now)
    (Hr : Forall (λ r, readyTick r ≤ now) (queue (mem s)))
    (Hw : willing w) (Hc : slots_room c = true) (Hds : (2 * length (queue (mem s)) ≤ length ds)%nat) :
  ∃ s', run (evs ++ concat (round c w now fw dw <$> ds)) = Some s'
  ∧ queue (mem s') = [] ∧ flight (mem s') = [].
Proof.
  destruct (rounds_drain c w now fw dw ds s (run_inv _ _ H1) Hw Hc Hnow Hr Hf) as (s' & E & _ & F & Q);
    [pose proof (owed_bound s Hf); lia|].
  exists s'. split; [|done]. unfold run in *. by rewrite foldl_app, H1.
Qed.

(** C20: In the configuration with dependent prefetching and without vector chunks (with chunks the
    response enters a replay lane instead), in any state a run reaches, take the response, with data, to a packet for
    a source that carries a template, where the scalar replay of the loaded value hits an address
    whose line is not known yet, and where the queue is not full.  The response puts that address in
    front of the queue: with the pc of the load that needs it, the lane and template of the source, and no
    bank; its line is noted as queued, and the lane ends in its generation, if it has one, with the value
    that was loaded. *)
Theorem response_queues_target (evs : list Event) s (k : nat) (p : Packet) (bytes : list Z) (now : Z)
    (rid j : nat) (a : Z) (alt : bool)
    (H1 : run evs = Some s) (Hk : flight (mem s) !! k = Some p) (Hs : source (p_req p) = true)
    (Hrid : replay (p_req p) = Some rid) (Hd : dependent_prefetch cfg = true)
    (Hv : vector_chunks cfg = false)
    (Ht : Replay.replay_target (tabs s) (templates rid) (source_value (p_req p) bytes) = Replay.Hit j a alt)
    (Hl : line_known (line a) (mem s) = false) (Hfull : full (mem s) = false) :
  ∃ s' d, completeDVRPrefetch k (Some bytes) now s = Some s' ∧ queue (mem s') = d :: queue (mem s)
  ∧ address d = a ∧ req_pc d = Uop.pc (Replay.uop_at (templates rid) j) ∧ replay d = Some rid
  ∧ lane d = lane (p_req p) ∧ source d = false ∧ bank d = None
  ∧ line a ∈ queuedDependentLines (mem s')
  ∧ gens s' = match predicate (p_req p) with
              | Some g => alter (Generation.retire (lane (p_req p)) (Some (source_value (p_req p) bytes))) g (gens s)
              | None => gens s
              end.
Proof.
  rewrite complete_parts. pose proof (run_inv _ _ H1) as Hok.
  destruct (land_source (line_size cfg) k now p (mem s) (ok_mem _ _ Hok) Hk Hs)
    as (m & -> & Eq & Ek).
  cbn [mbind option_bind]. eexists. exists (target_of (p_req p) rid j a). split; [done|].
  unfold respond. rewrite Hs. cbn [negb andb]. unfold source_response. rewrite Hv, Hd. cbn [negb andb].
  set (v := source_value (p_req p) bytes) in *. set (s1 := retire_lane _ _ (Some v) _).
  assert (E1 : mem s1 = m ∧ tabs s1 = tabs s
               ∧ gens s1 = match predicate (p_req p) with
                           | Some g => alter (Generation.retire (lane (p_req p)) (Some v)) g (gens s)
                           | None => gens s
                           end) by (subst s1; by destruct (predicate (p_req p))).
  destruct E1 as (Em & Et & Eg).
  destruct (replay_hit (p_req p) rid v j a alt s1 Hrid) as (R1 & R2 & R3).
  { by rewrite Et. } { by rewrite Em, Ek. } { unfold full. by rewrite Em, Eq. }
  destruct (replayDVRSource (p_req p) v s1) as [s2 matched]. simpl in R1, R2, R3. subst matched.
  cbn [negb andb]. destruct (conclude_frame (p_req p) s2) as [-> ->].
  rewrite R2, R3, Eg, Em. split_and!; try done; [by simpl; rewrite Eq|].
  simpl. apply elem_of_union_l. by apply elem_of_singleton.
Qed.
End prefetch.

(** ** Witnesses *)

(** Three source lanes, with a replay template of four uops; the machine takes every request. *)
Definition sample_config (vector_chunks : bool) : Config := mkConfig 64 vector_chunks 64 1 true true 8 2 128.
Definition no_slots : Slots := mkSlots 0 0 0 0 0 0.
Definition open_world : World := mkWorld (λ _, true) (λ a, Some a) true true.

Definition sample_launch : Launch (B := Array) :=
  mkLaunch 0 7 1 (Some image) (Recorder.mkResources 0 0 0 1) 0
    (Predicate.mkTracker 0 0 [] [] [] mask_empty mask_empty).

Definition launched : list (Event (B := Array)) :=
  [ELaunch sample_launch 4096 100 64 3; EHelper (Helper.OFrontend 8 8)].

(** The first lane's packet is in flight. *)
Definition started : list (Event (B := Array)) := launched ++ [ECycle no_slots [open_world] 10].

Definition reached (vc : bool) (evs : list (Event (B := Array))) : Sys Array :=
  default Sys_init (run (sample_config vc) sample_template evs).

Definition first_request (k : nat) : Request :=
  mkRequest (4096 + 64 * Z.of_nat (S k)) 100 0 0 true false false Relation.Paths_init
    (Some 0%nat) (Some 7%nat) None k.

Definition first_requests (ks : list nat) : list Request := first_request <$> ks.

Lemma launched_queue : queue (mem (reached false launched)) = first_requests [0; 1; 2]%nat.
Proof. vm_compute. reflexivity. Qed.

Lemma launched_flight : flight (mem (reached false launched)) = [].
Proof. vm_compute. reflexivity. Qed.

Lemma service_outcomes_witness :
  ∃ s', serviceDVRPrefetchRequest (sample_config false) sample_template open_world 10 (reached false launched) = Some s'
  ∧ queue (mem s') = first_requests [1; 2]%nat.
Proof.
  pose proof (service_outcomes (sample_config false) sample_template launched (reached false launched)
    open_world 10 (first_request 0) (first_requests [1; 2]%nat) (run_total _ _ launched) launched_queue)
    as (s' & E & Hout).
  assert (Hb : blocked (sample_config false) open_world 10 (first_request 0) (reached false launched) = false)
    by (vm_compute; reflexivity).
  assert (Hu : unusable (sample_config false) sample_template open_world (first_request 0) (reached false launched) = false)
    by (vm_compute; reflexivity).
  rewrite Hb, Hu in Hout. exists s'. split; [exact E|]. exact (proj1 Hout).
Defined.

Lemma queue_drains_witness :
  ∃ s', run (sample_config false) sample_template
          (launched ++ concat (round no_slots open_world 10 8 8 <$> replicate 6 (Some [0; 32; 0; 0], None))) = Some s'
        ∧ queue (mem s') = [].
Proof.
  assert (Hr : Forall (λ r, readyTick r ≤ 10) (queue (mem (reached false launched)))).
  { rewrite launched_queue. repeat constructor; simpl; lia. }
  pose proof (queue_drains (sample_config false) sample_template launched (reached false launched)
    no_slots open_world 10 8 8 (replicate 6 (Some [0; 32; 0; 0], None)) (run_total _ _ launched) launched_flight
    ltac:(lia) Hr (conj (λ _, eq_refl) (conj eq_refl eq_refl)) eq_refl) as H.
  rewrite launched_queue in H. destruct H as (s' & E & Q & _); [simpl; lia|]. exists s'. exact (conj E Q).
Defined.

(** The first lane's packet, and the tables its response meets. *)
Lemma started_flight :
  flight (mem (reached false started)) !! 0%nat = Some (mkPacket (first_request 0) 1 false).
Proof. vm_compute. reflexivity. Qed.

Lemma started_tables :
  Replay.replay_target (tabs (reached false started)) (sample_template 0)
    (source_value sample_template (first_request 0) [5]) = Replay.Hit 3 65592 false
  ∧ line_known (line (sample_config false) 65592) (mem (reached false started)) = false
  ∧ full (mem (reached false started)) = false.
Proof. vm_compute. split_and!; reflexivity. Qed.

Lemma response_queues_target_witness :
  ∃ s' d, completeDVRPrefetch (sample_config false) sample_template 0 (Some [5]) 20 (reached false started) = Some s'
  ∧ queue (mem s') = d :: queue (mem (reached false started)) ∧ address d = 65592.
Proof.
  destruct started_tables as (T & L & F).
  destruct (response_queues_target (sample_config false) sample_template started (reached false started)
    0 (mkPacket (first_request 0) 1 false) [5] 20 0 3 65592 false (run_total _ _ started) started_flight
    eq_refl eq_refl eq_refl eq_refl T L F) as (s' & d & E & Q & A & _).
  exists s', d. exact (conj E (conj Q A)).
Defined.

(** ** What a completion forgets *)

(** The helper has a replay lane to execute and requests to issue.  The response that ends its
    last outstanding request finds it draining and leaves it idle, and the program that is
    started for the queue drops the lane. *)
Definition lane_waits : list (Event (B := Array)) :=
  started ++ [EResponse 0 (Some [5]) 20; ECycle no_slots [open_world] 30].

Lemma completion_drops_lanes :
  length (replayLanes (thread (engine (reached true lane_waits)))) = 1%nat
  ∧ address <$> queue (mem (reached true lane_waits)) = [4288]
  ∧ replayLanes (thread (engine (reached true (lane_waits ++ [EResponse 0 None 40])))) = [].
Proof. vm_compute. split_and!; reflexivity. Qed.

(** An oracle request and a queued dependent request on the same line: taking out the oracle
    request also takes the line from the lines of queued dependent requests. *)
Definition oracle_request : Request :=
  mkRequest 8192 0 0 0 false true false Relation.Paths_init None None None 0.
Definition dependent_request : Request :=
  mkRequest 8200 100 0 0 false false false Relation.Paths_init None None None 0.

Lemma oracle_forgets_line :
  let m := (push_dependent 64 dependent_request Mem_init) <| queue ::= λ q, oracle_request :: q |> in
  line_known 8192 m = true
  ∧ (λ p, (address <$> queue p.2, line_known 8192 p.2)) <$> pop 64 m = Some ([8200], false).
Proof. vm_compute. split; reflexivity. Qed.
End Prefetch.
