(* ===== verification/VirBuffer.v ===== *)
(** * The helper's VIR: copies in flight

    Model of [DVRDynUop], [VIRCopyState] and the buffer of issued vector copies of
    [DVRHelperThread] (src/cpu/o3/cpu.hh): [retireCompletedVIR] and [markDeadSources].  A copy
    executes one uop for up to eight lanes; while it is in flight its source names are held in
    the register bank, which enters through the interface [VectorBank].  The issue of a copy is
    in Simt.v. *)

From stdpp Require Import gmap.
From S2P Require Import Prelude Inst Lanes HelperRegs HelperBank.

(** ** What the vector engine asks of a register bank

    Besides reads and writes of one lane: when a lane's value is ready, which registers are
    mapped by vectors, the physical names with their references, and the masked renames.  None
    of them but a write changes what a lane reads. *)

Class VectorBank (B : Type) := mkVectorBank {
  vector_lanes :: LaneBank B;
  bank_readyAt : nat → nat → B → Z;
  bank_vectorized : nat → B → bool;
  bank_vectorized_lane : nat → nat → B → bool;
  bank_name : nat → nat → B → option nat;
  bank_names : nat → B → list nat;
  bank_retain : option nat → B → B;
  bank_release : option nat → B → option B;
  bank_rename_vector : nat → LaneMask → B → option (bool * B);
  bank_rename_scalar : nat → LaneMask → B → option (bool * B);
  bank_retain_spec : ∀ p b, bank_good b →
    bank_good (bank_retain p b)
    ∧ ∀ a l, (a < 32)%nat → (l < 128)%nat → bank_read a l (bank_retain p b) = bank_read a l b;
  bank_release_spec : ∀ p b, bank_good b → ∃ b', bank_release p b = Some b' ∧ bank_good b'
    ∧ ∀ a l, (a < 32)%nat → (l < 128)%nat → bank_read a l b' = bank_read a l b;
  bank_rename_vector_spec : ∀ r m b, bank_good b →
    ∃ ok b', bank_rename_vector r m b = Some (ok, b') ∧ bank_good b'
    ∧ ∀ a l, (a < 32)%nat → (l < 128)%nat → bank_read a l b' = bank_read a l b;
  bank_rename_scalar_spec : ∀ r m b, bank_good b →
    ∃ ok b', bank_rename_scalar r m b = Some (ok, b') ∧ bank_good b'
    ∧ ∀ a l, (a < 32)%nat → (l < 128)%nat → bank_read a l b' = bank_read a l b
}.

(** The bank of the code: [renameScalarMasked] returns a name or a negative number. *)
Definition rename_scalar (r : nat) (m : LaneMask) (b : HelperRegs.Bank) : option (bool * HelperRegs.Bank) :=
  '(name, b) ← HelperRegs.renameScalarMasked r m b; Some (bool_decide (is_Some name), b).

Lemma cells_read (b b' : HelperRegs.Bank) :
  (∀ a l, (a < HelperRegs.NumArchitecturalRegs)%nat → (l < HelperRegs.MaxLanes)%nat →
     HelperRegs.cell a l b' = HelperRegs.cell a l b) →
  ∀ a l, (a < 32)%nat → (l < 128)%nat → HelperRegs.read a l b' = HelperRegs.read a l b.
Proof. intros H a l Ha Hl. specialize (H a l Ha Hl). by injection H. Qed.

Lemma good_retain p (b : HelperRegs.Bank) :
  HelperBank.good b → HelperBank.good (HelperRegs.retainPhysical p b)
  ∧ ∀ a l, (a < 32)%nat → (l < 128)%nat →
      HelperRegs.read a l (HelperRegs.retainPhysical p b) = HelperRegs.read a l b.
Proof.
  intros Hg. destruct (HelperBank.op_spec (HelperRegs.OpRetain p) b Hg) as (b' & [= <-] & G & C & _); [done|].
  split; [done|]. by apply cells_read.
Qed.

Lemma good_release p (b : HelperRegs.Bank) :
  HelperBank.good b → ∃ b', HelperRegs.releasePhysical p b = Some b' ∧ HelperBank.good b'
  ∧ ∀ a l, (a < 32)%nat → (l < 128)%nat → HelperRegs.read a l b' = HelperRegs.read a l b.
Proof.
  intros Hg. destruct (HelperBank.op_spec (HelperRegs.OpRelease p) b Hg) as (b' & E & G & C & _); [done|].
  exists b'. split_and!; [done|done|]. by apply cells_read.
Qed.

Lemma good_rename_vector r m (b : HelperRegs.Bank) :
  HelperBank.good b → ∃ ok b', HelperRegs.renameVectorMasked r m b = Some (ok, b') ∧ HelperBank.good b'
  ∧ ∀ a l, (a < 32)%nat → (l < 128)%nat → HelperRegs.read a l b' = HelperRegs.read a l b.
Proof.
  intros Hg. destruct (HelperBank.op_spec (HelperRegs.OpRenameVector r m) b Hg) as (b' & E & G & C & _); [done|].
  cbn [HelperRegs.run_op] in E. destruct (HelperRegs.renameVectorMasked r m b) as [[ok b1]|]; [|done].
  injection E as <-. exists ok, b1. split_and!; [done|done|]. by apply cells_read.
Qed.

Lemma good_rename_scalar r m (b : HelperRegs.Bank) :
  HelperBank.good b → ∃ ok b', rename_scalar r m b = Some (ok, b') ∧ HelperBank.good b'
  ∧ ∀ a l, (a < 32)%nat → (l < 128)%nat → HelperRegs.read a l b' = HelperRegs.read a l b.
Proof.
  intros Hg. destruct (HelperBank.op_spec (HelperRegs.OpRenameScalar r m) b Hg) as (b' & E & G & C & _); [done|].
  cbn [HelperRegs.run_op] in E. unfold rename_scalar.
  destruct (HelperRegs.renameScalarMasked r m b) as [[name b1]|]; [|done].
  injection E as <-. eexists _, b1. split_and!; [done|done|]. by apply cells_read.
Qed.

#[export] Instance HelperRegs_VectorBank : VectorBank HelperRegs.Bank :=
  mkVectorBank _ _ HelperRegs.readyAt HelperRegs.isVectorized HelperRegs.isVectorizedLane
    HelperRegs.physicalIndex HelperRegs.physicalMappings HelperRegs.retainPhysical
    HelperRegs.releasePhysical HelperRegs.renameVectorMasked rename_scalar
    good_retain good_release good_rename_vector good_rename_scalar.

Module VirBuffer.

Definition VIRCopies : nat := 16.
Definition LanesPerVIRCopy : nat := 8.
Definition VIRCapacity : nat := 8.
#[global] Arguments VIRCopies : simpl never.
#[global] Arguments LanesPerVIRCopy : simpl never.
#[global] Arguments VIRCapacity : simpl never.

(** [DVRDynUop] *)
Inductive UopState := Decoded | Ready | Issued | WaitingMemory | Completed.
#[export] Instance UopState_eq_dec : EqDecision UopState.
Proof. solve_decision. Defined.

Record DynUop := mkDynUop {
  d_program : nat;  d_bank : nat;  d_uopIndex : nat;  d_source0 : Z;  d_source1 : Z;
  d_destination : Z;  d_pc : Z;  d_copy : nat;  d_activeMask : LaneMask;  d_lanes : list nat;
  source0Physical : list (option nat);  source1Physical : list (option nat);
  source0DeadMask : LaneMask;  source1DeadMask : LaneMask;
  issueCycle : Z;  completeCycle : Z;  d_state : UopState
}.
#[export] Instance eta_DynUop : Eta DynUop := λ r,
  mkDynUop (d_program r) (d_bank r) (d_uopIndex r) (d_source0 r) (d_source1 r) (d_destination r)
    (d_pc r) (d_copy r) (d_activeMask r) (d_lanes r) (source0Physical r) (source1Physical r)
    (source0DeadMask r) (source1DeadMask r) (issueCycle r) (completeCycle r) (d_state r).

(** [VIRCopyState] *)
Record CopyState := mkCopy {
  c_activeMask : LaneMask;  readyMask : LaneMask;  issuedMask : LaneMask;
  executedMask : LaneMask;  completedMask : LaneMask;  deadSourceMask : LaneMask;
  deadSource0Mask : LaneMask;  deadSource1Mask : LaneMask;  c_pc : Z;  c_uopIndex : nat;
  inFlight : nat;  c_active : bool;  c_issued : bool;  c_executed : bool;  deadSource : bool
}.
#[export] Instance eta_CopyState : Eta CopyState := λ r,
  mkCopy (c_activeMask r) (readyMask r) (issuedMask r) (executedMask r) (completedMask r)
    (deadSourceMask r) (deadSource0Mask r) (deadSource1Mask r) (c_pc r) (c_uopIndex r)
    (inFlight r) (c_active r) (c_issued r) (c_executed r) (deadSource r).
Definition CopyState_init : CopyState :=
  mkCopy mask_empty mask_empty mask_empty mask_empty mask_empty mask_empty mask_empty mask_empty
    0 0 0 false false false false.
#[export] Instance CopyState_inhabited : Inhabited CopyState := populate CopyState_init.

(** The members of [DVRHelperThread]. *)
Record Vir := mkVir { virBuffer : list DynUop;  virCopies : list CopyState }.
#[export] Instance eta_Vir : Eta Vir := λ r, mkVir (virBuffer r) (virCopies r).
Definition Vir_init : Vir := mkVir [] (replicate VIRCopies CopyState_init).

(** ** Masks *)

Definition mask_or (m n : LaneMask) : LaneMask := (Z.lor m.1 n.1, Z.lor m.2 n.2).
Definition mask_minus (m n : LaneMask) : LaneMask := (Z.land m.1 (Z.lnot n.1), Z.land m.2 (Z.lnot n.2)).
Definition mask_any (m : LaneMask) : bool := negb (m.1 =? 0) || negb (m.2 =? 0).

(** ** Retirement *)

(** A copy whose uop completes. *)
Definition finish_copy (u : DynUop) (c : CopyState) : CopyState :=
  c <| c_issued := false |> <| c_executed := true |>
    <| executedMask ::= λ m, mask_or m (d_activeMask u) |>
    <| completedMask ::= λ m, mask_or m (d_activeMask u) |>
    <| issuedMask ::= λ m, mask_minus m (d_activeMask u) |>
    <| deadSource0Mask ::= λ m, mask_or m (source0DeadMask u) |>
    <| deadSource1Mask ::= λ m, mask_or m (source1DeadMask u) |>
    <| deadSourceMask ::= λ m, mask_or m (mask_or (source0DeadMask u) (source1DeadMask u)) |>
    <| inFlight ::= Nat.pred |>
    <| deadSource := mask_any (source0DeadMask u) || mask_any (source1DeadMask u) |>.

Section bank.
Context {B : Type} `{VectorBank B}.

(** The names a copy holds are released, those of the first source first. *)
Fixpoint release_names (ps : list (option nat)) (b : B) : option B :=
  match ps with
  | [] => Some b
  | p :: ps => b ← bank_release p b; release_names ps b
  end.

Definition release_sources (u : DynUop) (bs : gmap nat B) : option (gmap nat B) :=
  match bs !! d_bank u with
  | Some b => b ← release_names (source0Physical u ++ source1Physical u) b; Some (<[d_bank u := b]> bs)
  | None => Some bs
  end.

Definition completes (now : Z) (u : DynUop) : bool :=
  bool_decide (d_state u = Issued) && (completeCycle u <=? now).

(** The loop of [retireCompletedVIR]: the uops that stay, the copies, the banks and the number of
    retired uops. *)
Fixpoint retire_loop (now : Z) (us : list DynUop) (cs : list CopyState) (bs : gmap nat B)
    : option (list DynUop * list CopyState * gmap nat B * nat) :=
  match us with
  | [] => Some ([], cs, bs, 0%nat)
  | u :: us =>
      if completes now u then
        bs ← release_sources u bs;
        '(us, cs, bs, n) ← retire_loop now us (<[d_copy u := finish_copy u (cs !!! d_copy u)]> cs) bs;
        Some (us, cs, bs, S n)
      else
        '(us, cs, bs, n) ← retire_loop now us cs bs;
        Some (u :: us, cs, bs, n)
  end.

(** [retireCompletedVIR] *)
Definition retireCompletedVIR (now : Z) (v : Vir) (bs : gmap nat B) : option (Vir * gmap nat B * nat) :=
  '(us, cs, bs, n) ← retire_loop now (virBuffer v) (virCopies v) bs;
  Some (mkVir us cs, bs, n).
End bank.

(** ** Dead sources *)

(** The lanes of a copy whose source is one of the dead names. *)
Definition dead_lanes (dead : list nat) (lanes : list nat) (names : list (option nat)) (m : LaneMask)
    : LaneMask :=
  foldl (λ m x, match x.2 with
                | Some p => if (x.1 <? 128)%nat && bool_decide (p ∈ dead) then mask_set m x.1 else m
                | None => m
                end) m (zip lanes names).

(** [markDeadSources] *)
Definition markDeadSources (bid : nat) (dead : list nat) (v : Vir) : Vir :=
  v <| virBuffer ::= fmap (λ u : DynUop,
    if (d_bank u =? bid)%nat
    then let n := Nat.min (length (d_lanes u)) (length (source0Physical u)) in
         u <| source0DeadMask ::= dead_lanes dead (take n (d_lanes u)) (source0Physical u) |>
           <| source1DeadMask ::= dead_lanes dead (take n (d_lanes u)) (source1Physical u) |>
    else u) |>.

(** ** Issue *)

(** A uop enters the buffer and its copy is taken. *)
Definition occupy (u : DynUop) (c : CopyState) : CopyState :=
  c <| c_activeMask := d_activeMask u |> <| readyMask := d_activeMask u |>
    <| issuedMask := d_activeMask u |> <| executedMask := mask_empty |>
    <| completedMask := mask_empty |> <| deadSourceMask := mask_empty |>
    <| deadSource0Mask := mask_empty |> <| deadSource1Mask := mask_empty |>
    <| c_pc := d_pc u |> <| c_uopIndex := d_uopIndex u |> <| inFlight := 1%nat |>
    <| c_active := true |> <| c_issued := true |> <| c_executed := false |> <| deadSource := false |>.

Definition issue_copy (u : DynUop) (v : Vir) : Vir :=
  v <| virCopies ::= λ cs, <[d_copy u := occupy u (cs !!! d_copy u)]> cs |>
    <| virBuffer ::= λ us, us ++ [u <| d_state := Issued |>] |>.

(** ** The invariant *)

(** A copy is busy exactly while one uop of it is in flight. *)
Record vir_ok (v : Vir) : Prop := {
  ok_size : (length (virBuffer v) ≤ VIRCapacity)%nat;
  ok_copies : length (virCopies v) = VIRCopies;
  ok_nodup : NoDup (d_copy <$> virBuffer v);
  ok_uop : ∀ u, u ∈ virBuffer v → (d_copy u < VIRCopies)%nat ∧ d_state u = Issued;
  ok_busy : ∀ c, (c < VIRCopies)%nat →
            c_issued (virCopies v !!! c) = bool_decide (c ∈ d_copy <$> virBuffer v)
            ∧ inFlight (virCopies v !!! c) = if bool_decide (c ∈ d_copy <$> virBuffer v) then 1%nat else 0%nat
}.

Lemma Vir_init_ok : vir_ok Vir_init.
Proof.
  split; cbn [virBuffer virCopies Vir_init].
  - apply Nat.le_0_l.
  - done.
  - constructor.
  - intros u Hu. by apply elem_of_nil in Hu.
  - intros c Hc. rewrite lookup_total_replicate_2 by done. by rewrite bool_decide_false by (by intros ?%elem_of_nil).
Qed.

(** The copy of a uop that enters must be free, and the buffer not full. *)
Lemma issue_copy_ok u v :
  vir_ok v → (length (virBuffer v) < VIRCapacity)%nat → (d_copy u < VIRCopies)%nat →
  c_issued (virCopies v !!! d_copy u) = false → vir_ok (issue_copy u v).
Proof.
  intros [Hs Hc Hn Hu Hb] Hroom Hcopy Hfree. destruct (Hb _ Hcopy) as [Hb1 _].
  rewrite Hfree in Hb1. symmetry in Hb1. apply bool_decide_eq_false in Hb1.
  split; unfold issue_copy; simpl.
  - rewrite length_app. simpl. lia.
  - by rewrite length_insert.
  - rewrite fmap_app. apply NoDup_app. split; [done|]. split; [|apply NoDup_singleton].
    intros x Hx Hx'. apply list_elem_of_singleton in Hx' as ->. done.
  - intros w. rewrite elem_of_app, list_elem_of_singleton. intros [Hw | ->]; [by apply Hu|done].
  - intros c Hlt. rewrite fmap_app. destruct (decide (c = d_copy u)) as [->|Hne].
    + rewrite list_lookup_total_insert_eq by lia. rewrite bool_decide_true; [done|].
      apply elem_of_app. right. by apply list_elem_of_singleton.
    + rewrite list_lookup_total_insert_ne by done.
      rewrite (bool_decide_ext (c ∈ (d_copy <$> virBuffer v) ++ [d_copy u]) (c ∈ d_copy <$> virBuffer v));
        [by apply Hb|]. rewrite elem_of_app, list_elem_of_singleton. split; [by intros [?|?]|by left].
Qed.

Lemma markDeadSources_ok bid dead v : vir_ok v → vir_ok (markDeadSources bid dead v).
Proof.
  intros [Hs Hc Hn Hu Hb]. unfold markDeadSources.
  set (f := λ u : DynUop, if (d_bank u =? bid)%nat then _ else u).
  assert (Hf : ∀ u, d_copy (f u) = d_copy u ∧ d_state (f u) = d_state u)
    by (intros u; unfold f; by destruct (d_bank u =? bid)%nat).
  assert (Hm : d_copy <$> (f <$> virBuffer v) = d_copy <$> virBuffer v).
  { rewrite <- list_fmap_compose. apply list_fmap_ext. intros k u _. apply Hf. }
  split; simpl; rewrite ?Hm, ?length_fmap; try done.
  intros u Hin. apply list_elem_of_fmap in Hin as (w & -> & Hw). destruct (Hf w) as [-> ->]. by apply Hu.
Qed.

Section retire.
Context {B : Type} `{VectorBank B}.
Implicit Types (b : B) (bs : gmap nat B).

(** Every bank in use is a good one. *)
Definition banks_good (bs : gmap nat B) : Prop := ∀ k (b : B), bs !! k = Some b → bank_good b.

(** Two stores of banks in which every lane reads the same. *)
Definition same_values (bs bs' : gmap nat B) : Prop :=
  ∀ k, match bs !! k, bs' !! k with
       | Some b, Some b' => ∀ a l, (a < 32)%nat → (l < 128)%nat → bank_read a l b' = bank_read a l b
       | None, None => True
       | _, _ => False
       end.

#[export] Instance same_values_preorder : PreOrder same_values.
Proof.
  split.
  - intros bs k. by destruct (bs !! k).
  - intros bs1 bs2 bs3 H1 H2 k. specialize (H1 k). specialize (H2 k).
    destruct (bs1 !! k), (bs2 !! k), (bs3 !! k); try done. intros a l Ha Hl. by rewrite H2, H1.
Qed.

Lemma same_values_insert bs k b b' :
  bs !! k = Some b → (∀ a l, (a < 32)%nat → (l < 128)%nat → bank_read a l b' = bank_read a l b) →
  same_values bs (<[k := b']> bs).
Proof.
  intros Hk Hb j. destruct (decide (j = k)) as [->|Hne].
  - by rewrite lookup_insert_eq, Hk.
  - rewrite lookup_insert_ne by done. by destruct (bs !! j).
Qed.

Lemma banks_good_insert bs k b : banks_good bs → bank_good b → banks_good (<[k := b]> bs).
Proof. intros Hg Hb j b'. intros [(_ & <-)|(_ & Hj)]%lookup_insert_Some; [done|by eapply Hg]. Qed.

Lemma release_names_spec ps b :
  bank_good b → ∃ b', release_names ps b = Some b' ∧ bank_good b'
  ∧ ∀ a l, (a < 32)%nat → (l < 128)%nat → bank_read a l b' = bank_read a l b.
Proof.
  revert b. induction ps as [|p ps IH]; intros b Hb; [by exists b|]. cbn [release_names].
  destruct (bank_release_spec p b Hb) as (b1 & -> & G1 & R1). cbn [mbind option_bind].
  destruct (IH b1 G1) as (b2 & -> & G2 & R2). exists b2. split_and!; [done|done|].
  intros a l Ha Hl. by rewrite R2, R1.
Qed.

Lemma release_sources_spec u bs :
  banks_good bs → ∃ bs', release_sources u bs = Some bs' ∧ banks_good bs' ∧ same_values bs bs'.
Proof.
  intros Hg. unfold release_sources. destruct (bs !! d_bank u) as [b|] eqn:Eb; [|by exists bs].
  destruct (release_names_spec (source0Physical u ++ source1Physical u) b (Hg _ _ Eb)) as (b' & -> & G & R).
  eexists. split; [done|]. split; [by apply banks_good_insert|by apply same_values_insert with b].
Qed.

(** What stays in the buffer. *)
Definition stays (now : Z) (us : list DynUop) : list DynUop := filter (λ u, completes now u = false) us.

Lemma stays_cons now u us :
  stays now (u :: us) = (if completes now u then [] else [u]) ++ stays now us.
Proof. unfold stays. rewrite filter_cons. destruct (completes now u); by case_decide. Qed.

Lemma elem_of_stays now us u : u ∈ stays now us ↔ completes now u = false ∧ u ∈ us.
Proof. apply (list_elem_of_filter (λ u, completes now u = false) us u). Qed.

(** The copies after the loop: those of the retired uops are free, the others as they were. *)
Lemma retire_loop_spec now us cs bs :
  banks_good bs → NoDup (d_copy <$> us) → (∀ u, u ∈ us → (d_copy u < length cs)%nat) →
  ∃ cs' bs', retire_loop now us cs bs = Some (stays now us, cs', bs', (length us - length (stays now us))%nat)
  ∧ banks_good bs' ∧ same_values bs bs' ∧ length cs' = length cs
  ∧ ∀ c, (c < length cs)%nat →
    match list_find (λ u, d_copy u = c ∧ completes now u = true) us with
    | Some (_, u) => cs' !!! c = finish_copy u (cs !!! c)
    | None => cs' !!! c = cs !!! c
    end.
Proof.
  revert cs bs. induction us as [|u us IH]; intros cs bs Hg Hnd Hlt; [by exists cs, bs|].
  rewrite fmap_cons in Hnd. apply NoDup_cons in Hnd as [Hn Hnd].
  assert (Hu : (d_copy u < length cs)%nat) by (apply Hlt; left).
  assert (Hus : ∀ w, w ∈ us → (d_copy w < length cs)%nat) by (intros w Hw; apply Hlt; by right).
  pose proof (length_filter (λ w, completes now w = false) us) as Hl. fold (stays now us) in Hl.
  cbn [retire_loop]. rewrite stays_cons. destruct (completes now u) eqn:Ec.
  - destruct (release_sources_spec u bs Hg) as (bs1 & -> & G1 & V1). cbn [mbind option_bind].
    destruct (IH (<[d_copy u := finish_copy u (cs !!! d_copy u)]> cs) bs1 G1 Hnd) as (cs2 & bs2 & -> & G2 & V2 & L2 & C2);
      [by rewrite length_insert|]. rewrite length_insert in L2, C2. cbn [mbind option_bind app length].
    exists cs2, bs2. split; [repeat f_equal; lia|]. split; [done|]. split; [by trans bs1|]. split; [done|].
    intros c Hc. specialize (C2 c Hc). cbn [list_find]. case_decide as Hd.
    + destruct Hd as [<- _]. destruct (list_find _ us) as [[k w]|] eqn:Ef.
      * apply list_find_Some in Ef as (Hk & [Hw _] & _). destruct Hn.
        rewrite <- Hw. apply list_elem_of_fmap. exists w. split; [done|]. by eapply list_elem_of_lookup_2.
      * rewrite list_lookup_total_insert_eq in C2 by done. exact C2.
    + assert (Hne : d_copy u ≠ c) by (intros Heq; by apply Hd).
      destruct (list_find _ us) as [[k w]|]; simpl; by rewrite list_lookup_total_insert_ne in C2 by done.
  - destruct (IH cs bs Hg Hnd Hus) as (cs2 & bs2 & -> & G2 & V2 & L2 & C2). cbn [mbind option_bind app length].
    exists cs2, bs2. split; [repeat f_equal; lia|]. split_and!; [done|done|done|].
    intros c Hc. specialize (C2 c Hc). cbn [list_find]. rewrite decide_False by (intros [_ ?]; congruence).
    by destruct (list_find _ us) as [[k w]|].
Qed.

(** The retirement of the vector copies never fails on good banks and loses nothing: at time
    [now] exactly the uops that have completed leave the buffer, in order; a copy is then busy if
    and only if a uop of it is still in flight; and although the names a uop held at issue are
    given back, some of which are freed by that, no lane of any bank reads a different value. *)
Lemma retire_spec (now : Z) (v : Vir) (bs : gmap nat B) (Hv : vir_ok v) (Hg : banks_good bs) :
  ∃ v' bs' n, retireCompletedVIR now v bs = Some (v', bs', n)
  ∧ vir_ok v' ∧ banks_good bs' ∧ same_values bs bs'
  ∧ virBuffer v' = stays now (virBuffer v)
  ∧ (n + length (virBuffer v') = length (virBuffer v))%nat
  ∧ (∀ u, u ∈ virBuffer v' → now < completeCycle u).
Proof.
  pose proof Hv as [Hs Hc Hn Hu Hb].
  destruct (retire_loop_spec now (virBuffer v) (virCopies v) bs Hg Hn) as (cs & bs' & E & G & V & L & C).
  { intros u Hin. rewrite Hc. by apply Hu. }
  unfold retireCompletedVIR. rewrite E. cbn [mbind option_bind]. eexists _, bs', _. split; [done|].
  pose proof (length_filter (λ w, completes now w = false) (virBuffer v)) as Hl.
  fold (stays now (virBuffer v)) in Hl. cbn [virBuffer virCopies].
  pose proof (elem_of_stays now (virBuffer v)) as Hsub.
  split; [|split_and!; [done|done|done|lia|]].
  - split; cbn [virBuffer virCopies].
    + lia.
    + by rewrite L.
    + eapply sublist_NoDup; [exact Hn|]. apply fmap_sublist. unfold stays. apply sublist_filter.
    + intros u Hin. by apply Hu, Hsub.
    + intros c Hlt. destruct (Hb c Hlt) as [B1 B2]. rewrite Hc in C. specialize (C c Hlt).
      destruct (list_find _ (virBuffer v)) as [[k u]|] eqn:Ef.
      * apply list_find_Some in Ef as (Hk & [Hcu Hcomp] & _). rewrite C.
        assert (Hin : u ∈ virBuffer v) by (by eapply list_elem_of_lookup_2).
        assert (Hnot : c ∉ d_copy <$> stays now (virBuffer v)).
        { intros (w & Hw & Hws)%list_elem_of_fmap. apply Hsub in Hws as [Hw1 Hw2].
          apply list_elem_of_lookup in Hw2 as [j Hj].
          assert (k = j) as <-.
          { apply (NoDup_lookup _ k j c Hn); rewrite list_lookup_fmap; [rewrite Hk; simpl; by rewrite Hcu|rewrite Hj; simpl; by rewrite Hw]. }
          rewrite Hk in Hj. injection Hj as <-. congruence. }
        rewrite (bool_decide_false _ Hnot). split; [done|]. simpl. rewrite B2.
        by case_bool_decide.
      * rewrite C, B1, B2. apply list_find_None in Ef. rewrite Forall_forall in Ef.
        assert (Hiff : c ∈ d_copy <$> virBuffer v ↔ c ∈ d_copy <$> stays now (virBuffer v)).
        { rewrite !list_elem_of_fmap. split; intros (w & Hw & Hin); exists w; split; try done.
          - apply Hsub. split; [|done]. apply not_true_is_false. intros Ht.
            by apply (Ef w Hin).
          - by apply Hsub in Hin as [_ Hin]. }
        by rewrite (bool_decide_ext _ _ Hiff).
  - intros u Hin. apply Hsub in Hin as [Hcomp Hin]. unfold completes in Hcomp.
    rewrite bool_decide_true in Hcomp by (by apply Hu). apply Z.leb_gt in Hcomp. done.
Qed.
End retire.
End VirBuffer.
