(* ===== verification/Interplay.v ===== *)
(** * The helper register banks and the rename stage together

    The rename stage (RenameStage.v, Runahead.v) and the register banks of the helper programs
    (HelperRegs.v) draw on one free list and one register file.  A machine here is the stage,
    the values of the physical registers and the banks of the programs launched so far; its
    events interleave renaming, squashes, commits, whole precise-runahead sessions and
    write-backs with the launches, operations and releases of any number of programs. *)

From S2P Require Import Prelude Inst RegAlloc RenameStage Runahead HelperRegs HelperBank.

Module Interplay.
Import HelperRegs HelperBank.
#[local] Existing Instance RenameStage.eta_Stage.

(** ** State *)

(** [o3] is the main core's register file; a program that has died is [None]. *)
Record Machine := mkMachine {
  stage : RenameStage.Stage;  o3 : gmap RegId Z;  helpers : list (option Bank)
}.

#[export] Instance eta_Machine : Eta Machine := λ r, mkMachine (stage r) (o3 r) (helpers r).

Definition core (m : Machine) : RegAlloc.Regs := RenameStage.regs (stage m).

(** A bank works on the main core's free list and file through its two pointers. *)
Definition attach (m : Machine) (b : Bank) : Bank :=
  (b <| frees := core m |>) <| o3file := o3 m |>.
Definition detach (b : Bank) (m : Machine) : Machine :=
  (m <| stage ::= λ s, s <| RenameStage.regs := frees b |> |>) <| o3 := o3file b |>.

(** ** Events *)

Inductive Event :=
  | ECore (op : RenameStage.Op)
  | ESession (n : Z) (evs : list Runahead.Event)
  | EWrite (r : RegId) (v : Z)
  | ELaunch (regs : list Z) (trigger : nat)
  | EHelper (k : nat) (o : Op)
  | EDrop (k : nat).

(** A precise-runahead session: enter, its events, exit and the squash that ends it. *)
Definition session (n : Z) (evs : list Runahead.Event) (s : RenameStage.Stage)
  : option RenameStage.Stage :=
  s ← RenameStage.enterPRE s;
  '(s, _) ← Runahead.pre_run evs (s, []);
  s ← RenameStage.exitPRE s;
  RenameStage.doSquash n s.

(** What instructions of the main core, in flight or committed, may write. *)
Definition owned (m : Machine) : list RegId :=
  RegAlloc.mapped (core m) ++ RenameStage.logged (RenameStage.historyBuffer (stage m)).

(** A program whose launch fails is destroyed at once, and its destructor is [releaseAll]. *)
Definition step (e : Event) (m : Machine) : option Machine :=
  match e with
  | ECore op => s ← RenameStage.step op (stage m); Some (m <| stage := s |>)
  | ESession n evs =>
      if forallb (λ h, RenameStage.instSeqNum h <=? n) (RenameStage.historyBuffer (stage m))
      then s ← session n evs (stage m); Some (m <| stage := s |>)
      else Some m
  | EWrite r v =>
      if bool_decide (r ∈ owned m) then Some (m <| o3 ::= <[r := v]> |>) else Some m
  | ELaunch regs trigger =>
      '(ok, b) ← launch regs trigger (HelperRegs.create true (core m) (o3 m));
      if (ok : bool) then Some ((detach b m) <| helpers ::= λ l, l ++ [Some b] |>)
      else b ← releaseAll b; Some ((detach b m) <| helpers ::= λ l, l ++ [None] |>)
  | EHelper k o =>
      match helpers m !! k with
      | Some (Some b) =>
          b ← run_op o (attach m b); Some ((detach b m) <| helpers ::= <[k := Some b]> |>)
      | _ => Some m
      end
  | EDrop k =>
      match helpers m !! k with
      | Some (Some b) =>
          b ← releaseAll (attach m b); Some ((detach b m) <| helpers ::= <[k := None]> |>)
      | _ => Some m
      end
  end.

Fixpoint run (es : list Event) (m : Machine) : option Machine :=
  match es with
  | [] => Some m
  | e :: es => m ← step e m; run es m
  end.

(** Events the decoder and the engine can produce. *)
Definition event_ok (arch : RegClassType → nat) (e : Event) : Prop :=
  match e with
  | ECore op => RenameStage.op_ok arch op
  | ESession n evs => Forall (Runahead.event_ok arch n) evs
  | EHelper _ (OpCore _ _) => False
  | _ => True
  end.

(** ** What the programs are promised: an array each *)

Definition spec_step (e : Event) (sp : list array) : list array :=
  match e with
  | ELaunch regs _ => sp ++ [λ a _, (regs !!! a, 0)]
  | EHelper k o => alter (array_op o) k sp
  | _ => sp
  end.

Definition spec_run (es : list Event) (sp : list array) : list array :=
  foldl (λ sp e, spec_step e sp) sp es.

(** The machine at power-on; [file] is what its physical registers hold. *)
Definition create (garbage : RegId → RegAlloc.PhysInfo) (sizes arch : RegClassType → nat)
    (entries : nat) (early : bool) (file : gmap RegId Z) : option Machine :=
  s ← RenameStage.create garbage sizes arch entries early; Some (mkMachine s file []).

(** The registers lent to the programs alive. *)
Definition loan (o : option Bank) : list RegId := match o with Some b => held b | None => [] end.
Definition lent (m : Machine) : list RegId := concat (loan <$> helpers m).

(** ** Lemmas *)

Section Invariant.

Context (sizes arch : RegClassType → nat) (fixed : RegId → bool).
Context (Hfixed : ∀ x, isRenameable x = false → fixed x = false).

(** Every register is free, mapped, logged or lent, and the banks hold what the arrays do. *)
Record inv (m : Machine) (sp : list array) : Prop := {
  i_stage : RenameStage.stage_ok sizes arch fixed (lent m) (stage m);
  i_idle : Runahead.idle (stage m);
  i_len : length sp = length (helpers m);
  i_bank : ∀ k b, helpers m !! k = Some (Some b) → good (attach m b) ∧
    ∃ v : array, sp !! k = Some v ∧ ∀ a l, (a < NumArchitecturalRegs)%nat → (l < MaxLanes)%nat →
      cell a l (attach m b) = v a l
}.

Lemma held_lent x k b hs :
  hs !! k = Some (Some b) → (occ x (held b) <= occ x (concat (loan <$> hs)))%nat.
Proof.
  intros Hk. pose proof (occ_concat_insert x (loan <$> hs) k (held b) []) as H.
  rewrite list_lookup_fmap, Hk in H. specialize (H eq_refl). rewrite occ_nil in H. lia.
Qed.

(** Replacing a program. *)
Lemma lent_insert x k b o hs :
  hs !! k = Some (Some b) →
  (occ x (concat (loan <$> <[k := o]> hs)) + occ x (held b) =
   occ x (concat (loan <$> hs)) + occ x (loan o))%nat.
Proof.
  intros Hk. rewrite list_fmap_insert. apply occ_concat_insert. by rewrite list_lookup_fmap, Hk.
Qed.

Lemma loan_once m sp x : inv m sp →
  (occ x (RegAlloc.free (core m)) + occ x (RegAlloc.mapped (core m))
   + occ x (RenameStage.logged (RenameStage.historyBuffer (stage m))) + occ x (lent m) <= 1)%nat.
Proof.
  intros I. pose proof (RenameStage.ok_part _ _ _ _ _ (i_stage _ _ I) x) as H.
  pose proof (RenameStage.occ_all_le sizes x). unfold core. lia.
Qed.

Lemma core_classed m sp : inv m sp → RegAlloc.classed (RegAlloc.freeLists (core m)).
Proof.
  intros I. apply (RenameStage.s_free _ _ _ _ _ (RenameStage.ok_shape _ _ _ _ _ (i_stage _ _ I))).
Qed.

(** The stage after a bank has moved registers. *)
Lemma detach_stage l l' s s0 b :
  RenameStage.stage_ok sizes arch fixed l s → frees s0 = RenameStage.regs s → lists_only s0 b →
  RegAlloc.classed (RegAlloc.freeLists (frees b)) →
  (∀ x, (occ x (RegAlloc.free (frees b)) + occ x l' =
         occ x (RegAlloc.free (RenameStage.regs s)) + occ x l)%nat) →
  RenameStage.stage_ok sizes arch fixed l' (s <| RenameStage.regs := frees b |>).
Proof.
  intros [[S1 S2 S3 [S4 S5] S6 S7] Hp Hl Hm] E [Hi Hr] Hc Ho. rewrite E in Hi, Hr.
  assert (Hinfo : ∀ x, RegAlloc.info (frees b) x = RegAlloc.info (RenameStage.regs s) x)
    by (intros x; unfold RegAlloc.info; by rewrite Hi).
  split; cbn.
  - split; [done|by rewrite Hr|by rewrite Hr|split; [done|]| |].
    + intros k x Hk. rewrite Hinfo. by apply S5.
    + intros x. rewrite Hinfo. apply S6.
    + intros x Hx. rewrite Hinfo. by apply S7.
  - intros x. specialize (Hp x). specialize (Ho x). unfold RegAlloc.mapped in *. rewrite Hr. lia.
  - by rewrite Hr.
  - done.
Qed.

(** The other programs do not notice. *)
Lemma bystander m m' b :
  good (attach m b) → RegAlloc.classed (RegAlloc.freeLists (core m')) →
  (∀ r, (occ r (held b) + occ r (RegAlloc.free (core m')) <= 1)%nat) →
  (∀ r, r ∈ held b → o3 m' !! r = o3 m !! r) →
  good (attach m' b) ∧ ∀ a l, (a < NumArchitecturalRegs)%nat → (l < MaxLanes)%nat →
    cell a l (attach m' b) = cell a l (attach m b).
Proof.
  intros G Hc Ho Hf. by apply (core_steady (core m') (o3 m') (attach m b) G).
Qed.

(** The stage has moved, with nothing lent or returned. *)
Lemma stage_moved m sp s' :
  inv m sp → RenameStage.stage_ok sizes arch fixed (lent m) s' → Runahead.idle s' →
  inv (m <| stage := s' |>) sp.
Proof.
  intros I Hs Hi. pose proof (i_stage _ _ I) as Hs0. destruct I as [_ _ Hl Hb].
  split; [exact Hs|exact Hi|exact Hl|]. intros k b Hk.
  change (helpers m !! k = Some (Some b)) in Hk. destruct (Hb k b Hk) as [G (v & Hv & Hc)].
  destruct (bystander m (m <| stage := s' |>) b G) as [G' Hc'].
  - apply (RenameStage.s_free _ _ _ _ _ (RenameStage.ok_shape _ _ _ _ _ Hs)).
  - intros r. pose proof (RenameStage.ok_part _ _ _ _ _ Hs r) as Hp.
    pose proof (RenameStage.occ_all_le sizes r). pose proof (held_lent r k b _ Hk).
    change (core (m <| stage := s' |>)) with (RenameStage.regs s'). unfold lent in Hp. lia.
  - done.
  - split; [done|]. exists v. split; [done|]. intros a l Ha Hlm. rewrite Hc' by done. by apply Hc.
Qed.

(** An operation of a bank: it started as [s0] and ended as [s']. *)
Record bank_step (m : Machine) (s0 s' : Bank) : Prop := {
  bs_frees : frees s0 = core m;
  bs_file : o3file s0 = o3 m;
  bs_ok : bank_ok s';
  bs_lists : lists_only s0 s';
  bs_keeps : conserves s0 s';
  bs_outside : outside s0 s'
}.

Lemma bank_step_core m sp s0 s' hs' :
  inv m sp → bank_step m s0 s' →
  (∀ x, (occ x (concat (loan <$> hs')) + occ x (held s0) = occ x (lent m) + occ x (held s'))%nat) →
  RenameStage.stage_ok sizes arch fixed (concat (loan <$> hs')) (stage (detach s' m)) ∧
  Runahead.idle (stage (detach s' m)).
Proof.
  intros I B Ho. split; [|by destruct (i_idle _ _ I)].
  apply (detach_stage (lent m) _ (stage m) s0); [apply I|apply B|apply B|apply (bs_ok _ _ _ B)|].
  intros x. pose proof (bs_keeps _ _ _ B x) as K. rewrite (bs_frees _ _ _ B) in K.
  specialize (Ho x). unfold core in K. lia.
Qed.

(** The programs that hold none of its registers do not notice. *)
Lemma bank_step_other m sp s0 s' c :
  inv m sp → bank_step m s0 s' → good (attach m c) →
  (∀ x, (occ x (held c) + occ x (held s0) <= occ x (lent m))%nat) →
  good (attach (detach s' m) c) ∧ ∀ a l, (a < NumArchitecturalRegs)%nat → (l < MaxLanes)%nat →
    cell a l (attach (detach s' m) c) = cell a l (attach m c).
Proof.
  intros I B G Hc. apply bystander; [done|apply (bs_ok _ _ _ B)| |].
  - intros r. change (core (detach s' m)) with (frees s').
    pose proof (bs_keeps _ _ _ B r) as K. rewrite (bs_frees _ _ _ B) in K.
    pose proof (loan_once m sp r I). specialize (Hc r). lia.
  - intros r Hr. change (o3 (detach s' m)) with (o3file s').
    pose proof (bs_outside _ _ _ B r) as O. rewrite (bs_file _ _ _ B), (bs_frees _ _ _ B) in O.
    pose proof (loan_once m sp r I). specialize (Hc r).
    apply O; apply occ_zero; apply occ_elem in Hr; lia.
Qed.

Lemma step_core op m sp :
  inv m sp → RenameStage.op_ok arch op →
  ∃ s', RenameStage.step op (stage m) = Some s' ∧ inv (m <| stage := s' |>) sp.
Proof.
  intros I Ho. destruct (RenameStage.stage_step_ok _ _ _ _ op (stage m) (i_stage _ _ I) Ho)
    as (s' & E & Hs'). exists s'. split; [done|]. apply stage_moved; [done|done|].
  by destruct (Runahead.step_idle op (stage m) s' (RenameStage.ok_mode _ _ _ _ _ (i_stage _ _ I))
    (i_idle _ _ I) E).
Qed.

Lemma step_session n evs m sp :
  inv m sp → Forall (Runahead.event_ok arch n) evs →
  Forall (λ h, RenameStage.instSeqNum h <= n) (RenameStage.historyBuffer (stage m)) →
  ∃ s', session n evs (stage m) = Some s' ∧ inv (m <| stage := s' |>) sp.
Proof.
  intros I Hev Hh.
  destruct (Runahead.session_ok sizes arch fixed (lent m) (stage m) (i_stage _ _ I) Hfixed
    (i_idle _ _ I) n evs Hh Hev) as (s1 & s2 & fl & s3 & s4 & E1 & E2 & _ & E3 & L & E4 & ->).
  exists (s3 <| RenameStage.prdq := [] |>). unfold session. rewrite E1. cbn [mbind option_bind].
  rewrite E2. cbn [mbind option_bind]. rewrite E3. cbn [mbind option_bind]. split; [done|].
  destruct L as [[? ? ? ?] ? ? ? ? ? ? ? ?]. apply stage_moved; [done|by split|by split].
Qed.

(** A write-back reaches no register that is lent. *)
Lemma step_write r v m sp : inv m sp → r ∈ owned m → inv (m <| o3 ::= <[r := v]> |>) sp.
Proof.
  intros I Hr. pose proof (i_stage _ _ I) as Hs. pose proof (i_idle _ _ I) as Hi.
  pose proof (i_len _ _ I) as Hl. pose proof (i_bank _ _ I) as Hb.
  split; [exact Hs|exact Hi|exact Hl|].
  intros k b Hk. change (helpers m !! k = Some (Some b)) in Hk.
  destruct (Hb k b Hk) as [G (w & Hw & Hc)].
  destruct (bystander m (m <| o3 ::= <[r := v]> |>) b G) as [G' Hc'].
  - by apply (core_classed m sp).
  - intros x. change (core (m <| o3 ::= <[r := v]> |>)) with (core m).
    pose proof (loan_once m sp x I). pose proof (held_lent x k b _ Hk). unfold lent in *. lia.
  - intros x Hx. change (o3 (m <| o3 ::= <[r := v]> |>)) with (<[r := v]> (o3 m)).
    rewrite lookup_insert_ne; [done|]. intros ->. pose proof (loan_once m sp x I).
    pose proof (held_lent x k b _ Hk). apply occ_elem in Hr, Hx. unfold owned in Hr.
    rewrite occ_app in Hr. unfold lent in *. lia.
  - split; [done|]. exists w. split; [done|]. intros a l Ha Hlm. rewrite Hc' by done. by apply Hc.
Qed.

(** Replacing program [k], which was [b], by [o]. *)
Lemma bank_replaced m sp k b o s' sp' :
  inv m sp → helpers m !! k = Some (Some b) → bank_step m (attach m b) s' → held s' = loan o →
  length sp' = length sp → (∀ j, j ≠ k → sp' !! j = sp !! j) →
  (∀ c, o = Some c → c = s' ∧ good c ∧ ∃ v : array, sp' !! k = Some v ∧
     ∀ a l, (a < NumArchitecturalRegs)%nat → (l < MaxLanes)%nat → cell a l c = v a l) →
  inv ((detach s' m) <| helpers ::= <[k := o]> |>) sp'.
Proof.
  intros I Hk B Hh Hlen Hsp Hown.
  assert (Hmove : ∀ x, (occ x (concat (loan <$> <[k := o]> (helpers m))) + occ x (held (attach m b)) =
                        occ x (lent m) + occ x (held s'))%nat).
  { intros x. change (held (attach m b)) with (held b). rewrite Hh. by apply lent_insert. }
  destruct (bank_step_core m sp (attach m b) s' (<[k := o]> (helpers m)) I B Hmove) as [Hs Hi].
  split; [exact Hs|exact Hi| |].
  - change (length sp' = length (<[k := o]> (helpers m))). rewrite length_insert, Hlen. apply I.
  - intros j c Hj. change (<[k := o]> (helpers m) !! j = Some (Some c)) in Hj.
    change (attach ((detach s' m) <| helpers ::= <[k := o]> |>) c) with (attach (detach s' m) c).
    destruct (decide (j = k)) as [->|Hne].
    + rewrite list_lookup_insert_eq in Hj by by eapply lookup_lt_Some. injection Hj as ->.
      destruct (Hown c eq_refl) as (-> & G & v & Hv & Hc).
      assert (attach (detach s' m) s' = s') as -> by by destruct s'. eauto.
    + rewrite list_lookup_insert_ne in Hj by done.
      destruct (i_bank _ _ I j c Hj) as [G (v & Hv & Hc)].
      destruct (bank_step_other m sp (attach m b) s' c I B G) as [G' Hc'].
      { intros x. change (held (attach m b)) with (held b).
        pose proof (lent_insert x j c None (helpers m) Hj) as H1.
        assert (Hk' : <[j := None]> (helpers m) !! k = Some (Some b))
          by by rewrite list_lookup_insert_ne.
        pose proof (held_lent x k b _ Hk') as H2. cbn [loan] in H1. rewrite occ_nil in H1.
        unfold lent. lia. }
      split; [done|]. exists v. rewrite Hsp by done. split; [done|].
      intros a l Ha Hl. rewrite Hc' by done. by apply Hc.
Qed.

(** A new program [o]. *)
Lemma bank_added m sp o s0 s' v :
  inv m sp → bank_step m s0 s' → held s0 = [] → held s' = loan o →
  (∀ c, o = Some c → c = s' ∧ good c ∧
     ∀ a l, (a < NumArchitecturalRegs)%nat → (l < MaxLanes)%nat → cell a l c = v a l) →
  inv ((detach s' m) <| helpers ::= λ l, l ++ [o] |>) (sp ++ [v]).
Proof.
  intros I B H0 Hh Hown.
  assert (Hmove : ∀ x, (occ x (concat (loan <$> helpers m ++ [o])) + occ x (held s0) =
                        occ x (lent m) + occ x (held s'))%nat).
  { intros x. unfold lent. rewrite H0, Hh, fmap_app, concat_app, occ_app, occ_nil. cbn [fmap list_fmap concat].
    rewrite app_nil_r. lia. }
  destruct (bank_step_core m sp s0 s' (helpers m ++ [o]) I B Hmove) as [Hs Hi].
  split; [exact Hs|exact Hi| |].
  - change (length (sp ++ [v]) = length (helpers m ++ [o])). rewrite !length_app, (i_len _ _ I). done.
  - intros j c Hj. change ((helpers m ++ [o]) !! j = Some (Some c)) in Hj.
    change (attach ((detach s' m) <| helpers ::= λ l, l ++ [o] |>) c) with (attach (detach s' m) c).
    apply lookup_snoc_Some in Hj as [[Hlt Hj]|[-> Ho]].
    + destruct (i_bank _ _ I j c Hj) as [G (w & Hw & Hc)].
      destruct (bank_step_other m sp s0 s' c I B G) as [G' Hc'].
      { intros x. rewrite H0, occ_nil. pose proof (held_lent x j c _ Hj). unfold lent. lia. }
      split; [done|]. exists w. split; [by apply lookup_app_l_Some|].
      intros a l Ha Hl. rewrite Hc' by done. by apply Hc.
    + destruct (Hown c Ho) as (-> & G & Hc).
      assert (attach (detach s' m) s' = s') as -> by by destruct s'.
      split; [done|]. exists v. split; [|done].
      apply list_lookup_middle. symmetry. apply I.
Qed.

(** Destroying a bank. *)
Lemma bank_dropped m s0 s1 :
  bank_step m s0 s1 → ∃ s2, releaseAll s1 = Some s2 ∧ bank_step m s0 s2 ∧ held s2 = [].
Proof.
  intros B. destruct (releaseAll_spec s1 (bs_ok _ _ _ B)) as (s2 & E & C & _ & Hh).
  exists s2. split_and!; [done| |done]. destruct B as [B1 B2 B3 B4 B5 B6].
  split; [done|done|apply C| | |].
  - etrans; [done|by apply lists_releaseAll].
  - intros x. by rewrite (cl_keeps _ _ C x).
  - apply (outside_trans _ s1); [done|done|]. intros r _ _. by rewrite (cl_file _ _ C).
Qed.

Lemma attached m b : good (attach m b) → bank_step m (attach m b) (attach m b).
Proof. intros (B & _). by split. Qed.

Lemma step_launch regs trigger m sp :
  inv m sp → ∃ m', step (ELaunch regs trigger) m = Some m' ∧
    inv m' (spec_step (ELaunch regs trigger) sp).
Proof.
  intros I. cbn [step spec_step].
  assert (Honce : ∀ r, (occ r (RegAlloc.free (core m)) <= 1)%nat)
    by (intros r; pose proof (loan_once m sp r I); lia).
  destruct (created_ok true (core m) (o3 m) (core_classed m sp I) Honce) as [B Hh].
  destruct (launch_spec regs trigger _ B) as (ok & b & E & G & K & O & _ & Hc).
  pose proof (lists_launch _ _ _ _ E) as Hlists. cbn [snd] in Hlists.
  assert (BS : bank_step m (HelperRegs.create true (core m) (o3 m)) b) by by split; [| |apply G|..].
  rewrite E. cbn [mbind option_bind]. destruct ok.
  - eexists. split; [done|]. apply (bank_added m sp (Some b) _ b _ I BS Hh); [done|].
    intros c [= ->]. split_and!; [done|apply G..|exact Hc].
  - destruct (bank_dropped m _ b BS) as (b' & -> & BS' & Hh').
    cbn [mbind option_bind]. eexists. split; [done|].
    by apply (bank_added m sp None _ b' _ I BS' Hh).
Qed.

Lemma step_helper k o m sp :
  inv m sp → event_ok arch (EHelper k o) → ∃ m', step (EHelper k o) m = Some m' ∧
    inv m' (spec_step (EHelper k o) sp).
Proof.
  intros I Ho. cbn [step spec_step].
  assert (Hskip : (∀ b, helpers m !! k ≠ Some (Some b)) → inv m (alter (array_op o) k sp)).
  { intros Hno. pose proof (i_bank _ _ I) as Hb. split; [apply I|apply I| |].
    - rewrite length_alter. apply I.
    - intros j c Hj. assert (j ≠ k) as Hne by (intros ->; by destruct (Hno c)).
      rewrite list_lookup_alter_ne by done. by apply Hb. }
  destruct (helpers m !! k) as [[b|]|] eqn:Hk; [|by exists m; split; [|apply Hskip]..].
  destruct (i_bank _ _ I k b Hk) as [G (v & Hv & Hc)].
  assert (Hop : match o with OpCore _ _ => False | _ => True end) by by destruct o.
  destruct (op_spec o (attach m b) G) as (s' & E & G' & Hc' & Hko & _); [by destruct o|].
  assert (conserves (attach m b) s' ∧ outside (attach m b) s') as [K O] by by destruct o.
  rewrite E. cbn [mbind option_bind]. eexists. split; [done|].
  apply (bank_replaced m sp k b (Some s') s' _ I Hk); [|done|apply length_alter| |].
  - split; [done|done|apply G'|by apply (lists_op o)|done|done].
  - intros j Hj. by apply list_lookup_alter_ne.
  - intros c [= <-]. split_and!; [done|done|]. exists (array_op o v).
    split; [by rewrite list_lookup_alter_eq, Hv|].
    intros a l Ha Hl. rewrite Hc' by done.
    apply (array_run_ext [o] (λ a l, cell a l (attach m b)) v); [exact Hc|done|done].
Qed.

Lemma step_drop k m sp :
  inv m sp → ∃ m', step (EDrop k) m = Some m' ∧ inv m' sp.
Proof.
  intros I. cbn [step]. destruct (helpers m !! k) as [[b|]|] eqn:Hk; [|by exists m..].
  destruct (i_bank _ _ I k b Hk) as [G _].
  destruct (bank_dropped m _ _ (attached m b G)) as (s' & -> & B & Hh).
  cbn [mbind option_bind]. eexists. split; [done|].
  by apply (bank_replaced m sp k b None s' _ I Hk B Hh).
Qed.

Lemma machine_step_ok e m sp :
  inv m sp → event_ok arch e → ∃ m', step e m = Some m' ∧ inv m' (spec_step e sp).
Proof.
  intros I He. destruct e as [op|n evs|r v|regs trigger|k o|k].
  - destruct (step_core op m sp I He) as (s' & E & I'). cbn [step]. rewrite E. eauto.
  - cbn [step]. destruct (forallb _ _) eqn:Hh; [|eauto].
    destruct (step_session n evs m sp I He) as (s' & E & I').
    + apply Forall_forall. intros h Hin%list_elem_of_In.
      by apply Z.leb_le, (proj1 (forallb_forall _ _) Hh).
    + rewrite E. cbn [mbind option_bind]. eauto.
  - cbn [step]. case_bool_decide; [|eauto]. eexists. split; [done|]. by apply step_write.
  - by apply step_launch.
  - by apply step_helper.
  - by apply step_drop.
Qed.

Lemma machine_run_ok es m sp :
  inv m sp → Forall (event_ok arch) es → ∃ m', run es m = Some m' ∧ inv m' (spec_run es sp).
Proof.
  revert m sp. induction es as [|e es IH]; intros m sp I He; [by exists m|].
  apply Forall_cons in He as [He Hes]. destruct (machine_step_ok e m sp I He) as (m1 & E & I1).
  cbn [run]. rewrite E. cbn [mbind option_bind]. by apply IH.
Qed.

End Invariant.

(** ** Properties *)

(** C7: Helper programs and the main core do not disturb each other.  From power-on (no class with
    more architectural than physical registers, and the uninitialised usableForPRE flag of
    miscellaneous registers read as false), take any sequence of events on
    instructions whose registers exist: renames, squashes and commits
    of the main core, whole precise-runahead sessions, write-backs, and launches, single operations and
    ends of any number of helper programs.  A session from enterPRE to the squash after exitPRE is one
    event: no helper borrows or returns registers inside it (this file shows that such registers come
    out free while lent, or lost).  Then no assertion fails; after the sequence each physical
    register is in exactly one place, free, mapped, logged or lent to one program; and each program
    that is alive reads from its lanes what its own operations put there, as if it had an array of its
    own. *)
Theorem helpers_isolated garbage sizes arch entries early file es :
  (∀ c, (arch c <= sizes c)%nat) →
  (∀ x, classValue x = MiscRegClass → RegAlloc.usableForPRE (garbage x) = false) →
  Forall (event_ok arch) es →
  ∃ m, (m0 ← create garbage sizes arch entries early file; run es m0) = Some m ∧
    (let places := RegAlloc.free (core m) ++ RegAlloc.mapped (core m) ++
       RenameStage.logged (RenameStage.historyBuffer (stage m)) ++ lent m in
     places ≡ₚ RegAlloc.all_regs sizes ∧ NoDup places) ∧
    ∀ k b, helpers m !! k = Some (Some b) → conservationValid b = true ∧
      ∃ v, spec_run es [] !! k = Some v ∧
        ∀ a l, (a < NumArchitecturalRegs)%nat → (l < MaxLanes)%nat →
          (read a l (attach m b), readyAt a l (attach m b)) = v a l.
Proof.
  intros Ha Hg He.
  destruct (RenameStage.stage_create_ok sizes arch (λ _, false) garbage entries early Ha
    (RegAlloc.PhysRegFile_fixed _ _ Hg)) as (s & E & Hs & _ & Hq & _ & Hcm & Hcf).
  unfold create. rewrite E. cbn [mbind option_bind].
  assert (I0 : inv sizes arch (λ _, false) (mkMachine s file []) []) by by split; [|split|..].
  destruct (machine_run_ok sizes arch (λ _, false) (λ _ _, eq_refl) es _ _ I0 He) as (m & Er & I).
  exists m. split; [done|]. split.
  - cbn zeta. set (places := _ ++ _).
    assert (places ≡ₚ RegAlloc.all_regs sizes) as Hp.
    { apply occ_Permutation. intros x. unfold places, core.
      rewrite !occ_app, <- (RenameStage.ok_part _ _ _ _ _ (i_stage _ _ _ _ _ I) x). lia. }
    split; [done|]. rewrite Hp. apply RegAlloc.all_regs_NoDup.
  - intros k b Hk. destruct (i_bank _ _ _ _ _ I k b Hk) as [G (v & Hv & Hc)].
    split; [|by exists v]. change (conservationValid (attach m b) = true).
    by apply valid_state; apply G.
Qed.

(** ** Borrowing during a session

    The theorem above has whole sessions as events.  A bank that borrows or returns registers
    while precise runahead is active loses the accounting, because [exitPRE] restores the free
    list of the start. *)

(** A core with 40 integer registers, two of them architectural. *)
Definition small_core : option Machine :=
  create (λ _, RegAlloc.PhysInfo_init) (RenameStage.few 40) (RenameStage.few 2) 2 false ∅.

Definition launch_one (m : Machine) : option (Bank * Machine) :=
  '(_, b) ← launch (replicate NumArchitecturalRegs 9) 5 (HelperRegs.create true (core m) (o3 m));
  Some (b, detach b m).

Definition in_stage (f : RenameStage.Stage → option RenameStage.Stage) (m : Machine)
  : option Machine := s ← f (stage m); Some (m <| stage := s |>).

(** Registers borrowed inside a session are free again after it, and still lent: all 31. *)
Lemma borrowed_in_PRE_are_free :
  (m ← small_core; m ← in_stage RenameStage.enterPRE m; '(b, m) ← launch_one m;
   m ← in_stage RenameStage.exitPRE m;
   Some (length (filter (λ r, r ∈ RegAlloc.free (core m)) (held b)))) = Some 31%nat.
Proof. by vm_compute. Qed.

(** Registers returned inside a session are lost after it: of 40, 9 are left. *)
Lemma returned_in_PRE_are_lost :
  (m ← small_core; '(b, m) ← launch_one m; m ← in_stage RenameStage.enterPRE m;
   b ← releaseAll (attach m b); m ← in_stage RenameStage.exitPRE (detach b m);
   Some (held b, length (RegAlloc.free (core m) ++ RegAlloc.mapped (core m)))) = Some ([], 9%nat).
Proof. by vm_compute. Qed.

(** ** Witnesses *)

Definition example : list Event :=
  [ECore (RenameStage.Rename (RenameStage.mv 1)); ELaunch (replicate NumArchitecturalRegs 9) 5;
   ECore (RenameStage.Rename (RenameStage.mv 2)); EWrite (mkRegId IntRegClass 1) 4;
   EHelper 0 (OpWrite 5 3 7 0); ESession 2 []; ECore (RenameStage.Commit 1);
   ELaunch (replicate NumArchitecturalRegs 1) 6; EDrop 1; ECore (RenameStage.Squash 1)].

Lemma example_first :
  ((m0 ← small_core; run example m0) ≫= λ m,
     match helpers m !! 0%nat with Some (Some _) => Some tt | _ => None end) = Some tt.
Proof. by vm_compute. Qed.

Lemma helpers_isolated_witness :
  ∃ m b, (m0 ← create (λ _, RegAlloc.PhysInfo_init) (RenameStage.few 40) (RenameStage.few 2) 2
            false ∅; run example m0) = Some m ∧
    helpers m !! 0%nat = Some (Some b) ∧
    read 5 3 (attach m b) = 7 ∧ read 5 2 (attach m b) = 9 ∧
    Forall (event_ok (RenameStage.few 2)) example ∧
    NoDup (RegAlloc.free (core m) ++ RegAlloc.mapped (core m) ++
       RenameStage.logged (RenameStage.historyBuffer (stage m)) ++ lent m).
Proof.
  assert (He : Forall (event_ok (RenameStage.few 2)) example).
  { RenameStage.each ltac:(first [apply RenameStage.mv_ok|exact I|constructor]). }
  destruct (helpers_isolated (λ _, RegAlloc.PhysInfo_init) (RenameStage.few 40)
    (RenameStage.few 2) 2 false ∅ example (λ c, RenameStage.few_le 2 40 c ltac:(lia))
    (λ _ _, eq_refl) He) as (m & E & [_ Hnd] & Hb).
  pose proof example_first as H. change ((m0 ← small_core; run example m0) = Some m) in E.
  rewrite (HelperBank.bind_Some_eq _ _ _ E) in H. cbn beta in H.
  destruct (helpers m !! 0%nat) as [[b|]|] eqn:Hk; [|discriminate H..]. exists m, b.
  destruct (Hb 0%nat b Hk) as (_ & v & Hv & Hr).
  assert (H5 : (5 < NumArchitecturalRegs)%nat) by (unfold NumArchitecturalRegs; lia).
  assert (H3 : (3 < MaxLanes)%nat) by (unfold MaxLanes; lia).
  assert (H2 : (2 < MaxLanes)%nat) by (unfold MaxLanes; lia).
  pose proof (Hr 5%nat 3%nat H5 H3) as R3. pose proof (Hr 5%nat 2%nat H5 H2) as R2.
  injection Hv as <-. injection R3 as R3 _. injection R2 as R2 _.
  split_and!; [exact E|done|exact R3|exact R2|exact He|exact Hnd].
Defined.

End Interplay.
