(* ===== verification/Simt.v ===== *)
(** * The SIMT issue of the helper's lanes

    Model of [CPU::issueDVRReplayLanes] and [CPU::issueDVRHelperCompute] (src/cpu/o3/cpu.cc):
    in each cycle the lanes of one group that stand at the same PC, up to eight of one vector
    copy, execute the uop of their replay template.  A branch on which the lanes disagree splits
    the group: the paths that are not selected wait in the frames of the group's reconvergence
    stack.  The phases of the C++ function are the definitions below, in its order; counters,
    traces and the debug blocks for one address are left out.  The register banks enter through
    the interface [VectorBank], the instruction cache and the functional units through the
    arguments [decoded] and [grant]. *)

From stdpp Require Import gmap relations.
From S2P Require Import Prelude Inst Uop Recorder Generation Relation Replay Helper Lanes.
From S2P Require Import PrefetchQueue Prefetch HelperRegs HelperBank VirBuffer.

Module Simt.
Import Uop Helper Lanes PrefetchQueue Prefetch VirBuffer.

(** [ReplayReconvergenceState::Entries] *)
Definition Entries : nat := 8.
#[global] Arguments Entries : simpl never.

(** The parameters of the vector unit. *)
Record FU := mkFU { unlimited : bool;  issue_interval : nat;  period : Z }.

(** The members of the CPU the issue meets. *)
Record St {B : Type} := mkSt { sys : Sys B;  vir : Vir;  vectorNextIssueTick : Z }.
#[global] Arguments St : clear implicits.
#[export] Instance eta_St {B} : Eta (St B) := λ r, mkSt _ (sys r) (vir r) (vectorNextIssueTick r).

(** The lanes of a branch by successor: [branch_next_pc] where it is valid, the groups in the
    order of their first lane, the group of the seed, and [branch_outcomes_complete]. *)
Record Path := mkPath { p_pc : Z;  p_taken : bool;  p_mask : LaneMask }.
#[export] Instance eta_Path : Eta Path := λ r, mkPath (p_pc r) (p_taken r) (p_mask r).
#[export] Instance Path_inhabited : Inhabited Path := populate (mkPath 0 false mask_empty).
Record Split := mkSplit {
  s_outcomes : gmap nat Z;  s_paths : list Path;  s_selected : nat;  s_complete : bool
}.

#[export] Instance Lane_inhabited : Inhabited Lane :=
  populate (mkLane 0 0 [] [] None Relation.Paths_init 0 0 0 0 0 0 false 0 0 false 0 false Live 0 false false).

Section simt.
Context {B : Type} `{VectorBank B} (cfg : Config) (fu : FU) (templates : nat → Replay.Template).
Implicit Types (l : Lane) (ls : list Lane) (bs : gmap nat B) (g : Group) (e : Engine B) (s : St B).

(** ** Lanes and groups *)

Definition elanes e : list Lane := replayLanes (thread e).
Definition set_elanes ls e : Engine B := e <| thread ::= λ h, h <| replayLanes := ls |> |>.
Definition group_of (bid : nat) e : Group := default Group_init (groups e !! bid).
Definition set_group (bid : nat) g e : Engine B := e <| groups ::= <[bid := g]> |>.

Definition uop_of l : Uop := Replay.uop_at (templates (l_program l)) (l_uopIndex l).

(** [findPC]; the C++ lambda returns the largest [unsigned] when it finds nothing. *)
Definition findPC (t : Replay.Template) (pc : Z) : option nat :=
  if pc =? 0 then None else Replay.find_uop t pc.

(** An index of no uop where nothing is found. *)
Definition index_of (t : Replay.Template) (pc : Z) : nat := default (Replay.count t) (findPC t pc).

Definition ended (why : Termination) l : Lane := l <| l_active := false |> <| l_termination := why |>.

(** [laneSourcesReady] *)
Definition source_ready (now : Z) bs l (r : Z) : bool :=
  negb (tracked r)
  || (match bs !! l_bank l with
      | Some b => bank_readyAt (Z.to_nat r) (l_lane l) b
      | None => l_ready l !!! Z.to_nat r
      end <=? now).

Definition laneSourcesReady (now : Z) bs l : bool :=
  (l_uopIndex l <? Replay.count (templates (l_program l)))%nat
  && source_ready now bs l (source0 (uop_of l)) && source_ready now bs l (source1 (uop_of l)).

(** A lane of the group that may run. *)
Definition runs (bid : nat) l : bool := l_active l && (l_bank l =? bid)%nat && negb (l_blocked l).

Definition mask_of (p : Lane → bool) ls : LaneMask :=
  foldl (λ m l, if p l then mask_set m (l_lane l) else m) mask_empty ls.

(** [refreshCurrentGroup] *)
Definition refreshCurrentGroup (bid : nat) ls g : Group :=
  let preferred := if currentValid g then currentPC g else 0 in
  let kept := mask_of (λ l, runs bid l && (l_pc l =? preferred)
                            && mask_test (currentMask g) (l_lane l)) ls in
  if negb (preferred =? 0) && mask_any kept
  then g <| currentPC := preferred |> <| currentMask := kept |> <| currentValid := true |>
  else
    let pc := match list_find (λ l, runs bid l = true ∧ l_pc l ≠ 0) ls with
              | Some (_, l) => l_pc l
              | None => 0
              end in
    g <| currentPC := pc |> <| currentValid := negb (pc =? 0) |>
      <| currentMask := mask_of (λ l, runs bid l && negb (l_pc l =? 0) && (l_pc l =? pc)) ls |>.

(** ** Reconvergence *)

(** [at_reconvergence || !current_path_active] for the top frame. *)
Definition path_ended (bid : nat) (f : Frame) ls : bool :=
  existsb (λ l, runs bid l && (l_pc l =? f_reconvergencePC f)) ls
  || negb (existsb (λ l, runs bid l && negb (mask_test (f_mask f) (l_lane l))) ls).

(** The context whose current path has ended, or else the first one with a ready lane. *)
Definition context_ended e l : bool :=
  l_active l && match stack (group_of (l_bank l) e) with
                | f :: _ => path_ended (l_bank l) f (elanes e)
                | [] => false
                end.

Definition context_ready (now : Z) e l : bool :=
  l_active l && negb (l_blocked l) && laneSourcesReady now (banks e) l.

Definition choose_context (now : Z) e : option nat :=
  match list_find (λ l, context_ended e l = true) (elanes e) with
  | Some (_, l) => Some (l_bank l)
  | None => (λ x, l_bank x.2) <$> list_find (λ l, context_ready now e l = true) (elanes e)
  end.

(** A frame is popped: the lanes of its mask go on at its PC, those at the join wait. *)
Definition pop_lane (bid : nat) (f : Frame) l : Lane :=
  if l_active l && (l_bank l =? bid)%nat then
    if mask_test (f_mask f) (l_lane l)
    then l <| l_blocked := false |> <| l_pc := f_pc f |>
           <| l_simtPath := if f_takenPath f then 1 else 2 |> <| l_simtDivergent := true |>
    else if l_pc l =? f_reconvergencePC f then l <| l_blocked := true |> else l
  else l.

Fixpoint pop_loop (bid : nat) (frames : list Frame) ls g : list Lane * Group :=
  match frames with
  | [] => (ls, g <| stack := [] |>)
  | f :: below =>
      if path_ended bid f ls
      then pop_loop bid below (pop_lane bid f <$> ls)
             (g <| currentPC := f_pc f |> <| currentMask := f_mask f |>
                <| currentValid := negb (f_pc f =? 0) |>)
      else (ls, g <| stack := frames |>)
  end.

(** Lanes of a group without frames are no longer divergent. *)
Definition converge (bid : nat) l : Lane :=
  if runs bid l && negb (l_continuePastFLR l)
  then l <| l_simtDivergent := false |> <| l_simtPath := 0 |> else l.

(** The choice of the group and its pops. *)
Definition reconverge (now : Z) e : Engine B * option nat :=
  match choose_context now e with
  | None => (e, None)
  | Some bid =>
      let g := refreshCurrentGroup bid (elanes e) (group_of bid e) in
      let '(ls, g) := pop_loop bid (stack g) (elanes e) g in
      let '(ls, g) := match stack g with
                      | [] => (converge bid <$> ls, g <| renamedDestinations := ∅ |>)
                      | _ => (ls, g)
                      end in
      (set_group bid g (set_elanes ls e), Some bid)
  end.

(** ** Selection of the issue group *)

(** [inCurrentGroup] *)
Definition in_group (ctx : option nat) e l : bool :=
  match ctx with
  | Some bid =>
      let g := group_of bid e in
      currentValid g && runs bid l && (l_pc l =? currentPC g) && mask_test (currentMask g) (l_lane l)
  | None => false
  end.

(** Uops the helper steps over before they take a slot. *)
Definition stateless (u : Uop) : bool :=
  bool_decide (semantic u = Unsupported) && negb (control u) && (intDestinations u =? 0).

Fixpoint skip_stateless (n k : nat) l : nat * Lane :=
  let t := templates (l_program l) in
  match n with
  | O => (k, l)
  | S n =>
      if negb (stateless (Replay.uop_at t k)) then (k, l)
      else
        let l := l <| l_helperUops ::= S |> in
        if (budget cfg <=? l_helperUops l)%nat || (Replay.count t <=? S k)%nat
        then (k, l <| l_active := false |>)
        else skip_stateless n (S k) (l <| l_pc := Uop.pc (Replay.uop_at t (S k)) |>)
  end.

Definition copy_of l : nat := (l_lane l / LanesPerVIRCopy)%nat.

(** One lane of the loop; the flag tells that it may join the issue group. *)
Definition visit (now : Z) (ctx : option nat) e (copies : list CopyState) l : Lane * bool :=
  let count := Replay.count (templates (l_program l)) in
  if negb (l_active l) || (count <=? l_uopIndex l)%nat then (l, false)
  else if (budget cfg <=? l_helperUops l)%nat then (ended Timeout l, false)
  else if negb (in_group ctx e l) then (l, false)
  else match findPC (templates (l_program l)) (l_pc l) with
       | None => (l <| l_active := false |>, false)
       | Some k =>
           let '(k, l) := skip_stateless (count - k) k l in
           if negb (l_active l) then (l, false)
           else
             let l := l <| l_uopIndex := k |> in
             (l, laneSourcesReady now (banks e) l && (copy_of l <? VIRCopies)%nat
                 && negb (c_issued (copies !!! copy_of l)))
       end.

(** A lane that issues with the seed. *)
Definition matches (seed l : Lane) : bool :=
  (l_program l =? l_program seed)%nat && (l_bank l =? l_bank seed)%nat
  && (l_uopIndex l =? l_uopIndex seed)%nat && (copy_of l =? copy_of seed)%nat
  && (Uop.pc (uop_of l) =? Uop.pc (uop_of seed)).

(** The loop over the lanes from position [i] on, with the seed and the positions found so far. *)
Fixpoint select (now : Z) (ctx : option nat) e (copies : list CopyState) (i : nat)
    (seed : option Lane) (group : list nat) (rest : list Lane) : list Lane * list nat :=
  match rest with
  | [] => ([], group)
  | l :: rest =>
      let '(l, ok) := visit now ctx e copies l in
      if ok && match seed with Some x => matches x l | None => true end then
        let group := group ++ [i] in
        if (length group =? LanesPerVIRCopy)%nat then (l :: rest, group)
        else
          let '(rest, group) := select now ctx e copies (S i) (Some (default l seed)) group rest in
          (l :: rest, group)
      else
        let '(rest, group) := select now ctx e copies (S i) seed group rest in
        (l :: rest, group)
  end.

(** ** Branches *)

(** A source of a lane; registers outside the tracked file read as zero. *)
Definition operand bs l (r : Z) : Z :=
  if tracked r then
    match bs !! l_bank l with
    | Some b => bank_read (Z.to_nat r) (l_lane l) b
    | None => l_regs l !!! Z.to_nat r
    end
  else 0.

(** Direction and successor; [None] is a branch that cannot be evaluated. *)
Definition branch_next bs l : option (bool * Z) :=
  let u := uop_of l in
  (λ taken : bool, (taken, if taken then branchTargetPC u else fallthroughPC u)) <$>
  (if tainted u then evaluateBranch u (operand bs l (source0 u)) (operand bs l (source1 u))
   else Some (branchTaken u)).

(** The lanes a branch is evaluated for. *)
Definition candidate (ctx : option nat) e (seed l : Lane) : bool :=
  in_group ctx e l && (l_program l =? l_program seed)%nat && (l_uopIndex l =? l_uopIndex seed)%nat.

(** The lane's path is the one with its successor. *)
Definition add_outcome (lane : nat) (taken : bool) (next : Z) (ps : list Path) : list Path :=
  match list_find (λ p : Path, p_pc p = next) ps with
  | Some (k, p) => <[k := p <| p_mask ::= λ m, mask_set m lane |>]> ps
  | None => ps ++ [mkPath next taken (mask_set mask_empty lane)]
  end.

Definition outcome_step bs (acc : gmap nat Z * list Path) l : gmap nat Z * list Path :=
  match branch_next bs l with
  | Some (taken, next) => (<[l_lane l := next]> acc.1, add_outcome (l_lane l) taken next acc.2)
  | None => acc
  end.

(** The evaluation for the whole group; [None] returns 0 for lack of a lane or of an operand. *)
Definition split_branch (now : Z) (ctx : option nat) e (seed : Lane) : option Split :=
  if conditional (uop_of seed) then
    let cs := filter (λ l, candidate ctx e seed l = true) (elanes e) in
    if (length cs =? 0)%nat || negb (forallb (laneSourcesReady now (banks e)) cs) then None
    else
      let '(out, ps) := foldl (outcome_step (banks e)) (∅, []) cs in
      let sel := if candidate ctx e seed seed
                 then match branch_next (banks e) seed with
                      | Some (_, next) => default 0%nat (fst <$> list_find (λ p : Path, p_pc p = next) ps)
                      | None => 0%nat
                      end
                 else 0%nat in
      Some (mkSplit out ps sel (forallb (λ l, bool_decide (is_Some (out !! l_lane l))) cs))
  else Some (mkSplit ∅ [] 0 true).

(** ** Commit of a branch *)

(** A lane takes its successor. *)
Definition commit_lane (u : Uop) (branch_groups : nat) (next : Z) l : Lane :=
  let l := l <| l_pc := next |> <| l_helperUops ::= S |> in
  if next =? 0 then ended External l
  else
    let loop_backedge := negb (branchTargetPC u =? 0) && (branchTargetPC u <? Uop.pc u) in
    let at_lcr := l_continuePastFLR l && negb (l_loopControlPC l =? 0)
                  && (Uop.pc u =? l_loopControlPC l) in
    if ((next =? l_stridePC l) || (l_continuePastFLR l && (loop_backedge || at_lcr)))
       && (l_simtDivergent l || (1 <? branch_groups)%nat || l_continuePastFLR l)
    then ended StridePC l
    else match findPC (templates (l_program l)) next with
         | None => ended External l
         | Some k =>
             let l := l <| l_uopIndex := k |> in
             if (budget cfg <=? l_helperUops l)%nat then ended Timeout l else l
         end.

(** One lane of the loop.  The index of the seed, at position [k], is read each time, also after
    the seed has moved. *)
Definition commit_at (ctx : option nat) (u : Uop) (sp : Split) (k i : nat) ls : list Lane :=
  let l : Lane := ls !!! i in
  let seed : Lane := ls !!! k in
  if l_active l && bool_decide (ctx = Some (l_bank l)) && (l_program l =? l_program seed)%nat
     && (l_uopIndex l =? l_uopIndex seed)%nat
  then match s_outcomes sp !! l_lane l with
       | Some next => <[i := commit_lane u (length (s_paths sp)) next l]> ls
       | None => ls
       end
  else ls.

Definition commit_branch (ctx : option nat) (u : Uop) (sp : Split) (k : nat) ls : list Lane :=
  for_range 0 (length ls) (commit_at ctx u sp k) ls.

(** A path that is not selected: a frame, or the end of its lanes where the stack is full. *)
Definition on_path (bid : nat) (p : Path) (f : Lane → Lane) l : Lane :=
  if (l_bank l =? bid)%nat && mask_test (p_mask p) (l_lane l) then f l else l.

Definition push_path (bid : nat) (join : Z) (sel p : Path) (acc : list Lane * Group) : list Lane * Group :=
  let '(ls, g) := acc in
  if (Entries <=? length (stack g))%nat then (on_path bid p (ended External) <$> ls, g)
  else (on_path bid p (λ l, l <| l_blocked := true |>) <$> ls,
        g <| stack ::= λ fs, mkFrame (p_pc sel) (p_mask sel) join (p_pc p) (p_mask p) true (p_taken p) :: fs |>).

(** The paths are pushed from the last to the first, the selected one excepted. *)
Definition push_paths (bid : nat) (join : Z) (sp : Split) (acc : list Lane * Group) : list Lane * Group :=
  let ps := s_paths sp in
  foldr (λ k acc, if (k =? s_selected sp)%nat then acc
                  else push_path bid join (ps !!! s_selected sp) (ps !!! k) acc)
        acc (seq 0 (length ps)).

(** The paths' tags. *)
Definition tag_lane (bid : nat) (sp : Split) l : Lane :=
  if l_active l && (l_bank l =? bid)%nat then
    match s_outcomes sp !! l_lane l with
    | Some next =>
        let taken := match list_find (λ p : Path, p_pc p = next) (s_paths sp) with
                     | Some (_, p) => p_taken p
                     | None => false
                     end in
        let l := l <| l_simtPath := if taken then 1 else 2 |> in
        if (1 <? length (s_paths sp))%nat then l <| l_simtDivergent := true |> else l
    | None => l
    end
  else l.

(** The commit of the branch at [u] for the whole group of the seed at position [k]. *)
Definition commit_split (bid : nat) (u : Uop) (sp : Split) (k : nat) e : Engine B :=
  if conditional u && s_complete sp then
    let ls := commit_branch (Some bid) u sp k (elanes e) in
    let g := group_of bid e in
    let '(ls, g) :=
      if (1 <? length (s_paths sp))%nat && negb (reconvergencePC u =? 0)
      then let '(ls, g) := push_paths bid (reconvergencePC u) sp (ls, g) in
           (ls, refreshCurrentGroup bid ls g)
      else (ls, g) in
    set_group bid g (set_elanes (tag_lane bid sp <$> ls) e)
  else e.

(** ** The copy in the VIR *)

(** The names a lane reads are held. *)
Definition hold_lane (u : Uop) (acc : (list (option nat) * list (option nat)) * B) (lane : nat)
    : (list (option nat) * list (option nat)) * B :=
  let '((n0, n1), b) := acc in
  let name r := if 0 <=? r then bank_name (Z.to_nat r) lane b else None in
  ((n0 ++ [name (source0 u)], n1 ++ [name (source1 u)]),
   bank_retain (name (source1 u)) (bank_retain (name (source0 u)) b)).

Definition hold_names (u : Uop) (lanes : list nat) (b : option B)
    : (list (option nat) * list (option nat)) * option B :=
  match b with
  | Some b => let '(names, b) := foldl (hold_lane u) (([], []), b) lanes in (names, Some b)
  | None => ((replicate (length lanes) None, replicate (length lanes) None), None)
  end.

(** The dynamic uop of the lanes at the positions [group], the first the seed's. *)
Definition make_uop (u : Uop) (seed : Lane) (lanes : list nat) (names : list (option nat) * list (option nat))
    (now ready_tick : Z) : DynUop :=
  mkDynUop (l_program seed) (l_bank seed) (l_uopIndex seed) (source0 u) (source1 u) (destination u)
    (Uop.pc u) (copy_of seed) (foldl mask_set mask_empty lanes) lanes names.1 names.2
    mask_empty mask_empty now ready_tick VirBuffer.Ready.

(** The uop enters the VIR and the helper spends a credit; [None] is a failed assertion. *)
Definition issue_group (u : Uop) (group : list nat) (now ready_tick : Z) s : option (St B) :=
  let e := engine (sys s) in
  let members := (λ i, elanes e !!! i) <$> group in
  let seed := default inhabitant (head members) in
  let lanes := l_lane <$> members in
  let '(names, b) := hold_names u lanes (banks e !! l_bank seed) in
  h ← issueReplayChunk ready_tick (thread e);
  let e := e <| banks ::= λ bs, match b with Some b => <[l_bank seed := b]> bs | None => bs end |>
             <| thread := h |> in
  Some (s <| vir ::= issue_copy (make_uop u seed lanes names now ready_tick) |>
          <| sys ::= λ y, y <| engine := e |> <| slots ::= λ c, c <| helper_compute ::= S |> |> |>).

(** ** Renaming of the destination *)

(** The lanes that stand at the uop on the seed's path, or else those that issue. *)
Definition rename_mask (bid : nat) (u : Uop) (seed : Lane) (lanes : list nat) ls : LaneMask :=
  let m := mask_of (λ l, runs bid l && (l_program l =? l_program seed)%nat
                         && (l_uopIndex l =? l_uopIndex seed)%nat && (l_pc l =? Uop.pc u)
                         && (l_simtPath l =? l_simtPath seed)) ls in
  if mask_any m then m else foldl mask_set mask_empty lanes.

Definition rename_key (u : Uop) (seed : Lane) (m : LaneMask) : Z :=
  let mask_hash := Z.lxor m.1 (Z.lor (u64 (Z.shiftl m.2 17)) (Z.shiftr m.2 47)) in
  Z.lxor (Z.lxor (Z.lxor (u64 (Z.shiftl (Uop.pc u) 8)) (Z.land (destination u) 255)) mask_hash)
         (u64 (Z.shiftl (l_simtPath seed) 56)).

Definition reads_vector (u : Uop) (b : B) (lane : nat) : bool :=
  ((0 <=? source0 u) && bank_vectorized_lane (Z.to_nat (source0 u)) lane b)
  || ((0 <=? source1 u) && bank_vectorized_lane (Z.to_nat (source1 u)) lane b).

(** The lanes at the positions [group] stop. *)
Definition deactivate (group : list nat) ls : list Lane :=
  foldl (λ ls i, alter (λ l : Lane, l <| l_active := false |>) i ls) ls group.

(** The destination gets new names: vector ones if a source has them or the lanes diverge, a
    scalar one if it has vector names already; once for each key of the group. *)
Definition rename_destination (bid : nat) (u : Uop) (group : list nat) (ev : Engine B * Vir)
    : option (Engine B * Vir) :=
  let '(e, v) := ev in
  let members := (λ i, elanes e !!! i) <$> group in
  let seed := default inhabitant (head members) in
  let lanes := l_lane <$> members in
  let d := Z.to_nat (destination u) in
  match banks e !! l_bank seed with
  | Some b =>
      let vectorized := bank_vectorized d b in
      let vector_destination :=
        (existsb (reads_vector u b) lanes || existsb l_simtDivergent members) && negb vectorized in
      let m := rename_mask bid u seed lanes (elanes e) in
      let g := group_of bid e in
      if (0 <? destination u) && (destination u <? Replay.MaxRegs)
         && (vector_destination || vectorized)
         && negb (bool_decide (rename_key u seed m ∈ renamedDestinations g))
      then
        '(ok, b') ← (if vector_destination then bank_rename_vector d m b else bank_rename_scalar d m b);
        let e := set_group bid (g <| renamedDestinations ::= λ ks, {[rename_key u seed m]} ∪ ks |>) e in
        let e := e <| banks ::= λ bs, <[l_bank seed := b']> bs |> in
        Some (if (ok : bool)
              then (e, markDeadSources (l_bank seed)
                         (filter (λ p, p ∉ bank_names d b') (bank_names d b)) v)
              else (set_elanes (deactivate group (elanes e)) e, v))
      else Some ev
  | None => Some ev
  end.

(** ** Execution *)

Definition set_lane (i : nat) l (y : Sys B) : Sys B :=
  y <| engine ::= λ e, set_elanes (<[i := l]> (elanes e)) e |>.

Definition executingAlternatePath e l : bool :=
  existsb f_alternatePath (stack (group_of (l_bank l) e)).

(** The PC of the next uop of the template. *)
Definition next_pc l : Z :=
  let t := templates (l_program l) in
  if (S (l_uopIndex l) <? Replay.count t)%nat then Uop.pc (Replay.uop_at t (S (l_uopIndex l))) else 0.

(** A lane without a successor, or at the end of its budget, ends. *)
Definition spent l : bool := (l_pc l =? 0) || (budget cfg <=? l_helperUops l)%nat.
Definition end_spent l : Lane :=
  ended (if (budget cfg <=? l_helperUops l)%nat then Timeout else External) l.

(** A load that does not depend on the trigger is stepped over. *)
Definition skip_load l : Lane :=
  let l := l <| l_pc := next_pc l |> <| l_uopIndex := index_of (templates (l_program l)) (next_pc l) |>
             <| l_helperUops ::= S |> in
  if spent l then end_spent l else l.

(** [relation_match]; the products of the relation wrap as the compiled code does. *)
Definition relation_match (y : Sys B) l (u : Uop) (a : Z) : bool :=
  let t := templates (l_program l) in
  match Relation.relations (tabs y) !! (l_triggerPC l, Uop.pc u) with
  | Some r =>
      if Relation.trained r then
        let trigger_value := operand (banks (engine y)) l (Replay.triggerDestination t) in
        let in_range := (Relation.minAddress r <=? a) && (a <=? Relation.maxAddress r) in
        ((Z.land trigger_value (Relation.stableMask r)
            =? Z.land (Relation.pattern r) (Relation.stableMask r))
         && (s64 (Relation.scale r * s64 trigger_value + Relation.offset r) =? s64 a) && in_range)
        || (Replay.valid t && in_range)
      else true
  | None => true
  end.

(** A dependent load: its address is queued and the lane ends or waits for the value. *)
Definition reach_load (ready_tick : Z) (i : nat) l (u : Uop) (a : Z) (y : Sys B) : Sys B :=
  if (a =? 0) || (2 ^ 47 <=? a) then set_lane i (ended External l) y
  else if negb (relation_match y l u a) then set_lane i (ended External l) y
  else if negb (dependent_prefetch cfg) then set_lane i (ended FLR l) y
  else if negb (Replay.queueable a) then set_lane i (ended External l) y
  else
    let queued := (l_continuePastFLR l || negb (line_known (Prefetch.line cfg a) (mem y)))
                  && negb (full (mem y)) in
    let y := push_lane_target cfg l (Uop.pc u) a ready_tick y in
    let y := if queued && (alternatePath u || executingAlternatePath (engine y) l)
             then y <| alternateLines ::= λ lines, {[Prefetch.line cfg a]} ∪ lines |> else y in
    set_lane i (if l_continuePastFLR l then l <| l_pc := 0 |> else ended FLR l) y.

(** The result is written to the bank and to the context. *)
Definition write_result (u : Uop) (v ready_tick : Z) l : Lane :=
  let l := if tracked (destination u)
           then l <| l_regs ::= <[Z.to_nat (destination u) := v]> |>
                  <| l_ready ::= <[Z.to_nat (destination u) := ready_tick]> |>
           else l in
  l <| l_regs ::= <[0%nat := 0]> |>.

Definition successor_pc (u : Uop) l : Z :=
  if alternatePath u && negb (alternateResumePC u =? 0) then alternateResumePC u
  else if control u && negb (conditional u) && negb (branchTargetPC u =? 0) then branchTargetPC u
  else next_pc l.

Definition step_value (u : Uop) (v ready_tick : Z) l : Lane :=
  let pc := successor_pc u l in
  let l := (write_result u v ready_tick l) <| l_helperUops ::= S |> <| l_pc := pc |> in
  if spent l then end_spent l else l <| l_uopIndex := index_of (templates (l_program l)) (l_pc l) |>.

(** The uop a lane of the group stands at, after the commit of a branch its successor. *)
Definition exec_lane (ready_tick : Z) (y : Sys B) (i : nat) : Sys B :=
  let l := elanes (engine y) !!! i in
  let u := uop_of l in
  let bs := banks (engine y) in
  if conditional u then y
  else
    match evaluate u (operand bs l (source0 u)) (operand bs l (source1 u)) with
    | None => set_lane i (ended External l) y
    | Some v =>
        if load u then
          if tainted u then reach_load ready_tick i l u v y else set_lane i (skip_load l) y
        else
          let y := if tracked (destination u)
                   then y <| engine ::= λ e, e <| banks ::=
                          alter (bank_write (Z.to_nat (destination u)) (l_lane l) v ready_tick) (l_bank l) |> |>
                   else y in
          set_lane i (step_value u v ready_tick l) y
    end.

(** ** The issue *)

Definition on_engine (f : Engine B → Engine B) s : St B := s <| sys ::= λ y, y <| engine ::= f |> |>.

(** The lanes the function drops at its start, and at its end. *)
Definition purge e : Engine B :=
  set_elanes (filter (λ l, l_active l && (l_uopIndex l <? Replay.count (templates (l_program l)))%nat = true)
                     (elanes e)) e.
Definition retire_terminated e : Engine B :=
  set_elanes (filter (λ l, l_active l = true) (elanes e)) e.

Definition refresh (bid : nat) e : Engine B :=
  set_group bid (refreshCurrentGroup bid (elanes e) (group_of bid e)) e.

(** A group that has its instruction and its unit: commit, VIR, rename and execution. *)
Definition issue_admitted (now ready_tick : Z) (bid : nat) (group : list nat) (u : Uop) (sp : Split) s
    : option (St B) :=
  let s := on_engine (commit_split bid u sp (default 0%nat (head group))) s in
  s ← issue_group u group now ready_tick s;
  '(e, v) ← rename_destination bid u group (engine (sys s), vir s);
  let y := foldl (exec_lane ready_tick) ((sys s) <| engine := e |>) group in
  Some (s <| vir := v |> <| sys := y <| engine ::= λ e, refresh bid (retire_terminated e) |> |>).

(** The instruction cache and the functional unit; [grant] is the latency of a granted request. *)
Definition admission (now : Z) (decoded : bool) (grant : option nat) (bid : nat) (group : list nat)
    (u : Uop) (sp : Split) s : option (St B * nat) :=
  if negb decoded then Some (s, 0%nat)
  else
    let s := on_engine (λ e, e <| thread ::= retireFrontend (Uop.pc u) |>) s in
    if negb (unlimited fu) && (now <? vectorNextIssueTick s) then Some (s, 0%nat)
    else match (if unlimited fu then Some 1%nat else grant) with
         | None => Some (s, 0%nat)
         | Some latency =>
             s ← issue_admitted now (now + Z.of_nat latency * period fu) bid group u sp s;
             Some (if unlimited fu then s
                   else s <| vectorNextIssueTick := now + Z.max 1 (Z.of_nat (issue_interval fu)) * period fu |>,
                   1%nat)
         end.

(** [issueDVRReplayLanes]: the new state and the result; [None] is a failed assertion. *)
Definition issueDVRReplayLanes (now : Z) (slots : nat) (decoded : bool) (grant : option nat) s
    : option (St B * nat) :=
  if negb (vector_chunks cfg) || (slots =? 0)%nat || (length (elanes (engine (sys s))) =? 0)%nat
     || (VIRCapacity <=? length (virBuffer (vir s)))%nat then Some (s, 0%nat)
  else
    let s := on_engine purge s in
    let e := engine (sys s) in
    if (length (elanes e) =? 0)%nat || (readyUops (thread e) =? 0)%nat then Some (s, 0%nat)
    else
      let '(e, ctx) := reconverge now e in
      let '(ls, group) := select now ctx e (virCopies (vir s)) 0 None [] (elanes e) in
      let e := set_elanes ls e in
      match ctx, group with
      | Some bid, k :: _ =>
          let seed := ls !!! k in
          let s := on_engine (λ _, e) s in
          match split_branch now ctx e seed with
          | None => Some (s, 0%nat)
          | Some sp => admission now decoded grant bid group (uop_of seed) sp s
          end
      | _, _ => Some (on_engine (λ _, retire_terminated e) s, 0%nat)
      end.

(** ** The helper's compute slots *)

(** [issue_class]: the requests still to issue, the slots and the issued ones. *)
Fixpoint issue_class (grants : list bool) (remaining slots : nat) : list bool * nat * nat :=
  match slots, remaining with
  | S slots', S remaining' =>
      match grants with
      | true :: grants => issue_class grants remaining' slots'
      | _ => (tail grants, remaining, slots)
      end
  | _, _ => (grants, remaining, slots)
  end.

(** The slots the main pipeline and the helper's memory requests leave. *)
Definition compute_slots (c : Slots) : nat :=
  let width := if decoupled cfg then DvrHelperIssueWidth else (issue_width cfg - main_issues c)%nat in
  (width - helper_issues c)%nat.

(** The issue-queue path, for a helper without replay lanes. *)
Definition issue_queued (now : Z) (grant : option nat) s : option (St B * nat) :=
  h ← refillIssueQueue (thread (engine (sys s)));
  let s := on_engine (λ e, e <| thread := h |>) s in
  if (length (issueQueue h) =? 0)%nat || (readyUops h =? 0)%nat || negb (issueQueueReady now h)
  then Some (s, 0%nat)
  else if negb (unlimited fu) && (now <? vectorNextIssueTick s) then Some (s, 0%nat)
  else match (if unlimited fu then Some 1%nat else grant) with
       | None => Some (s, 0%nat)
       | Some latency =>
           h ← issueCompute (now + Z.of_nat latency * period fu) h;
           let s := on_engine (λ e, e <| thread := h |>) s in
           let s := s <| sys ::= λ y, y <| Prefetch.slots ::= λ c, c <| helper_compute ::= S |> |> |> in
           Some (if unlimited fu then s
                 else s <| vectorNextIssueTick := now + Z.max 1 (Z.of_nat (issue_interval fu)) * period fu |>,
                 1%nat)
       end.

(** The path without vector chunks: one class after the other, each until a request is refused. *)
Definition issue_scalar (grants : list bool) (slots : nat) s : St B * nat :=
  let h := thread (engine (sys s)) in
  let '(grants, alu, room) := issue_class grants (aluRemaining h) slots in
  let '(grants, shift, room) := issue_class grants (shiftRemaining h) room in
  let '(grants, multiply, room) := issue_class grants (multiplyRemaining h) room in
  let issued := (slots - room)%nat in
  let s := on_engine (λ e, e <| thread ::= λ h, h <| aluRemaining := alu |> <| shiftRemaining := shift |>
                                                  <| multiplyRemaining := multiply |> |>) s in
  (s <| sys ::= λ y, y <| Prefetch.slots ::= λ c, c <| helper_compute ::= λ n, (n + issued)%nat |> |> |>,
   issued).

(** [issueDVRHelperCompute] *)
Definition issueDVRHelperCompute (now : Z) (decoded : bool) (grant : option nat) (grants : list bool) s
    : option (St B * nat) :=
  let slots := compute_slots (Prefetch.slots (sys s)) in
  if (slots =? 0)%nat then Some (s, 0%nat)
  else if vector_chunks cfg then
    '(h, _) ← refillComputeReady (thread (engine (sys s)));
    let s := on_engine (λ e, e <| thread := h |>) s in
    if negb (length (replayLanes h) =? 0)%nat then issueDVRReplayLanes now slots decoded grant s
    else issue_queued now grant s
  else Some (issue_scalar grants slots s).

(** ** The program of a lane

    The reference: a PC and the register file, and the uop found at the PC. *)

Definition next_after (t : Replay.Template) (k : nat) : Z :=
  if (S k <? Replay.count t)%nat then Uop.pc (Replay.uop_at t (S k)) else 0.

Definition successor (t : Replay.Template) (k : nat) : Z :=
  let u := Replay.uop_at t k in
  if alternatePath u && negb (alternateResumePC u =? 0) then alternateResumePC u
  else if control u && negb (branchTargetPC u =? 0) then branchTargetPC u
  else next_after t k.

Definition branch_pc (u : Uop) (taken : bool) : Z :=
  if taken then branchTargetPC u else fallthroughPC u.

Definition result_of (u : Uop) (regs : list Z) : option Z :=
  evaluate u (Replay.operand (source0 u) regs) (Replay.operand (source1 u) regs).

Definition written (u : Uop) (v : Z) (regs : list Z) : list Z :=
  if (0 <? destination u) && (destination u <? Replay.MaxRegs)
  then <[Z.to_nat (destination u) := v]> regs else regs.

(** A dependent load of a lane's program and the address it computes. *)
Definition requests (t : Replay.Template) (c : Z * list Z) (pc a : Z) : Prop :=
  ∃ k, findPC t c.1 = Some k ∧ Uop.pc (Replay.uop_at t k) = pc
       ∧ load (Replay.uop_at t k) = true ∧ tainted (Replay.uop_at t k) = true
       ∧ result_of (Replay.uop_at t k) c.2 = Some a ∧ Replay.queueable a = true.

(** PC 0 is that of a lane that waits for a load or has left the template. *)
Inductive lane_step (t : Replay.Template) : Z * list Z → Z * list Z → Prop :=
  | step_stateless pc regs k :
      findPC t pc = Some k → stateless (Replay.uop_at t k) = true →
      lane_step t (pc, regs) (next_after t k, regs)
  | step_branch pc regs k taken :
      findPC t pc = Some k → conditional (Replay.uop_at t k) = true →
      Replay.branch_direction (Replay.uop_at t k) regs = Some taken →
      lane_step t (pc, regs) (branch_pc (Replay.uop_at t k) taken, regs)
  | step_load pc regs k a :
      findPC t pc = Some k → conditional (Replay.uop_at t k) = false →
      load (Replay.uop_at t k) = true → tainted (Replay.uop_at t k) = false →
      result_of (Replay.uop_at t k) regs = Some a →
      lane_step t (pc, regs) (next_after t k, regs)
  | step_request pc regs pc' a :
      requests t (pc, regs) pc' a → lane_step t (pc, regs) (0, regs)
  | step_result pc regs k v :
      findPC t pc = Some k → conditional (Replay.uop_at t k) = false →
      load (Replay.uop_at t k) = false → result_of (Replay.uop_at t k) regs = Some v →
      lane_step t (pc, regs) (successor t k, written (Replay.uop_at t k) v regs).

(** ** Templates whose branches the issue handles as the reference does *)

(** The PC at which a lane has come round to the next trigger. *)
Definition loop_start (t : Replay.Template) : Z :=
  if negb (Replay.stridePC t =? 0) then Replay.stridePC t else Replay.triggerPC t.

(** A branch that ends every lane of a divergent template. *)
Definition closes (t : Replay.Template) (k : nat) : bool :=
  let u := Replay.uop_at t k in
  Replay.continuePastFLR t
  && ((negb (branchTargetPC u =? 0) && (branchTargetPC u <? Uop.pc u))
      || (negb (Replay.loopControlPC t =? 0) && (Uop.pc u =? Replay.loopControlPC t))).

(** The branch leads to another uop of the template, or ends the lane. *)
Definition stays (t : Replay.Template) (k : nat) (next : Z) : Prop :=
  ∃ k', findPC t next = Some k' ∧ k' ≠ k ∧ next ≠ loop_start t ∧ closes t k = false.
Definition leaves (t : Replay.Template) (k : nat) (next : Z) : Prop :=
  findPC t next = None ∨ closes t k = true.

(** PCs are those of one uop, operands are tracked registers, results do not go to x0, and where
    the recorder has set a join both successors of a branch are in the template or both end the
    lane. *)
Record tidy (t : Replay.Template) : Prop := mkTidy {
  tidy_pc : ∀ k, (1 ≤ k < Replay.count t)%nat →
            findPC t (Uop.pc (Replay.uop_at t k)) = Some k;
  tidy_sources : ∀ k, source0 (Replay.uop_at t k) < Replay.MaxRegs
                      ∧ source1 (Replay.uop_at t k) < Replay.MaxRegs;
  tidy_destination : ∀ k, destination (Replay.uop_at t k) ≠ 0;
  tidy_branch : ∀ k, (1 ≤ k < Replay.count t)%nat → conditional (Replay.uop_at t k) = true →
                reconvergencePC (Replay.uop_at t k) = 0
                ∨ (∀ taken, stays t k (branch_pc (Replay.uop_at t k) taken))
                ∨ (∀ taken, leaves t k (branch_pc (Replay.uop_at t k) taken))
}.

(** ** The invariant *)

(** The fields of a lane that an issue does not change. *)
Definition identity l := (l_program l, l_bank l, l_lane l, (l_stridePC l, l_loopControlPC l, l_continuePastFLR l)).

Definition settled l : Prop :=
  tidy (templates (l_program l)) ∧ l_stridePC l = loop_start (templates (l_program l))
  ∧ l_loopControlPC l = Replay.loopControlPC (templates (l_program l))
  ∧ l_continuePastFLR l = Replay.continuePastFLR (templates (l_program l)).

(** The lanes of the frames wait, each in one frame. *)
Record frames_ok (bid : nat) (fs : list Frame) ls : Prop := mkFramesOk {
  frames_depth : (length fs ≤ Entries)%nat;
  frames_blocked : ∀ f l, f ∈ fs → l ∈ ls → l_bank l = bid →
                   mask_test (f_mask f) (l_lane l) = true → l_blocked l = true;
  frames_disjoint : ∀ i j fi fj x, fs !! i = Some fi → fs !! j = Some fj → (x < 128)%nat →
                    mask_test (f_mask fi) x = true → mask_test (f_mask fj) x = true → i = j
}.

Record lanes_ok e : Prop := mkLanesOk {
  inv_good : banks_good (banks e);
  inv_lane : ∀ l, l ∈ elanes e → is_Some (banks e !! l_bank l) ∧ (l_lane l < 128)%nat ∧ settled l;
  inv_nodup : NoDup ((λ l, (l_bank l, l_lane l)) <$> elanes e);
  inv_frames : ∀ bid, frames_ok bid (stack (group_of bid e)) (elanes e)
}.

(** Where a lane stands: its registers in the bank, and its PC, which for a lane that waits in a
    frame is the frame's. *)
Definition row bs l : list Z :=
  match bs !! l_bank l with
  | Some b => (λ r, bank_read r (l_lane l) b) <$> seq 0 32
  | None => []
  end.

Definition pending (fs : list Frame) l : Z :=
  match list_find (λ f, mask_test (f_mask f) (l_lane l) = true) fs with
  | Some (_, f) => f_pc f
  | None => l_pc l
  end.

Definition position e l : Z * list Z := (pending (stack (group_of (l_bank l) e)) l, row (banks e) l).

(** The same lane, any number of steps of its program further on. *)
Definition walked e e' l l' : Prop :=
  identity l' = identity l ∧ rtc (lane_step (templates (l_program l))) (position e l) (position e' l').
Definition walks e e' : Prop := Forall2 (walked e e') (elanes e) (elanes e').

Lemma identity_inv l l' :
  identity l' = identity l →
  l_program l' = l_program l ∧ l_bank l' = l_bank l ∧ l_lane l' = l_lane l ∧ (settled l → settled l').
Proof. unfold identity, settled. intros [= -> -> -> -> -> ->]. done. Qed.

#[export] Instance walks_preorder : PreOrder walks.
Proof.
  split.
  - intros e. apply Forall_Forall2_diag, Forall_forall. by split.
  - intros e1 e2 e3 H1 H2. unfold walks. eapply Forall2_trans; [|exact H1|exact H2].
    intros l1 l2 l3 [E1 W1] [E2 W2]. split; [by rewrite E2|].
    destruct (identity_inv _ _ E1) as (Ep & _). rewrite Ep in W2. by etrans.
Qed.

(** ** Operands *)

Lemma row_operand bs l r :
  is_Some (bs !! l_bank l) → r < Replay.MaxRegs → operand bs l r = Replay.operand r (row bs l).
Proof.
  intros [b Hb] Hr. unfold operand, row, Replay.operand. rewrite Hb.
  destruct (tracked r) eqn:Ht.
  - apply tracked_range in Ht. rewrite (proj2 (Z.leb_le _ _)) by lia.
    rewrite list_lookup_total_alt, list_lookup_fmap, lookup_seq_lt by lia. done.
  - destruct (Z.leb_spec 0 r) as [H0|]; [|done].
    assert (tracked r = true) by (apply tracked_range; unfold Replay.MaxRegs in Hr; lia). congruence.
Qed.

Lemma length_row bs l : is_Some (bs !! l_bank l) → length (row bs l) = 32%nat.
Proof. intros [b Hb]. unfold row. by rewrite Hb, length_fmap, length_seq. Qed.

Lemma branch_next_spec bs l taken next :
  is_Some (bs !! l_bank l) → tidy (templates (l_program l)) → branch_next bs l = Some (taken, next) →
  Replay.branch_direction (uop_of l) (row bs l) = Some taken ∧ next = branch_pc (uop_of l) taken.
Proof.
  intros Hb Ht. unfold branch_next, Replay.branch_direction.
  rewrite !row_operand by (done || apply (tidy_sources _ Ht)).
  destruct (tainted (uop_of l)); [|by intros [= <- <-]].
  destruct (evaluateBranch _ _ _); [|done]. by intros [= <- <-].
Qed.

Lemma findPC_Some t pc k :
  findPC t pc = Some k →
  pc ≠ 0 ∧ (1 ≤ k < Replay.count t)%nat ∧ Uop.pc (Replay.uop_at t k) = pc.
Proof.
  unfold findPC, Replay.find_uop. destruct (Z.eqb_spec pc 0); [done|].
  intros (Hk & Hp & _)%find_from_Some. apply Z.eqb_eq in Hp. split_and!; [done|lia|lia|done].
Qed.

(** ** Lanes change, groups and banks do not *)

Definition moved e l l' : Prop :=
  identity l' = identity l ∧ (l_blocked l = true → l_blocked l' = true)
  ∧ rtc (lane_step (templates (l_program l))) (position e l) (position e l').

Lemma moved_stay e l l' :
  identity l' = identity l → l_blocked l' = l_blocked l → l_pc l' = l_pc l → moved e l l'.
Proof.
  intros Hi Hb Hp. split; [done|]. split; [congruence|].
  destruct (identity_inv _ _ Hi) as (_ & Eb & El & _). unfold position, pending, row.
  by rewrite Eb, El, Hp.
Qed.

Lemma same_ids (P : Lane → Lane → Prop) ls ls' :
  (∀ l l', P l l' → identity l' = identity l) → Forall2 P ls ls' →
  (λ l, (l_bank l, l_lane l)) <$> ls' = (λ l, (l_bank l, l_lane l)) <$> ls.
Proof.
  intros Hf. induction 1 as [|l l' ls ls' Hl _ IH]; [done|]. rewrite !fmap_cons, IH.
  destruct (identity_inv _ _ (Hf _ _ Hl)) as (_ & -> & -> & _). done.
Qed.

Lemma set_lanes_ok e ls :
  lanes_ok e → Forall2 (moved e) (elanes e) ls → lanes_ok (set_elanes ls e) ∧ walks e (set_elanes ls e).
Proof.
  intros [I1 I2 I3 I4] Hf. split.
  - assert (Hin : ∀ l', l' ∈ ls → ∃ l, l ∈ elanes e ∧ moved e l l').
    { intros l' (i & Hi)%list_elem_of_lookup. destruct (Forall2_lookup_r _ _ _ _ _ Hf Hi) as (l & Hl & Hm).
      exists l. split; [by eapply list_elem_of_lookup_2|done]. }
    split.
    + done.
    + intros l' (l & Hl & Hi & _)%Hin. destruct (identity_inv _ _ Hi) as (Ep & Eb & El & Es).
      destruct (I2 l Hl) as (? & ? & ?). change (banks (set_elanes ls e)) with (banks e).
      rewrite Eb, El. split_and!; [done|done|by apply Es].
    + change (elanes (set_elanes ls e)) with ls.
      rewrite (same_ids (moved e) (elanes e) ls); [done| |done]. by intros l l' (Hi & _).
    + intros bid. destruct (I4 bid) as [F1 F2 F3]. split; [done| |done].
      intros f l' Hfr (l & Hl & Hi & Hbl & _)%Hin Hb Hm. apply Hbl.
      destruct (identity_inv _ _ Hi) as (_ & Eb & El & _).
      apply (F2 f l); [done|done|congruence|congruence].
  - unfold walks. change (elanes (set_elanes ls e)) with ls. eapply Forall2_impl; [exact Hf|].
    intros l l' (? & _ & ?). by split.
Qed.

(** A running lane waits in no frame. *)
Lemma pending_none fs l :
  (∀ f, f ∈ fs → mask_test (f_mask f) (l_lane l) = false) → pending fs l = l_pc l.
Proof.
  intros Hn. unfold pending. destruct (list_find _ fs) as [[i f]|] eqn:E; [|done].
  apply list_find_Some in E as (Hi & Hm & _). rewrite (Hn f) in Hm; [done|].
  by eapply list_elem_of_lookup_2.
Qed.

Lemma running_free e l f :
  lanes_ok e → l ∈ elanes e → l_blocked l = false → f ∈ stack (group_of (l_bank l) e) →
  mask_test (f_mask f) (l_lane l) = false.
Proof.
  intros Hok Hl Hb Hf. apply not_true_is_false. intros Hm.
  rewrite (frames_blocked _ _ _ (inv_frames _ Hok (l_bank l)) f l) in Hb; done.
Qed.

Lemma pending_running e l l' :
  lanes_ok e → l ∈ elanes e → l_blocked l = false → l_lane l' = l_lane l →
  pending (stack (group_of (l_bank l) e)) l' = l_pc l'.
Proof. intros Hok Hl Hb Hlane. apply pending_none. intros f Hf. rewrite Hlane. by eapply running_free. Qed.

Lemma pending_lane fs l l' : l_lane l' = l_lane l → l_pc l' = l_pc l → pending fs l' = pending fs l.
Proof. unfold pending. by intros -> ->. Qed.

(** One group and its lanes change. *)
Lemma regroup_ok bid e e' :
  lanes_ok e → banks e' = banks e →
  (∀ b, b ≠ bid → stack (group_of b e') = stack (group_of b e)) →
  frames_ok bid (stack (group_of bid e')) (elanes e') →
  Forall2 (λ l l', walked e e' l l' ∧ (l_bank l ≠ bid → l_blocked l = true → l_blocked l' = true))
    (elanes e) (elanes e') →
  lanes_ok e' ∧ walks e e'.
Proof.
  intros [I1 I2 I3 I4] Hb Hs Hfr Hf. split.
  - assert (Hin : ∀ l', l' ∈ elanes e' → ∃ l, l ∈ elanes e ∧ identity l' = identity l
        ∧ (l_bank l ≠ bid → l_blocked l = true → l_blocked l' = true)).
    { intros l' (i & Hi)%list_elem_of_lookup.
      destruct (Forall2_lookup_r _ _ _ _ _ Hf Hi) as (l & Hl & [Hid _] & Hbl).
      exists l. split; [by eapply list_elem_of_lookup_2|done]. }
    split.
    + by rewrite Hb.
    + intros l' (l & Hl & Hi & _)%Hin. destruct (identity_inv _ _ Hi) as (_ & Eb & El & Es).
      destruct (I2 l Hl) as (? & ? & ?). rewrite Hb, Eb, El. split_and!; [done|done|by apply Es].
    + erewrite same_ids; [exact I3| |exact Hf]. by intros l l' [[Hi _] _].
    + intros b. destruct (decide (b = bid)) as [->|Hne]; [done|].
      rewrite Hs by done. destruct (I4 b) as [F1 F2 F3]. split; [done| |done].
      intros f l' Hf' (l & Hl & Hi & Hbl)%Hin Hlb Hm.
      destruct (identity_inv _ _ Hi) as (_ & Eb & El & _). rewrite Eb in Hlb. rewrite El in Hm.
      apply Hbl; [congruence|]. by apply (F2 f l).
  - eapply Forall2_impl; [exact Hf|]. by intros l l' [? _].
Qed.

(** Only what the invariant sees of an engine counts. *)
Lemma same_view_ok e e' :
  lanes_ok e → elanes e' = elanes e → banks e' = banks e →
  (∀ b, stack (group_of b e') = stack (group_of b e)) → lanes_ok e' ∧ walks e e'.
Proof.
  intros Hok Hl Hb Hs. apply (regroup_ok 0 e); [done|done|by intros b _| |].
  - rewrite Hs, Hl. apply Hok.
  - rewrite Hl. apply Forall_Forall2_diag, Forall_forall. intros l _. split; [|done].
    split; [done|]. unfold position. by rewrite Hs, Hb.
Qed.

Lemma group_of_set bid g e b :
  group_of b (set_group bid g e) = if decide (b = bid) then g else group_of b e.
Proof.
  unfold group_of, set_group. simpl. destruct (decide (b = bid)) as [->|Hne].
  - by rewrite lookup_insert_eq.
  - by rewrite lookup_insert_ne.
Qed.

(** ** Reconvergence keeps the lanes *)

Lemma pop_lane_fields bid f l :
  identity (pop_lane bid f l) = identity l ∧ l_active (pop_lane bid f l) = l_active l
  ∧ (l_bank l ≠ bid → pop_lane bid f l = l)
  ∧ (mask_test (f_mask f) (l_lane l) = false → l_blocked l = true → l_blocked (pop_lane bid f l) = true)
  ∧ (mask_test (f_mask f) (l_lane l) = false → l_pc (pop_lane bid f l) = l_pc l)
  ∧ (l_bank l = bid → l_active l = true → mask_test (f_mask f) (l_lane l) = true →
     l_pc (pop_lane bid f l) = f_pc f).
Proof.
  unfold pop_lane. destruct (l_active l) eqn:Ha; [|by split_and!].
  destruct (Nat.eqb_spec (l_bank l) bid); [|by split_and!]. simpl.
  destruct (mask_test (f_mask f) (l_lane l)); [by split_and!|].
  by destruct (l_pc l =? f_reconvergencePC f); split_and!.
Qed.

Lemma pending_cons f fs l :
  pending (f :: fs) l = if mask_test (f_mask f) (l_lane l) then f_pc f else pending fs l.
Proof.
  unfold pending. cbn [list_find]. destruct (mask_test (f_mask f) (l_lane l)).
  - by rewrite decide_True.
  - rewrite decide_False by done. by destruct (list_find _ fs) as [[]|].
Qed.

Definition all_active e : Prop := ∀ l, l ∈ elanes e → l_active l = true.

Lemma pop_frame_ok bid f below e e' :
  lanes_ok e → all_active e → stack (group_of bid e) = f :: below →
  elanes e' = pop_lane bid f <$> elanes e → banks e' = banks e →
  stack (group_of bid e') = below → (∀ b, b ≠ bid → stack (group_of b e') = stack (group_of b e)) →
  lanes_ok e' ∧ walks e e' ∧ all_active e'.
Proof.
  intros Hok Hact Hst Hl Hb Hs1 Hs2. pose proof (inv_frames _ Hok bid) as [F1 F2 F3]. rewrite Hst in F1, F2, F3.
  assert (Hbelow : ∀ f' x, f' ∈ below → (x < 128)%nat → mask_test (f_mask f) x = true →
            mask_test (f_mask f') x = false).
  { intros f' x (j & Hj)%list_elem_of_lookup Hx Hm. apply not_true_is_false. intros Hm'.
    specialize (F3 0%nat (S j) f f' x eq_refl Hj Hx Hm Hm'). done. }
  assert (Hall : all_active e').
  { intros l' Hl'. rewrite Hl in Hl'. apply list_elem_of_fmap in Hl' as (l & -> & Hin).
    destruct (pop_lane_fields bid f l) as (_ & -> & _). by apply Hact. }
  cut (lanes_ok e' ∧ walks e e'); [by intros []|].
  { apply (regroup_ok bid e); [done|done|done| |].
    + rewrite Hs1, Hl. split.
      * simpl in F1. lia.
      * intros f' l' Hf' (l & -> & Hin)%list_elem_of_fmap.
        destruct (pop_lane_fields bid f l) as (Hi & Ha & _ & Hbl & _).
        destruct (identity_inv _ _ Hi) as (_ & -> & -> & _). intros Hlb Hm.
        destruct (inv_lane _ Hok l Hin) as (_ & Hx & _). apply Hbl.
        -- apply not_true_is_false. intros Hmf. by rewrite (Hbelow f') in Hm.
        -- apply (F2 f' l); [by right|done|done|done].
      * intros i j fi fj x Hi Hj Hx Hm1 Hm2. specialize (F3 (S i) (S j) fi fj x Hi Hj Hx Hm1 Hm2). lia.
    + rewrite Hl. apply Forall2_fmap_r, Forall_Forall2_diag, Forall_forall. intros l Hin.
      destruct (pop_lane_fields bid f l) as (Hi & Ha & Hne & Hbl & Hpc & Hpc').
      destruct (inv_lane _ Hok l Hin) as (_ & Hx & _).
      split; [|intros Hn; by rewrite Hne]. split; [done|].
      destruct (identity_inv _ _ Hi) as (_ & Eb & El & _).
      assert (Hpos : position e' (pop_lane bid f l) = position e l); [|by rewrite Hpos].
      unfold position, row. rewrite Hb, Eb, El. f_equal.
      destruct (decide (l_bank l = bid)) as [Hlb|Hn]; [|by rewrite Hs2, Hne].
      rewrite Hlb, Hs1, Hst, pending_cons. destruct (mask_test (f_mask f) (l_lane l)) eqn:Hm.
      * rewrite pending_none; [by apply Hpc'; [|apply Hact|]|].
        intros f' Hf'. rewrite El. by apply Hbelow.
      * by apply pending_lane, Hpc. }
Qed.

Lemma pop_loop_ok bid fs : ∀ ls g e,
  let e1 := set_group bid (g <| stack := fs |>) (set_elanes ls e) in
  lanes_ok e1 → all_active e1 →
  let e2 := set_group bid (pop_loop bid fs ls g).2 (set_elanes (pop_loop bid fs ls g).1 e) in
  lanes_ok e2 ∧ walks e1 e2 ∧ all_active e2.
Proof.
  induction fs as [|f below IH]; intros ls g e e1 Hok Hact; [by split_and!|].
  cbn [pop_loop]. destruct (path_ended bid f ls); [|by split_and!].
  set (g' := g <| currentPC := f_pc f |> <| currentMask := f_mask f |>
               <| currentValid := negb (f_pc f =? 0) |>).
  specialize (IH (pop_lane bid f <$> ls) g' e).
  destruct (pop_frame_ok bid f below e1 (set_group bid (g' <| stack := below |>) (set_elanes (pop_lane bid f <$> ls) e)))
    as (O2 & W2 & A2); [done|done| |done|done| | |].
  - unfold e1. by rewrite group_of_set, decide_True.
  - by rewrite group_of_set, decide_True.
  - intros b Hne. unfold e1. by rewrite !group_of_set, !decide_False.
  - destruct (IH O2 A2) as (O3 & W3 & A3). split; [done|]. split; [by etrans|done].
Qed.

Lemma refresh_stack bid ls g : stack (refreshCurrentGroup bid ls g) = stack g.
Proof. unfold refreshCurrentGroup. by destruct (_ && _). Qed.

Lemma converge_ok bid l :
  identity (converge bid l) = identity l ∧ l_blocked (converge bid l) = l_blocked l
  ∧ l_pc (converge bid l) = l_pc l ∧ l_active (converge bid l) = l_active l.
Proof. unfold converge. by destruct (_ && _). Qed.

(** The choice of the group and its pops. *)
Lemma reconverge_ok now e :
  lanes_ok e → all_active e →
  lanes_ok (reconverge now e).1 ∧ walks e (reconverge now e).1 ∧ all_active (reconverge now e).1
  ∧ thread (reconverge now e).1 = (thread e) <| replayLanes := elanes (reconverge now e).1 |>.
Proof.
  intros Hok Hact. unfold reconverge. destruct (choose_context now e) as [bid|].
  2:{ split_and!; [done|done|done|]. by destruct e as [[] ??]. }
  set (g := refreshCurrentGroup bid (elanes e) (group_of bid e)).
  destruct (same_view_ok e (set_group bid (g <| stack := stack g |>) (set_elanes (elanes e) e))) as [O1 W1];
    [done|done|done| |].
  { intros b. rewrite group_of_set. case_decide as Hb; [subst b|done]. simpl. apply refresh_stack. }
  destruct (pop_loop_ok bid (stack g) (elanes e) g e O1 Hact) as (O2 & W2 & A2).
  destruct (pop_loop bid (stack g) (elanes e) g) as [ls g2]. cbn [fst snd] in *.
  destruct (stack g2) as [|f fs] eqn:Es; cbn [fst].
  2:{ split; [done|]. split; [by etrans|]. split; done. }
  set (e2 := set_group bid g2 (set_elanes ls e)) in *.
  destruct (set_lanes_ok e2 (converge bid <$> ls) O2) as [O3 W3].
  { apply Forall2_fmap_r, Forall_Forall2_diag, Forall_forall. intros l _.
    destruct (converge_ok bid l) as (? & ? & ? & _). by apply moved_stay. }
  destruct (same_view_ok (set_elanes (converge bid <$> ls) e2)
              (set_group bid (g2 <| renamedDestinations := ∅ |>) (set_elanes (converge bid <$> ls) e)))
    as [O4 W4]; [done|done|done| |].
  { intros b. rewrite group_of_set. unfold e2. change (group_of b (set_elanes ?x ?y)) with (group_of b y).
    rewrite group_of_set. by case_decide. }
  split; [done|]. split; [by do 3 (etrans; [eassumption|])|]. split; [|done].
  intros l' (l & -> & Hin)%list_elem_of_fmap. destruct (converge_ok bid l) as (_ & _ & _ & ->). by apply A2.
Qed.

(** ** The issue group *)

Lemma skip_spec n : ∀ k l,
  tidy (templates (l_program l)) → findPC (templates (l_program l)) (l_pc l) = Some k →
  let r := skip_stateless n k l in
  identity r.2 = identity l ∧ l_blocked r.2 = l_blocked l
  ∧ findPC (templates (l_program l)) (l_pc r.2) = Some r.1
  ∧ ∀ regs, rtc (lane_step (templates (l_program l))) (l_pc l, regs) (l_pc r.2, regs).
Proof.
  induction n as [|n IH]; intros k l Ht Hf; [by split_and!|]. cbn [skip_stateless].
  destruct (stateless (Replay.uop_at (templates (l_program l)) k)) eqn:Es; [|by split_and!].
  cbn [negb]. set (l1 := l <| l_helperUops ::= S |>).
  destruct (budget cfg <=? l_helperUops l1)%nat; [by split_and!|].
  destruct (Nat.leb_spec (Replay.count (templates (l_program l))) (S k)) as [|Hlt]; [by split_and!|].
  cbn [orb]. set (l2 := l1 <| l_pc := Uop.pc (Replay.uop_at (templates (l_program l)) (S k)) |>).
  destruct (findPC_Some _ _ _ Hf) as (_ & Hk & _).
  destruct (IH (S k) l2 Ht) as (H1 & H2 & H3 & H4); [apply (tidy_pc _ Ht); lia|].
  split; [done|]. split; [done|]. split; [done|]. intros regs.
  eapply rtc_l; [|apply H4].
  replace (l_pc l2) with (next_after (templates (l_program l)) k).
  2:{ unfold next_after. by rewrite (proj2 (Nat.ltb_lt _ _) Hlt). }
  by apply step_stateless.
Qed.

(** A lane that may join the issue group. *)
Record chosen (now : Z) (bid : nat) e (copies : list CopyState) l : Prop := mkChosen {
  ch_active : l_active l = true;
  ch_bank : l_bank l = bid;
  ch_running : l_blocked l = false;
  ch_group : currentValid (group_of bid e) = true
             ∧ mask_test (currentMask (group_of bid e)) (l_lane l) = true;
  ch_pc : findPC (templates (l_program l)) (l_pc l) = Some (l_uopIndex l);
  ch_path : ∀ regs, rtc (lane_step (templates (l_program l))) (currentPC (group_of bid e), regs) (l_pc l, regs);
  ch_ready : laneSourcesReady now (banks e) l = true;
  ch_copy : (copy_of l < VIRCopies)%nat ∧ c_issued (copies !!! copy_of l) = false
}.

Lemma in_group_inv ctx e l :
  in_group ctx e l = true →
  ∃ bid, ctx = Some bid ∧ l_bank l = bid ∧ l_active l = true ∧ l_blocked l = false
         ∧ currentValid (group_of bid e) = true ∧ l_pc l = currentPC (group_of bid e)
         ∧ mask_test (currentMask (group_of bid e)) (l_lane l) = true.
Proof.
  unfold in_group, runs. destruct ctx as [bid|]; [|done].
  rewrite !andb_true_iff, Nat.eqb_eq, Z.eqb_eq, negb_true_iff.
  intros [[[? [[? ?] ?]] ?] ?]. exists bid. by split_and!.
Qed.

Lemma visit_spec now ctx e copies l :
  lanes_ok e → l ∈ elanes e →
  let r := visit now ctx e copies l in
  moved e l r.1 ∧ (r.2 = true → ∃ bid, ctx = Some bid ∧ chosen now bid e copies r.1).
Proof.
  intros Hok Hl. unfold visit. cbv zeta.
  destruct (negb (l_active l) || _); [split; [by apply moved_stay|done]|].
  destruct (budget cfg <=? l_helperUops l)%nat; [split; [by apply moved_stay|done]|].
  destruct (in_group ctx e l) eqn:Eg; [|split; [by apply moved_stay|done]]. cbn [negb].
  destruct (findPC _ (l_pc l)) as [k|] eqn:Ef; [|split; [by apply moved_stay|done]].
  destruct (in_group_inv _ _ _ Eg) as (bid & Ec & Eb & Ea & Ebl & Ev & Ep & Em).
  destruct (inv_lane _ Hok l Hl) as (_ & _ & Ht & _).
  destruct (skip_spec (Replay.count (templates (l_program l)) - k) k l Ht Ef) as (Hi & Hb & Hf & Hr).
  destruct (skip_stateless _ k l) as [k' l']. cbn [fst snd] in *.
  destruct (identity_inv _ _ Hi) as (Eprog & Ebank & Elane & _).
  assert (Hm : ∀ l2, identity l2 = identity l' → l_blocked l2 = l_blocked l' → l_pc l2 = l_pc l' →
            moved e l l2).
  { intros l2 E1 E2 E3. rewrite Hi in E1. destruct (identity_inv _ _ E1) as (_ & Eb2 & El2 & _).
    split; [done|]. split; [congruence|]. unfold position, row. rewrite Eb2, El2.
    rewrite !(pending_running e l) by done. rewrite E3. apply Hr. }
  destruct (l_active l') eqn:Ea'; [|split; [by apply Hm|done]]. cbn [negb].
  split; [by apply Hm|]. cbn [fst snd]. set (l2 := l' <| l_uopIndex := k' |>).
  rewrite !andb_true_iff, negb_true_iff, Nat.ltb_lt. intros [[Hrd Hc1] Hc2]. exists bid. split; [done|].
  split; try done; unfold l2; simpl; rewrite ?Eprog, ?Ebank, ?Elane, ?Hb; try done.
  intros regs. rewrite <- Ep. apply Hr.
Qed.

(** The positions [js], from [i] on, hold lanes that may issue with [seed]. *)
Definition issuable (now : Z) (bid : nat) e copies (seed : Lane) (i : nat) ls (js : list nat) : Prop :=
  NoDup js ∧ ∀ j, j ∈ js → (i <= j)%nat
  ∧ ∃ m, ls !! (j - i)%nat = Some m ∧ chosen now bid e copies m ∧ matches seed m = true.

Lemma issuable_cons now bid e copies seed i l ls js :
  issuable now bid e copies seed (S i) ls js → issuable now bid e copies seed i (l :: ls) js.
Proof.
  intros [Hn Hj]. split; [done|]. intros j Hin. destruct (Hj j Hin) as (Hle & m & Hm & Hc).
  split; [lia|]. exists m. split; [|done]. by replace (j - i)%nat with (S (j - S i)) by lia.
Qed.

Lemma issuable_here now bid e copies seed i l ls js :
  chosen now bid e copies l → matches seed l = true →
  issuable now bid e copies seed (S i) ls js → issuable now bid e copies seed i (l :: ls) (i :: js).
Proof.
  intros Hc Hm Hi. split.
  - constructor; [|apply Hi]. intros Hin. destruct (proj2 Hi i Hin) as [? _]. lia.
  - intros j [->|Hin]%elem_of_cons; [|by apply (issuable_cons _ _ _ _ _ _ l _ _ Hi)].
    split; [done|]. exists l. by rewrite Nat.sub_diag.
Qed.

Lemma matches_refl l : matches l l = true.
Proof. unfold matches. by rewrite !Nat.eqb_refl, Z.eqb_refl. Qed.

(** The loop once it has a seed. *)
Lemma select_seeded now bid e copies seed rest : ∀ i group,
  lanes_ok e → rest ⊆ elanes e → (length group < LanesPerVIRCopy)%nat →
  let r := select now (Some bid) e copies i (Some seed) group rest in
  Forall2 (moved e) rest r.1
  ∧ ∃ js, r.2 = group ++ js ∧ (length r.2 ≤ LanesPerVIRCopy)%nat ∧ issuable now bid e copies seed i r.1 js.
Proof.
  induction rest as [|l rest IH]; intros i group Hok Hsub Hlen.
  { split; [done|]. exists []. rewrite app_nil_r. cbn [select fst snd]. split_and!; [done|lia|].
    split; [constructor|]. by intros j ?%elem_of_nil. }
  assert (Hl : l ∈ elanes e) by (apply Hsub; left).
  assert (Hrest : rest ⊆ elanes e) by (intros x Hx; apply Hsub; by right).
  cbn [select]. destruct (visit_spec now (Some bid) e copies l Hok Hl) as [Hv Hc].
  destruct (visit now (Some bid) e copies l) as [l' ok]. cbn [fst snd] in Hv, Hc.
  destruct (ok && matches seed l') eqn:Em.
  - apply andb_prop in Em as [-> Em]. destruct (Hc eq_refl) as (bid' & [= <-] & Hch).
    destruct (Nat.eqb_spec (length (group ++ [i])) LanesPerVIRCopy) as [Hfull|Hnot].
    + cbn [fst snd]. split.
      * constructor; [done|]. apply Forall_Forall2_diag, Forall_forall. intros x _. by apply moved_stay.
      * exists [i]. split; [done|]. split; [lia|]. apply issuable_here; [done|done|].
        split; [constructor|]. by intros j ?%elem_of_nil.
    + rewrite length_app in Hnot. simpl in Hnot.
      destruct (IH (S i) (group ++ [i]) Hok Hrest) as [Hf (js & Hjs & Hl8 & Hi)];
        [rewrite length_app; simpl; lia|]. cbn [default].
      destruct (select _ _ _ _ (S i) _ (group ++ [i]) rest) as [rest' group']. cbn [fst snd] in *.
      split; [by constructor|]. exists (i :: js). split; [by rewrite Hjs, <- app_assoc|].
      split; [done|]. by apply issuable_here.
  - destruct (IH (S i) group Hok Hrest Hlen) as [Hf (js & Hjs & Hl8 & Hi)].
    destruct (select _ _ _ _ (S i) _ group rest) as [rest' group']. cbn [fst snd] in *.
    split; [by constructor|]. exists js. split; [done|]. split; [done|]. by apply issuable_cons.
Qed.

(** The whole loop: the lanes keep their places, and the group is that of its first lane. *)
Lemma select_spec now ctx e copies rest : ∀ i,
  lanes_ok e → rest ⊆ elanes e →
  let r := select now ctx e copies i None [] rest in
  Forall2 (moved e) rest r.1
  ∧ match r.2 with
    | [] => True
    | k :: js => (length r.2 ≤ LanesPerVIRCopy)%nat
        ∧ ∃ bid seed, ctx = Some bid ∧ (i <= k)%nat ∧ r.1 !! (k - i)%nat = Some seed
        ∧ issuable now bid e copies seed i r.1 (k :: js) ∧ ∀ j, j ∈ js → (k < j)%nat
    end.
Proof.
  induction rest as [|l rest IH]; intros i Hok Hsub; [done|].
  assert (Hl : l ∈ elanes e) by (apply Hsub; left).
  assert (Hrest : rest ⊆ elanes e) by (intros x Hx; apply Hsub; by right).
  cbn [select]. destruct (visit_spec now ctx e copies l Hok Hl) as [Hv Hc].
  destruct (visit now ctx e copies l) as [l' ok]. cbn [fst snd] in Hv, Hc.
  destruct ok; cbn [andb].
  - destruct (Hc eq_refl) as (bid & -> & Hch). cbn [app length default].
    change (1 =? LanesPerVIRCopy)%nat with false. cbv iota.
    destruct (select_seeded now bid e copies l' rest (S i) [i] Hok Hrest) as [Hf (js & Hjs & Hl8 & Hi)];
      [by apply Nat.ltb_lt|].
    destruct (select _ _ _ _ (S i) _ [i] rest) as [rest' group']. cbn [fst snd] in *. subst group'.
    split; [by constructor|]. cbn [app] in *. split; [done|]. exists bid, l'.
    split; [done|]. split; [done|]. split; [by rewrite Nat.sub_diag|].
    split; [apply issuable_here; [done|apply matches_refl|done]|].
    intros j Hj. destruct (proj2 Hi j Hj) as [? _]. lia.
  - destruct (IH (S i) Hok Hrest) as [Hf Hg].
    destruct (select _ _ _ _ (S i) _ [] rest) as [rest' group']. cbn [fst snd] in *.
    split; [by constructor|]. destruct group' as [|k js]; [done|].
    destruct Hg as (Hl8 & bid & seed & -> & Hik & Hk & Hi & Hj). split; [done|]. exists bid, seed.
    split; [done|]. split; [lia|]. split; [by replace (k - i)%nat with (S (k - S i)) by lia|].
    split; [by apply issuable_cons|done].
Qed.

(** ** The outcomes of a branch *)

(** The outcomes of the lanes [cs], and the paths that group them. *)
Record outcomes_ok bs (cs : list Lane) (out : gmap nat Z) (ps : list Path) : Prop := mkOutcomesOk {
  out_lane : ∀ x next, out !! x = Some next →
             ∃ l taken, l ∈ cs ∧ l_lane l = x ∧ branch_next bs l = Some (taken, next);
  out_path : ∀ x next, out !! x = Some next → ∃ p, p ∈ ps ∧ p_pc p = next;
  path_mask : ∀ p x, p ∈ ps → (x < 128)%nat →
              mask_test (p_mask p) x = true ↔ out !! x = Some (p_pc p);
  path_nodup : NoDup (p_pc <$> ps)
}.

Lemma path_unique ps p q :
  NoDup (p_pc <$> ps) → p ∈ ps → q ∈ ps → p_pc q = p_pc p → q = p.
Proof.
  intros Hn (i & Hi)%list_elem_of_lookup (j & Hj)%list_elem_of_lookup Hpq. assert (j = i) as ->; [|congruence].
  eapply (NoDup_lookup (p_pc <$> ps)); [done| |]; rewrite list_lookup_fmap; [by rewrite Hj|].
  rewrite Hi. simpl. by rewrite Hpq.
Qed.

Lemma find_path ps next :
  NoDup (p_pc <$> ps) →
  match list_find (λ p : Path, p_pc p = next) ps with
  | Some (k, p) => ps !! k = Some p ∧ p_pc p = next ∧ ∀ q, q ∈ ps → p_pc q = next → q = p
  | None => ∀ q, q ∈ ps → p_pc q ≠ next
  end.
Proof.
  intros Hn. destruct (list_find _ ps) as [[k p]|] eqn:E.
  - apply list_find_Some in E as (Hk & Hp & _). split_and!; [done|done|].
    intros q Hq Hqn. apply (path_unique ps); [done|by eapply list_elem_of_lookup_2|done|congruence].
  - apply list_find_None in E. rewrite Forall_forall in E. exact E.
Qed.

(** The mask of the lane's path grows by the lane, the other paths stay. *)
Lemma add_outcome_spec x taken next ps :
  NoDup (p_pc <$> ps) → (x < 128)%nat →
  NoDup (p_pc <$> add_outcome x taken next ps)
  ∧ (∃ p, p ∈ add_outcome x taken next ps ∧ p_pc p = next)
  ∧ (∀ p, p ∈ ps → ∃ q, q ∈ add_outcome x taken next ps ∧ p_pc q = p_pc p)
  ∧ ∀ q, q ∈ add_outcome x taken next ps → ∀ y, (y < 128)%nat →
      mask_test (p_mask q) y = true ↔
      (y = x ∧ p_pc q = next) ∨ ∃ p, p ∈ ps ∧ p_pc p = p_pc q ∧ mask_test (p_mask p) y = true.
Proof.
  intros Hn Hx. unfold add_outcome. pose proof (find_path ps next Hn) as Hfind.
  destruct (list_find _ ps) as [[k p]|].
  - destruct Hfind as (Hk & Hp & Huniq). set (q := p <| p_mask ::= λ m, mask_set m x |>).
    assert (Hlen : (k < length ps)%nat) by (by eapply lookup_lt_Some).
    assert (Hpcs : p_pc <$> <[k := q]> ps = p_pc <$> ps).
    { rewrite list_fmap_insert. apply list_insert_id. by rewrite list_lookup_fmap, Hk. }
    assert (Hin : ∀ r, r ∈ <[k := q]> ps ↔ r = q ∨ (r ∈ ps ∧ p_pc r ≠ next)).
    { intros r. split.
      - intros (j & Hj)%list_elem_of_lookup. apply list_lookup_insert_Some in Hj as [(_ & <- & _)|[Hne Hj]]; [by left|].
        right. split; [by eapply list_elem_of_lookup_2|]. intros Hr.
        assert (r = p) as -> by (apply Huniq; [by eapply list_elem_of_lookup_2|done]).
        apply Hne. eapply (NoDup_lookup (p_pc <$> ps)); [done| |]; rewrite list_lookup_fmap; [by rewrite Hk|by rewrite Hj].
      - intros [->|[Hr Hne]]; [by apply list_elem_of_insert|].
        apply list_elem_of_lookup in Hr as (j & Hj). apply list_elem_of_lookup. exists j.
        rewrite list_lookup_insert_ne; [done|]. intros <-. rewrite Hk in Hj. injection Hj as <-. done. }
    split; [by rewrite Hpcs|]. split; [exists q; split; [apply Hin; by left|done]|]. split.
    + intros r Hr. destruct (decide (p_pc r = next)) as [Hrn|Hrn].
      * exists q. split; [apply Hin; by left|]. simpl. congruence.
      * exists r. split; [apply Hin; by right|done].
    + intros r Hr y Hy. apply Hin in Hr as [->|[Hr Hne]].
      * unfold q at 1. simpl. rewrite mask_test_set, orb_true_iff, bool_decide_eq_true by done. split.
        -- intros [->|Hm]; [by left|]. right. exists p. by split; [eapply list_elem_of_lookup_2|].
        -- intros [[-> _]|(r & Hr & Hrp & Hm)]; [by left|]. right.
           by rewrite (Huniq r) in Hm; [|done|simpl in Hrp; congruence].
      * split; [intros Hm; right; by exists r|]. intros [[_ ?]|(r' & Hr' & Hrp & Hm)]; [done|].
        by rewrite <- (path_unique ps r r').
  - set (q := mkPath next taken (mask_set mask_empty x)).
    assert (Hin : ∀ r, r ∈ ps ++ [q] ↔ r ∈ ps ∨ r = q) by (intros r; by rewrite elem_of_app, list_elem_of_singleton).
    split; [|split; [exists q; split; [apply Hin; by right|done]|split]].
    + rewrite fmap_app. apply NoDup_app. split; [done|]. split; [|apply NoDup_singleton].
      intros z (r & -> & Hr)%list_elem_of_fmap Hz. apply list_elem_of_singleton in Hz. by apply (Hfind r).
    + intros r Hr. exists r. split; [apply Hin; by left|done].
    + intros r Hr y Hy. apply Hin in Hr as [Hr| ->].
      * split; [intros Hm; right; by exists r|]. intros [[_ ?]|(r' & Hr' & Hrp & Hm)]; [by destruct (Hfind r)|].
        by rewrite <- (path_unique ps r r').
      * unfold q at 1. simpl. rewrite mask_test_set, mask_test_empty, orb_false_r, bool_decide_eq_true by done. split.
        -- intros ->. by left.
        -- intros [[-> _]|(r & Hr & Hrp & _)]; [done|]. by destruct (Hfind r).
Qed.

Lemma outcome_step_ok bs cs l out ps :
  (l_lane l < 128)%nat → out !! l_lane l = None → outcomes_ok bs cs out ps →
  outcomes_ok bs (cs ++ [l]) (outcome_step bs (out, ps) l).1 (outcome_step bs (out, ps) l).2.
Proof.
  intros Hl Hfresh [O1 O2 O3 O4]. unfold outcome_step. destruct (branch_next bs l) as [[taken next]|] eqn:Eb.
  2:{ split; [|done|done|done]. intros x nx Hx. destruct (O1 x nx Hx) as (l' & tk & Hin & ?).
      exists l', tk. split; [apply elem_of_app; by left|done]. }
  cbn [fst snd]. destruct (add_outcome_spec (l_lane l) taken next ps O4 Hl) as (A1 & A2 & A3 & A4). split.
  - intros x nx [[<- <-]|[Hne Hx]]%lookup_insert_Some.
    + exists l, taken. split; [apply elem_of_app; right; by apply list_elem_of_singleton|done].
    + destruct (O1 x nx Hx) as (l' & tk & Hin & ?). exists l', tk. split; [apply elem_of_app; by left|done].
  - intros x nx [[<- <-]|[Hne Hx]]%lookup_insert_Some; [done|].
    destruct (O2 x nx Hx) as (p & Hp & <-). by apply A3.
  - intros q x Hq Hx. rewrite (A4 q Hq x Hx). destruct (decide (x = l_lane l)) as [->|Hne].
    + rewrite lookup_insert_eq. split; [intros [[_ ->]|(p & Hp & _ & Hm)]; [done|]|intros [= ->]; by left].
      apply (O3 p _ Hp Hx) in Hm. congruence.
    + rewrite lookup_insert_ne by done. split.
      * intros [[? _]|(p & Hp & <- & Hm)]; [done|]. by apply (O3 p x Hp Hx).
      * intros Hout. right. destruct (O2 x _ Hout) as (p & Hp & Hpq). exists p. split; [done|]. split; [done|].
        apply (O3 p x Hp Hx). by rewrite Hpq.
  - done.
Qed.

Lemma outcomes_spec bs cs :
  (∀ l, l ∈ cs → (l_lane l < 128)%nat) → NoDup (l_lane <$> cs) →
  outcomes_ok bs cs (foldl (outcome_step bs) (∅, []) cs).1 (foldl (outcome_step bs) (∅, []) cs).2.
Proof.
  induction cs as [|l cs IH] using rev_ind; intros Hx Hn.
  { split; cbn [foldl fst snd];
      [by intros x nx; rewrite lookup_empty|by intros x nx; rewrite lookup_empty| |constructor].
    by intros p x ?%elem_of_nil. }
  rewrite fmap_app in Hn. apply NoDup_app in Hn as (Hn & Hnew & _). rewrite foldl_app. cbn [foldl].
  destruct IH as [O1 O2 O3 O4]; [intros l' Hl'; apply Hx, elem_of_app; by left|done|].
  destruct (foldl (outcome_step bs) (∅, []) cs) as [out ps]. cbn [fst snd] in *.
  apply outcome_step_ok; [apply Hx, elem_of_app; right; by apply list_elem_of_singleton| |done].
  destruct (out !! l_lane l) as [nx|] eqn:Eo; [|done]. destruct (O1 _ _ Eo) as (l' & _ & Hin & Hl' & _).
  destruct (Hnew (l_lane l)); [|by apply list_elem_of_singleton].
  rewrite <- Hl'. by apply list_elem_of_fmap_2.
Qed.

(** Two lanes of the list with the same place are one. *)
Lemma same_place ls l l' :
  NoDup ((λ l, (l_bank l, l_lane l)) <$> ls) → l ∈ ls → l' ∈ ls →
  l_bank l' = l_bank l → l_lane l' = l_lane l → l' = l.
Proof.
  intros Hn (i & Hi)%list_elem_of_lookup (j & Hj)%list_elem_of_lookup Hb Hl. assert (j = i) as ->; [|congruence].
  eapply (NoDup_lookup _ j i (l_bank l, l_lane l) Hn); rewrite list_lookup_fmap.
  - rewrite Hj. simpl. by rewrite Hb, Hl.
  - by rewrite Hi.
Qed.

Lemma lanes_of_bank (P : Lane → Prop) `{∀ l, Decision (P l)} bid ls :
  NoDup ((λ l, (l_bank l, l_lane l)) <$> ls) → (∀ l, P l → l_bank l = bid) →
  NoDup (l_lane <$> filter P ls).
Proof.
  intros Hn Hb. induction ls as [|l ls IH]; [constructor|]. rewrite fmap_cons in Hn.
  apply NoDup_cons in Hn as [Hnew Hn]. rewrite filter_cons. case_decide as Hp; [|by apply IH].
  rewrite fmap_cons. apply NoDup_cons. split; [|by apply IH].
  intros (l' & Hl & Hin)%list_elem_of_fmap. apply list_elem_of_filter in Hin as [Hp' Hin].
  apply Hnew, list_elem_of_fmap. exists l'. split; [|done]. by rewrite (Hb l), (Hb l'), Hl.
Qed.

Definition candidates (bid : nat) e seed : list Lane :=
  filter (λ l, candidate (Some bid) e seed l = true) (elanes e).

Lemma candidate_inv bid e seed l :
  candidate (Some bid) e seed l = true →
  in_group (Some bid) e l = true ∧ l_program l = l_program seed ∧ l_uopIndex l = l_uopIndex seed.
Proof. unfold candidate. rewrite !andb_true_iff, !Nat.eqb_eq. tauto. Qed.

(** What [split_branch] gives for a branch. *)
Record split_ok (bid : nat) e seed (sp : Split) : Prop := mkSplitOk {
  sp_outcomes : outcomes_ok (banks e) (candidates bid e seed) (s_outcomes sp) (s_paths sp);
  sp_complete : s_complete sp = true → ∀ l, l ∈ candidates bid e seed → is_Some (s_outcomes sp !! l_lane l);
  sp_selected : seed ∈ candidates bid e seed → ∀ next, s_outcomes sp !! l_lane seed = Some next →
                ∃ p, s_paths sp !! s_selected sp = Some p ∧ p_pc p = next
}.

Lemma split_spec now bid e seed sp :
  lanes_ok e → conditional (uop_of seed) = true →
  split_branch now (Some bid) e seed = Some sp → split_ok bid e seed sp.
Proof.
  intros Hok Hc. unfold split_branch. rewrite Hc. fold (candidates bid e seed).
  destruct (_ || _); [done|].
  assert (HO : outcomes_ok (banks e) (candidates bid e seed)
            (foldl (outcome_step (banks e)) (∅, []) (candidates bid e seed)).1
            (foldl (outcome_step (banks e)) (∅, []) (candidates bid e seed)).2).
  { apply outcomes_spec.
    - intros l [_ Hl]%list_elem_of_filter. by apply (inv_lane _ Hok).
    - eapply lanes_of_bank; [apply Hok|]. intros l [Hg _]%candidate_inv.
      destruct (in_group_inv _ _ _ Hg) as (b & [= <-] & Hb & _). exact Hb. }
  destruct (foldl _ _ _) as [out ps]. cbn [fst snd] in HO. intros [= <-]. split; cbn [s_outcomes s_paths s_complete s_selected].
  - done.
  - intros Hall l Hl. rewrite forallb_forall in Hall. apply list_elem_of_In, Hall in Hl.
    by apply bool_decide_eq_true in Hl.
  - intros Hseed next Hn. destruct (out_lane _ _ _ _ HO _ _ Hn) as (l & taken & Hl & Hx & Hb).
    assert (l = seed) as ->.
    { apply list_elem_of_filter in Hl as [[Hg _]%candidate_inv Hl].
      pose proof Hseed as Hs. apply list_elem_of_filter in Hs as [[Hgs _]%candidate_inv Hs].
      destruct (in_group_inv _ _ _ Hg) as (b & [= <-] & Hb1 & _).
      destruct (in_group_inv _ _ _ Hgs) as (b & [= <-] & Hb2 & _).
      apply (same_place (elanes e)); [apply Hok|done|done|congruence|done]. }
    apply list_elem_of_filter in Hl as [-> _]. rewrite Hb.
    destruct (out_path _ _ _ _ HO _ _ Hn) as (p & Hp & Hpn).
    pose proof (find_path ps next (path_nodup _ _ _ _ HO)) as Hf.
    destruct (list_find _ ps) as [[k q]|]; [|by destruct (Hf p)].
    exists q. by split; apply Hf.
Qed.

(** ** The commit of a branch *)

Lemma commit_lane_spec u n next l :
  identity (commit_lane u n next l) = identity l ∧ l_blocked (commit_lane u n next l) = l_blocked l
  ∧ l_pc (commit_lane u n next l) = next
  ∧ (l_uopIndex (commit_lane u n next l) = l_uopIndex l
     ∨ findPC (templates (l_program l)) next = Some (l_uopIndex (commit_lane u n next l))).
Proof.
  unfold commit_lane. cbv zeta. destruct (next =? 0); [split_and!; try done; by left|].
  destruct (_ && _); [split_and!; try done; by left|].
  simpl. destruct (findPC (templates (l_program l)) next) as [k|] eqn:Ef; [|split_and!; try done; by left].
  destruct (budget cfg <=? _)%nat; split_and!; try done; by right.
Qed.

Lemma commit_closes t k l u :
  settled l → t = templates (l_program l) → u = Replay.uop_at t k →
  l_continuePastFLR l
  && ((negb (branchTargetPC u =? 0) && (branchTargetPC u <? Uop.pc u))
      || (l_continuePastFLR l && negb (l_loopControlPC l =? 0) && (Uop.pc u =? l_loopControlPC l)))
  = closes t k.
Proof.
  intros (_ & _ & E2 & E3) -> ->. unfold closes. rewrite E2, E3. by destruct (Replay.continuePastFLR _).
Qed.

Lemma commit_stays n next l k :
  settled l → stays (templates (l_program l)) k next →
  ∃ k', findPC (templates (l_program l)) next = Some k' ∧ k' ≠ k
  ∧ l_uopIndex (commit_lane (Replay.uop_at (templates (l_program l)) k) n next l) = k'.
Proof.
  intros Hs (k' & Hf & Hne & Hl & Hc). exists k'. split; [done|]. split; [done|].
  pose proof (commit_closes _ k l _ Hs eq_refl eq_refl) as Hcl. pose proof Hs as (_ & E1 & _).
  unfold commit_lane. cbv zeta. destruct (findPC_Some _ _ _ Hf) as (Hn & _).
  rewrite (proj2 (Z.eqb_neq _ 0) Hn).
  change (l_stridePC (l <| l_pc := next |> <| l_helperUops ::= S |>)) with (l_stridePC l).
  change (l_continuePastFLR (l <| l_pc := next |> <| l_helperUops ::= S |>)) with (l_continuePastFLR l).
  change (l_loopControlPC (l <| l_pc := next |> <| l_helperUops ::= S |>)) with (l_loopControlPC l).
  change (l_program (l <| l_pc := next |> <| l_helperUops ::= S |>)) with (l_program l).
  rewrite Hcl, Hc, E1, (proj2 (Z.eqb_neq _ _) Hl), Hf. simpl. by destruct (budget cfg <=? _)%nat.
Qed.

Lemma commit_leaves n next l k :
  settled l → leaves (templates (l_program l)) k next →
  l_uopIndex (commit_lane (Replay.uop_at (templates (l_program l)) k) n next l) = l_uopIndex l.
Proof.
  intros Hs Hl. pose proof (commit_closes _ k l _ Hs eq_refl eq_refl) as Hcl.
  unfold commit_lane. cbv zeta. destruct (next =? 0); [done|].
  change (l_stridePC (l <| l_pc := next |> <| l_helperUops ::= S |>)) with (l_stridePC l).
  change (l_continuePastFLR (l <| l_pc := next |> <| l_helperUops ::= S |>)) with (l_continuePastFLR l).
  change (l_loopControlPC (l <| l_pc := next |> <| l_helperUops ::= S |>)) with (l_loopControlPC l).
  change (l_program (l <| l_pc := next |> <| l_helperUops ::= S |>)) with (l_program l).
  rewrite Hcl. clear Hcl. destruct Hl as [Hf|Hc].
  - destruct (_ && _); [done|]. by rewrite Hf.
  - rewrite Hc, orb_true_r. unfold closes in Hc. apply andb_prop in Hc as [Hc _].
    destruct Hs as (_ & _ & _ & ->). by rewrite Hc, orb_true_r.
Qed.

(** A lane after the loop: as before, or committed with its own outcome. *)
Definition committed (bid : nat) (u : Uop) (sp : Split) (seed l l' : Lane) : Prop :=
  l' = l ∨ ∃ next, l_bank l = bid ∧ l_active l = true ∧ l_program l = l_program seed
           ∧ s_outcomes sp !! l_lane l = Some next ∧ l' = commit_lane u (length (s_paths sp)) next l.

Lemma committed_program bid u sp seed l l' : committed bid u sp seed l l' → l_program l' = l_program l.
Proof.
  intros [->|(next & _ & _ & _ & _ & ->)]; [done|].
  by destruct (commit_lane_spec u (length (s_paths sp)) next l) as ([]%identity_inv & _).
Qed.

Lemma commit_at_spec bid u sp k i ls seed l :
  ls !! i = Some l → ls !!! k = seed →
  commit_at (Some bid) u sp k i ls
  = if l_active l && (l_bank l =? bid)%nat && (l_program l =? l_program seed)%nat
       && (l_uopIndex l =? l_uopIndex seed)%nat
    then match s_outcomes sp !! l_lane l with
         | Some next => <[i := commit_lane u (length (s_paths sp)) next l]> ls
         | None => ls
         end
    else ls.
Proof.
  intros Hi Hk. unfold commit_at. rewrite Hk, (list_lookup_total_correct _ _ _ Hi).
  rewrite (bool_decide_ext (Some bid = Some (l_bank l)) (l_bank l = bid)) by (split; congruence).
  by destruct (Nat.eqb_spec (l_bank l) bid); case_bool_decide.
Qed.

Lemma commit_spec bid u sp k ls seed :
  ls !! k = Some seed →
  Forall2 (committed bid u sp seed) ls (commit_branch (Some bid) u sp k ls).
Proof.
  intros Hk. unfold commit_branch.
  set (P := λ (j : nat) (acc : list Lane), length acc = length ls
       ∧ (∀ i, (j <= i)%nat → acc !! i = ls !! i)
       ∧ ∀ i l, (i < j)%nat → ls !! i = Some l → ∃ l', acc !! i = Some l' ∧ committed bid u sp seed l l').
  cut (P (0 + length ls)%nat (for_range 0 (length ls) (commit_at (Some bid) u sp k) ls)).
  { intros (Hlen & _ & Hc). apply Forall2_same_length_lookup_2; [done|]. intros i l l' Hl Hl'.
    destruct (Hc i l) as (l2 & Hl2 & ?); [by eapply lookup_lt_Some|done|]. congruence. }
  apply for_range_rule; [split; [done|]; split; [done|lia]|].
  intros j acc Hj (Hlen & Hrest & Hdone).
  destruct (lookup_lt_is_Some_2 ls j) as [l Hl]; [lia|].
  assert (Hacc : acc !! j = Some l) by (by rewrite Hrest).
  assert (Hseed : l_program (acc !!! k) = l_program seed).
  { destruct (decide (k < j)%nat).
    - destruct (Hdone k seed) as (l' & Hl' & Hc); [done|done|].
      rewrite (list_lookup_total_correct _ _ _ Hl'). by eapply committed_program.
    - rewrite (list_lookup_total_correct _ _ seed); [done|]. rewrite Hrest by lia. done. }
  rewrite (commit_at_spec _ _ _ _ _ _ _ _ Hacc eq_refl), Hseed.
  assert (Hsame : P (S j) acc).
  { split; [done|]. split; [intros i Hi; apply Hrest; lia|]. intros i li Hi Hli.
    destruct (decide (i = j)) as [->|]; [|apply Hdone; [lia|done]].
    exists li. split; [congruence|by left]. }
  destruct (_ && _) eqn:Econd; [|exact Hsame].
  rewrite !andb_true_iff, !Nat.eqb_eq in Econd. destruct Econd as [[[Ha Hb] Hp] _].
  destruct (s_outcomes sp !! l_lane l) as [next|] eqn:Eo; [|exact Hsame].
  destruct Hsame as (_ & S2 & S3). split; [by rewrite length_insert|]. split.
  - intros i Hi. rewrite list_lookup_insert_ne by lia. by apply S2.
  - intros i li Hi Hli. destruct (decide (i = j)) as [->|Hne].
    + rewrite list_lookup_insert_eq by (by eapply lookup_lt_Some). eexists. split; [done|].
      right. exists next. assert (li = l) as -> by congruence. done.
    + rewrite list_lookup_insert_ne by done. by apply S3.
Qed.

(** Once the seed has moved, no later lane at its old uop is committed. *)
Lemma commit_seed_only bid u sp k ls seed next :
  ls !! k = Some seed → l_active seed = true → l_bank seed = bid →
  s_outcomes sp !! l_lane seed = Some next →
  l_uopIndex (commit_lane u (length (s_paths sp)) next seed) ≠ l_uopIndex seed →
  ∀ i l, (k < i)%nat → ls !! i = Some l → l_uopIndex l = l_uopIndex seed →
  commit_branch (Some bid) u sp k ls !! i = Some l.
Proof.
  intros Hk Ha Hb Ho Hidx. set (seed' := commit_lane _ _ _ _) in *.
  assert (Hklt : (k < length ls)%nat) by (by eapply lookup_lt_Some).
  set (P := λ (j : nat) (acc : list Lane), length acc = length ls
       ∧ (∀ i, (j <= i)%nat → acc !! i = ls !! i)
       ∧ ((j <= k)%nat → acc !! k = Some seed) ∧ ((k < j)%nat → acc !! k = Some seed')
       ∧ ∀ i l, (k < i)%nat → ls !! i = Some l → l_uopIndex l = l_uopIndex seed → acc !! i = Some l).
  cut (P (0 + length ls)%nat (commit_branch (Some bid) u sp k ls)); [by intros (_ & _ & _ & _ & H5)|].
  unfold commit_branch. apply for_range_rule.
  { split; [done|]. split; [done|]. split; [done|]. split; [lia|done]. }
  intros j acc Hj (Hlen & Hrest & Hbefore & Hafter & Hkeep).
  destruct (lookup_lt_is_Some_2 ls j) as [l Hl]; [lia|].
  assert (Hacc : acc !! j = Some l) by (by rewrite Hrest).
  rewrite (commit_at_spec _ _ _ _ _ _ _ _ Hacc eq_refl).
  destruct (decide (j = k)) as [->|Hjk].
  - rewrite (list_lookup_total_correct _ _ seed) by (by apply Hbefore).
    assert (l = seed) as -> by congruence. rewrite Ha, Hb, !Nat.eqb_refl, Ho. cbn [andb]. fold seed'.
    split; [by rewrite length_insert|]. split; [intros i Hi; rewrite list_lookup_insert_ne by lia; apply Hrest; lia|].
    split; [lia|]. split; [intros _; apply list_lookup_insert_eq; lia|].
    intros i l' Hi Hl' He. rewrite list_lookup_insert_ne by lia. by apply Hkeep.
  - assert (Hsame : ∀ acc', (acc' = acc ∨ ((j < k)%nat ∨ l_uopIndex l ≠ l_uopIndex seed) ∧ ∃ x, acc' = <[j := x]> acc) →
      P (S j) acc').
    { intros acc' [->|[Hw (x & ->)]].
      - split; [done|]. split; [intros i Hi; apply Hrest; lia|]. split; [intros; apply Hbefore; lia|].
        split; [intros; apply Hafter; lia|done].
      - unfold P. rewrite length_insert. split; [done|].
        split; [intros i Hi; rewrite list_lookup_insert_ne by lia; apply Hrest; lia|].
        rewrite !(list_lookup_insert_ne _ j k) by done. split; [intros; apply Hbefore; lia|].
        split; [intros; apply Hafter; lia|].
        intros i li Hi Hli He. rewrite list_lookup_insert_ne; [by apply Hkeep|].
        intros ->. assert (li = l) as -> by congruence. destruct Hw; [lia|done]. }
    apply Hsame. destruct (_ && _) eqn:Econd; [|by left].
    rewrite !andb_true_iff, !Nat.eqb_eq in Econd. destruct Econd as [_ Hi].
    destruct (s_outcomes sp !! l_lane l) as [nx|]; [|by left]. right. split; [|by eexists].
    destruct (decide (j < k)%nat); [by left|]. right.
    rewrite (list_lookup_total_correct _ _ seed') in Hi by (apply Hafter; lia). congruence.
Qed.

(** ** The frames of a split *)

(** The lane and its place in the program are those of another. *)
Definition same_spot l l' : Prop :=
  identity l' = identity l ∧ l_pc l' = l_pc l ∧ l_uopIndex l' = l_uopIndex l.

#[export] Instance same_spot_preorder : PreOrder same_spot.
Proof. split; [by intros l|]. intros l1 l2 l3 (? & ? & ?) (? & ? & ?). unfold same_spot. split_and!; congruence. Qed.

Lemma on_path_spec bid p f l :
  (∀ l, same_spot l (f l) ∧ (l_blocked l = true → l_blocked (f l) = true)) →
  same_spot l (on_path bid p f l) ∧ (l_blocked l = true → l_blocked (on_path bid p f l) = true)
  ∧ (l_bank l ≠ bid ∨ mask_test (p_mask p) (l_lane l) = false → on_path bid p f l = l)
  ∧ (l_bank l = bid → mask_test (p_mask p) (l_lane l) = true → on_path bid p f l = f l).
Proof.
  intros Hf. unfold on_path. destruct (Nat.eqb_spec (l_bank l) bid) as [Hb|Hb]; cbn [andb].
  - destruct (mask_test (p_mask p) (l_lane l)); [|by split_and!].
    destruct (Hf l). split_and!; [done|done| |done]. by intros [].
  - by split_and!.
Qed.

(** One path is deferred or dropped. *)
Lemma push_path_ok bid join sel p ls g e :
  let e1 := set_group bid g (set_elanes ls e) in
  let r := push_path bid join sel p (ls, g) in
  let e2 := set_group bid r.2 (set_elanes r.1 e) in
  lanes_ok e1 →
  (∀ f x, f ∈ stack g → (x < 128)%nat → mask_test (p_mask p) x = true → mask_test (f_mask f) x = false) →
  (∀ l, l ∈ ls → l_bank l = bid → mask_test (p_mask p) (l_lane l) = true →
        rtc (lane_step (templates (l_program l))) (l_pc l, row (banks e) l) (p_pc p, row (banks e) l)) →
  lanes_ok e2 ∧ walks e1 e2 ∧ Forall2 same_spot ls r.1
  ∧ (stack r.2 = stack g ∨ ∃ f, stack r.2 = f :: stack g ∧ f_mask f = p_mask p).
Proof.
  intros e1 r e2 Hok Hfresh Hwalk.
  assert (Hst : stack (group_of bid e1) = stack g) by (unfold e1; by rewrite group_of_set, decide_True).
  unfold e2, r, push_path in *. clear e2 r.
  destruct (Nat.leb_spec Entries (length (stack g))) as [Hfull|Hroom]; cbn [fst snd].
  - assert (Hf : ∀ l, same_spot l (ended External l) ∧ (l_blocked l = true → l_blocked (ended External l) = true))
      by (intros l; by split_and!).
    destruct (set_lanes_ok e1 (on_path bid p (ended External) <$> ls) Hok) as [O2 W2].
    { apply Forall2_fmap_r, Forall_Forall2_diag, Forall_forall. intros l _.
      destruct (on_path_spec bid p (ended External) l Hf) as ((Hi & Hp & _) & _).
      apply moved_stay; [done| |done]. unfold on_path. by destruct (_ && _). }
    split_and!; [exact O2|exact W2| |by left].
    apply Forall2_fmap_r, Forall_Forall2_diag, Forall_forall. intros l _. by apply on_path_spec.
  - set (f := mkFrame (p_pc sel) (p_mask sel) join (p_pc p) (p_mask p) true (p_taken p)).
    set (block := λ l : Lane, l <| l_blocked := true |>).
    assert (Hf : ∀ l, same_spot l (block l) ∧ (l_blocked l = true → l_blocked (block l) = true))
      by (intros l; by split_and!).
    set (e2 := set_group bid (g <| stack ::= λ fs, f :: fs |>) (set_elanes (on_path bid p block <$> ls) e)).
    assert (Hst2 : stack (group_of bid e2) = f :: stack g) by (unfold e2; by rewrite group_of_set, decide_True).
    destruct (regroup_ok bid e1 e2 Hok) as [O2 W2].
    + done.
    + intros b Hne. unfold e1, e2. by rewrite !group_of_set, !decide_False.
    + pose proof (inv_frames _ Hok bid) as [F1 F2 F3]. rewrite Hst in F1, F2, F3. rewrite Hst2. split.
      * simpl. lia.
      * intros f' l' Hf' (l & -> & Hl)%list_elem_of_fmap.
        destruct (on_path_spec bid p block l Hf) as ((Hi & _) & Hkeep & _ & Hon).
        destruct (identity_inv _ _ Hi) as (_ & -> & -> & _). intros Hb Hm.
        apply elem_of_cons in Hf' as [->|Hf']; [by rewrite Hon|]. by apply Hkeep, (F2 f').
      * intros [|i] [|j] fi fj x Hi Hj Hx Hmi Hmj; [done| | |].
        -- injection Hi as <-. rewrite (Hfresh fj x) in Hmj; [done|by eapply list_elem_of_lookup_2|done|done].
        -- injection Hj as <-. rewrite (Hfresh fi x) in Hmi; [done|by eapply list_elem_of_lookup_2|done|done].
        -- f_equal. by apply (F3 i j fi fj x).
    + apply Forall2_fmap_r, Forall_Forall2_diag, Forall_forall. intros l Hl.
      destruct (on_path_spec bid p block l Hf) as ((Hi & Hp & _) & Hkeep & Hoff & Hon).
      split; [|by intros _]. split; [done|]. destruct (identity_inv _ _ Hi) as (_ & Eb & El & _).
      unfold position, row. rewrite Eb, El. change (banks e2) with (banks e1).
      destruct (decide (l_bank l = bid)) as [Hb|Hne].
      2:{ unfold e1, e2. rewrite !group_of_set, !decide_False by done. by rewrite (pending_lane _ l (on_path bid p block l)). }
      rewrite Hb, Hst2, Hst, pending_cons, El. cbn [f_mask f_pc f].
      destruct (mask_test (p_mask p) (l_lane l)) eqn:Hm; [|by rewrite (pending_lane _ l (on_path bid p block l))].
      rewrite pending_none; [rewrite <- Hb; by apply Hwalk|].
      intros f' Hf'. apply Hfresh; [done| |done]. by apply (inv_lane _ Hok l Hl).
    + split_and!; [exact O2|exact W2| |right; by exists f].
      apply Forall2_fmap_r, Forall_Forall2_diag, Forall_forall. intros l _. by apply on_path_spec.
Qed.

Lemma push_paths_ok bid join (sp : Split) bs cs ls g e js :
  let e1 := set_group bid g (set_elanes ls e) in
  let r := foldr (λ k acc, if (k =? s_selected sp)%nat then acc
                           else push_path bid join (s_paths sp !!! s_selected sp) (s_paths sp !!! k) acc)
             (ls, g) js in
  let e2 := set_group bid r.2 (set_elanes r.1 e) in
  outcomes_ok bs cs (s_outcomes sp) (s_paths sp) → lanes_ok e1 →
  NoDup js → (∀ k, k ∈ js → (k < length (s_paths sp))%nat) →
  (∀ f x next, f ∈ stack g → (x < 128)%nat → s_outcomes sp !! x = Some next → mask_test (f_mask f) x = false) →
  (∀ l next, l ∈ ls → l_bank l = bid → s_outcomes sp !! l_lane l = Some next →
        rtc (lane_step (templates (l_program l))) (l_pc l, row (banks e) l) (next, row (banks e) l)) →
  lanes_ok e2 ∧ walks e1 e2 ∧ Forall2 same_spot ls r.1
  ∧ ∀ f, f ∈ stack r.2 → f ∈ stack g ∨ ∃ k p, k ∈ js ∧ k ≠ s_selected sp ∧ s_paths sp !! k = Some p
                                              ∧ f_mask f = p_mask p.
Proof.
  intros e1 r e2 HO Hok. unfold e2, r. clear e2 r. induction js as [|k js IH]; intros Hn Hlt Hold Hwalk.
  { split; [done|]. split; [done|]. split; [by apply Forall_Forall2_diag, Forall_forall|by left]. }
  apply NoDup_cons in Hn as [Hk Hn]. cbn [foldr].
  destruct IH as (O2 & W2 & S2 & N2); [done|intros; apply Hlt; by right|done|done|].
  destruct (Nat.eqb_spec k (s_selected sp)) as [->|Hsel].
  { split_and!; [done|done|done|]. intros f Hf. destruct (N2 f Hf) as [?|(i & p & Hi & ?)]; [by left|].
    right. exists i, p. split; [by right|done]. }
  destruct (foldr _ (ls, g) js) as [ls2 g2]. cbn [fst snd] in O2, W2, S2, N2.
  destruct (lookup_lt_is_Some_2 (s_paths sp) k) as [p Hp]; [apply Hlt; by left|].
  rewrite (list_lookup_total_correct _ _ _ Hp).
  assert (Hpin : p ∈ s_paths sp) by (by eapply list_elem_of_lookup_2).
  destruct (push_path_ok bid join (s_paths sp !!! s_selected sp) p ls2 g2 e O2) as (O3 & W3 & S3 & N3).
  - intros f x Hf Hx Hm. apply (path_mask _ _ _ _ HO p x Hpin Hx) in Hm.
    destruct (N2 f Hf) as [Hg|(i & q & Hi & _ & Hq & ->)]; [by eapply Hold|].
    apply not_true_is_false. intros Hmq.
    assert (Hqin : q ∈ s_paths sp) by (by eapply list_elem_of_lookup_2).
    apply (path_mask _ _ _ _ HO q x Hqin Hx) in Hmq. rewrite Hm in Hmq. injection Hmq as Hpq.
    assert (i = k) as ->; [|done].
    eapply (NoDup_lookup (p_pc <$> s_paths sp)); [apply HO| |]; rewrite list_lookup_fmap; [by rewrite Hq|].
    rewrite Hp. simpl. by rewrite Hpq.
  - intros l' (i & Hi)%list_elem_of_lookup Hb Hm.
    destruct (Forall2_lookup_r _ _ _ _ _ S2 Hi) as (l & Hl & Hid & Hpc & _).
    destruct (identity_inv _ _ Hid) as (Ep & Eb & El & _). rewrite Ep, Hpc. unfold row. rewrite Eb, El.
    assert (Hlin : l ∈ ls) by (by eapply list_elem_of_lookup_2).
    apply Hwalk; [done|congruence|]. apply (path_mask _ _ _ _ HO p); [done| |congruence].
    by apply (inv_lane _ Hok l).
  - split; [done|]. split; [by etrans|]. split.
    { eapply Forall2_trans; [|exact S2|exact S3]. intros x y z. apply transitivity. }
    intros f Hf. destruct N3 as [N3|(f' & N3 & Hm)]; rewrite N3 in Hf.
    + destruct (N2 f Hf) as [?|(i & q & Hi & ?)]; [by left|]. right. exists i, q. split; [by right|done].
    + apply elem_of_cons in Hf as [->|Hf].
      * right. exists k, p. split; [left|]. done.
      * destruct (N2 f Hf) as [?|(i & q & Hi & ?)]; [by left|]. right. exists i, q. split; [by right|done].
Qed.

Lemma tag_lane_spot bid sp l :
  same_spot l (tag_lane bid sp l) ∧ l_blocked (tag_lane bid sp l) = l_blocked l
  ∧ l_active (tag_lane bid sp l) = l_active l.
Proof.
  unfold tag_lane. destruct (_ && _); [|by split_and!]. destruct (s_outcomes sp !! l_lane l); [|by split_and!].
  by destruct (1 <? length (s_paths sp))%nat; split_and!.
Qed.

(** ** The commit as a whole *)

(** A lane that executes is in no frame, and at the uop of its index. *)
Definition runnable e l : Prop :=
  (∀ f, f ∈ stack (group_of (l_bank l) e) → mask_test (f_mask f) (l_lane l) = false)
  ∧ findPC (templates (l_program l)) (l_pc l) = Some (l_uopIndex l).

Lemma matches_inv seed l :
  matches seed l = true →
  l_program l = l_program seed ∧ l_bank l = l_bank seed ∧ l_uopIndex l = l_uopIndex seed
  ∧ copy_of l = copy_of seed ∧ uop_of l = uop_of seed.
Proof.
  unfold matches. rewrite !andb_true_iff, !Nat.eqb_eq. intros [[[[E1 E2] E3] E4] _].
  split_and!; try done. unfold uop_of. by rewrite E1, E3.
Qed.

(** The lane of an outcome, and how it gets there. *)
Lemma outcome_walk now bid e copies seed sp l next :
  lanes_ok e → seed ∈ elanes e → chosen now bid e copies seed → conditional (uop_of seed) = true →
  split_ok bid e seed sp → l ∈ elanes e → l_bank l = bid → s_outcomes sp !! l_lane l = Some next →
  l ∈ candidates bid e seed ∧ l_blocked l = false ∧ l_program l = l_program seed
  ∧ l_uopIndex l = l_uopIndex seed ∧ (∃ taken, next = branch_pc (uop_of seed) taken)
  ∧ rtc (lane_step (templates (l_program l))) (l_pc l, row (banks e) l) (next, row (banks e) l).
Proof.
  intros Hok Hseed Hch Hcond [HO _ _] Hl Hb Ho.
  destruct (out_lane _ _ _ _ HO _ _ Ho) as (l' & taken & Hl' & Hlane & Hn).
  pose proof Hl' as Hcand. apply list_elem_of_filter in Hl' as [Hc Hl'].
  destruct (candidate_inv _ _ _ _ Hc) as (Hg & Hp & Hi).
  destruct (in_group_inv _ _ _ Hg) as (b & [= <-] & Hb' & Ha & Hbl & _ & Hpc & _).
  assert (l' = l) as -> by (apply (same_place (elanes e)); [apply Hok|done|done|congruence|done]).
  assert (Hu : uop_of l = uop_of seed) by (unfold uop_of; by rewrite Hp, Hi).
  destruct (inv_lane _ Hok l Hl) as (Hbank & _ & Ht & _).
  destruct (branch_next_spec _ _ _ _ Hbank Ht Hn) as [Hdir Hnext]. rewrite Hu in Hdir, Hnext.
  split_and!; [done|done|done|done|by exists taken|].
  rewrite Hpc, Hp. eapply rtc_r; [apply (ch_path _ _ _ _ _ Hch)|].
  rewrite Hnext. apply (step_branch _ _ _ (l_uopIndex seed)); [apply Hch|exact Hcond|exact Hdir].
Qed.

(** Any member of the issue group that has an outcome makes the seed have one. *)
Lemma seed_outcome now bid e copies seed sp l :
  seed ∈ elanes e → chosen now bid e copies seed → chosen now bid e copies l → matches seed l = true →
  split_ok bid e seed sp → s_complete sp = true → l ∈ candidates bid e seed →
  seed ∈ candidates bid e seed ∧ is_Some (s_outcomes sp !! l_lane seed).
Proof.
  intros Hin Hs Hl Hm [_ Hcomp _] Hc Hcand.
  apply list_elem_of_filter in Hcand as [[Hg _]%candidate_inv _].
  destruct (in_group_inv _ _ _ Hg) as (b & [= <-] & _ & _ & _ & _ & Hpc & _).
  destruct (matches_inv _ _ Hm) as (Ep & Eb & Ei & _ & Eu).
  assert (Hpcs : l_pc seed = l_pc l).
  { destruct (findPC_Some _ _ _ (ch_pc _ _ _ _ _ Hs)) as (_ & _ & <-).
    destruct (findPC_Some _ _ _ (ch_pc _ _ _ _ _ Hl)) as (_ & _ & <-).
    fold (uop_of seed) (uop_of l). by rewrite Eu. }
  assert (Hcs : seed ∈ candidates bid e seed); [|split; [done|by apply Hcomp]].
  apply list_elem_of_filter. split; [|done]. unfold candidate, in_group, runs.
  destruct (ch_group _ _ _ _ _ Hs) as [-> ->].
  rewrite (ch_active _ _ _ _ _ Hs), (ch_bank _ _ _ _ _ Hs), (ch_running _ _ _ _ _ Hs), Hpcs, Hpc.
  by rewrite !Nat.eqb_refl, Z.eqb_refl.
Qed.

Section branch.
Context (now : Z) (bid : nat) e (copies : list CopyState) (seed : Lane) (k : nat) (js : list nat) (sp : Split).
Context (Hok : lanes_ok e) (Hk : elanes e !! k = Some seed) (Hcond : conditional (uop_of seed) = true).
Context (Hsp : split_ok bid e seed sp) (Hcomp : s_complete sp = true).
Context (Hgroup : issuable now bid e copies seed 0 (elanes e) (k :: js)) (Hafter : ∀ j, j ∈ js → (k < j)%nat).

Let ls1 := commit_branch (Some bid) (uop_of seed) sp k (elanes e).

Lemma group_member j m :
  j ∈ k :: js → elanes e !! j = Some m → chosen now bid e copies m ∧ matches seed m = true.
Proof.
  intros Hj Hm. destruct (proj2 Hgroup j Hj) as (_ & m' & Hm' & ?). rewrite Nat.sub_0_r in Hm'. congruence.
Qed.

Lemma seed_chosen : chosen now bid e copies seed ∧ seed ∈ elanes e.
Proof. split; [eapply group_member; [left|done]|by eapply list_elem_of_lookup_2]. Qed.

Lemma branch_moved : Forall2 (moved e) (elanes e) ls1.
Proof.
  destruct seed_chosen as [Hch Hin].
  pose proof (commit_spec bid (uop_of seed) sp k (elanes e) seed Hk) as Hf. fold ls1 in Hf.
  apply Forall2_same_length_lookup_2; [by eapply Forall2_length|]. intros i l l' Hl Hl'.
  destruct (Forall2_lookup_lr _ _ _ _ _ _ Hf Hl Hl') as [->|(next & Hb & _ & _ & Ho & ->)]; [by apply moved_stay|].
  assert (Hlin : l ∈ elanes e) by (by eapply list_elem_of_lookup_2).
  destruct (commit_lane_spec (uop_of seed) (length (s_paths sp)) next l) as (Hi & Hbl & Hpc & _).
  destruct (outcome_walk now bid e copies seed sp l next) as (_ & Hrun & _ & _ & _ & Hw); try done.
  destruct (identity_inv _ _ Hi) as (_ & Eb & El & _).
  split; [done|]. split; [congruence|]. unfold position, row. rewrite Eb, El.
  rewrite !(pending_running e l) by done. rewrite Hpc. exact Hw.
Qed.

(** After the loop a lane with an outcome is a branch away from it, or there. *)
Lemma branch_next_walk l1 next :
  l1 ∈ ls1 → l_bank l1 = bid → s_outcomes sp !! l_lane l1 = Some next →
  rtc (lane_step (templates (l_program l1))) (l_pc l1, row (banks e) l1) (next, row (banks e) l1).
Proof.
  destruct seed_chosen as [Hch Hin]. intros (i & Hi)%list_elem_of_lookup Hb Ho.
  pose proof (commit_spec bid (uop_of seed) sp k (elanes e) seed Hk) as Hf. fold ls1 in Hf.
  destruct (Forall2_lookup_r _ _ _ _ _ Hf Hi) as (l & Hl & [->|(nx & _ & _ & _ & Ho' & ->)]).
  - assert (Hlin : l ∈ elanes e) by (by eapply list_elem_of_lookup_2).
    by destruct (outcome_walk now bid e copies seed sp l next) as (_ & _ & _ & _ & _ & Hw).
  - destruct (commit_lane_spec (uop_of seed) (length (s_paths sp)) nx l) as (Hid & _ & Hpc & _).
    destruct (identity_inv _ _ Hid) as (_ & _ & El & _). rewrite El in Ho. rewrite Hpc.
    assert (next = nx) as -> by congruence. done.
Qed.

(** A member of the group that is past the branch has been committed; where the branch has a join
    it is the seed. *)
Lemma member_past j m m1 :
  j ∈ k :: js → elanes e !! j = Some m → ls1 !! j = Some m1 → conditional (uop_of m1) = false →
  l_blocked m = false ∧ findPC (templates (l_program m1)) (l_pc m1) = Some (l_uopIndex m1)
  ∧ m ∈ candidates bid e seed ∧ (reconvergencePC (uop_of seed) ≠ 0 → j = k).
Proof.
  intros Hj Hm Hm1 Hnc. destruct seed_chosen as [Hch Hin].
  destruct (group_member j m Hj Hm) as [Hmc Hmm]. destruct (matches_inv _ _ Hmm) as (Ep & Eb & Ei & _ & Eu).
  assert (Hmin : m ∈ elanes e) by (by eapply list_elem_of_lookup_2).
  pose proof (commit_spec bid (uop_of seed) sp k (elanes e) seed Hk) as Hf. fold ls1 in Hf.
  destruct (Forall2_lookup_lr _ _ _ _ _ _ Hf Hm Hm1) as [->|(next & Hb & Ha & _ & Ho & ->)]; [congruence|].
  destruct (outcome_walk now bid e copies seed sp m next) as (Hcand & Hrun & _ & _ & (taken & Hnext) & _); try done.
  destruct (commit_lane_spec (uop_of seed) (length (s_paths sp)) next m) as (Hid & _ & Hpc & Hidx).
  destruct (identity_inv _ _ Hid) as (Epm & _).
  assert (Hne : l_uopIndex (commit_lane (uop_of seed) (length (s_paths sp)) next m) ≠ l_uopIndex m).
  { intros Heq. unfold uop_of in Hnc at 1. rewrite Epm, Heq in Hnc. fold (uop_of m) in Hnc. congruence. }
  split; [done|]. split; [rewrite Epm, Hpc; by destruct Hidx|]. split; [done|]. intros Hjoin.
  destruct (inv_lane _ Hok m Hmin) as (_ & _ & Hset). destruct (inv_lane _ Hok seed Hin) as (_ & _ & Hset').
  pose proof Hset' as (Ht & _). destruct (findPC_Some _ _ _ (ch_pc _ _ _ _ _ Hch)) as (_ & Hrange & _).
  destruct (tidy_branch _ Ht _ Hrange Hcond) as [Hz|[Hst|Hlv]]; [done| |].
  2:{ destruct Hne. unfold uop_of. rewrite <- Ep. apply commit_leaves; [done|]. rewrite Ep, Hnext. apply Hlv. }
  apply elem_of_cons in Hj as [->|Hj]; [done|]. exfalso. apply Hne.
  destruct (seed_outcome now bid e copies seed sp m) as [Hsc [nx Hnx]]; try done.
  destruct (outcome_walk now bid e copies seed sp seed nx) as (_ & _ & _ & _ & (tk & Htk) & _); try done; [apply Hch|].
  destruct (commit_stays (length (s_paths sp)) nx seed (l_uopIndex seed) Hset') as (k' & _ & Hk' & Hidx').
  { rewrite Htk. apply Hst. }
  assert (Hstay : ls1 !! j = Some m).
  { apply (commit_seed_only bid (uop_of seed) sp k (elanes e) seed nx); try done; try apply Hch; [|by apply Hafter].
    fold (uop_of seed) in Hidx'. by rewrite Hidx'. }
  rewrite Hm1 in Hstay. injection Hstay as ->. done.
Qed.

(** The lanes and the group once the paths that are not selected have their frames. *)
Let pushes := (1 <? length (s_paths sp))%nat && negb (reconvergencePC (uop_of seed) =? 0).
Let r := if pushes then push_paths bid (reconvergencePC (uop_of seed)) sp (ls1, group_of bid e)
         else (ls1, group_of bid e).

Lemma pushes_ok :
  lanes_ok (set_group bid r.2 (set_elanes r.1 e)) ∧ walks e (set_group bid r.2 (set_elanes r.1 e))
  ∧ Forall2 same_spot ls1 r.1
  ∧ ∀ f, f ∈ stack r.2 → f ∈ stack (group_of bid e) ∨ reconvergencePC (uop_of seed) ≠ 0 ∧
      ∃ i p, i ≠ s_selected sp ∧ s_paths sp !! i = Some p ∧ f_mask f = p_mask p.
Proof.
  pose proof (sp_outcomes _ _ _ _ Hsp) as HO.
  destruct (set_lanes_ok e ls1 Hok branch_moved) as [O1 W1].
  destruct (same_view_ok (set_elanes ls1 e) (set_group bid (group_of bid e) (set_elanes ls1 e)) O1) as [O1' W1'];
    [done|done| |].
  { intros b. rewrite group_of_set. by case_decide; [subst b|]. }
  unfold r. destruct pushes eqn:Hp.
  2:{ split; [exact O1'|]. split; [by etrans|]. split; [by apply Forall_Forall2_diag, Forall_forall|by left]. }
  destruct (push_paths_ok bid (reconvergencePC (uop_of seed)) sp (banks e) (candidates bid e seed) ls1
              (group_of bid e) e (seq 0 (length (s_paths sp)))) as (O2 & W2 & S2 & N2); try done.
  - apply NoDup_seq.
  - intros i Hi. apply elem_of_seq in Hi. lia.
  - intros f x next Hf Hx Ho. destruct (out_lane _ _ _ _ HO _ _ Ho) as (l & _ & Hl & <- & _).
    apply list_elem_of_filter in Hl as [[Hg _]%candidate_inv Hl].
    destruct (in_group_inv _ _ _ Hg) as (b & [= <-] & Hb & _ & Hbl & _).
    apply (running_free e); [done|done|done|]. by rewrite Hb.
  - intros l next Hl. by apply branch_next_walk.
  - split; [exact O2|]. split; [by do 2 (etrans; [eassumption|])|]. split; [exact S2|].
    intros f Hf. destruct (N2 f Hf) as [?|(i & p & _ & ?)]; [by left|]. right.
    unfold pushes in Hp. apply andb_prop in Hp as [_ Hp]. apply negb_true_iff, Z.eqb_neq in Hp.
    split; [done|by exists i, p].
Qed.

(** A member that is past the branch is in none of the frames. *)
Lemma member_free j m m1 f :
  j ∈ k :: js → elanes e !! j = Some m → ls1 !! j = Some m1 → conditional (uop_of m1) = false →
  f ∈ stack r.2 → mask_test (f_mask f) (l_lane m) = false.
Proof.
  intros Hj Hm Hm1 Hnc Hf. pose proof (sp_outcomes _ _ _ _ Hsp) as HO. destruct seed_chosen as [_ Hin].
  destruct (member_past j m m1 Hj Hm Hm1 Hnc) as (Hrun & _ & Hcand & Hjoin).
  destruct (group_member j m Hj Hm) as [Hmc _]. destruct pushes_ok as (_ & _ & _ & N2).
  assert (Hmin : m ∈ elanes e) by (by eapply list_elem_of_lookup_2).
  destruct (N2 f Hf) as [Hold|(Hr0 & i & p & Hi & Hp & ->)].
  { apply (running_free e m f Hok Hmin Hrun). by rewrite (ch_bank _ _ _ _ _ Hmc). }
  rewrite (Hjoin Hr0) in *. assert (m = seed) as -> by congruence.
  apply not_true_is_false. intros Hmask. destruct (inv_lane _ Hok seed Hin) as (_ & Hx & _).
  apply (path_mask _ _ _ _ HO p _ ltac:(by eapply list_elem_of_lookup_2) Hx) in Hmask.
  destruct (sp_selected _ _ _ _ Hsp Hcand _ Hmask) as (q & Hq & Hqp). apply Hi.
  eapply (NoDup_lookup (p_pc <$> s_paths sp)); [apply HO| |]; rewrite list_lookup_fmap; [by rewrite Hp|].
  rewrite Hq. simpl. by rewrite Hqp.
Qed.

Lemma commit_split_eq :
  ∃ g, stack g = stack r.2
  ∧ commit_split bid (uop_of seed) sp k e = set_group bid g (set_elanes (tag_lane bid sp <$> r.1) e).
Proof.
  unfold commit_split. rewrite Hcond, Hcomp. cbn [andb]. fold ls1 pushes. unfold r.
  destruct pushes; [|by eexists].
  destruct (push_paths _ _ _ _) as [ls g]. eexists. split; [apply refresh_stack|done].
Qed.

Let e' := commit_split bid (uop_of seed) sp k e.

(** The branch keeps every lane on its program, and the members that execute are at their uop. *)
Lemma commit_split_ok :
  lanes_ok e' ∧ walks e e' ∧ banks e' = banks e ∧ thread e' = (thread e) <| replayLanes := elanes e' |>
  ∧ ∀ j m', j ∈ k :: js → elanes e' !! j = Some m' → conditional (uop_of m') = false → runnable e' m'.
Proof.
  destruct pushes_ok as (O2 & W2 & S2 & _). destruct commit_split_eq as (g & Hg & He).
  unfold e'. rewrite He. clear e' He.
  destruct (set_lanes_ok (set_group bid r.2 (set_elanes r.1 e)) (tag_lane bid sp <$> r.1) O2) as [O3 W3].
  { apply Forall2_fmap_r, Forall_Forall2_diag, Forall_forall. intros l _.
    destruct (tag_lane_spot bid sp l) as ((? & ? & _) & ? & _). by apply moved_stay. }
  destruct (same_view_ok (set_elanes (tag_lane bid sp <$> r.1) (set_group bid r.2 (set_elanes r.1 e)))
              (set_group bid g (set_elanes (tag_lane bid sp <$> r.1) e)) O3) as [O4 W4]; [done|done| |].
  { intros b. rewrite group_of_set. change (group_of b (set_elanes ?x ?y)) with (group_of b y).
    rewrite group_of_set. by case_decide. }
  split; [done|]. split; [by do 2 (etrans; [eassumption|])|]. split; [done|]. split; [done|].
  intros j m' Hj Hm' Hnc. change (elanes (set_group ?b ?x (set_elanes ?ls e))) with ls in Hm'.
  rewrite list_lookup_fmap in Hm'. destruct (r.1 !! j) as [m2|] eqn:Hm2; [|done]. injection Hm' as <-.
  destruct (Forall2_lookup_r _ _ _ _ _ S2 Hm2) as (m1 & Hm1 & Hs1).
  destruct (Forall2_lookup_r _ _ _ _ _ branch_moved Hm1) as (m & Hm & (Hid0 & _)).
  assert (Hs : same_spot m1 (tag_lane bid sp m2)) by (etrans; [exact Hs1|apply tag_lane_spot]).
  destruct Hs as (Hid & Hpc & Hidx). destruct (identity_inv _ _ Hid) as (Ep & Eb & El & _).
  destruct (identity_inv _ _ Hid0) as (_ & Eb0 & El0 & _).
  assert (Hu : uop_of (tag_lane bid sp m2) = uop_of m1) by (unfold uop_of; by rewrite Ep, Hidx).
  rewrite Hu in Hnc. destruct (member_past j m m1 Hj Hm Hm1 Hnc) as (_ & Hf & _).
  destruct (group_member j m Hj Hm) as [Hmc _].
  split; [|by rewrite Ep, Hpc, Hidx]. rewrite Eb, El, Eb0, El0, (ch_bank _ _ _ _ _ Hmc).
  rewrite group_of_set, decide_True, Hg by done. intros f. by apply (member_free j m m1).
Qed.
End branch.

(** ** The VIR and the rename leave the lanes where they are *)

Definition still e e' : Prop :=
  Forall2 same_spot (elanes e) (elanes e') ∧ ∀ b, stack (group_of b e') = stack (group_of b e).

#[export] Instance still_preorder : PreOrder still.
Proof.
  split.
  - intros e. split; [by apply Forall_Forall2_diag, Forall_forall|done].
  - intros e1 e2 e3 [H1 S1] [H2 S2]. split; [|intros b; by rewrite S2].
    eapply Forall2_trans; [|exact H1|exact H2]. intros x y z. apply transitivity.
Qed.

Definition group_runs e (group : list nat) : Prop :=
  ∀ j m, j ∈ group → elanes e !! j = Some m → conditional (uop_of m) = false → runnable e m.

Lemma still_runs e e' group : still e e' → group_runs e group → group_runs e' group.
Proof.
  intros [Hf Hs] Hr j m' Hj Hm' Hc. destruct (Forall2_lookup_r _ _ _ _ _ Hf Hm') as (m & Hm & Hi & Hp & Hx).
  destruct (identity_inv _ _ Hi) as (Ep & Eb & El & _).
  assert (Hu : uop_of m' = uop_of m) by (unfold uop_of; by rewrite Ep, Hx).
  rewrite Hu in Hc. destruct (Hr j m Hj Hm Hc) as [H1 H2].
  split; [by rewrite Eb, El, Hs|by rewrite Ep, Hp, Hx].
Qed.

Lemma row_same bs bs' l :
  same_values bs bs' → (l_lane l < 128)%nat → row bs' l = row bs l.
Proof.
  intros Hv Hl. unfold row. specialize (Hv (l_bank l)).
  destruct (bs !! l_bank l), (bs' !! l_bank l); try done.
  apply list_fmap_ext. intros i r Hr. apply lookup_seq in Hr as [-> Hr]. apply Hv; [lia|done].
Qed.

Lemma same_banks_ok e bs :
  lanes_ok e → banks_good bs → same_values (banks e) bs →
  lanes_ok (e <| banks := bs |>) ∧ walks e (e <| banks := bs |>).
Proof.
  intros [I1 I2 I3 I4] Hg Hv. split.
  - split; [done| |done|done]. intros l Hl. destruct (I2 l Hl) as ([b Hb] & ? & ?). split; [|done]. simpl.
    specialize (Hv (l_bank l)). rewrite Hb in Hv. by destruct (bs !! l_bank l).
  - apply Forall_Forall2_diag, Forall_forall. intros l Hl. split; [done|]. unfold position. simpl.
    rewrite (row_same (banks e) bs); [done|done|]. by apply I2.
Qed.

Lemma hold_names_spec u lanes acc b :
  bank_good b → bank_good (foldl (hold_lane u) (acc, b) lanes).2
  ∧ ∀ a x, (a < 32)%nat → (x < 128)%nat → bank_read a x (foldl (hold_lane u) (acc, b) lanes).2 = bank_read a x b.
Proof.
  revert acc b. induction lanes as [|y lanes IH]; intros [n0 n1] b Hb; [done|]. cbn [foldl hold_lane].
  set (p0 := if 0 <=? source0 u then _ else _). set (p1 := if 0 <=? source1 u then _ else _).
  destruct (bank_retain_spec p0 b Hb) as [G0 R0]. destruct (bank_retain_spec p1 _ G0) as [G1 R1].
  destruct (IH (n0 ++ [p0], n1 ++ [p1]) _ G1) as [G2 R2]. split; [done|].
  intros a x Ha Hx. by rewrite R2, R1, R0.
Qed.

Lemma issueReplayChunk_lanes {Lane} (h h' : Helper.Thread Lane) t :
  issueReplayChunk t h = Some h' → replayLanes h' = replayLanes h.
Proof. unfold issueReplayChunk. destruct (_ || _); [done|]. intros [= <-]. by destruct (_ && _). Qed.

Lemma issue_group_spec u group now t s :
  lanes_ok (engine (sys s)) → readyUops (thread (engine (sys s))) ≠ 0%nat →
  vectorChunkModel (thread (engine (sys s))) = true →
  ∃ s', issue_group u group now t s = Some s'
  ∧ lanes_ok (engine (sys s')) ∧ walks (engine (sys s)) (engine (sys s')) ∧ still (engine (sys s)) (engine (sys s'))
  ∧ mem (sys s') = mem (sys s)
  ∧ (∃ w, vir s' = issue_copy w (vir s) ∧ d_lanes w = (λ i, l_lane (elanes (engine (sys s)) !!! i)) <$> group
          ∧ d_copy w = copy_of (default inhabitant (head ((λ i, elanes (engine (sys s)) !!! i) <$> group))))
  ∧ issueReplayChunk t (thread (engine (sys s))) = Some (thread (engine (sys s')))
  ∧ elanes (engine (sys s')) = elanes (engine (sys s)).
Proof.
  intros Hok Hr Hv. unfold issue_group. set (e := engine (sys s)) in *.
  set (members := (λ i, elanes e !!! i) <$> group). set (seed := default inhabitant (head members)).
  destruct (hold_names u (l_lane <$> members) (banks e !! l_bank seed)) as [names b] eqn:Eh.
  unfold issueReplayChunk at 1. rewrite (proj2 (Nat.eqb_neq _ _) Hr), Hv. cbn [negb orb mbind option_bind].
  set (h := if exhausted _ && _ && _ then _ else _).
  assert (Eq : issueReplayChunk t (thread e) = Some h).
  { unfold issueReplayChunk. rewrite (proj2 (Nat.eqb_neq _ _) Hr), Hv. done. }
  eexists. split; [done|]. simpl.
  set (bs := match b with Some b => <[l_bank seed := b]> (banks e) | None => banks e end).
  assert (Hbs : banks_good bs ∧ same_values (banks e) bs).
  { unfold bs, hold_names in *. destruct (banks e !! l_bank seed) as [b0|] eqn:Eb.
    - destruct (foldl _ _ _) as [nm b1] eqn:Ef. injection Eh as <- <-.
      destruct (hold_names_spec u (l_lane <$> members) ([], []) b0 (inv_good _ Hok _ _ Eb)) as [G R].
      rewrite Ef in G, R. split; [by apply banks_good_insert; [apply Hok|]|by eapply same_values_insert].
    - injection Eh as <- <-. split; [apply Hok|done]. }
  destruct Hbs as [G V]. destruct (same_banks_ok e bs Hok G V) as [O1 W1].
  assert (Hl : replayLanes h = elanes e) by (by eapply issueReplayChunk_lanes).
  destruct (same_view_ok (e <| banks := bs |>) (e <| banks := bs |> <| thread := h |>)) as [O2 W2]; try done.
  split; [done|]. split; [by etrans|]. split.
  { split; [|done]. unfold elanes. simpl. rewrite Hl. by apply Forall_Forall2_diag, Forall_forall. }
  split; [done|]. split; [|done]. eexists. split; [done|]. simpl. split; [|done].
  unfold members. by rewrite <- list_fmap_compose.
Qed.

(** Only the activity of a lane changes. *)
Definition paused l l' : Prop := same_spot l l' ∧ l_blocked l' = l_blocked l.

Lemma deactivate_spot group ls : Forall2 paused ls (deactivate group ls).
Proof.
  revert ls. induction group as [|i group IH]; intros ls.
  { by apply Forall_Forall2_diag, Forall_forall. }
  unfold deactivate. cbn [foldl]. fold (deactivate group (alter (λ l : Lane, l <| l_active := false |>) i ls)).
  apply (Forall2_trans paused paused paused _ (alter (λ l : Lane, l <| l_active := false |>) i ls)); [|..|apply IH].
  - intros x y z [H1 E1] [H2 E2]. split; [by etrans|congruence].
  - apply (Forall2_alter_r paused); [by apply Forall_Forall2_diag, Forall_forall|]. by intros x y _ _ [].
Qed.

(** The copies in flight with their lanes. *)
Definition occupants (v : Vir) : list (nat * list nat) := (λ u, (d_copy u, d_lanes u)) <$> virBuffer v.

Lemma markDeadSources_occupants bid dead v : occupants (markDeadSources bid dead v) = occupants v.
Proof.
  unfold occupants, markDeadSources. simpl. rewrite <- list_fmap_compose. apply list_fmap_ext.
  intros i u _. simpl. by destruct (d_bank u =? bid)%nat.
Qed.

Lemma rename_destination_spec bid u group e v :
  lanes_ok e →
  ∃ e' v', rename_destination bid u group (e, v) = Some (e', v')
  ∧ lanes_ok e' ∧ walks e e' ∧ still e e' ∧ thread e' = (thread e) <| replayLanes := elanes e' |>
  ∧ (vir_ok v → vir_ok v') ∧ occupants v' = occupants v.
Proof.
  intros Hok. unfold rename_destination.
  set (members := (λ i, elanes e !!! i) <$> group). set (seed := default inhabitant (head members)).
  assert (Hsame : ∃ e' v', Some (e, v) = Some (e', v') ∧ lanes_ok e' ∧ walks e e' ∧ still e e'
    ∧ thread e' = (thread e) <| replayLanes := elanes e' |> ∧ (vir_ok v → vir_ok v')
    ∧ occupants v' = occupants v).
  { exists e, v. split_and!; try done. unfold elanes. by destruct (thread e). }
  destruct (banks e !! l_bank seed) as [b|] eqn:Eb; [|done].
  destruct (_ && _ && _ && _); [|done]. clear Hsame.
  set (vd := (_ || _) && _). set (m := rename_mask _ _ _ _ _). set (d := Z.to_nat (destination u)).
  assert (Hr : ∃ ok b', (if vd then bank_rename_vector d m b else bank_rename_scalar d m b) = Some (ok, b')
    ∧ bank_good b' ∧ ∀ a x, (a < 32)%nat → (x < 128)%nat → bank_read a x b' = bank_read a x b).
  { pose proof (inv_good _ Hok _ _ Eb) as Hg. destruct vd; [by apply bank_rename_vector_spec|by apply bank_rename_scalar_spec]. }
  destruct Hr as (ok & b' & -> & Hg & Hreads). cbn [mbind option_bind].
  destruct (same_banks_ok e (<[l_bank seed := b']> (banks e)) Hok) as [O1 W1].
  { apply banks_good_insert; [apply Hok|done]. }
  { by eapply same_values_insert. }
  set (g := (group_of bid e) <| renamedDestinations ::= λ ks, {[rename_key u seed m]} ∪ ks |>).
  set (e1 := (set_group bid g e) <| banks ::= λ bs, <[l_bank seed := b']> bs |>).
  destruct (same_view_ok (e <| banks := <[l_bank seed := b']> (banks e) |>) e1 O1) as [O2 W2]; [done|done| |].
  { intros c. unfold e1. change (group_of c ((set_group bid g e) <| banks ::= ?f |>)) with (group_of c (set_group bid g e)).
    rewrite group_of_set. case_decide; [by subst c|done]. }
  assert (S1 : still e e1).
  { split; [by apply Forall_Forall2_diag, Forall_forall|]. intros c. unfold e1.
    change (group_of c ((set_group bid g e) <| banks ::= ?f |>)) with (group_of c (set_group bid g e)).
    rewrite group_of_set. case_decide; [by subst c|done]. }
  destruct ok.
  - eexists _, _. split; [done|]. split; [exact O2|]. split; [by etrans|]. split; [exact S1|]. split.
    + unfold e1, elanes. simpl. by destruct (thread e).
    + split; [apply markDeadSources_ok|apply markDeadSources_occupants].
  - eexists _, _. split; [done|].
    destruct (set_lanes_ok e1 (deactivate group (elanes e1)) O2) as [O3 W3].
    { eapply Forall2_impl; [apply deactivate_spot|]. intros l l' [(Hi & Hp & _) Hb]. by apply moved_stay. }
    split; [exact O3|]. split; [by do 2 (etrans; [eassumption|])|]. split; [|done].
    destruct S1 as [_ S1]. split; [|exact S1].
    eapply Forall2_impl; [apply (deactivate_spot group (elanes e))|]. by intros l l' [? _].
Qed.

(** ** Execution *)

Lemma insert_moved e i l l' :
  lanes_ok e → elanes e !! i = Some l → moved e l l' →
  lanes_ok (set_elanes (<[i := l']> (elanes e)) e) ∧ walks e (set_elanes (<[i := l']> (elanes e)) e).
Proof.
  intros Hok Hi Hm. apply set_lanes_ok; [done|].
  apply Forall2_same_length_lookup_2; [by rewrite length_insert|]. intros j x x' Hx Hx'.
  apply list_lookup_insert_Some in Hx' as [(<- & <- & _)|[Hne Hx']]; [congruence|].
  assert (x' = x) as -> by congruence. by apply moved_stay.
Qed.

(** A running lane takes one step of its program, its registers as they are. *)
Lemma step_moved e l l' :
  lanes_ok e → l ∈ elanes e → runnable e l →
  identity l' = identity l → (l_blocked l = true → l_blocked l' = true) →
  lane_step (templates (l_program l)) (l_pc l, row (banks e) l) (l_pc l', row (banks e) l) →
  moved e l l'.
Proof.
  intros Hok Hl [Hfree _] Hi Hb Hs. split; [done|]. split; [done|].
  destruct (identity_inv _ _ Hi) as (_ & Eb & El & _). unfold position, row. rewrite Eb, El.
  rewrite (pending_none _ l) by done. rewrite (pending_none _ l') by (by rewrite El). by apply rtc_once.
Qed.

(** A write to a lane of a bank is seen by no other lane. *)
Lemma row_write bs b l d v t l' :
  bs !! l_bank l = Some b → bank_good b → (d < 32)%nat → (l_lane l < 128)%nat → (l_lane l' < 128)%nat →
  row (alter (bank_write d (l_lane l) v t) (l_bank l) bs) l'
  = if decide (l_bank l' = l_bank l ∧ l_lane l' = l_lane l) then <[d := v]> (row bs l') else row bs l'.
Proof.
  intros Hb Hg Hd Hl Hl'. unfold row. destruct (decide (l_bank l' = l_bank l)) as [He|Hne].
  - rewrite He, lookup_alter_eq, Hb. cbn [fmap option_fmap option_map].
    apply list_eq. intros r. destruct (decide (r < 32)%nat) as [Hr|Hr].
    + rewrite list_lookup_fmap, lookup_seq_lt by done. cbn [fmap option_fmap option_map].
      rewrite bank_read_write by done.
      destruct (decide (l_lane l' = l_lane l)) as [Hll|Hll].
      * rewrite (decide_True (P := l_bank l = l_bank l ∧ _)) by done.
        destruct (decide (r = d)) as [->|Hrd].
        -- rewrite decide_True by done. rewrite list_lookup_insert_eq; [done|]. by rewrite length_fmap, length_seq.
        -- rewrite decide_False by (by intros []). rewrite list_lookup_insert_ne by done.
           by rewrite list_lookup_fmap, lookup_seq_lt.
      * rewrite decide_False by (by intros []). rewrite decide_False by (by intros []).
        by rewrite list_lookup_fmap, lookup_seq_lt.
    + rewrite lookup_ge_None_2 by (rewrite length_fmap, length_seq; lia).
      symmetry. apply lookup_ge_None_2. case_decide; rewrite ?length_insert, length_fmap, length_seq; lia.
  - rewrite lookup_alter_ne by done. by rewrite decide_False by (by intros []).
Qed.

(** The result of a lane's uop. *)
Lemma write_moved e i l d v t l' :
  lanes_ok e → elanes e !! i = Some l → runnable e l → (0 < d < 32)%nat →
  identity l' = identity l → l_blocked l' = l_blocked l →
  lane_step (templates (l_program l)) (l_pc l, row (banks e) l) (l_pc l', <[d := v]> (row (banks e) l)) →
  let e' := set_elanes (<[i := l']> (elanes e)) (e <| banks ::= alter (bank_write d (l_lane l) v t) (l_bank l) |>) in
  lanes_ok e' ∧ walks e e'.
Proof.
  intros Hok Hi [Hfree _] Hd Hid Hbl Hs e'. assert (Hl : l ∈ elanes e) by (by eapply list_elem_of_lookup_2).
  destruct (inv_lane _ Hok l Hl) as ([b Hb] & Hx & _). pose proof (inv_good _ Hok _ _ Hb) as Hg.
  destruct (identity_inv _ _ Hid) as (Ep & Eb & El & Eset).
  assert (Hnew : ∀ j x', <[i := l']> (elanes e) !! j = Some x' →
            ∃ x, elanes e !! j = Some x ∧ identity x' = identity x ∧ l_blocked x' = l_blocked x).
  { intros j x' Hx'. apply list_lookup_insert_Some in Hx' as [(<- & <- & _)|[_ ?]]; [by exists l|by exists x']. }
  assert (Hbanks : banks e' = alter (bank_write d (l_lane l) v t) (l_bank l) (banks e)) by done.
  split.
  - split.
    + intros k b' Hk. rewrite Hbanks in Hk. apply lookup_alter_Some in Hk as [(_ & b0 & Hb0 & ->)|[_ Hk]].
      * apply bank_write_good; [by eapply (inv_good _ Hok)|lia|done].
      * by eapply (inv_good _ Hok).
    + intros x' (j & Hj)%list_elem_of_lookup. destruct (Hnew j x' Hj) as (x & Hxj & Hix & _).
      destruct (identity_inv _ _ Hix) as (_ & Exb & Exl & Exs).
      destruct (inv_lane _ Hok x ltac:(by eapply list_elem_of_lookup_2)) as (? & ? & ?).
      rewrite Hbanks, Exb, Exl. split_and!; [|done|by apply Exs].
      destruct (decide (l_bank x = l_bank l)) as [->|Hne]; [rewrite lookup_alter_eq; by apply fmap_is_Some|by rewrite lookup_alter_ne].
    + change (elanes e') with (<[i := l']> (elanes e)). rewrite list_fmap_insert, list_insert_id; [apply Hok|].
      rewrite list_lookup_fmap, Hi. simpl. by rewrite Eb, El.
    + intros bid. destruct (inv_frames _ Hok bid) as [F1 F2 F3]. split; [done| |done].
      intros f x' Hf (j & Hj)%list_elem_of_lookup Hbx Hm. destruct (Hnew j x' Hj) as (x & Hxj & Hix & ->).
      destruct (identity_inv _ _ Hix) as (_ & Exb & Exl & _).
      apply (F2 f x); [done|by eapply list_elem_of_lookup_2|congruence|congruence].
  - apply Forall2_same_length_lookup_2; [change (elanes e') with (<[i := l']> (elanes e)); by rewrite length_insert|]. intros j x x' Hxj Hx'.
    assert (Hxin : x ∈ elanes e) by (by eapply list_elem_of_lookup_2).
    destruct (inv_lane _ Hok x Hxin) as (_ & Hx128 & _).
    apply list_lookup_insert_Some in Hx' as [(<- & <- & _)|[Hne Hx']].
    + assert (x = l) as -> by congruence. split; [done|]. unfold position. rewrite Hbanks.
      rewrite (row_write _ b) by (done || lia || by rewrite El). rewrite decide_True by done.
      change (group_of (l_bank l') e') with (group_of (l_bank l') e). rewrite Eb.
      rewrite (pending_none _ l) by done. rewrite (pending_none _ l') by (by rewrite El).
      unfold row at 2. rewrite Eb, El. by apply rtc_once.
    + assert (x' = x) as -> by congruence. split; [done|]. unfold position. rewrite Hbanks.
      rewrite (row_write _ b) by (done || lia). rewrite decide_False; [done|].
      intros [Hb1 Hl1]. apply Hne. assert (x = l) as -> by (by apply (same_place (elanes e)); [apply Hok|..]).
      eapply (NoDup_lookup _ i j (l_bank l, l_lane l) (inv_nodup _ Hok)); rewrite list_lookup_fmap; [by rewrite Hi|by rewrite Hxj].
Qed.

(** A request that the program of one of the lanes computes. *)
Definition emitted e (r : Request) : Prop :=
  ∃ l c, l ∈ elanes e ∧ rtc (lane_step (templates (l_program l))) (position e l) c
         ∧ requests (templates (l_program l)) c (req_pc r) (address r)
         ∧ source r = false ∧ oracle r = false ∧ lane r = l_lane l ∧ bank r = Some (l_bank l)
         ∧ replay r = Some (l_program l).

Lemma emitted_before e e' r : walks e e' → emitted e' r → emitted e r.
Proof.
  intros Hw (l' & c & (i & Hi)%list_elem_of_lookup & Hr & Hq & ? & ? & ? & ? & ?).
  destruct (Forall2_lookup_r _ _ _ _ _ Hw Hi) as (l & Hl & Hid & Hw').
  destruct (identity_inv _ _ Hid) as (Ep & Eb & El & _). rewrite Ep in *.
  exists l, c. split; [by eapply list_elem_of_lookup_2|]. split; [by etrans|].
  split_and!; [done|done|done|congruence|congruence|congruence].
Qed.

Lemma end_spent_spot l :
  identity (end_spent l) = identity l ∧ l_blocked (end_spent l) = l_blocked l ∧ l_pc (end_spent l) = l_pc l.
Proof. done. Qed.

Lemma skip_load_spec l :
  identity (skip_load l) = identity l ∧ l_blocked (skip_load l) = l_blocked l ∧ l_pc (skip_load l) = next_pc l.
Proof. unfold skip_load. cbv zeta. by destruct (spent _). Qed.

Lemma step_value_spec u v t l :
  identity (step_value u v t l) = identity l ∧ l_blocked (step_value u v t l) = l_blocked l
  ∧ l_pc (step_value u v t l) = successor_pc u l.
Proof. unfold step_value, write_result. cbv zeta. destruct (tracked _); by destruct (spent _). Qed.

(** What one execution keeps of the rest of the machine. *)
Record executed (i : nat) (y y' : Sys B) : Prop := mkExecuted {
  ex_ok : lanes_ok (engine y');
  ex_walks : walks (engine y) (engine y');
  ex_groups : groups (engine y') = groups (engine y);
  ex_others : ∀ j, j ≠ i → elanes (engine y') !! j = elanes (engine y) !! j;
  ex_thread : thread (engine y') = (thread (engine y)) <| replayLanes := elanes (engine y') |>;
  ex_mem : mem y' = mem y ∨ ∃ r, mem y' = push_dependent (line_size cfg) r (mem y)
           ∧ full (mem y) = false ∧ emitted (engine y) r
}.

Lemma thread_lanes (h : Helper.Thread Lane) : h = h <| replayLanes := replayLanes h |>.
Proof. by destruct h. Qed.

Lemma executed_refl i y : lanes_ok (engine y) → executed i y y.
Proof. intros Hok. split; try done; [apply thread_lanes|by left]. Qed.

Lemma set_lane_executed i l l' y :
  lanes_ok (engine y) → elanes (engine y) !! i = Some l → moved (engine y) l l' →
  executed i y (set_lane i l' y).
Proof.
  intros Hok Hi Hm. destruct (insert_moved _ i l l' Hok Hi Hm) as [O W].
  split; [exact O|exact W|done| |done|by left].
  intros j Hj. apply list_lookup_insert_ne. congruence.
Qed.

Lemma stop_executed i l y why :
  lanes_ok (engine y) → elanes (engine y) !! i = Some l → executed i y (set_lane i (ended why l) y).
Proof. intros Hok Hi. apply (set_lane_executed i l); [done|done|by apply moved_stay]. Qed.

Lemma reach_load_executed t i l u a y :
  lanes_ok (engine y) → elanes (engine y) !! i = Some l → runnable (engine y) l → u = uop_of l →
  conditional u = false → load u = true → tainted u = true → result_of u (row (banks (engine y)) l) = Some a →
  executed i y (reach_load t i l u a y).
Proof.
  intros Hok Hi Hrun -> Hc Hl Ht Hv. assert (Hin : l ∈ elanes (engine y)) by (by eapply list_elem_of_lookup_2).
  unfold reach_load. destruct (_ || _); [by apply stop_executed|].
  destruct (negb (relation_match _ _ _ _)); [by apply stop_executed|].
  destruct (negb (dependent_prefetch cfg)); [by apply stop_executed|].
  destruct (Replay.queueable a) eqn:Hq; [|by apply stop_executed]. cbn [negb]. cbv zeta.
  assert (Hreq : requests (templates (l_program l)) (l_pc l, row (banks (engine y)) l) (Uop.pc (uop_of l)) a).
  { exists (l_uopIndex l). split; [apply Hrun|]. by split_and!. }
  set (l' := if l_continuePastFLR l then l <| l_pc := 0 |> else ended FLR l).
  assert (Hm : moved (engine y) l l').
  { unfold l'. destruct (l_continuePastFLR l); [|by apply moved_stay].
    apply step_moved; try done. by eapply step_request. }
  set (y1 := push_lane_target cfg l (Uop.pc (uop_of l)) a t y).
  assert (Hy1 : engine y1 = engine y ∧ (mem y1 = mem y ∨ ∃ r, mem y1 = push_dependent (line_size cfg) r (mem y)
           ∧ full (mem y) = false ∧ emitted (engine y) r)).
  { unfold y1, push_lane_target. destruct (_ && _) eqn:Ep; [|by split; [|left]]. split; [done|]. right.
    apply andb_prop in Ep as [_ Hfull]. apply negb_true_iff in Hfull.
    eexists. split; [reflexivity|]. split; [done|].
    exists l, (l_pc l, row (banks (engine y)) l). split; [done|]. split; [|by split_and!].
    unfold position. by rewrite pending_none by apply Hrun. }
  set (y2 := if _ && _ then y1 <| alternateLines ::= _ |> else y1).
  assert (Hy2 : engine y2 = engine y ∧ mem y2 = mem y1) by (unfold y2; destruct (_ && _); by split; [apply Hy1|]).
  destruct Hy1 as [E1 M1], Hy2 as [E2 M2].
  destruct (set_lane_executed i l l' y2) as [X1 X2 X3 X4 X5 _]; [by rewrite E2|by rewrite E2|by rewrite E2|].
  rewrite E2 in *. split; try done. change (mem (set_lane i l' y2)) with (mem y2). by rewrite M2.
Qed.

Lemma exec_lane_spec t y i :
  lanes_ok (engine y) → group_runs (engine y) [i] → (i < length (elanes (engine y)))%nat →
  executed i y (exec_lane t y i).
Proof.
  intros Hok Hrun Hlt. destruct (lookup_lt_is_Some_2 _ _ Hlt) as [l Hi]. unfold exec_lane.
  rewrite (list_lookup_total_correct _ _ _ Hi).
  assert (Hin : l ∈ elanes (engine y)) by (by eapply list_elem_of_lookup_2).
  destruct (inv_lane _ Hok l Hin) as (Hbank & _ & Ht & _).
  destruct (conditional (uop_of l)) eqn:Hc; [by apply executed_refl|].
  assert (Hr : runnable (engine y) l) by (apply (Hrun i); [left|done|done]). clear Hrun.
  rewrite !row_operand by (done || apply (tidy_sources _ Ht)).
  change (evaluate (uop_of l) _ _) with (result_of (uop_of l) (row (banks (engine y)) l)).
  destruct (result_of _ _) as [v|] eqn:Hv; [|by apply stop_executed].
  destruct (load (uop_of l)) eqn:Hld.
  { destruct (tainted (uop_of l)) eqn:Htn; [by apply reach_load_executed|].
    destruct (skip_load_spec l) as (S1 & S2 & S3). apply (set_lane_executed i l); [done|done|].
    apply step_moved; [done|done|done|done|by rewrite S2|]. rewrite S3.
    by apply (step_load _ _ _ (l_uopIndex l) v); [apply Hr|..]. }
  destruct (step_value_spec (uop_of l) v t l) as (S1 & S2 & S3).
  assert (Hstep : lane_step (templates (l_program l)) (l_pc l, row (banks (engine y)) l)
            (l_pc (step_value (uop_of l) v t l), written (uop_of l) v (row (banks (engine y)) l))).
  { rewrite S3. replace (successor_pc (uop_of l) l) with (successor (templates (l_program l)) (l_uopIndex l)).
    - apply (step_result _ _ _ (l_uopIndex l) v); [apply Hr|done..].
    - unfold successor_pc, successor, uop_of in *. rewrite Hc. cbn [negb]. by rewrite andb_true_r. }
  unfold written in Hstep. destruct (tracked (destination (uop_of l))) eqn:Htr.
  - apply tracked_range in Htr. pose proof (tidy_destination _ Ht (l_uopIndex l)) as Hd.
    fold (uop_of l) in Hd. unfold Replay.MaxRegs in Hstep.
    rewrite (proj2 (Z.ltb_lt _ _)), (proj2 (Z.ltb_lt _ _)) in Hstep by lia. cbn [andb] in Hstep.
    destruct (write_moved (engine y) i l (Z.to_nat (destination (uop_of l))) v t
                (step_value (uop_of l) v t l)) as [O W]; try done; [lia|].
    split; [exact O|exact W|done| |done|by left].
    intros j Hj. apply list_lookup_insert_ne. congruence.
  - apply (set_lane_executed i l); [done|done|]. apply step_moved; [done|done|done|done|by rewrite S2|].
    destruct (_ && _) eqn:E in Hstep; [|done]. apply andb_prop in E as [E1 E2].
    apply Z.ltb_lt in E1, E2. assert (tracked (destination (uop_of l)) = true); [|congruence].
    apply tracked_range. unfold Replay.MaxRegs in E2. lia.
Qed.

(** Memory side and helper of two machines between which only lanes and requests have moved. *)
Lemma sys_ok_frame (y y' : Sys B) :
  sys_ok cfg 0 y → mem_ok (line_size cfg) (mem y') → flight (mem y') = flight (mem y) →
  keeps (thread (engine y)) (thread (engine y')) → sys_ok cfg 0 y'.
Proof. intros [H1 H2 H3] Hm Hf Hk. destruct (Hk H2) as [? E]. split; [done|done|]. by rewrite E, Hf. Qed.

Lemma executed_sys_ok i (y y' : Sys B) : executed i y y' → sys_ok cfg 0 y → sys_ok cfg 0 y'.
Proof.
  intros X Hs. apply (sys_ok_frame y).
  - done.
  - destruct (ex_mem _ _ _ X) as [->|(r & -> & Hf & _ & _ & _ & _ & _ & Hr & _)]; [apply Hs|].
    apply push_dependent_ok; [apply Hs|done|done].
  - by destruct (ex_mem _ _ _ X) as [->|(r & -> & _)].
  - rewrite (ex_thread _ _ _ X). apply (lanes_keep (λ _, elanes (engine y'))).
Qed.

(** The requests an issue adds to the front of the queue. *)
Definition queued_from e (m m' : Mem) : Prop :=
  ∃ rs, queue m' = rs ++ queue m ∧ ∀ r, r ∈ rs → emitted e r.

Lemma exec_group_spec t group : ∀ y,
  lanes_ok (engine y) → group_runs (engine y) group → NoDup group →
  (∀ i, i ∈ group → (i < length (elanes (engine y)))%nat) →
  let y' := foldl (exec_lane t) y group in
  lanes_ok (engine y') ∧ walks (engine y) (engine y')
  ∧ thread (engine y') = (thread (engine y)) <| replayLanes := elanes (engine y') |>
  ∧ queued_from (engine y) (mem y) (mem y') ∧ (sys_ok cfg 0 y → sys_ok cfg 0 y').
Proof.
  induction group as [|i group IH]; intros y Hok Hrun Hn Hlt.
  { split; [done|]. split; [done|]. split; [apply thread_lanes|]. split; [|done].
    exists []. split; [done|]. by intros r ?%elem_of_nil. }
  apply NoDup_cons in Hn as [Hi Hn]. cbn [foldl].
  assert (X : executed i y (exec_lane t y i)).
  { apply exec_lane_spec; [done| |apply Hlt; left].
    intros j m Hj%list_elem_of_singleton. subst j. apply Hrun. left. }
  pose proof X as [X1 X2 X3 X4 X5 X6].
  destruct (IH (exec_lane t y i)) as (O & W & T & (rs & Hq & Hrs) & Hsys); [done| |done| |].
  - intros j m Hj Hm Hc. rewrite X4 in Hm by (intros ->; done).
    destruct (Hrun j m) as [H1 H2]; [by right|done|done|]. split; [|done]. unfold group_of. by rewrite X3.
  - intros j Hj. rewrite <- (Forall2_length _ _ _ X2). apply Hlt. by right.
  - split; [done|]. split; [by etrans|]. split; [by rewrite T, X5|].
    split; [|intros Hs; by eapply Hsys, executed_sys_ok].
    assert (Hold : ∀ r, r ∈ rs → emitted (engine y) r) by (intros r Hr; eapply emitted_before; [exact X2|by apply Hrs]).
    destruct X6 as [X6|(r & X6 & _ & Hr)]; rewrite X6 in Hq.
    + by exists rs.
    + exists (rs ++ [r]). split; [by rewrite Hq, <- app_assoc|].
      intros r' [?|Hr']%elem_of_app; [by apply Hold|]. by apply list_elem_of_singleton in Hr' as ->.
Qed.

(** ** The issue as a whole *)

(** The machine between two calls: the lanes and their frames, the copies in flight, the queue and
    the helper are in order, and the helper runs vector chunks. *)
Record simt_ok s : Prop := mkSimtOk {
  simt_lanes : lanes_ok (engine (sys s));
  simt_vir : vir_ok (vir s);
  simt_sys : sys_ok cfg 0 (sys s);
  simt_vector : vectorChunkModel (thread (engine (sys s))) = true
}.

(** Every lane left is one of before, any number of steps of its program further on. *)
Definition follows e e' : Prop := ∀ l', l' ∈ elanes e' → ∃ l, l ∈ elanes e ∧ walked e e' l l'.

#[export] Instance follows_preorder : PreOrder follows.
Proof.
  split.
  - intros e l Hl. exists l. by split.
  - intros e1 e2 e3 H1 H2 l3 Hl3. destruct (H2 l3 Hl3) as (l2 & Hl2 & E2 & W2).
    destruct (H1 l2 Hl2) as (l1 & Hl1 & E1 & W1). exists l1. split; [done|]. split; [by rewrite E2|].
    destruct (identity_inv _ _ E1) as (Ep & _). rewrite Ep in W2. by etrans.
Qed.

Lemma walks_follows e e' : walks e e' → follows e e'.
Proof.
  intros Hw l' (i & Hi)%list_elem_of_lookup. destruct (Forall2_lookup_r _ _ _ _ _ Hw Hi) as (l & Hl & ?).
  exists l. split; [by eapply list_elem_of_lookup_2|done].
Qed.

(** Lanes are dropped. *)
Lemma drop_ok (P : Lane → Prop) `{∀ l, Decision (P l)} e :
  lanes_ok e → lanes_ok (set_elanes (filter P (elanes e)) e) ∧ follows e (set_elanes (filter P (elanes e)) e).
Proof.
  intros [I1 I2 I3 I4]. assert (Hin : ∀ l, l ∈ filter P (elanes e) → l ∈ elanes e)
    by (intros l [_ ?]%list_elem_of_filter; done).
  split.
  - split; [done| | |].
    + intros l Hl. by apply I2, Hin.
    + eapply sublist_NoDup; [exact I3|]. apply fmap_sublist, sublist_filter.
    + intros bid. destruct (I4 bid) as [F1 F2 F3]. split; [done| |done].
      intros f l Hf Hl. by apply F2; [|apply Hin].
  - intros l Hl. exists l. split; [by apply Hin|]. by split.
Qed.

(** One call: the machine stays in order, the lanes follow their programs and what is queued is
    what these compute. *)
Record advances s s' : Prop := mkAdvances {
  adv_ok : simt_ok s';
  adv_follows : follows (engine (sys s)) (engine (sys s'));
  adv_queue : queued_from (engine (sys s)) (mem (sys s)) (mem (sys s'))
}.

Lemma queued_nothing e (m : Mem) : queued_from e m m.
Proof. exists []. split; [done|]. by intros r ?%elem_of_nil. Qed.

Lemma emitted_follows e e' r : follows e e' → emitted e' r → emitted e r.
Proof.
  intros Hf (l' & c & Hl' & Hr & Hq & ? & ? & ? & ? & ?). destruct (Hf l' Hl') as (l & Hl & Hid & Hw).
  destruct (identity_inv _ _ Hid) as (Ep & Eb & El & _). rewrite Ep in *.
  exists l, c. split; [done|]. split; [by etrans|]. split_and!; [done|done|done|congruence|congruence|congruence].
Qed.

Lemma advances_trans s1 s2 s3 : advances s1 s2 → advances s2 s3 → advances s1 s3.
Proof.
  intros [_ F1 (rs1 & Q1 & E1)] [O2 F2 (rs2 & Q2 & E2)]. split; [done|by etrans|].
  exists (rs2 ++ rs1). split; [by rewrite Q2, Q1, app_assoc|].
  intros r [Hr|Hr]%elem_of_app; [|by apply E1]. by eapply emitted_follows, E2.
Qed.

(** A change of the engine alone. *)
Lemma engine_advances (f : Engine B → Engine B) s :
  simt_ok s → lanes_ok (f (engine (sys s))) → follows (engine (sys s)) (f (engine (sys s))) →
  keeps (thread (engine (sys s))) (thread (f (engine (sys s)))) →
  vectorChunkModel (thread (f (engine (sys s)))) = true → advances s (on_engine f s).
Proof.
  intros [H1 H2 H3 H4] Hl Hf Hk Hv. split; [|done|apply queued_nothing].
  split; [done|done| |done]. by apply on_engine_ok.
Qed.

Lemma set_elanes_keeps ls e : keeps (thread e) (thread (set_elanes ls e)).
Proof. apply (lanes_keep (λ _, ls)). Qed.

Lemma frontend_advances pc s : simt_ok s → advances s (on_engine (λ e, e <| thread ::= retireFrontend pc |>) s).
Proof.
  intros Hok. assert (Hsame : replayLanes (retireFrontend pc (thread (engine (sys s)))) = elanes (engine (sys s))
    ∧ vectorChunkModel (retireFrontend pc (thread (engine (sys s)))) = vectorChunkModel (thread (engine (sys s)))
    ∧ readyUops (retireFrontend pc (thread (engine (sys s)))) = readyUops (thread (engine (sys s)))).
  { unfold retireFrontend. by destruct (list_find _ _) as [[]|]. }
  destruct Hsame as (El & Ev & _).
  destruct (same_view_ok (engine (sys s)) ((engine (sys s)) <| thread ::= retireFrontend pc |>)) as [O W];
    [apply Hok|exact El|done|done|].
  apply engine_advances; [done|exact O|by apply walks_follows| |].
  - by apply (quiet_keep (Helper.ORetire pc)).
  - simpl. rewrite Ev. apply Hok.
Qed.

(** The issue group in the engine, and its branch. *)
Definition admissible (now : Z) (bid : nat) (copies : list CopyState) (k : nat) (js : list nat) (seed : Lane)
    (sp : Split) e : Prop :=
  elanes e !! k = Some seed ∧ issuable now bid e copies seed 0 (elanes e) (k :: js)
  ∧ (∀ j, j ∈ js → (k < j)%nat) ∧ split_branch now (Some bid) e seed = Some sp.

Lemma commit_group_ok now bid copies k js seed sp e :
  lanes_ok e → admissible now bid copies k js seed sp e →
  let e' := commit_split bid (uop_of seed) sp k e in
  lanes_ok e' ∧ walks e e' ∧ group_runs e' (k :: js) ∧ banks e' = banks e
  ∧ thread e' = (thread e) <| replayLanes := elanes e' |>.
Proof.
  intros Hok (Hk & Hg & Hafter & Hsp). destruct (conditional (uop_of seed)) eqn:Hc.
  - pose proof (split_spec now bid e seed sp Hok Hc Hsp) as Hsplit.
    destruct (s_complete sp) eqn:Hcomp.
    + destruct (commit_split_ok now bid e copies seed k js sp) as (O & W & Eb & Et & Hr); try done.
    + unfold commit_split. rewrite Hc, Hcomp. cbn [andb]. split; [done|]. split; [done|].
      split; [|split; [done|apply thread_lanes]]. intros j m Hj Hm Hnc. exfalso.
      destruct (group_member now bid e copies seed k js Hg j m Hj Hm) as [_ Hmm].
      destruct (matches_inv _ _ Hmm) as (_ & _ & _ & _ & Eu). congruence.
  - unfold commit_split. rewrite Hc. cbn [andb]. split; [done|]. split; [done|].
    split; [|split; [done|apply thread_lanes]]. intros j m Hj Hm _.
    destruct (group_member now bid e copies seed k js Hg j m Hj Hm) as [Hmc _]. split; [|apply Hmc].
    intros f. apply running_free; [done|by eapply list_elem_of_lookup_2|apply Hmc].
Qed.

(** What an issue adds to the VIR: one uop, for up to eight lanes of one copy that was free. *)
Definition issues_copy (v v' : Vir) : Prop :=
  ∃ c lanes, occupants v' = occupants v ++ [(c, lanes)]
  ∧ (c < VIRCopies)%nat ∧ c_issued (virCopies v !!! c) = false
  ∧ (1 ≤ length lanes ≤ LanesPerVIRCopy)%nat ∧ NoDup lanes
  ∧ ∀ x, x ∈ lanes → (x / LanesPerVIRCopy)%nat = c.

(** The group's lanes are distinct lanes of the seed's copy. *)
Lemma group_lanes now bid e copies seed k js e' :
  lanes_ok e → elanes e !! k = Some seed → issuable now bid e copies seed 0 (elanes e) (k :: js) →
  walks e e' →
  let lanes := (λ i, l_lane (elanes e' !!! i)) <$> k :: js in
  NoDup lanes ∧ ∀ x, x ∈ lanes → (x / LanesPerVIRCopy)%nat = copy_of seed.
Proof.
  intros Hok Hk Hg Hw lanes.
  assert (Hlane : ∀ j, j ∈ k :: js → ∃ m, elanes e !! j = Some m ∧ l_lane (elanes e' !!! j) = l_lane m
            ∧ l_bank m = l_bank seed ∧ copy_of m = copy_of seed).
  { intros j Hj. destruct (proj2 Hg j Hj) as (_ & m & Hm & _ & Hmm). rewrite Nat.sub_0_r in Hm.
    destruct (Forall2_lookup_l _ _ _ _ _ Hw Hm) as (m' & Hm' & Hid & _).
    destruct (identity_inv _ _ Hid) as (_ & _ & El & _).
    destruct (matches_inv _ _ Hmm) as (_ & Eb & _ & Ec & _).
    exists m. rewrite (list_lookup_total_correct _ _ _ Hm'). done. }
  split.
  - apply NoDup_fmap_2_strong; [|apply Hg]. intros i j Hi Hj Heq.
    destruct (Hlane i Hi) as (mi & Hmi & Ei & Bi & _). destruct (Hlane j Hj) as (mj & Hmj & Ej & Bj & _).
    eapply (NoDup_lookup _ i j (l_bank seed, l_lane mi) (inv_nodup _ Hok)); rewrite list_lookup_fmap.
    + rewrite Hmi. simpl. by rewrite Bi.
    + rewrite Hmj. simpl. rewrite Bj. do 2 f_equal. congruence.
  - intros x (j & -> & Hj)%list_elem_of_fmap. destruct (Hlane j Hj) as (m & _ & El & _ & Ec). by rewrite El.
Qed.

Lemma issuable_seed now bid e copies seed k js ls :
  ls !! k = Some seed → issuable now bid e copies seed 0 ls (k :: js) → chosen now bid e copies seed.
Proof.
  intros Hk Hg. destruct (proj2 Hg k ltac:(left)) as (_ & m & Hm & Hc & _).
  rewrite Nat.sub_0_r in Hm. congruence.
Qed.

(** The end of an issue: the ended lanes leave and the group is refreshed. *)
Lemma retire_refresh_ok bid e :
  lanes_ok e → lanes_ok (refresh bid (retire_terminated e)) ∧ follows e (refresh bid (retire_terminated e)).
Proof.
  intros O. destruct (drop_ok (λ l, l_active l = true) e O) as [O5 F5]. fold (retire_terminated e) in O5, F5.
  destruct (same_view_ok (retire_terminated e) (refresh bid (retire_terminated e)) O5) as [O6 W6]; [done|done| |].
  { intros b. unfold refresh. rewrite group_of_set. case_decide; [subst b; apply refresh_stack|done]. }
  split; [exact O6|]. etrans; [exact F5|by apply walks_follows].
Qed.

Lemma issueReplayChunk_keeps t (h h' : Helper.Thread Lane) :
  vectorChunkModel h = true → issueReplayChunk t h = Some h' → vectorChunkModel h' = true ∧ keeps h h'.
Proof.
  intros Hv Hi. split; [|by apply (quiet_keep (Helper.OIssueChunk t))].
  unfold issueReplayChunk in Hi. destruct (_ || _); [done|]. injection Hi as <-. by destruct (_ && _).
Qed.

(** The uop of the group occupies the copy of its seed. *)
Lemma group_copy now bid e copies seed k js e' v v' (w : DynUop) :
  lanes_ok e → elanes e !! k = Some seed → issuable now bid e copies seed 0 (elanes e) (k :: js) →
  walks e e' → virCopies v = copies → (length (k :: js) ≤ LanesPerVIRCopy)%nat →
  occupants v' = occupants (issue_copy w v) →
  d_lanes w = (λ i, l_lane (elanes e' !!! i)) <$> k :: js → d_copy w = copy_of seed →
  issues_copy v v'.
Proof.
  intros Hl Hk Hg Hw <- Hlen Hocc Wl Wc. destruct (group_lanes now bid _ _ seed k js e' Hl Hk Hg Hw) as [N L].
  pose proof (issuable_seed _ _ _ _ _ _ _ _ Hk Hg) as Hch.
  exists (copy_of seed), ((λ i, l_lane (elanes e' !!! i)) <$> k :: js).
  split; [|split; [apply Hch|split; [apply Hch|split; [|split; [exact N|exact L]]]]].
  - rewrite Hocc. rewrite <- Wl, <- Wc. unfold occupants, issue_copy. simpl. by rewrite fmap_app.
  - rewrite length_fmap. simpl in *. lia.
Qed.

Lemma issue_admitted_spec now t bid k js seed sp s :
  simt_ok s → readyUops (thread (engine (sys s))) ≠ 0%nat → (length (virBuffer (vir s)) < VIRCapacity)%nat →
  (length (k :: js) ≤ LanesPerVIRCopy)%nat →
  admissible now bid (virCopies (vir s)) k js seed sp (engine (sys s)) →
  ∃ s', issue_admitted now t bid (k :: js) (uop_of seed) sp s = Some s'
  ∧ advances s s' ∧ issues_copy (vir s) (vir s').
Proof.
  intros [Hl Hv Hs Hm] Hready Hroom Hlen Hadm. unfold issue_admitted. change (default 0%nat (head (k :: js))) with k. cbv zeta.
  destruct (commit_group_ok now bid _ k js seed sp _ Hl Hadm) as (O1 & W1 & R1 & _ & T1).
  destruct Hadm as (Hk & Hg & _). set (e1 := commit_split bid (uop_of seed) sp k (engine (sys s))) in *.
  set (s1 := on_engine (commit_split bid (uop_of seed) sp k) s).
  destruct (issue_group_spec (uop_of seed) (k :: js) now t s1)
    as (s2 & -> & O2 & W2 & S2 & M2 & (w & V2 & Wl & Wc) & T2 & L2).
  { exact O1. }
  { change (engine (sys s1)) with e1. by rewrite T1. }
  { change (engine (sys s1)) with e1. by rewrite T1. }
  change (engine (sys s1)) with e1 in *. change (vir s1) with (vir s) in V2. change (mem (sys s1)) with (mem (sys s)) in M2.
  cbn [mbind option_bind].
  destruct (rename_destination_spec bid (uop_of seed) (k :: js) (engine (sys s2)) (vir s2) O2)
    as (e3 & v3 & -> & O3 & W3 & S3 & T3 & V3 & C3). cbn [mbind option_bind].
  set (y3 := (sys s2) <| engine := e3 |>).
  assert (Hlanes : ∀ i, i ∈ k :: js → (i < length (elanes e3))%nat).
  { intros i Hi. destruct (proj2 Hg i Hi) as (_ & m & Hm' & _). rewrite Nat.sub_0_r in Hm'.
    rewrite <- (Forall2_length _ _ _ W3), <- (Forall2_length _ _ _ W2), <- (Forall2_length _ _ _ W1).
    by eapply lookup_lt_Some. }
  destruct (exec_group_spec t (k :: js) y3) as (O4 & W4 & T4 & Q4 & Sy4); [exact O3| |apply Hg|exact Hlanes|].
  { apply (still_runs (engine (sys s2))); [exact S3|]. by apply (still_runs e1). }
  change (engine y3) with e3 in *. change (mem y3) with (mem (sys s2)) in Q4.
  set (y4 := foldl (exec_lane t) y3 (k :: js)) in *.
  destruct (retire_refresh_ok bid (engine y4) O4) as [O6 F6].
  destruct (issueReplayChunk_keeps t (thread e1) (thread (engine (sys s2)))) as [Hvec K2]; [by rewrite T1|exact T2|].
  assert (Hseed : copy_of (elanes e1 !!! k) = copy_of seed)
    by (apply (group_lanes now bid _ _ seed k js e1 Hl Hk Hg W1); left).
  assert (Wc' : d_copy w = copy_of seed) by (rewrite Wc; exact Hseed).
  pose proof (issuable_seed _ _ _ _ _ _ _ _ Hk Hg) as Hch.
  assert (Hw3 : walks (engine (sys s)) e3) by (do 2 (etrans; [eassumption|]); done).
  assert (Hs3 : sys_ok cfg 0 y3).
  { apply (sys_ok_frame (sys s)); [done| | |].
    - change (mem y3) with (mem (sys s2)). rewrite M2. apply Hs.
    - change (mem y3) with (mem (sys s2)). by rewrite M2.
    - change (engine y3) with e3. rewrite T3.
      eapply keeps_trans; [|apply (lanes_keep (λ _, elanes e3))].
      eapply keeps_trans; [|exact K2]. rewrite T1. apply (lanes_keep (λ _, elanes e1)). }
  specialize (Sy4 Hs3). eexists. split; [done|]. split.
  - split.
    + split; simpl.
      * exact O6.
      * apply V3. rewrite V2. apply issue_copy_ok; [done|done| |]; rewrite Wc'; apply Hch.
      * apply (sys_ok_frame y4); [done|apply Sy4|done|]. apply set_elanes_keeps.
      * change (vectorChunkModel (thread (engine y4)) = true). rewrite T4. simpl. by rewrite T3.
    + etrans; [by apply walks_follows|]. etrans; [by apply walks_follows|exact F6].
    + destruct Q4 as (rs & Q4 & E4). exists rs. simpl. fold y3 y4. rewrite Q4, M2. split; [done|].
      intros r Hr. by eapply emitted_before, E4.
  - eapply (group_copy now bid _ _ seed k js e1 _ _ w Hl Hk Hg W1); [done|exact Hlen| |exact Wl|exact Wc'].
    change (occupants v3 = occupants (issue_copy w (vir s))). by rewrite C3, V2.
Qed.

Lemma on_engine_vir (f : Engine B → Engine B) s : vir (on_engine f s) = vir s.
Proof. done. Qed.

(** The gates of the instruction cache and of the functional unit. *)
Lemma admission_spec now decoded grant bid k js seed sp s :
  simt_ok s → readyUops (thread (engine (sys s))) ≠ 0%nat → (length (virBuffer (vir s)) < VIRCapacity)%nat →
  (length (k :: js) ≤ LanesPerVIRCopy)%nat →
  admissible now bid (virCopies (vir s)) k js seed sp (engine (sys s)) →
  ∃ s' n, admission now decoded grant bid (k :: js) (uop_of seed) sp s = Some (s', n)
  ∧ advances s s' ∧ (n = 0%nat ∧ vir s' = vir s ∨ n = 1%nat ∧ issues_copy (vir s) (vir s')).
Proof.
  intros Hok Hready Hroom Hlen Hadm. unfold admission.
  assert (Hrefl : advances s s) by (split; [done|done|apply queued_nothing]).
  destruct decoded; cbn [negb]; [|exists s, 0%nat; split; [done|]; by split; [|left]].
  pose proof (frontend_advances (Uop.pc (uop_of seed)) s Hok) as A1.
  set (s1 := on_engine _ s) in *.
  destruct (negb (unlimited fu) && _); [exists s1, 0%nat; split; [done|]; by split; [|left]|].
  destruct (if unlimited fu then Some 1%nat else grant) as [latency|];
    [|exists s1, 0%nat; split; [done|]; by split; [|left]].
  assert (Hsame : elanes (engine (sys s1)) = elanes (engine (sys s))
    ∧ readyUops (thread (engine (sys s1))) = readyUops (thread (engine (sys s)))).
  { unfold s1, elanes, retireFrontend. simpl. by destruct (list_find _ _) as [[]|]. }
  destruct Hsame as [El Er].
  destruct (issue_admitted_spec now (now + Z.of_nat latency * period fu) bid k js seed sp s1)
    as (s2 & -> & A2 & V2); [apply A1|by rewrite Er|done|done| |].
  { destruct Hadm as (Hk & Hg & Hafter & Hsp). split; [by rewrite El|]. rewrite El. split.
    - destruct Hg as [Hn Hg]. split; [done|]. intros j Hj. destruct (Hg j Hj) as (? & m & ? & [] & ?).
      split; [done|]. exists m. split; [done|]. split; [by split|done].
    - split; [done|]. rewrite <- Hsp. unfold split_branch, candidate. by rewrite El. }
  cbn [mbind option_bind]. eexists _, 1%nat. split; [done|]. split; [|right; split; [done|]].
  - eapply advances_trans; [exact A1|]. destruct (unlimited fu); [done|]. destruct A2 as [[] ??]. by split.
  - by destruct (unlimited fu).
Qed.

Lemma purge_active e l : l ∈ elanes (purge e) → l_active l = true.
Proof. intros [Hl _]%list_elem_of_filter. by apply andb_prop in Hl as [? _]. Qed.

(** One call of [issueDVRReplayLanes]. *)
Lemma issue_spec now slots decoded grant s :
  simt_ok s →
  ∃ s' n, issueDVRReplayLanes now slots decoded grant s = Some (s', n)
  ∧ advances s s' ∧ (n = 0%nat ∧ vir s' = vir s ∨ n = 1%nat ∧ issues_copy (vir s) (vir s')).
Proof.
  intros Hok. pose proof Hok as [Hl Hv Hs Hm]. unfold issueDVRReplayLanes.
  assert (Hrefl : advances s s) by (split; [done|done|apply queued_nothing]).
  destruct (_ || (VIRCapacity <=? _)%nat) eqn:Hguard; [exists s, 0%nat; split; [done|]; by split; [|left]|].
  apply orb_false_iff in Hguard as [_ Hroom]. apply Nat.leb_gt in Hroom. cbv zeta.
  destruct (drop_ok (λ l, l_active l && (l_uopIndex l <? Replay.count (templates (l_program l)))%nat = true) _ Hl)
    as [O1 F1]. fold (purge (engine (sys s))) in O1, F1.
  assert (A1 : advances s (on_engine purge s))
    by (apply engine_advances; [done|done|done|apply set_elanes_keeps|done]).
  set (s1 := on_engine purge s) in *. change (engine (sys s1)) with (purge (engine (sys s))) in *.
  destruct (_ || (readyUops _ =? 0)%nat) eqn:Hready; [exists s1, 0%nat; split; [done|]; by split; [|left]|].
  apply orb_false_iff in Hready as [_ Hready]. apply Nat.eqb_neq in Hready.
  destruct (reconverge_ok now (purge (engine (sys s))) O1) as (O2 & W2 & _ & T2).
  { intros l. apply purge_active. }
  destruct (reconverge now (purge (engine (sys s)))) as [e2 ctx]. cbn [fst] in O2, W2, T2.
  destruct (select_spec now ctx e2 (virCopies (vir s1)) (elanes e2) 0 O2) as [Hf Hg]; [done|].
  destruct (select _ _ _ _ _ _ _ (elanes e2)) as [ls group]. cbn [fst snd] in Hf, Hg.
  destruct (set_lanes_ok e2 ls O2 Hf) as [O3 W3].
  assert (A3 : advances s (on_engine (λ _, set_elanes ls e2) s1)).
  { eapply advances_trans; [exact A1|]. apply engine_advances; [apply A1|done| | |].
    - etrans; by apply walks_follows.
    - eapply keeps_trans; [|apply set_elanes_keeps]. rewrite T2. apply (lanes_keep (λ _, elanes e2)).
    - change (vectorChunkModel (thread e2) = true). by rewrite T2. }
  destruct group as [|k js].
  { exists (on_engine (λ _, retire_terminated (set_elanes ls e2)) s1), 0%nat.
    split; [by destruct ctx|]. split; [|by left]. eapply advances_trans; [exact A3|].
    destruct (drop_ok (λ l, l_active l = true) (set_elanes ls e2) O3) as [O4 F4].
    apply (engine_advances retire_terminated (on_engine (λ _, set_elanes ls e2) s1));
      [apply A3|exact O4|exact F4|apply set_elanes_keeps|].
    change (vectorChunkModel (thread e2) = true). by rewrite T2. }
  destruct Hg as (Hlen & bid & seed & -> & _ & Hk & Hg & Hafter). rewrite Nat.sub_0_r in Hk.
  rewrite (list_lookup_total_correct _ _ _ Hk). set (s3 := on_engine (λ _, set_elanes ls e2) s1) in *.
  destruct (split_branch now (Some bid) (set_elanes ls e2) seed) as [sp|] eqn:Hsp;
    [|exists s3, 0%nat; split; [done|]; by split; [|left]].
  destruct (admission_spec now decoded grant bid k js seed sp s3) as (s4 & n & -> & A4 & V4); try done.
  - apply A3.
  - change (readyUops (thread e2) ≠ 0%nat). by rewrite T2.
  - split; [done|]. split; [|done]. destruct Hg as [Hn Hg]. split; [done|]. intros j Hj.
    destruct (Hg j Hj) as (? & m & ? & [] & ?). split; [done|]. exists m. split; [done|]. split; [by split|done].
  - exists s4, n. split; [done|]. split; [by eapply advances_trans|done].
Qed.

(** ** Cycles *)

(** What a cycle brings: the time, the slots the main pipeline has used, the instruction cache's
    answer and the functional units' grants. *)
Record Cycle := mkCycle {
  c_now : Z;  c_slots : Slots;  c_decoded : bool;  c_grant : option nat;  c_grants : list bool
}.

(** The helper's part of [CPU::tick]: uops whose latency has elapsed leave the VIR, and after the
    main stages one group issues. *)
Definition retire_cycle (now : Z) s : option (St B) :=
  if vector_chunks cfg then
    '(v, bs, _) ← retireCompletedVIR now (vir s) (banks (engine (sys s)));
    Some (on_engine (λ e, e <| banks := bs |>) (s <| vir := v |>))
  else Some s.

Definition helper_cycle (c : Cycle) s : option (St B) :=
  s ← retire_cycle (c_now c) s;
  fst <$> issueDVRHelperCompute (c_now c) (c_decoded c) (c_grant c) (c_grants c)
            (s <| sys ::= λ y, y <| Prefetch.slots := c_slots c |> |>).

Definition helper_cycles (cs : list Cycle) s : option (St B) :=
  foldl (λ m c, s ← m; helper_cycle c s) (Some s) cs.

Lemma advances_refl s : simt_ok s → advances s s.
Proof. intros Hok. split; [done|done|apply queued_nothing]. Qed.

Lemma slots_advances f s : simt_ok s → advances s (s <| sys ::= λ y, y <| Prefetch.slots ::= f |> |>).
Proof.
  intros [H1 H2 [M T O] H4]. split; [|by apply walks_follows|apply queued_nothing].
  split; [done|done|by split|done].
Qed.

Lemma tick_advances t s : advances s s → advances s (s <| vectorNextIssueTick := t |>).
Proof. intros [[H1 H2 H3 H4] ? ?]. by split. Qed.

(** The helper moves on without its lanes. *)
Lemma thread_advances h s :
  simt_ok s → replayLanes h = elanes (engine (sys s)) → vectorChunkModel h = true →
  keeps (thread (engine (sys s))) h → advances s (on_engine (λ e, e <| thread := h |>) s).
Proof.
  intros Hok Hl Hv Hk.
  destruct (same_view_ok (engine (sys s)) ((engine (sys s)) <| thread := h |>)) as [O W]; [apply Hok|done..|].
  apply engine_advances; [done|exact O|by apply walks_follows|done|done].
Qed.

Lemma refillIssueQueue_advances s :
  simt_ok s → ∃ h, refillIssueQueue (thread (engine (sys s))) = Some h
  ∧ advances s (on_engine (λ e, e <| thread := h |>) s).
Proof.
  intros Hok. pose proof (Prefetch.ok_thread _ _ _ (simt_sys _ Hok)) as Hh.
  destruct (Helper.refillIssueQueue_spec _ (Helper.ok_queue _ Hh)) as (h & E & _ & Hq & _). exists h. split; [done|].
  unfold refillIssueQueue in E. rewrite (simt_vector _ Hok) in E.
  destruct (Helper.refill_lanes _ _ _ E) as [El Ev]. apply Helper.refill_frame in E as (E1 & E2 & E3 & E4 & E5 & E6 & E7).
  apply thread_advances; [done|done|by rewrite Ev, (simt_vector _ Hok)|].
  intros [? ? ? Hs Hi]. split; [|done]. split; rewrite ?E1, ?E2, ?E3, ?E4, ?E5, ?E6, ?E7; done.
Qed.

Lemma refillComputeReady_advances s :
  simt_ok s → ∃ h n, refillComputeReady (thread (engine (sys s))) = Some (h, n)
  ∧ advances s (on_engine (λ e, e <| thread := h |>) s).
Proof.
  intros Hok. pose proof (Prefetch.ok_thread _ _ _ (simt_sys _ Hok)) as Hh.
  destruct (Helper.refillComputeReady_ok _ Hh) as (h & n & E & _). exists h, n. split; [done|].
  assert (Hsame : replayLanes h = elanes (engine (sys s)) ∧ vectorChunkModel h = true).
  { unfold refillComputeReady, refillIssueQueue in E. rewrite (simt_vector _ Hok) in E.
    destruct (refill _ _) as [h1|] eqn:E1; [|done]. destruct (Helper.refill_lanes _ _ _ E1) as [El Ev].
    rewrite (simt_vector _ Hok) in Ev. cbn [mbind option_bind] in E.
    destruct (_ || _); injection E as <- <-; by split. }
  destruct Hsame as [El Ev]. apply thread_advances; [done|done|done|].
  apply (quiet_keep Helper.ORefill); [done|]. cbn [Helper.step]. by rewrite E.
Qed.

Lemma issue_queued_advances now grant s :
  simt_ok s → ∃ s' n, issue_queued now grant s = Some (s', n) ∧ advances s s'.
Proof.
  intros Hok. unfold issue_queued. destruct (refillIssueQueue_advances s Hok) as (h & -> & A1).
  cbn [mbind option_bind]. set (s1 := on_engine (λ e, e <| thread := h |>) s) in *.
  destruct (_ || _ || _) eqn:Hg; [by exists s1, 0%nat|]. destruct (_ && _); [by exists s1, 0%nat|].
  destruct (if unlimited fu then _ else _) as [latency|]; [|by exists s1, 0%nat].
  apply orb_false_iff in Hg as [[Hq Hr]%orb_false_iff _]. apply Nat.eqb_neq in Hr.
  set (t := now + Z.of_nat latency * period fu).
  assert (Hic : ∃ h', issueCompute t h = Some h' ∧ replayLanes h' = replayLanes h ∧ vectorChunkModel h' = true).
  { pose proof (simt_vector _ (adv_ok _ _ A1)) as Hv. change (vectorChunkModel h = true) in Hv.
    unfold issueCompute. destruct (issueQueue h) as [|i q]; [done|].
    rewrite (proj2 (Nat.eqb_neq _ _) Hr), Hv. cbn [negb orb]. eexists. split; [done|].
    unfold retireFrontend. destruct (list_find _ _) as [[]|]; destruct (_ && (_ <? _)); by destruct (_ && negb _). }
  destruct Hic as (h' & E & El & Ev). rewrite E. cbn [mbind option_bind].
  eexists _, 1%nat. split; [done|]. eapply advances_trans; [exact A1|].
  assert (A2 : advances s1 (on_engine (λ e, e <| thread := h' |>) s1)).
  { apply thread_advances; [apply A1|done|done|]. by apply (quiet_keep (Helper.OIssueCompute t)). }
  assert (A3 : advances s1 ((on_engine (λ e, e <| thread := h' |>) s1)
     <| sys ::= λ y, y <| Prefetch.slots ::= λ c, c <| helper_compute ::= S |> |> |>)).
  { eapply advances_trans; [exact A2|]. apply slots_advances, A2. }
  destruct (unlimited fu); [exact A3|]. eapply advances_trans; [exact A3|].
  apply tick_advances, advances_refl, A3.
Qed.

Lemma issue_scalar_advances grants slots s :
  simt_ok s → advances s (issue_scalar grants slots s).1.
Proof.
  intros Hok. unfold issue_scalar.
  destruct (issue_class grants _ slots) as [[g1 alu] r1]. destruct (issue_class g1 _ r1) as [[g2 shift] r2].
  destruct (issue_class g2 _ r2) as [[g3 multiply] r3]. cbn [fst].
  set (h := (thread (engine (sys s))) <| aluRemaining := alu |> <| shiftRemaining := shift |> <| multiplyRemaining := multiply |>).
  assert (A1 : advances s (on_engine (λ e, e <| thread := h |>) s)).
  { apply thread_advances; [done|done|apply Hok|]. intros []. by split. }
  eapply advances_trans; [exact A1|]. exact (slots_advances (λ c : Slots, c <| helper_compute ::= λ n, (n + (slots - r3))%nat |>) _ (adv_ok _ _ A1)).
Qed.

Lemma compute_advances now decoded grant grants s :
  simt_ok s → ∃ s' n, issueDVRHelperCompute now decoded grant grants s = Some (s', n) ∧ advances s s'.
Proof.
  intros Hok. unfold issueDVRHelperCompute. cbv zeta.
  destruct (compute_slots _ =? 0)%nat; [exists s, 0%nat; by split; [|apply advances_refl]|].
  destruct (vector_chunks cfg).
  2:{ pose proof (issue_scalar_advances grants (compute_slots (Prefetch.slots (sys s))) s Hok) as A.
      destruct (issue_scalar _ _ _) as [s' n]. by exists s', n. }
  destruct (refillComputeReady_advances s Hok) as (h & n & -> & A1). cbn [mbind option_bind].
  set (s1 := on_engine _ s) in *. destruct (negb _).
  - destruct (issue_spec now (compute_slots (Prefetch.slots (sys s))) decoded grant s1) as (s' & k & E & A2 & _); [apply A1|].
    exists s', k. split; [exact E|by eapply advances_trans].
  - destruct (issue_queued_advances now grant s1) as (s' & k & E & A2); [apply A1|].
    exists s', k. split; [exact E|by eapply advances_trans].
Qed.

Lemma retire_cycle_advances now s :
  simt_ok s → ∃ s', retire_cycle now s = Some s' ∧ advances s s'.
Proof.
  intros Hok. pose proof Hok as [Hl Hv Hs Hm]. unfold retire_cycle.
  destruct (vector_chunks cfg); [|exists s; by split; [|apply advances_refl]].
  destruct (retire_spec now (vir s) (banks (engine (sys s))) Hv (inv_good _ Hl))
    as (v & bs & n & -> & Hv' & Hg & Hsame & _). cbn [mbind option_bind]. eexists. split; [done|].
  destruct (same_banks_ok (engine (sys s)) bs Hl Hg Hsame) as [O W].
  split; [|by apply walks_follows|apply queued_nothing]. destruct Hs. by split; [| |split|].
Qed.

Lemma helper_cycle_advances c s : simt_ok s → ∃ s', helper_cycle c s = Some s' ∧ advances s s'.
Proof.
  intros Hok. unfold helper_cycle. destruct (retire_cycle_advances (c_now c) s Hok) as (s1 & -> & A1).
  cbn [mbind option_bind].
  pose proof (slots_advances (λ _, c_slots c) s1 (adv_ok _ _ A1)) as A2.
  destruct (compute_advances (c_now c) (c_decoded c) (c_grant c) (c_grants c) _ (adv_ok _ _ A2)) as (s3 & n & E & A3).
  exists s3. split; [|by do 2 (eapply advances_trans; [eassumption|])].
  change (s1 <| sys ::= λ y, y <| Prefetch.slots := c_slots c |> |>)
    with (s1 <| sys ::= λ y, y <| Prefetch.slots ::= λ _, c_slots c |> |>). by rewrite E.
Qed.

Lemma helper_cycles_advances cs s : simt_ok s → ∃ s', helper_cycles cs s = Some s' ∧ advances s s'.
Proof.
  unfold helper_cycles. revert s. induction cs as [|c cs IH]; intros s Hok; [by exists s; split; [|apply advances_refl]|].
  cbn [foldl mbind option_bind]. destruct (helper_cycle_advances c s Hok) as (s1 & -> & A1).
  destruct (IH s1 (adv_ok _ _ A1)) as (s2 & E & A2). exists s2. split; [done|by eapply advances_trans].
Qed.

(** C3: The SIMT execution of the lanes refines their programs.  For templates whose branches
    are tidy, any number of helper cycles, with whatever the main pipeline, the instruction cache
    and the functional units answer, runs without a failed assertion and keeps the invariant; every
    lane that is left is one of the lanes at the start, and its PC (that of its frame while its path
    waits on the reconvergence stack) and its registers in the bank are what its own template gives
    by running alone, whatever group, copy, order and split the lane was issued in; and each request
    that has come to the front of the queue is a dependent load such a run reaches, with the address
    that run computes. *)
Theorem lanes_follow_programs (cs : list Cycle) (s : St B) (Hok : simt_ok s) :
  ∃ s', helper_cycles cs s = Some s' ∧ simt_ok s'
  ∧ (∀ l', l' ∈ elanes (engine (sys s')) → ∃ l, l ∈ elanes (engine (sys s))
      ∧ l_program l' = l_program l ∧ l_bank l' = l_bank l ∧ l_lane l' = l_lane l
      ∧ rtc (lane_step (templates (l_program l))) (position (engine (sys s)) l) (position (engine (sys s')) l'))
  ∧ ∃ rs, queue (mem (sys s')) = rs ++ queue (mem (sys s))
      ∧ ∀ r, r ∈ rs → ∃ l c, l ∈ elanes (engine (sys s))
        ∧ rtc (lane_step (templates (l_program l))) (position (engine (sys s)) l) c
        ∧ requests (templates (l_program l)) c (req_pc r) (address r)
        ∧ lane r = l_lane l ∧ bank r = Some (l_bank l) ∧ replay r = Some (l_program l).
Proof.
  destruct (helper_cycles_advances cs s Hok) as (s' & E & [H1 H2 (rs & Hq & Hr)]). exists s'.
  split; [done|]. split; [done|]. split.
  - intros l' Hl'. destruct (H2 l' Hl') as (l & Hl & Hid & Hw). exists l.
    destruct (identity_inv _ _ Hid) as (? & ? & ? & _). by split_and!.
  - exists rs. split; [done|]. intros r Hin. destruct (Hr r Hin) as (l & c & ? & ? & ? & _ & _ & ? & ? & ?).
    exists l, c. by split_and!.
Qed.

(** C12: A call issues at most one vector uop, and only into the hardware it has.  Take a helper in
    vector-chunk mode whose lanes all run tidy templates (no two uops of one PC, operands that are tracked registers, no
    result to x0, and at each branch with a join either both successors in the template or both
    outside) and whose frames, register banks, VIR and queues are
    consistent; every cycle keeps such a state.  Then a call returns 0 or 1 without a failed
    assertion.  Where it returns 0 the VIR is as before; where it returns 1 exactly one uop has entered, for one to
    eight distinct lanes that all belong to the same one of the sixteen copies, and that copy had no
    uop in flight.  The VIR stays well formed: never more than eight uops, nor two of one copy.  (The
    recorder can make templates that are not tidy; nothing is claimed of those.) *)
Theorem issue_one_copy (now : Z) (slots : nat) (decoded : bool) (grant : option nat) (s : St B)
    (Hok : simt_ok s) :
  ∃ s' n, issueDVRReplayLanes now slots decoded grant s = Some (s', n)
  ∧ vir_ok (vir s')
  ∧ (n = 0%nat ∧ vir s' = vir s
     ∨ n = 1%nat ∧ ∃ c lanes,
         ((λ u, (d_copy u, d_lanes u)) <$> virBuffer (vir s'))
         = ((λ u, (d_copy u, d_lanes u)) <$> virBuffer (vir s)) ++ [(c, lanes)]
         ∧ (c < VIRCopies)%nat ∧ c_issued (virCopies (vir s) !!! c) = false
         ∧ (1 ≤ length lanes ≤ LanesPerVIRCopy)%nat ∧ NoDup lanes
         ∧ ∀ x, x ∈ lanes → (x / LanesPerVIRCopy)%nat = c).
Proof.
  destruct (issue_spec now slots decoded grant s Hok) as (s' & n & E & A & Hn). exists s', n.
  split; [done|]. split; [apply A|]. exact Hn.
Qed.
End simt.

(** ** Witnesses *)

(** The abstract bank of Lanes.v, without names. *)
#[export] Instance Array_VectorBank : VectorBank Array.
Proof.
  refine (mkVectorBank Array Array_LaneBank (λ _ _ _, 0) (λ _ _, false) (λ _ _ _, false) (λ _ _ _, None)
            (λ _ _, []) (λ _ b, b) (λ _ b, Some b) (λ _ _ b, Some (true, b)) (λ _ _ b, Some (true, b)) _ _ _ _).
  - by intros p b _.
  - intros p b _. by exists b.
  - intros r m b _. by exists true, b.
  - intros r m b _. by exists true, b.
Defined.

(** A hammock: the trigger, a branch on its value, an addition on each side, the load at the join. *)
Definition hammock_uop (k : Z) : Uop := Uop_init <| Uop.pc := k |>.
Definition branch_uop : Uop :=
  (hammock_uop 104) <| semantic := BranchEqual |> <| source0 := 5 |> <| source1 := 6 |> <| control := true |>
    <| conditional := true |> <| tainted := true |> <| branchTargetPC := 112 |> <| fallthroughPC := 108 |>
    <| reconvergencePC := 116 |>.
Definition add_uop (k imm : Z) : Uop :=
  (hammock_uop k) <| semantic := AddImmediate |> <| source0 := 7 |> <| destination := 7 |> <| immediate := imm |>
    <| intDestinations := 128 |>.
Definition last_load : Uop :=
  (hammock_uop 116) <| semantic := LoadDouble |> <| source0 := 7 |> <| destination := 10 |> <| load := true |>
    <| tainted := true |> <| intDestinations := 1024 |>.
Definition hammock (n : nat) : Replay.Template :=
  Replay.mkTemplate 100 0 0 116 5 5 5 false
    [Replay.trigger_uop <| Uop.pc := 100 |>; branch_uop; add_uop 108 64; add_uop 112 8192; last_load]
    (<[7%nat := 4096]> (replicate 32 0)) true.

Definition small_config : Prefetch.Config := Prefetch.mkConfig 64 true 64 100 true true 4 4 128.
Definition unlimited_unit : FU := mkFU true 1 500.

(** Lanes 0 to 3 with trigger values 0, 1, 0, 1. *)
Definition hammock_lane (x : nat) : Lane :=
  new_lane hammock 0 7
    (mkRequest 4096 100 0 0 true false false Relation.Paths_init (Some 0%nat) (Some 7%nat) None x)
    (Z.of_nat (x mod 2)).
Definition hammock_bank : Array := λ r x, l_regs (hammock_lane x) !!! r.
Definition hammock_state : St Array :=
  mkSt _ (Prefetch.mkSys _
            (mkEngine _ (Helper.reset <| replayLanes := hammock_lane <$> seq 0 4 |> <| vectorChunkModel := true |>
                                      <| Helper.state := Helper.Running |>)
               ∅ {[7%nat := hammock_bank]})
            Mem_init ∅ Relation.Tables_init ∅ 1 (mkSlots 0 0 0 0 0 0))
    Vir_init 0.
Definition cycle (t : Z) : Cycle := mkCycle t (mkSlots 0 0 0 0 0 0) true None [].

Definition cycles (n : nat) : list Cycle := (λ k, cycle (1000 * Z.of_nat k)) <$> seq 0 n.

Lemma hammock_tidy n : tidy (hammock n).
Proof.
  split.
  - intros k Hk. change (Replay.count (hammock n)) with 5%nat in Hk.
    assert (k = 1 ∨ k = 2 ∨ k = 3 ∨ k = 4)%nat as [-> | [-> | [-> | ->]]] by lia; by vm_compute.
  - by intros [|[|[|[|[|k]]]]]; vm_compute.
  - by intros [|[|[|[|[|k]]]]]; vm_compute.
  - intros k Hk Hc. change (Replay.count (hammock n)) with 5%nat in Hk.
    assert (k = 1 ∨ k = 2 ∨ k = 3 ∨ k = 4)%nat as [-> | [-> | [-> | ->]]] by lia; [|by vm_compute in Hc..].
    right. left. intros []; [exists 3%nat|exists 2%nat]; by vm_compute.
Qed.

Lemma hammock_frames bid : frames_ok bid [] (hammock_lane <$> seq 0 4).
Proof. split; [apply Nat.le_0_l|by intros f l ?%elem_of_nil|by intros]. Qed.

Lemma hammock_lane_ok l :
  l ∈ hammock_lane <$> seq 0 4 → l_bank l = 7%nat ∧ (l_lane l < 4)%nat ∧ settled hammock l.
Proof.
  intros (x & -> & Hx)%list_elem_of_fmap. apply elem_of_seq in Hx.
  split; [done|]. split; [simpl; lia|]. split; [apply hammock_tidy|done].
Qed.

Lemma hammock_state_ok : simt_ok small_config hammock hammock_state.
Proof.
  split; [|apply Vir_init_ok| |done].
  - split.
    + intros k b _. done.
    + intros l Hl. destruct (hammock_lane_ok l Hl) as (Hb & Hx & Hs). rewrite Hb. split; [by eexists|]. split; [lia|done].
    + apply (bool_decide_unpack _). by vm_compute.
    + intros bid. apply hammock_frames.
  - split; [apply Mem_init_ok|split; try done; simpl; lia|done].
Qed.

Lemma hammock_run :
  (λ s, (λ r, (lane r, address r)) <$> queue (mem (sys s))) <$> helper_cycles small_config unlimited_unit hammock (cycles 8) hammock_state
  = Some [(2%nat, 12288); (1%nat, 12352)].
Proof. by vm_compute. Qed.

Lemma lanes_follow_programs_witness :
  ∃ s', helper_cycles small_config unlimited_unit hammock (cycles 8) hammock_state = Some s' ∧ simt_ok small_config hammock s'
  ∧ (λ r, (lane r, address r)) <$> queue (mem (sys s')) = [(2%nat, 12288); (1%nat, 12352)].
Proof.
  destruct (lanes_follow_programs small_config unlimited_unit hammock
              (cycles 8) hammock_state hammock_state_ok)
    as (s' & E & Hok & _). exists s'.
  pose proof hammock_run as Hr. rewrite E in Hr.
  cbn [fmap option_fmap option_map] in Hr. injection Hr as Hr. exact (conj E (conj Hok Hr)).
Defined.

Definition ready_state : St Array :=
  hammock_state <| sys ::= λ y, y <| engine ::= λ e, e <| thread ::= λ h, h <| readyUops := 1%nat |> |> |> |>.

Lemma ready_state_ok : simt_ok small_config hammock ready_state.
Proof.
  destruct hammock_state_ok as [H1 H2 [M [T1 T2 T3 T4 T5] O] H4]. destruct H1.
  split; [by split|done| |done]. split; [done| |done]. split; try done. by intros [?|?].
Qed.

Lemma hammock_issues :
  snd <$> issueDVRReplayLanes small_config unlimited_unit hammock 0 4 true None ready_state = Some 1%nat.
Proof. by vm_compute. Qed.

Lemma issue_one_copy_witness :
  ∃ s', issueDVRReplayLanes small_config unlimited_unit hammock 0 4 true None ready_state = Some (s', 1%nat)
        ∧ vir_ok (vir s') ∧ length (virBuffer (vir s')) = 1%nat.
Proof.
  destruct (issue_one_copy small_config unlimited_unit hammock 0 4 true None ready_state ready_state_ok)
    as (s' & n & E & Hv & Hn).
  pose proof hammock_issues as Hi. rewrite E in Hi. injection Hi as ->. exists s'.
  split; [exact E|]. split; [exact Hv|]. destruct Hn as [[Hn _]|(_ & c & lanes & Hb & _)]; [discriminate Hn|].
  apply (f_equal length) in Hb. rewrite length_app, !length_fmap in Hb. exact Hb.
Defined.

(** ** What the issue does with branches

    The commit loop of a branch compares each lane's index with that of the seed, which it has
    itself just moved: in the hammock lane 2, which takes the same way as lane 0, stays at the
    branch, while lane 0 executes the addition behind the branch in the same issue. *)
Lemma commit_stops_at_seed :
  (λ s, (λ l, (l_lane l, l_pc l, l_blocked l)) <$> elanes (engine (sys s))) <$> helper_cycles small_config unlimited_unit hammock (cycles 1) hammock_state
  = Some [(0%nat, 116, false); (1%nat, 104, true); (2%nat, 104, false); (3%nat, 104, true)].
Proof. by vm_compute. Qed.

(** A lane at the join is blocked when the deferred path is popped, and no pop unblocks it: lane 0
    never issues its load.  Since the helper still has a replay lane, its issue queue waits too. *)
Lemma joined_lane_is_lost :
  (λ s, ((λ l, (l_lane l, l_pc l, l_blocked l, l_active l)) <$> elanes (engine (sys s)),
         stack (group_of 7 (engine (sys s))))) <$> helper_cycles small_config unlimited_unit hammock (cycles 40) hammock_state
  = Some ([(0%nat, 116, true, true)], []).
Proof. by vm_compute. Qed.

(** Where the seed's way leaves the template its index does not move, and the deferred lanes of its
    copy execute the uop behind the branch at once and, their PC restored by the pop, once more:
    lane 1 requests 12416 and not 4096 + 64 + 8192. *)
Definition leaving (n : nat) : Replay.Template :=
  Replay.mkTemplate 100 0 0 116 5 5 5 false
    [Replay.trigger_uop <| Uop.pc := 100 |>; branch_uop <| branchTargetPC := 200 |>; add_uop 108 64;
     add_uop 112 8192; last_load] (<[7%nat := 4096]> (replicate 32 0)) true.

Lemma deferred_lane_runs_twice :
  (λ s, (λ r, (lane r, address r)) <$> queue (mem (sys s))) <$> helper_cycles small_config unlimited_unit leaving (cycles 5) hammock_state
  = Some [(1%nat, 12416)].
Proof. by vm_compute. Qed.

(** A branch that cannot be evaluated issues in every cycle; it moves no lane and counts no uop
    of a lane's budget. *)
Definition opaque (n : nat) : Replay.Template :=
  Replay.mkTemplate 100 0 0 116 5 5 5 false
    [Replay.trigger_uop <| Uop.pc := 100 |>; branch_uop <| semantic := Unsupported |>; add_uop 108 64;
     add_uop 112 8192; last_load] (<[7%nat := 4096]> (replicate 32 0)) true.

Lemma opaque_branch_spins :
  (λ s, ((λ l, (l_pc l, l_helperUops l)) <$> elanes (engine (sys s)), issuedUops (thread (engine (sys s)))))
    <$> helper_cycles small_config unlimited_unit opaque (cycles 60) hammock_state
  = Some (replicate 4 (104, 0%nat), 60%nat).
Proof. by vm_compute. Qed.

(** The key of a rename holds the mask of the lanes that have still to execute the uop, so each
    vector copy renames the destination again: after the first copy all lanes of x7 have vector
    names, and each later one replaces those of the rest by a scalar name. *)
Definition adding (n : nat) : Replay.Template :=
  Replay.mkTemplate 100 0 0 116 3 3 5 false
    [Replay.trigger_uop <| Uop.pc := 100 |>; (add_uop 104 64) <| source0 := 5 |>; last_load]
    (replicate 32 0) true.
Definition adding_lane (x : nat) : Lane :=
  new_lane adding 0 7
    (mkRequest 4096 100 0 0 true false false Relation.Paths_init (Some 0%nat) (Some 7%nat) None x) 9.
Definition adding_state (b : HelperRegs.Bank) : St HelperRegs.Bank :=
  mkSt _ (Prefetch.mkSys _
            (mkEngine _ (Helper.reset <| replayLanes := adding_lane <$> seq 0 24 |> <| vectorChunkModel := true |>
                                      <| Helper.state := Helper.Running |>)
               ∅ {[7%nat := b]})
            Mem_init ∅ Relation.Tables_init ∅ 1 (mkSlots 0 0 0 0 0 0))
    Vir_init 0.
Definition vector_lanes_of_x7 (n : nat) : option (list bool) :=
  b ← HelperBank.launched;
  s ← helper_cycles small_config unlimited_unit adding (cycles n)
        (adding_state b.2);
  b ← banks (engine (sys s)) !! 7%nat;
  Some ((λ x, HelperRegs.isVectorizedLane 7 x b) <$> [0; 8; 16]%nat).

Lemma every_copy_renames :
  vector_lanes_of_x7 1 = Some [true; true; true]
  ∧ vector_lanes_of_x7 2 = Some [true; false; false].
Proof. by vm_compute. Qed.
End Simt.
