(* ===== verification/Flatten.v ===== *)
(** * Flattened launches of nested invocations

    Model of [CPU::launchDVRNestedPrefetches] (src/cpu/o3/cpu.cc): the invocations of an inner
    loop, planned by the Nested Discovery Mode or collected from completed child discoveries, are
    laid one after the other on the lanes of one helper program.  The template of the launch is
    that of Replay.v; its VIR continuation, which serves statistics only, is left out. *)

From stdpp Require Import gmap.
From S2P Require Import Prelude Recorder Relation Replay Ndm Helper Lanes PrefetchQueue Prefetch.

Module Flatten.
Import Lanes PrefetchQueue Prefetch.
#[local] Existing Instance Ndm.Invocation_inhabited.

(** ** The batch of completed invocations *)

(** [bases.size()] *)
Definition MaxInvocations : nat := 16.
#[global] Arguments MaxInvocations : simpl never.

(** [DVRNestedInvocationBatch] *)
Record Batch := mkBatch {
  b_triggerPC : Z;  bases : list Z;  b_innerLanes : list Z;  innerStrides : list Z;  b_count : nat
}.
#[export] Instance eta_Batch : Eta Batch := λ r,
  mkBatch (b_triggerPC r) (bases r) (b_innerLanes r) (innerStrides r) (b_count r).
Definition Batch_init : Batch :=
  mkBatch 0 (replicate MaxInvocations 0) (replicate MaxInvocations 0) (replicate MaxInvocations 0) 0.

(** An invocation joins the batch of its trigger, unless the batch is full. *)
Definition add_invocation (pc start lanes increment : Z) (b : Batch) : Batch :=
  let b := if negb (b_triggerPC b =? 0) && negb (b_triggerPC b =? pc) then Batch_init else b in
  let b := b <| b_triggerPC := pc |> in
  if (b_count b <? MaxInvocations)%nat
  then let slot := b_count b in
       b <| b_count := S slot |> <| bases ::= <[slot := start]> |>
         <| b_innerLanes ::= <[slot := lanes]> |> <| innerStrides ::= <[slot := increment]> |>
  else b.

(** ** The invocations of a launch *)

Record Invocation := mkInv { base : Z;  inner_lanes : nat;  inner_stride : Z }.

(** The plan of the Nested Discovery Mode if it is ready, the batch otherwise. *)
Definition invocations (m : Ndm.Mode) (b : Batch) : list Invocation :=
  if Ndm.readyToVectorize m
  then (λ k, let i := Ndm.invocations m !!! k in
             mkInv (Ndm.innerStart i) (Z.to_nat (Ndm.i_innerLanes i)) (Ndm.innerStride i))
         <$> seq 0 (Nat.min (Ndm.invocationCount m) MaxInvocations)
  else (λ k, mkInv (bases b !!! k) (Z.to_nat (b_innerLanes b !!! k)) (innerStrides b !!! k))
         <$> seq 0 (Nat.min (b_count b) MaxInvocations).

(** The loop over the invocations: [flattened] and [total_inner_lanes]. *)
Definition flatten_count (invs : list Invocation) : nat * nat :=
  foldl (λ acc i, let n := Nat.min (inner_lanes i) MaxLanes in
                  ((acc.1 + Nat.min n (MaxLanes - acc.1))%nat, (acc.2 + n)%nat)) (0%nat, 0%nat) invs.

(** ** The launch *)

Section launch.
Context {B : Type} `{LaneBank B} (cfg : Config) (templates : nat → Replay.Template).
Implicit Types (s : Sys B) (l : Launch (B := B)).

(** A source lane; these have no predicate generation. *)
Definition source_lane l (pc : Z) (ps : Relation.Paths) (a : Z) (flat_lane : nat) : Request :=
  mkRequest a pc (tid l) 0 true false true ps (Some (rid l)) (Some (bid l)) None flat_lane.

(** The inner loop, from [lane] on; [n] lanes of the invocation are left. *)
Fixpoint push_lanes (request : Z → nat → Request) (i : Invocation) (n lane flat_lane : nat) s : Sys B * nat :=
  match n with
  | O => (s, flat_lane)
  | S n =>
      if (MaxLanes <=? flat_lane)%nat then (s, flat_lane)
      else
        let a := source_address (base i) (inner_stride i) lane in
        let s := if address_known a (mem s) then s else on_mem (push_back (request a flat_lane)) s in
        push_lanes request i n (S lane) (S flat_lane) s
  end.

Definition push_invocations (request : Z → nat → Request) (invs : list Invocation) (flat_lane : nat) s
    : Sys B * nat :=
  foldl (λ '(s, flat_lane) i, push_lanes request i (inner_lanes i) 1 flat_lane s) (s, flat_lane) invs.

(** [launchDVRNestedPrefetches]; the flag tells that the batch is reset at its end. *)
Definition launchDVRNestedPrefetches l (pc : Z) (invs : list Invocation) s : Sys B * bool :=
  let ps := Relation.gather (tabs s) pc in
  let flattened := (flatten_count invs).1 in
  let available := (DvrMaxQueuedPrefetches - Nat.min (length (queue (mem s))) DvrMaxQueuedPrefetches)%nat in
  if (flattened =? 0)%nat || (available <? flattened)%nat then (s, false)
  else
    match fresh_bank l with
    | None => (s, false)
    | Some b =>
        let s := s <| engine ::= λ e, e <| banks ::= <[bid l := b]> |> |> in
        let s := start_helper cfg pc (Replay.count (templates (rid l))) flattened (resources l)
                   (Some (rid l)) (tid l) s in
        ((push_invocations (source_lane l pc ps) invs 0 s).1, true)
    end.

(** ** Specification *)

(** The addresses of the launch by lane: the invocations in order, each with its own strides, cut
    at the last lane. *)
Definition lane_addresses (invs : list Invocation) : list Z :=
  take MaxLanes (mjoin ((λ i, (λ j, source_address (base i) (inner_stride i) (S j))
                                <$> seq 0 (inner_lanes i)) <$> invs)).

(** A lane's address that is neither requested already nor that of an earlier lane. *)
Definition new_address (m : Mem) (addresses : list Z) (k : nat) : bool :=
  negb (address_known (addresses !!! k) m) && bool_decide (addresses !!! k ∉ take k addresses).

(** ** Lemmas *)

Lemma flatten_count_app invs i :
  flatten_count (invs ++ [i])
  = ((flatten_count invs).1 + Nat.min (Nat.min (inner_lanes i) MaxLanes) (MaxLanes - (flatten_count invs).1),
     (flatten_count invs).2 + Nat.min (inner_lanes i) MaxLanes)%nat.
Proof. unfold flatten_count. by rewrite foldl_app. Qed.

(** The check of the code: [flattened == expected_flattened]. *)
Lemma flattened_expected invs :
  (flatten_count invs).1 = Nat.min MaxLanes (flatten_count invs).2.
Proof.
  induction invs as [|i invs IH] using rev_ind; [by vm_compute|].
  rewrite flatten_count_app. cbn [fst snd]. lia.
Qed.

Lemma length_addresses invs :
  length (mjoin ((λ i, (λ j, source_address (base i) (inner_stride i) (S j)) <$> seq 0 (inner_lanes i)) <$> invs))
  = sum_list (inner_lanes <$> invs).
Proof.
  induction invs as [|i invs IH]; [done|]. cbn. rewrite length_app, length_fmap, length_seq. f_equal. exact IH.
Qed.

Lemma flattened_addresses invs : length (lane_addresses invs) = (flatten_count invs).1.
Proof.
  unfold lane_addresses. rewrite length_take, length_addresses.
  induction invs as [|i invs IH] using rev_ind; [by vm_compute|].
  rewrite flatten_count_app, fmap_app, sum_list_with_app. cbn [fst snd fmap list_fmap sum_list sum_list_with].
  rewrite <- IH. unfold id. lia.
Qed.

(** One lane, by its number and address. *)
Definition push_address (request : Z → nat → Request) s (x : nat * Z) : Sys B :=
  if address_known x.2 (mem s) then s else on_mem (push_back (request x.2 x.1)) s.

Lemma push_lanes_fold request i n : ∀ lane flat s,
  push_lanes request i n lane flat s
  = (foldl (push_address request) s
       (imap (λ k a, ((flat + k)%nat, a))
          (take (MaxLanes - flat) ((λ j, source_address (base i) (inner_stride i) (lane + j)) <$> seq 0 n))),
     (flat + Nat.min n (MaxLanes - flat))%nat).
Proof.
  induction n as [|n IH]; intros lane flat s; simpl.
  - rewrite take_nil. simpl. f_equal. lia.
  - destruct (Nat.leb_spec MaxLanes flat).
    + replace (MaxLanes - flat)%nat with 0%nat by lia. simpl. f_equal. lia.
    + rewrite IH. destruct (MaxLanes - flat)%nat as [|m] eqn:Em; [lia|].
      replace (MaxLanes - S flat)%nat with m by lia. simpl. f_equal; [|lia].
      rewrite <- fmap_S_seq, <- list_fmap_compose. unfold push_address at 2. cbn [fst snd].
      replace (lane + 0)%nat with lane by lia. replace (flat + 0)%nat with flat by lia. f_equal.
      rewrite (list_fmap_ext _ ((λ j, source_address (base i) (inner_stride i) (lane + j)) ∘ S) (seq 0 n))
        by (intros; simpl; f_equal; lia).
      apply imap_ext. intros k a _. simpl. f_equal. lia.
Qed.

Lemma push_invocations_fold request invs : ∀ flat s,
  (flat ≤ MaxLanes)%nat →
  (push_invocations request invs flat s).1
  = foldl (push_address request) s
      (imap (λ k a, ((flat + k)%nat, a))
         (take (MaxLanes - flat)
            (mjoin ((λ i, (λ j, source_address (base i) (inner_stride i) (S j)) <$> seq 0 (inner_lanes i)) <$> invs)))).
Proof.
  unfold push_invocations. induction invs as [|i invs IH]; intros flat s Hf; [simpl; by rewrite take_nil|].
  cbn [foldl fmap list_fmap mjoin list_join]. rewrite push_lanes_fold, IH by lia.
  rewrite take_app, length_fmap, length_seq, imap_app, foldl_app. f_equal.
  rewrite length_take, length_fmap, length_seq.
  replace (MaxLanes - (flat + Nat.min (inner_lanes i) (MaxLanes - flat)))%nat
    with (MaxLanes - flat - inner_lanes i)%nat by lia.
  destruct (decide (inner_lanes i ≤ MaxLanes - flat)%nat) as [Hle|Hle].
  - apply imap_ext. intros k a _. simpl. f_equal. lia.
  - by replace (MaxLanes - flat - inner_lanes i)%nat with 0%nat by lia.
Qed.

Lemma known_push r a m :
  address_known a (push_back r m) = true ↔ a = address r ∨ address_known a m = true.
Proof. unfold address_known. simpl. rewrite !orb_true_iff, !bool_decide_eq_true, elem_of_union, elem_of_singleton. tauto. Qed.

(** The pushes queue the new addresses in order. *)
Lemma push_addresses_queue request rest : ∀ s before m0,
  (∀ a k, address (request a k) = a) →
  (∀ a, address_known a (mem s) = true ↔ address_known a m0 = true ∨ a ∈ before) →
  queue (mem (foldl (push_address request) s (imap (λ k a, ((length before + k)%nat, a)) rest)))
  = queue (mem s) ++ ((λ k, request ((before ++ rest) !!! k) k) <$>
      filter (λ k, new_address m0 (before ++ rest) k = true) (seq (length before) (length rest))).
Proof.
  induction rest as [|a rest IH]; intros s before m0 Ha Hknown; [by rewrite app_nil_r|].
  simpl. replace (length before + 0)%nat with (length before) by lia.
  assert (Hat : (before ++ a :: rest) !!! length before = a) by by rewrite list_lookup_total_middle.
  assert (Hnew : new_address m0 (before ++ a :: rest) (length before) = negb (address_known a (mem s))).
  { unfold new_address. rewrite Hat, take_app_length. apply eq_true_iff_eq.
    rewrite andb_true_iff, !negb_true_iff, <- !not_true_iff_false, bool_decide_eq_true, Hknown. tauto. }
  rewrite (imap_ext _ (λ k b, ((length (before ++ [a]) + k)%nat, b)))
    by (intros k b _; simpl; rewrite length_app; simpl; f_equal; lia).
  rewrite (IH _ (before ++ [a]) m0 Ha).
  - rewrite filter_cons, <- (app_assoc before [a] rest), length_app, Nat.add_1_r. simpl ([a] ++ rest).
    unfold push_address. cbn [fst snd]. rewrite Hnew.
    destruct (address_known a (mem s)) eqn:Ek; simpl; [done|]. by rewrite <- app_assoc, Hat.
  - intros x. rewrite elem_of_app, list_elem_of_singleton. specialize (Hknown x).
    unfold push_address. cbn [fst snd]. destruct (address_known a (mem s)) eqn:Ek.
    { split; [tauto|]. intros [Hx|[Hx| ->]]; tauto. }
    change (mem (on_mem ?f s)) with (f (mem s)). rewrite known_push, Ha. tauto.
Qed.

Lemma push_addresses_ok request xs : ∀ s,
  sys_ok cfg 0 s → (length (queue (mem s)) + length xs ≤ DvrMaxQueuedPrefetches)%nat →
  sys_ok cfg 0 (foldl (push_address request) s xs).
Proof.
  induction xs as [|x xs IH]; intros s Hs Hl; [done|]. simpl in *. unfold push_address at 2.
  destruct (address_known _ _); [apply IH; [done|lia]|].
  destruct (push_back_sys_ok cfg 0 (request x.2 x.1) s Hs) as [H1 H2]; [unfold full; apply Nat.leb_gt; lia|].
  apply IH; [done|]. lia.
Qed.

(** The launch keeps the invariant of the requests. *)
Lemma nested_launch_ok l pc invs s :
  sys_ok cfg 0 s → sys_ok cfg 0 (launchDVRNestedPrefetches l pc invs s).1.
Proof.
  intros Hok. assert (Hq : (length (queue (mem s)) ≤ DvrMaxQueuedPrefetches)%nat) by apply Hok.
  unfold launchDVRNestedPrefetches. cbv zeta. destruct (_ || _) eqn:Hguard; [done|].
  apply orb_false_iff in Hguard as [_ H2%Nat.ltb_ge]. rewrite <- flattened_addresses in H2.
  destruct (fresh_bank l) as [b|]; [|done]. cbn [fst]. set (s1 := start_helper _ _ _ _ _ _ _ _).
  assert (Hm : mem s1 = mem s) by (unfold s1; by rewrite start_helper_mem).
  rewrite (push_invocations_fold _ invs 0 s1) by lia. rewrite Nat.sub_0_r.
  apply push_addresses_ok.
  - unfold s1. apply start_helper_ok. by apply (on_engine_ok cfg 0 _ s).
  - rewrite Hm, length_imap. unfold lane_addresses in H2. lia.
Qed.

(** C14: A nested launch is the product of the invocations: the lanes of the helper program are the
    iterations of all invocations one after the other, each with the start and the stride of its
    own, cut at 128 lanes (so the check of the code never fails).  The launch takes place if
    the whole product fits into the prefetch queue and the trigger could be vectorised; then each
    lane whose address is not requested already, nor that of an earlier lane, queues a request for
    it under its number, in order; otherwise nothing changes.  Every invariant of the requests is
    kept. *)
Theorem flatten_is_product l (pc : Z) (invs : list Invocation) s (Hok : sys_ok cfg 0 s) :
  let addresses := lane_addresses invs in
  let '(s', launched) := launchDVRNestedPrefetches l pc invs s in
  (flatten_count invs).1 = length addresses
  ∧ length addresses = Nat.min MaxLanes (flatten_count invs).2
  ∧ sys_ok cfg 0 s'
  ∧ (launched = true ↔ (0 < length addresses)%nat
       ∧ (length (queue (mem s)) + length addresses ≤ DvrMaxQueuedPrefetches)%nat
       ∧ is_Some (fresh_bank l))
  ∧ (launched = false → s' = s)
  ∧ (launched = true →
     queue (mem s') = queue (mem s)
       ++ ((λ k, source_lane l pc (Relation.gather (tabs s) pc) (addresses !!! k) k)
             <$> filter (λ k, new_address (mem s) addresses k = true) (seq 0 (length addresses)))).
Proof.
  intros addresses. pose proof (nested_launch_ok l pc invs s Hok) as Hkeep. revert Hkeep.
  pose proof (flattened_addresses invs) as Hlen. fold addresses in Hlen.
  unfold launchDVRNestedPrefetches. cbv zeta. rewrite <- Hlen.
  assert (Hq : (length (queue (mem s)) ≤ DvrMaxQueuedPrefetches)%nat) by apply Hok.
  assert (Hmin : length addresses = Nat.min MaxLanes (flatten_count invs).2)
    by (rewrite Hlen; apply flattened_expected).
  destruct (_ || _) eqn:Hguard.
  { apply orb_true_iff in Hguard. rewrite Nat.eqb_eq, Nat.ltb_lt in Hguard.
    intros _. split_and!; try done. split; [done|]. lia. }
  apply orb_false_iff in Hguard as [H1%Nat.eqb_neq H2%Nat.ltb_ge].
  destruct (fresh_bank l) as [b|] eqn:Eb.
  2: { intros _. split_and!; try done. split; [done|]. intros (_ & _ & [? ?]). done. }
  set (s1 := start_helper _ _ _ _ _ _ _ _).
  assert (Hm : mem s1 = mem s) by (unfold s1; by rewrite start_helper_mem).
  cbn [fst]. rewrite (push_invocations_fold _ invs 0 s1) by lia. rewrite Nat.sub_0_r.
  fold (lane_addresses invs) addresses. intros Hkeep. split_and!; try done.
  - split; [|done]. intros _. split_and!; [lia|lia|by eexists].
  - intros _. rewrite (push_addresses_queue _ addresses s1 [] (mem s)); [by rewrite Hm|done|].
    intros a. rewrite Hm. split; [by left|]. by intros [|?%elem_of_nil].
Qed.

End launch.

(** ** An example: two invocations of two and three iterations, the second one's first address
    being that of the first one's second. *)
Definition two_invocations : list Invocation := [mkInv 4096 2 8; mkInv 4104 3 8].
Lemma flatten_is_product_witness :
  let s := Sys_init (B := Array) in
  let addresses := lane_addresses two_invocations in
  (launchDVRNestedPrefetches (sample_config true) sample_template sample_launch 100 two_invocations s).2 = true
  ∧ addresses = [4104; 4112; 4112; 4120; 4128]
  ∧ lane <$> queue (mem (launchDVRNestedPrefetches (sample_config true) sample_template sample_launch 100
                          two_invocations s).1) = [0; 1; 3; 4]%nat.
Proof.
  pose proof (flatten_is_product (sample_config true) sample_template sample_launch 100 two_invocations
    (Sys_init (B := Array)) (Sys_init_ok (sample_config true))) as Ht.
  destruct (launchDVRNestedPrefetches _ _ _ _ _ _) as [s' launched] eqn:E.
  destruct Ht as (_ & _ & _ & Hl & _ & Hq).
  assert (Hlaunched : launched = true).
  { apply Hl. split_and!; [by vm_compute; lia|by vm_compute; lia|by eexists]. }
  cbv zeta. rewrite E. cbn [fst snd]. split; [done|]. split; [by vm_compute|].
  rewrite (Hq Hlaunched). by vm_compute.
Defined.
End Flatten.
