(* ===== verification/Rob.v ===== *)
(** * The reorder buffer

    Model of [ROB] (src/cpu/o3/rob.hh, rob.cc): one list of instructions per thread, the counters, and
    the squash that walks a list from its youngest instruction back, a bounded number of
    instructions per cycle.  An iterator into a thread's list is the index of its element; [head] and
    [tail] are the numbers of the instructions they point to.  Statistics are left out. *)

From stdpp Require Import gmap sorting.
From S2P Require Import Prelude Inst.

Module Rob.

(** [enum Status], [SMTQueuePolicy] *)
Inductive Status := Running | Idle | ROBSquashing.
Inductive Policy := Dynamic | Partitioned | Threshold.
#[export] Instance Policy_eq_dec : EqDecision Policy.
Proof. solve_decision. Defined.

(** What the buffer reads and sets of an instruction. *)
Record Entry := mkEntry {
  seqNum : Z;  threadNumber : nat;  canCommit : bool;  squashed : bool;  inROB : bool
}.
#[export] Instance eta_Entry : Eta Entry := λ r,
  mkEntry (seqNum r) (threadNumber r) (canCommit r) (squashed r) (inROB r).

(** The members that are arrays over the threads. *)
Record Thread := mkThread {
  robStatus : Status;  instList : list Entry;  threadEntries : nat;  maxEntries : nat;
  squashIt : option nat;  squashedSeqNum : Z;  doneSquashing : bool
}.
#[export] Instance eta_Thread : Eta Thread := λ r,
  mkThread (robStatus r) (instList r) (threadEntries r) (maxEntries r) (squashIt r) (squashedSeqNum r)
    (doneSquashing r).
Definition Thread_init (entries : nat) : Thread := mkThread Running [] 0 entries None 0 true.
#[export] Instance Thread_inhabited : Inhabited Thread := populate (Thread_init 0).

Record Rob := mkRob {
  robPolicy : Policy;  numEntries : nat;  squashWidth : nat;  threads : list Thread;
  activeThreads : list nat;  numInstsInROB : nat;  head : option Z;  tail : option Z
}.
#[export] Instance eta_Rob : Eta Rob := λ r,
  mkRob (robPolicy r) (numEntries r) (squashWidth r) (threads r) (activeThreads r) (numInstsInROB r)
    (head r) (tail r).

(** The constructor, with the entries that each policy gives to a thread. *)
Definition create (policy : Policy) (entries width numThreads threshold : nat) (active : list nat) : Rob :=
  let share := match policy with
               | Dynamic => entries
               | Partitioned => (entries / numThreads)%nat
               | Threshold => threshold
               end in
  mkRob policy entries width (replicate numThreads (Thread_init share)) active 0 None None.

Definition thread_at (r : Rob) (tid : nat) : Thread := threads r !!! tid.
Definition on_thread (tid : nat) (f : Thread → Thread) (r : Rob) : Rob := r <| threads ::= alter f tid |>.

(** ** Queries *)

Definition isFull (r : Rob) : bool := (numInstsInROB r =? numEntries r)%nat.
Definition isThreadFull (tid : nat) (r : Rob) : bool := (threadEntries (thread_at r tid) =? numEntries r)%nat.
Definition isEmpty (tid : nat) (r : Rob) : bool := (threadEntries (thread_at r tid) =? 0)%nat.
Definition isDoneSquashing (tid : nat) (r : Rob) : bool := doneSquashing (thread_at r tid).
Definition countInsts (tid : nat) (r : Rob) : nat := length (instList (thread_at r tid)).
Definition numFreeEntries (r : Rob) : nat := numEntries r - numInstsInROB r.

(** [isHeadReady], [canCommit] *)
Definition isHeadReady (tid : nat) (r : Rob) : bool :=
  negb (threadEntries (thread_at r tid) =? 0)%nat
  && match instList (thread_at r tid) with e :: _ => canCommit e | [] => false end.
Definition anyReady (r : Rob) : bool := existsb (λ tid, isHeadReady tid r) (activeThreads r).

(** [readHeadInst], [readTailInst], [findInst] *)
Definition readHeadInst (tid : nat) (r : Rob) : option Entry := instList (thread_at r tid) !! 0%nat.
Definition readTailInst (tid : nat) (r : Rob) : option Entry := last (instList (thread_at r tid)).
Definition findInst (tid : nat) (seq : Z) (r : Rob) : option Entry :=
  snd <$> list_find (λ e, seqNum e = seq) (instList (thread_at r tid)).

(** ** Head and tail *)

(** [updateHead]: the oldest head of the active threads. *)
Definition updateHead (r : Rob) : Rob :=
  r <| head := foldl (λ best tid,
         match instList (thread_at r tid), best with
         | [], _ => best
         | e :: _, None => Some (seqNum e)
         | e :: _, Some b => if seqNum e <? b then Some (seqNum e) else best
         end) None (activeThreads r) |>.

(** [updateTail]: the youngest tail of the active threads. *)
Definition updateTail (r : Rob) : Rob :=
  r <| tail := foldl (λ best tid,
         match last (instList (thread_at r tid)), best with
         | None, _ => best
         | Some e, None => Some (seqNum e)
         | Some e, Some b => if b <? seqNum e then Some (seqNum e) else best
         end) None (activeThreads r) |>.

(** ** Entry and retirement *)

(** [insertInst]; [None] is the failed assertion of a full buffer. *)
Definition insertInst (e : Entry) (r : Rob) : option Rob :=
  if (numInstsInROB r =? numEntries r)%nat then None
  else
    let tid := threadNumber e in
    let first := (numInstsInROB r =? 0)%nat in
    let r := on_thread tid (λ t, t <| instList ::= λ l, l ++ [e <| inROB := true |>] |>
                                   <| threadEntries ::= S |>) r in
    let r := if first then r <| head := seqNum <$> readHeadInst tid r |> else r in
    Some (r <| tail := Some (seqNum e) |> <| numInstsInROB ::= S |>).

(** [retireHead]; [None] is a failed assertion, an empty list, or a squash iterator on the head,
    which would be left dangling. *)
Definition retireHead (tid : nat) (r : Rob) : option Rob :=
  if (numInstsInROB r =? 0)%nat then None
  else
    match instList (thread_at r tid), squashIt (thread_at r tid) with
    | [], _ | _, Some O => None
    | e :: l, it =>
        if negb (canCommit e) then None
        else Some (updateHead ((on_thread tid (λ t, t <| instList := l |> <| threadEntries ::= Nat.pred |>
                                                   <| squashIt := Nat.pred <$> it |>) r)
                     <| numInstsInROB ::= Nat.pred |>))
    end.

(** ** Squash *)

Definition mark (e : Entry) : Entry := e <| squashed := true |> <| canCommit := true |>.
Definition finish_squash (t : Thread) : Thread := t <| squashIt := None |> <| doneSquashing := true |>.

(** The loop of [doSquash] with [n] instructions left, from the iterator [p] on: the list, and the
    iterator, which is [None] when the head of the list has been reached. *)
Fixpoint squash_loop (n : nat) (squash_num : Z) (p : nat) (l : list Entry) : list Entry * option nat :=
  match n, l !! p with
  | S n, Some e =>
      if squash_num <? seqNum e then
        let l := <[p := mark e]> l in
        match p with
        | O => (l, None)
        | S p => squash_loop n squash_num p l
        end
      else (l, Some p)
  | _, _ => (l, Some p)
  end.

(** The thread's part of [doSquash], and whether the tail has to be found anew. *)
Definition squash_thread (n : nat) (t : Thread) : option (Thread * bool) :=
  p ← squashIt t;
  e ← instList t !! p;
  if seqNum e <? squashedSeqNum t then Some (finish_squash t, false)
  else
    match squash_loop n (squashedSeqNum t) p (instList t) with
    | (l, None) => Some (finish_squash (t <| instList := l |>), false)
    | (l, Some p') =>
        e' ← l !! p';
        let t := t <| instList := l |> <| squashIt := Some p' |> in
        Some (if seqNum e' <=? squashedSeqNum t then finish_squash t else t,
              (S p =? length l)%nat && (p' <? p)%nat)
    end.

(** [doSquash]; [exiting] is the CPU's [isThreadExiting], and [None] an iterator at the end. *)
Definition doSquash (exiting : bool) (tid : nat) (r : Rob) : option Rob :=
  '(t, robTailUpdate) ← squash_thread (if exiting then numEntries r else squashWidth r) (thread_at r tid);
  let r := on_thread tid (λ _, t) r in
  Some (if robTailUpdate : bool then updateTail r else r).

(** [squash] *)
Definition squash (exiting : bool) (squash_num : Z) (tid : nat) (r : Rob) : option Rob :=
  if isEmpty tid r then Some r
  else
    let r := on_thread tid (λ t, t <| robStatus := ROBSquashing |> <| doneSquashing := false |>
                                   <| squashedSeqNum := squash_num |>) r in
    match instList (thread_at r tid) with
    | [] => Some r
    | l => doSquash exiting tid (on_thread tid (λ t, t <| squashIt := Some (length l - 1)%nat |>) r)
    end.

(** [resetEntries] *)
Definition resetEntries (r : Rob) : Rob :=
  if bool_decide (robPolicy r = Dynamic) && (length (threads r) <=? 1)%nat then r
  else foldl (λ r tid,
         on_thread tid (λ t, match robPolicy r with
                             | Partitioned => t <| maxEntries := (numEntries r / length (activeThreads r))%nat |>
                             | Threshold => if (length (activeThreads r) =? 1)%nat
                                            then t <| maxEntries := numEntries r |> else t
                             | Dynamic => t
                             end) r) r (activeThreads r).

(** ** Specification *)

(** The squashed list: what is younger than [squash_num] is marked, the rest is left alone. *)
Definition squash_marks (squash_num : Z) (l : list Entry) : list Entry :=
  (λ e, if squash_num <? seqNum e then mark e else e) <$> l.

(** The squash has come to the index [p]. *)
Definition marked_from (squash_num : Z) (p : nat) (l : list Entry) : list Entry :=
  take (S p) l ++ squash_marks squash_num (drop (S p) l).

Definition ordered (l : list Entry) : Prop := StronglySorted (λ a b, seqNum a < seqNum b) l.
Definition younger (squash_num : Z) (l : list Entry) : nat := length (filter (λ e, squash_num < seqNum e) l).

Definition squashed_thread (squash_num : Z) (t : Thread) : Thread :=
  finish_squash (t <| robStatus := ROBSquashing |> <| squashedSeqNum := squash_num |>
                   <| instList ::= squash_marks squash_num |>).

(** A squash and the cycles after it: the commit stage goes on until it is done. *)
Definition squash_cycle (exiting : bool) (tid : nat) (r : Rob) : option Rob :=
  if isDoneSquashing tid r then Some r else doSquash exiting tid r.
Definition squash_cycles (exiting : bool) (tid m : nat) (o : option Rob) : option Rob :=
  Nat.iter m (λ o, r ← o; squash_cycle exiting tid r) o.

(** ** Lemmas *)

Lemma squash_marks_app q l k : squash_marks q (l ++ k) = squash_marks q l ++ squash_marks q k.
Proof. apply fmap_app. Qed.

Lemma marked_lookup q p l e : l !! p = Some e → marked_from q p l !! p = Some e.
Proof.
  intros E. assert (p < length l)%nat by by eapply lookup_lt_Some.
  unfold marked_from. rewrite lookup_app_l by (rewrite length_take; lia). rewrite lookup_take_lt by lia. done.
Qed.

(** One more mark. *)
Lemma marked_step q p l e :
  l !! p = Some e → q < seqNum e →
  <[p := mark e]> (marked_from q p l) = take p l ++ squash_marks q (drop p l).
Proof.
  intros E Hq. assert (p < length l)%nat by by eapply lookup_lt_Some.
  unfold marked_from. rewrite (take_S_r _ _ _ E), (drop_S _ _ _ E). simpl.
  rewrite (proj2 (Z.ltb_lt _ _)) by done. rewrite <- app_assoc. simpl.
  rewrite insert_app_r_alt by (rewrite length_take; lia). rewrite length_take, Nat.min_l, Nat.sub_diag by lia. done.
Qed.

(** Nothing is left to mark once an instruction that stays is found. *)
Lemma marked_done q p l e :
  ordered l → l !! p = Some e → seqNum e ≤ q → marked_from q p l = squash_marks q l.
Proof.
  intros Ho E Hq. unfold marked_from. rewrite <- (take_drop (S p) l) at 3. rewrite squash_marks_app. f_equal.
  unfold squash_marks. symmetry. rewrite <- (list_fmap_id (take (S p) l)) at 2. apply list_fmap_ext.
  intros i x Hi. assert (Hl : (i < S p)%nat).
  { apply lookup_lt_Some in Hi. rewrite length_take in Hi. lia. }
  rewrite lookup_take_lt in Hi by lia. assert (seqNum x ≤ q); [|by destruct (Z.ltb_spec q (seqNum x)); [lia|]].
  destruct (decide (i = p)) as [->|]; [by simplify_eq|].
  rewrite <- (take_drop p l) in Ho. apply StronglySorted_app in Ho as (Ho & _ & _).
  assert (seqNum x < seqNum e); [|lia]. apply Ho.
  - apply list_elem_of_lookup. exists i. rewrite lookup_take_lt by lia. done.
  - apply list_elem_of_lookup. exists 0%nat. rewrite lookup_drop, Nat.add_0_r. done.
Qed.

Lemma squash_loop_spec n q l : ∀ p, (p < length l)%nat →
  match squash_loop n q p (marked_from q p l) with
  | (l', None) => l' = squash_marks q l
  | (l', Some p') => (p' ≤ p)%nat ∧ l' = marked_from q p' l
      ∧ ((p' + n = p)%nat ∨ ∃ e, l !! p' = Some e ∧ seqNum e ≤ q)
  end.
Proof.
  induction n as [|n IH]; intros p Hp; simpl; [by split_and!; [lia|done|left; lia]|].
  destruct (lookup_lt_is_Some_2 l p Hp) as [e E]. rewrite (marked_lookup _ _ _ _ E).
  destruct (Z.ltb_spec q (seqNum e)) as [Hq|Hq]; [|by split_and!; [lia|done|right; by exists e]].
  rewrite (marked_step _ _ _ _ E Hq). destruct p as [|p]; [done|].
  specialize (IH p ltac:(lia)). fold (marked_from q p l).
  destruct (squash_loop n q p (marked_from q p l)) as [l' [p'|]]; [|done].
  destruct IH as (? & ? & IH). split_and!; [lia|done|]. destruct IH as [?|?]; [left; lia|by right].
Qed.

(** A thread whose squash of [l] has come to [p]; what is behind [p] is younger. *)
Record squashing_at (q : Z) (p : nat) (l : list Entry) (t0 t : Thread) : Prop := mkSquashing {
  sq_range : (p < length l)%nat;
  sq_behind : ∀ i e, (p < i)%nat → l !! i = Some e → q < seqNum e;
  sq_thread : t = t0 <| robStatus := ROBSquashing |> <| squashedSeqNum := q |> <| doneSquashing := false |>
                     <| instList := marked_from q p l |> <| squashIt := Some p |>
}.

(** One cycle of a squash: it is done, or has marked as many as it may. *)
Lemma squash_thread_step n q p l t0 t :
  (0 < n)%nat → ordered l → instList t0 = l → squashing_at q p l t0 t →
  ∃ t' b, squash_thread n t = Some (t', b)
  ∧ (t' = squashed_thread q t0 ∨ ∃ p', (p' + n = p)%nat ∧ squashing_at q p' l t0 t'
      ∧ ∃ e, l !! p' = Some e ∧ q < seqNum e).
Proof.
  intros Hn Ho Hl [Hp Hb ->]. destruct (lookup_lt_is_Some_2 l p Hp) as [e E].
  assert (Hfin : ∀ k, finish_squash (t0 <| robStatus := ROBSquashing |> <| squashedSeqNum := q |>
      <| doneSquashing := false |> <| instList := squash_marks q l |> <| squashIt := k |>) = squashed_thread q t0)
    by (intros k; unfold squashed_thread, finish_squash; rewrite <- Hl; by destruct t0).
  unfold squash_thread. cbn [squashIt mbind option_bind]. simpl.
  rewrite (marked_lookup _ _ _ _ E). cbn [mbind option_bind].
  destruct (Z.ltb_spec (seqNum e) q).
  { do 2 eexists. split; [done|left]. rewrite (marked_done q p l e Ho E) by lia. apply Hfin. }
  pose proof (squash_loop_spec n q l p Hp) as Hloop.
  destruct (squash_loop n q p (marked_from q p l)) as [l' [p'|]].
  2: { do 2 eexists. split; [done|left]. subst l'. apply (Hfin (Some p)). }
  destruct Hloop as (Hle & -> & Hcase). destruct (lookup_lt_is_Some_2 l p' ltac:(lia)) as [e' E'].
  rewrite (marked_lookup _ _ _ _ E'). cbn [mbind option_bind]. do 2 eexists. split; [done|].
  destruct (Z.leb_spec (seqNum e') q) as [Hq|Hq].
  - left. rewrite (marked_done q p' l e' Ho E' Hq). apply (Hfin (Some p')).
  - right. destruct Hcase as [?|(x & Ex & ?)]; [|by simplify_eq; lia]. exists p'. split; [done|].
    split; [|by exists e']. constructor; [lia| |by destruct t0].
    intros i x Hi Ex. assert (seqNum e' < seqNum x); [|lia].
    rewrite <- (take_drop (S p') l) in Ho. apply StronglySorted_app in Ho as (Ho & _ & _). apply Ho.
    + apply list_elem_of_lookup. exists p'. rewrite lookup_take_lt by lia. done.
    + apply list_elem_of_lookup. exists (i - S p')%nat. rewrite lookup_drop. replace (S p' + (i - S p'))%nat with i by lia. done.
Qed.

Lemma filter_all {A} (P : A → Prop) `{!∀ x, Decision (P x)} (l : list A) : Forall P l → filter P l = l.
Proof. induction 1 as [|x l Hx Hl IH]; [done|]. by rewrite filter_cons_True, IH. Qed.

(** While instructions from [p] on are younger there are at least so many. *)
Lemma younger_bound q p l :
  (∀ i e, (p ≤ i)%nat → l !! i = Some e → q < seqNum e) → (length l - p ≤ younger q l)%nat.
Proof.
  intros Hb. unfold younger. rewrite <- (take_drop p l) at 2. rewrite filter_app, length_app.
  assert (E : filter (λ e, q < seqNum e) (drop p l) = drop p l).
  { apply filter_all, Forall_lookup. intros i e Hi. rewrite lookup_drop in Hi. by eapply Hb; [|exact Hi]; lia. }
  rewrite E, length_drop. lia.
Qed.

(** *** The buffer around a thread *)

Lemma thread_on_thread tid f r :
  (tid < length (threads r))%nat → thread_at (on_thread tid f r) tid = f (thread_at r tid).
Proof.
  intros Ht. unfold thread_at, on_thread. simpl. destruct (lookup_lt_is_Some_2 (threads r) tid Ht) as [t E].
  rewrite !list_lookup_total_alt, list_lookup_alter, decide_True, E by done. done.
Qed.

Lemma thread_other tid u f r : u ≠ tid → thread_at (on_thread tid f r) u = thread_at r u.
Proof. intros Hu. unfold thread_at, on_thread. simpl. by rewrite !list_lookup_total_alt, list_lookup_alter, decide_False by congruence. Qed.

Definition others_kept (tid : nat) (r r' : Rob) : Prop :=
  length (threads r') = length (threads r) ∧ numInstsInROB r' = numInstsInROB r ∧ numEntries r' = numEntries r
  ∧ squashWidth r' = squashWidth r ∧ ∀ u, u ≠ tid → thread_at r' u = thread_at r u.

Lemma others_trans tid r1 r2 r3 : others_kept tid r1 r2 → others_kept tid r2 r3 → others_kept tid r1 r3.
Proof.
  intros (E1 & E2 & E3 & E4 & E5) (F1 & F2 & F3 & F4 & F5). split_and!; [congruence..|].
  intros u Hu. by rewrite F5, E5.
Qed.

Lemma others_on_thread tid f r : others_kept tid r (on_thread tid f r).
Proof. split_and!; try done; [apply length_alter|]. intros u Hu. by apply thread_other. Qed.

Definition squash_slots (exiting : bool) (r : Rob) : nat := if exiting then numEntries r else squashWidth r.

Lemma doSquash_step exiting tid r t b :
  (tid < length (threads r))%nat → squash_thread (squash_slots exiting r) (thread_at r tid) = Some (t, b) →
  ∃ r', doSquash exiting tid r = Some r' ∧ thread_at r' tid = t ∧ others_kept tid r r'.
Proof.
  intros Ht E. unfold doSquash. fold (squash_slots exiting r). rewrite E. cbn [mbind option_bind].
  exists (if b then updateTail (on_thread tid (λ _, t) r) else on_thread tid (λ _, t) r). split; [done|].
  pose proof (thread_on_thread tid (λ _, t) r Ht) as Et. pose proof (others_on_thread tid (λ _, t) r) as Eo.
  by destruct b.
Qed.

(** Where a squash is after [m] further cycles: done, or [m] times its width further on. *)
Definition squash_progress (exiting : bool) (q : Z) (tid m : nat) (r r' : Rob) : Prop :=
  others_kept tid r r'
  ∧ (thread_at r' tid = squashed_thread q (thread_at r tid)
     ∨ ∃ p, (p + S m * squash_slots exiting r = length (instList (thread_at r tid)) - 1)%nat
            ∧ squashing_at q p (instList (thread_at r tid)) (thread_at r tid) (thread_at r' tid)
            ∧ ∃ e, instList (thread_at r tid) !! p = Some e ∧ q < seqNum e).

Lemma squash_starts exiting q tid r :
  (tid < length (threads r))%nat → (0 < squash_slots exiting r)%nat → ordered (instList (thread_at r tid)) →
  threadEntries (thread_at r tid) = length (instList (thread_at r tid)) → isEmpty tid r = false →
  ∃ r', squash exiting q tid r = Some r' ∧ squash_progress exiting q tid 0 r r'.
Proof.
  intros Ht Hn Ho Hc He. unfold squash. rewrite He. set (t0 := thread_at r tid) in *.
  set (r1 := on_thread tid _ r).
  assert (E1 : thread_at r1 tid = t0 <| robStatus := ROBSquashing |> <| doneSquashing := false |> <| squashedSeqNum := q |>)
    by (unfold r1; by rewrite thread_on_thread).
  assert (O1 : others_kept tid r r1) by apply others_on_thread.
  assert (El : instList (thread_at r1 tid) = instList t0) by by rewrite E1.
  rewrite El. unfold isEmpty in He. fold t0 in He. apply Nat.eqb_neq in He. rewrite Hc in He.
  destruct (instList t0) as [|e0 l0] eqn:El0; [done|]. rewrite <- El0 in *. clear e0 l0 El0.
  set (p := (length (instList t0) - 1)%nat). set (r2 := on_thread tid _ r1).
  assert (Ht1 : (tid < length (threads r1))%nat) by (destruct O1 as (-> & _); done).
  assert (O2 : others_kept tid r r2) by (eapply others_trans; [exact O1|apply others_on_thread]).
  assert (Hs : squashing_at q p (instList t0) t0 (thread_at r2 tid)).
  { constructor; [lia| |].
    - intros i e Hi Ei. apply lookup_lt_Some in Ei. lia.
    - unfold r2. rewrite thread_on_thread, E1 by done.
      assert (Em : marked_from q p (instList t0) = instList t0).
      { unfold marked_from. rewrite take_ge, drop_ge by lia. apply app_nil_r. }
      rewrite Em. by destruct t0. }
  assert (Ew : squash_slots exiting r2 = squash_slots exiting r)
    by (destruct O2 as (_ & _ & E3 & E4 & _); unfold squash_slots; by rewrite E3, E4).
  destruct (squash_thread_step (squash_slots exiting r2) q p (instList t0) t0 _ ltac:(lia) Ho eq_refl Hs)
    as (t' & b & Est & Hcase).
  destruct (doSquash_step exiting tid r2 t' b ltac:(destruct O2 as (-> & _); lia) Est) as (r' & Er & Et & O3).
  exists r'. split; [exact Er|]. split; [by eapply others_trans|]. fold t0. rewrite Et, <- Ew.
  destruct Hcase as [?|(p' & ? & ? & ?)]; [by left|right]. exists p'. split; [lia|done].
Qed.

Lemma squash_continues exiting q tid m r r' :
  (tid < length (threads r))%nat → (0 < squash_slots exiting r)%nat → ordered (instList (thread_at r tid)) →
  squash_progress exiting q tid m r r' →
  ∃ r'', squash_cycle exiting tid r' = Some r'' ∧ squash_progress exiting q tid (S m) r r''.
Proof.
  intros Ht Hn Ho [O [E|(p & Hp & Hs & _)]]; unfold squash_cycle, isDoneSquashing.
  - exists r'. rewrite E. split; [done|]. split; [done|by left].
  - assert (Ed : doneSquashing (thread_at r' tid) = false) by (destruct Hs as [_ _ ->]; done). rewrite Ed.
    assert (Ew : squash_slots exiting r' = squash_slots exiting r)
      by (destruct O as (_ & _ & E3 & E4 & _); unfold squash_slots; by rewrite E3, E4).
    destruct (squash_thread_step (squash_slots exiting r') q p _ (thread_at r tid) _ ltac:(lia) Ho eq_refl Hs)
      as (t' & b & Est & Hcase).
    destruct (doSquash_step exiting tid r' t' b ltac:(destruct O as (-> & _); lia) Est) as (r'' & Er & Et & O3).
    exists r''. split; [exact Er|]. split; [by eapply others_trans|]. rewrite Et.
    destruct Hcase as [?|(p' & ? & ? & ?)]; [by left|right]. exists p'. split; [|done].
    rewrite Ew in *. simpl in *. lia.
Qed.

(** ** The invariant *)

Definition thread_ok (t : Thread) : Prop :=
  threadEntries t = length (instList t) ∧ ordered (instList t)
  ∧ match squashIt t with
    | None => doneSquashing t = true
    | Some p => doneSquashing t = false ∧ (p < length (instList t))%nat
    end.

Definition total (r : Rob) : nat := sum_list ((λ t, length (instList t)) <$> threads r).

Record rob_ok (r : Rob) : Prop := mkRobOk {
  ro_threads : Forall thread_ok (threads r);
  ro_total : numInstsInROB r = total r;
  ro_bound : (numInstsInROB r ≤ numEntries r)%nat
}.

(** The calls of the commit stage.  An instruction enters its thread as the youngest one while there is
    room; only a thread that is done squashing retires, and only a head that is ready; a squash
    goes on while it is not done. *)
Inductive Op :=
| Insert (e : Entry)
| Retire (tid : nat)
| Squash (exiting : bool) (squash_num : Z) (tid : nat)
| Cycle (exiting : bool) (tid : nat)
| ResetEntries.

Definition allowed (o : Op) (r : Rob) : Prop :=
  match o with
  | Insert e => (threadNumber e < length (threads r))%nat ∧ isFull r = false
                ∧ Forall (λ x, seqNum x < seqNum e) (instList (thread_at r (threadNumber e)))
  | Retire tid => (tid < length (threads r))%nat ∧ isDoneSquashing tid r = true ∧ isHeadReady tid r = true
  | Squash _ _ tid => (tid < length (threads r))%nat
  | Cycle _ tid => (tid < length (threads r))%nat ∧ isDoneSquashing tid r = false
  | ResetEntries => True
  end.

Definition apply_op (o : Op) (r : Rob) : option Rob :=
  match o with
  | Insert e => insertInst e r
  | Retire tid => retireHead tid r
  | Squash exiting q tid => squash exiting q tid r
  | Cycle exiting tid => doSquash exiting tid r
  | ResetEntries => Some (resetEntries r)
  end.

Inductive reachable (r0 : Rob) : Rob → Prop :=
| reach_init : reachable r0 r0
| reach_step r o r' : reachable r0 r → allowed o r → apply_op o r = Some r' → reachable r0 r'.

Lemma thread_ok_at r tid : rob_ok r → (tid < length (threads r))%nat → thread_ok (thread_at r tid).
Proof. intros [Hf _ _] Ht. unfold thread_at. rewrite Forall_forall in Hf. apply Hf. by apply list_elem_of_lookup_total_2. Qed.

Lemma total_on_thread tid f r :
  (tid < length (threads r))%nat →
  (total (on_thread tid f r) + length (instList (thread_at r tid))
   = total r + length (instList (f (thread_at r tid))))%nat.
Proof.
  unfold total, on_thread, thread_at. simpl. revert tid. induction (threads r) as [|t ts IH]; intros tid Ht; [simpl in Ht; lia|].
  destruct tid as [|tid]; simpl; [lia|]. simpl in Ht. specialize (IH tid ltac:(lia)).
  unfold fmap, alter in IH. simpl in *. lia.
Qed.

(** A change of one thread. *)
Lemma rob_on_thread tid f n r :
  (tid < length (threads r))%nat → rob_ok r → thread_ok (f (thread_at r tid)) →
  (numInstsInROB r + length (instList (f (thread_at r tid))) = n + length (instList (thread_at r tid)))%nat →
  (n ≤ numEntries r)%nat → rob_ok ((on_thread tid f r) <| numInstsInROB := n |>).
Proof.
  intros Ht [Hf Hn Hb] Hok Hl Hle. pose proof (total_on_thread tid f r Ht) as Et.
  constructor; [|change (n = total (on_thread tid f r)); lia|done].
  unfold on_thread. simpl. apply Forall_alter; [done|]. intros t Hin Hokt.
  assert (E : thread_at r tid = t) by (unfold thread_at; by rewrite list_lookup_total_alt, Hin). by rewrite <- E.
Qed.

Lemma ordered_seq l : ∀ k, seqNum <$> k = seqNum <$> l → ordered l → ordered k.
Proof.
  unfold ordered. induction l as [|x l IH]; intros [|y k] E Ho; try done.
  injection E as E1 E2. apply StronglySorted_inv in Ho as [Ho Hf]. constructor; [by apply IH|].
  rewrite E1. clear - E2 Hf. revert k E2. induction l as [|z l IH]; intros [|w k] E2; try done.
  injection E2 as E1 E2. apply Forall_cons in Hf as [Hz Hf]. constructor; [by rewrite E1|by apply IH].
Qed.

Lemma squash_loop_frame n q : ∀ p l,
  (p < length l)%nat →
  seqNum <$> (squash_loop n q p l).1 = seqNum <$> l
  ∧ match (squash_loop n q p l).2 with Some p' => (p' ≤ p)%nat | None => True end.
Proof.
  induction n as [|n IH]; intros p l Hp; simpl; [by split; [|lia]|].
  destruct (lookup_lt_is_Some_2 l p Hp) as [e E]. rewrite E. destruct (q <? seqNum e); [|by split; [|simpl; lia]].
  assert (Em : seqNum <$> <[p := mark e]> l = seqNum <$> l).
  { rewrite list_fmap_insert. apply list_insert_id. by rewrite list_lookup_fmap, E. }
  destruct p as [|p]; [done|]. destruct (IH p (<[S p := mark e]> l)) as [E1 E2]; [rewrite length_insert; lia|].
  rewrite E1, Em. split; [done|]. destruct (squash_loop n q p _) as [l' [p'|]]; [|done]. simpl in *. lia.
Qed.

(** A squash cycle keeps the thread in order, and does not fail while the squash is not done. *)
Lemma squash_thread_ok n t :
  thread_ok t → doneSquashing t = false →
  ∃ t' b, squash_thread n t = Some (t', b) ∧ thread_ok t' ∧ length (instList t') = length (instList t).
Proof.
  intros (He & Ho & Hs) Hd. unfold squash_thread. destruct (squashIt t) as [p|]; [|congruence].
  destruct Hs as [_ Hp]. cbn [mbind option_bind]. destruct (lookup_lt_is_Some_2 _ p Hp) as [e E]. rewrite E.
  cbn [mbind option_bind]. destruct (_ <? _); [by do 2 eexists|].
  destruct (squash_loop_frame n (squashedSeqNum t) p (instList t) Hp) as [Es Hle].
  destruct (squash_loop n (squashedSeqNum t) p (instList t)) as [l [p'|]]; simpl in Es, Hle;
    pose proof (f_equal length Es) as El; rewrite !length_fmap in El;
    pose proof (ordered_seq _ _ Es Ho) as Ho'.
  - destruct (lookup_lt_is_Some_2 l p' ltac:(lia)) as [e' E']. rewrite E'. cbn [mbind option_bind].
    do 2 eexists. split; [done|]. destruct (_ <=? _); (split; [|done]); (split; [simpl; congruence|]); (split; [done|]); simpl.
    + done.
    + split; [done|lia].
  - do 2 eexists. split; [done|]. split; [|done]. split; [simpl; congruence|done].
Qed.

Lemma squash_cycle_ok exiting tid r :
  rob_ok r → (tid < length (threads r))%nat → isDoneSquashing tid r = false →
  ∃ r', doSquash exiting tid r = Some r' ∧ rob_ok r'.
Proof.
  intros Hok Ht Hd. destruct (squash_thread_ok (squash_slots exiting r) _ (thread_ok_at r tid Hok Ht) Hd)
    as (t' & b & E & Hok' & El).
  unfold doSquash. fold (squash_slots exiting r). rewrite E. cbn [mbind option_bind]. eexists. split; [done|].
  assert (H1 : rob_ok (on_thread tid (λ _, t') r)).
  { pose proof (rob_on_thread tid (λ _, t') (numInstsInROB r) r Ht Hok Hok' ltac:(simpl; lia) (ro_bound _ Hok)) as H1.
    by destruct H1. }
  destruct b; [by destruct H1|done].
Qed.

Lemma on_thread_twice tid f g r : on_thread tid g (on_thread tid f r) = on_thread tid (λ t, g (f t)) r.
Proof.
  unfold on_thread. destruct r as [p n w ts a k h t]. simpl. f_equal. apply list_eq. intros i.
  rewrite !list_lookup_alter. destruct (decide (tid = i)) as [->|]; [|done].
  rewrite decide_True by done. by destruct (ts !! i).
Qed.

Lemma rob_squash_ok exiting q tid r :
  rob_ok r → (tid < length (threads r))%nat → ∃ r', squash exiting q tid r = Some r' ∧ rob_ok r'.
Proof.
  intros Hok Ht. unfold squash. destruct (isEmpty tid r) eqn:He; [by exists r|].
  pose proof (thread_ok_at r tid Hok Ht) as (Hc & Ho & _). set (r1 := on_thread tid _ r).
  assert (E1 : thread_at r1 tid = (thread_at r tid) <| robStatus := ROBSquashing |> <| doneSquashing := false |>
    <| squashedSeqNum := q |>) by (unfold r1; by rewrite thread_on_thread).
  assert (El : instList (thread_at r1 tid) = instList (thread_at r tid)) by by rewrite E1.
  rewrite El. unfold isEmpty in He. apply Nat.eqb_neq in He. rewrite Hc in He.
  destruct (instList (thread_at r tid)) as [|e0 l0] eqn:El0; [done|]. rewrite <- El0 in *.
  set (k := (length (instList (thread_at r tid)) - 1)%nat). set (r2 := on_thread tid _ r1).
  set (f := λ t, t <| robStatus := ROBSquashing |> <| doneSquashing := false |> <| squashedSeqNum := q |>
                   <| squashIt := Some k |>).
  assert (E2 : r2 = on_thread tid f r) by (etrans; [apply (on_thread_twice tid _ _ r)|done]).
  assert (H2 : rob_ok r2).
  { rewrite E2. assert (Hf : thread_ok (f (thread_at r tid))) by (split; [done|]; split; [done|]; simpl; split; [done|lia]).
    pose proof (rob_on_thread tid f (numInstsInROB r) r Ht Hok Hf ltac:(simpl; lia) (ro_bound _ Hok)) as H2.
    by destruct H2. }
  apply squash_cycle_ok; [done|rewrite E2; unfold on_thread; simpl; by rewrite length_alter|].
  unfold isDoneSquashing. by rewrite E2, thread_on_thread.
Qed.

Lemma insert_ok e r :
  rob_ok r → allowed (Insert e) r → ∃ r', insertInst e r = Some r' ∧ rob_ok r'.
Proof.
  intros Hok (Ht & Hfull & Hy). unfold insertInst. unfold isFull in Hfull. rewrite Hfull. apply Nat.eqb_neq in Hfull.
  set (f := λ t, t <| instList ::= λ l, l ++ [e <| inROB := true |>] |> <| threadEntries ::= S |>).
  eexists. split; [done|]. pose proof (thread_ok_at r _ Hok Ht) as (Hc & Ho & Hs).
  assert (H1 : rob_ok ((on_thread (threadNumber e) f r) <| numInstsInROB := S (numInstsInROB r) |>)).
  { apply rob_on_thread; [done|done| |simpl; rewrite length_app; simpl; lia|pose proof (ro_bound _ Hok); lia].
    split; [simpl; rewrite length_app; simpl; lia|]. split.
    - apply StronglySorted_app_2; [|done|by repeat constructor].
      intros x y Hx ->%list_elem_of_singleton. rewrite Forall_forall in Hy. by apply Hy.
    - simpl. destruct (squashIt (thread_at r (threadNumber e))) as [p|]; [|done]. rewrite length_app. simpl.
      destruct Hs. split; [done|lia]. }
  destruct (numInstsInROB r =? 0)%nat; by destruct H1.
Qed.

Lemma retire_ok tid r :
  rob_ok r → allowed (Retire tid) r → ∃ r', retireHead tid r = Some r' ∧ rob_ok r'.
Proof.
  intros Hok (Ht & Hd & Hh). pose proof (thread_ok_at r _ Hok Ht) as (Hc & Ho & Hs). unfold retireHead.
  unfold isHeadReady in Hh. apply andb_true_iff in Hh as [_ Hh]. unfold isDoneSquashing in Hd.
  destruct (instList (thread_at r tid)) as [|e l] eqn:El; [done|].
  destruct (squashIt (thread_at r tid)) as [p|] eqn:Es; [by rewrite Hd in Hs; destruct Hs|].
  set (f := λ t, t <| instList := l |> <| threadEntries ::= Nat.pred |> <| squashIt := Nat.pred <$> None |>).
  pose proof (total_on_thread tid f r Ht) as Et. simpl in Et. rewrite El in Et. simpl in Et.
  pose proof (ro_total _ Hok) as Hn. destruct (Nat.eqb_spec (numInstsInROB r) 0); [lia|]. rewrite Hh. cbn [negb].
  eexists. split; [done|].
  assert (H1 : rob_ok ((on_thread tid f r) <| numInstsInROB := Nat.pred (numInstsInROB r) |>)).
  { apply rob_on_thread; [done|done| |rewrite El; simpl; lia|pose proof (ro_bound _ Hok); lia].
    split; [simpl; rewrite Hc; simpl; lia|]. split; [by apply StronglySorted_inv in Ho as [? _]|]. simpl. by rewrite Hd. }
  by destruct H1.
Qed.

Lemma rob_reset_ok r : rob_ok r → rob_ok (resetEntries r).
Proof.
  intros Hok. unfold resetEntries. destruct (_ && _); [done|].
  assert (Hg : ∀ ts r1, rob_ok r1 → rob_ok (foldl (λ r tid,
         on_thread tid (λ t, match robPolicy r with
                             | Partitioned => t <| maxEntries := (numEntries r / length (activeThreads r))%nat |>
                             | Threshold => if (length (activeThreads r) =? 1)%nat
                                            then t <| maxEntries := numEntries r |> else t
                             | Dynamic => t
                             end) r) r1 ts)); [|by apply Hg].
  clear. induction ts as [|tid ts IH]; intros r Hok; [done|]. simpl. apply IH.
  destruct (decide (tid < length (threads r))%nat) as [Ht|Ht].
  - match goal with |- rob_ok (on_thread tid ?g r) => set (f := g) end.
    assert (Hf : thread_ok (f (thread_at r tid)) ∧ instList (f (thread_at r tid)) = instList (thread_at r tid)).
    { pose proof (thread_ok_at r tid Hok Ht). unfold f. destruct (robPolicy r); [done..|by destruct (_ =? _)%nat]. }
    destruct Hf as [Hf El].
    pose proof (rob_on_thread tid f (numInstsInROB r) r Ht Hok Hf ltac:(rewrite El; lia) (ro_bound _ Hok)) as H1.
    by destruct H1.
  - unfold on_thread. assert (E : ∀ f, alter f tid (threads r) = threads r).
    { intros f. apply list_eq. intros i. rewrite list_lookup_alter. case_decide as Hi; [|done]. subst i.
      by rewrite lookup_ge_None_2 by lia. }
    by destruct Hok; constructor; unfold total; simpl; rewrite ?E.
Qed.

Lemma op_ok o r : rob_ok r → allowed o r → ∃ r', apply_op o r = Some r' ∧ rob_ok r'.
Proof.
  intros Hok Ha. destruct o as [e|tid|exiting q tid|exiting tid|]; cbn [apply_op].
  - by apply insert_ok.
  - by apply retire_ok.
  - by apply rob_squash_ok.
  - destruct Ha. by apply squash_cycle_ok.
  - eexists. split; [done|]. by apply rob_reset_ok.
Qed.

Lemma total_init k n : sum_list ((λ t, length (instList t)) <$> replicate n (Thread_init k)) = 0%nat.
Proof. induction n as [|n IH]; [done|exact IH]. Qed.

Lemma rob_create_ok policy entries width n threshold active : rob_ok (create policy entries width n threshold active).
Proof.
  constructor; [|symmetry; apply total_init|simpl; lia].
  apply Forall_replicate. split; [done|]. split; [constructor|done].
Qed.

(** In every state the commit stage can reach the counters are the lengths of the lists, each list is in
    program order and the buffer within its size; and no call trips an assertion of the code or
    follows an iterator out of its list. *)
Theorem rob_invariant policy entries width n threshold active r
    (Hr : reachable (create policy entries width n threshold active) r) :
  rob_ok r ∧ ∀ o, allowed o r → is_Some (apply_op o r).
Proof.
  assert (Hok : rob_ok r).
  { induction Hr as [|r o r' _ IH Ha E]; [apply rob_create_ok|].
    destruct (op_ok o r IH Ha) as (r2 & E2 & H2). congruence. }
  split; [done|]. intros o Ha. destruct (op_ok o r Hok Ha) as (r' & E & _). by exists r'.
Qed.

(** C16: A squash ends and is exact.  In a state the commit stage can reach, squashing a thread down to a
    number marks every younger instruction of the thread as squashed and ready to commit, changes no
    other instruction, thread or counter, and is done after as many cycles as the squash width
    needs for the younger instructions; none of these cycles fails. *)
Theorem rob_squash_exact policy entries width n threshold active r (exiting : bool) (q : Z) (tid m : nat)
    (Hr : reachable (create policy entries width n threshold active) r)
    (Ht : (tid < length (threads r))%nat) (Hw : (0 < squash_slots exiting r)%nat)
    (Hm : (younger q (instList (thread_at r tid)) ≤ S m * squash_slots exiting r)%nat)
    (He : isEmpty tid r = false) :
  ∃ r', squash_cycles exiting tid m (squash exiting q tid r) = Some r'
  ∧ isDoneSquashing tid r' = true
  ∧ thread_at r' tid = squashed_thread q (thread_at r tid)
  ∧ others_kept tid r r'.
Proof.
  assert (Hok : rob_ok r).
  { clear - Hr. induction Hr as [|r o r' _ IH Ha E]; [apply rob_create_ok|].
    destruct (op_ok o r IH Ha) as (r2 & E2 & H2). congruence. }
  destruct (thread_ok_at r tid Hok Ht) as (Hc & Ho & _).
  assert (Hk : ∀ k, ∃ r', squash_cycles exiting tid k (squash exiting q tid r) = Some r'
                   ∧ squash_progress exiting q tid k r r').
  { induction k as [|k (r1 & E1 & H1)]; [exact (squash_starts exiting q tid r Ht Hw Ho Hc He)|].
    destruct (squash_continues exiting q tid k r r1 Ht Hw Ho H1) as (r2 & E2 & H2).
    exists r2. split; [|done]. unfold squash_cycles in *. simpl. by rewrite E1. }
  destruct (Hk m) as (r' & E & O & [Et|(p & Hp & [Hrange Hb _] & e & Ee & Hq)]).
  - exists r'. split; [done|]. split; [unfold isDoneSquashing; by rewrite Et|done].
  - exfalso. assert (length (instList (thread_at r tid)) - p ≤ younger q (instList (thread_at r tid)))%nat; [|lia].
    apply younger_bound. intros i x Hi Ex. destruct (decide (i = p)) as [->|]; [by simplify_eq|].
    apply (Hb i x); [lia|done].
Qed.

(** ** An example: a buffer of two threads, with three younger instructions of the first one
    and a squash width of two. *)
Definition demo_entry (tid : nat) (seq : Z) : Entry := mkEntry seq tid false false false.
Definition demo_ops : list Op := Insert <$> [demo_entry 0 5; demo_entry 0 6; demo_entry 1 7; demo_entry 0 8; demo_entry 0 9].
Definition demo_rob : Rob := create Dynamic 192 2 2 0 [0; 1]%nat.
Definition demo_at (k : nat) : Rob := default demo_rob (foldl (λ o op, r ← o; apply_op op r) (Some demo_rob) (take k demo_ops)).

Lemma demo_reachable : reachable demo_rob (demo_at 5).
Proof.
  assert (Hall : ∀ k, (k < 5)%nat → ∃ o, allowed o (demo_at k) ∧ apply_op o (demo_at k) = Some (demo_at (S k))).
  { intros k Hk. destruct k as [|[|[|[|[|k]]]]]; [..|lia];
      [exists (Insert (demo_entry 0 5))|exists (Insert (demo_entry 0 6))|exists (Insert (demo_entry 1 7))
      |exists (Insert (demo_entry 0 8))|exists (Insert (demo_entry 0 9))];
      (split; [|vm_compute; reflexivity]); split_and!; vm_compute; repeat constructor. }
  assert (Hk : ∀ k, (k ≤ 5)%nat → reachable demo_rob (demo_at k)); [|by apply Hk].
  induction k as [|k IH]; intros Hk; [constructor|]. destruct (Hall k ltac:(lia)) as (o & Ha & E).
  eapply reach_step; [apply IH; lia|exact Ha|exact E].
Qed.

Lemma rob_squash_exact_witness :
  ∃ r', squash_cycles false 0 1 (squash false 5 0 (demo_at 5)) = Some r'
  ∧ squashed <$> instList (thread_at r' 0) = [false; true; true; true]
  ∧ thread_at r' 1 = thread_at (demo_at 5) 1.
Proof.
  destruct (rob_squash_exact Dynamic 192 2 2 0 [0; 1]%nat (demo_at 5) false 5 0 1 demo_reachable)
    as (r' & E & _ & Et & _ & _ & _ & _ & Ho); [vm_compute; lia|vm_compute; lia|vm_compute; lia|vm_compute; reflexivity|].
  exists r'. split; [exact E|]. split; [|by apply Ho]. rewrite Et. vm_compute. reflexivity.
Defined.

Lemma rob_invariant_witness : rob_ok (demo_at 5).
Proof. apply (rob_invariant Dynamic 192 2 2 0 [0; 1]%nat (demo_at 5) demo_reachable). Defined.
End Rob.
