(* ===== verification/Driver.v ===== *)
(** * The discovery engine as the CPU drives it

    Model of the DVR parts of [CPU::observeDVRDispatch], [CPU::observeDVRLoad],
    [CPU::squashInstIt] and [CPU::instDone], with [beginDVRDiscoveryAtDispatch],
    [completeDVRNestedContext], [recordDVRDiscoveryGeneration] and [captureDVRRegisterSnapshot]
    (src/cpu/o3/cpu.cc): the units of the other files, composed as the CPU composes them.  What an
    instruction shows the CPU besides its own fields (effective address, register values, room
    in the ROB) enters as a [View].  Statistics and traces are left out. *)

From stdpp Require Import gmap.
From S2P Require Import Prelude Inst Stride Discovery Taint Uop Recorder Rename Vir VirExec LoopBound.
From S2P Require Import Nested Ndm Predicate Relation AltPath Replay Lanes PrefetchQueue Prefetch Flatten.

Module Driver.
Import PrefetchQueue Prefetch.
#[local] Existing Instances Nested.Event_eq_dec Ndm.State_eq_dec Ndm.Event_eq_dec Discovery.Event_eq_dec.

(** [dvrMode] *)
Inductive Mode := Vr | Offload | DiscoveryOnly | Full | NestedMode.
#[export] Instance Mode_eq_dec : EqDecision Mode.
Proof. solve_decision. Defined.

(** The parameters of the CPU. *)
Record Config := mkConfig {
  mode : Mode;  pc_min : Z;  pc_max : Z;  bounded_fallback : bool;  prefetch : Prefetch.Config
}.

(** What an event shows of its instruction: whether it completes an ISA instruction, whether DVR
    ignores it (disabled, or the CPU or the instruction in PRE), its address, the architectural registers and the values of its
    destinations, whether the ROB is full; and for what a commit may launch: the order in which
    the alternate-path cache is walked, the addresses the oracle exposes, the register bank ([None] if
    the trigger cannot be vectorised) and the tracker object. *)
Record View {B : Type} := mkView {
  inst : DynInst;  whole : bool;  pre : bool;  effAddr : option Z;  v_tid : Z;  contextId : Z;
  arch : list Z;  results : list Z;  rob_full : bool;
  order : AltPath.Cache → list (AltPath.Key * AltPath.Path);
  futures : option (list Z);  v_bank : option B;  v_tracker : Predicate.Tracker
}.
#[global] Arguments View : clear implicits.

(** ** Register snapshots *)

(** [captureDVRRegisterSnapshot]: the committing instruction's own results are not yet in the
    architectural map. *)
Definition capture {B} (v : View B) : list Z :=
  foldl (λ snapshot x, if is_int_class x.1 && (index x.1 <? length snapshot)%nat
                       then <[index x.1 := x.2]> snapshot else snapshot)
    (take 32 (arch v)) (zip (inst_dests (inst v)) (results v)).

(** The value of the first integer destination. *)
Definition int_result {B} (v : View B) : option Z :=
  (λ x, x.2.2) <$> list_find (λ x, is_int_class x.1 = true) (zip (inst_dests (inst v)) (results v)).

(** ** The state *)

(** The root discovery's mechanisms. *)
Record Core := mkCore {
  strideDetector : Stride.Detector;  discovery : Discovery.Controller;
  taintTracker : Taint.Tracker;  loopBoundDetector : LoopBound.Detector;
  instructionRecorder : Recorder.Recorder;  vectorRenameTable : Rename.Table;
  vectorInstructionRegister : Vir.Vir;
  dispatchTainted : gset Z;  dispatchDependentLoads : gset Z;  dispatchRecorded : gset Z;
  committedFinalLoadPC : Z;  currentTriggerPC : Z;  currentTriggerAddress : Z;
  initiatingLoadValue : Z;  discoveryStartRegs : list Z
}.
#[export] Instance eta_Core : Eta Core := λ r,
  mkCore (strideDetector r) (discovery r) (taintTracker r) (loopBoundDetector r) (instructionRecorder r)
    (vectorRenameTable r) (vectorInstructionRegister r) (dispatchTainted r) (dispatchDependentLoads r)
    (dispatchRecorded r) (committedFinalLoadPC r) (currentTriggerPC r) (currentTriggerAddress r)
    (initiatingLoadValue r) (discoveryStartRegs r).

(** [DVRNestedExecutionContext]; its rename table and VIR are in their reset state between events. *)
Record Child := mkChild {
  ch_active : bool;  ch_id : Z;  ch_tid : Z;  ch_triggerSequence : Z;  ch_triggerPC : Z;
  ch_triggerAddress : Z;  ch_stride : Z;  ch_initiatingValue : Z;  ch_taint : Taint.Tracker;
  ch_loopBound : LoopBound.Detector;  ch_recorder : Recorder.Recorder;  ch_startRegs : list Z
}.
#[export] Instance eta_Child : Eta Child := λ r,
  mkChild (ch_active r) (ch_id r) (ch_tid r) (ch_triggerSequence r) (ch_triggerPC r) (ch_triggerAddress r)
    (ch_stride r) (ch_initiatingValue r) (ch_taint r) (ch_loopBound r) (ch_recorder r) (ch_startRegs r).

(** [DVRNestedExecutionContext::reset]; [tid] is kept. *)
Definition reset_child (c : Child) : Child :=
  mkChild false 0 (ch_tid c) 0 0 0 0 0 (Taint.reset (ch_taint c)) (LoopBound.reset (ch_loopBound c))
    Recorder.reset (replicate 32 0).

(** [DVRPendingNestedCandidate]; [None] is one that is not valid. *)
Record Pending := mkPending { p_pc : Z;  p_sequence : Z;  p_address : Z;  p_stride : Z }.

Record Nest := mkNest {
  nestedController : Nested.Controller;  nestedDiscoveryMode : Ndm.Mode;  nestedContext : Child;
  pendingNested : option Pending;  committedNested : option Pending;  invocationBatch : Flatten.Batch
}.
#[export] Instance eta_Nest : Eta Nest := λ r,
  mkNest (nestedController r) (nestedDiscoveryMode r) (nestedContext r) (pendingNested r)
    (committedNested r) (invocationBatch r).

(** [DVRDiscoveryGenerationRecord] *)
Inductive Reason := InnermostSwitch | Complete | TimedOut | Abandon.
Record GenRecord := mkGenRecord {
  g_id : nat;  g_triggerPC : Z;  g_finalLoadPC : Z;  g_branchPC : Z;  g_targetPC : Z;  g_stride : Z;
  g_bound0 : Z;  g_bound1 : Z;  g_comparison : LoopBound.Comparison;  g_hasBound : bool;
  g_reason : Reason;  g_matched : bool;  g_lanes : Z
}.

(** The templates of all launches are kept under the names the requests hold. *)
Record State {B : Type} := mkState {
  core : Core;  nest : Nest;  alternatePathCache : AltPath.Cache;  discoveryHistory : list GenRecord;
  heap : gmap nat Replay.Template;  next_name : nat;  sys : Prefetch.Sys B
}.
#[global] Arguments State : clear implicits.
#[export] Instance eta_State {B} : Eta (State B) := λ r,
  mkState _ (core r) (nest r) (alternatePathCache r) (discoveryHistory r) (heap r) (next_name r) (sys r).

(** The state the constructor builds, from the parameters [dvrRPTEntries], [dvrDiscoveryMaxInsts],
    [dvrNDMThreshold] and [dvrNDMMaxInsts]. *)
Definition Core_init (entries : nat) (max : Z) : Core :=
  mkCore (Stride.init entries) (Discovery.init max) Taint.init LoopBound.init Recorder.reset
    (Rename.reset (Rename.mkTable [] 0)) Vir.reset ∅ ∅ ∅ 0 0 0 0 (replicate 32 0).
Definition Child_init : Child :=
  mkChild false 0 0 0 0 0 0 0 Taint.init LoopBound.init Recorder.reset (replicate 32 0).
Definition Nest_init (max threshold ndm_max : Z) : Nest :=
  mkNest (Nested.create max) (Ndm.create threshold ndm_max) Child_init None None Flatten.Batch_init.
Definition State_init {B} `{LaneBank B} (entries : nat) (max threshold ndm_max : Z) : State B :=
  mkState _ (Core_init entries max) (Nest_init max threshold ndm_max) ∅ [] ∅ 0 Sys_init.

Definition no_template : Replay.Template := Replay.mkTemplate 0 0 0 0 0 0 (-1) false [] [] false.
Definition template_at (h : gmap nat Replay.Template) (name : nat) : Replay.Template :=
  default no_template (h !! name).

Section driver.
Context {B : Type} `{LaneBank B} (cfg : Config).
Implicit Types (v : View B) (s : State B) (c : Core) (n : Nest).

Definition max_lanes : Z := Z.of_nat (Prefetch.max_lanes (prefetch cfg)).
Definition max_uops : nat := Prefetch.budget (prefetch cfg).
Definition sequence v : Z := seqNum (inst v).
Definition v_pc v : Z := instAddr (inst v).

(** ** The history of discoveries *)

Definition generation_record (reason : Reason) (inference : option LoopBound.Inference)
    (trigger_pc stride : Z) (id : nat) c : option GenRecord :=
  let pc := if trigger_pc =? 0 then currentTriggerPC c else trigger_pc in
  if pc =? 0 then None
  else
    let d := loopBoundDetector c in
    Some (mkGenRecord id pc
            (if committedFinalLoadPC c =? 0 then Taint.finalLoadPC (taintTracker c) else committedFinalLoadPC c)
            (LoopBound.loopBranchPC d) (LoopBound.loopTargetPC d)
            (if stride =? 0 then Discovery.triggerStride (discovery c) else stride)
            (LoopBound.boundSource0 d) (LoopBound.boundSource1 d) (LoopBound.comparison d)
            (LoopBound.seenBranch d) reason
            (match inference with Some i => LoopBound.matched i | None => false end)
            (match inference with Some i => LoopBound.lanes i | None => 0 end)).

(** [recordDVRDiscoveryGeneration] *)
Definition recordDVRDiscoveryGeneration (reason : Reason) (inference : option LoopBound.Inference)
    (trigger_pc stride : Z) s : State B :=
  match generation_record reason inference trigger_pc stride (S (length (discoveryHistory s))) (core s) with
  | Some r => s <| discoveryHistory ::= λ rs, rs ++ [r] |>
  | None => s
  end.

(** ** The start of a discovery *)

Definition reset_nested n : Nest :=
  n <| nestedController ::= Nested.reset |> <| nestedContext ::= reset_child |>.

(** What the two starts of a discovery share. *)
Definition begin_core v (cand : Stride.Candidate) c : Core :=
  c <| strideDetector ::= λ d, Stride.beginDiscovery d (Stride.c_pc cand) |>
    <| taintTracker ::= λ t, Taint.begin t (inst v) |> <| committedFinalLoadPC := 0 |>
    <| loopBoundDetector ::= LoopBound.begin (Stride.c_pc cand) |>
    <| instructionRecorder := Recorder.begin (inst v) |>
    <| dispatchTainted := ∅ |> <| dispatchDependentLoads := ∅ |> <| dispatchRecorded := ∅ |>
    <| currentTriggerPC := Stride.c_pc cand |> <| currentTriggerAddress := Stride.c_address cand |>
    <| initiatingLoadValue := 0 |> <| discoveryStartRegs := capture v |>.

Definition idle_ndm n : Nest :=
  if Ndm.active (nestedDiscoveryMode n) then n else n <| nestedDiscoveryMode ::= Ndm.reset |>.

Definition start_root (pc seq : Z) n : Nest :=
  if bool_decide (mode cfg = NestedMode)
  then n <| nestedController ::= λ k, (Nested.startRoot pc seq k).1 |> else n.

(** [beginDVRDiscoveryAtDispatch] *)
Definition beginDVRDiscoveryAtDispatch v (cand : Stride.Candidate) (restart : bool) s : State B :=
  let s := if restart then recordDVRDiscoveryGeneration InnermostSwitch None 0 0 s else s in
  let s := s <| core ::= λ c, c <| discovery ::= λ d,
                  (if restart then Discovery.restart else Discovery.arm) d cand (sequence v) |> |> in
  let s := if restart
           then s <| nest ::= λ n, (reset_nested n) <| nestedDiscoveryMode ::= Ndm.reset |> |> else s in
  s <| core ::= begin_core v cand |>
    <| nest ::= λ n, (idle_ndm (start_root (Stride.c_pc cand) (sequence v) n)) <| committedNested := None |> |>.

(** ** Dispatch *)

Definition pc_allowed (cand : Stride.Candidate) : bool :=
  ((pc_min cfg =? 0) || (pc_min cfg <=? Stride.c_pc cand))
  && ((pc_max cfg =? 0) || (Stride.c_pc cand <=? pc_max cfg)).

(** Vector runahead starts only while no request is queued or in flight. *)
Definition vector_runahead v (cand : Stride.Candidate) s : State B :=
  if (length (queue (mem (sys s))) =? 0)%nat && bool_decide (loadEntries (mem (sys s)) = ∅)
  then s <| sys ::= launchDVRVectorRunahead (prefetch cfg) (v_tid v) (Stride.c_address cand)
                      (Stride.c_pc cand) (Stride.c_stride cand) |>
  else s.

Definition set_pending v (cand : Stride.Candidate) n : Nest :=
  let p := mkPending (Stride.c_pc cand) (sequence v) (Stride.c_address cand) (Stride.c_stride cand) in
  n <| pendingNested ::= λ old, match old with
                                | Some q => if sequence v <? p_sequence q then Some p else Some q
                                | None => Some p
                                end |>.

(** What a candidate leads to. *)
Definition on_candidate v (window : bool) (cand : Stride.Candidate) s : State B :=
  let c := core s in
  if bool_decide (mode cfg = Vr) && rob_full v then vector_runahead v cand s
  else if bool_decide (mode cfg = Offload) then vector_runahead v cand s
  else if Stride.c_repeatedDuringDiscovery cand && window
          && negb (Stride.c_pc cand =? currentTriggerPC c)
  then beginDVRDiscoveryAtDispatch v cand true s
  else if bool_decide (mode cfg = Vr) then s
  else if Discovery.isDiscovering (discovery c) || Ndm.active (nestedDiscoveryMode (nest s))
  then s <| nest ::= set_pending v cand |>
  else beginDVRDiscoveryAtDispatch v cand false s.

Definition dispatch_load v (window stop_pending : bool) s : State B :=
  if stop_pending then s
  else
    let '(d, cand) := Stride.observeDispatch (strideDetector (core s)) (v_pc v) window
                        (if window then currentTriggerPC (core s) else 0) (sequence v) in
    let s := s <| core ::= λ c, c <| strideDetector := d |> |> in
    match cand with
    | Some cand => if pc_allowed cand then on_candidate v window cand s else s
    | None => s
    end.

(** The dispatch side of the taint tracker, with the sets commit reads. *)
Definition observe_speculative v c : Core :=
  let '(t, o) := Taint.observeSpeculative (taintTracker c) (inst v) (sequence v) in
  let c := c <| taintTracker := t |> <| dispatchRecorded ::= λ x, {[sequence v]} ∪ x |> in
  let c := if Taint.taintedInstruction o then c <| dispatchTainted ::= λ x, {[sequence v]} ∪ x |> else c in
  if Taint.dependentLoad o then c <| dispatchDependentLoads ::= λ x, {[sequence v]} ∪ x |> else c.

(** [observeDVRDispatch] *)
Definition observeDVRDispatch v s : State B :=
  if pre v then s
  else
    let s := s <| core ::= λ c, c <| discovery ::= λ d,
                    (Discovery.observeDispatch d (v_pc v) (sequence v)).1 |> |> in
    let d := discovery (core s) in
    let window := Discovery.isDiscovering d && negb (Discovery.stopPending d) in
    let s := if isLoad (staticInst (inst v)) then dispatch_load v window (Discovery.stopPending d) s else s in
    if window && (Discovery.triggerSequence (discovery (core s)) <? sequence v)
    then s <| core ::= observe_speculative v |> else s.

(** ** Execution of a load *)

(** [observeDVRLoad] *)
Definition observeDVRLoad v (address : Z) s : State B :=
  if pre v then s
  else
    let s := s <| sys ::= observe_demand (prefetch cfg) (v_pc v) address |>
               <| core ::= λ c, c <| strideDetector ::= λ d, (Stride.observe d (v_pc v) address).1 |> |> in
    let d := discovery (core s) in
    if Discovery.isDiscovering d && (sequence v =? Discovery.triggerSequence d)
    then s <| core ::= λ c, c <| initiatingLoadValue ::= λ x, default x (int_result v) |> |> else s.

(** ** Squash *)

(** The root discovery after its end. *)
Definition clear_core c : Core :=
  c <| taintTracker ::= Taint.reset |> <| committedFinalLoadPC := 0 |>
    <| loopBoundDetector ::= LoopBound.reset |> <| instructionRecorder := Recorder.reset |>.
Definition clear_vector c : Core :=
  c <| vectorRenameTable ::= Rename.reset |> <| vectorInstructionRegister := Vir.reset |>.

(** The DVR part of [squashInstIt], for the instruction with number [seq]. *)
Definition squashInstIt (seq : Z) s : State B :=
  let s := s <| core ::= λ c, c <| strideDetector ::= λ d, Stride.squashDiscovery d seq |>
                               <| taintTracker ::= λ t, Taint.squash t seq |> |> in
  let '(d, rolled_back) := Discovery.rollback (discovery (core s)) seq in
  if rolled_back then
    s <| core ::= λ c, (clear_vector (clear_core (c <| discovery := d |>
                          <| strideDetector ::= Stride.endDiscovery |>)))
                         <| dispatchTainted := ∅ |> <| dispatchDependentLoads := ∅ |>
                         <| dispatchRecorded := ∅ |> |>
      <| nest ::= λ n, (reset_nested n) <| nestedDiscoveryMode ::= Ndm.reset |>
                         <| pendingNested := None |> <| committedNested := None |> |>
  else s.

(** ** Commit: the body of a discovery *)

(** What commit does for an instruction between the trigger and the next one: it is recorded with the
    taint that dispatch has found, a dependent load becomes the final load and trains a relation,
    and the loop-bound detector sees it. *)
Definition body_commit v c (t : Relation.Tables) : option (Core * Relation.Tables) :=
  let seq := sequence v in
  let tainted := bool_decide (seq ∈ dispatchTainted c) in
  let recorded := bool_decide (seq ∈ dispatchRecorded c) in
  let dependent := bool_decide (seq ∈ dispatchDependentLoads c) in
  let c := c <| dispatchTainted ::= λ x, x ∖ {[seq]} |> <| dispatchRecorded ::= λ x, x ∖ {[seq]} |>
             <| dispatchDependentLoads ::= λ x, x ∖ {[seq]} |> in
  let c := if recorded
           then c <| instructionRecorder ::= λ r, (Recorder.record r (inst v) tainted).1 |> else c in
  let c := if dependent
           then c <| committedFinalLoadPC := v_pc v |>
                  <| loopBoundDetector ::= LoopBound.updateFinalLoad (v_pc v) |> else c in
  t ← match effAddr v with
      | Some a => if dependent
                  then Relation.trainDVRAddressRelation (currentTriggerPC c) (v_pc v) (initiatingLoadValue c) a t
                  else Some t
      | None => Some t
      end;
  Some (c <| loopBoundDetector ::= λ d, (LoopBound.observe (inst v) (Some (capture v)) d).1 |>, t).

(** ** Commit: nested discovery *)

Definition fallthrough v : Z :=
  let '(size, bytes) := asBytes (staticInst (inst v)) in
  u64 (v_pc v + if negb (size =? 0) && negb (Z.land bytes 3 =? 3) then 2 else 4).

(** The Nested Discovery Mode sees the conditional branches and the loads. *)
Definition observe_ndm v n : Nest :=
  let si := staticInst (inst v) in
  let m := nestedDiscoveryMode n in
  let m := if Ndm.active m && isCondCtrl si && isDirectCtrl si
           then (Ndm.observeInnerBranch (v_pc v) (default 0 (branchTarget (inst v))) (fallthrough v)
                   (branching (pcState (inst v))) m).1 else m in
  let m := match effAddr v with
           | Some a => if Ndm.active m && isLoad si then (Ndm.observeOuterLoad (v_pc v) a m).1 else m
           | None => m
           end in
  n <| nestedDiscoveryMode := m |>.

Definition open_child v (p : Pending) (id : Z) (child : Child) : Child :=
  (reset_child child)
    <| ch_active := true |> <| ch_id := id |> <| ch_tid := v_tid v |> <| ch_triggerSequence := sequence v |>
    <| ch_triggerPC := p_pc p |> <| ch_triggerAddress := p_address p |> <| ch_stride := p_stride p |>
    <| ch_taint ::= λ t, Taint.begin t (inst v) |> <| ch_loopBound ::= LoopBound.begin (p_pc p) |>
    <| ch_recorder := Recorder.begin (inst v) |> <| ch_initiatingValue := default 0 (int_result v) |>
    <| ch_startRegs := capture v |>.

(** The candidate of IEW commits: it becomes a child of the root, if there is one. *)
Definition commit_candidate v (trigger : Z) (p : Pending) n : Nest :=
  let n := n <| committedNested := Some p |> in
  let n := if Ndm.active (nestedDiscoveryMode n) && (Nested.activeDepth (nestedController n) =? 0)%nat
           then n <| nestedController ::= λ k, (Nested.startRoot trigger (p_sequence p) k).1 |> else n in
  if (Nested.activeDepth (nestedController n) =? 1)%nat then
    match Nested.currentId (nestedController n) with
    | Some parent =>
        let '(k, r) := Nested.startNested parent (p_pc p) (p_sequence p) (nestedController n) in
        let n := n <| nestedController := k |> in
        if bool_decide (Nested.event r = Nested.Started)
        then n <| nestedContext ::= open_child v p (Nested.id r) |> else n
    | None => n
    end
  else n.

Definition pending_candidate v (trigger : Z) n : Nest :=
  match pendingNested n with
  | Some p =>
      if (p_sequence p =? sequence v) && (p_pc p =? v_pc v)
      then (commit_candidate v trigger p n) <| pendingNested := None |>
      else if p_sequence p <? sequence v then n <| pendingNested := None |> else n
  | None => n
  end.

(** The child observes the instructions behind its trigger. *)
Definition child_commit v n (t : Relation.Tables) : option (Nest * Relation.Tables) :=
  let child := nestedContext n in
  if ch_active child && (ch_triggerSequence child <? sequence v) then
    let '(taint, o) := Taint.observe (ch_taint child) (inst v) in
    let child := child <| ch_taint := taint |>
                   <| ch_recorder ::= λ r, (Recorder.record r (inst v) (Taint.taintedInstruction o)).1 |> in
    let child := if Taint.dependentLoad o
                 then child <| ch_loopBound ::= LoopBound.updateFinalLoad (Taint.finalLoadPC taint) |>
                 else child in
    t ← match effAddr v with
        | Some a => if Taint.dependentLoad o
                    then Relation.trainDVRAddressRelation (ch_triggerPC child) (v_pc v)
                           (ch_initiatingValue child) a t
                    else Some t
        | None => Some t
        end;
    Some (n <| nestedContext := child <| ch_loopBound ::= λ d, (LoopBound.observe (inst v) None d).1 |> |>, t)
  else Some (n, t).

(** ** Launches *)

(** The launch of a template under a fresh name. *)
Definition new_launch v (recorder : Recorder.Recorder) (thread_id : Z) s : Launch (B := B) :=
  mkLaunch (next_name s) (next_name s) (next_name s) (v_bank v) (Recorder.resourceCounts recorder)
    thread_id (v_tracker v).

Definition add_template (t : Replay.Template) s : State B :=
  s <| heap ::= <[next_name s := t]> |> <| next_name ::= S |>.

(** [launchDVRNestedPrefetches] for the child context. *)
Definition launch_nested v (regs : list Z) s : State B :=
  let child := nestedContext (nest s) in
  let t := Replay.make_template false (ch_triggerPC child) (LoopBound.loopTargetPC (ch_loopBound child))
             (LoopBound.loopBranchPC (ch_loopBound child)) (Taint.finalLoadPC (ch_taint child)) regs
             (ch_recorder child) in
  let l := new_launch v (ch_recorder child) (ch_tid child) s in
  let s := add_template t s in
  let '(y, launched) := Flatten.launchDVRNestedPrefetches (prefetch cfg) (template_at (heap s)) l
      (ch_triggerPC child) (Flatten.invocations (nestedDiscoveryMode (nest s)) (invocationBatch (nest s)))
      (sys s) in
  let s := s <| sys := y |> in
  if launched then s <| nest ::= λ n, n <| invocationBatch := Flatten.Batch_init |> |> else s.

(** [launchDVRStridePrefetches] for the root discovery. *)
Definition launch_root v (address pc stride lanes : Z) (regs : list Z) s : State B :=
  let c := core s in
  let t := Replay.make_template true pc (LoopBound.loopTargetPC (loopBoundDetector c))
             (LoopBound.loopBranchPC (loopBoundDetector c)) (committedFinalLoadPC c) regs
             (instructionRecorder c) in
  let l := new_launch v (instructionRecorder c) (v_tid v) s in
  let s := add_template t s in
  s <| sys ::= launchDVRStridePrefetches (prefetch cfg) (template_at (heap s)) l address pc stride
                 (Z.to_nat lanes) |>.

(** ** The end of a child *)

(** A program that can be vectorised: more than the trigger, a final load, no overflow. *)
Definition usable (flr : Z) (r : Recorder.Recorder) : bool :=
  (1 <? Recorder.count r)%nat && negb (flr =? 0) && negb (Recorder.overflowed r).

(** An outer loop has been found. *)
Definition outer_known (m : Ndm.Mode) : bool :=
  bool_decide (Ndm.currentState m = Ndm.OuterFound) || bool_decide (Ndm.currentState m = Ndm.Vectorizing).

Definition vir_accepts (r : Vir.Result) : bool :=
  negb (Vir.unsupportedControlFlow r) && negb (Vir.timedOut r) && negb (Vir.stackOverflow r).

(** The child's recorded path, with its joins and cached alternatives. *)
Definition capture_child v (regs : list Z) s : State B :=
  let child := nestedContext (nest s) in
  let r := Recorder.setReconvergencePC (ch_recorder child) (Taint.finalLoadPC (ch_taint child))
             (LoopBound.loopBranchPC (ch_loopBound child)) in
  let cache := AltPath.recordDVRAlternatePaths r (contextId v) (alternatePathCache s) in
  let r := (AltPath.augmentDVRAlternatePaths (order v cache) cache r (contextId v) regs).1 in
  s <| alternatePathCache := cache |> <| nest ::= λ n, n <| nestedContext ::= λ x, x <| ch_recorder := r |> |> |>.

(** The invocation joins the plan of the Nested Discovery Mode. *)
Definition plan_child (i : LoopBound.Inference) n : Nest :=
  let child := nestedContext n in
  let flr := Taint.finalLoadPC (ch_taint child) in
  if outer_known (nestedDiscoveryMode n) && LoopBound.matched i && negb (LoopBound.lanes i =? 0) && negb (flr =? 0)
  then n <| nestedDiscoveryMode ::= λ m, (Ndm.recordOuterInvocation (ch_triggerAddress child)
              (LoopBound.lanes i) (ch_triggerPC child) flr (LoopBound.increment i) m).1 |>
  else n.

(** Whether the child's invocation is kept: its program passes the VIR, or the plan is ready. *)
Definition keeps_child (i : LoopBound.Inference) n : bool :=
  let child := nestedContext n in
  let r := ch_recorder child in
  let allowed := usable (Taint.finalLoadPC (ch_taint child)) r && LoopBound.matched i in
  let valid := bool_decide (mode cfg = NestedMode) && Ndm.readyToVectorize (nestedDiscoveryMode n)
               && allowed && negb (LoopBound.lanes i =? 0) in
  valid || (allowed && vir_accepts (VirExec.execute r (Z.to_nat (LoopBound.lanes i)) max_uops (ch_startRegs child)).2).

(** The batch takes the invocation, and is launched when the plan is ready or two have come. *)
Definition batch_child v (i : LoopBound.Inference) (regs : list Z) s : State B :=
  let child := nestedContext (nest s) in
  let s := s <| nest ::= λ n, n <| invocationBatch ::=
                  Flatten.add_invocation (ch_triggerPC child) (ch_triggerAddress child) (LoopBound.lanes i)
                    (LoopBound.increment i) |> |> in
  let m := nestedDiscoveryMode (nest s) in
  let plan_ready := Ndm.readyToVectorize m && (2 <=? Ndm.invocationCount m)%nat in
  if (plan_ready || (2 <=? Flatten.b_count (invocationBatch (nest s)))%nat) && (negb (Ndm.active m) || plan_ready)
  then
    let s := launch_nested v regs s in
    if plan_ready then s <| nest ::= λ n, n <| nestedDiscoveryMode ::= Ndm.finishVectorization |> |> else s
  else s.

(** [completeDVRNestedContext] *)
Definition completeDVRNestedContext v (regs : list Z) s : State B :=
  if negb (ch_active (nestedContext (nest s))) then s
  else
    let s := capture_child v regs s in
    let child := nestedContext (nest s) in
    let i := LoopBound.infer (ch_loopBound child) (ch_startRegs child) regs max_lanes in
    let s := s <| nest ::= plan_child i |> in
    let s := if keeps_child i (nest s) then batch_child v i regs s else s in
    s <| nest ::= λ n, n <| nestedContext ::= reset_child |> |>.

(** ** The end of the root discovery *)

(** The reconvergence points, and with a final load the alternate paths; the flag is a cached path
    that has been appended. *)
Definition capture_root v (flr : Z) (regs : list Z) s : State B * bool :=
  let r := Recorder.setReconvergencePC (instructionRecorder (core s)) flr
             (LoopBound.loopBranchPC (loopBoundDetector (core s))) in
  if flr =? 0 then (s <| core ::= λ c, c <| instructionRecorder := r |> |>, false)
  else
    let cache := AltPath.recordDVRAlternatePaths r (contextId v) (alternatePathCache s) in
    let '(r, hit) := AltPath.augmentDVRAlternatePaths (order v cache) cache r (contextId v) regs in
    (s <| alternatePathCache := cache |> <| core ::= λ c, c <| instructionRecorder := r |> |>, hit).

(** The completed discovery is an invocation of an outer loop. *)
Definition plan_root (i : LoopBound.Inference) (pc flr : Z) c n : Nest :=
  if outer_known (nestedDiscoveryMode n) && LoopBound.matched i && negb (LoopBound.lanes i =? 0)
     && negb (currentTriggerAddress c =? 0) && negb (flr =? 0)
  then n <| nestedDiscoveryMode ::= λ m, (Ndm.recordOuterInvocation (currentTriggerAddress c)
              (LoopBound.lanes i) pc flr (LoopBound.increment i) m).1 |>
  else n.

(** The registers of the loop: induction register, bound register and their values. *)
Definition loop_registers (start finish : list Z) (d : LoopBound.Detector) : Z * Z * Z * Z :=
  let b0 := LoopBound.boundSource0 d in
  let b1 := LoopBound.boundSource1 d in
  if (0 <=? b0) && (0 <=? b1) then
    if start !!! Z.to_nat b0 =? finish !!! Z.to_nat b0
    then (b1, b0, finish !!! Z.to_nat b1, finish !!! Z.to_nat b0)
    else (b0, b1, finish !!! Z.to_nat b0, finish !!! Z.to_nat b1)
  else (-1, -1, 0, 0).

(** A short loop starts the Nested Discovery Mode, a long one ends it. *)
Definition start_ndm (i : LoopBound.Inference) (pc : Z) (regs : list Z) c n : Nest :=
  let m := nestedDiscoveryMode n in
  let eligible := bool_decide (mode cfg = NestedMode) && Ndm.eligible (LoopBound.lanes i) m in
  if eligible then
    let '(m, r) := Ndm.start pc (LoopBound.increment i) (LoopBound.lanes i) m in
    n <| nestedDiscoveryMode :=
      if bool_decide (Ndm.r_event r = Ndm.Started)
      then let '(induction, bound, value, limit) :=
             loop_registers (discoveryStartRegs c) regs (loopBoundDetector c) in
           Ndm.captureLoopRegisters induction bound value limit (LoopBound.remaining i) m
      else m |>
  else if bool_decide (mode cfg = NestedMode) && Ndm.active m
  then n <| nestedDiscoveryMode ::= Ndm.reset |> else n.

(** The program of the initial pass ends with its last load, unless a branch follows the final one. *)
Definition vir_program (flr lcr : Z) (r : Recorder.Recorder) : Recorder.Recorder :=
  let size := Replay.scalar_count r in
  if negb (Recorder.hasConditionalBetween r flr lcr) && (1 <? size)%nat then Recorder.truncate r size else r.

(** The initial pass: whether the helper may be launched, and whether only its source lanes may. *)
Definition vir_pass (i : LoopBound.Inference) (flr : Z) c : Core * bool * bool :=
  let r := instructionRecorder c in
  if negb (bool_decide (mode cfg = DiscoveryOnly)) && LoopBound.matched i && negb (LoopBound.lanes i =? 0)
     && usable flr r
  then
    let '(vir, result) := VirExec.execute (vir_program flr (LoopBound.loopBranchPC (loopBoundDetector c)) r)
                            (Z.to_nat (LoopBound.lanes i)) max_uops (discoveryStartRegs c) in
    (c <| vectorRenameTable ::= λ t, (Rename.build t r (LoopBound.lanes i)).1 |>
       <| vectorInstructionRegister := vir |>,
     vir_accepts result,
     Vir.unsupportedControlFlow result && negb (Vir.timedOut result) && negb (Vir.stackOverflow result))
  else (c, false, false).

(** A plan that is ready is launched as a child context of the root's program. *)
Definition plan_valid (i : LoopBound.Inference) (flr : Z) c n : bool :=
  bool_decide (mode cfg = NestedMode) && Ndm.readyToVectorize (nestedDiscoveryMode n)
  && (2 <=? Ndm.invocationCount (nestedDiscoveryMode n))%nat && LoopBound.matched i
  && negb (LoopBound.lanes i =? 0) && usable flr (instructionRecorder c).

Definition launch_plan v (i : LoopBound.Inference) (pc flr : Z) (regs : list Z) s : State B :=
  let c := core s in
  let s := s <| nest ::= λ n, n <| nestedContext ::= λ x,
             (reset_child x) <| ch_active := true |> <| ch_tid := v_tid v |> <| ch_triggerPC := pc |>
               <| ch_triggerAddress := currentTriggerAddress c |> <| ch_stride := LoopBound.increment i |>
               <| ch_taint := Taint.setFLR (taintTracker c) flr |> <| ch_recorder := instructionRecorder c |>
               <| ch_startRegs := discoveryStartRegs c |> |> |> in
  let s := launch_nested v regs s in
  s <| nest ::= λ n, n <| nestedDiscoveryMode ::= Ndm.finishVectorization |> <| nestedContext ::= reset_child |> |>.

(** The ordinary launch: after an accepted initial pass, or one of the bounded fallbacks. *)
Definition launch_lanes (i : LoopBound.Inference) (flr : Z) (allowed control_fallback hit : bool) c : option Z :=
  let r := instructionRecorder c in
  let enabled := negb (bool_decide (mode cfg = DiscoveryOnly)) && usable flr r in
  let fallback := bounded_fallback cfg && enabled && negb (LoopBound.matched i) && LoopBound.fallback i
                  && negb (LoopBound.lanes i =? 0) in
  let alternate := enabled && hit in
  let source_fallback := control_fallback && negb (Recorder.overflowed r) in
  if allowed || fallback || source_fallback || alternate
  then Some (if alternate && negb allowed && (LoopBound.lanes i =? 0) then 1 else LoopBound.lanes i)
  else None.

Definition launch_ordinary v (i : LoopBound.Inference) (pc stride flr : Z) (regs : list Z)
    (allowed control_fallback hit : bool) s : State B :=
  if bool_decide (mode cfg = NestedMode) && Ndm.active (nestedDiscoveryMode (nest s)) then s
  else match launch_lanes i flr allowed control_fallback hit (core s), effAddr v with
       | Some lanes, Some a => launch_root v a pc stride lanes regs s
       | _, _ => s
       end.

(** The nested controller at the end of its root. *)
Definition close_nested (pc : Z) n : Nest :=
  if (1 <? Nested.activeDepth (nestedController n))%nat then reset_nested n
  else match Nested.rootId (nestedController n) with
       | Some root => n <| nestedController ::= λ k, (Nested.complete root pc k).1 |>
       | None => n
       end.

Definition complete_discovery v (r : Discovery.Result) s : State B :=
  let s := s <| core ::= λ c, c <| strideDetector ::= Stride.endDiscovery |> |> in
  let flr := committedFinalLoadPC (core s) in
  let regs := capture v in
  let i := LoopBound.infer (loopBoundDetector (core s)) (discoveryStartRegs (core s)) regs max_lanes in
  let pc := Discovery.r_triggerPC r in
  let s := recordDVRDiscoveryGeneration Complete (Some i) pc (Discovery.r_stride r) s in
  let '(s, hit) := capture_root v flr regs s in
  let s := s <| nest ::= λ n, start_ndm i pc regs (core s) (plan_root i pc flr (core s) n) |> in
  let '(c, allowed, control_fallback) := vir_pass i flr (core s) in
  let s := s <| core := c |> in
  let s := if plan_valid i flr (core s) (nest s) then launch_plan v i pc flr regs s
           else launch_ordinary v i pc (Discovery.r_stride r) flr regs allowed control_fallback hit s in
  s <| core ::= λ c, clear_vector (clear_core c) |>
    <| nest ::= λ n, (close_nested (v_pc v) n) <| committedNested := None |> |>.

(** A discovery that times out or whose trigger never commits. *)
Definition abort_discovery (reason : Reason) (r : Discovery.Result) s : State B :=
  let s := recordDVRDiscoveryGeneration reason None (Discovery.r_triggerPC r) (Discovery.r_stride r) s in
  s <| core ::= λ c, clear_core (c <| strideDetector ::= Stride.endDiscovery |>) |>
    <| nest ::= λ n, let n := (idle_ndm n) <| committedNested := None |> in
                     if Nested.active (nestedController n) then reset_nested n else n |>.

(** [Event::Started]: the trigger of an armed discovery commits. *)
Definition start_discovery v (r : Discovery.Result) s : State B :=
  let pc := Discovery.r_triggerPC r in
  s <| nest ::= λ n, let n := if Nested.active (nestedController n) then reset_nested n else n in
                     (idle_ndm (start_root pc (sequence v) n)) <| committedNested := None |> |>
    <| core ::= λ c, c <| taintTracker ::= λ t, Taint.begin t (inst v) |> <| committedFinalLoadPC := 0 |>
         <| loopBoundDetector ::= LoopBound.begin pc |> <| instructionRecorder := Recorder.begin (inst v) |>
         <| currentTriggerPC := pc |> <| currentTriggerAddress := default 0 (effAddr v) |>
         <| initiatingLoadValue := default 0 (int_result v) |> <| discoveryStartRegs := capture v |> |>.

Definition conclude_discovery v (r : Discovery.Result) s : State B :=
  match Discovery.r_event r with
  | Discovery.EvStarted => start_discovery v r s
  | Discovery.EvCompleted => complete_discovery v r s
  | Discovery.EvTimedOut => abort_discovery TimedOut r s
  | Discovery.EvAbandoned => abort_discovery Abandon r s
  | Discovery.EvNone => s
  end.

(** ** Commit *)

(** The value of the trigger is known when it commits. *)
Definition trigger_value v (was_discovering : bool) c : Core :=
  if was_discovering && (sequence v =? Discovery.triggerSequence (discovery c))
  then c <| initiatingLoadValue ::= λ x, default x (int_result v) |> else c.

Definition body_step v s : option (State B) :=
  if Discovery.inDiscoveryBody (discovery (core s)) (sequence v)
  then '(c, t) ← body_commit v (core s) (tabs (sys s));
       Some (s <| core := c |> <| sys ::= λ y, y <| tabs := t |> |>)
  else Some s.

(** The controllers count the commit. *)
Definition count_step v s : State B * Discovery.Result * Nested.Result :=
  let '(d, r) := Discovery.observeCommit (discovery (core s)) (v_pc v) (sequence v) in
  let '(k, nr) := Nested.observeCommit (v_pc v) (sequence v) (nestedController (nest s)) in
  (s <| core ::= λ c, c <| discovery := d |> |>
     <| nest ::= λ n, observe_ndm v (n <| nestedController := k |>
                         <| nestedDiscoveryMode ::= λ m, (Ndm.observeCommit m).1 |>) |>, r, nr).

(** A result of the nested controller about the child context. *)
Definition about_child (e : Nested.Event) (nr : Nested.Result) n : bool :=
  bool_decide (Nested.event nr = e) && ch_active (nestedContext n)
  && (Nested.id nr =? ch_id (nestedContext n)).

Definition child_step v s : option (State B) :=
  '(n, t) ← child_commit v (nest s) (tabs (sys s));
  Some (s <| nest := n |> <| sys ::= λ y, y <| tabs := t |> |>).

(** The oracle's part of [instDone]. *)
Definition oracle_step v s : State B :=
  match futures v, effAddr v with
  | Some fs, Some a =>
      if isLoad (staticInst (inst v))
      then s <| sys ::= oracleOnCommittedLoad (prefetch cfg) fs a (v_tid v) |> else s
  | _, _ => s
  end.

(** [instDone]; [None] is a division that overflows in the training of a relation. *)
Definition instDone v s : option (State B) :=
  if negb (whole v) then Some s
  else
    let s := oracle_step v s in
    if pre v then Some s
    else
      let was_discovering := Discovery.isDiscovering (discovery (core s)) in
      s ← body_step v s;
      let '(s, r, nr) := count_step v s in
      let s := s <| core ::= trigger_value v was_discovering |> in
      let s := if about_child Nested.Completed nr (nest s)
               then completeDVRNestedContext v (capture v) s else s in
      let s := s <| nest ::= pending_candidate v (currentTriggerPC (core s)) |> in
      s ← child_step v s;
      let s := if about_child Nested.TimedOut nr (nest s)
               then s <| nest ::= λ n, n <| nestedContext ::= reset_child |> |> else s in
      Some (conclude_discovery v r s).

(** ** Events *)

Inductive Event :=
| EDispatch (v : View B)
| ELoad (v : View B) (address : Z)
| ESquash (seq : Z)
| ECommit (v : View B).

Definition handle (ev : Event) s : option (State B) :=
  match ev with
  | EDispatch v => Some (observeDVRDispatch v s)
  | ELoad v a => Some (observeDVRLoad v a s)
  | ESquash seq => Some (squashInstIt seq s)
  | ECommit v => instDone v s
  end.

Definition run (evs : list Event) s : option (State B) :=
  foldl (λ m ev, s ← m; handle ev s) (Some s) evs.
End driver.
End Driver.
