(* ===== verification/Engine.v ===== *)
(** * What the discovery engine records

    Theorems about the composition of Driver.v: the invariant of the whole engine over any order of
    events, and the program a discovery records when the events come in the order of an out-of-order
    pipeline. *)

From stdpp Require Import gmap sorting.
From S2P Require Import Prelude Inst Stride Discovery Taint Uop Recorder Rename Vir VirExec LoopBound.
From S2P Require Import Nested Ndm Predicate Relation AltPath Replay Lanes PrefetchQueue Prefetch Flatten Driver.

Module Engine.
Import Lanes PrefetchQueue Prefetch Driver.
#[local] Existing Instance Taint.eta_Tracker.

(** Comparisons of sequence numbers. *)
Ltac bool_arith :=
  repeat match goal with
         | |- context [?a <? ?b] => destruct (Z.ltb_spec a b)
         | |- context [?a =? ?b] => destruct (Z.eqb_spec a b)
         end; simpl; try done; exfalso; lia.

Section engine.
Context {B : Type} `{LaneBank B} (cfg : Config).
Implicit Types (v : View B) (s : State B) (c : Core) (n : Nest).

(** ** What the steps leave alone *)

Lemma launch_nested_frame v regs s :
  core (launch_nested cfg v regs s) = core s
  ∧ nestedController (nest (launch_nested cfg v regs s)) = nestedController (nest s)
  ∧ nestedContext (nest (launch_nested cfg v regs s)) = nestedContext (nest s)
  ∧ nestedDiscoveryMode (nest (launch_nested cfg v regs s)) = nestedDiscoveryMode (nest s).
Proof. unfold launch_nested. cbv zeta. by destruct (Flatten.launchDVRNestedPrefetches _ _ _ _ _ _) as [y []]. Qed.

Lemma batch_child_frame v i regs s :
  core (batch_child cfg v i regs s) = core s
  ∧ nestedController (nest (batch_child cfg v i regs s)) = nestedController (nest s).
Proof.
  unfold batch_child. cbv zeta. destruct (_ && _); [|done].
  match goal with |- context [launch_nested cfg v regs ?s1] =>
    destruct (launch_nested_frame v regs s1) as (E1 & E2 & _) end.
  case_match; (split; [exact E1|exact E2]).
Qed.

Lemma complete_child_frame v regs s :
  core (completeDVRNestedContext cfg v regs s) = core s
  ∧ nestedController (nest (completeDVRNestedContext cfg v regs s)) = nestedController (nest s).
Proof.
  unfold completeDVRNestedContext. destruct (negb _); [done|]. cbv zeta.
  set (i := LoopBound.infer _ _ _ _). set (s1 := (capture_child v regs s) <| nest ::= plan_child i |>).
  assert (E : core s1 = core s ∧ nestedController (nest s1) = nestedController (nest s)).
  { unfold s1, capture_child, plan_child. simpl. by destruct (_ && _). }
  destruct E as [E1 E2]. simpl. destruct (keeps_child _ _ _); [|done].
  destruct (batch_child_frame v i regs s1) as [E3 E4]. by rewrite E3, E4, E1, E2.
Qed.

Lemma oracle_frame v s :
  core (oracle_step cfg v s) = core s ∧ nest (oracle_step cfg v s) = nest s.
Proof. unfold oracle_step. destruct (futures v), (effAddr v); try done. by destruct (isLoad _). Qed.

Lemma record_frame reason i pc stride s :
  core (recordDVRDiscoveryGeneration reason i pc stride s) = core s
  ∧ nest (recordDVRDiscoveryGeneration reason i pc stride s) = nest s
  ∧ sys (recordDVRDiscoveryGeneration reason i pc stride s) = sys s.
Proof. unfold recordDVRDiscoveryGeneration. by destruct (generation_record _ _ _ _ _ _). Qed.

Lemma child_step_frame v s s' : child_step v s = Some s' → core s' = core s.
Proof. unfold child_step. destruct (child_commit _ _ _) as [[n t]|]; [|done]. by intros [= <-]. Qed.

(** The end of a discovery, up to the state of the vector units. *)
Lemma complete_core v r s :
  ∃ table, core (complete_discovery cfg v r s)
    = clear_core ((core s) <| strideDetector ::= Stride.endDiscovery |>)
        <| vectorRenameTable := table |> <| vectorInstructionRegister := Vir.reset |>.
Proof.
  unfold complete_discovery. cbv zeta. set (s1 := recordDVRDiscoveryGeneration _ _ _ _ _).
  assert (E1 : core s1 = (core s) <| strideDetector ::= Stride.endDiscovery |>)
    by (unfold s1; by rewrite (proj1 (record_frame _ _ _ _ _))).
  set (i := LoopBound.infer _ _ _ _). destruct (capture_root _ _ _ _) as [s2 hit] eqn:E2.
  assert (Hs2 : ∃ rec, core s2 = (core s1) <| instructionRecorder := rec |>).
  { unfold capture_root in E2. destruct (_ =? 0); [injection E2 as <- <-; by eexists|].
    destruct (AltPath.augmentDVRAlternatePaths _ _ _ _ _) as [rec h]. injection E2 as <- <-. by eexists. }
  destruct Hs2 as [rec Hs2]. set (s3 := s2 <| nest ::= λ n, start_ndm cfg i _ _ _ (plan_root i _ _ _ n) |>).
  destruct (vir_pass cfg i _ (core s3)) as [[c allowed] control] eqn:E3.
  assert (Hc : ∃ table vir, c = (core s2) <| vectorRenameTable := table |> <| vectorInstructionRegister := vir |>).
  { change (core s3) with (core s2) in E3. unfold vir_pass in E3. destruct (_ && _).
    - destruct (VirExec.execute _ _ _ _) as [vir res]. injection E3 as <- _ _. by do 2 eexists.
    - injection E3 as <- _ _. exists (vectorRenameTable (core s2)), (vectorInstructionRegister (core s2)).
      by destruct (core s2). }
  destruct Hc as (table & vir & Hc). set (s4 := s3 <| core := c |>).
  set (s5 := if plan_valid _ _ _ _ _ then _ else _).
  assert (E5 : core s5 = c).
  { unfold s5. destruct (plan_valid _ _ _ _ _).
    - unfold launch_plan. simpl. by rewrite (proj1 (launch_nested_frame _ _ _)).
    - unfold launch_ordinary. destruct (_ && _); [done|]. by destruct (launch_lanes _ _ _ _ _ _ _), (effAddr v). }
  exists (Rename.reset table). simpl. by rewrite E5, Hc, Hs2, E1.
Qed.

Lemma abort_core reason v r s :
  core (abort_discovery (B := B) reason r s) = clear_core ((core s) <| strideDetector ::= Stride.endDiscovery |>).
Proof. unfold abort_discovery. simpl. by rewrite (proj1 (record_frame _ _ _ _ _)). Qed.

(** ** Commit, seen by the root discovery *)

Lemma count_frame v s s' r nr :
  count_step v s = (s', r, nr) →
  core s' = (core s) <| discovery := (Discovery.observeCommit (discovery (core s)) (v_pc v) (sequence v)).1 |>
  ∧ r = (Discovery.observeCommit (discovery (core s)) (v_pc v) (sequence v)).2.
Proof.
  unfold count_step. destruct (Discovery.observeCommit _ _ _) as [d r0].
  destruct (Nested.observeCommit _ _ _) as [k nr0]. by intros [= <- <- _].
Qed.

(** The commit of an instruction: its body part, the count, and the conclusion; what lies between
    does not touch the root discovery. *)
Lemma commit_steps v s s' :
  whole v = true → pre v = false → instDone cfg v s = Some s' →
  ∃ c t s1,
    (if Discovery.inDiscoveryBody (discovery (core s)) (sequence v)
     then body_commit v (core s) (tabs (sys (oracle_step cfg v s))) = Some (c, t) else c = core s)
    ∧ let o := Discovery.observeCommit (discovery c) (v_pc v) (sequence v) in
      core s1 = trigger_value v (Discovery.isDiscovering (discovery (core s))) (c <| discovery := o.1 |>)
      ∧ s' = conclude_discovery cfg v o.2 s1.
Proof.
  intros Hw Hp. unfold instDone. rewrite Hw, Hp. cbn [negb]. destruct (oracle_frame v s) as [Eo _].
  destruct (body_step v (oracle_step cfg v s)) as [s2|] eqn:Eb; [|done]. cbn [mbind option_bind].
  destruct (count_step v s2) as [[s3 r] nr] eqn:Ec. apply count_frame in Ec as [E3 ->].
  set (s4 := if about_child Nested.Completed _ _ then _ else _).
  assert (E4 : core s4 = trigger_value v (Discovery.isDiscovering (discovery (core (oracle_step cfg v s)))) (core s3)).
  { unfold s4. destruct (about_child _ _ _); [|done]. by rewrite (proj1 (complete_child_frame _ _ _)). }
  destruct (child_step v _) as [s5|] eqn:E5; [|done]. cbn [mbind option_bind]. apply child_step_frame in E5.
  intros [= <-]. exists (core s2), (tabs (sys s2)).
  exists (if about_child Nested.TimedOut nr (nest s5)
          then s5 <| nest ::= λ n, n <| nestedContext ::= reset_child |> |> else s5).
  split.
  - unfold body_step in Eb. rewrite Eo in Eb. destruct (Discovery.inDiscoveryBody _ _); [|by injection Eb as <-].
    destruct (body_commit _ _ _) as [[c t]|]; [|done]. by injection Eb as <-.
  - split; [|done]. change (core s5 = core s4) in E5. rewrite Eo, E3 in E4.
    destruct (about_child Nested.TimedOut _ _); (etrans; [exact E5|exact E4]).
Qed.

(** A discovery is open, with the trigger of number [t]. *)
Definition open_at (t : Z) c : Prop :=
  Discovery.state (discovery c) = Discovery.Discovering ∧ Discovery.triggerSequence (discovery c) = t.

(** A commit leaves an open discovery open, or idle with all its fields cleared. *)
Lemma observe_open (d : Discovery.Controller) p q :
  Discovery.state d = Discovery.Discovering →
  let o := Discovery.observeCommit d p q in
  (Discovery.r_event o.2 = Discovery.EvNone ∧ Discovery.state o.1 = Discovery.Discovering
   ∧ Discovery.triggerSequence o.1 = Discovery.triggerSequence d
   ∧ Discovery.stopSequence o.1 = Discovery.stopSequence d ∧ Discovery.triggerPC o.1 = Discovery.triggerPC d)
  ∨ (Discovery.state o.1 = Discovery.Idle
     ∧ (Discovery.r_event o.2 = Discovery.EvCompleted ∨ Discovery.r_event o.2 = Discovery.EvTimedOut)).
Proof.
  intros Hst. unfold Discovery.observeCommit. rewrite Hst. simpl.
  destruct (q <=? _); [by left|]. destruct (_ && _); [by right; split; [|left]|].
  destruct (_ <=? _); [by right; split; [|right]|by left].
Qed.

Lemma conclude_discovery_state v r s :
  Discovery.r_event r = Discovery.EvCompleted ∨ Discovery.r_event r = Discovery.EvTimedOut →
  discovery (core (conclude_discovery cfg v r s)) = discovery (core s).
Proof.
  intros [E|E]; unfold conclude_discovery; rewrite E.
  - by destruct (complete_core v r s) as [table ->].
  - by rewrite (abort_core _ v).
Qed.

(** What an open discovery tracks. *)
Definition tracks c :=
  (taintTracker c, instructionRecorder c, committedFinalLoadPC c,
   (dispatchTainted c, dispatchDependentLoads c, dispatchRecorded c)).

(** While the discovery stays open, a commit is its body part alone. *)
Lemma commit_open v s s' t :
  whole v = true → pre v = false → instDone cfg v s = Some s' → open_at t (core s) → open_at t (core s') →
  ∃ c y, (if Discovery.inDiscoveryBody (discovery (core s)) (sequence v)
          then body_commit v (core s) (tabs (sys (oracle_step cfg v s))) = Some (c, y) else c = core s)
  ∧ tracks (core s') = tracks c
  ∧ Discovery.stopSequence (discovery (core s')) = Discovery.stopSequence (discovery (core s)).
Proof.
  intros Hw Hp Hi [Ho1 Ho2] [Ho3 _]. destruct (commit_steps v s s' Hw Hp Hi) as (c & y & s1 & Hb & E1 & ->).
  assert (Ed : discovery c = discovery (core s)).
  { destruct (Discovery.inDiscoveryBody _ _); [|by rewrite Hb].
    unfold body_commit in Hb. cbv zeta in Hb.
    set (c1 := if bool_decide (sequence v ∈ dispatchDependentLoads (core s)) then _ else _) in Hb.
    assert (E : discovery c1 = discovery (core s)) by (unfold c1; by repeat case_bool_decide).
    destruct (match effAddr v with Some _ => _ | None => _ end); [|done]. injection Hb as <- _. exact E. }
  exists c, y. split; [exact Hb|]. rewrite Ed in *.
  assert (Et : ∀ b c0, tracks (trigger_value v b c0) = tracks c0 ∧ discovery (trigger_value v b c0) = discovery c0)
    by (intros b c0; unfold trigger_value; by destruct (_ && _)).
  destruct (observe_open (discovery (core s)) (v_pc v) (sequence v) Ho1) as [(E & _ & _ & Es & _)|[Hidle Hev]].
  - unfold conclude_discovery. rewrite E, E1. destruct (Et (Discovery.isDiscovering (discovery (core s)))
      (c <| discovery := (Discovery.observeCommit (discovery (core s)) (v_pc v) (sequence v)).1 |>)) as [-> ->].
    split; [done|exact Es].
  - exfalso. rewrite conclude_discovery_state, E1, (proj2 (Et _ _)) in Ho3 by done. simpl in Ho3. congruence.
Qed.

(** ** The order of an out-of-order pipeline

    The instructions in flight, in program order, and the youngest number so far: dispatch gives a new
    number, commit takes the oldest, a squash takes the youngest or one that has no number yet.  Any
    number of instructions of a wrong path may come and go. *)

Inductive order_step : list DynInst * Z → Event (B := B) → list DynInst * Z → Prop :=
  | order_dispatch fl last v :
      last < sequence v → order_step (fl, last) (EDispatch v) (fl ++ [inst v], sequence v)
  | order_unseen fl last q : last < q → order_step (fl, last) (ESquash q) (fl, last)
  | order_load fl last v a : order_step (fl, last) (ELoad v a) (fl, last)
  | order_squash fl i last : order_step (fl ++ [i], last) (ESquash (seqNum i)) (fl, last)
  | order_commit fl last v : order_step (inst v :: fl, last) (ECommit v) (fl, last).

(** The numbers whose dispatch the engine has seen: those dispatched outside of a runahead period. *)
Definition seen_by (ev : Event (B := B)) (seen : gset Z) : gset Z :=
  match ev with
  | EDispatch v => if pre v then seen else {[sequence v]} ∪ seen
  | _ => seen
  end.

(** The committed body of the discovery: the instructions that the engine has seen at dispatch, with
    whether it sees their commit too ([instDone] passes over all micro-operations of an instruction
    but the last, and over a commit in a runahead period). *)
Definition body_of (ev : Event (B := B)) s (seen : gset Z) (cs : list (DynInst * bool)) : list (DynInst * bool) :=
  match ev with
  | ECommit v => if bool_decide (sequence v ∈ seen) && Discovery.inDiscoveryBody (discovery (core s)) (sequence v)
                 then cs ++ [(inst v, whole v && negb (pre v))] else cs
  | _ => cs
  end.

(** A discovery from its opening on, as long as it stays open: its trigger, the state, the
    pipeline, the numbers seen, and the committed body.  An instruction may also join the pipeline
    without being dispatched, as those that rename drops in a runahead period do; the helper thread and
    the requests may do anything in between. *)
Inductive recording : DynInst → State B → list DynInst → Z → gset Z → list (DynInst * bool) → Prop :=
  | recording_begin v s fl :
      0 ≤ sequence v → StronglySorted (λ i j, seqNum i < seqNum j) (fl ++ [inst v]) →
      ¬ open_at (sequence v) (core s) → open_at (sequence v) (core (observeDVRDispatch cfg v s)) →
      recording (inst v) (observeDVRDispatch cfg v s) (fl ++ [inst v]) (sequence v) {[sequence v]} []
  | recording_step trig s fl last seen cs ev s' fl' last' :
      recording trig s fl last seen cs → order_step (fl, last) ev (fl', last') →
      handle cfg ev s = Some s' → open_at (seqNum trig) (core s') →
      recording trig s' fl' last' (seen_by ev seen) (body_of ev s seen cs)
  | recording_join trig s fl last seen cs i :
      recording trig s fl last seen cs → last < seqNum i → recording trig s (fl ++ [i]) (seqNum i) seen cs
  | recording_helper trig s fl last seen cs y :
      recording trig s fl last seen cs → recording trig (s <| sys := y |>) fl last seen cs.

(** ** What a discovery should record *)

(** The value an instruction reads derives from the trigger's, along the given path. *)
Definition depends_on (trig : DynInst) (path : list DynInst) (i : DynInst) : bool :=
  Taint.source_tainted (Taint.run (Taint.begin Taint.init trig) path) i.

(** The instructions whose commit is seen, each with its mark along the whole path before it. *)
Definition annotated (trig : DynInst) (path : list (DynInst * bool)) : list (DynInst * bool) :=
  omap id (imap (λ k x, if x.2 : bool then Some (x.1, depends_on trig (take k path.*1) x.1) else None) path).

(** The PC of the last load among them whose address derives from the trigger. *)
Definition final_load (trig : DynInst) (path : list (DynInst * bool)) : Z :=
  foldl (λ pc x, if isLoad (staticInst x.1) && x.2 then instAddr x.1 else pc) 0 (annotated trig path).

Lemma annotated_snoc trig path i b :
  annotated trig (path ++ [(i, b)]) = annotated trig path ++ (if b then [(i, depends_on trig path.*1 i)] else []).
Proof.
  unfold annotated. rewrite imap_app, omap_app. simpl. rewrite Nat.add_0_r, fmap_app, take_app_length'
    by by rewrite length_fmap. f_equal; [|by destruct b].
  f_equal. apply imap_ext. intros k x Hx%lookup_lt_Some. by rewrite take_app_le by (rewrite length_fmap; lia).
Qed.

Lemma final_load_snoc trig path i b :
  final_load trig (path ++ [(i, b)])
  = if b && (isLoad (staticInst i) && depends_on trig path.*1 i) then instAddr i else final_load trig path.
Proof. unfold final_load. rewrite annotated_snoc, foldl_app. by destruct b. Qed.

(** The tracker of dispatch computes it, whatever history it keeps. *)
Definition numbered (path : list DynInst) : list (DynInst * Z) := (λ i, (i, seqNum i)) <$> path.

Lemma set_history (t : Taint.Tracker) h rs b :
  Taint.setTainted_all (t <| Taint.speculativeHistory := h |>) rs b
  = (Taint.setTainted_all t rs b) <| Taint.speculativeHistory := h |>.
Proof.
  unfold Taint.setTainted_all. revert t. induction rs as [|r rs IH]; intros t; [done|].
  etrans; [|apply IH]. simpl. f_equal. unfold Taint.setTainted. by destruct (Taint.tracked r).
Qed.

Lemma observe_history (t : Taint.Tracker) h i :
  Taint.observe (t <| Taint.speculativeHistory := h |>) i
  = ((Taint.observe t i).1 <| Taint.speculativeHistory := h |>, (Taint.observe t i).2).
Proof.
  unfold Taint.observe. cbv zeta. change (Taint.source_tainted (t <| Taint.speculativeHistory := h |>) i)
    with (Taint.source_tainted t i). cbn [fst snd]. f_equal.
  destruct (_ && _); [|by rewrite set_history].
  change (t <| Taint.speculativeHistory := h |> <| Taint.finalLoadPC := instAddr i |>)
    with (t <| Taint.finalLoadPC := instAddr i |> <| Taint.speculativeHistory := h |>).
  by rewrite set_history.
Qed.

Lemma spec_run_snoc t path i :
  Taint.spec_run t (numbered (path ++ [i]))
  = (Taint.observeSpeculative (Taint.spec_run t (numbered path)) i (seqNum i)).1.
Proof. unfold numbered, Taint.spec_run. by rewrite fmap_app, foldl_app. Qed.

Lemma spec_run_run t path :
  ∃ h, Taint.spec_run t (numbered path) = (Taint.run t path) <| Taint.speculativeHistory := h |>
  ∧ Forall (λ x, ∃ i, i ∈ path ∧ Taint.s_sequence x = seqNum i) (take (length path) h)
  ∧ drop (length path) h = Taint.speculativeHistory t.
Proof.
  induction path as [|i path IH] using rev_ind; [exists (Taint.speculativeHistory t); by destruct t|].
  destruct IH as (h & E & Hh & Hd). rewrite spec_run_snoc, E, Taint.run_snoc. unfold Taint.observeSpeculative.
  match goal with |- context [(Taint.observe ?x i).1] =>
    change x with ((Taint.run t path) <| Taint.speculativeHistory :=
      Taint.mkSpec (seqNum i) (Taint.taint (Taint.run t path)) (Taint.finalLoadPC (Taint.run t path)) :: h |>) end.
  rewrite observe_history. simpl. eexists. split; [done|]. rewrite length_app, Nat.add_1_r. simpl. split; [|done].
  constructor; [exists i; split; [set_solver|done]|].
  eapply Forall_impl; [exact Hh|]. intros x (j & Hj & ?). exists j. set_solver.
Qed.

(** The squash of the youngest observed instruction takes its observation back; that of a younger
    one does nothing. *)
Lemma squash_younger trig path q :
  (∀ i, i ∈ path → seqNum i < q) →
  Taint.squash (Taint.spec_run (Taint.begin Taint.init trig) (numbered path)) q
  = Taint.spec_run (Taint.begin Taint.init trig) (numbered path).
Proof.
  intros Hq. set (t := Taint.spec_run _ _).
  apply (Taint.taint_squash_undo t [] q); [|by constructor].
  destruct (spec_run_run (Taint.begin Taint.init trig) path) as (h & E & Hh & Hd). fold t in E.
  assert (E' : Taint.speculativeHistory t = take (length path) h).
  { rewrite E. simpl. rewrite <- (take_drop (length path) h) at 1. rewrite Hd. unfold Taint.begin.
    rewrite (proj2 (Taint.setTainted_all_frame _ _ _)). simpl. by rewrite app_nil_r. }
  rewrite E'. eapply Forall_impl; [exact Hh|]. intros x (i & Hi & ->). by apply Hq.
Qed.

Lemma squash_youngest trig path i :
  (∀ j, j ∈ path → seqNum j < seqNum i) →
  Taint.squash (Taint.spec_run (Taint.begin Taint.init trig) (numbered (path ++ [i]))) (seqNum i)
  = Taint.spec_run (Taint.begin Taint.init trig) (numbered path).
Proof.
  intros Hq. pose proof (squash_younger trig path (seqNum i) Hq) as Hy.
  rewrite spec_run_snoc. set (t := Taint.spec_run _ _) in *.
  unfold Taint.squash, Taint.observeSpeculative. rewrite Taint.history_observe. simpl.
  rewrite Z.leb_refl. exact Hy.
Qed.

(** ** Committed and in-flight part of the body *)

Lemma depends_on_spec trig path i t :
  t = Taint.spec_run (Taint.begin Taint.init trig) (numbered path) →
  Taint.source_tainted t i = depends_on trig path i.
Proof. intros ->. by destruct (spec_run_run (Taint.begin Taint.init trig) path) as (h & -> & _). Qed.

(** What the discovery of [trig] holds of an instruction of the body in flight. *)
Definition announced trig (path : list DynInst) (i : DynInst) c : Prop :=
  seqNum i ∈ dispatchRecorded c
  ∧ (seqNum i ∈ dispatchTainted c ↔ depends_on trig path i = true)
  ∧ (seqNum i ∈ dispatchDependentLoads c ↔ isLoad (staticInst i) && depends_on trig path i = true).

Record tracked trig (cs : list (DynInst * bool)) (w : list DynInst) (seen : gset Z) c : Prop := mkTracked {
  tr_taint : taintTracker c = Taint.spec_run (Taint.begin Taint.init trig) (numbered (cs.*1 ++ w));
  tr_recorder : instructionRecorder c = Recorder.record_all (Recorder.begin trig) (annotated trig cs);
  tr_flr : committedFinalLoadPC c = final_load trig cs;
  tr_window : ∀ before i after, w = before ++ i :: after → announced trig (cs.*1 ++ before) i c;
  tr_seen : dispatchTainted c ∪ dispatchDependentLoads c ∪ dispatchRecorded c ⊆ seen
}.

Lemma tracked_ext trig cs w seen c c' : tracks c' = tracks c → tracked trig cs w seen c → tracked trig cs w seen c'.
Proof.
  unfold tracks. intros [= E1 E2 E3 E4 E5 E6] [? ? ? Hw Hb].
  constructor; rewrite ?E1, ?E2, ?E3, ?E4, ?E5, ?E6; try done.
  intros before i after E. specialize (Hw before i after E). unfold announced in *. by rewrite E4, E5, E6.
Qed.

Lemma tracked_seen trig cs w seen seen' c : seen ⊆ seen' → tracked trig cs w seen c → tracked trig cs w seen' c.
Proof. intros Hle [? ? ? ? Hb]. constructor; try done. by etrans. Qed.

(** Dispatch announces an instruction. *)
Lemma tracked_observe trig cs w seen v c :
  tracked trig cs w seen c → sequence v ∉ seen → (∀ i, i ∈ w → seqNum i ≠ sequence v) →
  tracked trig cs (w ++ [inst v]) ({[sequence v]} ∪ seen) (observe_speculative v c).
Proof.
  intros [Ht Hr Hf Hw Hb] Hnew Hne.
  assert (Ho : Taint.observeSpeculative (taintTracker c) (inst v) (sequence v)
               = (Taint.spec_run (Taint.begin Taint.init trig) (numbered (cs.*1 ++ (w ++ [inst v]))),
                  Taint.mkObs (depends_on trig (cs.*1 ++ w) (inst v))
                    (isLoad (staticInst (inst v)) && depends_on trig (cs.*1 ++ w) (inst v)))).
  { rewrite app_assoc, spec_run_snoc, <- Ht. rewrite <- (depends_on_spec trig _ _ _ Ht).
    rewrite (surjective_pairing (Taint.observeSpeculative _ _ _)). done. }
  unfold observe_speculative. rewrite Ho. cbn [Taint.taintedInstruction Taint.dependentLoad].
  set (dep := depends_on trig (cs.*1 ++ w) (inst v)). set (ld := isLoad _ && dep). set (q := sequence v) in *.
  set (c' := if ld then _ else _).
  assert (E : taintTracker c' = Taint.spec_run (Taint.begin Taint.init trig) (numbered (cs.*1 ++ (w ++ [inst v])))
    ∧ instructionRecorder c' = instructionRecorder c ∧ committedFinalLoadPC c' = committedFinalLoadPC c
    ∧ dispatchRecorded c' = {[q]} ∪ dispatchRecorded c
    ∧ dispatchTainted c' = (if dep then {[q]} ∪ dispatchTainted c else dispatchTainted c)
    ∧ dispatchDependentLoads c' = (if ld then {[q]} ∪ dispatchDependentLoads c else dispatchDependentLoads c))
    by (unfold c'; by destruct ld, dep).
  clearbody c'. destruct E as (E1 & E2 & E3 & E4 & E5 & E6).
  constructor; [done|by rewrite E2|by rewrite E3| |].
  - intros before i after Hs. unfold announced. rewrite E4, E5, E6.
    destruct (decide (after = [])) as [->|Hna].
    + apply app_inj_tail in Hs as [-> <-]. fold dep ld. change (seqNum (inst v)) with q.
      assert (q ∉ dispatchTainted c ∪ dispatchDependentLoads c ∪ dispatchRecorded c) as Hq
        by (intros Hq; by apply Hnew, Hb).
      clear - Hq. destruct dep, ld; set_solver.
    + destruct (exists_last Hna) as (after' & x & ->).
      rewrite (app_comm_cons after' [x]), app_assoc in Hs. apply app_inj_tail in Hs as [-> _].
      destruct (Hw before i after' eq_refl) as (H1 & H2 & H3). rewrite <- H2, <- H3.
      assert (seqNum i ≠ q) as Hi by (apply Hne; set_solver).
      clear - H1 Hi. destruct dep, ld; set_solver.
  - rewrite E4, E5, E6. clear - Hb. destruct dep, ld; set_solver.
Qed.

(** A squash takes the youngest announcement back; its numbers may stay in the sets. *)
Lemma tracked_pop trig cs w i seen c d :
  tracked trig cs (w ++ [i]) seen c → (∀ j, j ∈ cs.*1 ++ w → seqNum j < seqNum i) →
  tracked trig cs w seen (c <| strideDetector := d |> <| taintTracker ::= λ t, Taint.squash t (seqNum i) |>).
Proof.
  intros [Ht Hr Hf Hw Hb] Hlt. constructor; simpl; try done.
  - by rewrite Ht, app_assoc, squash_youngest.
  - intros before j after ->. apply (Hw before j (after ++ [i])). by rewrite <- app_assoc.
Qed.

Lemma tracked_keep trig cs w q seen c d :
  tracked trig cs w seen c → (∀ j, j ∈ cs.*1 ++ w → seqNum j < q) →
  tracked trig cs w seen (c <| strideDetector := d |> <| taintTracker ::= λ t, Taint.squash t q |>).
Proof.
  intros [Ht Hr Hf Hw Hb] Hlt. constructor; simpl; try done. by rewrite Ht, squash_younger.
Qed.

(** A commit in the body, as far as the tracked state goes. *)
Lemma body_commit_tracks v c c' t t' :
  body_commit v c t = Some (c', t') →
  let q := sequence v in
  taintTracker c' = taintTracker c
  ∧ instructionRecorder c' = (if bool_decide (q ∈ dispatchRecorded c)
      then (Recorder.record (instructionRecorder c) (inst v) (bool_decide (q ∈ dispatchTainted c))).1
      else instructionRecorder c)
  ∧ committedFinalLoadPC c' = (if bool_decide (q ∈ dispatchDependentLoads c) then v_pc v else committedFinalLoadPC c)
  ∧ dispatchRecorded c' = dispatchRecorded c ∖ {[q]} ∧ dispatchTainted c' = dispatchTainted c ∖ {[q]}
  ∧ dispatchDependentLoads c' = dispatchDependentLoads c ∖ {[q]}.
Proof.
  unfold body_commit. cbv zeta. destruct (bool_decide (sequence v ∈ dispatchRecorded c)),
    (bool_decide (sequence v ∈ dispatchDependentLoads c));
    destruct (match effAddr v with Some _ => _ | None => _ end); try done; by intros [= <- _].
Qed.

(** Commit records the oldest announced instruction, with what dispatch has announced of it. *)
Lemma tracked_commit trig cs w v seen c c' t t' :
  tracked trig cs (inst v :: w) seen c → (∀ j, j ∈ w → seqNum (inst v) < seqNum j) →
  body_commit v c t = Some (c', t') → tracked trig (cs ++ [(inst v, true)]) w seen c'.
Proof.
  intros [Ht Hr Hf Hw Hb] Hlt (E1 & E2 & E3 & E4 & E5 & E6)%body_commit_tracks.
  destruct (Hw [] (inst v) w eq_refl) as (H1 & H2 & H3). rewrite app_nil_r in H2, H3.
  assert (Hbt : ∀ b, bool_decide (b = true) = b) by (by intros []).
  rewrite (bool_decide_eq_true_2 _ H1), (bool_decide_ext _ _ H2), Hbt in E2.
  rewrite (bool_decide_ext _ _ H3), Hbt in E3.
  constructor; rewrite ?E1, ?E2, ?E3.
  - by rewrite fmap_app, <- app_assoc.
  - rewrite annotated_snoc. unfold Recorder.record_all. rewrite foldl_app. cbn [foldl fst snd]. by rewrite Hr.
  - by rewrite final_load_snoc, Hf.
  - intros before j after ->. destruct (Hw (inst v :: before) j after eq_refl) as (J1 & J2 & J3).
    rewrite fmap_app, <- app_assoc. unfold announced. simpl. rewrite E4, E5, E6, <- J2, <- J3.
    assert (Hn : seqNum j ≠ sequence v) by (pose proof (Hlt j ltac:(set_solver)); unfold sequence; lia).
    clear - J1 Hn. set_solver.
  - rewrite E4, E5, E6. clear - Hb. set_solver.
Qed.

(** The commit of an announced instruction that the engine does not see. *)
Lemma tracked_skip trig cs w i seen c :
  tracked trig cs (i :: w) seen c → tracked trig (cs ++ [(i, false)]) w seen c.
Proof.
  intros [Ht Hr Hf Hw Hb]. constructor; try done.
  - by rewrite fmap_app, <- app_assoc.
  - by rewrite annotated_snoc, app_nil_r.
  - by rewrite final_load_snoc.
  - intros before j after ->. rewrite fmap_app, <- app_assoc. by apply (Hw (i :: before) j after).
Qed.

(** The commit, in the body, of an instruction that has not been announced. *)
Lemma tracked_other trig cs w v seen c c' t t' :
  tracked trig cs w seen c → sequence v ∉ seen → (∀ i, i ∈ w → seqNum i ≠ sequence v) →
  body_commit v c t = Some (c', t') → tracked trig cs w seen c'.
Proof.
  intros [Ht Hr Hf Hw Hb] Hnew Hne (E1 & E2 & E3 & E4 & E5 & E6)%body_commit_tracks.
  assert (Hq : sequence v ∉ dispatchTainted c ∪ dispatchDependentLoads c ∪ dispatchRecorded c)
    by (intros Hq; by apply Hnew, Hb).
  rewrite bool_decide_eq_false_2 in E2 by (clear - Hq; set_solver).
  rewrite bool_decide_eq_false_2 in E3 by (clear - Hq; set_solver).
  constructor; rewrite ?E1, ?E2, ?E3; try done.
  - intros before i after Hs. destruct (Hw before i after Hs) as (J1 & J2 & J3). unfold announced.
    rewrite E4, E5, E6, <- J2, <- J3.
    assert (Hn : seqNum i ≠ sequence v) by (apply Hne; set_solver).
    clear - J1 Hn. set_solver.
  - rewrite E4, E5, E6. clear - Hb. set_solver.
Qed.

(** ** Dispatch, seen by the root discovery *)

Lemma candidate_pc k i p act t q d cand :
  (Stride.dispatch_loop k i p act t q d).2 = Some cand → Stride.c_pc cand = p.
Proof.
  revert i d. induction k as [|k IH]; intros i d; simpl; [done|].
  destruct (negb _); [by apply IH|]. destruct act.
  - destruct (negb _); [by apply IH|]. by intros [= <-].
  - destruct (Stride.e_candidatePending _); [by intros [= <-]|by apply IH].
Qed.

(** A load leaves the discovery as it is, or begins one with its own number and PC. *)
Lemma dispatch_load_core v window stop s :
  ∃ d, (Stride.wf (strideDetector (core s)) → Stride.wf d)
  ∧ (core (dispatch_load cfg v window stop s) = (core s) <| strideDetector := d |>
     ∨ ∃ cand (restart : bool),
      core (dispatch_load cfg v window stop s)
        = begin_core v cand ((core s) <| strideDetector := d |>
            <| discovery ::= λ d, (if restart then Discovery.restart else Discovery.arm) d cand (sequence v) |>)
      ∧ Stride.c_pc cand = v_pc v
      ∧ (restart = true ∨ Discovery.isDiscovering (discovery (core s)) = false)).
Proof.
  unfold dispatch_load. destruct stop.
  { exists (strideDetector (core s)). split; [done|left]. by destruct (core s). }
  destruct (Stride.observeDispatch _ _ _ _ _) as [d o] eqn:Eo. exists d. split.
  { intros Hwf. change d with (d, o).1. rewrite <- Eo. by apply (Stride.step_wf _ (Stride.OpDispatch _ _ _ _)). }
  destruct o as [cand|]; [|by left]. destruct (pc_allowed _ _); [|by left]. set (s1 := s <| core ::= _ |>).
  assert (Hpc : Stride.c_pc cand = v_pc v)
    by (eapply candidate_pc; unfold Stride.observeDispatch in Eo; by rewrite Eo).
  assert (Hv : core (vector_runahead cfg v cand s1) = core s1)
    by (unfold vector_runahead; by destruct (_ && _)).
  assert (Hb : ∀ b, core (beginDVRDiscoveryAtDispatch cfg v cand b s1)
    = begin_core v cand ((core s1) <| discovery ::= λ d,
        (if b then Discovery.restart else Discovery.arm) d cand (sequence v) |>)).
  { intros []; unfold beginDVRDiscoveryAtDispatch; simpl; [|done]. by rewrite (proj1 (record_frame _ _ _ _ _)). }
  unfold on_candidate. cbv zeta.
  destruct (_ && rob_full v); [left; by rewrite Hv|].
  case_bool_decide; [left; by rewrite Hv|].
  destruct (_ && negb (Stride.c_pc cand =? _)); [right; exists cand, true; rewrite Hb; by split_and!; [..|left]|].
  case_bool_decide; [by left|].
  destruct (Discovery.isDiscovering (discovery (core s1))) eqn:Ei; [by left|].
  destruct (Ndm.active _); [by left|].
  cbn [orb]. right. exists cand, false. rewrite Hb. by split_and!; [..|right].
Qed.

Lemma observe_speculative_frame v c :
  discovery (observe_speculative v c) = discovery c.
Proof.
  unfold observe_speculative. destruct (Taint.observeSpeculative _ _ _) as [t o].
  by destruct (Taint.taintedInstruction o), (Taint.dependentLoad o).
Qed.

(** An instruction behind an open discovery: it joins the body while the stop is unknown. *)
Lemma dispatch_open v s t :
  pre v = false → 0 ≤ t < sequence v → open_at t (core s) → open_at t (core (observeDVRDispatch cfg v s)) →
  let c := core s in let c' := core (observeDVRDispatch cfg v s) in
  let stop := Discovery.stopSequence (discovery c) in
  let stop' := Discovery.stopSequence (discovery c') in
  (stop = 0 ∧ stop' = 0 ∧ ∃ c1, tracks c1 = tracks c ∧ c' = observe_speculative v c1)
  ∨ (tracks c' = tracks c ∧ ((stop ≠ 0 ∧ stop' = stop) ∨ (stop = 0 ∧ stop' = sequence v))).
Proof.
  intros Hp Hlt [Ho1 Ho2] Ho'. cbv zeta. revert Ho'. unfold observeDVRDispatch. rewrite Hp. cbv zeta.
  set (s1 := s <| core ::= _ |>). set (d1 := (Discovery.observeDispatch (discovery (core s)) (v_pc v) (sequence v)).1).
  change (discovery (core s1)) with d1. set (stop := Discovery.stopSequence (discovery (core s))).
  assert (Hd : Discovery.state d1 = Discovery.Discovering ∧ Discovery.triggerSequence d1 = t
    ∧ ((stop = 0 ∧ Discovery.stopSequence d1 = 0) ∨ (stop ≠ 0 ∧ Discovery.stopSequence d1 = stop)
       ∨ (stop = 0 ∧ Discovery.stopSequence d1 = sequence v))).
  { unfold d1, stop, Discovery.observeDispatch. rewrite Ho1, Ho2. simpl.
    destruct (Z.leb_spec (sequence v) t); [lia|]. simpl.
    destruct (Z.eqb_spec (Discovery.stopSequence (discovery (core s))) 0); simpl; [|tauto].
    destruct (_ =? _); simpl; tauto. }
  destruct Hd as (Hs1 & Ht1 & Hstop). unfold Discovery.isDiscovering, Discovery.stopPending.
  rewrite bool_decide_eq_true_2 by done. cbn [andb].
  assert (Hl : ∀ w b, let s2 := dispatch_load cfg v w b s1 in
    open_at t (core s2) → ∃ d, core s2 = (core s1) <| strideDetector := d |>).
  { intros w b s2 [_ Hq]. destruct (dispatch_load_core v w b s1) as (d & _ & [?|(cand & restart & E & _ & Hr)]); [by exists d|].
    exfalso. unfold s2 in Hq. rewrite E in Hq. simpl in Hq. change (discovery (core s1)) with d1 in *.
    destruct restart; simpl in Hq; [lia|]. destruct Hr as [|Hr]; [done|].
    unfold Discovery.isDiscovering in Hr. by rewrite Hs1 in Hr. }
  destruct (Z.eqb_spec (Discovery.stopSequence d1) 0) as [E0|E0]; cbn [negb andb].
  - set (s2 := if isLoad _ then _ else s1). intros Ho'.
    assert (Ho2' : open_at t (core s2)).
    { unfold open_at in *. destruct (_ <? sequence v); [|done]. simpl in Ho'. by rewrite observe_speculative_frame in Ho'. }
    assert (E2 : ∃ d, core s2 = (core s1) <| strideDetector := d |>).
    { unfold s2 in *. destruct (isLoad _); [by apply Hl|]. exists (strideDetector (core s1)). by destruct (core s1). }
    destruct E2 as [d E2]. rewrite (proj2 Ho2'), (proj2 (Z.ltb_lt _ _)) by lia. left. split; [lia|].
    simpl. rewrite observe_speculative_frame, E2. split; [exact E0|].
    eexists. split; [|done]. done.
  - intros _. right. assert (E2 : (if isLoad (staticInst (inst v)) then dispatch_load cfg v false true s1 else s1) = s1)
      by by destruct (isLoad _). rewrite E2. split; [done|]. simpl. fold d1. tauto.
Qed.

(** The dispatch that opens a discovery. *)
Lemma dispatch_begin v s :
  pre v = false → ¬ open_at (sequence v) (core s) → open_at (sequence v) (core (observeDVRDispatch cfg v s)) →
  ∃ c cand, core (observeDVRDispatch cfg v s) = begin_core v cand c
            ∧ Discovery.stopSequence (discovery c) = 0.
Proof.
  intros Hp Hno. unfold observeDVRDispatch. rewrite Hp. cbv zeta. set (s1 := s <| core ::= _ |>).
  set (d1 := (Discovery.observeDispatch (discovery (core s)) (v_pc v) (sequence v)).1).
  change (discovery (core s1)) with d1.
  assert (Hno1 : ¬ (Discovery.state d1 = Discovery.Discovering ∧ Discovery.triggerSequence d1 = sequence v)).
  { intros Ho. apply Hno. unfold open_at. unfold d1, Discovery.observeDispatch in Ho.
    destruct (_ || _); [done|]. by destruct (_ =? _). }
  set (w := Discovery.isDiscovering d1 && _). set (b := Discovery.stopPending d1).
  set (s2 := if isLoad _ then _ else s1). intros Ho.
  assert (Ho2 : open_at (sequence v) (core s2)).
  { unfold open_at in *. destruct (w && _); [|done]. simpl in Ho. by rewrite observe_speculative_frame in Ho. }
  rewrite (proj2 Ho2), Z.ltb_irrefl, andb_false_r. unfold s2 in *. destruct (isLoad _); [|done].
  destruct (dispatch_load_core v w b s1) as (d & _ & [E|(cand & restart & E & _ & Hr)]).
  - unfold open_at in Ho2. by rewrite E in Ho2.
  - rewrite E. do 2 eexists. split; [done|]. unfold open_at in Ho2. rewrite E in Ho2.
    change (Discovery.stopSequence ((if restart then Discovery.restart else Discovery.arm) d1 cand (sequence v)) = 0).
    set (d2 := (if restart then Discovery.restart else Discovery.arm) d1 cand (sequence v)).
    change (Discovery.state d2 = Discovery.Discovering ∧ Discovery.triggerSequence d2 = sequence v) in Ho2.
    clearbody d1. unfold d2 in *. destruct restart; [done|]. unfold Discovery.arm in *.
    revert Ho2. case_bool_decide; [done|]. intros Ho2. by destruct Hno1.
Qed.

(** ** The invariant of a recording

    The committed body, then the instructions in flight, in order; those of them that dispatch has
    announced are the ones seen, behind the trigger and before the stop. *)

Definition announceable (t stop : Z) (seen : gset Z) (i : DynInst) : Prop :=
  seqNum i ∈ seen ∧ t < seqNum i ∧ (stop = 0 ∨ seqNum i < stop).

#[local] Instance announceable_dec t stop seen i : Decision (announceable t stop seen i).
Proof. unfold announceable. apply _. Defined.

Definition window (t stop : Z) (seen : gset Z) (fl : list DynInst) : list DynInst :=
  filter (announceable t stop seen) fl.

Definition in_order (path : list DynInst) : Prop := StronglySorted (λ i j, seqNum i < seqNum j) path.

Record layout trig (fl : list DynInst) (last : Z) (seen : gset Z) (cs : list (DynInst * bool)) s : Prop := mkLayout {
  ly_order : in_order (cs.*1 ++ fl);
  ly_last : ∀ i, i ∈ cs.*1 ++ fl → seqNum i ≤ last;
  ly_seen : ∀ q, q ∈ seen → q ≤ last;
  ly_trigger : 0 ≤ seqNum trig ≤ last;
  ly_stop : Discovery.stopSequence (discovery (core s)) ≤ last;
  ly_body : ∀ i, i ∈ cs.*1 → seqNum trig < seqNum i;
  ly_open : open_at (seqNum trig) (core s);
  ly_tracked : tracked trig cs (window (seqNum trig) (Discovery.stopSequence (discovery (core s))) seen fl) seen (core s)
}.

Lemma in_order_app l k :
  in_order (l ++ k) → in_order l ∧ in_order k ∧ ∀ i j, i ∈ l → j ∈ k → seqNum i < seqNum j.
Proof. intros Hs. apply StronglySorted_app in Hs. tauto. Qed.

(** The committed instructions are behind the youngest in flight. *)
Lemma in_order_snoc path i : in_order path → (∀ j, j ∈ path → seqNum j < seqNum i) → in_order (path ++ [i]).
Proof. intros Hs Hf. apply StronglySorted_app_2; [|done|repeat constructor]. intros x y Hx ->%list_elem_of_singleton. auto. Qed.

Lemma window_fl t stop seen fl i : i ∈ window t stop seen fl → i ∈ fl.
Proof. unfold window. intros Hi. by apply list_elem_of_filter in Hi as [_ Hi]. Qed.

Lemma window_change t stop stop' seen seen' last fl :
  (∀ i, i ∈ fl → seqNum i ≤ last) →
  (∀ q, q ≤ last → (q ∈ seen' ↔ q ∈ seen)) → (stop' = stop ∨ (stop = 0 ∧ last < stop')) →
  window t stop' seen' fl = window t stop seen fl.
Proof.
  intros Hl Hs Hst. unfold window. induction fl as [|i fl IH]; [done|]. specialize (Hs (seqNum i)).
  assert (Hi : seqNum i ≤ last) by (apply Hl; set_solver).
  assert (E : announceable t stop' seen' i ↔ announceable t stop seen i).
  { unfold announceable. rewrite Hs by done. destruct Hst as [->|[-> ?]]; [done|]. intuition lia. }
  rewrite !filter_cons, (decide_ext _ _ _ _ E), IH; [done|]. set_solver.
Qed.

Lemma window_snoc t stop seen fl i :
  window t stop seen (fl ++ [i])
  = window t stop seen fl ++ (if decide (announceable t stop seen i) then [i] else []).
Proof. unfold window. rewrite filter_app, filter_cons, filter_nil. by destruct (decide _). Qed.

(** The next instruction joins the pipeline. *)
Lemma order_join path last i :
  in_order path → (∀ j, j ∈ path → seqNum j ≤ last) → last < seqNum i →
  in_order (path ++ [i]) ∧ ∀ j, j ∈ path ++ [i] → seqNum j ≤ seqNum i.
Proof.
  intros Ho Hl Hi. split.
  - apply in_order_snoc; [done|]. intros j Hj%Hl. lia.
  - intros j [Hj%Hl| ->%list_elem_of_singleton]%elem_of_app; lia.
Qed.

Lemma layout_join trig fl last seen cs s i :
  layout trig fl last seen cs s → last < seqNum i → layout trig (fl ++ [i]) (seqNum i) seen cs s.
Proof.
  intros [Ho Hl Hse Ht Hst Hb Hop Htr] Hi. destruct (order_join _ _ _ Ho Hl Hi) as [Ho' Hl']. rewrite <- app_assoc in *.
  constructor; try done; [|lia|lia|].
  - intros q Hq%Hse. lia.
  - rewrite window_snoc, decide_False, app_nil_r; [done|]. intros (Hs%Hse & _). lia.
Qed.

Lemma layout_dispatch trig fl last seen cs s v :
  layout trig fl last seen cs s → pre v = false → last < sequence v →
  open_at (seqNum trig) (core (observeDVRDispatch cfg v s)) →
  layout trig (fl ++ [inst v]) (sequence v) ({[sequence v]} ∪ seen) cs (observeDVRDispatch cfg v s).
Proof.
  intros [Ho Hl Hse Ht Hst Hb Hop Htr] Hp Hlt Hop'. change (last < seqNum (inst v)) in Hlt.
  destruct (order_join _ _ _ Ho Hl Hlt) as [Ho' Hl']. rewrite <- app_assoc in *.
  assert (Hnew : sequence v ∉ seen) by (intros Hs%Hse; unfold sequence in Hs; lia).
  assert (Hfl : ∀ i, i ∈ fl → seqNum i ≤ last) by (intros i Hi; apply Hl; set_solver).
  assert (Hw : ∀ stop stop', stop' = stop ∨ (stop = 0 ∧ last < stop') →
    window (seqNum trig) stop' ({[sequence v]} ∪ seen) fl = window (seqNum trig) stop seen fl).
  { intros stop stop' Hs. apply (window_change _ _ _ _ _ last); [done| |done].
    intros q Hq. assert (q ≠ sequence v) by (unfold sequence; lia). set_solver. }
  assert (Hseen : ∀ q, q ∈ {[sequence v]} ∪ seen → q ≤ sequence v)
    by (intros q [ ->%elem_of_singleton|Hq%Hse]%elem_of_union; unfold sequence; lia).
  destruct (dispatch_open v s (seqNum trig) Hp ltac:(unfold sequence; lia) Hop Hop') as [(E0 & E1 & c1 & E2 & E3)|(E2 & E3)].
  - constructor; try done; [unfold sequence; lia|rewrite E1; unfold sequence; lia|].
    rewrite E1, window_snoc, decide_True by (unfold announceable, sequence; split_and!; [set_solver|lia|by left]).
    rewrite (Hw 0 0) by by left. rewrite E0 in Htr. rewrite E3. apply tracked_observe; [by eapply tracked_ext|done|].
    intros i Hi%window_fl%Hfl. unfold sequence. lia.
  - assert (Hno : ¬ announceable (seqNum trig) (Discovery.stopSequence (discovery (core (observeDVRDispatch cfg v s))))
                    ({[sequence v]} ∪ seen) (inst v)).
    { intros (_ & _ & [E|E]); unfold sequence in *; destruct E3 as [[? E3]|[? E3]]; rewrite E3 in E; lia. }
    constructor; try done; [unfold sequence; lia| |].
    + destruct E3 as [[_ ->]|[_ ->]]; unfold sequence; lia.
    + rewrite window_snoc, decide_False, app_nil_r by done.
      rewrite (Hw (Discovery.stopSequence (discovery (core s)))).
      * eapply tracked_seen; [|by eapply tracked_ext]. set_solver.
      * destruct E3 as [[_ ->]|[-> ->]]; [by left|right]. unfold sequence. lia.
Qed.

Lemma squash_open q s t :
  open_at t (core s) → open_at t (core (squashInstIt q s)) →
  t < q ∧ core (squashInstIt q s)
    = (core s) <| strideDetector ::= λ d, Stride.squashDiscovery d q |> <| taintTracker ::= λ t, Taint.squash t q |>.
Proof.
  intros [Ho1 Ho2]. unfold squashInstIt. cbv zeta. set (s1 := s <| core ::= _ |>).
  change (discovery (core s1)) with (discovery (core s)). unfold Discovery.rollback. rewrite Ho1, Ho2. simpl.
  destruct (Z.ltb_spec t q); [done|]. by intros [? _].
Qed.

(** A squash that leaves the discovery open: of an instruction without a number yet, or of the youngest. *)
Lemma layout_unseen trig fl last seen cs q s :
  layout trig fl last seen cs s → last < q → open_at (seqNum trig) (core (squashInstIt q s)) →
  layout trig fl last seen cs (squashInstIt q s).
Proof.
  intros [Ho Hl Hse Ht Hst Hb Hop Htr] Hq Hop'. destruct (squash_open _ _ _ Hop Hop') as [_ E].
  constructor; try done; [by rewrite E|]. rewrite E. apply tracked_keep; [done|].
  intros j [Hj|Hj%window_fl]%elem_of_app; (assert (seqNum j ≤ last) by (apply Hl; set_solver)); lia.
Qed.

Lemma layout_squash trig fl i last seen cs s :
  layout trig (fl ++ [i]) last seen cs s → open_at (seqNum trig) (core (squashInstIt (seqNum i) s)) →
  layout trig fl last seen cs (squashInstIt (seqNum i) s).
Proof.
  intros [Ho Hl Hse Ht Hst Hb Hop Htr] Hop'. destruct (squash_open _ _ _ Hop Hop') as [_ E].
  rewrite app_assoc in Ho, Hl. apply in_order_app in Ho as (Ho & _ & Hlt).
  assert (Hlt' : ∀ j, j ∈ cs.*1 ++ window (seqNum trig) (Discovery.stopSequence (discovery (core s))) seen fl →
    seqNum j < seqNum i).
  { intros j [Hj|Hj%window_fl]%elem_of_app; (apply Hlt; [set_solver|by apply list_elem_of_singleton]). }
  constructor; try done; [intros j Hj; apply Hl; set_solver|by rewrite E|]. rewrite E. simpl.
  rewrite window_snoc in Htr. destruct (decide _).
  - by apply tracked_pop.
  - rewrite app_nil_r in Htr. by apply tracked_keep.
Qed.

Lemma layout_frame trig fl last seen cs s s' :
  tracks (core s') = tracks (core s) → discovery (core s') = discovery (core s) →
  layout trig fl last seen cs s → layout trig fl last seen cs s'.
Proof.
  intros E1 E2 [? ? ? ? ? ? Hop Htr]. constructor; try done; unfold open_at; rewrite ?E2; [done..|].
  by eapply tracked_ext.
Qed.

Lemma load_frame v a s :
  tracks (core (observeDVRLoad cfg v a s)) = tracks (core s)
  ∧ discovery (core (observeDVRLoad cfg v a s)) = discovery (core s).
Proof. unfold observeDVRLoad. destruct (pre v); [done|]. cbv zeta. by destruct (_ && (sequence v =? _)). Qed.

(** The engine does not see the commit of a micro-operation that is not the last, nor one in a runahead
    period. *)
Lemma commit_unseen v s s' :
  instDone cfg v s = Some s' → whole v && negb (pre v) = false → core s' = core s.
Proof.
  unfold instDone. destruct (whole v); [|by intros [= <-]]. destruct (pre v); [|done]. cbn [negb andb].
  intros [= <-] _. by rewrite (proj1 (oracle_frame _ _)).
Qed.

(** Commit takes the oldest instruction out of the window, if it is in it. *)
Lemma layout_commit trig fl last seen cs v s s' :
  layout trig (inst v :: fl) last seen cs s → instDone cfg v s = Some s' → open_at (seqNum trig) (core s') →
  layout trig fl last seen (body_of (ECommit v) s seen cs) s'.
Proof.
  intros [Ho Hl Hse Ht Hst Hb Hop Htr] Hi Hop'. set (stop := Discovery.stopSequence (discovery (core s))) in *.
  assert (Hin : Discovery.inDiscoveryBody (discovery (core s)) (sequence v) = true
                ↔ seqNum trig < sequence v ∧ (stop = 0 ∨ sequence v < stop)).
  { unfold Discovery.inDiscoveryBody, stop. rewrite (proj1 Hop), (proj2 Hop), bool_decide_eq_true_2 by done.
    cbn [andb]. rewrite andb_true_iff, orb_true_iff, Z.eqb_eq, !Z.ltb_lt. done. }
  assert (Hin' : bool_decide (sequence v ∈ seen) && Discovery.inDiscoveryBody (discovery (core s)) (sequence v) = true
                 ↔ announceable (seqNum trig) stop seen (inst v))
    by (rewrite andb_true_iff, bool_decide_eq_true, Hin; done).
  assert (Hrest : in_order (cs.*1 ++ fl) ∧ in_order ((cs.*1 ++ [inst v]) ++ fl)
                  ∧ ∀ j, j ∈ fl → seqNum (inst v) < seqNum j).
  { rewrite <- app_assoc. split; [|split; [done|]].
    - apply in_order_app in Ho as (Hc & [Hs _]%StronglySorted_inv & Hlt). apply StronglySorted_app_2; [|done..].
      intros i j Hi' Hj. apply Hlt; [done|]. by right.
    - apply in_order_app in Ho as (_ & [_ Hf]%StronglySorted_inv & _). by apply Forall_forall. }
  destruct Hrest as (Ho1 & Ho2 & Hlt).
  assert (Hsame : Discovery.stopSequence (discovery (core s')) = stop
    ∧ tracked trig (body_of (ECommit v) s seen cs) (window (seqNum trig) stop seen fl) seen (core s')).
  { unfold window in Htr. rewrite filter_cons in Htr. fold (window (seqNum trig) stop seen fl) in Htr.
    cbn [body_of]. destruct (whole v && negb (pre v)) eqn:Hwp.
    - apply andb_true_iff in Hwp as [Hw Hp%negb_true_iff].
      destruct (commit_open v s s' (seqNum trig) Hw Hp Hi Hop Hop') as (c & y & Hc & Et & Es). split; [done|].
      apply (tracked_ext _ _ _ _ _ _ Et). destruct (decide _) as [Ha|Ha].
      + rewrite (proj2 Hin' Ha). apply Hin' in Ha. apply andb_true_iff in Ha as [_ Ha]. rewrite Ha in Hc.
        eapply tracked_commit; [exact Htr|intros j Hj%window_fl; by apply Hlt|exact Hc].
      + destruct (bool_decide (sequence v ∈ seen)) eqn:Hs; cbn [andb] in *.
        * destruct (Discovery.inDiscoveryBody _ _); [by destruct Ha; apply Hin'|]. by rewrite Hc.
        * apply bool_decide_eq_false in Hs. destruct (Discovery.inDiscoveryBody _ _); [|by rewrite Hc].
          eapply tracked_other; [done|done| |done]. intros j Hj%window_fl%Hlt. unfold sequence. lia.
    - rewrite (commit_unseen v s s' Hi Hwp). split; [done|]. destruct (decide _) as [Ha|Ha].
      + rewrite (proj2 Hin' Ha). by apply tracked_skip in Htr.
      + revert Hin'. destruct (bool_decide _ && _); intros Hin'; [by destruct Ha; apply Hin'|done]. }
  destruct Hsame as [Es Htr']. constructor; rewrite ?Es; try done; clear Htr Htr'; cbn [body_of].
  - destruct (_ && _); [|done]. by rewrite fmap_app.
  - intros i Hi'. apply Hl. destruct (_ && _); [rewrite fmap_app in Hi'|]; set_solver.
  - intros i Hi'. revert Hin' Hi'. destruct (_ && _); intros Hin' Hi'; [|by apply Hb].
    destruct (proj1 Hin' eq_refl) as (_ & Ea & _).
    rewrite fmap_app in Hi'. apply elem_of_app in Hi' as [Hi'| ->%list_elem_of_singleton]; [by apply Hb|done].
Qed.

Lemma recording_layout trig s fl last seen cs :
  recording trig s fl last seen cs → layout trig fl last seen cs s.
Proof.
  induction 1 as [v s fl Hq Hfl Hno Ho|trig s fl last seen cs ev s' fl' last' Hr Hl Hs Hh Ho
                 |trig s fl last seen cs i Hr Hl Hi|trig s fl last seen cs y Hr Hl].
  - assert (pre v = false) as Hp.
    { destruct (pre v) eqn:E; [|done]. unfold observeDVRDispatch in Ho. by rewrite E in Ho. }
    destruct (dispatch_begin v s Hp Hno Ho) as (c & cand & E & E0).
    assert (Ew : window (seqNum (inst v)) 0 {[sequence v]} (fl ++ [inst v]) = []).
    { unfold window. generalize (fl ++ [inst v]). intros l. induction l as [|i l IH]; [done|].
      rewrite filter_cons, decide_False; [done|]. intros (Hs%elem_of_singleton & ? & _). unfold sequence in Hs. lia. }
    assert (Es : Discovery.stopSequence (discovery (core (observeDVRDispatch cfg v s))) = 0) by by rewrite E.
    constructor; rewrite ?Es; [done| | |unfold sequence in *; lia|done|by intros i ?%not_elem_of_nil|done|].
    + apply in_order_app in Hfl as (_ & _ & Hlt). cbn [fmap list_fmap app].
      intros i [Hi| ->%list_elem_of_singleton]%elem_of_app; [|done].
      unfold sequence. pose proof (Hlt i (inst v) Hi ltac:(by apply list_elem_of_singleton)). lia.
    + by intros q ->%elem_of_singleton.
    + rewrite Ew, E. constructor; try done; simpl.
      * intros before i after Hnil. by destruct before.
  - inversion Hs; subst; simplify_eq; cbn [handle seen_by body_of] in *.
    + injection Hh as <-. destruct (pre v) eqn:Hp.
      * unfold observeDVRDispatch. rewrite Hp. by eapply layout_join.
      * by eapply layout_dispatch.
    + injection Hh as <-. by apply layout_unseen.
    + injection Hh as <-. destruct (load_frame v a s). by eapply layout_frame.
    + injection Hh as <-. by apply layout_squash.
    + by apply layout_commit.
  - by apply (layout_join _ _ last).
  - by apply (layout_frame _ _ _ _ _ s).
Qed.


End engine.

(** ** An example: a strided load opens a discovery; behind it come an addition, a load through the
    sum, an instruction of a wrong path, which is squashed, and one that is dispatched in a runahead
    period and commits after it. *)

Definition demo_config : Config := mkConfig Full 0 0 false (sample_config true).
Definition demo_view (i : DynInst) (a : option Z) : View Array :=
  mkView _ i true false a 0 0 (replicate 32 0) [] false (λ _, []) None None
    (Predicate.mkTracker 0 0 [] [] [] mask_empty mask_empty).
Definition demo_x (n : nat) : RegId := mkRegId IntRegClass n.
Definition demo_trigger : DynInst := plain_inst 10 64 0 [demo_x 10] [demo_x 11] true.
Definition demo_add : DynInst := plain_inst 11 68 0 [demo_x 11; demo_x 5] [demo_x 12] false.
Definition demo_load : DynInst := plain_inst 12 72 0 [demo_x 12] [demo_x 13] true.
Definition demo_wrong : DynInst := plain_inst 13 76 0 [demo_x 13] [demo_x 12] false.
Definition demo_hidden : DynInst := plain_inst 14 80 0 [demo_x 13] [demo_x 5] false.
Definition demo_hidden_view : View Array :=
  mkView _ demo_hidden true true None 0 0 (replicate 32 0) [] false (λ _, []) None None
    (Predicate.mkTracker 0 0 [] [] [] mask_empty mask_empty).
#[global] Arguments demo_view _ _ : simpl never.
Definition demo_trained : State Array :=
  default (State_init 8 100 4 100)
    (run demo_config ((λ a, ELoad (demo_view demo_trigger (Some a)) a) <$> [4096; 4104; 4112; 4120; 4128])
       (State_init 8 100 4 100)).

Definition demo_events : list (Event (B := Array)) :=
  [EDispatch (demo_view demo_add None); EDispatch (demo_view demo_load None);
   EDispatch (demo_view demo_wrong None); ECommit (demo_view demo_trigger (Some 4136));
   ESquash 13; EDispatch demo_hidden_view; ECommit (demo_view demo_add None);
   ECommit (demo_view demo_load (Some 9000)); ECommit (demo_view demo_hidden None)].
Definition demo_begun : State Array :=
  observeDVRDispatch demo_config (demo_view demo_trigger None) demo_trained.
Definition demo_at (k : nat) : State Array :=
  default demo_begun (run demo_config (take k demo_events) demo_begun).
Definition demo_state : State Array := demo_at 9.

Lemma demo_step k fl last seen cs ev fl' last' seen' cs' :
  recording demo_config demo_trigger (demo_at k) fl last seen cs →
  order_step (fl, last) ev (fl', last') → handle demo_config ev (demo_at k) = Some (demo_at (S k)) →
  open_at 10 (core (demo_at (S k))) → seen_by ev seen = seen' → body_of ev (demo_at k) seen cs = cs' →
  recording demo_config demo_trigger (demo_at (S k)) fl' last' seen' cs'.
Proof. intros Hr Ho Hh Hopen <- <-. by eapply recording_step. Qed.

Definition demo_seen : gset Z := {[13]} ∪ ({[12]} ∪ ({[11]} ∪ {[10]})).

Lemma demo_dispatched :
  recording demo_config demo_trigger (demo_at 3) [demo_trigger; demo_add; demo_load; demo_wrong] 13 demo_seen [].
Proof.
  assert (recording demo_config demo_trigger (demo_at 0) [demo_trigger] 10 {[10]} []) as R0.
  { apply (recording_begin demo_config (demo_view demo_trigger None) demo_trained []);
      [done|by repeat constructor| |done]. intros [Ho _]. vm_compute in Ho. done. }
  eapply (demo_step 2 [demo_trigger; demo_add; demo_load] 12);
    [|by apply (order_dispatch [demo_trigger; demo_add; demo_load] 12 (demo_view demo_wrong None))|vm_compute; reflexivity|done..].
  eapply (demo_step 1 [demo_trigger; demo_add] 11);
    [|by apply (order_dispatch [demo_trigger; demo_add] 11 (demo_view demo_load None))|vm_compute; reflexivity|done..].
  eapply (demo_step 0 [demo_trigger] 10);
    [exact R0|by apply (order_dispatch [demo_trigger] 10 (demo_view demo_add None))|vm_compute; reflexivity|done..].
Qed.

Lemma demo_recording :
  recording demo_config demo_trigger demo_state [] 14 demo_seen [(demo_add, true); (demo_load, true)].
Proof.
  eapply (demo_step 8 [demo_hidden] 14 demo_seen [(demo_add, true); (demo_load, true)]);
    [|by apply (order_commit [] 14 (demo_view demo_hidden None))|vm_compute; reflexivity|done..].
  eapply (demo_step 7 [demo_load; demo_hidden] 14 demo_seen [(demo_add, true)]);
    [|by apply (order_commit [demo_hidden] 14 (demo_view demo_load (Some 9000)))|vm_compute; reflexivity|done..].
  eapply (demo_step 6 [demo_add; demo_load; demo_hidden] 14 demo_seen []);
    [|by apply (order_commit [demo_load; demo_hidden] 14 (demo_view demo_add None))|vm_compute; reflexivity|done..].
  eapply (demo_step 5 [demo_add; demo_load] 13 demo_seen []);
    [|by apply (order_dispatch [demo_add; demo_load] 13 demo_hidden_view)|vm_compute; reflexivity|done..].
  eapply (demo_step 4 [demo_add; demo_load; demo_wrong] 13 demo_seen []);
    [|by apply (order_squash [demo_add; demo_load] demo_wrong)|vm_compute; reflexivity|done..].
  eapply (demo_step 3 _ 13 demo_seen [] (ECommit (demo_view demo_trigger (Some 4136))));
    [exact demo_dispatched|by apply (order_commit _ 13 (demo_view demo_trigger (Some 4136)))|vm_compute; reflexivity|done..].
Qed.

End Engine.
