(* ===== verification/EngineInv.v ===== *)
(** * The invariant of the discovery engine

    What holds of the units of Driver.v together after any events in any order: each unit keeps its own
    invariant, and the phases of a discovery agree across the units. *)

From stdpp Require Import gmap.
From S2P Require Import Prelude Inst Stride Discovery Taint Uop Recorder Rename Vir VirExec LoopBound.
From S2P Require Import Nested Ndm Predicate Relation AltPath Replay Lanes PrefetchQueue Prefetch Flatten Driver Engine.

Module EngineInv.
Import Lanes PrefetchQueue Prefetch Driver Engine.
#[local] Existing Instances Recorder.eta_Recorder Flatten.eta_Batch Uop.eta_Uop.

(** ** Recorded programs *)

(** A program with the trigger at [pc] in front. *)
Definition headed (r : Recorder.Recorder) (pc : Z) : Prop :=
  Recorder.wf r ∧ (0 < Recorder.count r)%nat ∧ Uop.pc (Recorder.uop_at r 0) = pc.

Lemma mark_headed r a pc :
  Recorder.wf r → let r' := Recorder.mark_reconvergence r a in
  Recorder.wf r' ∧ Recorder.count r' = Recorder.count r
  ∧ (Uop.pc (Recorder.uop_at r 0) = pc → Uop.pc (Recorder.uop_at r' 0) = pc).
Proof.
  intros [Hl Hc]. unfold Recorder.mark_reconvergence. cbv zeta. destruct (_ && _) eqn:E; [|done].
  split; [split; [|done]|split; [done|]].
  - simpl. unfold Recorder.update_uop. by rewrite length_insert.
  - intros <-. rewrite Recorder.uop_at_update by (unfold Recorder.MaxUops in *; lia).
    case_bool_decide as Hz; [by rewrite Hz|done].
Qed.

Lemma record_wf r i b : Recorder.wf r → Recorder.wf (Recorder.record r i b).1.
Proof.
  intros Hwf. unfold Recorder.record. destruct (mark_headed r (instAddr i) 0 Hwf) as ([Hl Hc] & _ & _).
  destruct (Nat.leb_spec Recorder.MaxUops (Recorder.count (Recorder.mark_reconvergence r (instAddr i)))); [done|].
  split; simpl; [|lia]. unfold Recorder.update_uop. by rewrite length_insert.
Qed.

Lemma record_headed r i b pc : headed r pc → headed (Recorder.record r i b).1 pc.
Proof.
  intros (Hwf & Hc & Hp). split; [by apply record_wf|]. unfold Recorder.record.
  destruct (mark_headed r (instAddr i) pc Hwf) as ([Hl Hm] & Hn & Hp'). specialize (Hp' Hp).
  destruct (Nat.leb_spec Recorder.MaxUops (Recorder.count (Recorder.mark_reconvergence r (instAddr i))));
    [by rewrite <- Hn in Hc|].
  split; [simpl; lia|]. cbn [fst]. rewrite Recorder.uop_at_update by (simpl; lia).
  case_bool_decide; [lia|done].
Qed.

Lemma begin_headed i : headed (Recorder.begin i) (instAddr i).
Proof.
  assert (E : (Recorder.record Recorder.reset i false).1
    = Recorder.reset <| Recorder.count := 1%nat |>
        <| Recorder.uops ::= Recorder.update_uop 0 (λ u, Recorder.fill_uop u i false) |>) by reflexivity.
  split; [|split].
  - apply record_wf. split; [reflexivity|simpl; lia].
  - unfold Recorder.begin. rewrite E. simpl. lia.
  - unfold Recorder.begin. rewrite E, Recorder.uop_at_update by (simpl; lia).
    apply (Recorder.fill_uop_captured _ i false).
Qed.

Section engine.
Context {B : Type} `{LaneBank B} (cfg : Config).
Implicit Types (v : View B) (s : State B) (c : Core) (n : Nest).

(** ** Nested discovery *)

(** A child in use has its program; one that is not is reset. *)
Definition child_ok (x : Child) : Prop :=
  if ch_active x then headed (ch_recorder x) (ch_triggerPC x) else x = reset_child x.

Definition batch_ok (b : Flatten.Batch) : Prop :=
  (Flatten.b_count b ≤ Flatten.MaxInvocations)%nat ∧ length (Flatten.bases b) = Flatten.MaxInvocations
  ∧ length (Flatten.b_innerLanes b) = Flatten.MaxInvocations
  ∧ length (Flatten.innerStrides b) = Flatten.MaxInvocations.

Record nest_ok n : Prop := mkNestOk {
  no_mode : Ndm.ok (nestedDiscoveryMode n);
  no_child : child_ok (nestedContext n);
  no_batch : batch_ok (invocationBatch n)
}.

Lemma nest_ext n n' :
  nestedDiscoveryMode n' = nestedDiscoveryMode n → nestedContext n' = nestedContext n →
  invocationBatch n' = invocationBatch n → nest_ok n → nest_ok n'.
Proof. intros E1 E2 E3 []. by constructor; rewrite ?E1, ?E2, ?E3. Qed.

Lemma nest_mode f n :
  (∀ m, Ndm.ok m → Ndm.ok (f m)) → nest_ok n → nest_ok (n <| nestedDiscoveryMode ::= f |>).
Proof. intros Hf []. constructor; [by apply Hf|done..]. Qed.

Lemma nest_child x n : child_ok x → nest_ok n → nest_ok (n <| nestedContext := x |>).
Proof. intros Hx []. by constructor. Qed.

Lemma ok_ndm_reset m : Ndm.ok m → Ndm.ok (Ndm.reset m).
Proof. intros Hm. by apply Ndm.ok_reset; apply (Ndm.ok_budgets m). Qed.

Lemma nest_reset n : nest_ok n → nest_ok (reset_nested n).
Proof. intros Hn. apply (nest_ext (n <| nestedContext := reset_child (nestedContext n) |>)); try done. by apply nest_child. Qed.

Lemma nest_idle n : nest_ok n → nest_ok (idle_ndm n).
Proof. intros Hn. unfold idle_ndm. destruct (Ndm.active _); [done|]. by apply nest_mode; [apply ok_ndm_reset|]. Qed.

Lemma nest_root p q n : nest_ok n → nest_ok (start_root cfg p q n).
Proof. intros Hn. unfold start_root. case_bool_decide; [|done]. by apply (nest_ext n). Qed.

Lemma nest_observe v n : nest_ok n → nest_ok (observe_ndm v n).
Proof.
  intros [Hm Hc Hb]. unfold observe_ndm. cbv zeta. constructor; [|done..]. simpl.
  set (m1 := if _ && isDirectCtrl _ then _ else _).
  assert (H1 : Ndm.ok m1).
  { unfold m1. destruct (_ && isDirectCtrl _); [|done]. by apply Ndm.ok_innerBranch. }
  clearbody m1. destruct (effAddr v); [|done]. destruct (_ && _); [|done]. by apply Ndm.ok_outerLoad.
Qed.

Lemma batch_add pc a l i b : batch_ok b → batch_ok (Flatten.add_invocation pc a l i b).
Proof.
  intros Hb. unfold Flatten.add_invocation. cbv zeta. set (b1 := if _ && negb _ then Flatten.Batch_init else b).
  assert (H1 : batch_ok b1) by (unfold b1; destruct (_ && _); [|done]; split_and!; try done; simpl; lia).
  clearbody b1. destruct H1 as (H1 & H2 & H3 & H4).
  destruct (Nat.ltb_spec (Flatten.b_count (b1 <| Flatten.b_triggerPC := pc |>)) Flatten.MaxInvocations) as [Hl|]; [|by split_and!].
  simpl in Hl. split_and!; simpl; [lia|by rewrite length_insert..].
Qed.

(** A committed candidate becomes the child, with its own program. *)
Lemma nest_pending v pc n : nest_ok n → nest_ok (pending_candidate v pc n).
Proof.
  intros Hn. unfold pending_candidate. destruct (pendingNested n) as [p|]; [|done].
  destruct (_ && (p_pc p =? v_pc v)) eqn:E.
  - apply andb_true_iff in E as [_ E%Z.eqb_eq]. apply (nest_ext (commit_candidate v pc p n)); [done..|].
    unfold commit_candidate. cbv zeta. set (n1 := if _ && (_ =? 0)%nat then _ else _).
    assert (H1 : nest_ok n1) by (apply (nest_ext n); [..|done]; unfold n1; by destruct (_ && _)).
    clearbody n1. destruct (_ =? 1)%nat; [|done]. destruct (Nested.currentId _) as [parent|]; [|done].
    destruct (Nested.startNested _ _ _ _) as [k r].
    case_bool_decide; [|by apply (nest_ext n1)].
    apply (nest_ext (n1 <| nestedContext := open_child v p (Nested.id r) (nestedContext n1) |>)); [done..|].
    apply nest_child; [|done]. unfold child_ok. simpl. rewrite E. apply begin_headed.
  - destruct (_ <? _); [by apply (nest_ext n)|done].
Qed.

Lemma nest_child_commit v n t n' t' : nest_ok n → child_commit v n t = Some (n', t') → nest_ok n'.
Proof.
  intros Hn. unfold child_commit. cbv zeta. destruct (ch_active (nestedContext n) && _) eqn:E; [|by intros [= <- _]].
  apply andb_true_iff in E as [E _]. destruct (Taint.observe _ _) as [taint o].
  destruct (match effAddr v with Some _ => _ | None => _ end) as [t1|]; [|done]. intros [= <- _].
  apply nest_child; [|done]. assert (Hc := no_child _ Hn). unfold child_ok in *. rewrite E in Hc.
  destruct (Taint.dependentLoad o); simpl; rewrite E; by apply record_headed.
Qed.

(** ** Nested discovery and requests, step by step *)

Definition rest_ok s : Prop := nest_ok (nest s) ∧ sys_ok (prefetch cfg) 0 (sys s).

Lemma rest_ext s s' : nest s' = nest s → sys s' = sys s → rest_ok s → rest_ok s'.
Proof. unfold rest_ok. by intros -> ->. Qed.

Lemma rest_nest f s : (∀ n, nest_ok n → nest_ok (f n)) → rest_ok s → rest_ok (s <| nest ::= f |>).
Proof. intros Hf [Hn Hs]. split; [by apply Hf|done]. Qed.

Lemma rest_oracle v s : rest_ok s → rest_ok (oracle_step cfg v s).
Proof.
  intros [Hn Hs]. unfold oracle_step. destruct (futures v), (effAddr v); try done.
  destruct (isLoad _); [|done]. split; [done|]. by apply oracle_ok.
Qed.

Lemma rest_tables s c t : rest_ok s → rest_ok (s <| core := c |> <| sys ::= λ y, y <| tabs := t |> |>).
Proof. intros [Hn Hs]. split; [done|]. by apply (frame_ok (prefetch cfg) 0 (sys s)). Qed.

Lemma rest_body v s s' : rest_ok s → body_step v s = Some s' → rest_ok s'.
Proof.
  intros Hr. unfold body_step. destruct (Discovery.inDiscoveryBody _ _); [|by intros [= <-]].
  destruct (body_commit _ _ _) as [[c t]|]; [|done]. intros [= <-]. by apply rest_tables.
Qed.

Lemma rest_count v s : rest_ok s → rest_ok (count_step v s).1.1.
Proof.
  intros [Hn Hs]. unfold count_step. destruct (Discovery.observeCommit _ _ _) as [d r].
  destruct (Nested.observeCommit _ _ _) as [k nr]. split; [|done]. apply nest_observe.
  apply nest_mode; [intros m; apply Ndm.ok_commit|]. by apply (nest_ext (nest s)).
Qed.

(** While a child completes its program is a draft; everything else is in order. *)
Definition mid_ok s : Prop :=
  Ndm.ok (nestedDiscoveryMode (nest s)) ∧ batch_ok (invocationBatch (nest s)) ∧ sys_ok (prefetch cfg) 0 (sys s).

Lemma rest_mid s : rest_ok s → mid_ok s.
Proof. by intros [[] ?]. Qed.

Lemma mid_reset f s : (∀ x, ∃ y, f x = reset_child y) → mid_ok s → rest_ok (s <| nest ::= λ n, n <| nestedContext ::= f |> |>).
Proof.
  intros Hf (Hm & Hb & Hs). split; [|done]. constructor; [done| |done]. simpl.
  by destruct (Hf (nestedContext (nest s))) as [y ->].
Qed.

Lemma mid_launch v regs s : mid_ok s → mid_ok (launch_nested cfg v regs s).
Proof.
  intros (Hm & Hb & Hs). unfold launch_nested. cbv zeta.
  match goal with |- context [Flatten.launchDVRNestedPrefetches ?a ?b ?l ?p ?i ?y] =>
    pose proof (Flatten.nested_launch_ok a b l p i y Hs) as Hk;
    destruct (Flatten.launchDVRNestedPrefetches a b l p i y) as [y' launched] end.
  destruct launched; [|done]. split; [done|]. split; [|done].
  split_and!; try done. simpl. unfold Flatten.MaxInvocations. lia.
Qed.

Lemma mid_finish s : mid_ok s → mid_ok (s <| nest ::= λ n, n <| nestedDiscoveryMode ::= Ndm.finishVectorization |> |>).
Proof. intros (Hm & Hb & Hs). split; [|done]. by apply (Ndm.ok_step _ Ndm.Finish). Qed.

Lemma mid_batch v i regs s : mid_ok s → mid_ok (batch_child cfg v i regs s).
Proof.
  intros (Hm & Hb & Hs). unfold batch_child. cbv zeta. set (s1 := s <| nest ::= _ |>).
  assert (H1 : mid_ok s1) by (split; [done|]; split; [by apply batch_add|done]).
  clearbody s1. destruct (_ && _); [|done]. destruct (_ && _); [apply mid_finish|]; by apply mid_launch.
Qed.

Lemma rest_complete_child v regs s : rest_ok s → rest_ok (completeDVRNestedContext cfg v regs s).
Proof.
  intros Hr. unfold completeDVRNestedContext. destruct (negb _); [done|]. cbv zeta. apply rest_mid in Hr.
  apply mid_reset; [by eexists|]. set (s1 := capture_child v regs s).
  assert (H1 : mid_ok s1) by done. clearbody s1. set (i := LoopBound.infer _ _ _ _).
  assert (H2 : mid_ok (s1 <| nest ::= plan_child i |>)).
  { destruct H1 as (Hm & Hb & Hs). split; [|split; [|done]]; simpl; unfold plan_child; cbv zeta;
      (destruct (_ && _); [|done]); [by apply Ndm.ok_record|done]. }
  destruct (keeps_child _ _ _); [by apply mid_batch|done].
Qed.

Lemma rest_child_step v s s' : rest_ok s → child_step v s = Some s' → rest_ok s'.
Proof.
  intros [Hn Hs]. unfold child_step. destruct (child_commit _ _ _) as [[n t]|] eqn:E; [|done].
  intros [= <-]. split; [by eapply nest_child_commit|]. by apply (frame_ok (prefetch cfg) 0 (sys s)).
Qed.

(** The launch of a plan through the child context, which is reset at the end. *)
Lemma rest_launch_plan v i pc flr regs s : rest_ok s → rest_ok (launch_plan cfg v i pc flr regs s).
Proof.
  intros (Hm & Hb & Hs)%rest_mid. unfold launch_plan. cbv zeta. set (s1 := s <| nest ::= _ |>).
  assert (H1 : mid_ok s1) by done. clearbody s1.
  destruct (mid_finish _ (mid_launch v regs s1 H1)) as (Hm' & Hb' & Hs').
  split; [|exact Hs']. by constructor.
Qed.

Lemma rest_launch_ordinary v i pc stride flr regs a cf hit s :
  rest_ok s → rest_ok (launch_ordinary cfg v i pc stride flr regs a cf hit s).
Proof.
  intros Hr. unfold launch_ordinary. destruct (_ && _); [done|].
  destruct (launch_lanes _ _ _ _ _ _ _) as [lanes|]; [|done]. destruct (effAddr v) as [x|]; [|done].
  destruct Hr as [Hn Hs]. split; [done|]. by apply launch_ok.
Qed.

Lemma nest_start_ndm i pc regs c n : nest_ok n → nest_ok (start_ndm cfg i pc regs c n).
Proof.
  intros Hn. unfold start_ndm. cbv zeta. destruct (_ && _).
  - pose proof (Ndm.ok_start pc (LoopBound.increment i) (LoopBound.lanes i) _ (no_mode _ Hn)) as H1.
    destruct (Ndm.start _ _ _ _) as [m r]. simpl in H1. destruct Hn. constructor; [|done..]. simpl.
    case_bool_decide; [|done]. destruct (loop_registers _ _ _) as [[[? ?] ?] ?]. by apply Ndm.ok_capture.
  - destruct (_ && _); [|done]. by apply nest_mode; [apply ok_ndm_reset|].
Qed.

Lemma nest_plan_root i pc flr c n : nest_ok n → nest_ok (plan_root i pc flr c n).
Proof.
  intros Hn. unfold plan_root. destruct (_ && _); [|done]. apply nest_mode; [|done].
  intros m. apply Ndm.ok_record.
Qed.

Lemma nest_close pc n : nest_ok n → nest_ok (close_nested pc n).
Proof.
  intros Hn. unfold close_nested. destruct (_ <? _)%nat; [by apply nest_reset|].
  destruct (Nested.rootId _); [by apply (nest_ext n)|done].
Qed.

Lemma nest_uncommitted n x : nest_ok n → nest_ok (n <| committedNested := x |>).
Proof. by apply nest_ext. Qed.

Lemma rest_capture v flr regs s : rest_ok s → rest_ok (capture_root v flr regs s).1.
Proof.
  unfold capture_root. cbv zeta. destruct (_ =? 0); [done|].
  by destruct (AltPath.augmentDVRAlternatePaths _ _ _ _ _).
Qed.

Lemma rest_record reason i pc stride s :
  rest_ok s → rest_ok (recordDVRDiscoveryGeneration reason i pc stride s).
Proof. destruct (record_frame reason i pc stride s) as (_ & E1 & E2). by apply rest_ext. Qed.


Lemma rest_complete v r s : rest_ok s → rest_ok (complete_discovery cfg v r s).
Proof.
  intros Hr. unfold complete_discovery. cbv zeta. set (i := LoopBound.infer _ _ _ _).
  set (s1 := recordDVRDiscoveryGeneration _ _ _ _ _). assert (H1 : rest_ok s1) by by apply rest_record.
  set (flr := committedFinalLoadPC _) in *. pose proof (rest_capture v flr (capture v) s1 H1) as H2.
  destruct (capture_root v flr _ s1) as [s2 hit]. cbn [fst] in H2.
  set (s3 := s2 <| nest ::= _ |>).
  assert (H3 : rest_ok s3) by (apply rest_nest; [|done]; intros n Hn; by apply nest_start_ndm, nest_plan_root).
  clearbody s3. destruct (vir_pass _ _ _ _) as [[c allowed] control].
  set (s4 := s3 <| core := c |>). assert (H4 : rest_ok s4) by by apply (rest_ext s3).
  set (s5 := if plan_valid _ _ _ _ _ then _ else _).
  assert (H5 : rest_ok s5).
  { unfold s5. destruct (plan_valid _ _ _ _ _); [by apply rest_launch_plan|by apply rest_launch_ordinary]. }
  clearbody s5. apply rest_nest; [|by apply (rest_ext s5)]. intros n Hn. by apply nest_uncommitted, nest_close.
Qed.

Lemma rest_abort reason r s : rest_ok s → rest_ok (abort_discovery reason r s).
Proof.
  intros Hr. unfold abort_discovery. set (s1 := recordDVRDiscoveryGeneration _ _ _ _ _).
  assert (H1 : rest_ok s1) by by apply rest_record. clearbody s1.
  apply rest_nest; [|by apply (rest_ext s1)]. intros n Hn. cbv zeta.
  destruct (Nested.active _); [apply nest_reset|]; by apply nest_uncommitted, nest_idle.
Qed.

Lemma rest_start v r s : rest_ok s → rest_ok (start_discovery cfg v r s).
Proof.
  intros Hr. unfold start_discovery. cbv zeta.
  apply (rest_ext (s <| nest ::= λ n, (idle_ndm (start_root cfg (Discovery.r_triggerPC r) (sequence v)
    (if Nested.active (nestedController n) then reset_nested n else n))) <| committedNested := None |> |>)); [done..|].
  apply rest_nest; [|done]. intros n Hn. apply nest_uncommitted, nest_idle, nest_root.
  destruct (Nested.active _); [by apply nest_reset|done].
Qed.

Lemma rest_conclude v r s : rest_ok s → rest_ok (conclude_discovery cfg v r s).
Proof.
  intros Hr. unfold conclude_discovery. destruct (Discovery.r_event r);
    [done|by apply rest_start|by apply rest_complete|by apply rest_abort..].
Qed.

Lemma rest_commit v s s' : rest_ok s → instDone cfg v s = Some s' → rest_ok s'.
Proof.
  intros Hr. unfold instDone. destruct (whole v); cbn [negb]; [|by intros [= <-]].
  assert (H1 := rest_oracle v s Hr). set (s1 := oracle_step cfg v s) in *. clearbody s1.
  destruct (pre v); [by intros [= <-]|].
  destruct (body_step v s1) as [s2|] eqn:E2; [|done]. cbn [mbind option_bind].
  assert (H2 := rest_body _ _ _ H1 E2). pose proof (rest_count v s2 H2) as H3.
  destruct (count_step v s2) as [[s3 r] nr]. cbn [fst] in H3.
  set (s4 := s3 <| core ::= _ |>). assert (H4 : rest_ok s4) by by apply (rest_ext s3).
  set (s5 := if about_child Nested.Completed _ _ then _ else _).
  assert (H5 : rest_ok s5) by (unfold s5; destruct (about_child _ _ _); [by apply rest_complete_child|done]).
  clearbody s5. set (s6 := s5 <| nest ::= _ |>).
  assert (H6 : rest_ok s6) by (apply rest_nest; [|done]; intros n; apply nest_pending).
  destruct (child_step v s6) as [s7|] eqn:E7; [|done]. cbn [mbind option_bind]. intros [= <-].
  apply rest_conclude. assert (H7 := rest_child_step _ _ _ H6 E7).
  destruct (about_child Nested.TimedOut _ _); [|done]. apply mid_reset; [by eexists|by apply rest_mid].
Qed.

(** ** Dispatch, execution and squash *)

Lemma rest_begin v cand restart s : rest_ok s → rest_ok (beginDVRDiscoveryAtDispatch cfg v cand restart s).
Proof.
  intros Hr. unfold beginDVRDiscoveryAtDispatch.
  assert (Hstep : ∀ s1, rest_ok s1 → rest_ok (s1 <| core ::= begin_core v cand |>
    <| nest ::= λ n, (idle_ndm (start_root cfg (Stride.c_pc cand) (sequence v) n)) <| committedNested := None |> |>)).
  { intros s1 H1. apply rest_nest; [|by apply (rest_ext s1)]. intros n Hn. by apply nest_uncommitted, nest_idle, nest_root. }
  destruct restart; cbv zeta; apply Hstep; [|by apply (rest_ext s)].
  set (s1 := recordDVRDiscoveryGeneration _ _ _ _ _). assert (H1 : rest_ok s1) by by apply rest_record.
  apply rest_nest; [|by apply (rest_ext s1)]. intros n Hn. apply nest_mode; [apply ok_ndm_reset|by apply nest_reset].
Qed.

Lemma rest_dispatch_load v w b s : rest_ok s → rest_ok (dispatch_load cfg v w b s).
Proof.
  intros Hr. unfold dispatch_load. destruct b; [done|].
  destruct (Stride.observeDispatch _ _ _ _ _) as [d [cand|]]; [|by apply (rest_ext s)].
  set (s1 := s <| core ::= _ |>). assert (H1 : rest_ok s1) by by apply (rest_ext s). clearbody s1.
  destruct (pc_allowed _ _); [|done]. unfold on_candidate. cbv zeta.
  assert (Hv : rest_ok (vector_runahead cfg v cand s1)).
  { unfold vector_runahead. destruct (_ && _); [|done]. destruct H1 as [Hn Hs]. split; [done|]. by apply vector_ok. }
  destruct (_ && rob_full v); [done|]. case_bool_decide; [done|].
  destruct (_ && negb (Stride.c_pc cand =? _)); [by apply rest_begin|]. case_bool_decide; [done|].
  destruct (_ || _); [|by apply rest_begin]. apply rest_nest; [|done]. intros n. by apply nest_ext.
Qed.

Lemma rest_dispatch v s : rest_ok s → rest_ok (observeDVRDispatch cfg v s).
Proof.
  intros Hr. unfold observeDVRDispatch. destruct (pre v); [done|]. cbv zeta. set (s1 := s <| core ::= _ |>).
  assert (H1 : rest_ok s1) by by apply (rest_ext s). clearbody s1.
  set (s2 := if isLoad _ then _ else s1).
  assert (H2 : rest_ok s2) by (unfold s2; destruct (isLoad _); [by apply rest_dispatch_load|done]).
  clearbody s2. destruct (_ && _); [by apply (rest_ext s2)|done].
Qed.

Lemma rest_load v a s : rest_ok s → rest_ok (observeDVRLoad cfg v a s).
Proof.
  intros Hr. unfold observeDVRLoad. destruct (pre v); [done|]. cbv zeta. set (s1 := s <| sys ::= _ |> <| core ::= _ |>).
  assert (H1 : rest_ok s1) by (destruct Hr as [Hn Hs]; split; [done|]; by apply demand_sys_ok).
  clearbody s1. destruct (_ && _); [by apply (rest_ext s1)|done].
Qed.

Lemma rest_squash q s : rest_ok s → rest_ok (squashInstIt q s).
Proof.
  intros Hr. unfold squashInstIt. cbv zeta. set (s1 := s <| core ::= _ |>).
  assert (H1 : rest_ok s1) by by apply (rest_ext s). clearbody s1.
  destruct (Discovery.rollback _ _) as [d []]; [|done].
  apply rest_nest; [|by apply (rest_ext s1)]. intros n Hn.
  apply (nest_ext ((reset_nested n) <| nestedDiscoveryMode ::= Ndm.reset |>)); [done..|].
  apply nest_mode; [apply ok_ndm_reset|by apply nest_reset].
Qed.


(** ** The root discovery *)

(** An open discovery: its trigger is that of the controller, of the loop-bound detector and of the
    recorded program. *)
Definition open_ok c : Prop :=
  currentTriggerPC c = Discovery.triggerPC (discovery c)
  ∧ LoopBound.triggerPC (loopBoundDetector c) = currentTriggerPC c
  ∧ headed (instructionRecorder c) (currentTriggerPC c).

(** Outside of a discovery all its mechanisms are reset. *)
Definition closed_ok c : Prop :=
  taintTracker c = Taint.init ∧ committedFinalLoadPC c = 0 ∧ loopBoundDetector c = LoopBound.init
  ∧ instructionRecorder c = Recorder.reset.

Record core_ok (max : Z) c : Prop := mkCoreOk {
  co_stride : Stride.wf (strideDetector c);
  co_controller : Discovery.ctl_ok max (discovery c);
  co_phase : if Discovery.isDiscovering (discovery c) then open_ok c else closed_ok c;
  co_dependent : dispatchDependentLoads c ⊆ dispatchTainted c;
  co_tainted : dispatchTainted c ⊆ dispatchRecorded c
}.

Lemma virtual_trigger i d d' :
  LoopBound.virtual_compare i d = Some d' → LoopBound.triggerPC d' = LoopBound.triggerPC d.
Proof. unfold LoopBound.virtual_compare. repeat case_match; try done. by intros [= <-]. Qed.

Lemma loop_trigger i regs d : LoopBound.triggerPC (LoopBound.observe i regs d).1 = LoopBound.triggerPC d.
Proof.
  unfold LoopBound.observe. destruct (_ && LoopBound.is_compare i).
  { unfold LoopBound.observe_compare. by repeat case_match. }
  destruct (_ || _); [done|]. destruct (branchTarget i) as [target|]; [|done].
  unfold LoopBound.observe_branch. cbv zeta.
  set (d0 := if LoopBound.seenBranch d && _ && _ then _ else d).
  assert (E0 : LoopBound.triggerPC d0 = LoopBound.triggerPC d) by (unfold d0; by destruct (_ && (_ <? target))).
  clearbody d0. destruct (_ <? target); [done|]. cbn [fst].
  destruct (LoopBound.virtual_compare i d0) as [d1|] eqn:Ev; simpl;
    [apply virtual_trigger in Ev; rewrite <- E0, <- Ev|rewrite <- E0];
    (destruct (_ && _); [|done]); unfold LoopBound.close_loop; by destruct regs.
Qed.

(** The body of a commit. *)
Lemma body_frame v c t c' t' :
  body_commit v c t = Some (c', t') →
  discovery c' = discovery c ∧ strideDetector c' = strideDetector c
  ∧ currentTriggerPC c' = currentTriggerPC c
  ∧ LoopBound.triggerPC (loopBoundDetector c') = LoopBound.triggerPC (loopBoundDetector c)
  ∧ (∃ b, instructionRecorder c' = instructionRecorder c
          ∨ instructionRecorder c' = (Recorder.record (instructionRecorder c) (inst v) b).1)
  ∧ dispatchTainted c' = dispatchTainted c ∖ {[sequence v]}
  ∧ dispatchRecorded c' = dispatchRecorded c ∖ {[sequence v]}
  ∧ dispatchDependentLoads c' = dispatchDependentLoads c ∖ {[sequence v]}.
Proof.
  unfold body_commit. cbv zeta. set (b := bool_decide (sequence v ∈ dispatchTainted c)).
  destruct (match effAddr v with Some _ => _ | None => _ end) as [t1|]; [|done]. cbn [mbind option_bind].
  intros [= <- _]. simpl. rewrite loop_trigger.
  case_bool_decide; case_bool_decide; split_and!; try done; exists b; simpl; tauto.
Qed.

Lemma body_ok max v c t c' t' :
  Discovery.isDiscovering (discovery c) = true → core_ok max c → body_commit v c t = Some (c', t') → core_ok max c'.
Proof.
  intros Hd [Hs Hc Hp H1 H2] Hb. rewrite Hd in Hp. destruct Hp as (P1 & P2 & P3).
  apply body_frame in Hb as (E1 & E2 & E3 & E4 & (b & E5) & E6 & E7 & E8).
  constructor; rewrite ?E1, ?E2, ?E6, ?E7, ?E8; try done; [|set_solver..].
  rewrite Hd. unfold open_ok. rewrite E1, E3, E4. split; [done|]. split; [done|].
  destruct E5 as [->| ->]; [done|by apply record_headed].
Qed.

Lemma clear_core_ok max c : Stride.wf (strideDetector c) → Discovery.ctl_ok max (discovery c) →
  Discovery.isDiscovering (discovery c) = false →
  dispatchDependentLoads c ⊆ dispatchTainted c → dispatchTainted c ⊆ dispatchRecorded c →
  ∀ table, core_ok max ((clear_core (c <| strideDetector ::= Stride.endDiscovery |>))
    <| vectorRenameTable := table |> <| vectorInstructionRegister := Vir.reset |>)
  ∧ core_ok max (clear_core (c <| strideDetector ::= Stride.endDiscovery |>)).
Proof.
  intros Hs Hc Hd H1 H2 table. apply Stride.end_wf in Hs. split; constructor; try done; simpl; by rewrite Hd.
Qed.


(** The parts [core_ok] looks at, without the initial value of the trigger. *)
Lemma core_ext max c c' :
  strideDetector c' = strideDetector c → discovery c' = discovery c →
  (taintTracker c', instructionRecorder c', committedFinalLoadPC c', loopBoundDetector c', currentTriggerPC c')
    = (taintTracker c, instructionRecorder c, committedFinalLoadPC c, loopBoundDetector c, currentTriggerPC c) →
  (dispatchTainted c', dispatchDependentLoads c', dispatchRecorded c')
    = (dispatchTainted c, dispatchDependentLoads c, dispatchRecorded c) →
  core_ok max c → core_ok max c'.
Proof.
  intros E1 E2 [= E3 E4 E5 E6 E7] [= E8 E9 E10] [Hs Hc Hp H1 H2].
  constructor; unfold open_ok, closed_ok in *; by rewrite ?E1, ?E2, ?E3, ?E4, ?E5, ?E6, ?E7, ?E8, ?E9, ?E10.
Qed.

Lemma trigger_value_ok max v b c : core_ok max c → core_ok max (trigger_value v b c).
Proof. intros Hc. unfold trigger_value. destruct (_ && _); [|done]. by apply (core_ext max c). Qed.

Lemma core_stride max d c : Stride.wf d → core_ok max c → core_ok max (c <| strideDetector := d |>).
Proof. intros Hd []. by constructor. Qed.

Lemma core_begin max v cand (restart : bool) c :
  0 < max < 2 ^ 32 → Stride.c_pc cand = v_pc v → Stride.wf (strideDetector c) → Discovery.ctl_ok max (discovery c) →
  restart = true ∨ Discovery.isDiscovering (discovery c) = false →
  core_ok max (begin_core v cand (c <| discovery ::= λ d,
    (if restart then Discovery.restart else Discovery.arm) d cand (sequence v) |>)).
Proof.
  intros Hm Hpc Hs Hc Hr.
  set (a := (if restart then Discovery.restart else Discovery.arm) (discovery c) cand (sequence v)).
  assert (E : Discovery.ctl_ok max a ∧ Discovery.isDiscovering a = true ∧ Discovery.triggerPC a = Stride.c_pc cand).
  { unfold a. split.
    - destruct restart; [apply (Discovery.step_ok max _ _ _ Hm Hc (Discovery.step_restart _ _ _))|
                         apply (Discovery.step_ok max _ _ _ Hm Hc (Discovery.step_arm _ _ _))].
    - destruct restart; [done|]. destruct Hr as [|Hr]; [done|]. destruct Hc as [_ Hst]. unfold Discovery.arm.
      unfold Discovery.isDiscovering in Hr. by destruct (Discovery.state (discovery c)). }
  destruct E as (E1 & E2 & E3).
  assert (Ed : discovery (begin_core v cand (c <| discovery ::= λ d,
    (if restart then Discovery.restart else Discovery.arm) d cand (sequence v) |>)) = a) by done.
  constructor; rewrite ?Ed, ?E2; try done; [by apply Stride.begin_wf|].
  unfold open_ok. rewrite Ed, E3. split; [done|]. split; [done|]. simpl. rewrite Hpc. apply begin_headed.
Qed.

Lemma observe_speculative_ok max v c :
  Discovery.isDiscovering (discovery c) = true → core_ok max c → core_ok max (observe_speculative v c).
Proof.
  intros Hw [Hs Hc Hp S1 S2]. rewrite Hw in Hp. unfold observe_speculative.
  assert (Ho : Taint.dependentLoad (Taint.observeSpeculative (taintTracker c) (inst v) (sequence v)).2 = true →
    Taint.taintedInstruction (Taint.observeSpeculative (taintTracker c) (inst v) (sequence v)).2 = true).
  { unfold Taint.observeSpeculative, Taint.observe. simpl. by intros [_ ?]%andb_true_iff. }
  destruct (Taint.observeSpeculative _ _ _) as [t o]. simpl in Ho.
  destruct (Taint.taintedInstruction o), (Taint.dependentLoad o); try by specialize (Ho eq_refl).
  all: constructor; try done; simpl; try (by rewrite Hw); set_solver.
Qed.

Lemma dispatch_core_ok max v s :
  0 < max < 2 ^ 32 → core_ok max (core s) → core_ok max (core (observeDVRDispatch cfg v s)).
Proof.
  intros Hm Hok. unfold observeDVRDispatch. destruct (pre v); [done|]. cbv zeta. set (s1 := s <| core ::= _ |>).
  set (d1 := (Discovery.observeDispatch (discovery (core s)) (v_pc v) (sequence v)).1).
  assert (Hd : Discovery.ctl_ok max d1 ∧ Discovery.isDiscovering d1 = Discovery.isDiscovering (discovery (core s))
             ∧ Discovery.triggerPC d1 = Discovery.triggerPC (discovery (core s))).
  { split; [apply (Discovery.step_ok max _ _ _ Hm (co_controller _ _ Hok) (Discovery.step_dispatch _ _ _))|].
    unfold d1, Discovery.observeDispatch. destruct (_ || _); [done|]. by destruct (_ =? _). }
  destruct Hd as (D1 & D2 & D3).
  assert (H1 : core_ok max (core s1)).
  { destruct Hok as [Hs Hc Hp S1 S2]. constructor; [done|exact D1| |done|done].
    change (discovery (core s1)) with d1. rewrite D2. unfold open_ok in *. change (discovery (core s1)) with d1.
    by rewrite D3. }
  change (discovery (core s1)) with d1. set (w := Discovery.isDiscovering d1 && _). set (b := Discovery.stopPending d1).
  set (s2 := if isLoad _ then _ else s1).
  assert (H2 : core_ok max (core s2) ∧ (w = true → Discovery.isDiscovering (discovery (core s2)) = true)).
  { assert (Hw : w = true → Discovery.isDiscovering d1 = true) by (unfold w; by destruct (Discovery.isDiscovering d1)).
    unfold s2. destruct (isLoad _); [|done].
    destruct (dispatch_load_core cfg v w b s1) as (d & Hwf & [E|(cand & restart & E & Hpc & Hr)]); rewrite E.
    - split; [|done]. apply core_stride; [apply Hwf, H1|done].
    - assert (Hb : core_ok max (begin_core v cand ((core s1) <| strideDetector := d |> <| discovery ::= λ d,
        (if restart then Discovery.restart else Discovery.arm) d cand (sequence v) |>)))
        by (apply (core_begin max v cand restart ((core s1) <| strideDetector := d |>)); try done; apply Hwf, H1).
      split; [exact Hb|]. intros _. match goal with |- ?x = true => destruct x eqn:Ei end; [done|]. exfalso.
      pose proof (co_phase _ _ Hb) as Hp. rewrite Ei in Hp. destruct Hp as (_ & _ & _ & Hp).
      pose proof (begin_headed (inst v)) as (_ & Hcount & _). change (Recorder.begin (inst v) = Recorder.reset) in Hp.
      by rewrite Hp in Hcount. }
  destruct H2 as [H2 Hw]. clearbody s2. destruct (w && _) eqn:Ew; [|done]. apply andb_true_iff in Ew as [Ew _].
  by apply observe_speculative_ok; [apply Hw|].
Qed.

Lemma load_core_ok max v a s : core_ok max (core s) → core_ok max (core (observeDVRLoad cfg v a s)).
Proof.
  intros Hok. unfold observeDVRLoad. destruct (pre v); [done|]. cbv zeta. set (s1 := s <| sys ::= _ |> <| core ::= _ |>).
  assert (H1 : core_ok max (core s1)).
  { apply (core_stride max _ (core s)); [|done]. by apply Stride.observe_wf, Hok. }
  clearbody s1. destruct (_ && _); [by apply (core_ext max (core s1))|done].
Qed.

Lemma squash_core_ok max q s :
  0 < max < 2 ^ 32 → core_ok max (core s) → core_ok max (core (squashInstIt q s)).
Proof.
  intros Hm [Hs Hc Hp S1 S2]. unfold squashInstIt. cbv zeta.
  destruct (Discovery.rollback _ q) as [d b] eqn:E. change (Discovery.rollback (discovery (core s)) q = (d, b)) in E.
  pose proof (Discovery.step_ok max _ _ _ Hm Hc (Discovery.step_rollback _ q)) as Hd. rewrite E in Hd. simpl in Hd.
  apply (Stride.squash_wf _ q) in Hs. destruct b.
  - assert (Ed : Discovery.isDiscovering d = false).
    { unfold Discovery.rollback in E. destruct (_ || _); [done|]. by injection E as <-. }
    constructor; simpl; try done; [by apply Stride.end_wf|by rewrite Ed].
  - constructor; try done. simpl. destruct (Discovery.isDiscovering _); [done|].
    destruct Hp as (P1 & P2 & P3 & P4). split; [|done]. simpl. by rewrite P1.
Qed.


Lemma observe_idle (d : Discovery.Controller) p q :
  Discovery.state d = Discovery.Idle → Discovery.observeCommit d p q = (d, Discovery.Result_none).
Proof. intros E. unfold Discovery.observeCommit. by rewrite E. Qed.

(** The end of a commit, from the controllers' count on. *)
Lemma conclude_core_ok max v b c s1 :
  0 < max < 2 ^ 32 → core_ok max c →
  (let o := Discovery.observeCommit (discovery c) (v_pc v) (sequence v) in
   core s1 = trigger_value v b (c <| discovery := o.1 |>)
   → core_ok max (core (conclude_discovery cfg v o.2 s1))).
Proof.
  intros Hm Hc o E1. subst o.
  pose proof (Discovery.step_ok max _ _ _ Hm (co_controller _ _ Hc) (Discovery.step_commit _ (v_pc v) (sequence v))) as Ho.
  destruct (Discovery.state (discovery c)) eqn:Est.
  - rewrite (observe_idle _ _ _ Est) in *. cbn [snd fst] in *. unfold conclude_discovery. cbn.
    rewrite E1. apply trigger_value_ok. by apply (core_ext max c).
  - exfalso. destruct Hc as [_ [_ Hst] _ _ _]. by rewrite Est in Hst.
  - pose proof (observe_open (discovery c) (v_pc v) (sequence v) Est) as Hcase. revert E1 Ho Hcase.
    destruct (Discovery.observeCommit _ _ _) as [d r]. cbn [fst snd]. intros E1 Ho Hcase.
    assert (Hd : Discovery.isDiscovering (discovery c) = true) by (unfold Discovery.isDiscovering; by rewrite Est).
    destruct Hc as [Hs Hctl Hp S1 S2]. rewrite Hd in Hp. destruct Hcase as [(Er & E2 & _ & _ & E3)|[E2 Er]].
    + unfold conclude_discovery. rewrite Er, E1. apply trigger_value_ok. constructor; try done. simpl.
      unfold Discovery.isDiscovering. rewrite E2. unfold open_ok in *. simpl. by rewrite E3.
    + assert (Hi : Discovery.isDiscovering d = false) by (unfold Discovery.isDiscovering; by rewrite E2).
      assert (F : strideDetector (core s1) = strideDetector c ∧ discovery (core s1) = d
        ∧ dispatchTainted (core s1) = dispatchTainted c ∧ dispatchRecorded (core s1) = dispatchRecorded c
        ∧ dispatchDependentLoads (core s1) = dispatchDependentLoads c)
        by (rewrite E1; unfold trigger_value; by destruct (_ && _)).
      destruct F as (F1 & F2 & F3 & F4 & F5). rewrite <- F1 in Hs. rewrite <- F2 in Ho, Hi.
      rewrite <- F3, <- F5 in S1. rewrite <- F3, <- F4 in S2.
      pose proof (clear_core_ok max (core s1) Hs Ho Hi S1 S2) as Hclear. unfold conclude_discovery.
      destruct Er as [-> | ->].
      * destruct (complete_core cfg v r s1) as [table ->]. apply Hclear.
      * rewrite (abort_core _ v). by apply (Hclear (vectorRenameTable (core s1))).
Qed.

Lemma commit_core_ok max v s s' :
  0 < max < 2 ^ 32 → core_ok max (core s) → instDone cfg v s = Some s' → core_ok max (core s').
Proof.
  intros Hm Hok Hi. destruct (whole v) eqn:Hw; [|unfold instDone in Hi; rewrite Hw in Hi; by injection Hi as <-].
  destruct (pre v) eqn:Hpre.
  { unfold instDone in Hi. rewrite Hw, Hpre in Hi. injection Hi as <-. by rewrite (proj1 (oracle_frame _ _ _)). }
  destruct (commit_steps cfg v s s' Hw Hpre Hi) as (c & t & s1 & Hb & E1 & ->).
  eapply conclude_core_ok; [done| |exact E1].
  destruct (Discovery.inDiscoveryBody _ _) eqn:Ein; [|by rewrite Hb].
  eapply body_ok; [|exact Hok|exact Hb].
  unfold Discovery.inDiscoveryBody in Ein. unfold Discovery.isDiscovering. by case_bool_decide.
Qed.

(** ** The whole engine *)

Definition sound (max : Z) s : Prop := core_ok max (core s) ∧ rest_ok s.

Lemma handle_sound max ev s s' :
  0 < max < 2 ^ 32 → sound max s → handle cfg ev s = Some s' → sound max s'.
Proof.
  intros Hm [Hc Hr]. destruct ev as [v|v a|q|v]; cbn [handle].
  - intros [= <-]. split; [by apply dispatch_core_ok|by apply rest_dispatch].
  - intros [= <-]. split; [by apply load_core_ok|by apply rest_load].
  - intros [= <-]. split; [by apply squash_core_ok|by apply rest_squash].
  - intros Hi. split; [by eapply commit_core_ok|by eapply rest_commit].
Qed.

(** A step of the whole machine: of the engine, or of the helper and its requests, on the requests the
    engine has launched. *)
Inductive Step :=
| Drive (ev : Event (B := B))
| Assist (ev : Prefetch.Event (B := B)).

Definition machine_step (st : Step) s : option (State B) :=
  match st with
  | Drive ev => handle cfg ev s
  | Assist ev => y ← Prefetch.handle (prefetch cfg) (template_at (heap s)) ev (sys s); Some (s <| sys := y |>)
  end.

Definition machine_run (sts : list Step) s : option (State B) :=
  foldl (λ m st, s ← m; machine_step st s) (Some s) sts.

Lemma machine_step_sound max st s s' :
  0 < max < 2 ^ 32 → sound max s → machine_step st s = Some s' → sound max s'.
Proof.
  intros Hm Hs. destruct st as [ev|ev]; cbn [machine_step]; [by apply handle_sound|].
  destruct Hs as [Hc [Hn Hy]].
  destruct (handle_ok (prefetch cfg) (template_at (heap s)) ev (sys s) Hy) as (y & -> & Hy').
  by intros [= <-].
Qed.

Lemma run_sound max evs : ∀ s s', 0 < max < 2 ^ 32 → sound max s → machine_run evs s = Some s' → sound max s'.
Proof.
  unfold machine_run. induction evs as [|ev evs IH] using rev_ind; intros s s' Hm Hs; [by intros [= <-]|].
  rewrite foldl_app. simpl. destruct (foldl _ (Some s) evs) as [s1|] eqn:E; [|done]. cbn [mbind option_bind].
  apply machine_step_sound; [done|]. by eapply IH.
Qed.

Lemma init_sound entries max threshold ndm_max :
  (0 < entries)%nat → 0 < max → 0 < ndm_max < 2 ^ 28 → sound max (State_init entries max threshold ndm_max).
Proof.
  intros He Hm Hn. split; [|split].
  - constructor; try done. by apply Stride.init_wf.
  - constructor; [by apply Ndm.ok_create|done|]. split_and!; try done. simpl. unfold Flatten.MaxInvocations. lia.
  - apply Sys_init_ok.
Qed.

(** C2: The invariant of the discovery engine.  Let dispatches, loads, squashes, commits, and steps of
    the helper and its requests come in any order and with any contents, from the constructor on (a
    non-empty stride table, instruction limits from 1 to 2^32 - 1 for the discovery and to 2^28 - 1 for the
    Nested Discovery Mode), up to any point before a division traps in the training of a relation.  Then
    stride table and controller keep their own invariants; while a discovery is open, the controller,
    the loop-bound detector and the recorder agree on the trigger, with which the program begins; while none is, taint tracker, final load, loop-bound detector and
    recorder are as after their resets (a pending nested candidate may survive); the sets dispatch
    leaves for commit are nested; the plan of the Nested Discovery Mode is well formed; the child
    context is reset or holds a program that begins with its trigger; the batch of invocations is
    within its bound; and the launched requests keep their invariant. *)
Theorem engine_invariant entries max threshold ndm_max evs s
    (He : (0 < entries)%nat) (Hm : 0 < max < 2 ^ 32) (Hn : 0 < ndm_max < 2 ^ 28)
    (Hrun : machine_run evs (State_init entries max threshold ndm_max) = Some s) :
  core_ok max (core s) ∧ nest_ok (nest s) ∧ sys_ok (prefetch cfg) 0 (sys s).
Proof.
  destruct (run_sound max evs _ s Hm (init_sound entries max threshold ndm_max He (proj1 Hm) Hn) Hrun) as [? []].
  done.
Qed.
End engine.

(** ** An example: the discovery of Engine.v from the constructor on, its open state, and its end by
    the trigger's next dispatch and commit. *)
Definition demo_again : View Array :=
  demo_view (plain_inst 20 64 0 [demo_x 10] [demo_x 11] true) (Some 4144).
Definition whole_discovery : list (Step (B := Array)) :=
  (Drive <$> ((λ a, ELoad (demo_view demo_trigger (Some a)) a) <$> [4096; 4104; 4112; 4120; 4128])
             ++ EDispatch (demo_view demo_trigger None) :: demo_events ++ [EDispatch demo_again])
  ++ [Assist (ECycle no_slots [open_world] 10); Drive (ECommit demo_again)].
Definition run_whole (k : nat) : State Array :=
  default demo_trained (machine_run demo_config (take k whole_discovery) (State_init 8 100 4 100)).

Lemma engine_invariant_witness :
  open_ok (core (run_whole 17)) ∧ closed_ok (core (run_whole 18))
  ∧ sys_ok (prefetch demo_config) 0 (sys (run_whole 18)).
Proof.
  destruct (engine_invariant demo_config 8 100 4 100 (take 17 whole_discovery) (run_whole 17)) as ([_ _ P17 _ _] & _);
    [lia|lia|lia|vm_compute; reflexivity|].
  destruct (engine_invariant demo_config 8 100 4 100 (take 18 whole_discovery) (run_whole 18)) as ([_ _ P18 _ _] & _ & Hs);
    [lia|lia|lia|vm_compute; reflexivity|].
  assert (E17 : Discovery.isDiscovering (discovery (core (run_whole 17))) = true) by (vm_compute; reflexivity).
  assert (E18 : Discovery.isDiscovering (discovery (core (run_whole 18))) = false) by (vm_compute; reflexivity).
  rewrite E17 in P17. rewrite E18 in P18. exact (conj P17 (conj P18 Hs)).
Defined.
End EngineInv.
