(* ===== verification/InstList.v ===== *)
(** * The instruction list of the CPU

    Model of [CPU::addInst], [removeFrontInst], [removeInstsUntil], [removeInstsNotInROB], the list part of
    [squashInstIt] and [cleanUpRemovedInsts] (src/cpu/o3/cpu.cc): the list of all instructions
    between fetch and commit, the walks over it that squash, and the queue of what is erased at the
    end of a cycle.  Iterators are named by the sequence numbers of their instructions.  These walks are
    what shows squashes to the discovery engine of Driver.v. *)

From stdpp Require Import gmap sorting.
From S2P Require Import Prelude Inst Lanes Prefetch Driver Engine.

Module InstList.
Import Lanes Prefetch Driver Engine.

(** What the list reads and sets of an instruction. *)
Record Node := mkNode { node : DynInst;  threadNumber : nat;  squashed : bool }.
#[export] Instance eta_Node : Eta Node := λ r, mkNode (node r) (threadNumber r) (squashed r).
Definition number (x : Node) : Z := seqNum (node x).

Record Insts := mkInsts { instList : list Node;  removeList : list Z;  removeInstsThisCycle : bool }.
#[export] Instance eta_Insts : Eta Insts := λ r, mkInsts (instList r) (removeList r) (removeInstsThisCycle r).
Definition Insts_init : Insts := mkInsts [] [] false.

(** [addInst] *)
Definition addInst (x : Node) (s : Insts) : Insts := s <| instList ::= λ l, l ++ [x] |>.

(** [removeFrontInst], of an instruction that has committed. *)
Definition removeFrontInst (seq : Z) (s : Insts) : Insts :=
  s <| removeInstsThisCycle := true |> <| removeList ::= λ q, q ++ [seq] |>.

(** [squashInstIt] on the list: an instruction of the thread is marked and queued, and the numbers of
    the squashed ones, which the discovery engine sees, are collected. *)
Definition squashInstIt (x : Node) (tid : nat) (s : Insts * list Z) : Insts * list Z :=
  if (threadNumber x =? tid)%nat
  then (s.1 <| instList ::= map (λ y, if number y =? number x then y <| squashed := true |> else y) |>
            <| removeList ::= λ q, q ++ [number x] |>, s.2 ++ [number x])
  else s.

(** The loop of [removeInstsUntil]; [back] is the list from the iterator back to its beginning. *)
Fixpoint walk_until (seq_num : Z) (tid : nat) (back : list Node) (s : Insts * list Z) : Insts * list Z :=
  match back with
  | x :: back => if seq_num <? number x then walk_until seq_num tid back (squashInstIt x tid s) else s
  | [] => s
  end.

(** [removeInstsUntil]; [None] is the failed assertion of an empty list. *)
Definition removeInstsUntil (seq_num : Z) (tid : nat) (s : Insts) : option (Insts * list Z) :=
  match instList s with
  | [] => None
  | l => Some (walk_until seq_num tid (reverse l) (s <| removeInstsThisCycle := true |>, []))
  end.

(** The loop of [removeInstsNotInROB]: up to the tail of the reorder buffer, or all if it is empty;
    [None] is a walk that leaves the list. *)
Fixpoint walk_to (tail : option Z) (tid : nat) (back : list Node) (s : Insts * list Z) : option (Insts * list Z) :=
  match back with
  | x :: back => if bool_decide (Some (number x) = tail) then Some s
                 else walk_to tail tid back (squashInstIt x tid s)
  | [] => match tail with None => Some s | Some _ => None end
  end.

(** [removeInstsNotInROB] *)
Definition removeInstsNotInROB (tail : option Z) (tid : nat) (s : Insts) : option (Insts * list Z) :=
  match instList s with
  | [] => Some (s, [])
  | l => walk_to tail tid (reverse l) (s <| removeInstsThisCycle := true |>, [])
  end.

(** [std::list::erase]; [None] is an iterator that is not in the list any more. *)
Fixpoint erase (seq : Z) (l : list Node) : option (list Node) :=
  match l with
  | [] => None
  | x :: l => if number x =? seq then Some l else cons x <$> erase seq l
  end.

(** [cleanUpRemovedInsts] *)
Definition cleanUpRemovedInsts (s : Insts) : option Insts :=
  l ← foldl (λ o seq, l ← o; erase seq l) (Some (instList s)) (removeList s);
  Some (mkInsts l [] false).

(** ** Specification *)

Definition in_program_order (l : list Node) : Prop := StronglySorted (λ x y, number x < number y) l.

(** Steps of the pipeline, one after the other. *)
Inductive order_steps {B : Type} : list DynInst * Z → list (Event (B := B)) → list DynInst * Z → Prop :=
| order_none p : order_steps p [] p
| order_more p ev p' evs p'' : order_step p ev p' → order_steps p' evs p'' → order_steps p (ev :: evs) p''.

(** ** Lemmas *)

Definition marked (qs : list Z) (x : Node) : Node := if bool_decide (number x ∈ qs) then x <| squashed := true |> else x.

Lemma marked_number qs x : number (marked qs x) = number x.
Proof. unfold marked. by case_bool_decide. Qed.

Lemma marked_more qs q l :
  map (λ y, if number y =? q then y <| squashed := true |> else y) (marked qs <$> l) = marked (qs ++ [q]) <$> l.
Proof.
  change (map ?f ?k) with (f <$> k). rewrite <- list_fmap_compose. apply list_fmap_ext. intros i x _. simpl.
  rewrite marked_number. unfold marked. destruct (Z.eqb_spec (number x) q) as [->|]; case_bool_decide;
    case_bool_decide; try done; set_solver.
Qed.

(** The walk squashes the younger instructions of the thread from the back. *)
Lemma walk_until_spec q tid l0 back : ∀ s qs,
  (∀ x, x ∈ back → threadNumber x = tid) →
  instList s.1 = marked qs <$> l0 → removeList s.1 = qs → s.2 = qs →
  StronglySorted (λ x y, number y < number x) back →
  let qs' := qs ++ (number <$> filter (λ x, q < number x) back) in
  walk_until q tid back s = (mkInsts (marked qs' <$> l0) qs' (removeInstsThisCycle s.1), qs').
Proof.
  induction back as [|x back IH]; intros [s evs] qs Hall Hl Hr He Ho; simpl in *.
  - rewrite app_nil_r. destruct s. simpl in *. by subst.
  - apply StronglySorted_inv in Ho as [Ho Hf]. destruct (Z.ltb_spec q (number x)) as [Hq|Hq].
    + rewrite filter_cons_True by done. rewrite fmap_cons.
      rewrite (IH _ (qs ++ [number x])); [|intros y Hy; apply Hall; by right| | | |done];
        unfold squashInstIt; rewrite (Hall x ltac:(by left)), Nat.eqb_refl; simpl.
      * by rewrite <- app_assoc.
      * by rewrite Hl, marked_more.
      * by rewrite Hr.
      * by rewrite He.
    + rewrite filter_cons_False by lia.
      assert (E : filter (λ x, q < number x) back = []).
      { clear - Hf Hq. induction Hf as [|y back Hy Hf IH]; [done|]. rewrite filter_cons_False by lia. done. }
      rewrite E, app_nil_r. destruct s. simpl in *. by subst.
Qed.

Lemma list_filter_singleton_True (P : Node → Prop) `{!∀ x, Decision (P x)} x : P x → filter P [x] = [x].
Proof. intros. by rewrite filter_cons_True. Qed.
Lemma list_filter_singleton_False (P : Node → Prop) `{!∀ x, Decision (P x)} x : ¬ P x → filter P [x] = [].
Proof. intros. by rewrite filter_cons_False. Qed.

(** The list splits at a number into what stays and what is squashed. *)
Lemma split_at q l :
  in_program_order l → l = filter (λ x, number x ≤ q) l ++ filter (λ x, q < number x) l.
Proof.
  induction l as [|x l IH]; intros Ho; [done|]. apply StronglySorted_inv in Ho as [Ho Hf].
  destruct (decide (number x ≤ q)) as [Hq|Hq].
  - rewrite filter_cons_True, filter_cons_False by lia. simpl. f_equal. by apply IH.
  - rewrite filter_cons_False, filter_cons_True by lia.
    assert (E1 : filter (λ x, number x ≤ q) l = []).
    { clear - Hf Hq. induction Hf as [|y l Hy Hf IH]; [done|]. by rewrite filter_cons_False by lia. }
    specialize (IH Ho). rewrite E1 in *. simpl in *. by f_equal.
Qed.

Lemma erase_last y l : (∀ x, x ∈ l → number x ≠ number y) → erase (number y) (l ++ [y]) = Some l.
Proof.
  induction l as [|x l IH]; intros Hn; simpl; [by rewrite Z.eqb_refl|].
  rewrite (proj2 (Z.eqb_neq _ _)) by (apply Hn; by left). rewrite IH; [done|]. intros z Hz. apply Hn. by right.
Qed.

(** The queue erases what has been squashed. *)
Lemma erase_squashed k d :
  in_program_order (k ++ d) →
  foldl (λ o seq, l ← o; erase seq l) (Some (k ++ d)) (number <$> reverse d) = Some k.
Proof.
  induction d as [|y d IH] using rev_ind; intros Ho; [by rewrite app_nil_r|].
  rewrite reverse_app. simpl. rewrite app_assoc in *. apply StronglySorted_app in Ho as (Hlt & Ho & _).
  rewrite erase_last; [by apply IH|]. intros x Hx. assert (number x < number y); [|lia].
  apply Hlt; [done|by apply list_elem_of_singleton].
Qed.

Lemma marked_order qs l : in_program_order l → in_program_order (marked qs <$> l).
Proof.
  unfold in_program_order. induction 1 as [|x l Hl IH Hf]; [constructor|]. rewrite fmap_cons. constructor; [done|].
  clear - Hf. induction Hf as [|y l Hy Hf IH]; [constructor|]. rewrite fmap_cons.
  constructor; [by rewrite !marked_number|done].
Qed.

(** The instructions the engine has seen. *)
Definition dispatched (last : Z) (l : list Node) : list DynInst := node <$> filter (λ x, number x ≤ last) l.

Lemma squash_steps {B : Type} q last l :
  in_program_order l →
  order_steps (B := B) (dispatched last l, last) (ESquash <$> (number <$> reverse (filter (λ x, q < number x) l)))
    (dispatched last (filter (λ x, number x ≤ q) l), last).
Proof.
  unfold dispatched. induction l as [|x l IH] using rev_ind; intros Ho; [constructor|].
  pose proof Ho as (Hlt & Hl & _)%StronglySorted_app. specialize (IH Hl).
  destruct (decide (q < number x)) as [Hq|Hq].
  - rewrite (filter_app (λ x, q < number x)), (list_filter_singleton_True (λ x, q < number x)) by done. rewrite reverse_app.
    rewrite (filter_app (λ x, number x ≤ q)), (list_filter_singleton_False (λ x, number x ≤ q)), app_nil_r by lia.
    simpl. eapply order_more; [|exact IH].
    destruct (decide (number x ≤ last)) as [Hs|Hs].
    + rewrite (filter_app (λ x, number x ≤ last)), (list_filter_singleton_True (λ x, number x ≤ last)) by done. rewrite fmap_app. simpl. apply order_squash.
    + rewrite (filter_app (λ x, number x ≤ last)), (list_filter_singleton_False (λ x, number x ≤ last)), app_nil_r by done. apply order_unseen. lia.
  - assert (Hall : ∀ y, y ∈ l ++ [x] → number y ≤ q).
    { intros y [Hy|Hy%list_elem_of_singleton]%elem_of_app; [|subst; lia].
      pose proof (Hlt y x Hy ltac:(by apply list_elem_of_singleton)). lia. }
    assert (E : filter (λ x, q < number x) (l ++ [x]) = []).
    { clear - Hall. induction (l ++ [x]) as [|y k IH]; [done|]. rewrite filter_cons_False.
      - apply IH. intros z Hz. apply Hall. by right.
      - specialize (Hall y ltac:(by left)). lia. }
    rewrite E, (split_at q (l ++ [x]) Ho) at 1. rewrite E, app_nil_r. constructor.
Qed.

(** C15: A squash reaches the discovery engine in the order its theorems assume.  Take the CPU's list,
    in program order and of one thread, with some of its instructions dispatched and the younger ones
    only fetched.  A call that squashes down to a number shows the engine exactly the
    instructions younger than it, each once and from the youngest on, which are steps of the
    pipeline order that lead from the dispatched instructions to those of them that stay; and the
    end of the cycle erases exactly the squashed ones, no iterator being erased twice. *)
Theorem squashes_in_order {B : Type} q tid last s
    (Hne : instList s ≠ []) (Hr : removeList s = [])
    (Hall : ∀ x, x ∈ instList s → threadNumber x = tid) (Ho : in_program_order (instList s)) :
  ∃ s' qs, removeInstsUntil q tid s = Some (s', qs)
  ∧ qs = number <$> reverse (filter (λ x, q < number x) (instList s))
  ∧ order_steps (B := B) (dispatched last (instList s), last) (ESquash <$> qs)
      (dispatched last (filter (λ x, number x ≤ q) (instList s)), last)
  ∧ cleanUpRemovedInsts s' = Some (mkInsts (filter (λ x, number x ≤ q) (instList s)) [] false).
Proof.
  set (l := instList s) in *. set (k := filter (λ x, number x ≤ q) l). set (d := filter (λ x, q < number x) l).
  set (qs := number <$> reverse d).
  assert (Hwalk : removeInstsUntil q tid s = Some (mkInsts (marked qs <$> l) qs true, qs)).
  { assert (Em : removeInstsUntil q tid s
      = Some (walk_until q tid (reverse l) (s <| removeInstsThisCycle := true |>, [])))
      by (unfold removeInstsUntil, l; by destruct (instList s)).
    rewrite Em, (walk_until_spec q tid l (reverse l) _ []); simpl; try done.
    - unfold qs, d. by rewrite filter_reverse.
    - intros x Hx. rewrite elem_of_reverse in Hx. exact (Hall x Hx).
    - fold l. unfold marked. rewrite (list_fmap_ext _ id l); [by rewrite list_fmap_id|].
      intros i x _. by rewrite bool_decide_eq_false_2 by (by intros ?%not_elem_of_nil).
    - clear - Ho. unfold in_program_order in Ho. induction Ho as [|x l Ho IH Hf]; [constructor|].
      rewrite reverse_cons. apply StronglySorted_app_2; [|done|by repeat constructor].
      intros y z Hy ->%list_elem_of_singleton. rewrite elem_of_reverse in Hy.
      rewrite Forall_forall in Hf. by apply Hf. }
  exists (mkInsts (marked qs <$> l) qs true), qs. split; [done|]. split; [done|].
  split; [by apply squash_steps|]. unfold cleanUpRemovedInsts. simpl.
  assert (Ek : marked qs <$> k = k).
  { rewrite <- (list_fmap_id k) at 2. apply list_fmap_ext. intros i x Hx%list_elem_of_lookup_2. unfold marked.
    rewrite bool_decide_eq_false_2; [done|]. intros (y & Ey & Hy)%list_elem_of_fmap. rewrite elem_of_reverse in Hy.
    apply list_elem_of_filter in Hx, Hy. lia. }
  assert (Eq : qs = number <$> reverse (marked qs <$> d)).
  { unfold qs at 1. rewrite <- fmap_reverse, <- list_fmap_compose. apply list_fmap_ext. intros i x _.
    simpl. by rewrite marked_number. }
  assert (El : marked qs <$> l = k ++ (marked qs <$> d)).
  { transitivity (marked qs <$> (k ++ d)); [f_equal; by apply split_at|]. by rewrite fmap_app, Ek. }
  assert (Hkd : in_program_order (k ++ (marked qs <$> d))).
  { rewrite <- Ek, <- fmap_app. apply marked_order. unfold k, d. by rewrite <- split_at. }
  pose proof (erase_squashed k _ Hkd) as He. rewrite <- Eq in He. by rewrite El, He.
Qed.

(** ** An example: the instructions of Engine.v's example, the last one only fetched, squashed down to the
    second. *)
Definition demo_insts : Insts :=
  mkInsts ((λ i, mkNode i 0 false) <$> [demo_trigger; demo_add; demo_load; demo_wrong]) [] false.

Lemma squashes_in_order_witness :
  ∃ s', removeInstsUntil 11 0 demo_insts = Some (s', [13; 12])
  ∧ order_steps (B := Array) ([demo_trigger; demo_add; demo_load], 12) [ESquash 13; ESquash 12]
      ([demo_trigger; demo_add], 12)
  ∧ (map number ∘ instList) <$> cleanUpRemovedInsts s' = Some [10; 11].
Proof.
  destruct (squashes_in_order (B := Array) 11 0 12 demo_insts) as (s' & qs & E & Eq & Hs & Hc);
    [done|done|by repeat (apply Forall_forall; repeat constructor)| |].
  { unfold in_program_order. repeat constructor; vm_compute; reflexivity. }
  exists s'. assert (Eq' : qs = [13; 12]) by (rewrite Eq; vm_compute; reflexivity). subst qs.
  rewrite Eq' in *. split; [exact E|]. split; [exact Hs|]. rewrite Hc. vm_compute. reflexivity.
Defined.
End InstList.
